(* ===== verification/_CoqProject ===== *)
-Q . S2P
Prelude.v
Calls.v
Bytes.v
Chunks.v
GeomCodec.v
MemHeader.v
DiskHeader.v
GoSort.v
Prefetch.v
Fetch.v
SharedBitmap.v
SharedCache.v
SharedCacheCrash.v
SharedReg.v
Resolver.v
Streams.v
Float64.v
GovSource.v
VsockWire.v
SlotStore.v
Uffd.v
Nbd.v
Addr.v
Crash.v
GoStrings.v
Netns.v
NetPool.v
Scheduler.v
Pressure.v
DbFencing.v
WalSpool.v
WalRelay.v
GoTime.v
DbArchive.v
Lifecycle.v
Idle.v
Janitor.v
Leases.v
Failover.v
Slugs.v
OrgDb.v
Orgs.v
Edge.v
Tokens.v
Scope.v
Templates.v
Create.v
DmSnap.v
Databases.v
Broker.v
DbProxy.v
Director.v
DbWatch.v
Clone.v
Snapshots.v
ForkTree.v
Resources.v
