(* ===== verification/Prelude.v ===== *)
(** * PandaStack: a verification library of the sandbox platform

    PandaStack runs Firecracker micro-VMs ("sandboxes") on a fleet of hosts.
    One agent per host (src/agent) creates, hibernates, wakes and deletes the
    VMs, streams their memory and disk images from an object store, gives each
    a network namespace, and archives the write-ahead log (WAL) of the managed
    Postgres databases that run in some of them.  A control plane (src/api)
    places sandboxes on agents and owns the databases' archives.  This library
    translates the core logic of the two into Rocq and proves what makes it
    correct.

    ** The files and the code they model

    Shared ground.
    - Prelude (this file): fallible results, integers at their width, bytes,
      slices, invariants of step relations.
    - Bytes, GoSort, GoStrings, GoTime, Float64: the parts of Go's os, sort,
      strings, time and float64 the program uses.
    - Crash: computations that die between any two durable effects, with a
      triple that has a second postcondition for that.
    - Calls: handlers as trees of calls with any answers, with predicates on
      trees that give theorems about every run.

    Image streaming: agent/internal/memstream (vm.mem), agent/internal/diskstream
    (rootfs), and their two consumers.
    - Chunks is the interface of a header ([StreamHeader]: chunk size, total
      size, a presence bit and a digest per chunk); MemHeader and DiskHeader
      (header.go of each package) are its instances, on the record layout of
      GeomCodec.  Everything below is proved once against the interface.
    - Prefetch: prefetch.go of both packages.
    - Fetch, SharedBitmap, SharedCache, SharedReg: sharedcache.go of both, the
      per-host cache.  SharedCacheCrash makes a step relation of the same
      definitions: concurrent readers, the flusher, power loss and reopening.
    - Resolver: resolver.go of both.  GovSource: govsource.go, the egress cap.
    - Streams puts the two stacks together and states their end-to-end claims.
    - Nbd: agent/internal/nbdstream/server_linux.go serves the disk stack to the
      kernel ([Backend] is its interface to it).  Uffd: agent/internal/uffd
      serves the memory stack to the guest's page faults.

    Networking of a host.
    - SlotStore: agent/internal/slotstore, the table of network slots.
    - Addr: the /30 arithmetic and names of agent/internal/network.
    - Netns: agent/internal/netns; the kernel is the class [Kernel], with the
      documented effect of the commands in [KernelLaws].
    - NetPool: agent/internal/network (pool.go, natid.go) over SlotStore and
      Netns, in the crash logic.

    Sandboxes on an agent: agent/internal/sandbox.
    - Lifecycle: manager.go (Hibernate, Wake, EnsureRunning, Pause, Resume,
      delete, health monitor, Recover), teardown.go, db_restore.go and the
      Firecracker driver, for one sandbox id, cut at every point where a kill
      or another goroutine can come in.
    - Idle: the activity and tunnel bookkeeping, the lifecycle settings, the
      idle sweeper, reaper.go and admission.go.
    - Janitor: who owns a row, the failed-row janitor, the orphan-loop sweep.
    - Pressure: pressure.go, the memory-pressure ladder.
    - Create: Manager.Create on all its paths, and the child of a fork, in the
      crash logic.  DmSnap: dmsnap.go, the copy-on-write root disks, as threads
      that interleave.  Templates: template_meta.go, template_snap.go and
      agent/internal/seed, from a template's bake to what a restore takes.
    - Leases: leasesink.go and agent/internal/registry, who owns a sandbox over
      the whole fleet.
    - DbWatch: db_idle.go, db_monitor.go and db_rotate.go, the managed databases
      of a host.
    - Clone: clone.go, the copy of a root disk.  Snapshots: named snapshots
      (manager.go's Snapshot, agent/internal/snapstore, snapshot_gc.go), from the
      taking over the bucket to a restore on any host, and their collection.
      ForkTree: forktree.go and api/fork_hibernate.go, branches of one sandbox.
    - Resources: volume_autogrow.go, cpupin.go and cputiers.go.
    - Scope: agent/internal/api, tenancy on the routes of an agent.
    - WalSpool, WalRelay: wal_relay.go.  WalSpool is the spool and its uploader
      as interleaved file-system steps; WalRelay is generation pinning, grants,
      serving and the base-backup schedule.
    - VsockWire: agent/internal/guest/vsockwire, the host/guest frames.

    Control plane: api.
    - Scheduler: api/internal/scheduler.
    - Director: api/cmd/api/multinode.go over Scheduler, the routing of requests.
    - Slugs, OrgDb, Orgs, Edge, Tokens: orgs.go, org_resolver.go, auth.go,
      auth_pg.go and jwks.go.  OrgDb has the shared tables, the statements and a
      program logic for requests that interleave; Orgs the handlers; Edge the
      front that identifies a request, and all requests of all replicas; Tokens
      the two stores of API tokens against their common interface
      ([TokenStoreLaws]).
    - DbFencing, DbArchive: api/cmd/api/db_fencing.go and db_archive.go, with the
      agent's side of a restore (db_restore.go) in DbArchive.  WalRelay's
      [superseded_host_stays_below] composes the relay with DbFencing.
    - Failover: databases_failover.go with the agents' RestoreDatabase, over
      DbFencing and Leases.
    - Databases: databases.go, databases_metrics.go and db_credentials.go.  Broker:
      templates/postgres-16/query-broker/main.go.  DbProxy: db-proxy and the
      agent's pg_tunnel.go.  The three are trees of calls (Calls).

    Names are the source's wherever Rocq allows.  A struct is a Record, a Go
    map a [gmap], a table of rows a list or a map, a byte slice a list of
    bytes.  Go's integers are [Z], with the wrap ([u32], [u64], [i64]) written
    where a value may leave its range; times are nanoseconds.  What the code
    calls outside the repository (SQL statements, gsutil, ip and iptables, the
    Firecracker SDK, SHA-256, the clock) is an argument, and most of it may fail
    at any call.  A Go map's iteration order is an argument too.

    ** What the theorems show

    The doc comment of each main theorem starts with its claim id.
    - Integrity of images: no source, failure, interleaving or power loss makes
      a cache or a resolver return bytes that are not the image's
      (Streams, SharedCacheCrash); the guest's block device refines an abstract
      read-only device (Nbd), a served page fault is the image's page (Uffd).
    - Formats: decode after encode, and a decoder accepts only encodings
      (MemHeader, DiskHeader, Prefetch, VsockWire, WalRelay).
    - Networking: a slot is never free while its kernel objects exist, however
      many releases die midway, unless the command that deletes one failed, which
      the code ignores (NetPool); the DROP rules precede every ACCEPT, those whose
      insertion worked (Netns); one owner, one slot (SlotStore).
    - Life of a sandbox: the promoted snapshot is never torn by a promotion, at
      most short of files by a removal; in calm runs a sandbox has one VM whose
      memory agrees with its disk, or a snapshot of exactly its disk; Hibernate
      puts it to sleep or leaves it up, except for an SDK-started VM whose stop
      does not take effect; no failure deletes a managed sandbox's volume while
      the delete's guard reads the row (Lifecycle).  The reclaiming sweeps are
      safe and live (Janitor), the idle sweeper spares open tunnels and does not
      storm, admitted creates fit the budget (Idle).  However it goes, a Create
      ends with a complete sandbox or with everything given back as far as its
      calls work, a process of a half-failed start apart; killed anywhere it
      leaves no other machine on a network that the pool holds free (Create); a
      root disk keeps its base, and a failed CreateSnap leaves nothing that its
      own failing calls did not leave (DmSnap); in orderly runs a restore takes
      all its files from one bake (Templates); routing follows the machine while
      its one agent renews and nobody releases the lease (Leases).
    - Copies: a clone that succeeds is its source, holes or not (Clone); a restore
      of a named snapshot takes only whole images, and leaves a captured disk aside
      only when the bucket did not answer twice; a row and a meta.json come after
      what they promise (Snapshots); a promotion leaves the winner, and of its
      siblings only those whose deletion failed (ForkTree).
    - Resources: a volume only grows, and never beyond its bound; pinned cores carry
      the same load up to one; what an account says was measured (Resources).
    - WAL archive: an acknowledged segment stays readable, requests for one name
      coming one at a time and gsutil's output not being misread (WalSpool), the
      best copy of a partial segment survives the pruning and is what is served,
      end-of-recovery is answered only when it is one (WalRelay), generations
      strictly increase (DbFencing), retention keeps every instant of its
      window restorable, the irreversible purge has its guards (DbArchive).
    - Managed databases: an archive generation has one host, while rows are
      written and relays read them in time, and a replica runs one failover at a
      time (Failover); an archive is purged only behind a deleted database,
      credentials stay with their workspace on every registered route, and a query
      is sent once, or again only where it cannot have run (Databases); a
      transaction without transaction commands of its own is one block (Broker); a
      client of the proxy is served, refused with one error, or dropped (DbProxy);
      only idle databases sleep, and PostgreSQL is restarted or given up on
      evidence only (DbWatch).
    - Tenancy: the workspace of a request is earned by a membership, every
      membership has an origin (the takeover of a taken personal slug among them),
      tenants do not meet (Edge), a slug is never an identity of another kind
      (Slugs), the two token stores answer alike up to the order of lists and the
      resolution of times (Tokens); on the agent a request reaches only sandboxes
      of its own workspace, and what it creates is stamped with it (Scope).
    - Placement: the chosen agent qualifies and is best; a burst does not
      oversell (Scheduler); a sandbox is routed to where it was created
      (Director).  The ladder keeps its rules (Pressure).

    Where the code does not do what it says, a lemma exhibits it on a concrete
    input (for example [Lifecycle.retried_wake_restores_stale_memory]), and
    the theorem beside it states the condition under which the property holds.

    ** Bounds and fuel

    Most recursion is structural.  A few functions take fuel.
    [Uffd.resolveWithRetry] loops until a deadline: [Uffd.fault_retry_spec]
    proves that any fuel above the attempt at which the clock passes it is
    enough.  [Uffd.decode_events] needs one unit per 32-byte message
    ([Uffd.decode_one]), and [GoStrings.Fields] runs its loop with the length
    of the string, which every round shortens.
    [Idle.persistLifecycleWithRetry] is given the source's bound of attempts,
    and a [Crash] budget is the number of effects before the kill, over which
    every theorem quantifies.  Sizes that the theorems bound (an image below
    2^63 bytes, a chunk size of a 32-bit word) are the sizes the builders
    accept; the finding lemmas are about what lies beyond.  The loops of
    [Clone] take the length of the source and one, since every round moves at least
    a byte; [Clone.clone_is_a_copy] includes that this is enough.

    ** Not modelled

    - Plumbing of the kernel: NBD and userfaultfd set-up ioctls, poll loops and
      worker pools; device mapper, loop and cgroup commands; HTTP handlers and
      clients, metrics, logging, JSON, environment variables.  The parts of the
      code that decide something between such calls are modelled with the
      calls' answers as arguments.
    - The Go memory model: critical sections are atomic steps.  Where the source
      accesses shared state without its lock (pressure.go's cooldown map) the
      manifest records it as a finding.
    - The runs of commands without decisions between them: template builds and
      user templates, the baking of seeds into images; the daemons inside a
      guest, of which only the wire format is here; the event bus and the log of
      events.
    - Listings, statistics, metrics and the proxies of the control plane that
      pass bytes on; the composition of the binaries from their environment.
    - The dashboard, the SDKs, the command-line client, Terraform and the
      documentation, which hold no logic of the core. *)

From Stdlib Require Export ZArith Lia Strings.Byte.
From stdpp Require Export base numbers option list sets gmap strings relations.

#[global] Open Scope Z_scope.
#[global] Set Default Goal Selector "!".

(** ** Fallible results: Go's [(T, error)] pairs *)

Inductive res (E A : Type) : Type :=
  | Ok (a : A)
  | Err (e : E).
Arguments Ok {E A} a.
Arguments Err {E A} e.

Definition res_bind {E A B} (c : res E A) (k : A → res E B) : res E B :=
  match c with Ok a => k a | Err e => Err e end.

Declare Scope go_scope.
Delimit Scope go_scope with go.
Notation "'try' x ':=' c 'in' k" := (res_bind c (fun x => k))
  (at level 10, x name, c at level 100, k at level 200) : go_scope.
Notation "'check' c 'else' e 'in' k" := (if c then k else Err e)
  (at level 10, c at level 100, e at level 100, k at level 200) : go_scope.
Open Scope go_scope.

Lemma res_bind_Ok {E A B} (c : res E A) (k : A → res E B) b :
  res_bind c k = Ok b ↔ ∃ a, c = Ok a ∧ k a = Ok b.
Proof.
  destruct c as [a|e]; simpl.
  - split; [eauto | intros (a' & [= ->] & ?); done].
  - split; [done | intros (a' & ? & ?); done].
Qed.

(** ** Machine integers, kept at their width *)

Definition u8 (z : Z) : Z := z mod 2 ^ 8.
Definition u32 (z : Z) : Z := z mod 2 ^ 32.
Definition u64 (z : Z) : Z := z mod 2 ^ 64.
(** Two's complement: the value a Go [int64] (and [int]) holds after wrapping. *)
Definition i64 (z : Z) : Z := (z + 2 ^ 63) mod 2 ^ 64 - 2 ^ 63.

Lemma u32_range z : 0 ≤ u32 z < 2 ^ 32.
Proof. apply Z.mod_pos_bound. lia. Qed.
Lemma u64_range z : 0 ≤ u64 z < 2 ^ 64.
Proof. apply Z.mod_pos_bound. lia. Qed.
Lemma u32_small z : 0 ≤ z < 2 ^ 32 → u32 z = z.
Proof. apply Z.mod_small. Qed.
Lemma u64_small z : 0 ≤ z < 2 ^ 64 → u64 z = z.
Proof. apply Z.mod_small. Qed.
Lemma i64_range z : - 2 ^ 63 ≤ i64 z < 2 ^ 63.
Proof. unfold i64. pose proof (Z.mod_pos_bound (z + 2 ^ 63) (2 ^ 64)). lia. Qed.
Lemma i64_small z : - 2 ^ 63 ≤ z < 2 ^ 63 → i64 z = z.
Proof. intros. unfold i64. rewrite Z.mod_small; lia. Qed.

Create Rewrite HintDb ints.
#[export] Hint Rewrite u32_small u64_small i64_small using lia : ints.

(** ** Bytes *)

#[global] Instance byte_eq_dec : EqDecision byte := Byte.byte_eq_dec.
#[global] Instance byte_inhabited : Inhabited byte := populate x00.

Definition b2z (b : byte) : Z := Z.of_N (Byte.to_N b).
Definition z2b (z : Z) : byte :=
  match Byte.of_N (Z.to_N (z mod 256)) with Some b => b | None => x00 end.

Lemma b2z_range b : 0 ≤ b2z b < 256.
Proof. unfold b2z. pose proof (Byte.to_N_bounded b). lia. Qed.

Lemma b2z_z2b z : b2z (z2b z) = z mod 256.
Proof.
  unfold b2z, z2b. pose proof (Z.mod_pos_bound z 256) as Hb.
  destruct (Byte.of_N (Z.to_N (z mod 256))) as [b|] eqn:E.
  - apply Byte.to_of_N in E. rewrite E. lia.
  - apply Byte.of_N_None_iff in E. lia.
Qed.

Lemma z2b_b2z b : z2b (b2z b) = b.
Proof.
  unfold b2z, z2b. pose proof (Byte.to_N_bounded b).
  rewrite Z.mod_small by lia. rewrite N2Z.id, Byte.of_to_N. done.
Qed.

Lemma b2z_inj b1 b2 : b2z b1 = b2z b2 → b1 = b2.
Proof. intros H. rewrite <- (z2b_b2z b1), <- (z2b_b2z b2). by rewrite H. Qed.

(** ** encoding/binary: fixed-width little- and big-endian integers *)

Fixpoint le_bytes (n : nat) (z : Z) : list byte :=
  match n with O => [] | S n => z2b z :: le_bytes n (z / 256) end.
Fixpoint le_val (bs : list byte) : Z :=
  match bs with [] => 0 | b :: r => b2z b + 256 * le_val r end.
Definition be_bytes (n : nat) (z : Z) : list byte := reverse (le_bytes n z).
Definition be_val (bs : list byte) : Z := le_val (reverse bs).

Lemma length_le_bytes n z : length (le_bytes n z) = n.
Proof. revert z. induction n; simpl; auto. Qed.
Lemma length_be_bytes n z : length (be_bytes n z) = n.
Proof. unfold be_bytes. by rewrite length_reverse, length_le_bytes. Qed.

Lemma le_val_range bs : 0 ≤ le_val bs < 256 ^ Z.of_nat (length bs).
Proof.
  induction bs as [|b bs IH]; simpl le_val; [simpl; lia|].
  pose proof (b2z_range b). cbn [length]. rewrite Nat2Z.inj_succ, Z.pow_succ_r by lia. lia.
Qed.

Lemma le_val_bytes n z : 0 ≤ z < 256 ^ Z.of_nat n → le_val (le_bytes n z) = z.
Proof.
  revert z. induction n as [|n IH]; intros z Hz; simpl le_bytes; simpl le_val.
  - simpl in Hz. lia.
  - rewrite Nat2Z.inj_succ, Z.pow_succ_r in Hz by lia.
    rewrite b2z_z2b, IH.
    + pose proof (Z.div_mod z 256). lia.
    + split; [apply Z.div_pos; lia | apply Z.div_lt_upper_bound; lia].
Qed.

Lemma le_bytes_val bs : le_bytes (length bs) (le_val bs) = bs.
Proof.
  induction bs as [|b bs IH]; [done|]. simpl. pose proof (b2z_range b). f_equal.
  - apply b2z_inj. rewrite b2z_z2b, (Z.mul_comm 256), Z.mod_add by lia.
    apply Z.mod_small; lia.
  - rewrite (Z.mul_comm 256), Z.div_add, (Z.div_small (b2z b)) by lia.
    by rewrite Z.add_0_l.
Qed.

Lemma be_val_range bs : 0 ≤ be_val bs < 256 ^ Z.of_nat (length bs).
Proof. unfold be_val. rewrite <- (length_reverse bs). apply le_val_range. Qed.
Lemma be_val_bytes n z : 0 ≤ z < 256 ^ Z.of_nat n → be_val (be_bytes n z) = z.
Proof. intros. unfold be_val, be_bytes. rewrite reverse_involutive. by apply le_val_bytes. Qed.
Lemma be_bytes_val bs : be_bytes (length bs) (be_val bs) = bs.
Proof.
  unfold be_bytes, be_val. rewrite <- (length_reverse bs) at 1.
  by rewrite le_bytes_val, reverse_involutive.
Qed.

(** ** Slices: Go's [b[off : off+n]] within bounds *)

Definition slice {A} (off n : nat) (l : list A) : list A := take n (drop off l).

Lemma length_slice {A} off n (l : list A) :
  (off + n ≤ length l)%nat → length (slice off n l) = n.
Proof. intros. unfold slice. rewrite length_take, length_drop. lia. Qed.

Lemma lookup_slice {A} off n (l : list A) i :
  slice off n l !! i = if decide (i < n)%nat then l !! (off + i)%nat else None.
Proof.
  unfold slice. case_decide.
  - rewrite lookup_take_lt by lia. by rewrite lookup_drop.
  - by rewrite lookup_take_ge by lia.
Qed.

Lemma slice_app_mid {A} (l1 l2 l3 : list A) off n :
  off = length l1 → n = length l2 → slice off n (l1 ++ l2 ++ l3) = l2.
Proof.
  intros -> ->. unfold slice. rewrite drop_app_length. by rewrite take_app_length.
Qed.

Lemma slice_slice {A} o1 n1 o2 n2 (l : list A) :
  (o2 + n2 ≤ n1)%nat → slice o2 n2 (slice o1 n1 l) = slice (o1 + o2) n2 l.
Proof.
  intros. apply list_eq. intros i. rewrite !lookup_slice.
  repeat case_decide; try done; try lia. f_equal. lia.
Qed.

Lemma slice_cat {A} o n1 n2 (l : list A) :
  slice o n1 l ++ slice (o + n1) n2 l = slice o (n1 + n2) l.
Proof. unfold slice. rewrite <- drop_drop. apply take_take_drop. Qed.

Lemma slice_full {A} (l : list A) : slice 0 (length l) l = l.
Proof. unfold slice. by rewrite drop_0, take_ge by lia. Qed.

(** ** The inflight sets: adding and removing one index *)

Lemma elem_of_removed (X : gset nat) i j : j ∈ X ∖ {[i]} → j ≠ i ∧ j ∈ X.
Proof. intros (? & Hne)%elem_of_difference. split; [|done]. intros ->. by apply Hne, elem_of_singleton. Qed.
Lemma elem_of_added (X : gset nat) i : i ∈ {[i]} ∪ X.
Proof. by apply elem_of_union_l, elem_of_singleton. Qed.
Lemma added_removed (i : nat) : ({[i]} ∪ ∅) ∖ {[i]} = (∅ : gset nat).
Proof. set_solver. Qed.
#[export] Hint Resolve elem_of_added : core.

(** ** Invariants of step relations *)

Lemma rtc_invariant {A} (R : relation A) (I : A → Prop) x y :
  (∀ a b, I a → R a b → I b) → I x → rtc R x y → I y.
Proof. intros Hstep Hx Hr. induction Hr; eauto. Qed.

(** A filter that keeps everything. *)
Lemma filter_id {A} (P : A → Prop) `{!∀ x, Decision (P x)} (l : list A) : Forall P l → filter P l = l.
Proof. induction 1 as [|x l Hx _ IH]; [done|]. by rewrite filter_cons_True, IH. Qed.

Lemma filter_none {A} (P : A → Prop) `{!∀ x, Decision (P x)} (l : list A) : Forall (λ x, ¬ P x) l → filter P l = [].
Proof. induction 1 as [|x l Hx _ IH]; [done|]. by rewrite filter_cons_False. Qed.

Lemma filter_ext_in {A} (P Q : A → Prop) `{!∀ x, Decision (P x), !∀ x, Decision (Q x)} (l : list A) :
  (∀ x, x ∈ l → P x ↔ Q x) → filter P l = filter Q l.
Proof.
  induction l as [|x l IH]; intros Hpq; [done|]. rewrite !filter_cons, IH by (intros y Hy; apply Hpq; by right).
  specialize (Hpq x ltac:(by left)). destruct (decide (P x)), (decide (Q x)); tauto || done.
Qed.
