(* ===== verification/Calls.v ===== *)
(** Handlers as trees of calls: a handler either returns a reply or makes a call
    and goes on with its answer, whatever that is.  A run of a handler is a list of
    the calls it made with the answers they had; so a theorem about every run is
    one about every behaviour of what is called and every interleaving with the
    other handlers.  Three predicates on the tree give theorems about all runs:
    [leads] about where they end, [before] about what was seen before a call, and
    [only] about the calls. *)

From S2P Require Import Prelude.

Section calls.
Context {C : Type} {ans : C → Type} {R : Type}.

Inductive prog : Type :=
  | Ret (r : R)
  | Do (c : C) (k : ans c → prog).

Definition event : Type := { c : C & ans c }.
Definition did (c : C) (a : ans c) : event := existT c a.
Fixpoint runs (p : prog) (tr : list event) (r : R) : Prop :=
  match p with
  | Ret r' => tr = [] ∧ r = r'
  | Do c k => ∃ a l, tr = did c a :: l ∧ runs (k a) l r
  end.

(** Every run from here, after the events [h] (the last first), ends in [Q]. *)
Fixpoint leads (Q : list event → R → Prop) (h : list event) (p : prog) : Prop :=
  match p with
  | Ret r => Q h r
  | Do c k => ∀ a, leads Q (did c a :: h) (k a)
  end.
Lemma leads_runs Q h p tr r : leads Q h p → runs p tr r → Q (rev tr ++ h) r.
Proof.
  revert h tr. induction p as [r'|c k IH]; intros h tr H; simpl; [by intros [-> ->]|].
  intros (a & l & -> & Hl). simpl. rewrite <- app_assoc. apply (IH a (did c a :: h) l (H a) Hl).
Qed.
Lemma leads_weaken Q Q' h p : (∀ h r, Q h r → Q' h r) → leads Q h p → leads Q' h p.
Proof. revert h. induction p as [r|c k IH]; intros h HQ H; [by apply HQ|]. intros a. by apply IH. Qed.

(** Every call satisfies [P]. *)
Fixpoint only (P : C → Prop) (p : prog) : Prop :=
  match p with Ret _ => True | Do c k => P c ∧ ∀ a, only P (k a) end.
Lemma only_runs P p tr r : only P p → runs p tr r → ∀ c a, did c a ∈ tr → P c.
Proof.
  revert tr. induction p as [r'|c0 k IH]; intros tr H; simpl; [intros [-> ->] c a Hin; by apply not_elem_of_nil in Hin|].
  intros (a0 & l & -> & Hl) c a Hin. apply elem_of_cons in Hin as [E|Hin]; [|by apply (IH a0 l (proj2 H a0) Hl c a)].
  apply (f_equal (@projT1 _ _)) in E. simpl in E. subst. apply H.
Qed.

(** Every call satisfies [P] of what was seen before it. *)
Fixpoint before (P : list event → C → Prop) (h : list event) (p : prog) : Prop :=
  match p with Ret _ => True | Do c k => P h c ∧ ∀ a, before P (did c a :: h) (k a) end.
Lemma before_runs P h p tr1 c a tr2 r : before P h p → runs p (tr1 ++ did c a :: tr2) r → P (rev tr1 ++ h) c.
Proof.
  revert h tr1. induction p as [r'|c0 k IH]; intros h tr1 H; simpl; [by intros [E _]; destruct tr1|].
  intros (a0 & l & E & Hl). destruct tr1 as [|e tr1]; simpl in *.
  - injection E as E _ _. subst. apply H.
  - injection E as -> <-. rewrite <- app_assoc. apply (IH a0 (did c0 a0 :: h) tr1 (proj2 H a0) Hl).
Qed.

(** Every tree has a run, whatever is answered. *)
Lemma runs_total p : (∀ c, inhabited (ans c)) → ∃ tr r, runs p tr r.
Proof.
  intros Ha. induction p as [r|c k IH]; [by exists [], r|]. destruct (Ha c) as [a]. destruct (IH a) as (tr & r & H).
  exists (did c a :: tr), r. by exists a, tr.
Qed.
End calls.
Arguments prog {C} ans R.
Arguments event {C} ans.

(** The branches of a handler. *)
Ltac branch := match goal with
  | |- only _ (match ?x with _ => _ end) => destruct x eqn:?
  | |- leads _ _ (match ?x with _ => _ end) => destruct x eqn:?
  | |- before _ _ (match ?x with _ => _ end) => destruct x eqn:?
  end.
(** A concrete run. *)
Ltac a_run := repeat (eexists; eexists; split; [reflexivity|]; cbn -[Z.eqb pretty.pretty]); split; [reflexivity|reflexivity].

Lemma rev_elem {A} (x : A) l : x ∈ rev l ++ [] → x ∈ l.
Proof. by rewrite app_nil_r, !list_elem_of_In, <- in_rev. Qed.
Lemma elem_rev {A} (x : A) l : x ∈ l → x ∈ rev l ++ [].
Proof. by rewrite app_nil_r, !list_elem_of_In, <- in_rev. Qed.

Declare Scope call_scope.
Notation "x <<- c ; k" := (Do c (λ x, k)) (at level 100, c at next level, k at level 200, right associativity) : call_scope.
