(* ===== verification/Bytes.v ===== *)
(** Byte-level helpers the codecs and the caches share: the presence bitmap
    (one bit per chunk, LSB first within each byte) and writes into a file of
    fixed size ([os.File.WriteAt] inside its extent). *)

From S2P Require Import Prelude.

(** ** The presence bitmap

    [memstream] and [diskstream] build it with
    [bitmap[i/8] |= 1 << uint(i%8)] over a zeroed buffer and read it with
    [bitmap[i/8] & (1<<uint(i%8)) != 0]. *)

Definition bit_mask (i : nat) : Z := u8 (Z.shiftl 1 (Z.of_nat (i mod 8))).

Definition set_bit (bm : list byte) (i : nat) : list byte :=
  alter (λ b, z2b (Z.lor (b2z b) (bit_mask i))) (i / 8)%nat bm.

Definition get_bit (bm : list byte) (i : nat) : bool :=
  match bm !! (i / 8)%nat with
  | Some b => negb (Z.land (b2z b) (bit_mask i) =? 0)
  | None => false
  end.

Definition bitmap_len (n : nat) : nat := ((n + 7) / 8)%nat.

(** The loop [for i := 0; i < n; i++ { if present[i] { set bit i } }]. *)
Definition write_bits (p : nat → bool) (ks : list nat) (bm : list byte) : list byte :=
  foldl (λ bm i, if p i then set_bit bm i else bm) bm ks.

Definition bitmap_of (n : nat) (p : nat → bool) : list byte :=
  write_bits p (seq 0 n) (replicate (bitmap_len n) x00).

Definition bits_of (n : nat) (bm : list byte) : list bool := get_bit bm <$> seq 0 n.

Lemma bit_mask_pow i : bit_mask i = 2 ^ Z.of_nat (i mod 8).
Proof.
  unfold bit_mask, u8. rewrite Z.shiftl_1_l. apply Z.mod_small.
  pose proof (Nat.mod_upper_bound i 8). split; [lia|].
  apply Z.pow_lt_mono_r; lia.
Qed.

Lemma land_mask_eqb x k : 0 ≤ k → negb (Z.land x (2 ^ k) =? 0) = Z.testbit x k.
Proof.
  intros Hk. destruct (Z.testbit x k) eqn:E.
  - apply negb_true_iff, Z.eqb_neq. intros H.
    apply (f_equal (λ z, Z.testbit z k)) in H.
    rewrite Z.land_spec, E, Z.pow2_bits_true, Z.bits_0 in H by lia. done.
  - apply negb_false_iff, Z.eqb_eq. apply Z.bits_inj'. intros j Hj.
    rewrite Z.land_spec, Z.bits_0, Z.pow2_bits_eqb by lia.
    destruct (Z.eqb_spec k j) as [<-|]; [by rewrite E | by rewrite andb_false_r].
Qed.

Lemma lor_mask_bound b k : 0 ≤ k < 8 → 0 ≤ Z.lor (b2z b) (2 ^ k) < 256.
Proof.
  intros Hk. pose proof (b2z_range b) as Hb. split; [apply Z.lor_nonneg; lia|].
  assert (Hl : Z.lor (b2z b) (2 ^ k) mod 2 ^ 8 = Z.lor (b2z b) (2 ^ k)).
  { rewrite <- Z.land_ones, Z.land_lor_distr_l, !Z.land_ones by lia.
    rewrite !Z.mod_small; [done| |lia]. split; [lia|]. apply Z.pow_lt_mono_r; lia. }
  rewrite <- Hl. apply Z.mod_pos_bound. lia.
Qed.

Lemma length_set_bit bm i : length (set_bit bm i) = length bm.
Proof. apply length_alter. Qed.

Lemma get_set_bit bm i j :
  (i / 8 < length bm)%nat →
  get_bit (set_bit bm i) j = if decide (i = j) then true else get_bit bm j.
Proof.
  intros Hi. unfold get_bit, set_bit.
  destruct (decide (i / 8 = j / 8)%nat) as [Hq|Hq].
  - rewrite <- Hq, list_lookup_alter_eq.
    destruct (bm !! (i / 8)%nat) as [b|] eqn:Hb; simpl.
    2:{ apply lookup_ge_None in Hb. lia. }
    pose proof (Nat.mod_upper_bound i 8). pose proof (Nat.mod_upper_bound j 8).
    rewrite b2z_z2b, !bit_mask_pow, Z.mod_small by (apply lor_mask_bound; lia).
    rewrite !land_mask_eqb, Z.lor_spec, Z.pow2_bits_eqb by lia.
    case_decide as Hij; [subst j; by rewrite Z.eqb_refl, orb_true_r|].
    destruct (Z.eqb_spec (Z.of_nat (i mod 8)) (Z.of_nat (j mod 8))) as [Hm|]; [|by rewrite orb_false_r].
    exfalso. apply Hij. rewrite (Nat.div_mod_eq i 8), (Nat.div_mod_eq j 8). lia.
  - rewrite list_lookup_alter_ne by done. by rewrite decide_False by congruence.
Qed.

Lemma write_bits_cons p i ks bm :
  write_bits p (i :: ks) bm = write_bits p ks (if p i then set_bit bm i else bm).
Proof. done. Qed.

Lemma length_write_bits p ks bm : length (write_bits p ks bm) = length bm.
Proof.
  revert bm. induction ks as [|i ks IH]; intros bm; [done|].
  rewrite write_bits_cons, IH. destruct (p i); [apply length_set_bit | done].
Qed.

Lemma get_write_bits p ks bm j :
  Forall (λ i, (i / 8 < length bm)%nat) ks →
  get_bit (write_bits p ks bm) j = (bool_decide (j ∈ ks) && p j) || get_bit bm j.
Proof.
  revert bm. induction ks as [|i ks IH]; intros bm Hall.
  { by rewrite bool_decide_eq_false_2 by set_solver. }
  apply Forall_cons in Hall as [Hi Hall].
  rewrite write_bits_cons, IH.
  2:{ destruct (p i); [by rewrite length_set_bit | done]. }
  assert (Hp : get_bit (if p i then set_bit bm i else bm) j
             = (bool_decide (i = j) && p j) || get_bit bm j).
  { destruct (p i) eqn:Hpi; [rewrite get_set_bit by done|];
      (destruct (decide (i = j)) as [->|Hij];
        [rewrite bool_decide_eq_true_2, Hpi by done | rewrite bool_decide_eq_false_2 by done]);
      done. }
  rewrite Hp. destruct (p j); rewrite ?andb_false_r, ?andb_true_r; simpl; [|done].
  repeat case_bool_decide; set_solver.
Qed.

Lemma get_bit_replicate n j : get_bit (replicate n x00) j = false.
Proof.
  unfold get_bit. destruct (_ !! _) eqn:E; [|done].
  apply lookup_replicate in E as [-> _]. done.
Qed.

Lemma bitmap_len_bound n i : (i < n)%nat → (i / 8 < bitmap_len n)%nat.
Proof.
  intros. unfold bitmap_len. apply Nat.Div0.div_lt_upper_bound.
  pose proof (Nat.div_mod_eq (n + 7) 8). pose proof (Nat.mod_upper_bound (n + 7) 8). lia.
Qed.

Lemma length_bitmap_of n p : length (bitmap_of n p) = bitmap_len n.
Proof. unfold bitmap_of. by rewrite length_write_bits, length_replicate. Qed.

Lemma get_bitmap_of n p j : get_bit (bitmap_of n p) j = bool_decide (j < n)%nat && p j.
Proof.
  unfold bitmap_of. rewrite get_write_bits, get_bit_replicate, orb_false_r.
  - f_equal. apply bool_decide_ext. rewrite list_elem_of_In, in_seq. lia.
  - apply Forall_forall. intros i Hi. rewrite length_replicate.
    apply list_elem_of_In, in_seq in Hi. apply bitmap_len_bound. lia.
Qed.

Lemma bits_of_bitmap n p : bits_of n (bitmap_of n p) = p <$> seq 0 n.
Proof.
  apply list_fmap_ext. intros k i Hi. rewrite get_bitmap_of.
  apply lookup_seq in Hi as [-> ?]. by rewrite bool_decide_eq_true_2 by lia.
Qed.

Lemma length_bits_of n bm : length (bits_of n bm) = n.
Proof. unfold bits_of. by rewrite length_fmap, length_seq. Qed.

Lemma lookup_bits_of n bm i : (i < n)%nat → bits_of n bm !! i = Some (get_bit bm i).
Proof. intros. unfold bits_of. by rewrite list_lookup_fmap, lookup_seq_lt. Qed.

Lemma lookup_fmap_seq (p : list bool) n :
  length p = n → (λ i, default false (p !! i)) <$> seq 0 n = p.
Proof.
  intros <-. apply list_eq. intros i. rewrite list_lookup_fmap.
  destruct (p !! i) as [x|] eqn:Hi.
  - pose proof (lookup_lt_Some _ _ _ Hi). rewrite lookup_seq_lt by done. simpl. by rewrite Hi.
  - apply lookup_ge_None in Hi. by rewrite lookup_seq_ge by lia.
Qed.

(** ** Writing into a file of fixed size *)

Definition write_at (off : nat) (bs : list byte) (f : list byte) : list byte :=
  take off f ++ bs ++ drop (off + length bs) f.

Lemma length_write_at off bs f :
  (off + length bs ≤ length f)%nat → length (write_at off bs f) = length f.
Proof. intros. unfold write_at. rewrite !length_app, length_take, length_drop. lia. Qed.

Lemma lookup_write_at off bs f i :
  (off + length bs ≤ length f)%nat →
  write_at off bs f !! i =
    if decide (off ≤ i < off + length bs)%nat then bs !! (i - off)%nat else f !! i.
Proof.
  intros Hlen. unfold write_at.
  destruct (decide (i < off)%nat).
  - rewrite lookup_app_l by (rewrite length_take; lia).
    rewrite lookup_take_lt, decide_False by lia. done.
  - rewrite lookup_app_r by (rewrite length_take; lia). rewrite length_take, Nat.min_l by lia.
    case_decide.
    + by rewrite lookup_app_l by lia.
    + rewrite lookup_app_r by lia. rewrite lookup_drop. f_equal. lia.
Qed.

Lemma slice_write_at_eq off bs f :
  (off + length bs ≤ length f)%nat → slice off (length bs) (write_at off bs f) = bs.
Proof.
  intros. apply slice_app_mid; [|done]. rewrite length_take. lia.
Qed.

Lemma slice_write_at_ne off bs f o n :
  (off + length bs ≤ length f)%nat →
  (o + n ≤ off ∨ off + length bs ≤ o)%nat →
  slice o n (write_at off bs f) = slice o n f.
Proof.
  intros Hlen Hd. apply list_eq. intros i. rewrite !lookup_slice.
  case_decide; [|done]. rewrite lookup_write_at by done. by rewrite decide_False by lia.
Qed.

Create Rewrite HintDb bytes.
#[export] Hint Rewrite length_le_bytes length_be_bytes length_bitmap_of length_bits_of : bytes.
