(* ===== verification/Chunks.v ===== *)
(** Chunk geometry, shared by the memory stream (agent/internal/memstream) and
    the disk stream (agent/internal/diskstream).  Both packages describe an
    image by a chunk size, a total size and a presence bit per chunk, and their
    caches and resolvers only use that description: the class [StreamHeader] is
    the interface, and [MemHeader] and [DiskHeader] are its two instances. *)

From S2P Require Import Prelude Bytes.

Class StreamHeader (H : Type) := {
  ChunkSize : H → Z;
  TotalSize : H → Z;
  present : H → list bool;
  (** The digest recorded for a chunk, when the format carries one. *)
  ChunkSum : H → nat → option (list byte);
}.

(** ** The geometry functions, at the widths of the code *)

(** [int((TotalSize + uint64(ChunkSize) - 1) / uint64(ChunkSize))]. *)
Definition num_chunks (cs total : Z) : Z :=
  if cs =? 0 then 0 else i64 (u64 (u64 (total + cs) - 1) / cs).

Definition chunk_range (cs total : Z) (i : Z) : Z * Z :=
  let offset := i64 (i * cs) in
  let stop := i64 (offset + cs) in
  let stop := if i64 total <? stop then i64 total else stop in
  let offset := if i64 total <? offset then i64 total else offset in
  (offset, i64 (stop - offset)).

Definition chunk_for_offset (cs off : Z) : Z :=
  if cs =? 0 then 0 else Z.quot off cs.

Definition is_present (p : list bool) (i : Z) : bool :=
  if (i <? 0) || (Z.of_nat (length p) <=? i) then false
  else default false (p !! Z.to_nat i).

(** [b] has a non-zero byte. *)
Definition anyNonZero (b : list byte) : bool := existsb (λ c, negb (b2z c =? 0)) b.

(** The read loop of [BuildHeader]: [io.ReadFull] into a buffer of [bufsize]
    bytes, [n] times; the last read may be short. *)
Fixpoint read_chunks (n bufsize : nat) (rest : list byte) : list (list byte) :=
  match n with
  | O => []
  | S n => take bufsize rest :: read_chunks n bufsize (drop bufsize rest)
  end.

Section Header.
Context {H : Type} `{StreamHeader H}.
Implicit Types h : H.

Definition NumChunks h : Z := num_chunks (ChunkSize h) (TotalSize h).
Definition ChunkRange h (i : Z) : Z * Z := chunk_range (ChunkSize h) (TotalSize h) i.
Definition ChunkForOffset h (off : Z) : Z := chunk_for_offset (ChunkSize h) off.
Definition IsPresent h (i : Z) : bool := is_present (present h) i.
Definition PresentChunks h : Z := Z.of_nat (length (filter (λ p, p = true) (present h))).

(** Sizes a 64-bit host can address: no addition of the geometry wraps. *)
Definition wf_geom h : Prop :=
  0 < ChunkSize h < 2 ^ 32 ∧ 0 ≤ TotalSize h < 2 ^ 62 ∧
  length (present h) = Z.to_nat (NumChunks h).

(** The bytes chunk [i] covers in an image. *)
Definition chunk_bytes h (img : list byte) (i : nat) : list byte :=
  let '(off, len) := ChunkRange h (Z.of_nat i) in
  slice (Z.to_nat off) (Z.to_nat len) img.
End Header.

(** ** What they compute when nothing wraps *)

Definition sane (cs total : Z) : Prop := 0 < cs < 2 ^ 32 ∧ 0 ≤ total < 2 ^ 62.

Lemma num_chunks_ceil cs total :
  sane cs total → num_chunks cs total = (total + cs - 1) / cs.
Proof.
  intros [Hc Ht]. unfold num_chunks. rewrite (proj2 (Z.eqb_neq cs 0)) by lia.
  rewrite (u64_small (total + cs)), u64_small by lia. apply i64_small.
  split; [pose proof (Z.div_pos (total + cs - 1) cs); lia|].
  apply Z.div_lt_upper_bound; lia.
Qed.

Lemma num_chunks_bounds cs total :
  sane cs total →
  let n := num_chunks cs total in
  0 ≤ n < 2 ^ 62 + 1 ∧ total ≤ n * cs ∧ n * cs < total + cs.
Proof.
  intros Hs. simpl. rewrite num_chunks_ceil by done. destruct Hs as [Hc Ht].
  pose proof (Z.div_mod (total + cs - 1) cs). pose proof (Z.mod_pos_bound (total + cs - 1) cs).
  assert (0 ≤ (total + cs - 1) / cs) by (apply Z.div_pos; lia).
  assert ((total + cs - 1) / cs < 2 ^ 62 + 1).
  { apply Z.div_lt_upper_bound; [lia|]. assert (2 ^ 62 ≤ cs * 2 ^ 62) by lia. lia. }
  lia.
Qed.

Lemma chunk_range_spec cs total i :
  sane cs total → 0 ≤ i < num_chunks cs total →
  chunk_range cs total i = (i * cs, Z.min cs (total - i * cs)) ∧
  0 < Z.min cs (total - i * cs).
Proof.
  intros Hs Hi. pose proof (num_chunks_bounds _ _ Hs) as (Hn & Hle & Hlt).
  destruct Hs as [Hc Ht]. assert (i * cs < total) by nia. assert (0 ≤ i * cs) by nia.
  unfold chunk_range. cbv zeta. rewrite !(i64_small (i * cs)), !(i64_small total) by lia.
  rewrite (i64_small (i * cs + cs)) by lia. rewrite (proj2 (Z.ltb_ge total (i * cs))) by lia.
  split; [|lia]. f_equal.
  destruct (Z.ltb_spec total (i * cs + cs)); rewrite i64_small; lia.
Qed.

Lemma chunk_for_offset_spec cs total off :
  sane cs total → 0 ≤ off < total →
  let i := chunk_for_offset cs off in
  0 ≤ i < num_chunks cs total ∧ i * cs ≤ off < i * cs + cs.
Proof.
  intros Hs Ho. pose proof (num_chunks_bounds _ _ Hs) as (Hn & Hle & Hlt).
  destruct Hs as [Hc Ht]. simpl. unfold chunk_for_offset.
  rewrite (proj2 (Z.eqb_neq cs 0)), Z.quot_div_nonneg by lia.
  pose proof (Z.div_mod off cs). pose proof (Z.mod_pos_bound off cs).
  assert (0 ≤ off / cs) by (apply Z.div_pos; lia). nia.
Qed.

Lemma anyNonZero_false b : anyNonZero b = false ↔ b = replicate (length b) x00.
Proof.
  unfold anyNonZero. induction b as [|c b IH]; simpl; [done|].
  rewrite orb_false_iff, IH, negb_false_iff, Z.eqb_eq. split.
  - intros [Hc ->]. rewrite length_replicate. f_equal. apply b2z_inj. by rewrite Hc.
  - intros [= -> Hb]. split; [done|]. congruence.
Qed.

Lemma length_read_chunks n cs f : length (read_chunks n cs f) = n.
Proof. revert f. induction n; simpl; auto. Qed.

Lemma lookup_read_chunks n cs f i :
  (i < n)%nat → read_chunks n cs f !! i = Some (slice (i * cs) cs f).
Proof.
  revert f i. induction n as [|n IH]; intros f i Hi; [lia|].
  destruct i as [|i]; simpl; [done|]. rewrite IH by lia.
  unfold slice. by rewrite drop_drop.
Qed.

Lemma slice_clip {A} off n (l : list A) :
  slice off n l = slice off (Nat.min n (length l - off)) l.
Proof.
  apply list_eq. intros i. rewrite !lookup_slice. repeat case_decide; try done; try lia.
  apply lookup_ge_None_2. lia.
Qed.

Definition fits (f : list byte) (chunkSize : Z) : Prop :=
  chunkSize < 2 ^ 32 ∧ Z.of_nat (length f) < 2 ^ 62.

Section HeaderLemmas.
Context {H : Type} `{StreamHeader H}.
Implicit Types h : H.

Lemma wf_sane h : wf_geom h → sane (ChunkSize h) (TotalSize h).
Proof. intros (? & ? & _). done. Qed.

Lemma is_present_range h i :
  IsPresent h i = true → 0 ≤ i < Z.of_nat (length (present h)).
Proof.
  unfold IsPresent, is_present.
  destruct (Z.ltb_spec i 0), (Z.leb_spec (Z.of_nat (length (present h))) i); simpl; done.
Qed.

Lemma is_present_lookup h (i : nat) :
  IsPresent h (Z.of_nat i) = default false (present h !! i).
Proof.
  unfold IsPresent, is_present. rewrite Nat2Z.id.
  destruct (Z.ltb_spec (Z.of_nat i) 0); [lia|]. simpl.
  destruct (Z.leb_spec (Z.of_nat (length (present h))) (Z.of_nat i)); [|done].
  by rewrite lookup_ge_None_2 by lia.
Qed.

Lemma length_present_num h : wf_geom h → Z.of_nat (length (present h)) = NumChunks h.
Proof.
  intros Hwf. pose proof (num_chunks_bounds _ _ (wf_sane _ Hwf)) as (Hn & _).
  destruct Hwf as (_ & _ & ->). rewrite Z2Nat.id; [done|]. unfold NumChunks in *. lia.
Qed.

(** Where chunk [i] lies, as natural numbers. *)
Definition chunk_off h (i : nat) : nat := (i * Z.to_nat (ChunkSize h))%nat.
Definition chunk_len h (i : nat) : nat :=
  Nat.min (Z.to_nat (ChunkSize h)) (Z.to_nat (TotalSize h) - chunk_off h i).

Lemma ChunkRange_nat h i :
  wf_geom h → Z.of_nat i < NumChunks h →
  ChunkRange h (Z.of_nat i) = (Z.of_nat (chunk_off h i), Z.of_nat (chunk_len h i)) ∧
  (0 < chunk_len h i)%nat ∧
  (chunk_off h i + chunk_len h i ≤ Z.to_nat (TotalSize h))%nat.
Proof.
  intros Hwf Hi. pose proof (wf_sane _ Hwf) as Hs.
  destruct (chunk_range_spec _ _ (Z.of_nat i) Hs) as [Heq Hpos]; [unfold NumChunks in Hi; lia|].
  destruct Hs as [Hc Ht]. unfold ChunkRange. rewrite Heq. unfold chunk_len, chunk_off.
  split; [f_equal; lia|]. lia.
Qed.

Lemma chunk_bytes_slice h img i :
  wf_geom h → Z.of_nat i < NumChunks h →
  chunk_bytes h img i = slice (chunk_off h i) (chunk_len h i) img.
Proof.
  intros Hwf Hi. destruct (ChunkRange_nat _ _ Hwf Hi) as [Heq _].
  unfold chunk_bytes. rewrite Heq. by rewrite !Nat2Z.id.
Qed.

Lemma length_chunk_bytes h img i :
  wf_geom h → Z.of_nat i < NumChunks h → length img = Z.to_nat (TotalSize h) →
  length (chunk_bytes h img i) = chunk_len h i.
Proof.
  intros Hwf Hi Hlen. rewrite chunk_bytes_slice by done. apply length_slice.
  destruct (ChunkRange_nat _ _ Hwf Hi) as (_ & _ & ?). lia.
Qed.

Lemma chunk_disjoint h i j :
  wf_geom h → i ≠ j → Z.of_nat i < NumChunks h → Z.of_nat j < NumChunks h →
  (chunk_off h i + chunk_len h i ≤ chunk_off h j ∨
   chunk_off h j + chunk_len h j ≤ chunk_off h i)%nat.
Proof. intros Hwf Hij Hi Hj. destruct Hwf as ((? & ?) & _). unfold chunk_len, chunk_off. nia. Qed.

(** The chunk an offset falls in, as a natural number. *)
Lemma chunk_of_offset h (off : nat) :
  wf_geom h → Z.of_nat off < TotalSize h →
  ∃ i : nat, ChunkForOffset h (Z.of_nat off) = Z.of_nat i ∧ Z.of_nat i < NumChunks h ∧
    (chunk_off h i ≤ off < chunk_off h i + chunk_len h i)%nat.
Proof.
  intros Hwf Ho. pose proof (wf_sane _ Hwf) as Hs.
  destruct (chunk_for_offset_spec _ _ (Z.of_nat off) Hs) as [Hi Hb]; [lia|].
  destruct Hs as [Hc Ht].
  exists (Z.to_nat (ChunkForOffset h (Z.of_nat off))). unfold ChunkForOffset, NumChunks.
  rewrite Z2Nat.id by lia. split; [done|]. split; [lia|].
  unfold chunk_len, chunk_off. nia.
Qed.
End HeaderLemmas.

Create HintDb chunks.
#[export] Hint Resolve wf_sane length_chunk_bytes : chunks.

(** ** The chunks tile the image *)

(** Tiling.  Every byte offset of the image lies in the range of exactly
    one chunk, and it is the chunk [ChunkForOffset] names: the resolvers, the
    caches and the prefetcher therefore fetch every byte of an image, and
    fetch none twice. *)
Theorem chunks_tile {H} `{StreamHeader H} (h : H) (off i : Z) :
  wf_geom h → 0 ≤ off < TotalSize h → 0 ≤ i < NumChunks h →
  ((ChunkRange h i).1 ≤ off < (ChunkRange h i).1 + (ChunkRange h i).2 ↔
   i = ChunkForOffset h off).
Proof.
  intros Hwf Ho Hi. pose proof (wf_sane _ Hwf) as Hs.
  destruct (chunk_range_spec _ _ _ Hs Hi) as [Hr Hp]. unfold ChunkRange. rewrite Hr. simpl.
  destruct (chunk_for_offset_spec _ _ _ Hs Ho) as [Hi' Hb]. unfold ChunkForOffset.
  destruct Hs as [Hc Ht]. split; [nia|]. intros ->. lia.
Qed.
