(* ===== verification/GeomCodec.v ===== *)
(** The record layout the chunk formats share: a four-byte magic, version
    (u32), chunk size (u32), total size (u64), chunk count (u32), all
    little-endian, then a format-specific tail.  The header of the memory
    stream (PSM1), the header of the disk stream (PSD1) and the presence
    bitmaps of the two shared caches (PSC1, PSCD) all begin with it. *)

From S2P Require Import Prelude Bytes Chunks.

(** The fixed part is [4+4+4+8+4] bytes. *)
Definition fixed_len : nat := 24.

Definition geom_prefix (magic : list byte) (version cs total n : Z) : list byte :=
  magic ++ le_bytes 4 version ++ le_bytes 4 cs ++ le_bytes 8 total ++ le_bytes 4 n.

(** Readers of the fields, [binary.LittleEndian.UintN(b[off:])]. *)
Definition rd_version (b : list byte) : Z := le_val (slice 4 4 b).
Definition rd_chunk_size (b : list byte) : Z := le_val (slice 8 4 b).
Definition rd_total (b : list byte) : Z := le_val (slice 12 8 b).
Definition rd_count (b : list byte) : Z := le_val (slice 20 4 b).

Lemma slice_skip {A} (l1 l2 : list A) off n :
  (length l1 ≤ off)%nat → slice off n (l1 ++ l2) = slice (off - length l1) n l2.
Proof.
  intros. unfold slice. by rewrite drop_app, drop_ge by lia.
Qed.

Lemma slice_here {A} (l1 l2 : list A) n :
  n = length l1 → slice 0 n (l1 ++ l2) = l1.
Proof. intros ->. unfold slice. by rewrite drop_0, take_app_length. Qed.

Ltac geom_field :=
  unfold geom_prefix; rewrite <- ?app_assoc;
  repeat (rewrite slice_skip by (rewrite ?length_le_bytes; lia);
          rewrite ?length_le_bytes; simpl Nat.sub);
  rewrite slice_here by (by rewrite length_le_bytes).

Section Fields.
Context (magic : list byte) (version cs total n : Z) (rest : list byte).
Hypothesis Hmagic : length magic = 4%nat.
Let b := geom_prefix magic version cs total n ++ rest.

Lemma length_geom_prefix : length (geom_prefix magic version cs total n) = fixed_len.
Proof using Hmagic.
  unfold geom_prefix. by rewrite !length_app, !length_le_bytes, Hmagic.
Qed.

Lemma geom_magic : take 4 b = magic.
Proof using Hmagic.
  subst b. unfold geom_prefix. rewrite <- Hmagic, <- !app_assoc. apply take_app_length.
Qed.

Lemma geom_tail : drop fixed_len b = rest.
Proof using Hmagic. subst b. rewrite <- length_geom_prefix. apply drop_app_length. Qed.

Lemma geom_tail_slice o k : slice (fixed_len + o) k b = slice o k rest.
Proof using Hmagic. unfold slice. by rewrite <- drop_drop, geom_tail. Qed.

Lemma geom_tail_head k : slice fixed_len k b = take k rest.
Proof using Hmagic. unfold slice. by rewrite geom_tail. Qed.

Lemma rd_version_spec : 0 ≤ version < 2 ^ 32 → rd_version b = version.
Proof using Hmagic.
  intros. unfold rd_version, b, geom_prefix. rewrite <- !app_assoc.
  rewrite slice_skip by lia. rewrite Hmagic, slice_here by (by rewrite length_le_bytes).
  by apply le_val_bytes.
Qed.

Lemma rd_chunk_size_spec : 0 ≤ cs < 2 ^ 32 → rd_chunk_size b = cs.
Proof using Hmagic.
  intros. unfold rd_chunk_size, b, geom_prefix. rewrite <- !app_assoc.
  do 2 (rewrite slice_skip by (rewrite ?length_le_bytes; lia);
        rewrite ?Hmagic, ?length_le_bytes).
  rewrite slice_here by (by rewrite length_le_bytes). by apply le_val_bytes.
Qed.

Lemma rd_total_spec : 0 ≤ total < 2 ^ 64 → rd_total b = total.
Proof using Hmagic.
  intros. unfold rd_total, b, geom_prefix. rewrite <- !app_assoc.
  do 3 (rewrite slice_skip by (rewrite ?Hmagic, ?length_le_bytes; lia);
        rewrite ?Hmagic, ?length_le_bytes).
  rewrite slice_here by (by rewrite length_le_bytes). by apply le_val_bytes.
Qed.

Lemma rd_count_spec : 0 ≤ n < 2 ^ 32 → rd_count b = n.
Proof using Hmagic.
  intros. unfold rd_count, b, geom_prefix. rewrite <- !app_assoc.
  do 4 (rewrite slice_skip by (rewrite ?Hmagic, ?length_le_bytes; lia);
        rewrite ?Hmagic, ?length_le_bytes).
  rewrite slice_here by (by rewrite length_le_bytes). by apply le_val_bytes.
Qed.
End Fields.

(** The four fields of any 24-byte prefix are within their widths, and the
    prefix is determined by them. *)
Lemma rd_fields_range b :
  (fixed_len ≤ length b)%nat →
  0 ≤ rd_version b < 2 ^ 32 ∧ 0 ≤ rd_chunk_size b < 2 ^ 32 ∧
  0 ≤ rd_total b < 2 ^ 64 ∧ 0 ≤ rd_count b < 2 ^ 32.
Proof.
  unfold fixed_len. intros Hlen.
  assert (Hr : ∀ o k, (o + k ≤ 24)%nat → 0 ≤ le_val (slice o k b) < 256 ^ Z.of_nat k).
  { intros o k Hk. pose proof (le_val_range (slice o k b)) as Hv.
    by rewrite length_slice in Hv by lia. }
  pose proof (Hr 4%nat 4%nat). pose proof (Hr 8%nat 4%nat).
  pose proof (Hr 12%nat 8%nat). pose proof (Hr 20%nat 4%nat).
  unfold rd_version, rd_chunk_size, rd_total, rd_count. simpl Z.of_nat in *. lia.
Qed.

Lemma geom_prefix_rd b :
  (fixed_len ≤ length b)%nat →
  geom_prefix (take 4 b) (rd_version b) (rd_chunk_size b) (rd_total b) (rd_count b) = take fixed_len b.
Proof.
  unfold fixed_len. intros Hlen. unfold geom_prefix, rd_version, rd_chunk_size, rd_total, rd_count.
  assert (Hb : ∀ o k, (o + k ≤ length b)%nat → le_bytes k (le_val (slice o k b)) = slice o k b).
  { intros o k Hk. rewrite <- (length_slice o k b Hk) at 1. apply le_bytes_val. }
  rewrite !Hb by lia. change (take 4 b) with (slice 0 4 b). change (take 24 b) with (slice 0 24 b).
  by rewrite !slice_cat.
Qed.
