(* ===== verification/MemHeader.v ===== *)
(** The memory-stream header, agent/internal/memstream/header.go: the manifest
    of a chunked [vm.mem] (PSM1), its builder, encoder and decoder. *)

From S2P Require Import Prelude Bytes Chunks GeomCodec.

(** "PSM1" *)
Definition Magic : list byte := [x50; x53; x4d; x31].
Definition DefaultChunkSize : Z := Z.shiftl 4 20.
Definition PageSize : Z := 4096.
Definition headerVersion : Z := 1.

Record Header := mkHeader {
  Version : Z;
  mChunkSize : Z;
  mTotalSize : Z;
  mPresent : list bool;
}.

#[global] Instance mem_stream : StreamHeader Header := {|
  ChunkSize := mChunkSize;
  TotalSize := mTotalSize;
  present := mPresent;
  ChunkSum := λ _ _, None;
|}.

Inductive header_err :=
  | ErrTooShort
  | ErrBadMagic
  | ErrVersion (v : Z)
  | ErrZeroChunkSize
  | ErrChunkCount (got want : Z)
  | ErrTruncatedBitmap (need have : Z).

(** [BuildHeader] on a file whose content is [f]. *)
Definition BuildHeader (f : list byte) (chunkSize : Z) : Header :=
  let chunkSize := if chunkSize <=? 0 then DefaultChunkSize else chunkSize in
  let cs := u32 chunkSize in
  let total := u64 (Z.of_nat (length f)) in
  let n := num_chunks cs total in
  {| Version := headerVersion; mChunkSize := cs; mTotalSize := total;
     mPresent := anyNonZero <$> read_chunks (Z.to_nat n) (Z.to_nat chunkSize) f |}.

Definition Encode (h : Header) : list byte :=
  let n := NumChunks h in
  geom_prefix Magic (Version h) (mChunkSize h) (mTotalSize h) n ++
  bitmap_of (Z.to_nat n) (λ i, default false (mPresent h !! i)).

Definition DecodeHeader (b : list byte) : res header_err Header :=
  check (fixed_len <=? length b)%nat else ErrTooShort in
  check bool_decide (take 4 b = Magic) else ErrBadMagic in
  let version := rd_version b in
  check version =? headerVersion else ErrVersion version in
  let cs := rd_chunk_size b in
  let total := rd_total b in
  let n := rd_count b in
  check negb (cs =? 0) else ErrZeroChunkSize in
  let got := num_chunks cs total in
  check got =? n else ErrChunkCount got n in
  let bitmapLen := bitmap_len (Z.to_nat n) in
  check (bitmapLen <=? length b - fixed_len)%nat
    else ErrTruncatedBitmap (Z.of_nat bitmapLen) (Z.of_nat (length b - fixed_len)) in
  let bitmap := slice fixed_len bitmapLen b in
  Ok {| Version := version; mChunkSize := cs; mTotalSize := total;
        mPresent := bits_of (Z.to_nat n) bitmap |}.

(** ** Well-formed headers: what [DecodeHeader] returns, and what [BuildHeader]
    returns for a file that fits *)

Definition wf_header (h : Header) : Prop :=
  Version h = headerVersion ∧ 0 < mChunkSize h < 2 ^ 32 ∧ 0 ≤ mTotalSize h < 2 ^ 64 ∧
  0 ≤ NumChunks h < 2 ^ 32 ∧ length (mPresent h) = Z.to_nat (NumChunks h).

#[export] Instance header_eq_dec : EqDecision Header.
Proof. solve_decision. Defined.
#[export] Instance header_err_eq_dec : EqDecision header_err.
Proof. solve_decision. Defined.

Lemma length_mem_Magic : length Magic = 4%nat.
Proof. done. Qed.

Lemma length_Encode h :
  length (Encode h) = (fixed_len + bitmap_len (Z.to_nat (NumChunks h)))%nat.
Proof.
  unfold Encode. rewrite length_app, length_geom_prefix by apply length_mem_Magic.
  by rewrite length_bitmap_of.
Qed.

(** Round trip.  Decoding what [Encode] wrote, whatever bytes follow it in
    the file, gives back the header. *)
Theorem decode_encode (h : Header) (rest : list byte) :
  wf_header h → DecodeHeader (Encode h ++ rest) = Ok h.
Proof.
  intros (Hv & Hc & Ht & Hn & Hp). unfold DecodeHeader.
  rewrite length_app, length_Encode.
  rewrite (proj2 (Nat.leb_le _ _)) by lia.
  unfold Encode. rewrite <- app_assoc.
  rewrite geom_magic, bool_decide_eq_true_2 by done.
  rewrite rd_version_spec by (done || by rewrite Hv).
  rewrite rd_chunk_size_spec, rd_total_spec, rd_count_spec by (done || lia).
  rewrite Hv, Z.eqb_refl. rewrite (proj2 (Z.eqb_neq (mChunkSize h) 0)) by lia. simpl negb.
  change (num_chunks (mChunkSize h) (mTotalSize h)) with (NumChunks h). rewrite Z.eqb_refl.
  rewrite (proj2 (Nat.leb_le _ _)) by lia.
  rewrite geom_tail_head, take_app_length' by (done || by rewrite length_bitmap_of).
  rewrite bits_of_bitmap, lookup_fmap_seq by done. destruct h; simpl in *. by subst.
Qed.

(** What decoding accepts.  A byte string decodes only to a well-formed
    header (so the presence list covers exactly the chunks the geometry
    derives), and re-encoding it gives the same 24-byte prefix and the same
    presence bits. *)
Theorem decode_sound (b : list byte) (h : Header) :
  DecodeHeader b = Ok h →
  wf_header h ∧ take fixed_len (Encode h) = take fixed_len b ∧
  ∀ i : nat, Z.of_nat i < NumChunks h →
    IsPresent h (Z.of_nat i) = get_bit (drop fixed_len b) i.
Proof.
  unfold DecodeHeader.
  destruct (Nat.leb_spec fixed_len (length b)) as [Hlen|]; [|done].
  case_bool_decide as Hm; [|done].
  destruct (Z.eqb_spec (rd_version b) headerVersion) as [Hv|]; [|done].
  destruct (Z.eqb_spec (rd_chunk_size b) 0) as [|Hc]; [done|]. simpl negb.
  destruct (Z.eqb_spec (num_chunks (rd_chunk_size b) (rd_total b)) (rd_count b)) as [Hn|]; [|done].
  destruct (Nat.leb_spec (bitmap_len (Z.to_nat (rd_count b))) (length b - fixed_len)); [|done].
  intros [= <-]. destruct (rd_fields_range b Hlen) as (? & ? & ? & Hcnt).
  unfold wf_header, NumChunks; cbn [ChunkSize TotalSize mem_stream mChunkSize mTotalSize Version mPresent].
  rewrite Hn, length_bits_of. split_and!; try done; try lia.
  - unfold Encode, NumChunks; cbn [ChunkSize TotalSize mem_stream mChunkSize mTotalSize Version mPresent].
    rewrite Hn, <- Hm, geom_prefix_rd by done.
    rewrite take_app_length'; [done|]. rewrite length_take. lia.
  - intros i Hi. rewrite is_present_lookup. cbn [present mem_stream mPresent].
    rewrite lookup_bits_of by lia. simpl. unfold get_bit, slice.
    rewrite lookup_take_lt; [done|]. apply bitmap_len_bound. lia.
Qed.

(** ** BuildHeader *)

Lemma build_fields f chunkSize :
  fits f chunkSize →
  let h := BuildHeader f chunkSize in
  mChunkSize h = (if chunkSize <=? 0 then DefaultChunkSize else chunkSize) ∧
  mTotalSize h = Z.of_nat (length f) ∧ wf_geom h.
Proof.
  intros [Hc Hl]. unfold BuildHeader. cbv zeta. cbn [mChunkSize mTotalSize].
  set (cs := if chunkSize <=? 0 then DefaultChunkSize else chunkSize).
  assert (Hcs : 0 < cs < 2 ^ 32).
  { subst cs. destruct (Z.leb_spec chunkSize 0); [by unfold DefaultChunkSize; simpl|lia]. }
  rewrite (u32_small cs), u64_small by lia. split_and!; try done.
  unfold wf_geom, NumChunks; cbn [ChunkSize TotalSize present mem_stream mChunkSize mTotalSize mPresent].
  rewrite length_fmap, length_read_chunks. split_and!; try done; lia.
Qed.

Lemma build_present_spec (f : list byte) (chunkSize : Z) (i : nat) :
  fits f chunkSize → Z.of_nat i < NumChunks (BuildHeader f chunkSize) →
  let h := BuildHeader f chunkSize in
  TotalSize h = Z.of_nat (length f) ∧
  (IsPresent h (Z.of_nat i) = false ↔
   chunk_bytes h f i = replicate (chunk_len h i) x00).
Proof.
  intros Hf Hi h. destruct (build_fields _ _ Hf) as (Hcs & Ht & Hwf). fold h in Hcs, Ht, Hwf, Hi.
  split; [done|]. rewrite is_present_lookup.
  assert (Hp : present h !! i = Some (anyNonZero (chunk_bytes h f i))).
  { rewrite chunk_bytes_slice by done. unfold chunk_len, chunk_off.
    cbn [ChunkSize TotalSize mem_stream]. rewrite Hcs, Ht. rewrite Nat2Z.id, <- slice_clip.
    unfold h, BuildHeader. cbv zeta. cbn [present mem_stream mPresent].
    rewrite list_lookup_fmap, lookup_read_chunks; [done|].
    unfold h, NumChunks in Hi. cbn [ChunkSize TotalSize mem_stream] in Hi.
    unfold BuildHeader in Hi. cbv zeta in Hi. cbn [mChunkSize mTotalSize] in Hi. lia. }
  rewrite Hp. simpl. rewrite anyNonZero_false.
  by rewrite length_chunk_bytes by (done || cbn [TotalSize mem_stream]; lia).
Qed.

(** [BuildHeader] elides exactly the zero chunks.  For a file that fits, the
    header it builds has the file's geometry, and a chunk is marked absent if
    and only if every byte of its range is zero: reconstructing absent chunks
    with zeros loses nothing, and no zero chunk is ever fetched. *)
Theorem build_present (f : list byte) (chunkSize : Z) (i : nat) :
  fits f chunkSize → Z.of_nat i < NumChunks (BuildHeader f chunkSize) →
  let h := BuildHeader f chunkSize in
  TotalSize h = Z.of_nat (length f) ∧
  (IsPresent h (Z.of_nat i) = false ↔
   chunk_bytes h f i = replicate (chunk_len h i) x00).
Proof. apply build_present_spec. Qed.

(** ** Witnesses *)

Definition sample_header : Header :=
  {| Version := 1; mChunkSize := 4; mTotalSize := 10; mPresent := [true; false; true] |}.

Lemma sample_header_wf : wf_header sample_header.
Proof. unfold wf_header. vm_compute. repeat split; discriminate. Qed.

Definition sample_file : list byte := [x01; x00; x00; x00; x00; x00; x00; x00; x00; x07].

Lemma decode_encode_witness :
  wf_header sample_header ∧ DecodeHeader (Encode sample_header ++ [x2a]) = Ok sample_header.
Proof. split; [exact sample_header_wf | apply (decode_encode sample_header [x2a]); exact sample_header_wf]. Defined.

Lemma decode_sound_witness :
  DecodeHeader (Encode sample_header) = Ok sample_header ∧ wf_header sample_header.
Proof.
  assert (Hd : DecodeHeader (Encode sample_header) = Ok sample_header) by (vm_compute; reflexivity).
  split; [exact Hd | exact (proj1 (decode_sound _ _ Hd))].
Defined.

Lemma build_present_witness :
  IsPresent (BuildHeader sample_file 4) 1 = false ∧ IsPresent (BuildHeader sample_file 4) 2 = true ∧
  chunk_bytes (BuildHeader sample_file 4) sample_file 1 = replicate 4 x00.
Proof.
  split; [vm_compute; reflexivity|]. split; [vm_compute; reflexivity|].
  apply (build_present sample_file 4 1); [split; vm_compute; reflexivity | vm_compute; reflexivity | vm_compute; reflexivity].
Defined.

Lemma chunks_tile_witness :
  (ChunkRange sample_header 2).1 ≤ 9 < (ChunkRange sample_header 2).1 + (ChunkRange sample_header 2).2.
Proof.
  apply (chunks_tile sample_header 9 2).
  - unfold wf_geom. vm_compute. repeat split; discriminate.
  - vm_compute. split; [discriminate | reflexivity].
  - vm_compute. split; [discriminate | reflexivity].
  - vm_compute. reflexivity.
Defined.
