(* ===== verification/DiskHeader.v ===== *)
(** The disk-stream header, agent/internal/diskstream/header.go: the manifest
    of a chunked rootfs image (PSD1).  It is the memory header plus a SHA-256
    digest per present chunk, packed in ascending chunk order after the
    presence bitmap.  The hash is the Section's parameter: the format relies on
    it being a function into 32 bytes. *)

From S2P Require Import Prelude Bytes Chunks GeomCodec.

(** "PSD1" *)
Definition Magic : list byte := [x50; x53; x44; x31].
Definition DefaultChunkSize : Z := Z.shiftl 1 20.
Definition headerVersion : Z := 1.
Definition sha256Len : nat := 32.

Record Header := mkHeader {
  Version : Z;
  dChunkSize : Z;
  dTotalSize : Z;
  dPresent : list bool;
  blockSHA : list (list byte);
}.

(** [ChunkSHA]: the digest of present chunk [i], if one is recorded. *)
Definition ChunkSHA (h : Header) (i : nat) : option (list byte) :=
  if (Z.of_nat i <? 0) || (Z.of_nat (length (blockSHA h)) <=? Z.of_nat i)
     || negb (is_present (dPresent h) (Z.of_nat i))
  then None
  else blockSHA h !! i.

#[global] Instance disk_stream : StreamHeader Header := {|
  ChunkSize := dChunkSize;
  TotalSize := dTotalSize;
  present := dPresent;
  ChunkSum := ChunkSHA;
|}.

Inductive header_err :=
  | ErrTooShort
  | ErrBadMagic
  | ErrVersion (v : Z)
  | ErrZeroChunkSize
  | ErrChunkCount (got want : Z)
  | ErrTruncatedBitmap (need have : Z)
  | ErrTruncatedDigests (need have : Z).

#[export] Instance header_eq_dec : EqDecision Header.
Proof. solve_decision. Defined.
#[export] Instance header_err_eq_dec : EqDecision header_err.
Proof. solve_decision. Defined.

(** The zero digest of an absent chunk. *)
Definition zero_sum : list byte := replicate sha256Len x00.

(** The digest section: the digests of the present chunks, in order. *)
Fixpoint pack_sums (p : list bool) (sums : list (list byte)) : list byte :=
  match p, sums with
  | true :: p, s :: sums => s ++ pack_sums p sums
  | false :: p, _ :: sums => pack_sums p sums
  | _, _ => []
  end.

(** The decoding loop: 32 bytes per present chunk, the zero value for the rest. *)
Fixpoint unpack_sums (p : list bool) (b : list byte) : list (list byte) :=
  match p with
  | [] => []
  | true :: p => take sha256Len b :: unpack_sums p (drop sha256Len b)
  | false :: p => zero_sum :: unpack_sums p b
  end.

Definition count_true (p : list bool) : nat := length (filter (λ b, b = true) p).

Section Hash.
(** crypto/sha256's [Sum256]. *)
Variable Sum256 : list byte → list byte.

(** What the loop records for one buffer it read. *)
Definition scan_chunk (buf : list byte) : bool * list byte :=
  if anyNonZero buf then (true, Sum256 buf) else (false, zero_sum).

Definition BuildHeader (f : list byte) (chunkSize : Z) : Header :=
  let chunkSize := if chunkSize <=? 0 then DefaultChunkSize else chunkSize in
  let cs := u32 chunkSize in
  let total := u64 (Z.of_nat (length f)) in
  let n := num_chunks cs total in
  let scan := scan_chunk <$> read_chunks (Z.to_nat n) (Z.to_nat chunkSize) f in
  {| Version := headerVersion; dChunkSize := cs; dTotalSize := total;
     dPresent := scan.*1; blockSHA := scan.*2 |}.
End Hash.

Definition Encode (h : Header) : list byte :=
  let n := NumChunks h in
  geom_prefix Magic (Version h) (dChunkSize h) (dTotalSize h) n ++
  bitmap_of (Z.to_nat n) (λ i, default false (dPresent h !! i)) ++
  pack_sums (take (Z.to_nat n) (dPresent h)) (blockSHA h).

Definition DecodeHeader (b : list byte) : res header_err Header :=
  check (fixed_len <=? length b)%nat else ErrTooShort in
  check bool_decide (take 4 b = Magic) else ErrBadMagic in
  let version := rd_version b in
  check version =? headerVersion else ErrVersion version in
  let cs := rd_chunk_size b in
  let total := rd_total b in
  let n := rd_count b in
  check negb (cs =? 0) else ErrZeroChunkSize in
  let got := num_chunks cs total in
  check got =? n else ErrChunkCount got n in
  let bitmapLen := bitmap_len (Z.to_nat n) in
  check (bitmapLen <=? length b - fixed_len)%nat
    else ErrTruncatedBitmap (Z.of_nat bitmapLen) (Z.of_nat (length b - fixed_len)) in
  let bitmap := slice fixed_len bitmapLen b in
  let p := bits_of (Z.to_nat n) bitmap in
  let digests := drop (fixed_len + bitmapLen) b in
  let need := (count_true p * sha256Len)%nat in
  check (need <=? length digests)%nat
    else ErrTruncatedDigests (Z.of_nat need) (Z.of_nat (length digests)) in
  Ok {| Version := version; dChunkSize := cs; dTotalSize := total;
        dPresent := p; blockSHA := unpack_sums p digests |}.

(** ** Well-formed headers *)

Definition sums_ok (p : list bool) (sums : list (list byte)) : Prop :=
  Forall2 (λ b s, length s = sha256Len ∧ (b = false → s = zero_sum)) p sums.

Definition wf_header (h : Header) : Prop :=
  Version h = headerVersion ∧ 0 < dChunkSize h < 2 ^ 32 ∧ 0 ≤ dTotalSize h < 2 ^ 64 ∧
  0 ≤ NumChunks h < 2 ^ 32 ∧ length (dPresent h) = Z.to_nat (NumChunks h) ∧
  sums_ok (dPresent h) (blockSHA h).

Lemma length_pack_sums p sums :
  sums_ok p sums → length (pack_sums p sums) = (count_true p * sha256Len)%nat.
Proof.
  unfold count_true. induction 1 as [|b s p sums [Hs _] _ IH]; [done|].
  destruct b; simpl; rewrite ?length_app, IH, ?Hs; done.
Qed.

Lemma unpack_pack p sums rest :
  sums_ok p sums → unpack_sums p (pack_sums p sums ++ rest) = sums.
Proof.
  induction 1 as [|b s p sums [Hs Hz] _ IH]; [done|]. destruct b; simpl.
  - rewrite <- app_assoc, <- Hs, take_app_length, drop_app_length. by rewrite IH.
  - rewrite Hz by done. by rewrite IH.
Qed.

Lemma count_true_cons b p : count_true (b :: p) = ((if b then 1 else 0) + count_true p)%nat.
Proof. by destruct b. Qed.

Lemma unpack_sums_ok p b :
  (count_true p * sha256Len ≤ length b)%nat → sums_ok p (unpack_sums p b).
Proof.
  unfold sha256Len. revert b. induction p as [|x p IH]; intros b Hlen; [constructor|].
  rewrite count_true_cons in Hlen. destruct x; constructor.
  - split; [|done]. rewrite length_take. unfold sha256Len. lia.
  - apply IH. rewrite length_drop. unfold sha256Len. lia.
  - split; [apply length_replicate | done].
  - apply IH. done.
Qed.

Lemma pack_unpack p b :
  (count_true p * sha256Len ≤ length b)%nat →
  pack_sums p (unpack_sums p b) = take (count_true p * sha256Len) b.
Proof.
  revert b. induction p as [|x p IH]; intros b Hlen; [done|].
  rewrite count_true_cons in *. destruct x; simpl unpack_sums; simpl pack_sums.
  - rewrite IH by (rewrite length_drop; unfold sha256Len in *; lia).
    rewrite take_take_drop. f_equal. 
  - by rewrite IH.
Qed.

Lemma disk_build_fields Sum256 f chunkSize :
  fits f chunkSize →
  let h := BuildHeader Sum256 f chunkSize in
  ChunkSize h = (if chunkSize <=? 0 then DefaultChunkSize else chunkSize) ∧
  TotalSize h = Z.of_nat (length f) ∧ wf_geom h.
Proof.
  intros [Hc Hl]. unfold BuildHeader, wf_geom. cbv zeta.
  cbn [ChunkSize TotalSize present disk_stream dChunkSize dTotalSize dPresent].
  set (cs := if chunkSize <=? 0 then DefaultChunkSize else chunkSize).
  assert (Hcs : 0 < cs < 2 ^ 32).
  { subst cs. destruct (Z.leb_spec chunkSize 0); [done|lia]. }
  rewrite (u32_small cs), u64_small by lia. split_and!; try done; try lia.
  by rewrite !length_fmap, length_read_chunks.
Qed.

Lemma disk_build_lookup Sum256 f chunkSize i :
  fits f chunkSize → Z.of_nat i < NumChunks (BuildHeader Sum256 f chunkSize) →
  let h := BuildHeader Sum256 f chunkSize in
  dPresent h !! i = Some (scan_chunk Sum256 (chunk_bytes h f i)).1 ∧
  blockSHA h !! i = Some (scan_chunk Sum256 (chunk_bytes h f i)).2.
Proof.
  intros Hf Hi h. destruct (disk_build_fields Sum256 _ _ Hf) as (Hcs & Ht & Hwf). fold h in Hcs, Ht, Hwf, Hi.
  rewrite chunk_bytes_slice by done. unfold chunk_len, chunk_off.
  rewrite Hcs, Ht, Nat2Z.id, <- slice_clip.
  unfold h, BuildHeader, NumChunks in *. cbv zeta in *.
  cbn [ChunkSize TotalSize disk_stream dPresent blockSHA dChunkSize dTotalSize] in *.
  rewrite !list_lookup_fmap, !lookup_read_chunks by lia. done.
Qed.

Lemma length_disk_Magic : length Magic = 4%nat.
Proof. done. Qed.

(** Round trip of the disk header, digests included. *)
Theorem disk_decode_encode (h : Header) (rest : list byte) :
  wf_header h → DecodeHeader (Encode h ++ rest) = Ok h.
Proof.
  intros (Hv & Hc & Ht & Hn & Hp & Hs). unfold DecodeHeader, Encode.
  rewrite (take_ge (dPresent h) (Z.to_nat (NumChunks h))) by lia. rewrite <- !app_assoc.
  rewrite !length_app, length_geom_prefix, length_bitmap_of by apply length_disk_Magic.
  rewrite (proj2 (Nat.leb_le _ _)) by lia.
  rewrite geom_magic, bool_decide_eq_true_2 by done.
  rewrite rd_version_spec by (done || by rewrite Hv).
  rewrite rd_chunk_size_spec, rd_total_spec, rd_count_spec by (done || lia).
  rewrite Hv, Z.eqb_refl. rewrite (proj2 (Z.eqb_neq (dChunkSize h) 0)) by lia. simpl negb.
  change (num_chunks (dChunkSize h) (dTotalSize h)) with (NumChunks h). rewrite Z.eqb_refl.
  rewrite (proj2 (Nat.leb_le _ _)) by lia.
  rewrite geom_tail_head, take_app_length' by (done || by rewrite length_bitmap_of).
  rewrite bits_of_bitmap.
  assert (Hbits : (λ i, default false (dPresent h !! i)) <$> seq 0 (Z.to_nat (NumChunks h)) = dPresent h).
  { by apply lookup_fmap_seq. }
  rewrite Hbits, <- drop_drop, geom_tail by done.
  rewrite drop_app_length' by (by rewrite length_bitmap_of).
  rewrite length_app, length_pack_sums by done.
  rewrite (proj2 (Nat.leb_le _ _)) by lia.
  rewrite unpack_pack by done. destruct h; simpl in *. by subst.
Qed.

(** What disk decoding accepts: a well-formed header with the same prefix
    and presence bits, and the digest of every present chunk is the 32-byte
    field the format gives it (the k-th one for the k-th present chunk). *)
Theorem disk_decode_sound (b : list byte) (h : Header) :
  DecodeHeader b = Ok h →
  wf_header h ∧ take fixed_len (Encode h) = take fixed_len b ∧
  (∀ i : nat, Z.of_nat i < NumChunks h →
     IsPresent h (Z.of_nat i) = get_bit (drop fixed_len b) i) ∧
  pack_sums (dPresent h) (blockSHA h) =
    slice (fixed_len + bitmap_len (length (dPresent h)))
          (count_true (dPresent h) * sha256Len) b.
Proof.
  unfold DecodeHeader.
  destruct (Nat.leb_spec fixed_len (length b)) as [Hlen|]; [|done].
  case_bool_decide as Hm; [|done].
  destruct (Z.eqb_spec (rd_version b) headerVersion) as [Hv|]; [|done].
  destruct (Z.eqb_spec (rd_chunk_size b) 0) as [|Hc]; [done|]. simpl negb.
  destruct (Z.eqb_spec (num_chunks (rd_chunk_size b) (rd_total b)) (rd_count b)) as [Hn|]; [|done].
  destruct (Nat.leb_spec (bitmap_len (Z.to_nat (rd_count b))) (length b - fixed_len)); [|done].
  set (p := bits_of _ _). set (bl := bitmap_len _). 
  destruct (Nat.leb_spec (count_true p * sha256Len) (length (drop (fixed_len + bl) b))) as [Hd|]; [|done].
  intros [= <-]. destruct (rd_fields_range b Hlen) as (? & ? & ? & Hcnt).
  assert (Hpl : length p = Z.to_nat (rd_count b)) by apply length_bits_of.
  unfold wf_header, NumChunks; cbn [ChunkSize TotalSize disk_stream dChunkSize dTotalSize Version dPresent blockSHA].
  rewrite Hn, Hpl. split_and!; try done; try lia.
  - by apply unpack_sums_ok.
  - unfold Encode, NumChunks; cbn [ChunkSize TotalSize disk_stream dChunkSize dTotalSize Version].
    rewrite Hn, <- Hm, geom_prefix_rd by done.
    rewrite take_app_length'; [done|]. rewrite length_take. lia.
  - intros i Hi. rewrite is_present_lookup. cbn [present disk_stream dPresent]. subst p.
    rewrite lookup_bits_of by lia. simpl. unfold get_bit, slice.
    rewrite lookup_take_lt; [done|]. apply bitmap_len_bound. lia.
  - by apply pack_unpack.
Qed.

Lemma disk_build_spec (Sum256 : list byte → list byte) (f : list byte) (chunkSize : Z) (i : nat) :
  fits f chunkSize → Z.of_nat i < NumChunks (BuildHeader Sum256 f chunkSize) →
  let h := BuildHeader Sum256 f chunkSize in
  TotalSize h = Z.of_nat (length f) ∧
  ChunkSHA h i =
    (if bool_decide (chunk_bytes h f i = replicate (chunk_len h i) x00) then None
     else Some (Sum256 (chunk_bytes h f i))).
Proof.
  intros Hf Hi h. destruct (disk_build_fields Sum256 _ _ Hf) as (Hcs & Ht & Hwf). fold h in Hcs, Ht, Hwf, Hi.
  split; [done|].
  destruct (disk_build_lookup Sum256 _ _ _ Hf Hi) as [Hpi Hsi]. fold h in Hpi, Hsi.
  unfold ChunkSHA. pose proof (lookup_lt_Some _ _ _ Hsi) as Hlt.
  pose proof (is_present_lookup h i) as Hpr. unfold IsPresent in Hpr. cbn [present disk_stream] in Hpr.
  rewrite Hpr, Hpi, Hsi. simpl default.
  rewrite (proj2 (Z.ltb_ge (Z.of_nat i) 0)), (proj2 (Z.leb_gt (Z.of_nat (length (blockSHA h))) (Z.of_nat i))) by lia.
  simpl orb. rewrite <- (length_chunk_bytes h f i Hwf Hi) by (rewrite Ht; lia).
  unfold scan_chunk. destruct (anyNonZero (chunk_bytes h f i)) eqn:Ha; simpl.
  - rewrite bool_decide_eq_false_2; [done|]. intros He. apply anyNonZero_false in He. congruence.
  - apply anyNonZero_false in Ha. by rewrite bool_decide_eq_true_2.
Qed.

(** [BuildHeader] records, for exactly the non-zero chunks, the digest of the
    chunk's bytes; [ChunkSHA] returns that digest for a present chunk and
    nothing for an absent one. *)
Theorem disk_build_sums (Sum256 : list byte → list byte) (f : list byte) (chunkSize : Z) (i : nat) :
  fits f chunkSize → Z.of_nat i < NumChunks (BuildHeader Sum256 f chunkSize) →
  let h := BuildHeader Sum256 f chunkSize in
  TotalSize h = Z.of_nat (length f) ∧
  ChunkSHA h i =
    (if bool_decide (chunk_bytes h f i = replicate (chunk_len h i) x00) then None
     else Some (Sum256 (chunk_bytes h f i))).
Proof. apply disk_build_spec. Qed.

(** The builder's output as the caches see it: geometry, and presence of
    exactly the chunks that are not all zero. *)
Lemma disk_build_wf Sum256 f chunkSize :
  fits f chunkSize → wf_geom (BuildHeader Sum256 f chunkSize).
Proof. intros Hf. by destruct (disk_build_fields Sum256 _ _ Hf) as (_ & _ & ?). Qed.

Lemma disk_build_absent Sum256 f chunkSize i :
  fits f chunkSize → Z.of_nat i < NumChunks (BuildHeader Sum256 f chunkSize) →
  let h := BuildHeader Sum256 f chunkSize in
  IsPresent h (Z.of_nat i) = false ↔ chunk_bytes h f i = replicate (chunk_len h i) x00.
Proof.
  intros Hf Hi h. destruct (disk_build_fields Sum256 _ _ Hf) as (Hcs & Ht & Hwf). fold h in Hcs, Ht, Hwf, Hi.
  destruct (disk_build_lookup Sum256 _ _ _ Hf Hi) as [Hpi _]. fold h in Hpi.
  rewrite is_present_lookup. cbn [present disk_stream]. rewrite Hpi. simpl default.
  rewrite <- (length_chunk_bytes h f i Hwf Hi) by (rewrite Ht; lia).
  unfold scan_chunk. rewrite <- anyNonZero_false. by destruct (anyNonZero _).
Qed.

(** ** Witnesses *)

(** A stand-in 32-byte digest for the concrete inputs. *)
Definition demo_sum (b : list byte) : list byte := take sha256Len (b ++ replicate sha256Len x2a).

Definition sample_file : list byte := [x01; x00; x00; x00; x00; x00; x00; x00; x00; x07].
Definition sample_header : Header := BuildHeader demo_sum sample_file 4.

Lemma disk_sample_wf : wf_header sample_header.
Proof.
  unfold wf_header. vm_compute. repeat split; try discriminate.
  repeat constructor; discriminate.
Qed.

Lemma disk_decode_encode_witness :
  wf_header sample_header ∧ DecodeHeader (Encode sample_header ++ [x2a]) = Ok sample_header.
Proof. split; [exact disk_sample_wf | apply (disk_decode_encode sample_header [x2a]); exact disk_sample_wf]. Defined.

Lemma disk_decode_sound_witness :
  DecodeHeader (Encode sample_header) = Ok sample_header ∧ wf_header sample_header.
Proof.
  assert (Hd : DecodeHeader (Encode sample_header) = Ok sample_header) by (vm_compute; reflexivity).
  split; [exact Hd | exact (proj1 (disk_decode_sound _ _ Hd))].
Defined.

Lemma disk_build_sums_witness :
  ChunkSHA sample_header 1 = None ∧ ChunkSHA sample_header 2 = Some (demo_sum [x00; x07]).
Proof.
  split.
  - apply (disk_build_sums demo_sum sample_file 4 1); [split; vm_compute; reflexivity | vm_compute; reflexivity].
  - apply (disk_build_sums demo_sum sample_file 4 2); [split; vm_compute; reflexivity | vm_compute; reflexivity].
Defined.
