(* ===== verification/GoSort.v ===== *)
(** [sort.Slice] and [sort.Ints]: insertion sort with a boolean "less", the
    routine Go's sort runs on short slices.  Every theorem about a sorted
    slice uses only the contract proved here: a permutation of the input in
    which no element is preceded by a strictly greater one. *)

From stdpp Require Import sorting.
From S2P Require Import Prelude.

Section Sort.
Context {A : Type} (less : A → A → bool).

Fixpoint insert_sorted (x : A) (l : list A) : list A :=
  match l with
  | [] => [x]
  | y :: l => if less x y then x :: y :: l else y :: insert_sorted x l
  end.

Definition sort_slice (l : list A) : list A := foldr insert_sorted [] (reverse l).

Lemma insert_sorted_perm x l : insert_sorted x l ≡ₚ x :: l.
Proof. induction l as [|y l IH]; simpl; [done|]. destruct (less x y); [done|]. rewrite IH. constructor. Qed.

Lemma sort_slice_perm l : sort_slice l ≡ₚ l.
Proof.
  unfold sort_slice. rewrite <- (reverse_Permutation l) at 2.
  induction (reverse l) as [|x k IH]; simpl; [done|]. by rewrite insert_sorted_perm, IH.
Qed.

(** [less] is a strict weak order: asymmetric, and incomparability composes. *)
Class StrictWeak : Prop := {
  less_irrefl x : less x x = false;
  less_trans x y z : less x y = true → less y z = true → less x z = true;
  less_cotrans x y z : less x z = true → less x y = true ∨ less y z = true;
}.

Definition not_after (x y : A) : Prop := less y x = false.

Context `{StrictWeak}.

Lemma less_asym x y : less x y = true → less y x = false.
Proof using All.
  intros Hxy. destruct (less y x) eqn:E; [|done].
  by rewrite <- (less_irrefl x), (less_trans x y x).
Qed.

#[local] Instance not_after_trans : Transitive not_after.
Proof using All.
  intros x y z Hxy Hyz. unfold not_after in *. destruct (less z x) eqn:E; [|done].
  destruct (less_cotrans _ y _ E); congruence.
Qed.

Lemma insert_sorted_sorted x l :
  StronglySorted not_after l → StronglySorted not_after (insert_sorted x l).
Proof using All.
  induction 1 as [|y l Hl IH Hy]; simpl; [repeat constructor|].
  destruct (less x y) eqn:E.
  - assert (Hxy : not_after x y) by (by apply less_asym).
    constructor; [by constructor|]. constructor; [done|].
    eapply Forall_impl; [exact Hy|]. intros z Hz. by transitivity y.
  - constructor; [done|]. rewrite insert_sorted_perm. by constructor.
Qed.

Lemma sort_slice_sorted l : StronglySorted not_after (sort_slice l).
Proof using All.
  unfold sort_slice. induction (reverse l) as [|x k IH]; simpl; [constructor|].
  by apply insert_sorted_sorted.
Qed.

(** The head of a sorted slice is a minimum. *)
Lemma sort_slice_head l x k :
  sort_slice l = x :: k → x ∈ l ∧ ∀ y, y ∈ l → less y x = false.
Proof using All.
  intros Hs. pose proof (sort_slice_perm l) as Hp. pose proof (sort_slice_sorted l) as Hsort.
  rewrite Hs in Hp, Hsort. split; [rewrite <- Hp; by left|].
  intros y Hy. rewrite <- Hp in Hy. apply elem_of_cons in Hy as [->|Hy]; [apply less_irrefl|].
  inversion_clear Hsort as [|? ? _ Hf]. rewrite Forall_forall in Hf. by apply Hf.
Qed.
End Sort.

Arguments StrictWeak {A} less.

#[export] Instance ltb_strict : StrictWeak Z.ltb.
Proof. split; intros; rewrite ?Z.ltb_lt, ?Z.ltb_ge in *; lia. Qed.

(** [sort.Ints]. *)
Definition sort_ints : list Z → list Z := sort_slice Z.ltb.
