(* ===== verification/Prefetch.v ===== *)
(** The prefetch lists, agent/internal/memstream/prefetch.go (PSP1) and
    agent/internal/diskstream/prefetch.go (PSPD): the recorded access trace,
    its encoder, decoder and builder, and the guard that decides what a
    restore replays.  The two packages differ in the magic only. *)

From stdpp Require Import sorting.
From S2P Require Import Prelude Bytes Chunks GoSort.

(** "PSP1", "PSPD" *)
Definition MemPrefetchMagic : list byte := [x50; x53; x50; x31].
Definition DiskPrefetchMagic : list byte := [x50; x53; x50; x44].
Definition prefetchVersion : Z := 1.
Definition prefetch_fixed : nat := 16.

Record Prefetch := mkPrefetch {
  pVersion : Z;
  pChunkSize : Z;
  pChunks : list Z;
}.

Inductive prefetch_err :=
  | ErrPfTooShort
  | ErrPfMagic
  | ErrPfVersion (v : Z)
  | ErrPfTruncated (need have : Z).

(** [for i := 0; i < n; i++ { Chunks[i] = Uint32(b[off:]); off += 4 }] *)
Fixpoint read_u32s (n : nat) (b : list byte) : list Z :=
  match n with O => [] | S n => le_val (take 4 b) :: read_u32s n (drop 4 b) end.

Section Codec.
Variable magic : list byte.

Definition Encode (p : Prefetch) : list byte :=
  magic ++ le_bytes 4 (pVersion p) ++ le_bytes 4 (pChunkSize p) ++
  le_bytes 4 (u32 (Z.of_nat (length (pChunks p)))) ++
  mjoin (le_bytes 4 <$> pChunks p).

Definition DecodePrefetch (b : list byte) : res prefetch_err Prefetch :=
  check (prefetch_fixed <=? length b)%nat else ErrPfTooShort in
  check bool_decide (take 4 b = magic) else ErrPfMagic in
  let version := le_val (slice 4 4 b) in
  check version =? prefetchVersion else ErrPfVersion version in
  let cs := le_val (slice 8 4 b) in
  let n := le_val (slice 12 4 b) in
  check 4 * n <=? Z.of_nat (length b - prefetch_fixed)
    else ErrPfTruncated (4 * n) (Z.of_nat (length b - prefetch_fixed)) in
  Ok {| pVersion := version; pChunkSize := cs;
        pChunks := read_u32s (Z.to_nat n) (drop prefetch_fixed b) |}.
End Codec.

(** [FetchedChunks]: the indices whose chunk is in the resolver's cache. *)
Definition FetchedChunks (cached : list bool) : list Z :=
  Z.of_nat <$> filter (λ i, default false (cached !! i) = true) (seq 0 (length cached)).

Definition BuildPrefetch (cs : Z) (cached : list bool) : Prefetch :=
  {| pVersion := prefetchVersion; pChunkSize := cs;
     pChunks := u32 <$> sort_ints (FetchedChunks cached) |}.

(** The guards and the worker count at the head of [Prefault], and the jobs it
    then feeds to the workers, in order: [None] is the early return. *)
Definition prefault_plan (warmer : bool) (chunks : list Z) (chunkSize headerChunkSize workers : Z)
    : option (Z * list Z) :=
  if negb warmer || bool_decide (chunks = []) then None
  else if negb (chunkSize =? 0) && negb (chunkSize =? headerChunkSize) then None
  else
    let workers := if workers <=? 0 then 4 else workers in
    let n := Z.of_nat (length chunks) in
    Some (if n <? workers then n else workers, chunks).

(** The memory stream's copies of the codec. *)
Definition mem_Encode : Prefetch → list byte := Encode MemPrefetchMagic.
Definition mem_DecodePrefetch : list byte → res prefetch_err Prefetch := DecodePrefetch MemPrefetchMagic.
Definition disk_Encode : Prefetch → list byte := Encode DiskPrefetchMagic.
Definition disk_DecodePrefetch : list byte → res prefetch_err Prefetch := DecodePrefetch DiskPrefetchMagic.

Definition wf_prefetch (p : Prefetch) : Prop :=
  pVersion p = prefetchVersion ∧ 0 ≤ pChunkSize p < 2 ^ 32 ∧
  Z.of_nat (length (pChunks p)) < 2 ^ 32 ∧ Forall (λ c, 0 ≤ c < 2 ^ 32) (pChunks p).

Lemma length_read_u32s n b : length (read_u32s n b) = n.
Proof. revert b. induction n; simpl; auto. Qed.

Lemma join_u32s_cons (c : Z) cs :
  mjoin (le_bytes 4 <$> c :: cs) = le_bytes 4 c ++ mjoin (le_bytes 4 <$> cs).
Proof. done. Qed.

Lemma length_join_u32s (cs : list Z) : length (mjoin (le_bytes 4 <$> cs)) = (4 * length cs)%nat.
Proof.
  induction cs as [|c cs IH]; [done|]. rewrite join_u32s_cons, length_app, length_le_bytes, IH.
  simpl. lia.
Qed.

Lemma read_join_u32s (cs : list Z) rest :
  Forall (λ c, 0 ≤ c < 2 ^ 32) cs →
  read_u32s (length cs) (mjoin (le_bytes 4 <$> cs) ++ rest) = cs.
Proof.
  induction 1 as [|c cs Hc _ IH]; [done|]. cbn [length read_u32s].
  rewrite join_u32s_cons, <- app_assoc, take_app_length', drop_app_length' by (by rewrite length_le_bytes).
  by rewrite le_val_bytes, IH.
Qed.

Lemma read_u32s_range n b :
  (4 * n ≤ length b)%nat → Forall (λ c, 0 ≤ c < 2 ^ 32) (read_u32s n b).
Proof.
  revert b. induction n as [|n IH]; intros b Hlen; simpl; [constructor|]. constructor.
  - pose proof (le_val_range (take 4 b)) as Hr. rewrite length_take in Hr.
    by rewrite Nat.min_l in Hr by lia.
  - apply IH. rewrite length_drop. lia.
Qed.

Lemma prefetch_fields magic p rest :
  length magic = 4%nat → wf_prefetch p →
  let b := Encode magic p ++ rest in
  take 4 b = magic ∧ le_val (slice 4 4 b) = pVersion p ∧ le_val (slice 8 4 b) = pChunkSize p ∧
  le_val (slice 12 4 b) = Z.of_nat (length (pChunks p)) ∧
  drop prefetch_fixed b = mjoin (le_bytes 4 <$> pChunks p) ++ rest ∧
  length b = (prefetch_fixed + 4 * length (pChunks p) + length rest)%nat.
Proof.
  intros Hm (Hv & Hc & Hl & _). cbv zeta. unfold Encode. rewrite u32_small by lia.
  rewrite <- !app_assoc. set (d := mjoin _ ++ rest).
  assert (Hf : ∀ (l1 l2 : list byte) z, 0 ≤ z < 2 ^ 32 →
             le_val (slice (length l1) 4 (l1 ++ le_bytes 4 z ++ l2)) = z).
  { intros l1 l2 z Hz. rewrite slice_app_mid by (rewrite ?length_le_bytes; done).
    by apply le_val_bytes. }
  split_and!.
  - by rewrite take_app_length'.
  - rewrite <- Hm at 1. apply Hf. rewrite Hv. done.
  - rewrite (app_assoc magic). replace 8%nat with (length (magic ++ le_bytes 4 (pVersion p)))
      by (rewrite length_app, length_le_bytes; lia). by apply Hf.
  - rewrite (app_assoc magic), (app_assoc (magic ++ _)).
    replace 12%nat with (length ((magic ++ le_bytes 4 (pVersion p)) ++ le_bytes 4 (pChunkSize p)))
      by (rewrite !length_app, !length_le_bytes; lia). apply Hf. lia.
  - rewrite !app_assoc. apply drop_app_length'. by rewrite !length_app, !length_le_bytes, Hm.
  - rewrite !length_app, !length_le_bytes, Hm. subst d. rewrite length_app, length_join_u32s.
    unfold prefetch_fixed. lia.
Qed.

(** Round trip of the prefetch list, for both magics, whatever follows it. *)
Theorem prefetch_roundtrip (magic : list byte) (p : Prefetch) (rest : list byte) :
  length magic = 4%nat → wf_prefetch p →
  DecodePrefetch magic (Encode magic p ++ rest) = Ok p.
Proof.
  intros Hm Hwf. destruct (prefetch_fields magic p rest Hm Hwf) as (H1 & H2 & H3 & H4 & H5 & H6).
  destruct Hwf as (Hv & Hc & Hl & Hf). unfold DecodePrefetch.
  rewrite H1, H2, H3, H4, H5, H6, Hv, Z.eqb_refl, bool_decide_eq_true_2 by done.
  rewrite (proj2 (Nat.leb_le _ _)), (proj2 (Z.leb_le _ _)) by lia.
  rewrite Nat2Z.id, read_join_u32s by done. destruct p; simpl in *. by subst.
Qed.

(** A list read under one magic is rejected under the other, so a misplaced
    file is never applied to the wrong resolver. *)
Lemma prefetch_magics_disjoint p rest :
  wf_prefetch p →
  disk_DecodePrefetch (mem_Encode p ++ rest) = Err ErrPfMagic ∧
  mem_DecodePrefetch (disk_Encode p ++ rest) = Err ErrPfMagic.
Proof.
  intros Hwf. unfold disk_DecodePrefetch, mem_DecodePrefetch, mem_Encode, disk_Encode, DecodePrefetch.
  destruct (prefetch_fields MemPrefetchMagic p rest eq_refl Hwf) as (H1 & _ & _ & _ & _ & H6).
  destruct (prefetch_fields DiskPrefetchMagic p rest eq_refl Hwf) as (H1' & _ & _ & _ & _ & H6').
  rewrite H1, H6, H1', H6'. by rewrite (proj2 (Nat.leb_le _ _)) by lia.
Qed.

Lemma fetched_spec cached (i : nat) :
  Z.of_nat i ∈ FetchedChunks cached ↔ cached !! i = Some true.
Proof.
  unfold FetchedChunks. rewrite list_elem_of_fmap. split.
  - intros (j & Hij & Hj). apply Nat2Z.inj in Hij as <-.
    apply list_elem_of_filter in Hj as [Hj _]. by destruct (cached !! i) as [[]|].
  - intros Hi. exists i. split; [done|]. apply list_elem_of_filter. rewrite Hi. split; [done|].
    apply list_elem_of_In, in_seq. apply lookup_lt_Some in Hi. lia.
Qed.

Lemma sorted_seq_of_nat (P : nat → Prop) `{∀ i, Decision (P i)} s n :
  StronglySorted Z.lt (Z.of_nat <$> filter P (seq s n)).
Proof.
  revert s. induction n as [|n IH]; intros s; simpl; [constructor|].
  rewrite filter_cons. case_decide; [|apply IH].
  simpl. constructor; [apply IH|]. apply Forall_fmap, Forall_forall. intros j Hj.
  apply list_elem_of_filter in Hj as [_ Hj]. apply list_elem_of_In, in_seq in Hj. simpl. lia.
Qed.

Lemma ssorted_impl {A} (R R' : relation A) l :
  (∀ x y, R x y → R' x y) → StronglySorted R l → StronglySorted R' l.
Proof.
  intros Himp. induction 1 as [|x l _ IH Hx]; constructor; [done|].
  eapply Forall_impl; [done|]. auto.
Qed.

(** What [BuildPrefetch] records: the chunks the resolver has cached, each
    once, in ascending index order (whatever order the guest touched them
    in), with the header's chunk size. *)
Theorem build_prefetch_spec (cs : Z) (cached : list bool) :
  Z.of_nat (length cached) ≤ 2 ^ 32 →
  let p := BuildPrefetch cs cached in
  pChunkSize p = cs ∧ StronglySorted Z.lt (pChunks p) ∧
  (∀ i : nat, Z.of_nat i ∈ pChunks p ↔ cached !! i = Some true).
Proof.
  intros Hlen p. split; [done|].
  assert (Hs : pChunks p = FetchedChunks cached).
  { subst p. unfold BuildPrefetch, sort_ints. cbn [pChunks].
    assert (Hsort : sort_slice Z.ltb (FetchedChunks cached) = FetchedChunks cached).
    { apply (StronglySorted_unique Z.le).
      - eapply ssorted_impl; [|apply sort_slice_sorted; exact _].
        intros x y Hxy. unfold not_after in Hxy. apply Z.ltb_ge in Hxy. lia.
      - eapply ssorted_impl; [|apply sorted_seq_of_nat]. intros; lia.
      - apply sort_slice_perm. }
    rewrite Hsort. apply list_eq. intros k. rewrite list_lookup_fmap.
    destruct (FetchedChunks cached !! k) as [z|] eqn:Hk; [|done]. simpl. f_equal.
    apply list_elem_of_lookup_2 in Hk. unfold FetchedChunks in Hk.
    apply list_elem_of_fmap in Hk as (j & -> & Hj). apply list_elem_of_filter in Hj as [_ Hj].
    apply list_elem_of_In, in_seq in Hj. apply u32_small. lia. }
  rewrite Hs. split; [apply sorted_seq_of_nat | apply fetched_spec].
Qed.

(** The jobs [Prefault] feeds are the whole list, front to back, to between one
    worker and as many as there are chunks; and it replays nothing recorded at
    another chunk size. *)
Lemma prefault_plan_spec warmer chunks cs hcs workers :
  match prefault_plan warmer chunks cs hcs workers with
  | None => warmer = false ∨ chunks = [] ∨ (cs ≠ 0 ∧ cs ≠ hcs)
  | Some (w, jobs) =>
      jobs = chunks ∧ 1 ≤ w ≤ Z.of_nat (length chunks) ∧ (cs = 0 ∨ cs = hcs)
  end.
Proof.
  unfold prefault_plan. destruct warmer; simpl; [|by left].
  case_bool_decide as Hnil; [by right; left|].
  destruct (Z.eqb_spec cs 0), (Z.eqb_spec cs hcs); simpl;
    try (right; right; done);
    (assert (0 < length chunks)%nat by (destruct chunks; [done|simpl; lia]);
     split; [done|]; split; [|auto];
     destruct (Z.leb_spec workers 0);
     match goal with |- context [?a <? ?b] => destruct (Z.ltb_spec a b) end; lia).
Qed.

(** ** Witnesses *)

Definition sample_prefetch : Prefetch := {| pVersion := 1; pChunkSize := 4096; pChunks := [0; 7; 300] |}.

Lemma prefetch_roundtrip_witness :
  DecodePrefetch DiskPrefetchMagic (Encode DiskPrefetchMagic sample_prefetch ++ [xff]) = Ok sample_prefetch.
Proof.
  apply (prefetch_roundtrip DiskPrefetchMagic sample_prefetch [xff]); [reflexivity|].
  split; [reflexivity|]. split; [simpl; lia|]. split; [simpl; lia|].
  repeat constructor; simpl; lia.
Defined.

Lemma build_prefetch_spec_witness :
  pChunks (BuildPrefetch 4096 [true; false; true]) = [0; 2] ∧
  StronglySorted Z.lt (pChunks (BuildPrefetch 4096 [true; false; true])).
Proof.
  split; [vm_compute; reflexivity|].
  apply (build_prefetch_spec 4096 [true; false; true]). vm_compute. discriminate.
Defined.
