(* ===== verification/Fetch.v ===== *)
(** What the shared caches and the resolvers of both streams have in common:
    fetching one chunk from a [ChunkSource] into a local sparse file, the loop
    over the chunks a byte range overlaps, and the relation between that file
    and the image it is a partial copy of. *)

From S2P Require Import Prelude Bytes Chunks.

(** The environment of one operation: what the upstream answers to
    [ReadAt(off, len)], and which local writes fail (after how many bytes).
    Within one operation a chunk is requested at most once, so a function of
    the request is as general as a sequence of answers. *)
Record io := mkIO {
  io_read : Z → Z → res unit (list byte);
  io_wfault : Z → option nat;
}.

Inductive fetch_err :=
  | ErrOffset (off : Z)
  | ErrChunkRange (idx : Z)
  | ErrFetch (idx : Z)
  | ErrShort (idx got want : Z)
  | ErrIntegrity (idx : Z)
  | ErrWrite (idx : Z)
  | ErrWouldBlock (idx : Z)
  | IndexPanic (idx : Z).

Inductive fetched :=
  | FSkip
  | FErr (e : fetch_err)
  | FWrote.

Section Fetch.
Context {H : Type} `{StreamHeader H}.
Variable Sum256 : list byte → list byte.
Implicit Types h : H.

(** The integrity check: vacuous for a header that records no digests. *)
Definition verify h (idx : Z) (buf : list byte) : bool :=
  match ChunkSum h (Z.to_nat idx) with
  | Some want => bool_decide (Sum256 buf = want)
  | None => true
  end.

(** [fetchChunk]: the file after it, and how it ended. *)
Definition fetch_into h (o : io) (idx : Z) (data : list byte) : list byte * fetched :=
  let '(off, len) := ChunkRange h idx in
  if len =? 0 then (data, FSkip)
  else match io_read o off len with
  | Err _ => (data, FErr (ErrFetch idx))
  | Ok got =>
      let buf := take (Z.to_nat len) got in
      let n := Z.of_nat (length buf) in
      if n <? len then (data, FErr (ErrShort idx n len))
      else if negb (verify h idx buf) then (data, FErr (ErrIntegrity idx))
      else match io_wfault o off with
      | Some k => (write_at (Z.to_nat off) (take k buf) data, FErr (ErrWrite idx))
      | None => (write_at (Z.to_nat off) buf data, FWrote)
      end
  end.

(** [for i := first; i <= last; i++]: the chunks [off, stop) overlaps. *)
Definition chunk_span h (off stop : Z) : list Z :=
  let first := ChunkForOffset h off in
  let last := ChunkForOffset h (stop - 1) in
  (λ k, first + Z.of_nat k) <$> seq 0 (Z.to_nat (last - first + 1)).

(** The loop body of [ReadAt], run to the first error. *)
Fixpoint ensure_all {S} (ensure : Z → S → S * option fetch_err) (l : list Z) (s : S)
    : S * option fetch_err :=
  match l with
  | [] => (s, None)
  | i :: l =>
      match ensure i s with
      | (s, None) => ensure_all ensure l s
      | (s, Some e) => (s, Some e)
      end
  end.
End Fetch.

(** ** The file as a partial copy of the image *)

Section FileOk.
Context {H : Type} `{StreamHeader H}.
Variable Sum256 : list byte → list byte.
Variable h : H.
Variable img : list byte.
Context (Hwf : wf_geom h).

(** [h] describes [img]: the sizes agree and absent chunks are zero. *)
Definition image_of : Prop :=
  length img = Z.to_nat (TotalSize h) ∧
  ∀ i : nat, Z.of_nat i < NumChunks h → IsPresent h (Z.of_nat i) = false →
    chunk_bytes h img i = replicate (chunk_len h i) x00.
Context (Himg : image_of).

(** What the upstream may answer for a chunk the header marks present: if an
    answer of full length passes the integrity check, it is the image's chunk.  For the disk stream this is
    collision-freedom of the digests the header records; for the memory
    stream, which records none, it is the honesty of the object store. *)
Definition honest (o : io) : Prop :=
  ∀ (i : nat) got, Z.of_nat i < NumChunks h → IsPresent h (Z.of_nat i) = true →
    io_read o (Z.of_nat (chunk_off h i)) (Z.of_nat (chunk_len h i)) = Ok got →
    length (take (chunk_len h i) got) = chunk_len h i →
    verify Sum256 h (Z.of_nat i) (take (chunk_len h i) got) = true →
    take (chunk_len h i) got = chunk_bytes h img i.

Definition chunk_good (data : list byte) (i : nat) : Prop :=
  slice (chunk_off h i) (chunk_len h i) data = chunk_bytes h img i.

Lemma NumChunks_nonneg : 0 ≤ NumChunks h.
Proof using Hwf. rewrite <- (length_present_num h Hwf). lia. Qed.

Lemma write_chunk_length data i bs :
  length data = Z.to_nat (TotalSize h) → Z.of_nat i < NumChunks h →
  (length bs ≤ chunk_len h i)%nat →
  length (write_at (chunk_off h i) bs data) = Z.to_nat (TotalSize h).
Proof using Hwf.
  intros Hd Hi Hb. destruct (ChunkRange_nat h i Hwf Hi) as (_ & _ & ?).
  rewrite length_write_at; lia.
Qed.

(** A write inside one chunk leaves every other chunk as it was. *)
Lemma write_chunk_other data i j bs :
  length data = Z.to_nat (TotalSize h) →
  Z.of_nat i < NumChunks h → Z.of_nat j < NumChunks h → i ≠ j →
  (length bs ≤ chunk_len h i)%nat →
  chunk_good (write_at (chunk_off h i) bs data) j ↔ chunk_good data j.
Proof using Hwf.
  intros Hd Hi Hj Hij Hb. unfold chunk_good.
  destruct (ChunkRange_nat h i Hwf Hi) as (_ & _ & ?).
  rewrite slice_write_at_ne; [done|lia|].
  destruct (chunk_disjoint h i j Hwf Hij Hi Hj); lia.
Qed.

(** One fetch, against an honest upstream. *)
Lemma fetch_into_spec (o : io) (i : nat) data data' r :
  honest o → length data = Z.to_nat (TotalSize h) → Z.of_nat i < NumChunks h →
  IsPresent h (Z.of_nat i) = true →
  fetch_into Sum256 h o (Z.of_nat i) data = (data', r) →
  length data' = Z.to_nat (TotalSize h) ∧
  (∀ j, j ≠ i → Z.of_nat j < NumChunks h → chunk_good data' j ↔ chunk_good data j) ∧
  match r with FSkip => False | FErr _ => True | FWrote => chunk_good data' i end.
Proof using Hwf.
  intros Hh Hd Hi Hpr. unfold fetch_into. destruct (ChunkRange_nat h i Hwf Hi) as (Hr & Hpos & Hle).
  rewrite Hr. rewrite (proj2 (Z.eqb_neq (Z.of_nat (chunk_len h i)) 0)) by lia. rewrite !Nat2Z.id.
  destruct (io_read o _ _) as [got|] eqn:Hgot; [|by intros [= <- <-]].
  destruct (Z.ltb_spec (Z.of_nat (length (take (chunk_len h i) got))) (Z.of_nat (chunk_len h i)));
    [by intros [= <- <-]|].
  assert (Hlen : length (take (chunk_len h i) got) = chunk_len h i).
  { rewrite length_take in *. lia. }
  destruct (verify Sum256 h (Z.of_nat i) _) eqn:Hv; simpl; [|by intros [= <- <-]].
  destruct (io_wfault o _) as [k|]; intros [= <- <-].
  - assert (length (take k (take (chunk_len h i) got)) ≤ chunk_len h i)%nat
      by (rewrite length_take; lia).
    split; [by apply write_chunk_length|]. split; [|done].
    intros j Hj Hjn. by apply write_chunk_other.
  - split; [apply write_chunk_length; lia|]. split.
    + intros j Hj Hjn. apply write_chunk_other; try done. lia.
    + unfold chunk_good. rewrite <- Hlen at 1. rewrite slice_write_at_eq by lia.
      by apply Hh.
Qed.

Lemma zero_chunk_good i :
  Z.of_nat i < NumChunks h → IsPresent h (Z.of_nat i) = false →
  chunk_good (replicate (Z.to_nat (TotalSize h)) x00) i.
Proof using Hwf Himg.
  intros Hi Hp. unfold chunk_good. rewrite (proj2 Himg) by done. destruct (ChunkRange_nat h i Hwf Hi) as (_ & _ & ?).
  apply list_eq. intros k. rewrite lookup_slice. case_decide.
  - rewrite !lookup_replicate_2; [done|lia|lia].
  - symmetry. apply lookup_ge_None_2. rewrite length_replicate. lia.
Qed.

Lemma chunk_good_byte data i p :
  chunk_good data i → Z.of_nat i < NumChunks h →
  (chunk_off h i ≤ p < chunk_off h i + chunk_len h i)%nat → data !! p = img !! p.
Proof using Hwf.
  unfold chunk_good. intros Hg Hi Hp. rewrite chunk_bytes_slice in Hg by done.
  apply (f_equal (.!! (p - chunk_off h i)%nat)) in Hg. rewrite !lookup_slice in Hg.
  rewrite !decide_True in Hg by lia.
  by replace (chunk_off h i + (p - chunk_off h i))%nat with p in Hg by lia.
Qed.

Lemma chunk_span_range off stop i :
  0 ≤ off < stop → stop ≤ TotalSize h → i ∈ chunk_span h off stop →
  0 ≤ i < NumChunks h.
Proof using Hwf.
  intros Ho Hs Hi. unfold chunk_span in Hi.
  apply list_elem_of_fmap in Hi as (k & -> & Hk). apply list_elem_of_In, in_seq in Hk.
  pose proof (wf_sane _ Hwf) as Hsane.
  destruct (chunk_for_offset_spec _ _ off Hsane) as [? _]; [lia|].
  destruct (chunk_for_offset_spec _ _ (stop - 1) Hsane) as [? _]; [lia|].
  unfold ChunkForOffset, NumChunks in *. lia.
Qed.

(** If every chunk a range overlaps is good, the range reads as the image. *)
Lemma span_good data (off len : nat) :
  Z.of_nat off + Z.of_nat len ≤ TotalSize h →
  (∀ i : nat, Z.of_nat i ∈ chunk_span h (Z.of_nat off) (Z.of_nat off + Z.of_nat len) →
     chunk_good data i) →
  slice off len data = slice off len img.
Proof using Hwf.
  intros Hle Hgood. apply list_eq. intros k. rewrite !lookup_slice. case_decide as Hk; [|done].
  destruct (chunk_of_offset h (off + k) Hwf) as (i & Hci & Hi & Hb); [lia|].
  apply (chunk_good_byte _ i); [|done|done]. apply Hgood. unfold chunk_span.
  apply list_elem_of_fmap. pose proof (wf_sane _ Hwf) as Hsane.
  destruct (chunk_for_offset_spec _ _ (Z.of_nat off) Hsane) as [? Hb1]; [lia|].
  destruct (chunk_for_offset_spec _ _ (Z.of_nat off + Z.of_nat len - 1) Hsane) as [? Hb2]; [lia|].
  destruct (chunk_for_offset_spec _ _ (Z.of_nat (off + k)) Hsane) as [? Hb3]; [lia|].
  unfold ChunkForOffset in *. rewrite Hci in *.
  set (a := chunk_for_offset (ChunkSize h) (Z.of_nat off)) in *.
  set (b := chunk_for_offset (ChunkSize h) (Z.of_nat off + Z.of_nat len - 1)) in *.
  destruct Hsane as [Hc _].
  exists (Z.to_nat (Z.of_nat i - a)).
  assert (a ≤ Z.of_nat i) by nia. assert (Z.of_nat i ≤ b) by nia.
  split; [lia|]. apply list_elem_of_In, in_seq. lia.
Qed.
End FileOk.

(** The loop keeps an invariant its body keeps, and reaches its end only
    through iterations that succeeded. *)
Lemma ensure_all_spec {S} (ensure : Z → S → S * option fetch_err) (I : S → Prop)
    (done : S → Z → Prop) l s s' r :
  (∀ i s s' r, i ∈ l → I s → ensure i s = (s', r) →
     I s' ∧ (∀ j, done s j → done s' j) ∧ (r = None → done s' i)) →
  I s → ensure_all ensure l s = (s', r) →
  I s' ∧ (∀ j, done s j → done s' j) ∧ (r = None → ∀ i, i ∈ l → done s' i).
Proof.
  revert s. induction l as [|i l IH]; intros s Hstep Hs; simpl.
  { intros [= <- <-]. split_and!; [done..|]. intros _ i Hi. by apply not_elem_of_nil in Hi. }
  destruct (ensure i s) as [s1 [e|]] eqn:He; destruct (Hstep i s s1 _ ltac:(left) Hs He) as (H1 & H2 & H3).
  { intros [= <- <-]. by split_and!. }
  intros Hl. destruct (IH s1) as (H4 & H5 & H6); [intros; eapply Hstep; eauto; by right|done|done|].
  split_and!; [done|by auto|]. intros -> j Hj. apply elem_of_cons in Hj as [->|Hj]; auto.
Qed.
