(* ===== verification/SharedBitmap.v ===== *)
(** The presence bitmap of a shared cache ([present.psc]):
    [encodeSharedBitmap] / [readSharedBitmap] of
    agent/internal/diskstream/sharedcache.go (PSCD) and
    agent/internal/memstream/sharedcache.go (PSC1).  The two differ in the
    magic only. *)

From S2P Require Import Prelude Bytes Chunks GeomCodec.
From S2P Require MemHeader.

(** "PSC1", "PSCD" *)
Definition MemSharedMagic : list byte := [x50; x53; x43; x31].
Definition DiskSharedMagic : list byte := [x50; x53; x43; x44].
Definition sharedBitmapVersion : Z := 1.

Inductive bitmap_err :=
  | ErrBmTooShort
  | ErrBmMagic
  | ErrBmVersion (v : Z)
  | ErrBmGeometry
  | ErrBmTruncated (need have : Z).

Section Codec.
Context {H : Type} `{StreamHeader H}.
Variable magic : list byte.
Implicit Types h : H.

Definition encodeSharedBitmap h (bits : list bool) : list byte :=
  let n := NumChunks h in
  geom_prefix magic sharedBitmapVersion (ChunkSize h) (TotalSize h) n ++
  bitmap_of (Z.to_nat n) (λ i, default false (bits !! i)).

Definition readSharedBitmap h (b : list byte) : res bitmap_err (list bool) :=
  check (fixed_len <=? length b)%nat else ErrBmTooShort in
  check bool_decide (take 4 b = magic) else ErrBmMagic in
  let ver := rd_version b in
  check ver =? sharedBitmapVersion else ErrBmVersion ver in
  let n := rd_count b in
  check (rd_chunk_size b =? ChunkSize h) && (rd_total b =? TotalSize h) && (n =? NumChunks h)
    else ErrBmGeometry in
  let bitmapLen := bitmap_len (Z.to_nat n) in
  check (bitmapLen <=? length b - fixed_len)%nat
    else ErrBmTruncated (Z.of_nat bitmapLen) (Z.of_nat (length b - fixed_len)) in
  Ok (bits_of (Z.to_nat n) (slice fixed_len bitmapLen b)).

(** The geometry a bitmap can record: [uint32(n)] and the u64 sizes are exact. *)
Definition small_geom h : Prop := wf_geom h ∧ NumChunks h < 2 ^ 32.

(** The bit a stored bitmap holds for chunk [i]. *)
Definition claims (b : list byte) (i : nat) : bool := get_bit (drop fixed_len b) i.

(** What a power loss can leave of a file renamed before its data reached
    the disk: a prefix, with any bytes lost as zeros. *)
Definition degraded (v w : list byte) : Prop :=
  ∀ i b, w !! i = Some b → b = x00 ∨ v !! i = Some b.

Context (Hmagic : length magic = 4%nat).

Lemma small_geom_fields h :
  small_geom h →
  0 ≤ ChunkSize h < 2 ^ 32 ∧ 0 ≤ TotalSize h < 2 ^ 64 ∧ 0 ≤ NumChunks h < 2 ^ 32 ∧
  length (present h) = Z.to_nat (NumChunks h).
Proof using.
  clear Hmagic. intros [Hwf Hn]. pose proof (length_present_num h Hwf) as Hp. destruct Hwf as (? & ? & Hl). lia.
Qed.

(** Round trip of the presence bitmap. *)
Theorem shared_bitmap_roundtrip h (bits : list bool) (rest : list byte) :
  small_geom h → length bits = Z.to_nat (NumChunks h) →
  readSharedBitmap h (encodeSharedBitmap h bits ++ rest) = Ok bits.
Proof using Hmagic.
  intros Hg Hb. destruct (small_geom_fields h Hg) as (Hc & Ht & Hn & _).
  unfold readSharedBitmap, encodeSharedBitmap. rewrite <- app_assoc.
  rewrite !length_app, length_geom_prefix, length_bitmap_of by done.
  rewrite (proj2 (Nat.leb_le _ _)) by lia.
  rewrite geom_magic, bool_decide_eq_true_2 by done.
  rewrite rd_version_spec, rd_chunk_size_spec, rd_total_spec, rd_count_spec by done.
  rewrite !Z.eqb_refl. simpl andb. rewrite (proj2 (Nat.leb_le _ _)) by lia.
  rewrite geom_tail_head, take_app_length' by (done || by rewrite length_bitmap_of).
  by rewrite bits_of_bitmap, lookup_fmap_seq.
Qed.

Lemma readSharedBitmap_bits h b bits :
  readSharedBitmap h b = Ok bits →
  length bits = Z.to_nat (NumChunks h) ∧
  ∀ i, Z.of_nat i < NumChunks h → bits !! i = Some (claims b i).
Proof using.
  clear Hmagic. unfold readSharedBitmap.
  destruct (Nat.leb_spec fixed_len (length b)); [|done]. case_bool_decide; [|done].
  destruct (rd_version b =? sharedBitmapVersion); [|done].
  destruct (rd_chunk_size b =? ChunkSize h), (rd_total b =? TotalSize h); try done.
  destruct (Z.eqb_spec (rd_count b) (NumChunks h)) as [Hn|]; [|done]. simpl.
  destruct (Nat.leb_spec (bitmap_len (Z.to_nat (rd_count b))) (length b - fixed_len)); [|done].
  intros [= <-]. rewrite Hn, length_bits_of. split; [done|].
  intros i Hi. rewrite lookup_bits_of by lia. f_equal. unfold claims, get_bit, slice.
  rewrite lookup_take_lt; [done|]. apply bitmap_len_bound. lia.
Qed.

Lemma claims_encode h bits i :
  Z.of_nat i < NumChunks h →
  claims (encodeSharedBitmap h bits) i = default false (bits !! i).
Proof using Hmagic.
  intros Hi. unfold claims, encodeSharedBitmap.
  rewrite geom_tail, get_bitmap_of by done. by rewrite bool_decide_eq_true_2 by lia.
Qed.

(** Losing bytes of a bitmap can only forget chunks. *)
Lemma claims_degraded v w i : degraded v w → claims w i = true → claims v i = true.
Proof using.
  clear Hmagic. unfold degraded, claims, get_bit. intros Hd. rewrite !lookup_drop.
  destruct (w !! _) as [b|] eqn:Hw; [|done].
  destruct (Hd _ _ Hw) as [->| ->]; [|done].
  rewrite Z.land_0_l. done.
Qed.
End Codec.

Lemma shared_bitmap_roundtrip_witness :
  let h := MemHeader.sample_header in
  readSharedBitmap DiskSharedMagic h (encodeSharedBitmap DiskSharedMagic h [true; false; false] ++ [x07])
  = Ok [true; false; false].
Proof.
  apply (shared_bitmap_roundtrip DiskSharedMagic eq_refl MemHeader.sample_header); [|reflexivity].
  split; [|reflexivity]. unfold wf_geom. vm_compute. repeat split; discriminate.
Defined.
