(* ===== verification/SharedCache.v ===== *)
(** The per-host chunk cache, agent/internal/diskstream/sharedcache.go and
    agent/internal/memstream/sharedcache.go: its in-memory and on-disk state,
    opening, reading, fetching and flushing.  The two copies differ in the
    magic of the bitmap and in that the disk copy verifies digests; both are
    instances of the definitions here (the memory header records no digest).
    What concurrency and crashes do to it is in SharedCacheCrash. *)

From S2P Require Import Prelude Bytes Chunks GeomCodec Fetch SharedBitmap.
From S2P Require MemHeader.

(** The [SharedCache] struct with the two files it owns: [chunks.dat] and
    [present.psc] ([None] when there is no such file). *)
Record cache := mkCache {
  c_data : list byte;
  c_bitmap : option (list byte);
  c_present : list bool;
  c_inflight : gset nat;
  c_dirty : Z;
  c_hits : Z;
  c_fills : Z;
  c_verifyErr : Z;
}.

(** What the critical section at the head of [ensureChunk] decides. *)
Inductive begun :=
  | BRange
  | BHit (c : cache)
  | BWait
  | BFetch (c : cache).

(** How the two steps of [Flush] outside the lock end. *)
Record flush_io := mkFlushIO { fi_sync : bool; fi_bitmap : bool }.

Inductive flush_err := ErrFsync | ErrBitmapWrite.

Section Cache.
Context {H : Type} `{StreamHeader H}.
Variable magic : list byte.
Variable Sum256 : list byte → list byte.
Implicit Types h : H.

(** [OpenSharedCache] on a directory whose data file holds [data] (empty when
    just created) and whose bitmap is [bm].  The removal of a bitmap that does not
    go with the data works: the code ignores its error, and a bitmap that stayed
    beside the emptied data would be trusted by the next open. *)
Definition OpenSharedCache h (data : list byte) (bm : option (list byte)) : cache :=
  let bits :=
    if Z.of_nat (length data) =? i64 (TotalSize h) then
      match bm with
      | Some b => match readSharedBitmap magic h b with Ok bits => Some bits | Err _ => None end
      | None => None
      end
    else None in
  match bits with
  | Some bits =>
      {| c_data := data; c_bitmap := bm; c_present := bits; c_inflight := ∅; c_dirty := 0;
         c_hits := 0; c_fills := 0; c_verifyErr := 0 |}
  | None =>
      {| c_data := replicate (Z.to_nat (i64 (TotalSize h))) x00; c_bitmap := None;
         c_present := replicate (Z.to_nat (NumChunks h)) false; c_inflight := ∅; c_dirty := 0;
         c_hits := 0; c_fills := 0; c_verifyErr := 0 |}
  end.

Definition ensure_begin (idx : Z) (c : cache) : begun :=
  if (idx <? 0) || (Z.of_nat (length (c_present c)) <=? idx) then BRange
  else if default false (c_present c !! Z.to_nat idx) then
    BHit {| c_data := c_data c; c_bitmap := c_bitmap c; c_present := c_present c;
            c_inflight := c_inflight c; c_dirty := c_dirty c; c_hits := c_hits c + 1;
            c_fills := c_fills c; c_verifyErr := c_verifyErr c |}
  else if bool_decide (Z.to_nat idx ∈ c_inflight c) then BWait
  else
    BFetch {| c_data := c_data c; c_bitmap := c_bitmap c; c_present := c_present c;
              c_inflight := {[Z.to_nat idx]} ∪ c_inflight c; c_dirty := c_dirty c;
              c_hits := c_hits c; c_fills := c_fills c; c_verifyErr := c_verifyErr c |}.

Definition fetchChunk h (o : io) (idx : Z) (c : cache) : cache * option fetch_err :=
  let '(data, r) := fetch_into Sum256 h o idx (c_data c) in
  let fills := match r with FWrote => 1 | _ => 0 end in
  let bad := match r with FErr (ErrIntegrity _) => 1 | _ => 0 end in
  ({| c_data := data; c_bitmap := c_bitmap c; c_present := c_present c;
      c_inflight := c_inflight c; c_dirty := c_dirty c; c_hits := c_hits c;
      c_fills := c_fills c + fills; c_verifyErr := c_verifyErr c + bad |},
   match r with FErr e => Some e | _ => None end).

(** The critical section at the tail of [ensureChunk]. *)
Definition ensure_end (idx : Z) (e : option fetch_err) (c : cache) : cache :=
  let ok := match e with None => true | Some _ => false end in
  {| c_data := c_data c; c_bitmap := c_bitmap c;
     c_present := if ok then <[Z.to_nat idx := true]> (c_present c) else c_present c;
     c_inflight := c_inflight c ∖ {[Z.to_nat idx]};
     c_dirty := if ok then c_dirty c + 1 else c_dirty c;
     c_hits := c_hits c; c_fills := c_fills c; c_verifyErr := c_verifyErr c |}.

(** [ensureChunk] with no other goroutine in it. *)
Definition ensureChunk h (o : io) (idx : Z) (c : cache) : cache * option fetch_err :=
  match ensure_begin idx c with
  | BRange => (c, Some (ErrChunkRange idx))
  | BHit c => (c, None)
  | BWait => (c, Some (ErrWouldBlock idx))
  | BFetch c => let '(c, e) := fetchChunk h o idx c in (ensure_end idx e c, e)
  end.

Definition EnsureChunk h (o : io) (idx : Z) (c : cache) : cache * option fetch_err :=
  if negb (IsPresent h idx) then (c, None) else ensureChunk h o idx c.

(** [ReadAt(p, off)] with [len(p) = plen]: the bytes it puts at the head of [p]. *)
Definition ReadAt h (o : io) (plen : nat) (off : Z) (c : cache)
    : cache * res fetch_err (list byte) :=
  if (plen =? 0)%nat then (c, Ok [])
  else if (off <? 0) || (i64 (TotalSize h) <=? off) then (c, Err (ErrOffset off))
  else
    let stop := i64 (off + Z.of_nat plen) in
    let stop := if i64 (TotalSize h) <? stop then i64 (TotalSize h) else stop in
    match ensure_all (EnsureChunk h o) (chunk_span h off stop) c with
    | (c, Some e) => (c, Err e)
    | (c, None) => (c, Ok (slice (Z.to_nat off) (Z.to_nat (stop - off)) (c_data c)))
    end.

(** [Flush]: the snapshot taken under the lock, the final accounting, and the
    whole with nothing in between. *)
Definition flush_begin (c : cache) : option (list bool * Z) :=
  if c_dirty c =? 0 then None else Some (c_present c, c_dirty c).

Definition write_bitmap h (snapshot : list bool) (c : cache) : cache :=
  {| c_data := c_data c; c_bitmap := Some (encodeSharedBitmap magic h snapshot);
     c_present := c_present c; c_inflight := c_inflight c; c_dirty := c_dirty c;
     c_hits := c_hits c; c_fills := c_fills c; c_verifyErr := c_verifyErr c |}.

Definition flush_end (acked : Z) (c : cache) : cache :=
  let d := c_dirty c - acked in
  {| c_data := c_data c; c_bitmap := c_bitmap c; c_present := c_present c;
     c_inflight := c_inflight c; c_dirty := if d <? 0 then 0 else d; c_hits := c_hits c;
     c_fills := c_fills c; c_verifyErr := c_verifyErr c |}.

Definition Flush h (fi : flush_io) (c : cache) : cache * option flush_err :=
  match flush_begin c with
  | None => (c, None)
  | Some (snapshot, acked) =>
      if negb (fi_sync fi) then (c, Some ErrFsync)
      else if negb (fi_bitmap fi) then (c, Some ErrBitmapWrite)
      else (flush_end acked (write_bitmap h snapshot c), None)
  end.
End Cache.

(** ** The state invariant *)

Section Inv.
Context {H : Type} `{StreamHeader H}.
Variable magic : list byte.
Variable Sum256 : list byte → list byte.
Variable h : H.
Variable img : list byte.
Context (Hwf : wf_geom h) (Himg : image_of h img).

Record cache_inv (c : cache) : Prop := {
  ci_data : length (c_data c) = Z.to_nat (TotalSize h);
  ci_present : length (c_present c) = Z.to_nat (NumChunks h);
  ci_good : ∀ i : nat, Z.of_nat i < NumChunks h →
    IsPresent h (Z.of_nat i) = false ∨ c_present c !! i = Some true →
    chunk_good h img (c_data c) i;
  ci_inflight : ∀ i, i ∈ c_inflight c →
    Z.of_nat i < NumChunks h ∧ c_present c !! i = Some false ∧ IsPresent h (Z.of_nat i) = true;
}.

(** Every chunk that is stored remotely and that the range overlaps is cached. *)
Definition span_cached (c : cache) (off stop : Z) : Prop :=
  ∀ i : nat, Z.of_nat i ∈ chunk_span h off stop → IsPresent h (Z.of_nat i) = true →
    c_present c !! i = Some true.

Lemma i64_total : i64 (TotalSize h) = TotalSize h.
Proof using Hwf. destruct Hwf as (_ & ? & _). apply i64_small. lia. Qed.

Lemma read_cached c (off len : nat) :
  cache_inv c → Z.of_nat off + Z.of_nat len ≤ TotalSize h → (0 < len)%nat →
  span_cached c (Z.of_nat off) (Z.of_nat off + Z.of_nat len) →
  slice off len (c_data c) = slice off len img.
Proof using Hwf.
  intros Hc Hle Hlen Hsp. apply (span_good h img); [done|done|].
  intros i Hi. pose proof (chunk_span_range h Hwf (Z.of_nat off) (Z.of_nat off + Z.of_nat len) (Z.of_nat i)
                ltac:(lia) Hle Hi).
  apply ci_good; [done|lia|]. destruct (IsPresent h (Z.of_nat i)) eqn:Hp; [right; auto|by left].
Qed.

Lemma fresh_inv :
  cache_inv {| c_data := replicate (Z.to_nat (i64 (TotalSize h))) x00; c_bitmap := None;
               c_present := replicate (Z.to_nat (NumChunks h)) false; c_inflight := ∅;
               c_dirty := 0; c_hits := 0; c_fills := 0; c_verifyErr := 0 |}.
Proof using Hwf Himg.
  rewrite i64_total. split; cbn [c_data c_present c_inflight].
  - apply length_replicate.
  - apply length_replicate.
  - intros i Hi [Hp|Hp]; [by apply zero_chunk_good|].
    apply lookup_replicate in Hp as [? _]. done.
  - intros i Hi. by apply not_elem_of_empty in Hi.
Qed.

(** The three parts of [ensureChunk]. *)
Lemma begin_spec (i : nat) c :
  cache_inv c → Z.of_nat i < NumChunks h → IsPresent h (Z.of_nat i) = true →
  match ensure_begin (Z.of_nat i) c with
  | BRange => False
  | BHit c' => cache_inv c' ∧ c_present c !! i = Some true ∧ c_present c' = c_present c ∧
               c_data c' = c_data c ∧ c_inflight c' = c_inflight c
  | BWait => i ∈ c_inflight c
  | BFetch c' => cache_inv c' ∧ c_present c !! i = Some false ∧ (i ∉ c_inflight c) ∧
                 c_present c' = c_present c ∧ c_data c' = c_data c ∧
                 c_inflight c' = {[i]} ∪ c_inflight c
  end.
Proof using Hwf.
  intros [Hd Hp Hg Hf] Hi Hpi. unfold ensure_begin. rewrite Nat2Z.id.
  rewrite (proj2 (Z.ltb_ge (Z.of_nat i) 0)) by lia.
  rewrite (proj2 (Z.leb_gt (Z.of_nat (length (c_present c))) (Z.of_nat i))) by lia. simpl orb.
  destruct (c_present c !! i) as [b|] eqn:Hpr; [|apply lookup_ge_None in Hpr; lia]. simpl.
  destruct b; [by split_and!|]. case_bool_decide as Hin; [done|].
  split_and!; try done. split; try done. simpl. intros j Hj.
  apply elem_of_union in Hj as [Hj|Hj]; [|auto]. apply elem_of_singleton in Hj as ->. auto.
Qed.

Lemma fetchChunk_inv (o : io) (i : nat) c c' e :
  honest Sum256 h img o → cache_inv c → i ∈ c_inflight c →
  fetchChunk Sum256 h o (Z.of_nat i) c = (c', e) →
  cache_inv c' ∧ c_present c' = c_present c ∧ c_inflight c' = c_inflight c ∧
  c_bitmap c' = c_bitmap c ∧
  (∀ j, j ≠ i → Z.of_nat j < NumChunks h → (chunk_good h img (c_data c') j ↔ chunk_good h img (c_data c) j)) ∧
  (e = None → chunk_good h img (c_data c') i).
Proof using Hwf.
  intros Ho Hinv Hin. destruct (ci_inflight _ Hinv i Hin) as (Hi & Hpf & Hpr).
  unfold fetchChunk. destruct (fetch_into _ _ _ _ _) as [data r] eqn:Hf. intros [= <- <-].
  destruct (fetch_into_spec Sum256 h img Hwf o i _ _ _ Ho (ci_data _ Hinv) Hi Hpr Hf) as (H1 & H2 & H3).
  split_and!; try done; cbn [c_data].
  - destruct Hinv as [Hd Hp Hg Hfl]. split; try done. cbn [c_data c_present]. intros j Hj Hor.
    apply H2; [|done|auto]. intros ->. destruct Hor; congruence.
  - by destruct r.
Qed.

Lemma ensure_end_inv (i : nat) e c :
  cache_inv c → i ∈ c_inflight c → (e = None → chunk_good h img (c_data c) i) →
  cache_inv (ensure_end (Z.of_nat i) e c).
Proof using Hwf.
  intros [Hd Hp Hg Hfl] Hin He. destruct (Hfl i Hin) as (Hi & Hpf & Hpr).
  pose proof (elem_of_removed (c_inflight c) i) as Hdel.
  unfold ensure_end. rewrite Nat2Z.id.
  destruct e as [e|]; split; cbn [c_data c_present c_inflight]; try done.
  - intros j Hj. by apply Hfl, Hdel.
  - by rewrite length_insert.
  - intros j Hj Hor. destruct (decide (i = j)) as [<-|]; [auto|].
    rewrite list_lookup_insert_ne in Hor by done. auto.
  - intros j Hj. apply Hdel in Hj as [? Hj]. rewrite list_lookup_insert_ne by done. auto.
Qed.

(** A chunk that is cached stays cached. *)
Definition cached_mono (c c' : cache) : Prop :=
  ∀ i : nat, c_present c !! i = Some true → c_present c' !! i = Some true.

Lemma EnsureChunk_spec (o : io) (i : Z) c c' e :
  honest Sum256 h img o → cache_inv c → c_inflight c = ∅ → 0 ≤ i < NumChunks h →
  EnsureChunk Sum256 h o i c = (c', e) →
  cache_inv c' ∧ c_inflight c' = ∅ ∧ cached_mono c c' ∧
  (e = None → IsPresent h i = true → c_present c' !! Z.to_nat i = Some true).
Proof using Hwf.
  intros Ho Hinv Hnil Hi. rewrite <- (Z2Nat.id i) in * by lia. set (k := Z.to_nat i) in *.
  rewrite Nat2Z.id. unfold EnsureChunk.
  destruct (IsPresent h (Z.of_nat k)) eqn:Hp; simpl; [|intros [= <- <-]; split_and!; try done; by intros j].
  unfold ensureChunk. pose proof (begin_spec k c Hinv ltac:(lia) Hp) as Hb.
  destruct (ensure_begin _ c) as [|c1| |c1]; [done| |by rewrite Hnil in Hb; apply not_elem_of_empty in Hb|].
  { destruct Hb as (H1 & H2 & H3 & H4 & H5). intros [= <- <-]. unfold cached_mono.
    rewrite H3, H5. split_and!; try done; by intros j. }
  destruct Hb as (H1 & H2 & H3 & H4 & H5 & H6).
  destruct (fetchChunk _ _ _ _ c1) as [c2 e2] eqn:Hf. intros [= <- <-].
  destruct (fetchChunk_inv o k _ _ _ Ho H1 ltac:(by rewrite H6) Hf) as (H7 & H8 & H9 & _ & _ & H10).
  split_and!.
  - apply ensure_end_inv; [done| |done]. by rewrite H9, H6.
  - unfold ensure_end; cbn [c_inflight]. rewrite Nat2Z.id, H9, H6, Hnil. apply added_removed.
  - intros j Hj. unfold ensure_end; cbn [c_present]. rewrite Nat2Z.id, H8, H4.
    destruct e2; [done|]. rewrite list_lookup_insert_ne; [done|]. intros ->. congruence.
  - intros -> _. unfold ensure_end; cbn [c_present]. rewrite Nat2Z.id, H8, H4.
    apply list_lookup_insert_eq. by apply lookup_lt_Some in H2.
Qed.

Lemma span_spec (o : io) off stop c c' e :
  honest Sum256 h img o → cache_inv c → c_inflight c = ∅ →
  0 ≤ off < stop → stop ≤ TotalSize h →
  ensure_all (EnsureChunk Sum256 h o) (chunk_span h off stop) c = (c', e) →
  cache_inv c' ∧ c_inflight c' = ∅ ∧ cached_mono c c' ∧ (e = None → span_cached c' off stop).
Proof using Hwf.
  intros Ho Hinv Hnil Hoff Hstop He.
  set (I := λ s, cache_inv s ∧ c_inflight s = ∅ ∧ cached_mono c s).
  set (D := λ (s : cache) i, IsPresent h i = true → c_present s !! Z.to_nat i = Some true).
  assert (HI : I c) by (split_and!; try done; by intros j).
  destruct (ensure_all_spec (EnsureChunk Sum256 h o) I D (chunk_span h off stop) c c' e)
    as ((H1 & H2 & H2') & _ & H3); [|done|done|].
  - intros i s s' r Hi (Hs1 & Hs2 & Hs3) Hr.
    destruct (EnsureChunk_spec o i s s' r Ho Hs1 Hs2
                (chunk_span_range h Hwf _ _ _ Hoff Hstop Hi) Hr) as (H4 & H5 & H6 & H7).
    split_and!; [|by intros j Hj Hp; apply H6, Hj|done]. split_and!; [done..|].
    intros j Hj. by apply H6, Hs3.
  - split_and!; [done..|]. intros Hn i Hi Hp. rewrite <- (Nat2Z.id i). by apply H3.
Qed.
End Inv.

(** ** What a read returns *)

Section Reads.
Context {H : Type} `{StreamHeader H}.
Variable Sum256 : list byte → list byte.
Variable h : H.
Variable img : list byte.
Context (Hwf : wf_geom h) (Himg : image_of h img).

(** The upstream holds the image the header was built from, and the local
    file can be written. *)
Definition serves (o : io) : Prop :=
  ∀ i : nat, Z.of_nat i < NumChunks h → IsPresent h (Z.of_nat i) = true →
    io_read o (Z.of_nat (chunk_off h i)) (Z.of_nat (chunk_len h i)) = Ok (chunk_bytes h img i) ∧
    io_wfault o (Z.of_nat (chunk_off h i)) = None ∧
    verify Sum256 h (Z.of_nat i) (chunk_bytes h img i) = true.

Lemma serves_honest (o : io) : serves o → honest Sum256 h img o.
Proof using Hwf Himg.
  intros Hs i got Hi Hp Hr _ _. destruct (Hs i Hi Hp) as (S1 & _). rewrite S1 in Hr. injection Hr as <-.
  rewrite take_ge; [done|]. rewrite length_chunk_bytes; [done..|]. apply Himg.
Qed.

(** The number of bytes a read returns: clamped to the image. *)
Definition clamped (off plen : nat) : nat := Nat.min plen (Z.to_nat (TotalSize h) - off).

Lemma read_unfold (o : io) (plen off : nat) c :
  (0 < plen)%nat → Z.of_nat off < TotalSize h → Z.of_nat plen < 2 ^ 62 →
  ReadAt Sum256 h o plen (Z.of_nat off) c =
    match ensure_all (EnsureChunk Sum256 h o)
            (chunk_span h (Z.of_nat off) (Z.of_nat off + Z.of_nat (clamped off plen))) c with
    | (c, Some e) => (c, Err e)
    | (c, None) => (c, Ok (slice off (clamped off plen) (c_data c)))
    end ∧ (0 < clamped off plen)%nat ∧ Z.of_nat off + Z.of_nat (clamped off plen) ≤ TotalSize h.
Proof using Hwf.
  intros Hp Ho Hpl. assert (Ht : 0 ≤ TotalSize h < 2 ^ 62) by (destruct Hwf as (_ & ? & _); done).
  split; [|unfold clamped; lia].
  unfold ReadAt. rewrite (proj2 (Nat.eqb_neq plen 0)) by lia.
  rewrite i64_total, (i64_small (Z.of_nat off + Z.of_nat plen)) by (done || lia).
  rewrite (proj2 (Z.ltb_ge (Z.of_nat off) 0)), (proj2 (Z.leb_gt (TotalSize h) (Z.of_nat off))) by lia.
  cbv zeta. simpl orb. cbv iota.
  assert (Hstop : (if TotalSize h <? Z.of_nat off + Z.of_nat plen then TotalSize h
                   else Z.of_nat off + Z.of_nat plen) = Z.of_nat off + Z.of_nat (clamped off plen)).
  { unfold clamped. destruct (Z.ltb_spec (TotalSize h) (Z.of_nat off + Z.of_nat plen)); lia. }
  rewrite Hstop, Nat2Z.id.
  by replace (Z.to_nat (Z.of_nat off + Z.of_nat (clamped off plen) - Z.of_nat off))
    with (clamped off plen) by lia.
Qed.

(** Soundness of the shared cache.  Against any upstream whose verified
    answers are the image's chunks, and whatever reads and writes fail, a
    read inside the image either fails, keeping the cache consistent, or
    returns exactly the image's bytes, clamped to the image's end. *)
Theorem shared_read_sound (o : io) (plen off : nat) c c' r :
  honest Sum256 h img o → cache_inv h img c → c_inflight c = ∅ →
  (0 < plen)%nat → Z.of_nat plen < 2 ^ 62 → Z.of_nat off < TotalSize h →
  ReadAt Sum256 h o plen (Z.of_nat off) c = (c', r) →
  cache_inv h img c' ∧ c_inflight c' = ∅ ∧ cached_mono c c' ∧
  match r with
  | Ok bs => bs = slice off (clamped off plen) img
  | Err _ => True
  end.
Proof using Hwf.
  intros Ho Hinv Hnil Hp Hpl Hoff Hr.
  destruct (read_unfold o plen off c Hp Hoff Hpl) as (Heq & Hpos & Hle). rewrite Heq in Hr.
  destruct (ensure_all _ _ c) as [c1 e] eqn:He.
  destruct (span_spec Sum256 h img Hwf o (Z.of_nat off) (Z.of_nat off + Z.of_nat (clamped off plen))
              c c1 e Ho Hinv Hnil ltac:(lia) Hle He) as (H1 & H2 & H3 & H4).
  destruct e as [e|]; injection Hr as <- <-; split_and!; try done.
  apply (read_cached h img); auto.
Qed.

Lemma ensure_warm (o : io) l c :
  cache_inv h img c → (∀ i, i ∈ l → 0 ≤ i < NumChunks h) →
  (∀ i, i ∈ l → IsPresent h i = true → c_present c !! Z.to_nat i = Some true) →
  ∃ c', ensure_all (EnsureChunk Sum256 h o) l c = (c', None) ∧
    c_data c' = c_data c ∧ c_fills c' = c_fills c.
Proof using Hwf.
  revert c. induction l as [|i l IH]; intros c Hinv Hr Hc; simpl; [by eauto|].
  pose proof (Hr i ltac:(by left)) as Hi. pose proof (Hc i ltac:(by left)) as Hci.
  unfold EnsureChunk at 1. destruct (IsPresent h i) eqn:Hp; simpl.
  2:{ apply IH; [done| |]; intros j Hj; [apply Hr | apply Hc]; by right. }
  unfold ensureChunk, ensure_begin. pose proof (ci_present _ _ _ Hinv) as Hlen.
  rewrite (proj2 (Z.ltb_ge i 0)), (proj2 (Z.leb_gt (Z.of_nat (length (c_present c))) i)) by lia. simpl orb.
  rewrite (Hci eq_refl). simpl.
  match goal with |- context [ensure_all _ l ?c1] => destruct (IH c1) as (c' & H1 & H2 & H3) end.
  - destruct Hinv. by split.
  - intros j Hj. apply Hr. by right.
  - intros j Hj. apply Hc. by right.
  - exists c'. by split_and!.
Qed.

Lemma ensure_serves (o : io) l c :
  serves o → cache_inv h img c → c_inflight c = ∅ →
  (∀ i, i ∈ l → 0 ≤ i < NumChunks h) →
  (ensure_all (EnsureChunk Sum256 h o) l c).2 = None.
Proof using Hwf Himg.
  intros Hs. pose proof (serves_honest o Hs) as Ho. revert c. induction l as [|i l IH]; intros c Hinv Hnil Hr; simpl; [done|].
  pose proof (Hr i ltac:(by left)) as Hi.
  assert (Hl : ∀ j, j ∈ l → 0 ≤ j < NumChunks h) by (intros j Hj; apply Hr; by right).
  destruct (EnsureChunk Sum256 h o i c) as [c1 e] eqn:He.
  destruct (EnsureChunk_spec Sum256 h img Hwf o i c c1 e Ho Hinv Hnil Hi He) as (H1 & H2 & _ & _).
  enough (e = None) as -> by (by apply IH).
  rewrite <- (Z2Nat.id i) in He, Hi by lia. set (k := Z.to_nat i) in *.
  unfold EnsureChunk in He. destruct (IsPresent h (Z.of_nat k)) eqn:Hp; simpl in He; [|by injection He].
  unfold ensureChunk in He. pose proof (begin_spec h img Hwf k c Hinv ltac:(lia) Hp) as Hb.
  destruct (ensure_begin _ c) as [|c2| |c2]; [done|by injection He| |].
  { rewrite Hnil in Hb. by apply not_elem_of_empty in Hb. }
  unfold fetchChunk, fetch_into in He. destruct (ChunkRange_nat h k Hwf ltac:(lia)) as (Hrg & Hpos & _).
  rewrite Hrg in He. rewrite (proj2 (Z.eqb_neq (Z.of_nat (chunk_len h k)) 0)) in He by lia.
  destruct (Hs k ltac:(lia) Hp) as (S1 & S2 & S3). rewrite S1, S2, !Nat2Z.id in He.
  assert (Hlen : length (chunk_bytes h img k) = chunk_len h k) by (apply length_chunk_bytes; [done|lia|apply Himg]).
  rewrite take_ge in He by lia. rewrite Hlen, Z.ltb_irrefl, S3 in He. simpl in He. by injection He.
Qed.

(** A chunk is paid for once per host.  When the upstream holds the
    image, a read succeeds with the image's bytes; and once it has, the same
    read succeeds with the same bytes under every later environment (an
    upstream that is down included), with no further fill. *)
Theorem shared_read_once (o : io) (plen off : nat) c :
  serves o → cache_inv h img c → c_inflight c = ∅ →
  (0 < plen)%nat → Z.of_nat plen < 2 ^ 62 → Z.of_nat off < TotalSize h →
  ∃ c', ReadAt Sum256 h o plen (Z.of_nat off) c = (c', Ok (slice off (clamped off plen) img)) ∧
  ∀ o', ∃ c'', ReadAt Sum256 h o' plen (Z.of_nat off) c' =
                 (c'', Ok (slice off (clamped off plen) img)) ∧ c_fills c'' = c_fills c'.
Proof using Hwf Himg.
  intros Hs Hinv Hnil Hp Hpl Hoff. pose proof (serves_honest o Hs) as Ho.
  destruct (read_unfold o plen off c Hp Hoff Hpl) as (Heq & Hpos & Hle). rewrite Heq.
  set (stop := Z.of_nat off + Z.of_nat (clamped off plen)) in *.
  assert (Hrange : ∀ i, i ∈ chunk_span h (Z.of_nat off) stop → 0 ≤ i < NumChunks h).
  { intros i. apply chunk_span_range; [done|lia|done]. }
  pose proof (ensure_serves o _ c Hs Hinv Hnil Hrange) as Hnone.
  destruct (ensure_all _ _ c) as [c1 e] eqn:He. simpl in Hnone. subst e.
  destruct (span_spec Sum256 h img Hwf o (Z.of_nat off) stop c c1 None Ho Hinv Hnil ltac:(lia) Hle He) as (H1 & H2 & H3 & H4).
  pose proof (read_cached h img Hwf c1 off (clamped off plen) H1 Hle Hpos (H4 eq_refl)) as Hread.
  rewrite Hread. exists c1. split; [done|]. intros o'.
  destruct (read_unfold o' plen off c1 Hp Hoff Hpl) as (-> & _ & _). fold stop.
  destruct (ensure_warm o' (chunk_span h (Z.of_nat off) stop) c1 H1 Hrange) as (c2 & -> & H5 & H6).
  { intros i Hi Hpi. specialize (Hrange i Hi). apply (H4 eq_refl); by rewrite Z2Nat.id by lia. }
  exists c2. by rewrite H5, Hread.
Qed.
End Reads.

(** ** A concrete host: the sample memory image and an upstream that holds it *)

Abbreviation sample_h := MemHeader.sample_header (only parsing).
Abbreviation sample_img := MemHeader.sample_file (only parsing).

Definition sample_sum (b : list byte) : list byte := take 1 b.
Definition sample_up : io :=
  {| io_read := λ off len, Ok (slice (Z.to_nat off) (Z.to_nat len) sample_img);
     io_wfault := λ _, None |}.
Definition down : io := {| io_read := λ _ _, Err (); io_wfault := λ _, None |}.
Definition sample_cache : cache := OpenSharedCache MemSharedMagic sample_h [] None.

Lemma sample_wf : wf_geom sample_h.
Proof. unfold wf_geom. vm_compute. repeat split; discriminate. Qed.

Lemma sample_chunks (P : nat → Prop) :
  P 0%nat → P 1%nat → P 2%nat → ∀ i : nat, Z.of_nat i < NumChunks sample_h → P i.
Proof.
  intros H0 H1 H2 i Hi. change (NumChunks sample_h) with 3 in Hi.
  destruct i as [|[|[|i]]]; try done. lia.
Qed.

Lemma sample_image : image_of sample_h sample_img.
Proof. split; [done|]. refine (sample_chunks (λ i, _ → _) _ _ _); vm_compute; done. Qed.

Lemma sample_serves : serves sample_sum sample_h sample_img sample_up.
Proof. refine (sample_chunks (λ i, _ → _ ∧ _) _ _ _); vm_compute; done. Qed.

Lemma sample_honest : honest sample_sum sample_h sample_img sample_up.
Proof. apply serves_honest; [exact sample_wf | exact sample_image | exact sample_serves]. Qed.

Lemma sample_inv : cache_inv sample_h sample_img sample_cache.
Proof. apply (fresh_inv sample_h sample_img sample_wf sample_image). Qed.

Lemma shared_read_sound_witness :
  (ReadAt sample_sum sample_h sample_up 6 7 sample_cache).2 = Ok [x00; x00; x07] ∧
  cache_inv sample_h sample_img (ReadAt sample_sum sample_h sample_up 6 7 sample_cache).1.
Proof.
  split; [vm_compute; reflexivity|].
  apply (shared_read_sound sample_sum sample_h sample_img sample_wf sample_up 6 7 sample_cache _
           (ReadAt sample_sum sample_h sample_up 6 7 sample_cache).2);
    first [exact sample_honest | exact sample_inv | reflexivity | vm_compute; lia | apply surjective_pairing].
Defined.

Lemma shared_read_once_witness :
  ∃ c', ReadAt sample_sum sample_h sample_up 6 1 sample_cache
        = (c', Ok (slice 1 (clamped sample_h 1 6) sample_img)) ∧
        ∃ c'', ReadAt sample_sum sample_h down 6 1 c'
               = (c'', Ok (slice 1 (clamped sample_h 1 6) sample_img)).
Proof.
  destruct (shared_read_once sample_sum sample_h sample_img sample_wf sample_image sample_up 6 1 sample_cache)
    as (c' & H1 & H2);
    [exact sample_serves | exact sample_inv | reflexivity | lia | reflexivity
    | reflexivity |].
  exists c'. split; [exact H1|]. destruct (H2 down) as (c'' & H3 & _). exists c''. exact H3.
Defined.
