(* ===== verification/SharedCacheCrash.v ===== *)
(** The shared cache under concurrency and crashes.  The critical sections and
    the I/O steps of SharedCache are the transitions of a step relation: any
    number of readers fetch chunks at once (one goroutine per chunk, which is
    what the inflight map enforces), the flusher runs its four steps among
    them, and at any moment the machine may lose power and the cache be opened
    again on whatever the disk holds.

    What a power loss may do is as adversarial as the ordering the code relies
    on allows.  Metadata operations (truncate, unlink, rename) are ordered.  A
    chunk whose range may have been written since the last completed fsync
    began is left with arbitrary content.  The bitmap that comes back is any
    version renamed into place since the cache was opened (the code does not
    fsync the directory), and since it does not fsync the bitmap either, any of
    its bytes may be lost as zeros and its tail cut off. *)

From stdpp Require Import relations.
From S2P Require Import Prelude Bytes Chunks GeomCodec Fetch SharedBitmap SharedCache.
From S2P Require MemHeader.

(** Where the goroutine that owns an in-flight chunk stands. *)
Inductive fetch_pc :=
  | Fetching
  | Fetched (e : option fetch_err).

(** Where the flusher stands; [since]: chunks that may be written after its
    fsync began. *)
Inductive flush_pc :=
  | FIdle
  | FSnapped (snapshot : list bool) (acked : Z)
  | FSyncing (snapshot : list bool) (acked : Z) (since : gset nat)
  | FSynced (snapshot : list bool) (acked : Z)
  | FRenamed (acked : Z).

Record sys := mkSys {
  s_cache : cache;
  s_pc : gmap nat fetch_pc;
  s_flush : flush_pc;
  s_unsynced : gset nat;
  s_hist : list (list byte);
}.

Section Steps.
Context {H : Type} `{StreamHeader H}.
Variable magic : list byte.
Variable Sum256 : list byte → list byte.
Variable h : H.
(** The environments an upstream may present. *)
Variable env : io → Prop.

Definition touch (i : nat) (fl : flush_pc) : flush_pc :=
  match fl with
  | FSyncing sn a since => FSyncing sn a ({[i]} ∪ since)
  | fl => fl
  end.

(** The state a process starts in, on the files a crash left. *)
Definition boot (data : list byte) (bm : option (list byte)) (unsynced : gset nat) : sys :=
  let c := OpenSharedCache magic h data bm in
  {| s_cache := c; s_pc := ∅; s_flush := FIdle; s_unsynced := unsynced;
     s_hist := match c_bitmap c with Some b => [b] | None => [] end |}.

(** What the disk may hold after a power loss in [s]. *)
Definition survives (s : sys) (data : list byte) (bm : option (list byte)) : Prop :=
  (Z.of_nat (length data) = TotalSize h →
   ∀ i : nat, Z.of_nat i < NumChunks h → i ∉ s_unsynced s →
     slice (chunk_off h i) (chunk_len h i) data =
     slice (chunk_off h i) (chunk_len h i) (c_data (s_cache s))) ∧
  match bm with
  | None => True
  | Some w => ∃ v, v ∈ s_hist s ∧ degraded v w
  end.

Inductive step (s : sys) : sys → Prop :=
  | SHit i c' :
      IsPresent h (Z.of_nat i) = true →
      ensure_begin (Z.of_nat i) (s_cache s) = BHit c' →
      step s {| s_cache := c'; s_pc := s_pc s; s_flush := s_flush s;
                s_unsynced := s_unsynced s; s_hist := s_hist s |}
  | SBegin i c' :
      IsPresent h (Z.of_nat i) = true →
      ensure_begin (Z.of_nat i) (s_cache s) = BFetch c' →
      step s {| s_cache := c'; s_pc := <[i := Fetching]> (s_pc s);
                s_flush := touch i (s_flush s);
                s_unsynced := {[i]} ∪ s_unsynced s; s_hist := s_hist s |}
  | SFetch i o c' e :
      s_pc s !! i = Some Fetching → env o →
      fetchChunk Sum256 h o (Z.of_nat i) (s_cache s) = (c', e) →
      step s {| s_cache := c'; s_pc := <[i := Fetched e]> (s_pc s); s_flush := s_flush s;
                s_unsynced := s_unsynced s; s_hist := s_hist s |}
  | SEnd i e :
      s_pc s !! i = Some (Fetched e) →
      step s {| s_cache := ensure_end (Z.of_nat i) e (s_cache s); s_pc := delete i (s_pc s);
                s_flush := s_flush s; s_unsynced := s_unsynced s; s_hist := s_hist s |}
  | SSnap sn a :
      s_flush s = FIdle → flush_begin (s_cache s) = Some (sn, a) →
      step s {| s_cache := s_cache s; s_pc := s_pc s; s_flush := FSnapped sn a;
                s_unsynced := s_unsynced s; s_hist := s_hist s |}
  | SSyncBegin sn a :
      s_flush s = FSnapped sn a →
      step s {| s_cache := s_cache s; s_pc := s_pc s;
                s_flush := FSyncing sn a (c_inflight (s_cache s));
                s_unsynced := s_unsynced s; s_hist := s_hist s |}
  | SSyncEnd sn a since :
      s_flush s = FSyncing sn a since →
      step s {| s_cache := s_cache s; s_pc := s_pc s; s_flush := FSynced sn a;
                s_unsynced := since; s_hist := s_hist s |}
  | SBitmap sn a :
      s_flush s = FSynced sn a →
      let c' := write_bitmap magic h sn (s_cache s) in
      step s {| s_cache := c'; s_pc := s_pc s; s_flush := FRenamed a;
                s_unsynced := s_unsynced s;
                s_hist := encodeSharedBitmap magic h sn :: s_hist s |}
  | SAck a :
      s_flush s = FRenamed a →
      step s {| s_cache := flush_end a (s_cache s); s_pc := s_pc s; s_flush := FIdle;
                s_unsynced := s_unsynced s; s_hist := s_hist s |}
  | SFlushErr :
      (∀ a, s_flush s ≠ FRenamed a) →
      step s {| s_cache := s_cache s; s_pc := s_pc s; s_flush := FIdle;
                s_unsynced := s_unsynced s; s_hist := s_hist s |}
  | SCrash data bm :
      survives s data bm → step s (boot data bm (s_unsynced s)).
End Steps.

(** ** The invariant of the running system *)

Section Safety.
Context {H : Type} `{StreamHeader H}.
Variable magic : list byte.
Variable Sum256 : list byte → list byte.
Variable h : H.
Variable img : list byte.
Variable env : io → Prop.
Context (Hmagic : length magic = 4%nat) (Hwf : wf_geom h) (Himg : image_of h img)
        (Henv : ∀ o, env o → honest Sum256 h img o).

Definition durable (s : sys) (i : nat) : Prop :=
  c_present (s_cache s) !! i = Some true ∧ i ∉ s_unsynced s.

Definition snap_ok (s : sys) (sn : list bool) : Prop :=
  ∀ i : nat, sn !! i = Some true → c_present (s_cache s) !! i = Some true.

Record sys_inv (s : sys) : Prop := {
  si_cache : cache_inv h img (s_cache s);
  si_pc : ∀ i, i ∈ c_inflight (s_cache s) ↔ is_Some (s_pc s !! i);
  si_done : ∀ i, s_pc s !! i = Some (Fetched None) → chunk_good h img (c_data (s_cache s)) i;
  si_unsynced : ∀ i, i ∈ s_unsynced s → IsPresent h (Z.of_nat i) = true;
  si_inflight : ∀ i, i ∈ c_inflight (s_cache s) → i ∈ s_unsynced s;
  si_hist : ∀ b i, b ∈ s_hist s → Z.of_nat i < NumChunks h → claims b i = true → durable s i;
  si_bitmap : ∀ b, c_bitmap (s_cache s) = Some b → b ∈ s_hist s;
  si_flush :
    match s_flush s with
    | FIdle | FRenamed _ => True
    | FSnapped sn _ => snap_ok s sn
    | FSyncing sn _ since =>
        snap_ok s sn ∧ since ⊆ s_unsynced s ∧ c_inflight (s_cache s) ⊆ since ∧
        ∀ i, sn !! i = Some true → i ∉ since
    | FSynced sn _ => ∀ i, sn !! i = Some true → durable s i
    end;
}.

Lemma inflight_absent s i :
  sys_inv s → i ∈ c_inflight (s_cache s) → c_present (s_cache s) !! i = Some true → False.
Proof using All. intros Hs Hi Hp. destruct (ci_inflight _ _ _ (si_cache _ Hs) i Hi) as (_ & ? & _). congruence. Qed.

Lemma open_inv data bm :
  (∀ w, bm = Some w → Z.of_nat (length data) = TotalSize h →
     (∀ i : nat, Z.of_nat i < NumChunks h →
       IsPresent h (Z.of_nat i) = false ∨ claims w i = true → chunk_good h img data i)) →
  let c := OpenSharedCache magic h data bm in
  cache_inv h img c ∧ c_inflight c = ∅ ∧
  ∀ b, c_bitmap c = Some b → bm = Some b ∧
    ∀ i : nat, Z.of_nat i < NumChunks h → claims b i = true → c_present c !! i = Some true.
Proof using All.
  intros Hw. pose proof (fresh_inv h img Hwf Himg) as Hfresh.
  unfold OpenSharedCache. rewrite i64_total in * by done.
  destruct (Z.eqb_spec (Z.of_nat (length data)) (TotalSize h)) as [Hlen|]; [|by split_and!].
  destruct bm as [w|]; [|by split_and!].
  destruct (readSharedBitmap magic h w) as [bits|] eqn:Hr; [|by split_and!].
  apply readSharedBitmap_bits in Hr as [Hbl Hbits]. split_and!; [|done|].
  - split; cbn [c_data c_present c_inflight]; [lia|done| |].
    + intros i Hi Hor. apply (Hw w); try done. rewrite Hbits in Hor by done.
      destruct Hor as [|[= ->]]; auto.
    + intros i Hi. by apply not_elem_of_empty in Hi.
  - cbn [c_bitmap c_present]. intros b [= ->]. split; [done|]. intros i Hi Hc. by rewrite Hbits, Hc.
Qed.

Lemma boot_inv data bm u :
  (∀ w, bm = Some w → Z.of_nat (length data) = TotalSize h →
     (∀ i : nat, Z.of_nat i < NumChunks h →
       IsPresent h (Z.of_nat i) = false ∨ claims w i = true → chunk_good h img data i)) →
  (∀ i, i ∈ u → IsPresent h (Z.of_nat i) = true) →
  (∀ w i, bm = Some w → Z.of_nat i < NumChunks h → claims w i = true → i ∉ u) →
  sys_inv (boot magic h data bm u).
Proof using All.
  intros Hw Hu Hcl. destruct (open_inv data bm Hw) as (H1 & H2 & H3).
  unfold boot. set (c := OpenSharedCache magic h data bm) in *. cbv zeta.
  split; cbn [s_cache s_pc s_flush s_unsynced s_hist]; try done.
  - intros i. rewrite H2, lookup_empty. split; [intros Hi; by apply not_elem_of_empty in Hi|by intros []].
  - intros i Hi. rewrite H2 in Hi. by apply not_elem_of_empty in Hi.
  - destruct (c_bitmap c) as [b'|] eqn:Hb; [|by intros b i Hi; apply not_elem_of_nil in Hi].
    intros b i Hi. apply list_elem_of_singleton in Hi as ->. intros Hin Hc.
    destruct (H3 _ eq_refl) as [Hbm Hp]. split; [by apply Hp|by apply (Hcl b')].
  - intros b Hb. rewrite Hb. by left.
Qed.

Lemma init_inv : sys_inv (boot magic h [] None ∅).
Proof using All.
  apply boot_inv; [done| |done]. intros i Hi. by apply not_elem_of_empty in Hi.
Qed.

Lemma crash_inv s data bm :
  sys_inv s → survives h s data bm → sys_inv (boot magic h data bm (s_unsynced s)).
Proof using All.
  intros Hs [Hdata Hbm].
  assert (Hcl : ∀ w i, bm = Some w → Z.of_nat i < NumChunks h → claims w i = true → durable s i).
  { intros w i -> Hi Hc. destruct Hbm as (v & Hv & Hd).
    eapply si_hist; [done|exact Hv|done|]. by eapply claims_degraded. }
  apply boot_inv; [|apply Hs|].
  - intros w -> Hlen i Hi Hor. unfold chunk_good. rewrite Hdata; [|done|done|].
    + apply (ci_good _ _ _ (si_cache _ Hs)); [done|].
      destruct Hor as [|Hc]; [by left|right]. by apply (Hcl w).
    + destruct Hor as [Hp|Hc]; [|by apply (Hcl w)].
      intros Hu%(si_unsynced _ Hs). congruence.
  - intros w i Hw Hi Hc. by apply (Hcl w).
Qed.

Lemma begin_bitmap idx c :
  match ensure_begin idx c with
  | BHit c' | BFetch c' => c_bitmap c' = c_bitmap c
  | _ => True
  end.
Proof using All.
  unfold ensure_begin. destruct (_ || _); [done|].
  destruct (default false _); [done|]. by destruct (bool_decide _).
Qed.

Lemma present_bound i : IsPresent h (Z.of_nat i) = true → Z.of_nat i < NumChunks h.
Proof using All. intros Hp%is_present_range. rewrite (length_present_num h Hwf) in Hp. lia. Qed.

(** A step that leaves the cached bits, the file and the goroutines alone. *)
Lemma frame_inv s c' :
  sys_inv s → cache_inv h img c' → c_present c' = c_present (s_cache s) →
  c_data c' = c_data (s_cache s) → c_inflight c' = c_inflight (s_cache s) →
  c_bitmap c' = c_bitmap (s_cache s) →
  sys_inv {| s_cache := c'; s_pc := s_pc s; s_flush := s_flush s;
             s_unsynced := s_unsynced s; s_hist := s_hist s |}.
Proof using All.
  intros [] Hc Hp Hd Hi Hb.
  split; cbn [s_cache s_pc s_flush s_unsynced s_hist]; try done;
    unfold durable, snap_ok; cbn [s_cache s_unsynced]; rewrite ?Hp, ?Hd, ?Hi, ?Hb; done.
Qed.

Lemma hit_inv s i c' :
  sys_inv s → IsPresent h (Z.of_nat i) = true →
  ensure_begin (Z.of_nat i) (s_cache s) = BHit c' →
  sys_inv {| s_cache := c'; s_pc := s_pc s; s_flush := s_flush s;
             s_unsynced := s_unsynced s; s_hist := s_hist s |}.
Proof using All.
  intros Hs Hp Hb. pose proof (begin_bitmap (Z.of_nat i) (s_cache s)) as Hbm.
  pose proof (begin_spec h img Hwf i _ (si_cache _ Hs) (present_bound i Hp) Hp) as Hsp.
  rewrite Hb in Hsp, Hbm. destruct Hsp as (H1 & _ & H2 & H3 & H4). by apply frame_inv.
Qed.

Lemma begin_inv s i c' :
  sys_inv s → IsPresent h (Z.of_nat i) = true →
  ensure_begin (Z.of_nat i) (s_cache s) = BFetch c' →
  sys_inv {| s_cache := c'; s_pc := <[i := Fetching]> (s_pc s); s_flush := touch i (s_flush s);
             s_unsynced := {[i]} ∪ s_unsynced s; s_hist := s_hist s |}.
Proof using All.
  intros Hs Hp Hb. pose proof (begin_bitmap (Z.of_nat i) (s_cache s)) as Hbm.
  pose proof (begin_spec h img Hwf i _ (si_cache _ Hs) (present_bound i Hp) Hp) as Hsp.
  rewrite Hb in Hsp, Hbm. destruct Hsp as (H1 & H2 & H3 & H4 & H5 & H6).
  assert (Hdur : ∀ j, c_present (s_cache s) !! j = Some true → j ∉ s_unsynced s →
                      j ∉ ({[i]} ∪ s_unsynced s : gset nat)).
  { intros j Hj Hu Hin. apply elem_of_union in Hin as [->%elem_of_singleton|]; [|done]. congruence. }
  destruct Hs as [S1 S2 S3 S4 S5 S6 S7 S8].
  split; cbn [s_cache s_pc s_flush s_unsynced s_hist]; unfold durable, snap_ok in *;
    cbn [s_cache s_unsynced]; rewrite ?H4, ?H5, ?H6, ?Hbm; try done.
  - intros j. destruct (decide (i = j)) as [<-|Hij].
    + rewrite lookup_insert_eq. by split; [eexists|intros _].
    + rewrite lookup_insert_ne, <- S2 by done. rewrite elem_of_union, elem_of_singleton. naive_solver.
  - intros j. destruct (decide (i = j)) as [<-|Hij]; [by rewrite lookup_insert_eq|].
    rewrite lookup_insert_ne by done. apply S3.
  - intros j [->%elem_of_singleton|]%elem_of_union; auto.
  - intros j [->%elem_of_singleton|]%elem_of_union; [done|]. apply elem_of_union_r. auto.
  - intros b j Hin Hj Hc. destruct (S6 b j Hin Hj Hc). auto.
  - destruct (s_flush s) as [|sn a|sn a since|sn a|a]; simpl; try done.
    + destruct S8 as (F1 & F2 & F3 & F4). split_and!; [done| | |].
      * by apply union_mono_l.
      * by apply union_mono_l.
      * intros j Hj [->%elem_of_singleton|]%elem_of_union; [|by apply (F4 j)].
        specialize (F1 i Hj). congruence.
    + intros j Hj. destruct (S8 j Hj). auto.
Qed.

Lemma fetch_inv s i o c' e :
  sys_inv s → s_pc s !! i = Some Fetching → env o →
  fetchChunk Sum256 h o (Z.of_nat i) (s_cache s) = (c', e) →
  sys_inv {| s_cache := c'; s_pc := <[i := Fetched e]> (s_pc s); s_flush := s_flush s;
             s_unsynced := s_unsynced s; s_hist := s_hist s |}.
Proof using All.
  intros Hs Hpc Ho Hf. assert (Hin : i ∈ c_inflight (s_cache s)) by (apply (si_pc _ Hs); eauto).
  destruct (fetchChunk_inv Sum256 h img Hwf o i _ _ _ (Henv o Ho) (si_cache _ Hs) Hin Hf)
    as (H1 & H2 & H3 & H4 & H5 & H6).
  pose proof (si_cache _ Hs) as Hc. destruct Hs as [S1 S2 S3 S4 S5 S6 S7 S8].
  split; cbn [s_cache s_pc s_flush s_unsynced s_hist]; unfold durable, snap_ok in *;
    cbn [s_cache s_unsynced]; rewrite ?H2, ?H3, ?H4; try done.
  - intros j. destruct (decide (i = j)) as [<-|Hij].
    + rewrite lookup_insert_eq. by split; [eexists|intros _].
    + by rewrite lookup_insert_ne, S2 by done.
  - intros j. destruct (decide (i = j)) as [<-|Hij].
    + rewrite lookup_insert_eq. intros [= ->]. auto.
    + rewrite lookup_insert_ne by done. intros Hj. apply H5; [done| |auto].
      assert (Hjin : j ∈ c_inflight (s_cache s)) by (apply S2; eauto).
      by apply (ci_inflight _ _ _ Hc).
Qed.

Lemma end_inv s i e :
  sys_inv s → s_pc s !! i = Some (Fetched e) →
  sys_inv {| s_cache := ensure_end (Z.of_nat i) e (s_cache s); s_pc := delete i (s_pc s);
             s_flush := s_flush s; s_unsynced := s_unsynced s; s_hist := s_hist s |}.
Proof using All.
  intros Hs Hpc. assert (Hin : i ∈ c_inflight (s_cache s)) by (apply (si_pc _ Hs); eauto).
  pose proof (ensure_end_inv h img Hwf i e _ (si_cache _ Hs) Hin) as Hc.
  assert (Hmono : ∀ j, c_present (s_cache s) !! j = Some true →
            c_present (ensure_end (Z.of_nat i) e (s_cache s)) !! j = Some true).
  { intros j Hj. unfold ensure_end; cbn [c_present]. rewrite Nat2Z.id. destruct e; [done|].
    rewrite list_lookup_insert_ne; [done|]. intros ->. by eapply inflight_absent. }
  destruct Hs as [S1 S2 S3 S4 S5 S6 S7 S8].
  split; cbn [s_cache s_pc s_flush s_unsynced s_hist]; unfold durable, snap_ok in *;
    cbn [s_cache s_unsynced]; try done.
  - apply Hc. intros ->. by apply S3.
  - intros j. unfold ensure_end; cbn [c_inflight]. rewrite Nat2Z.id, elem_of_difference, elem_of_singleton, S2.
    destruct (decide (i = j)) as [<-|Hij].
    + rewrite lookup_delete_eq. split; [intros [_ Hne]; by destruct Hne | by intros [? [=]]].
    + rewrite lookup_delete_ne by done. naive_solver.
  - intros j. destruct (decide (i = j)) as [<-|Hij]; [by rewrite lookup_delete_eq|].
    rewrite lookup_delete_ne by done. apply S3.
  - intros j Hj. unfold ensure_end in Hj; cbn [c_inflight] in Hj. apply S5.
    rewrite Nat2Z.id in Hj. by apply (elem_of_removed _ i) in Hj as [_ ?].
  - intros b j Hb Hj Hcl. destruct (S6 b j Hb Hj Hcl). auto.
  - destruct (s_flush s) as [|sn a|sn a since|sn a|a]; simpl; try done.
    + intros j Hj. auto.
    + destruct S8 as (F1 & F2 & F3 & F4). split_and!; [by auto|done| |done].
      unfold ensure_end; cbn [c_inflight]. etransitivity; [|exact F3]. apply subseteq_difference_l. done.
    + intros j Hj. destruct (S8 j Hj). auto.
Qed.

Lemma snap_inv s sn a :
  sys_inv s → s_flush s = FIdle → flush_begin (s_cache s) = Some (sn, a) →
  sys_inv {| s_cache := s_cache s; s_pc := s_pc s; s_flush := FSnapped sn a;
             s_unsynced := s_unsynced s; s_hist := s_hist s |}.
Proof using All.
  intros [] _ Hb. split; cbn [s_cache s_pc s_flush s_unsynced s_hist]; try done.
  unfold flush_begin in Hb. destruct (c_dirty _ =? 0); [done|]. injection Hb as <- <-. by intros j.
Qed.

Lemma sync_begin_inv s sn a :
  sys_inv s → s_flush s = FSnapped sn a →
  sys_inv {| s_cache := s_cache s; s_pc := s_pc s; s_flush := FSyncing sn a (c_inflight (s_cache s));
             s_unsynced := s_unsynced s; s_hist := s_hist s |}.
Proof using All.
  intros Hs Hf. pose proof (si_flush _ Hs) as Hsn. rewrite Hf in Hsn.
  pose proof (inflight_absent s) as Habs. pose proof (si_inflight _ Hs).
  split; cbn [s_cache s_pc s_flush s_unsynced s_hist]; try apply Hs.
  split_and!; try done. intros i Hi Hin. by eapply Habs; [|done|apply Hsn].
Qed.

Lemma sync_end_inv s sn a since :
  sys_inv s → s_flush s = FSyncing sn a since →
  sys_inv {| s_cache := s_cache s; s_pc := s_pc s; s_flush := FSynced sn a;
             s_unsynced := since; s_hist := s_hist s |}.
Proof using All.
  intros Hs Hf. pose proof (si_flush _ Hs) as Hsn. rewrite Hf in Hsn.
  destruct Hsn as (F1 & F2 & F3 & F4). destruct Hs as [S1 S2 S3 S4 S5 S6 S7 S8].
  split; cbn [s_cache s_pc s_flush s_unsynced s_hist]; unfold durable in *;
    cbn [s_cache s_unsynced]; try done; auto.
  - intros b i Hb Hi Hc. destruct (S6 b i Hb Hi Hc) as [? Hu]. split; [done|]. by intros ?%F2.
Qed.

Lemma bitmap_inv s sn a :
  sys_inv s → s_flush s = FSynced sn a →
  sys_inv {| s_cache := write_bitmap magic h sn (s_cache s); s_pc := s_pc s; s_flush := FRenamed a;
             s_unsynced := s_unsynced s; s_hist := encodeSharedBitmap magic h sn :: s_hist s |}.
Proof using All.
  intros Hs Hf. pose proof (si_flush _ Hs) as Hsn. rewrite Hf in Hsn.
  destruct Hs as [[] S2 S3 S4 S5 S6 S7 S8].
  split; cbn [s_cache s_pc s_flush s_unsynced s_hist]; unfold durable in *; cbn [s_cache s_unsynced] in *;
    try done.
  - intros b i Hb Hi Hc. apply elem_of_cons in Hb as [->|Hb]; [|by apply (S6 b)].
    apply Hsn. rewrite claims_encode in Hc by done. by destruct (sn !! i) as [[]|].
  - intros b [= <-]. by left.
Qed.

Lemma ack_inv s a :
  sys_inv s → sys_inv {| s_cache := flush_end a (s_cache s); s_pc := s_pc s; s_flush := FIdle;
                         s_unsynced := s_unsynced s; s_hist := s_hist s |}.
Proof using All. intros [[] ? ? ? ? ? ? ?]. by split. Qed.

Lemma step_inv s s' : sys_inv s → step magic Sum256 h env s s' → sys_inv s'.
Proof using All.
  intros Hs Hstep. destruct Hstep; try subst c'.
  - by eapply hit_inv.
  - by eapply begin_inv.
  - by eapply fetch_inv.
  - by eapply end_inv.
  - by eapply snap_inv.
  - by eapply sync_begin_inv.
  - by eapply sync_end_inv.
  - by eapply bitmap_inv.
  - by apply ack_inv.
  - destruct Hs. by split.
  - by apply crash_inv.
Qed.

Definition reachable (s : sys) : Prop := rtc (step magic Sum256 h env) (boot magic h [] None ∅) s.

Lemma reachable_inv s : reachable s → sys_inv s.
Proof using All.
  intros Hr. eapply (rtc_invariant _ sys_inv); [exact step_inv|exact init_inv|exact Hr].
Qed.
End Safety.

(** ** What concurrency and crashes cannot break *)

Section Theorems.
Context {H : Type} `{StreamHeader H}.
Variable magic : list byte.
Variable Sum256 : list byte → list byte.
Variable h : H.
Variable img : list byte.
Variable env : io → Prop.
Context (Hmagic : length magic = 4%nat) (Hwf : wf_geom h) (Himg : image_of h img)
        (Henv : ∀ o, env o → honest Sum256 h img o).

(** C2. Never wrong bytes.  After any interleaving of fetches, flushes,
    failures and power losses, starting from an empty directory, a range
    whose stored chunks are cached reads exactly as the image: neither torn
    nor unverified nor stale bytes are ever served. *)
Theorem cache_never_serves_wrong_bytes (s : sys) (off len : nat) :
  reachable magic Sum256 h env s → (0 < len)%nat → Z.of_nat off + Z.of_nat len ≤ TotalSize h →
  span_cached h (s_cache s) (Z.of_nat off) (Z.of_nat off + Z.of_nat len) →
  slice off len (c_data (s_cache s)) = slice off len img.
Proof using Hmagic Hwf Himg Henv.
  intros Hr Hlen Hle Hsp.
  pose proof (reachable_inv magic Sum256 h img env Hmagic Hwf Himg Henv s Hr) as Hs.
  apply (read_cached h img); try done. apply (si_cache _ _ _ Hs).
Qed.

(** The bitmap tells the truth about the disk.  In every reachable state,
    each chunk the bitmap on disk claims was completely written before an
    fsync that has completed, is not being rewritten, and holds the image's
    bytes; a power loss at that moment leaves it readable. *)
Theorem bitmap_claims_are_durable (s : sys) (b : list byte) (i : nat) data bm :
  reachable magic Sum256 h env s → c_bitmap (s_cache s) = Some b →
  Z.of_nat i < NumChunks h → claims b i = true →
  survives h s data bm → Z.of_nat (length data) = TotalSize h →
  chunk_good h img (c_data (s_cache s)) i ∧ (i ∉ c_inflight (s_cache s)) ∧ chunk_good h img data i.
Proof using Hmagic Hwf Himg Henv.
  intros Hr Hb Hi Hc [Hd _] Hlen.
  pose proof (reachable_inv magic Sum256 h img env Hmagic Hwf Himg Henv s Hr) as Hs.
  destruct (si_hist _ _ _ Hs b i (si_bitmap _ _ _ Hs b Hb) Hi Hc) as [Hp Hu].
  assert (Hg : chunk_good h img (c_data (s_cache s)) i).
  { apply (ci_good _ _ _ (si_cache _ _ _ Hs)); auto. }
  split_and!; [done| |].
  - by intros Hin%(si_inflight _ _ _ Hs).
  - unfold chunk_good. by rewrite Hd.
Qed.
End Theorems.

(** ** Witnesses: fetch chunk 2, flush, lose power *)

Definition sample_env (o : io) : Prop := o = sample_up ∨ o = down.

Lemma sample_env_honest o : sample_env o → honest sample_sum sample_h sample_img o.
Proof. intros [->| ->]; [exact sample_honest|]. by intros i got _ _ [=]. Qed.

Definition w_step := step MemSharedMagic sample_sum sample_h sample_env.
Definition w0 : sys := boot MemSharedMagic sample_h [] None ∅.
Definition w_fetched : cache := (EnsureChunk sample_sum sample_h sample_up 2 sample_cache).1.
Definition w1 : sys :=
  {| s_cache := w_fetched; s_pc := ∅; s_flush := FIdle; s_unsynced := {[2%nat]} ∪ ∅; s_hist := [] |}.
Definition w2 : sys :=
  {| s_cache := (Flush MemSharedMagic sample_h {| fi_sync := true; fi_bitmap := true |} w_fetched).1;
     s_pc := ∅; s_flush := FIdle; s_unsynced := ∅;
     s_hist := [encodeSharedBitmap MemSharedMagic sample_h [false; false; true]] |}.
Definition w3 : sys := boot MemSharedMagic sample_h (c_data w_fetched) (c_bitmap (s_cache w2)) ∅.

Lemma rtc_eq {A} (R : relation A) x y : x = y → rtc R x y.
Proof. intros ->. apply rtc_refl. Qed.

Lemma w_fetch : rtc w_step w0 w1.
Proof.
  eapply rtc_l; [eapply (SBegin _ _ _ _ _ 2%nat); vm_compute; reflexivity|].
  eapply rtc_l; [eapply (SFetch _ _ _ _ _ 2%nat sample_up); [reflexivity | by left | vm_compute; reflexivity]|].
  eapply rtc_l; [eapply (SEnd _ _ _ _ _ 2%nat None); reflexivity|].
  apply rtc_eq. vm_compute. reflexivity.
Qed.

Lemma w_flush : rtc w_step w1 w2.
Proof.
  eapply rtc_l; [eapply (SSnap _ _ _ _ _ [false; false; true] 1); reflexivity|].
  eapply rtc_l; [eapply SSyncBegin; reflexivity|].
  eapply rtc_l; [eapply SSyncEnd; reflexivity|].
  eapply rtc_l; [eapply SBitmap; reflexivity|].
  eapply rtc_l; [eapply SAck; reflexivity|].
  apply rtc_eq. vm_compute. reflexivity.
Qed.

Lemma w2_survives : survives sample_h w2 (c_data w_fetched) (c_bitmap (s_cache w2)).
Proof.
  split; [done|]. vm_compute c_bitmap. eexists. split; [by left|]. intros j b Hb. right. exact Hb.
Qed.

Lemma w_crash : rtc w_step w0 w3.
Proof.
  etransitivity; [exact w_fetch|]. etransitivity; [exact w_flush|].
  apply rtc_once. apply (SCrash _ _ _ _ w2 (c_data w_fetched) (c_bitmap (s_cache w2))). exact w2_survives.
Qed.

Lemma cache_never_serves_wrong_bytes_witness :
  slice 8 2 (c_data (s_cache w3)) = slice 8 2 sample_img.
Proof.
  apply (cache_never_serves_wrong_bytes MemSharedMagic sample_sum sample_h sample_img sample_env
           eq_refl sample_wf sample_image sample_env_honest w3 8 2); [exact w_crash | lia | reflexivity |].
  intros i Hi _. assert (i = 2%nat) as ->; [|vm_compute; reflexivity].
  change (chunk_span _ _ _) with [2] in Hi. apply list_elem_of_singleton in Hi. lia.
Defined.

Lemma bitmap_claims_are_durable_witness :
  chunk_good sample_h sample_img (c_data (s_cache w2)) 2.
Proof.
  apply (bitmap_claims_are_durable MemSharedMagic sample_sum sample_h sample_img sample_env
           eq_refl sample_wf sample_image sample_env_honest w2
           (encodeSharedBitmap MemSharedMagic sample_h [false; false; true]) 2
           (c_data w_fetched) (c_bitmap (s_cache w2)));
    [unfold reachable; etransitivity; [exact w_fetch | exact w_flush] | vm_compute; reflexivity
    | vm_compute; reflexivity | vm_compute; reflexivity | exact w2_survives | vm_compute; reflexivity].
Defined.
