(* ===== verification/SharedReg.v ===== *)
(** The process-wide registry of shared caches and its eviction:
    [AcquireSharedCache] and [evictSharedLRU] of
    agent/internal/diskstream/sharedcache.go and
    agent/internal/memstream/sharedcache.go. *)

From stdpp Require Import sorting.
From S2P Require Import Prelude GoSort.

Open Scope string_scope.
Open Scope list_scope.
Open Scope Z_scope.

(** One directory entry of the cache root, with what the sweep reads of it:
    allocated bytes, and the mtimes of its bitmap and of itself ([None] when
    the stat fails).  Times are nanoseconds of the Unix clock. *)
Record dir_entry := mkDir {
  d_name : string;
  d_is_dir : bool;
  d_bytes : Z;
  d_bitmap_mtime : option Z;
  d_dir_mtime : option Z;
}.

(** [time.Time{}]: 1 January of year 1. *)
Definition zero_time : Z := -62135596800 * 10 ^ 9.

Definition d_mtime (e : dir_entry) : Z :=
  match d_bitmap_mtime e with
  | Some t => t
  | None => match d_dir_mtime e with Some t => t | None => zero_time end
  end.

(** The directories a sweep considers. *)
Definition mem_considered (e : dir_entry) : bool := d_is_dir e.
Definition disk_considered (e : dir_entry) : bool :=
  negb (negb (d_is_dir e) || (String.length (d_name e) <? 5)%nat
        || negb (String.eqb (String.substring 0 5 (d_name e)) "disk-")).

Definition sum_bytes (l : list dir_entry) : Z := foldr (λ e acc, d_bytes e + acc) 0 l.

Definition older (a b : dir_entry) : bool := d_mtime a <? d_mtime b.

(** The eviction loop: the directories removed, and the total it ends with.
    [rm] tells whether [os.RemoveAll] of a directory succeeds. *)
Fixpoint evict_loop (rm : string → bool) (maxBytes total : Z) (l : list dir_entry)
    : list dir_entry * Z :=
  match l with
  | [] => ([], total)
  | c :: l =>
      if total <=? maxBytes then ([], total)
      else if rm (d_name c) then
        let '(gone, t) := evict_loop rm maxBytes (total - d_bytes c) l in (c :: gone, t)
      else evict_loop rm maxBytes total l
  end.

Section Evict.
Variable considered : dir_entry → bool.

Definition evictable (live : gset string) (entries : list dir_entry) : list dir_entry :=
  filter (λ e, considered e = true ∧ d_name e ∉ live) entries.

Definition evictSharedLRU (rm : string → bool) (live : gset string) (maxBytes : Z)
    (entries : list dir_entry) : list dir_entry * Z :=
  let total := sum_bytes (filter (λ e, considered e = true) entries) in
  if total <=? maxBytes then ([], total)
  else evict_loop rm maxBytes total (sort_slice older (evictable live entries)).
End Evict.

Definition mem_evict := evictSharedLRU mem_considered.
Definition disk_evict := evictSharedLRU disk_considered.

(** ** The registry *)

Definition geometry : Type := Z * Z.  (* TotalSize, ChunkSize *)

Inductive acquire_err := ErrGeometryChanged (key : string) | ErrMkUpstream | ErrOpen.

(** [AcquireSharedCache]: the registry after it, and the live set the
    background sweep is started with, if it is. *)
Definition AcquireSharedCache (key : string) (h : geometry) (maxBytes : Z)
    (mk_ok open_ok : bool) (reg : gmap string geometry)
    : gmap string geometry * res acquire_err (option (gset string)) :=
  match reg !! key with
  | Some g =>
      if negb (bool_decide (g = h)) then (reg, Err (ErrGeometryChanged key)) else (reg, Ok None)
  | None =>
      if negb mk_ok then (reg, Err ErrMkUpstream)
      else if negb open_ok then (reg, Err ErrOpen)
      else
        let reg := <[key := h]> reg in
        (reg, Ok (if 0 <? maxBytes then Some (dom reg) else None))
  end.

(** ** Eviction *)

#[export] Instance older_strict : StrictWeak older.
Proof. split; unfold older; intros; rewrite ?Z.ltb_lt, ?Z.ltb_ge in *; lia. Qed.

Lemma evict_loop_spec rm maxBytes total l :
  let '(gone, t) := evict_loop rm maxBytes total l in
  gone `sublist_of` l ∧ t = total - sum_bytes gone ∧
  (maxBytes < t → gone = filter (λ c, rm (d_name c) = true) l) ∧
  (∃ tried rest, l = tried ++ rest ∧ gone = filter (λ c, rm (d_name c) = true) tried).
Proof.
  revert total. induction l as [|c l IH]; intros total; simpl.
  { split_and!; [constructor|lia|done|]. by exists [], []. }
  destruct (Z.leb_spec total maxBytes).
  { split_and!; [apply sublist_nil_l|simpl; lia|lia|]. by exists [], (c :: l). }
  destruct (rm (d_name c)) eqn:Hrm.
  - specialize (IH (total - d_bytes c)). destruct (evict_loop _ _ _ l) as [gone t].
    destruct IH as (H1 & H2 & H3 & tried & rest & H4 & H5). split_and!.
    + by constructor.
    + simpl. lia.
    + intros Hm. rewrite filter_cons_True by done. f_equal. auto.
    + exists (c :: tried), rest. rewrite filter_cons_True by done. split; [simpl; congruence|congruence].
  - specialize (IH total). destruct (evict_loop _ _ _ l) as [gone t].
    destruct IH as (H1 & H2 & H3 & tried & rest & H4 & H5). split_and!.
    + by constructor.
    + done.
    + intros Hm. rewrite filter_cons_False by congruence. auto.
    + exists (c :: tried), rest. rewrite filter_cons_False by congruence. split; [simpl; congruence|done].
Qed.

Lemma ssorted_app_rel {A} (R : relation A) l k x y :
  StronglySorted R (l ++ k) → x ∈ l → y ∈ k → R x y.
Proof.
  induction l as [|a l IH]; simpl; intros Hs Hx Hy; [by apply not_elem_of_nil in Hx|].
  inversion_clear Hs as [|? ? Hs' Ha]. apply elem_of_cons in Hx as [->|Hx]; [|auto].
  rewrite Forall_forall in Ha. apply Ha. apply elem_of_app. by right.
Qed.

(** What a sweep removes.  Only directories it considers and that no open
    cache owns, and nothing when the budget is met; when every removal
    succeeds it stops within budget or has removed all it may; and it is LRU:
    whatever it may evict and leaves is no older than anything it removed. *)
Theorem evict_spec considered rm live maxBytes entries gone t :
  evictSharedLRU considered rm live maxBytes entries = (gone, t) →
  (∀ e, e ∈ gone → e ∈ entries ∧ considered e = true ∧ d_name e ∉ live) ∧
  t = sum_bytes (filter (λ e, considered e = true) entries) - sum_bytes gone ∧
  ((∀ n, rm n = true) → t ≤ maxBytes ∨ gone ≡ₚ evictable considered live entries) ∧
  ((∀ n, rm n = true) → ∀ e e', e ∈ gone → e' ∈ evictable considered live entries → e' ∉ gone →
     d_mtime e ≤ d_mtime e').
Proof.
  unfold evictSharedLRU. set (total := sum_bytes _). intros He.
  destruct (Z.leb_spec total maxBytes) as [Hle|Hgt].
  { injection He as <- <-. split_and!; [intros e Hin; by apply not_elem_of_nil in Hin|simpl; lia| |].
    - intros _. by left.
    - intros _ e e' Hin. by apply not_elem_of_nil in Hin. }
  pose proof (evict_loop_spec rm maxBytes total (sort_slice older (evictable considered live entries))) as Hl.
  rewrite He in Hl. destruct Hl as (H1 & H2 & H3 & tried & rest & H4 & H5).
  assert (Hsub : ∀ e, e ∈ gone → e ∈ evictable considered live entries).
  { intros e Hin. rewrite <- (sort_slice_perm older). by eapply sublist_subseteq. }
  assert (Hall : (∀ n, rm n = true) → ∀ l : list dir_entry, filter (λ c, rm (d_name c) = true) l = l).
  { intros Hrm l. induction l as [|c l IH]; [done|]. rewrite filter_cons_True by done. by rewrite IH. }
  split_and!.
  - intros e Hin. apply Hsub, list_elem_of_filter in Hin. by destruct Hin as [[? ?] ?].
  - done.
  - intros Hrm. destruct (Z.leb_spec t maxBytes); [by left|right].
    rewrite (H3 ltac:(lia)), Hall by done. apply sort_slice_perm.
  - intros Hrm e e' Hin Hin' Hnot. rewrite Hall in H5 by done. subst gone.
    rewrite <- (sort_slice_perm older), H4 in Hin'. apply elem_of_app in Hin' as [?|Hin']; [done|].
    pose proof (sort_slice_sorted older (evictable considered live entries)) as Hs. rewrite H4 in Hs.
    pose proof (ssorted_app_rel _ _ _ _ _ Hs Hin Hin') as Hr.
    unfold not_after, older in Hr. apply Z.ltb_ge in Hr. done.
Qed.

(** One cache per key and process.  Acquiring a key hands out the cache
    that is open for it, or opens one when there is none; a key is never
    rebound to another geometry, an error leaves the registry as it was, and
    the sweep started after an open never removes a directory the registry
    owns, the new one included. *)
Theorem acquire_spec (considered : dir_entry → bool) key h maxBytes mk_ok open_ok reg reg' r :
  AcquireSharedCache key h maxBytes mk_ok open_ok reg = (reg', r) →
  (∀ k g, reg !! k = Some g → reg' !! k = Some g) ∧
  match r with
  | Err _ => reg' = reg
  | Ok sweep =>
      reg' !! key = Some h ∧
      ∀ live rm entries, sweep = Some live →
        ∀ e, e ∈ (evictSharedLRU considered rm live maxBytes entries).1 → reg' !! d_name e = None
  end.
Proof.
  unfold AcquireSharedCache. destruct (reg !! key) as [g|] eqn:Hk.
  { case_bool_decide as Hg; simpl; intros [= <- <-]; [|done]. subst g. by split_and!. }
  destruct mk_ok; simpl; [|by intros [= <- <-]].
  destruct open_ok; simpl; [|by intros [= <- <-]].
  intros [= <- <-]. split; [|split].
  - intros k g Hg. rewrite lookup_insert_ne; [done|]. intros ->. congruence.
  - apply lookup_insert_eq.
  - intros live rm entries Hlive e He.
    destruct (0 <? maxBytes); [|done]. injection Hlive as <-.
    apply not_elem_of_dom. revert He. unfold evictSharedLRU.
    destruct (_ <=? maxBytes); [intros He; by apply not_elem_of_nil in He|].
    set (l := sort_slice _ _). pose proof (evict_loop_spec rm maxBytes
      (sum_bytes (filter (λ e, considered e = true) entries)) l) as Hl.
    destruct (evict_loop _ _ _ l) as [gone t]. destruct Hl as (H1 & _). intros He. simpl in He.
    apply (sublist_subseteq _ _ H1) in He. subst l. rewrite sort_slice_perm in He.
    apply list_elem_of_filter in He. by destruct He as [[_ ?] _].
Qed.

(** The memory cache's sweep considers every directory under the root, so when
    the two caches share one (the default) it can remove a directory that an
    open disk cache owns: here a live disk cache of 100 bytes, under a memory
    budget of 60. *)
Definition shared_root : list dir_entry :=
  [mkDir "disk-00aa" true 100 (Some 5) None; mkDir "77bb" true 10 (Some 9) None].

Lemma mem_evicts_live_disk_cache :
  (mem_evict (λ _, true) {["77bb"]} 60 shared_root).1 = [mkDir "disk-00aa" true 100 (Some 5) None] ∧
  disk_evict (λ _, true) {["disk-00aa"]} 60 shared_root = ([], 100).
Proof. split; vm_compute; reflexivity. Qed.

(** ** Witnesses *)

Lemma evict_spec_witness :
  let r := disk_evict (λ _, true) {["disk-1"]} 5
             [mkDir "disk-2" true 7 (Some 3) None; mkDir "disk-1" true 4 (Some 1) None;
              mkDir "disk-3" true 2 None (Some 2); mkDir "x" true 9 None None] in
  d_name <$> r.1 = ["disk-3"; "disk-2"] ∧ r.2 = 4 ∧ ∀ e, e ∈ r.1 → d_name e ∉ ({["disk-1"]} : gset string).
Proof.
  intros r. split; [vm_compute; reflexivity|]. split; [vm_compute; reflexivity|].
  intros e He. by apply (proj1 (evict_spec _ _ _ _ _ r.1 r.2 (surjective_pairing r)) e).
Defined.

Lemma acquire_spec_witness :
  let r := AcquireSharedCache "disk-9" (64, 4) 10 true true {["disk-1" := (32, 4)]} in
  r.1 !! "disk-1" = Some (32, 4) ∧ r.1 !! "disk-9" = Some (64, 4).
Proof.
  intros r. destruct (acquire_spec disk_considered _ _ _ _ _ _ r.1 r.2 (surjective_pairing r)) as [H1 H2].
  split; [by apply H1 | exact (proj1 H2)].
Defined.
