(* ===== verification/Resolver.v ===== *)
(** The per-restore resolvers: agent/internal/diskstream/resolver.go, which
    answers the NBD server's reads, and agent/internal/memstream/resolver.go,
    which answers the fault handler's pages.  Both fetch a chunk once into a
    sparse file sized to the image and serve from it; they differ in what a
    request is (any byte range / one page), in the integrity check, and in how
    an absent chunk is served. *)

From S2P Require Import Prelude Bytes Chunks Fetch.
From S2P Require MemHeader.

(** The fields the two [Resolver] structs share ([r_calls] is [reads] or
    [faults]); [r_data] is the cache file. *)
Record resolver := mkResolver {
  r_data : list byte;
  r_cached : list bool;
  r_inflight : gset nat;
  r_fetchErr : gmap nat fetch_err;
  r_calls : Z;
  r_fetches : Z;
  r_zeroFill : Z;
  r_verifyErr : Z;
}.

Inductive rbegun :=
  | ROut
  | RHit
  | RWait
  | RFetch (r : resolver).

(** [f.Truncate(n)]: cut, or extend with a hole. *)
Definition truncate (n : nat) (data : list byte) : list byte :=
  take n data ++ replicate (n - length data) x00.

Section Resolver.
Context {H : Type} `{StreamHeader H}.
Variable Sum256 : list byte → list byte.
(** What an index past the chunk table gives: diskstream returns an error,
    memstream indexes the slice. *)
Variable out : Z → fetch_err.
Implicit Types h : H.

(** [NewResolver], on a cache file that already holds [data]. *)
Definition NewResolver h (data : list byte) : resolver :=
  {| r_data := truncate (Z.to_nat (i64 (TotalSize h))) data;
     r_cached := replicate (Z.to_nat (NumChunks h)) false;
     r_inflight := ∅; r_fetchErr := ∅; r_calls := 0; r_fetches := 0; r_zeroFill := 0;
     r_verifyErr := 0 |}.

Definition r_begin (idx : Z) (r : resolver) : rbegun :=
  if (idx <? 0) || (Z.of_nat (length (r_cached r)) <=? idx) then ROut
  else if default false (r_cached r !! Z.to_nat idx) then RHit
  else if bool_decide (Z.to_nat idx ∈ r_inflight r) then RWait
  else RFetch {| r_data := r_data r; r_cached := r_cached r;
                 r_inflight := {[Z.to_nat idx]} ∪ r_inflight r; r_fetchErr := r_fetchErr r;
                 r_calls := r_calls r; r_fetches := r_fetches r; r_zeroFill := r_zeroFill r;
                 r_verifyErr := r_verifyErr r |}.

Definition fetchChunk h (o : io) (idx : Z) (r : resolver) : resolver * option fetch_err :=
  let '(data, f) := fetch_into Sum256 h o idx (r_data r) in
  let fetches := match f with FWrote => 1 | _ => 0 end in
  let bad := match f with FErr (ErrIntegrity _) => 1 | _ => 0 end in
  ({| r_data := data; r_cached := r_cached r; r_inflight := r_inflight r;
      r_fetchErr := r_fetchErr r; r_calls := r_calls r; r_fetches := r_fetches r + fetches;
      r_zeroFill := r_zeroFill r; r_verifyErr := r_verifyErr r + bad |},
   match f with FErr e => Some e | _ => None end).

Definition r_end (idx : Z) (e : option fetch_err) (r : resolver) : resolver :=
  let k := Z.to_nat idx in
  {| r_data := r_data r;
     r_cached := match e with None => <[k := true]> (r_cached r) | Some _ => r_cached r end;
     r_inflight := r_inflight r ∖ {[k]};
     r_fetchErr := match e with None => delete k (r_fetchErr r) | Some e => <[k := e]> (r_fetchErr r) end;
     r_calls := r_calls r; r_fetches := r_fetches r; r_zeroFill := r_zeroFill r;
     r_verifyErr := r_verifyErr r |}.

(** What a goroutine that found the chunk in flight returns once it is woken. *)
Definition r_woken (idx : Z) (r : resolver) : option fetch_err :=
  if default false (r_cached r !! Z.to_nat idx) then None else r_fetchErr r !! Z.to_nat idx.

(** [ensureChunk] with no other goroutine in it. *)
Definition ensureChunk h (o : io) (idx : Z) (r : resolver) : resolver * option fetch_err :=
  match r_begin idx r with
  | ROut => (r, Some (out idx))
  | RHit => (r, None)
  | RWait => (r, Some (ErrWouldBlock idx))
  | RFetch r => let '(r, e) := fetchChunk h o idx r in (r_end idx e r, e)
  end.

Definition EnsureChunk h (o : io) (idx : Z) (r : resolver) : resolver * option fetch_err :=
  if negb (IsPresent h idx) then (r, None) else ensureChunk h o idx r.

Definition count_call (r : resolver) : resolver :=
  {| r_data := r_data r; r_cached := r_cached r; r_inflight := r_inflight r;
     r_fetchErr := r_fetchErr r; r_calls := r_calls r + 1; r_fetches := r_fetches r;
     r_zeroFill := r_zeroFill r; r_verifyErr := r_verifyErr r |}.

Definition count_zero (r : resolver) : resolver :=
  {| r_data := r_data r; r_cached := r_cached r; r_inflight := r_inflight r;
     r_fetchErr := r_fetchErr r; r_calls := r_calls r; r_fetches := r_fetches r;
     r_zeroFill := r_zeroFill r + 1; r_verifyErr := r_verifyErr r |}.

(** The body of the disk resolver's loop. *)
Definition read_chunk h (o : io) (idx : Z) (r : resolver) : resolver * option fetch_err :=
  if negb (IsPresent h idx) then (count_zero r, None) else ensureChunk h o idx r.

(** diskstream [ReadAt(dst, off)] with [len(dst) = dlen]: the count returned
    and the content of [dst] (on success). *)
Definition ReadAt h (o : io) (dlen : nat) (off : Z) (r : resolver)
    : resolver * res fetch_err (Z * list byte) :=
  let r := count_call r in
  if (off <? 0) || (i64 (TotalSize h) <=? off) then (r, Err (ErrOffset off))
  else
    let stop := i64 (off + Z.of_nat dlen) in
    let stop := if i64 (TotalSize h) <? stop then i64 (TotalSize h) else stop in
    match ensure_all (read_chunk h o) (chunk_span h off stop) r with
    | (r, Some e) => (r, Err e)
    | (r, None) =>
        let want := Z.to_nat (stop - off) in
        (r, Ok (stop - off, slice (Z.to_nat off) want (r_data r) ++ replicate (dlen - want) x00))
    end.

(** memstream [ResolvePage(off, dst)]: the content of [dst] after it. *)
Definition ResolvePage h (o : io) (off : Z) (dst : list byte) (r : resolver)
    : resolver * res fetch_err (list byte) :=
  let r := count_call r in
  if (off <? 0) || (i64 (TotalSize h) <=? off) then (r, Err (ErrOffset off))
  else
    let plen := Z.of_nat (length dst) in
    let plen := if i64 (TotalSize h) <? i64 (off + plen) then i64 (TotalSize h) - off else plen in
    let n := Z.to_nat plen in
    let chunk := ChunkForOffset h off in
    if negb (IsPresent h chunk) then
      (count_zero r, Ok (replicate n x00 ++ drop n dst))
    else match ensureChunk h o chunk r with
    | (r, Some e) => (r, Err e)
    | (r, None) => (r, Ok (slice (Z.to_nat off) n (r_data r) ++ drop n dst))
    end.

(** [FetchedChunks] *)
Definition FetchedChunks (r : resolver) : list Z :=
  Z.of_nat <$> filter (λ i, default false (r_cached r !! i) = true) (seq 0 (length (r_cached r))).
End Resolver.

(** ** The invariant *)

Section Inv.
Context {H : Type} `{StreamHeader H}.
Variable Sum256 : list byte → list byte.
Variable out : Z → fetch_err.
Variable h : H.
Variable img : list byte.
Context (Hwf : wf_geom h).

Definition cached_count (r : resolver) : Z :=
  Z.of_nat (length (filter (λ b, b = true) (r_cached r))).

(** [clean]: the file is also zero where the image has absent chunks. *)
Record res_inv (clean : bool) (r : resolver) : Prop := {
  ri_data : length (r_data r) = Z.to_nat (TotalSize h);
  ri_cached : length (r_cached r) = Z.to_nat (NumChunks h);
  ri_good : ∀ i : nat, Z.of_nat i < NumChunks h → r_cached r !! i = Some true →
    chunk_good h img (r_data r) i;
  ri_zero : clean = true → ∀ i : nat, Z.of_nat i < NumChunks h →
    IsPresent h (Z.of_nat i) = false → chunk_good h img (r_data r) i;
  ri_fetches : r_fetches r = cached_count r;
}.

Lemma res_i64_total : i64 (TotalSize h) = TotalSize h.
Proof using Hwf. destruct Hwf as (_ & ? & _). apply i64_small. lia. Qed.

Lemma length_truncate n data : length (truncate n data) = n.
Proof using. unfold truncate. rewrite length_app, length_take, length_replicate. lia. Qed.

Lemma new_inv data :
  res_inv false (NewResolver h data).
Proof using Hwf.
  unfold NewResolver. rewrite res_i64_total.
  split; cbn [r_data r_cached r_fetches]; try done.
  - apply length_truncate.
  - apply length_replicate.
  - intros i Hi Hr. by apply lookup_replicate in Hr as [? _].
  - unfold cached_count. cbn [r_cached]. induction (Z.to_nat (NumChunks h)) as [|k IH]; [done|].
    simpl replicate. rewrite filter_cons_False by done. exact IH.
Qed.

Lemma new_inv_clean : image_of h img → res_inv true (NewResolver h []).
Proof using Hwf.
  intros Himg. destruct (new_inv []) as [H1 H2 H3 _ H5]. split; [exact H1|exact H2|exact H3| |exact H5].
  intros _ i Hi Hp. unfold NewResolver, truncate; cbn [r_data].
  rewrite res_i64_total, take_nil, Nat.sub_0_r. by apply zero_chunk_good.
Qed.

Lemma count_insert (l : list bool) i :
  l !! i = Some false →
  Z.of_nat (length (filter (λ b, b = true) (<[i := true]> l))) =
  Z.of_nat (length (filter (λ b, b = true) l)) + 1.
Proof using.
  revert i. induction l as [|b l IH]; intros [|i] Hi; simpl in *; try done.
  - injection Hi as ->. rewrite !filter_cons. repeat case_decide; try done. simpl. lia.
  - specialize (IH i Hi). destruct (decide (b = true)).
    + rewrite !filter_cons_True by done. simpl. lia.
    + rewrite !filter_cons_False by done. done.
Qed.

Lemma present_index i :
  IsPresent h i = true → ∃ k : nat, i = Z.of_nat k ∧ Z.of_nat k < NumChunks h.
Proof using Hwf.
  intros Hp%is_present_range. rewrite (length_present_num h Hwf) in Hp.
  exists (Z.to_nat i). lia.
Qed.

(** One chunk, with no other goroutine fetching. *)
Lemma ensureChunk_spec clean (o : io) (i : Z) r r' e :
  honest Sum256 h img o → res_inv clean r → r_inflight r = ∅ → IsPresent h i = true →
  ensureChunk Sum256 out h o i r = (r', e) →
  res_inv clean r' ∧ r_inflight r' = ∅ ∧
  (∀ j : nat, r_cached r !! j = Some true → r_cached r' !! j = Some true) ∧
  (e = None → r_cached r' !! Z.to_nat i = Some true).
Proof using Hwf.
  intros Ho [Hd Hc Hg Hz Hf] Hnil Hp. destruct (present_index i Hp) as (k & -> & Hk).
  rewrite Nat2Z.id. unfold ensureChunk, r_begin. rewrite Nat2Z.id.
  rewrite (proj2 (Z.ltb_ge (Z.of_nat k) 0)) by lia.
  rewrite (proj2 (Z.leb_gt (Z.of_nat (length (r_cached r))) (Z.of_nat k))) by lia. simpl orb.
  destruct (r_cached r !! k) as [b|] eqn:Hk'; [|apply lookup_ge_None in Hk'; lia]. simpl default.
  destruct b.
  { intros [= <- <-]. by split_and!. }
  rewrite Hnil, bool_decide_eq_false_2 by apply not_elem_of_empty. unfold fetchChunk; cbn [r_data].
  destruct (fetch_into _ _ _ _ _) as [data f] eqn:Hfi. intros [= <- <-].
  destruct (fetch_into_spec Sum256 h img Hwf o k _ _ _ Ho Hd Hk Hp Hfi) as (H1 & H2 & H3).
  split; [|split; [unfold r_end; cbn [r_inflight]; rewrite Nat2Z.id; apply added_removed|]].
  - split; unfold cached_count, r_end; cbn [r_data r_cached r_fetches]; rewrite ?Nat2Z.id; try done.
    + destruct f; rewrite ?length_insert; done.
    + intros j Hj Hjc. destruct (decide (k = j)) as [<-|Hkj].
      * destruct f as [|e|]; [done|congruence|done].
      * apply H2; [done|done|]. apply Hg; [done|].
        destruct f; [|done|]; by rewrite list_lookup_insert_ne in Hjc.
    + intros Hcl j Hj Hjp. apply H2; [|done|auto]. intros ->. congruence.
    + destruct f; [done| |].
      * rewrite Z.add_0_r. done.
      * rewrite count_insert by done. unfold cached_count in Hf. lia.
  - unfold r_end; cbn [r_cached]. rewrite Nat2Z.id. split.
    + intros j Hj. destruct f; [|done|]; (rewrite list_lookup_insert_ne; [done|congruence]).
    + intros Hnone. destruct f; [|done|]; (apply list_lookup_insert_eq; lia).
Qed.

Lemma read_chunk_spec clean (o : io) (i : Z) r r' e :
  honest Sum256 h img o → res_inv clean r → r_inflight r = ∅ →
  read_chunk Sum256 out h o i r = (r', e) →
  res_inv clean r' ∧ r_inflight r' = ∅ ∧
  (∀ j : nat, r_cached r !! j = Some true → r_cached r' !! j = Some true) ∧
  (e = None → IsPresent h i = true → r_cached r' !! Z.to_nat i = Some true).
Proof using Hwf.
  intros Ho Hinv Hnil. unfold read_chunk. destruct (IsPresent h i) eqn:Hp; simpl.
  - intros He. destruct (ensureChunk_spec clean o i r r' e Ho Hinv Hnil Hp He) as (? & ? & ? & ?).
    by split_and!; auto.
  - intros [= <- <-]. destruct Hinv. by split_and!.
Qed.

Lemma span_ensured clean (o : io) off stop r r' e :
  honest Sum256 h img o → res_inv clean r → r_inflight r = ∅ →
  ensure_all (read_chunk Sum256 out h o) (chunk_span h off stop) r = (r', e) →
  res_inv clean r' ∧ r_inflight r' = ∅ ∧
  (e = None → ∀ i, i ∈ chunk_span h off stop → IsPresent h i = true →
     r_cached r' !! Z.to_nat i = Some true).
Proof using Hwf.
  intros Ho Hinv Hnil He.
  destruct (ensure_all_spec (read_chunk Sum256 out h o)
    (λ r, res_inv clean r ∧ r_inflight r = ∅)
    (λ r i, IsPresent h i = true → r_cached r !! Z.to_nat i = Some true)
    (chunk_span h off stop) r r' e) as ((H1 & H2) & _ & H3); [|done|done|by split_and!].
  intros i s s' f _ [Hs1 Hs2] Hf.
  destruct (read_chunk_spec clean o i s s' f Ho Hs1 Hs2 Hf) as (H4 & H5 & H6 & H7).
  split_and!; try done. intros j Hj Hp. auto.
Qed.
End Inv.

(** ** What the two resolvers return *)

Section Reads.
Context {H : Type} `{StreamHeader H}.
Variable Sum256 : list byte → list byte.
Variable out : Z → fetch_err.
Variable h : H.
Variable img : list byte.
Context (Hwf : wf_geom h).

Definition avail (off n : nat) : nat := Nat.min n (Z.to_nat (TotalSize h) - off).

Lemma count_call_inv clean r : res_inv h img clean r → res_inv h img clean (count_call r).
Proof. intros []. by split. Qed.

Lemma disk_read_aux (o : io) (dlen off : nat) r r' a :
  honest Sum256 h img o → res_inv h img true r → r_inflight r = ∅ →
  (0 < dlen)%nat → Z.of_nat dlen < 2 ^ 62 → Z.of_nat off < TotalSize h →
  ReadAt Sum256 out h o dlen (Z.of_nat off) r = (r', a) →
  res_inv h img true r' ∧ r_inflight r' = ∅ ∧ r_fetches r' = cached_count r' ∧
  match a with
  | Ok (n, dst) =>
      n = Z.of_nat (avail off dlen) ∧ length dst = dlen ∧
      dst = slice off (avail off dlen) img ++ replicate (dlen - avail off dlen) x00
  | Err _ => True
  end.
Proof using Hwf.
  intros Ho Hinv Hnil Hd Hdl Hoff. unfold ReadAt. rewrite res_i64_total by done.
  assert (Ht : 0 ≤ TotalSize h < 2 ^ 62) by (destruct Hwf as (_ & ? & _); done).
  rewrite (i64_small (Z.of_nat off + Z.of_nat dlen)) by lia.
  rewrite (proj2 (Z.ltb_ge (Z.of_nat off) 0)), (proj2 (Z.leb_gt (TotalSize h) (Z.of_nat off))) by lia.
  cbv zeta. simpl orb. cbv iota.
  assert (Hstop : (if TotalSize h <? Z.of_nat off + Z.of_nat dlen then TotalSize h
                   else Z.of_nat off + Z.of_nat dlen) = Z.of_nat off + Z.of_nat (avail off dlen)).
  { unfold avail. destruct (Z.ltb_spec (TotalSize h) (Z.of_nat off + Z.of_nat dlen)); lia. }
  rewrite Hstop, Nat2Z.id. set (stop := Z.of_nat off + Z.of_nat (avail off dlen)).
  assert (Havail : (0 < avail off dlen)%nat ∧ stop ≤ TotalSize h) by (unfold stop, avail; lia).
  replace (Z.to_nat (stop - Z.of_nat off)) with (avail off dlen) by lia.
  destruct (ensure_all _ _ _) as [r1 e] eqn:He.
  destruct (span_ensured Sum256 out h img Hwf true o (Z.of_nat off) stop (count_call r) r1 e Ho
              (count_call_inv _ _ Hinv) Hnil He) as (H1 & H2 & H3).
  pose proof (ri_fetches _ _ _ _ H1) as Hfe.
  destruct e as [e|]; intros [= <- <-]; split_and!; try done; [lia| |f_equal].
  - pose proof (ri_data _ _ _ _ H1) as Hl.
    rewrite length_app, length_replicate, length_slice; unfold stop, avail in *; lia.
  - apply (span_good h img); [done|fold stop; lia|]. fold stop. intros i Hi.
    pose proof (chunk_span_range h Hwf (Z.of_nat off) stop (Z.of_nat i) ltac:(lia) (proj2 Havail) Hi).
    destruct (IsPresent h (Z.of_nat i)) eqn:Hp.
    + apply (ri_good _ _ _ _ H1); [lia|]. rewrite <- (Nat2Z.id i). by apply H3.
    + apply (ri_zero _ _ _ _ H1); [done|lia|done].
Qed.

(** The disk resolver serves the image.  On a resolver whose cache file
    started empty, with an upstream whose verified answers are the image's
    chunks, a read either fails, or returns the image's bytes up to its end
    and zeros past it; in both cases every chunk is fetched at most once over
    the life of the resolver ([r_fetches] is the number of cached chunks). *)
Theorem disk_read_spec (o : io) (dlen off : nat) r r' a :
  honest Sum256 h img o → res_inv h img true r → r_inflight r = ∅ →
  (0 < dlen)%nat → Z.of_nat dlen < 2 ^ 62 → Z.of_nat off < TotalSize h →
  ReadAt Sum256 out h o dlen (Z.of_nat off) r = (r', a) →
  res_inv h img true r' ∧ r_inflight r' = ∅ ∧ r_fetches r' = cached_count r' ∧
  match a with
  | Ok (n, dst) =>
      n = Z.of_nat (avail off dlen) ∧ length dst = dlen ∧
      dst = slice off (avail off dlen) img ++ replicate (dlen - avail off dlen) x00
  | Err _ => True
  end.
Proof using Hwf. apply disk_read_aux. Qed.

Lemma mem_page_aux (o : io) (off : nat) (dst : list byte) r r' a :
  honest Sum256 h img o → image_of h img → res_inv h img false r → r_inflight r = ∅ →
  Z.of_nat (length dst) < 2 ^ 62 → Z.of_nat off < TotalSize h →
  Z.of_nat off mod ChunkSize h + Z.of_nat (length dst) ≤ ChunkSize h →
  ResolvePage Sum256 out h o (Z.of_nat off) dst r = (r', a) →
  res_inv h img false r' ∧ r_inflight r' = ∅ ∧
  match a with
  | Ok dst' => dst' = slice off (avail off (length dst)) img ++ drop (avail off (length dst)) dst
  | Err _ => IsPresent h (ChunkForOffset h (Z.of_nat off)) = true
  end.
Proof using Hwf.
  intros Ho Himg Hinv Hnil Hdl Hoff Hpage. unfold ResolvePage. rewrite res_i64_total by done.
  assert (Ht : 0 ≤ TotalSize h < 2 ^ 62) by (destruct Hwf as (_ & ? & _); done).
  rewrite (i64_small (Z.of_nat off + _)) by lia.
  rewrite (proj2 (Z.ltb_ge (Z.of_nat off) 0)), (proj2 (Z.leb_gt (TotalSize h) (Z.of_nat off))) by lia.
  cbv zeta. simpl orb. cbv iota.
  assert (Hn : Z.to_nat (if TotalSize h <? Z.of_nat off + Z.of_nat (length dst)
                 then TotalSize h - Z.of_nat off else Z.of_nat (length dst)) = avail off (length dst)).
  { unfold avail. destruct (Z.ltb_spec (TotalSize h) (Z.of_nat off + Z.of_nat (length dst))); lia. }
  rewrite Hn, Nat2Z.id. set (n := avail off (length dst)).
  destruct (chunk_of_offset h off Hwf Hoff) as (i & Hci & Hi & Hb). rewrite Hci.
  (* the page stays inside chunk [i] *)
  assert (Hin : (off + n ≤ chunk_off h i + chunk_len h i)%nat).
  { unfold n, avail, chunk_len, chunk_off in *. destruct Hwf as ((? & ?) & _).
    assert (Z.of_nat off mod ChunkSize h = Z.of_nat off - Z.of_nat i * ChunkSize h).
    { symmetry. apply (Z.mod_unique_pos _ _ (Z.of_nat i)); lia. }
    lia. }
  assert (Hserve : ∀ data, chunk_good h img data i → slice off n data = slice off n img).
  { intros data Hg. apply list_eq. intros k. rewrite !lookup_slice. case_decide; [|done].
    apply (chunk_good_byte h img Hwf data i); [done|done|lia]. }
  destruct (IsPresent h (Z.of_nat i)) eqn:Hp; simpl.
  - destruct (ensureChunk _ _ _ _ _ _) as [r1 e] eqn:He.
    destruct (ensureChunk_spec Sum256 out h img Hwf false o _ (count_call r) r1 e Ho
                (count_call_inv _ _ Hinv) Hnil Hp He) as (H1 & H2 & _ & H3).
    destruct e as [e|]; intros [= <- <-]; split_and!; try done. f_equal. apply Hserve.
    apply (ri_good _ _ _ _ H1); [done|]. rewrite <- (Nat2Z.id i). by apply H3.
  - intros [= <- <-]. split_and!; [destruct Hinv; by split|done|]. f_equal.
    rewrite <- (Hserve (replicate (Z.to_nat (TotalSize h)) x00)) by by apply zero_chunk_good.
    apply list_eq. intros k. rewrite lookup_slice. case_decide as Hk.
    + rewrite !lookup_replicate_2; [done| |lia]. unfold n, avail in *. lia.
    + apply lookup_ge_None_2. rewrite length_replicate. lia.
Qed.
(** The memory resolver serves the image.  A page that lies in one chunk
    is filled with the image's bytes up to its end, the rest of the buffer
    left alone; an absent chunk gives zeros and no I/O; and a failed fetch
    fails the fault.  Whatever the cache file held before is never seen. *)
Theorem mem_page_spec (o : io) (off : nat) (dst : list byte) r r' a :
  honest Sum256 h img o → image_of h img → res_inv h img false r → r_inflight r = ∅ →
  Z.of_nat (length dst) < 2 ^ 62 → Z.of_nat off < TotalSize h →
  Z.of_nat off mod ChunkSize h + Z.of_nat (length dst) ≤ ChunkSize h →
  ResolvePage Sum256 out h o (Z.of_nat off) dst r = (r', a) →
  res_inv h img false r' ∧ r_inflight r' = ∅ ∧
  match a with
  | Ok dst' => dst' = slice off (avail off (length dst)) img ++ drop (avail off (length dst)) dst
  | Err _ => IsPresent h (ChunkForOffset h (Z.of_nat off)) = true
  end.
Proof using Hwf. apply mem_page_aux. Qed.
End Reads.

(** ** The two packages' resolvers *)

Definition disk_out : Z → fetch_err := ErrChunkRange.
Definition mem_out : Z → fetch_err := IndexPanic.

(** ** A concrete image, and what the hypotheses exclude *)

Abbreviation sample_h := MemHeader.sample_header (only parsing).
Abbreviation sample_img := MemHeader.sample_file (only parsing).
Definition no_sum (b : list byte) : list byte := b.
Definition sample_up : io :=
  {| io_read := λ off len, Ok (slice (Z.to_nat off) (Z.to_nat len) sample_img);
     io_wfault := λ _, None |}.

(** A page that straddles two chunks is answered from the first one alone: here
    the first is absent, and the stored byte 9 (07) is served as zero.  Pages
    do not straddle when the chunk size is a multiple of the page size, which
    neither [BuildHeader] nor [DecodeHeader] checks. *)
Lemma straddling_page_is_wrong :
  (ResolvePage no_sum mem_out sample_h sample_up 6 [xff; xff; xff; xff] (NewResolver sample_h [])).2
    = Ok [x00; x00; x00; x00] ∧
  slice 6 4 sample_img = [x00; x00; x00; x07].
Proof. split; vm_compute; reflexivity. Qed.

(** The disk resolver serves absent chunks from its cache file, and opening
    keeps what an existing file holds: a file left by an earlier run shows
    through the image's zero chunks (chunk 1 here). *)
Lemma stale_cache_file_is_served :
  (ReadAt no_sum disk_out sample_h sample_up 4 4 (NewResolver sample_h (replicate 10 xff))).2
    = Ok (4, [xff; xff; xff; xff]) ∧
  slice 4 4 sample_img = [x00; x00; x00; x00].
Proof. split; vm_compute; reflexivity. Qed.

Lemma res_sample_wf : wf_geom sample_h.
Proof. unfold wf_geom. vm_compute. repeat split; discriminate. Qed.

Lemma res_sample_image : image_of sample_h sample_img.
Proof.
  split; [done|]. intros i Hi. change (NumChunks sample_h) with 3 in Hi.
  destruct i as [|[|[|i]]]; [vm_compute; done..|lia].
Qed.

Lemma res_sample_honest : honest no_sum sample_h sample_img sample_up.
Proof.
  intros i got Hi. change (NumChunks sample_h) with 3 in Hi.
  destruct i as [|[|[|i]]]; [intros _ [= <-] _ _; reflexivity..|lia].
Qed.

Lemma disk_read_spec_witness :
  (ReadAt no_sum disk_out sample_h sample_up 6 7 (NewResolver sample_h [])).2
    = Ok (3, [x00; x00; x07; x00; x00; x00]) ∧
  res_inv sample_h sample_img true
    (ReadAt no_sum disk_out sample_h sample_up 6 7 (NewResolver sample_h [])).1.
Proof.
  split; [vm_compute; reflexivity|].
  apply (disk_read_spec no_sum disk_out sample_h sample_img res_sample_wf sample_up 6 7 (NewResolver sample_h [])
    _ (ReadAt no_sum disk_out sample_h sample_up 6 7 (NewResolver sample_h [])).2);
    [exact res_sample_honest | exact (new_inv_clean sample_h sample_img res_sample_wf res_sample_image)
    | reflexivity | lia | lia | reflexivity | apply surjective_pairing].
Defined.

Lemma mem_page_spec_witness :
  (ResolvePage no_sum mem_out sample_h sample_up 8 [xff; xff; xff; xff] (NewResolver sample_h [])).2
    = Ok [x00; x07; xff; xff] ∧
  res_inv sample_h sample_img false
    (ResolvePage no_sum mem_out sample_h sample_up 8 [xff; xff; xff; xff] (NewResolver sample_h [])).1.
Proof.
  split; [vm_compute; reflexivity|].
  apply (mem_page_spec no_sum mem_out sample_h sample_img res_sample_wf sample_up 8 [xff; xff; xff; xff]
    (NewResolver sample_h []) _
    (ResolvePage no_sum mem_out sample_h sample_up 8 [xff; xff; xff; xff] (NewResolver sample_h [])).2);
    [exact res_sample_honest | exact res_sample_image | exact (new_inv sample_h sample_img res_sample_wf [])
    | reflexivity | reflexivity | reflexivity | vm_compute; discriminate | apply surjective_pairing].
Defined.
