(* ===== verification/Streams.v ===== *)
(** The two streaming stacks, assembled: the memory stream
    (agent/internal/memstream: header, shared cache, page resolver) and the
    disk stream (agent/internal/diskstream: header with digests, shared cache,
    range resolver), as instances of the generic components, and the
    end-to-end theorems that tie a stack to the image it was built from. *)

From S2P Require Import Prelude Bytes Chunks Fetch SharedBitmap SharedCache SharedCacheCrash.
From S2P Require MemHeader DiskHeader Resolver.

Module MemStream.
Abbreviation H := MemHeader.Header (only parsing).
(** The memory header records no digest, so the hash is never consulted. *)
Definition no_sum (b : list byte) : list byte := b.

Definition encodeSharedBitmap (h : H) := SharedBitmap.encodeSharedBitmap MemSharedMagic h.
Definition readSharedBitmap (h : H) := SharedBitmap.readSharedBitmap MemSharedMagic h.
Definition OpenSharedCache (h : H) := SharedCache.OpenSharedCache MemSharedMagic h.
Definition fetchChunk (h : H) := SharedCache.fetchChunk no_sum h.
Definition ensureChunk (h : H) := SharedCache.ensureChunk no_sum h.
Definition EnsureChunk (h : H) := SharedCache.EnsureChunk no_sum h.
Definition ReadAt (h : H) := SharedCache.ReadAt no_sum h.
Definition Flush (h : H) := SharedCache.Flush MemSharedMagic h.

Definition NewResolver (h : H) := Resolver.NewResolver h.
Definition resolver_fetchChunk (h : H) := Resolver.fetchChunk no_sum h.
Definition resolver_ensureChunk (h : H) := Resolver.ensureChunk no_sum Resolver.mem_out h.
Definition resolver_EnsureChunk (h : H) := Resolver.EnsureChunk no_sum Resolver.mem_out h.
Definition ResolvePage (h : H) := Resolver.ResolvePage no_sum Resolver.mem_out h.
End MemStream.

Module DiskStream.
Abbreviation H := DiskHeader.Header (only parsing).

Section Stream.
Variable Sum256 : list byte → list byte.

Definition encodeSharedBitmap (h : H) := SharedBitmap.encodeSharedBitmap DiskSharedMagic h.
Definition readSharedBitmap (h : H) := SharedBitmap.readSharedBitmap DiskSharedMagic h.
Definition OpenSharedCache (h : H) := SharedCache.OpenSharedCache DiskSharedMagic h.
Definition fetchChunk (h : H) := SharedCache.fetchChunk Sum256 h.
Definition ensureChunk (h : H) := SharedCache.ensureChunk Sum256 h.
Definition EnsureChunk (h : H) := SharedCache.EnsureChunk Sum256 h.
Definition ReadAt (h : H) := SharedCache.ReadAt Sum256 h.
Definition Flush (h : H) := SharedCache.Flush DiskSharedMagic h.

Definition NewResolver (h : H) := Resolver.NewResolver h.
Definition resolver_fetchChunk (h : H) := Resolver.fetchChunk Sum256 h.
Definition resolver_ensureChunk (h : H) := Resolver.ensureChunk Sum256 Resolver.disk_out h.
Definition resolver_EnsureChunk (h : H) := Resolver.EnsureChunk Sum256 Resolver.disk_out h.
Definition resolver_ReadAt (h : H) := Resolver.ReadAt Sum256 Resolver.disk_out h.
End Stream.
End DiskStream.

Section DiskEndToEnd.
Variable Sum256 : list byte → list byte.
Variable f : list byte.
Variable chunkSize : Z.
Context (Hfit : fits f chunkSize).
Let h := DiskHeader.BuildHeader Sum256 f chunkSize.

(** No other content of the same length collides with a chunk of the image. *)
Definition collision_free : Prop :=
  ∀ (i : nat) b, Z.of_nat i < NumChunks h → length b = chunk_len h i →
    Sum256 b = Sum256 (chunk_bytes h f i) → b = chunk_bytes h f i.

Lemma disk_total : TotalSize h = Z.of_nat (length f).
Proof using Hfit. by destruct (DiskHeader.disk_build_fields Sum256 f chunkSize Hfit) as (_ & ? & _). Qed.

Lemma disk_image_of : image_of h f.
Proof using Hfit.
  pose proof disk_total as Ht.
  assert (Hl : length f = Z.to_nat (TotalSize h)) by (rewrite Ht; lia).
  split; [exact Hl|]. intros i Hi Hp.
  by apply (DiskHeader.disk_build_absent Sum256 f chunkSize i Hfit Hi).
Qed.

(** With a collision-free hash every upstream is honest. *)
Lemma disk_always_honest o : collision_free → honest Sum256 h f o.
Proof using Hfit.
  intros Hcf i got Hi Hp _ Hlen Hv.
  destruct (DiskHeader.disk_build_spec Sum256 f chunkSize i Hfit Hi) as [_ Hs]. fold h in Hs.
  unfold verify in Hv. rewrite Nat2Z.id in Hv. cbn [ChunkSum DiskHeader.disk_stream] in Hv. rewrite Hs in Hv.
  rewrite bool_decide_eq_false_2 in Hv.
  - apply bool_decide_eq_true in Hv. by apply Hcf.
  - intros Hz. apply (DiskHeader.disk_build_absent Sum256 f chunkSize i Hfit Hi) in Hz.
    fold h in Hz. congruence.
Qed.

(** C1. A tampered object store cannot corrupt a guest disk.  Build the
    header from an image, and let the upstream answer anything at all, the
    local writes fail at will, fetches and flushes interleave and the
    machine lose power at any point: provided no other content collides with
    a chunk's digest, every range whose chunks the shared cache holds reads
    as the original image. *)
Theorem disk_cache_tamper_proof (s : sys) (off len : nat) :
  collision_free →
  reachable DiskSharedMagic Sum256 h (λ _, True) s →
  (0 < len)%nat → (off + len ≤ length f)%nat →
  span_cached h (s_cache s) (Z.of_nat off) (Z.of_nat off + Z.of_nat len) →
  slice off len (c_data (s_cache s)) = slice off len f.
Proof using Hfit.
  intros Hcf Hr Hlen Hle Hsp.
  assert (Hwf : wf_geom h) by by apply DiskHeader.disk_build_wf.
  assert (Henv : ∀ o, True → honest Sum256 h f o) by (intros; by apply disk_always_honest).
  pose proof (reachable_inv DiskSharedMagic Sum256 h f (λ _, True) eq_refl Hwf disk_image_of Henv s Hr) as Hs.
  apply (read_cached h f Hwf); [apply (si_cache _ _ _ Hs)| |done|done].
  rewrite disk_total. lia.
Qed.

(** The same for the device's own resolver: a read by the NBD server over
    a resolver opened on a fresh file returns the image's bytes and zeros
    past its end, or fails, whatever the source below it answers. *)
Theorem disk_resolver_tamper_proof (os : list (io * nat * nat)) :
  collision_free →
  let run := foldl (λ r x, let '(o, len, off) := x in
                           (DiskStream.resolver_ReadAt Sum256 h o len (Z.of_nat off) r).1)
                   (DiskStream.NewResolver h []) os in
  ∀ o (len off : nat), (0 < len)%nat → Z.of_nat len < 2 ^ 62 → (off < length f)%nat →
    Forall (λ x, (0 < x.1.2)%nat ∧ Z.of_nat x.1.2 < 2 ^ 62 ∧ (x.2 < length f)%nat) os →
    match (DiskStream.resolver_ReadAt Sum256 h o len (Z.of_nat off) run).2 with
    | Ok (n, dst) => dst = slice off (Z.to_nat n) f ++ replicate (len - Z.to_nat n) x00 ∧
                     n = Z.of_nat (Nat.min len (length f - off))
    | Err _ => True
    end.
Proof using Hfit.
  intros Hcf run o len off Hl Hl2 Ho Hos.
  assert (Hwf : wf_geom h) by by apply DiskHeader.disk_build_wf.
  pose proof disk_total as Ht.
  assert (Hread : ∀ r o len off, Resolver.res_inv h f true r ∧ Resolver.r_inflight r = ∅ →
    (0 < len)%nat → Z.of_nat len < 2 ^ 62 → (off < length f)%nat → 
    let '(r', a) := DiskStream.resolver_ReadAt Sum256 h o len (Z.of_nat off) r in
    (Resolver.res_inv h f true r' ∧ Resolver.r_inflight r' = ∅) ∧
    match a with
    | Ok (n, dst) => n = Z.of_nat (Resolver.avail h off len) ∧
        dst = slice off (Resolver.avail h off len) f ++ replicate (len - Resolver.avail h off len) x00
    | Err _ => True
    end).
  { intros r o' len' off' [Hi Hn] H1 H2 H3.
    destruct (DiskStream.resolver_ReadAt Sum256 h o' len' (Z.of_nat off') r) as [r' a] eqn:Hr.
    destruct (Resolver.disk_read_aux Sum256 Resolver.disk_out h f Hwf o' len' off' r r' a)
      as (G1 & G2 & _ & G3); [by apply disk_always_honest|done|done|done|done|lia|done|].
    split; [done|]. destruct a as [[n dst]|]; [|done]. by destruct G3 as (-> & _ & ->). }
  assert (Hinv : Resolver.res_inv h f true run ∧ Resolver.r_inflight run = ∅).
  { subst run. assert (H0 : Resolver.res_inv h f true (DiskStream.NewResolver h []) ∧
      Resolver.r_inflight (DiskStream.NewResolver h []) = ∅).
    { split; [apply Resolver.new_inv_clean; [done|apply disk_image_of]|done]. }
    revert H0. generalize (DiskStream.NewResolver h []).
    induction Hos as [|[[o' len'] off'] os (H1 & H2 & H3) _ IH]; intros r Hr; simpl; [done|].
    apply IH. specialize (Hread r o' len' off' Hr H1 H2 H3).
    destruct (DiskStream.resolver_ReadAt _ _ _ _ _ r). apply Hread. }
  specialize (Hread run o len off Hinv Hl Hl2 Ho).
  destruct (DiskStream.resolver_ReadAt _ _ _ _ _ run) as [r' [[n dst]|e]]; [|done]. simpl.
  destruct Hread as (_ & -> & ->). rewrite Nat2Z.id. split; [done|].
  unfold Resolver.avail. rewrite Ht. f_equal. lia.
Qed.
End DiskEndToEnd.

(** ** Witnesses: an injective digest, and an upstream that lies *)

Definition id_sum (b : list byte) : list byte := b.
Definition img : list byte := DiskHeader.sample_file.
Definition lying : io := {| io_read := λ _ len, Ok (replicate (Z.to_nat len) xff); io_wfault := λ _, None |}.
Definition truthful : io :=
  {| io_read := λ off len, Ok (slice (Z.to_nat off) (Z.to_nat len) img); io_wfault := λ _, None |}.

Lemma img_fits : fits img 4.
Proof. split; vm_compute; reflexivity. Qed.

Lemma id_collision_free : collision_free id_sum img 4.
Proof.
  assert (Hid : ∀ x, id_sum x = x) by done.
  intros i b _ _ Hb. by rewrite (Hid b), (Hid (chunk_bytes _ _ _)) in Hb.
Qed.

(** The lying upstream answers for chunk 2, is rejected, and the goroutine ends. *)
Definition w_h := DiskHeader.BuildHeader id_sum img 4.
Definition w_lied : sys :=
  let c := DiskStream.OpenSharedCache w_h [] None in
  {| s_cache := (DiskStream.EnsureChunk id_sum w_h lying 2 c).1; s_pc := ∅; s_flush := FIdle;
     s_unsynced := {[2%nat]} ∪ ∅; s_hist := [] |}.

Lemma w_lied_reached : reachable DiskSharedMagic id_sum w_h (λ _, True) w_lied.
Proof.
  eapply rtc_l; [eapply (SBegin _ _ _ _ _ 2%nat); vm_compute; reflexivity|].
  eapply rtc_l; [eapply (SFetch _ _ _ _ _ 2%nat lying); [reflexivity | exact I | vm_compute; reflexivity]|].
  eapply rtc_l; [eapply (SEnd _ _ _ _ _ 2%nat (Some (ErrIntegrity 2))); reflexivity|].
  apply rtc_eq. vm_compute. reflexivity.
Qed.

Lemma disk_cache_tamper_proof_witness :
  c_verifyErr (s_cache w_lied) = 1 ∧ slice 4 4 (c_data (s_cache w_lied)) = slice 4 4 img.
Proof.
  split; [vm_compute; reflexivity|].
  apply (disk_cache_tamper_proof id_sum img 4 img_fits w_lied 4 4 id_collision_free w_lied_reached);
    [lia | vm_compute; lia |].
  intros i Hi. change (chunk_span _ _ _) with [1] in Hi. apply list_elem_of_singleton in Hi.
  assert (i = 1%nat) as -> by lia. vm_compute. discriminate.
Defined.

Lemma disk_resolver_tamper_proof_witness :
  let r := (DiskStream.resolver_ReadAt id_sum w_h lying 4 8 (DiskStream.NewResolver w_h [])).1 in
  (DiskStream.resolver_ReadAt id_sum w_h lying 4 8 r).2 = Err (ErrIntegrity 2) ∧
  (DiskStream.resolver_ReadAt id_sum w_h truthful 4 8 r).2 = Ok (2, [x00; x07; x00; x00]) ∧
  [x00; x07; x00; x00] = slice 8 2 img ++ replicate 2 x00.
Proof.
  intros r.
  assert (E : (DiskStream.resolver_ReadAt id_sum w_h truthful 4 8 r).2 = Ok (2, [x00; x07; x00; x00]))
    by (vm_compute; reflexivity).
  split; [vm_compute; reflexivity|]. split; [exact E|].
  assert (Hone : Forall (λ x : io * nat * nat, (0 < x.1.2)%nat ∧ Z.of_nat x.1.2 < 2 ^ 62 ∧ (x.2 < length img)%nat)
                   [(lying, 4%nat, 8%nat)]).
  { constructor; [|constructor]. cbn [fst snd]. split; [lia|]. split; [lia|]. vm_compute. lia. }
  pose proof (disk_resolver_tamper_proof id_sum img 4 img_fits [(lying, 4%nat, 8%nat)] id_collision_free
                truthful 4%nat 8%nat ltac:(lia) ltac:(lia) ltac:(vm_compute; lia) Hone) as Hp.
  cbn [foldl] in Hp. fold w_h in Hp. change (Z.of_nat 8) with 8 in Hp. fold r in Hp.
  rewrite E in Hp. exact (proj1 Hp).
Defined.
