(* ===== verification/Float64.v ===== *)
(** Go's [float64]: IEEE 754 binary64, through the Standard Library's
    executable [SpecFloat] (round to nearest even at 53 bits), with the
    conversions the code uses. *)

From Stdlib Require Import Floats.SpecFloat.
From S2P Require Import Prelude.

Definition f64 : Type := spec_float.

Definition f64_of_Z (z : Z) : f64 := binary_normalize 53 1024 z 0 false.
Definition f64_add : f64 → f64 → f64 := SFadd 53 1024.
Definition f64_sub : f64 → f64 → f64 := SFsub 53 1024.
Definition f64_mul : f64 → f64 → f64 := SFmul 53 1024.
Definition f64_div : f64 → f64 → f64 := SFdiv 53 1024.
Definition f64_neg : f64 → f64 := SFopp.
Definition f64_ltb : f64 → f64 → bool := SFltb.
Definition f64_leb : f64 → f64 → bool := SFleb.
Definition f64_zero : f64 := S754_zero false.

(** [int64(x)]: truncation towards zero.  Out of range (and for NaN) Go leaves
    the result to the implementation; amd64 gives the minimal integer. *)
Definition f64_trunc (x : f64) : Z :=
  match x with
  | S754_zero _ => 0
  | S754_finite s m e =>
      let mag := if 0 <=? e then Z.pos m * 2 ^ e else Z.shiftr (Z.pos m) (- e) in
      let v := if s then - mag else mag in
      if (- 2 ^ 63 <=? v) && (v <? 2 ^ 63) then v else - 2 ^ 63
  | _ => - 2 ^ 63
  end.

Lemma f64_trunc_range x : - 2 ^ 63 ≤ f64_trunc x < 2 ^ 63.
Proof.
  unfold f64_trunc. destruct x as [|?| |s m e]; try lia.
  set (v := if s then _ else _). destruct (Z.leb_spec (- 2 ^ 63) v), (Z.ltb_spec v (2 ^ 63)); simpl; lia.
Qed.

(** Comparison is a strict order (the positions of finite numbers and
    infinities; a NaN is below nothing). *)
Lemma f64_ltb_irrefl x : f64_ltb x x = false.
Proof.
  unfold f64_ltb, SFltb, SFcompare. destruct x as [b|b| |b m e]; try done; try by destruct b.
  rewrite Z.compare_refl, Pos.compare_cont_refl. by destruct b.
Qed.
