(* ===== verification/GovSource.v ===== *)
(** The egress governor, agent/internal/diskstream/govsource.go: a lifetime
    cap and a token bucket in front of the object store. *)

From stdpp Require Import relations.
From S2P Require Import Prelude Float64.

Definition DefaultChunkSize : Z := Z.shiftl 1 20.

(** The mutable fields of [govSource], then its configuration; times are
    nanoseconds of the monotonic clock. *)
Record govSource := mkGov {
  rateBps : f64;
  burst : f64;
  tokens : f64;
  last : Z;
  lifetime : Z;
  hardCap : Z;
  softCap : Z;
  throttled : bool;
  gov_fetched : Z;
  capHits : Z;
}.

Definition NewGovSource (rate burstBytes : f64) (hard soft now : Z) : govSource :=
  let b :=
    if f64_leb burstBytes f64_zero then
      if f64_ltb rate (f64_of_Z DefaultChunkSize) then f64_of_Z DefaultChunkSize else rate
    else burstBytes in
  {| rateBps := rate; burst := b; tokens := b; last := now; lifetime := 0; hardCap := hard;
     softCap := soft; throttled := false; gov_fetched := 0; capHits := 0 |}.

(** [Duration.Seconds()]: whole seconds plus the fraction. *)
Definition seconds (d : Z) : f64 :=
  f64_add (f64_of_Z (Z.quot d (10 ^ 9))) (f64_div (f64_of_Z (Z.rem d (10 ^ 9))) (f64_of_Z (10 ^ 9))).

Definition set_bucket (t : f64) (l : Z) (g : govSource) : govSource :=
  {| rateBps := rateBps g; burst := burst g; tokens := t; last := l; lifetime := lifetime g;
     hardCap := hardCap g; softCap := softCap g; throttled := throttled g;
     gov_fetched := gov_fetched g; capHits := capHits g |}.

(** [reserveLocked]: the governor after it, and the wait in nanoseconds. *)
Definition reserveLocked (now : Z) (n : f64) (g : govSource) : govSource * Z :=
  if f64_leb (rateBps g) f64_zero then (g, 0)
  else
    let elapsed := seconds (now - last g) in
    let '(t, l) :=
      if f64_ltb f64_zero elapsed then
        let t := f64_add (tokens g) (f64_mul elapsed (rateBps g)) in
        ((if f64_ltb (burst g) t then burst g else t), now)
      else (tokens g, last g) in
    let t := f64_sub t n in
    (set_bucket t l g,
     if f64_leb f64_zero t then 0
     else f64_trunc (f64_mul (f64_div (f64_neg t) (rateBps g)) (f64_of_Z (10 ^ 9)))).

(** The critical section at the head of [ReadAt]: [None] is the rejection. *)
Definition gov_admit (now n : Z) (g : govSource) : govSource * option Z :=
  if (0 <? hardCap g) && (hardCap g <? i64 (lifetime g + n)) then
    ({| rateBps := rateBps g; burst := burst g; tokens := tokens g; last := last g;
        lifetime := lifetime g; hardCap := hardCap g; softCap := softCap g;
        throttled := throttled g; gov_fetched := gov_fetched g; capHits := capHits g + 1 |}, None)
  else
    let soft := (0 <? softCap g) && negb (throttled g) && (softCap g <? i64 (lifetime g + n)) in
    let g := {| rateBps := rateBps g; burst := burst g; tokens := tokens g; last := last g;
                lifetime := lifetime g; hardCap := hardCap g; softCap := softCap g;
                throttled := soft || throttled g; gov_fetched := gov_fetched g;
                capHits := capHits g |} in
    let '(g, wait) := reserveLocked now (f64_of_Z n) g in (g, Some wait).

(** The critical section after a successful fetch of [read] bytes. *)
Definition gov_account (read : Z) (g : govSource) : govSource :=
  {| rateBps := rateBps g; burst := burst g; tokens := tokens g; last := last g;
     lifetime := i64 (lifetime g + read); hardCap := hardCap g; softCap := softCap g;
     throttled := throttled g; gov_fetched := i64 (gov_fetched g + read); capHits := capHits g |}.

Inductive gov_err := ErrEgressCapExceeded | ErrCanceled | ErrUpstream.

(** What one call meets: the clock, whether the context is done before the
    wait is over, and what the upstream answers. *)
Record gov_env := mkGovEnv {
  ge_now : Z;
  ge_cancel : bool;
  ge_upstream : option Z;
}.

(** [ReadAt] of [n] bytes with no other call in it: the result and whether the
    upstream was asked. *)
Definition ReadAt (e : gov_env) (n : Z) (g : govSource) : govSource * res gov_err Z * bool :=
  if n =? 0 then (g, Ok 0, false)
  else match gov_admit (ge_now e) n g with
  | (g, None) => (g, Err ErrEgressCapExceeded, false)
  | (g, Some wait) =>
      if (0 <? wait) && ge_cancel e then (g, Err ErrCanceled, false)
      else match ge_upstream e with
      | None => (g, Err ErrUpstream, true)
      | Some read => (gov_account read g, Ok read, true)
      end
  end.

(** ** Any number of concurrent calls *)

(** The governor and the sizes of the reads that are past the admission. *)
Record gov_sys := mkGovSys { gs_gov : govSource; gs_inflight : list Z }.

Section Concurrent.
(** At most [k] reads at once, each of at most [m] bytes. *)
Variables (k : nat) (m : Z).

Inductive gov_step (s : gov_sys) : gov_sys → Prop :=
  | GReject now n g :
      0 < n ≤ m → gov_admit now n (gs_gov s) = (g, None) →
      gov_step s {| gs_gov := g; gs_inflight := gs_inflight s |}
  | GAdmit now n g wait :
      0 < n ≤ m → (length (gs_inflight s) < k)%nat →
      gov_admit now n (gs_gov s) = (g, Some wait) →
      gov_step s {| gs_gov := g; gs_inflight := n :: gs_inflight s |}
  | GDone l1 n l2 read :
      gs_inflight s = l1 ++ n :: l2 → 0 ≤ read ≤ n →
      gov_step s {| gs_gov := gov_account read (gs_gov s); gs_inflight := l1 ++ l2 |}
  | GFail l1 n l2 :
      gs_inflight s = l1 ++ n :: l2 →
      gov_step s {| gs_gov := gs_gov s; gs_inflight := l1 ++ l2 |}.

Definition zsum (l : list Z) : Z := foldr Z.add 0 l.

Lemma zsum_app l1 l2 : zsum (l1 ++ l2) = zsum l1 + zsum l2.
Proof. induction l1; simpl; lia. Qed.

Lemma zsum_bound l : Forall (λ n, 0 < n ≤ m) l → 0 ≤ zsum l ≤ Z.of_nat (length l) * m.
Proof. induction 1 as [|n l Hn _ IH]; simpl; lia. Qed.

Lemma reserve_frame now n g :
  lifetime (reserveLocked now n g).1 = lifetime g ∧ hardCap (reserveLocked now n g).1 = hardCap g ∧
  gov_fetched (reserveLocked now n g).1 = gov_fetched g ∧ capHits (reserveLocked now n g).1 = capHits g.
Proof.
  unfold reserveLocked. destruct (f64_leb _ _); [done|]. by destruct (if f64_ltb _ _ then _ else _).
Qed.

Lemma admit_spec now n g :
  0 ≤ lifetime g → 0 ≤ n → lifetime g + n < 2 ^ 63 → 0 < hardCap g →
  match gov_admit now n g with
  | (g', None) => lifetime g' = lifetime g ∧ hardCap g' = hardCap g ∧ hardCap g < lifetime g + n ∧
                  capHits g' = capHits g + 1
  | (g', Some _) => lifetime g' = lifetime g ∧ hardCap g' = hardCap g ∧ lifetime g + n ≤ hardCap g ∧
                    capHits g' = capHits g
  end.
Proof.
  intros Hl Hn Hs Hc. unfold gov_admit. rewrite (i64_small (lifetime g + n)) by lia.
  rewrite (proj2 (Z.ltb_lt 0 (hardCap g))) by done. simpl andb.
  destruct (Z.ltb_spec (hardCap g) (lifetime g + n)); [done|].
  set (g1 := {| rateBps := _ |}). destruct (reserve_frame now (f64_of_Z n) g1) as (H1 & H2 & _ & H4).
  destruct (reserveLocked _ _ g1) as [g2 w]. by split_and!.
Qed.

Variable cap : Z.
Context (Hcap : 0 < cap) (Hm : 0 < m) (Hk : (0 < k)%nat) (Hfit : cap + Z.of_nat k * m < 2 ^ 63).

Definition gov_inv (s : gov_sys) : Prop :=
  hardCap (gs_gov s) = cap ∧ 0 ≤ lifetime (gs_gov s) ∧
  (length (gs_inflight s) ≤ k)%nat ∧ Forall (λ n, 0 < n ≤ m) (gs_inflight s) ∧
  lifetime (gs_gov s) + zsum (gs_inflight s) ≤ cap + (Z.of_nat k - 1) * m.

Lemma gov_step_inv s s' : gov_inv s → gov_step s s' → gov_inv s'.
Proof using Hcap Hm Hk Hfit.
  intros (H1 & H2 & H3 & H4 & H5) Hstep. pose proof (zsum_bound _ H4) as Hz. unfold gov_inv.
  destruct Hstep as [now n g Hn Ha|now n g w Hn Hlt Ha|l1 n l2 read Hl Hr|l1 n l2 Hl]; simpl.
  - pose proof (admit_spec now n (gs_gov s) H2 ltac:(lia) ltac:(nia) ltac:(lia)) as Hs.
    rewrite Ha in Hs. destruct Hs as (E1 & E2 & _). rewrite E1, E2. by split_and!.
  - pose proof (admit_spec now n (gs_gov s) H2 ltac:(lia) ltac:(nia) ltac:(lia)) as Hs.
    rewrite Ha in Hs. destruct Hs as (E1 & E2 & E3 & _). rewrite E1, E2.
    split_and!; [done|done|lia|by constructor|nia].
  - rewrite Hl in *. apply Forall_app in H4 as [F1 F2]. inversion_clear F2.
    pose proof (zsum_bound _ F1). pose proof (zsum_bound l2 ltac:(done)).
    rewrite zsum_app in *. simpl in *. rewrite length_app in *. simpl in *.
    rewrite i64_small by nia. split_and!; [done|lia|rewrite ?length_app; lia|by apply Forall_app|].
    rewrite ?zsum_app. lia.
  - rewrite Hl in *. apply Forall_app in H4 as [F1 F2]. inversion_clear F2.
    rewrite zsum_app in *. simpl in *. rewrite length_app in *. simpl in *.
    split_and!; [done|lia|rewrite ?length_app; lia|by apply Forall_app|].
    rewrite ?zsum_app. lia.
Qed.

(** The egress cap.  From a new governor with a positive hard cap, over
    any interleaving of at most [k] concurrent reads of at most [m] bytes,
    the bytes fetched never exceed the cap by more than [(k-1) * m]; with
    one reader at a time they never exceed it at all. *)
Theorem egress_bound rate b soft now s :
  rtc gov_step {| gs_gov := NewGovSource rate b cap soft now; gs_inflight := [] |} s →
  0 ≤ lifetime (gs_gov s) ≤ cap + (Z.of_nat k - 1) * m.
Proof using Hcap Hm Hk Hfit.
  intros Hr. assert (Hinv : gov_inv s).
  { eapply (rtc_invariant _ gov_inv); [exact gov_step_inv| |exact Hr].
    unfold gov_inv; simpl. split_and!; [done|lia|lia|constructor|nia]. }
  destruct Hinv as (_ & H2 & _ & H4 & H5). pose proof (zsum_bound _ H4). lia.
Qed.
End Concurrent.

(** Two concurrent reads of 60 bytes both pass a 100-byte cap: the counter moves
    only after the fetch, so the cap is checked against neither of them. *)
Lemma two_reads_pass_the_cap :
  let g0 := NewGovSource f64_zero f64_zero 100 0 0 in
  let '(g1, w1) := gov_admit 0 60 g0 in
  let '(g2, w2) := gov_admit 0 60 g1 in
  w1 = Some 0 ∧ w2 = Some 0 ∧ lifetime (gov_account 60 (gov_account 60 g2)) = 120.
Proof. vm_compute. done. Qed.

(** One call at a time.  A read the cap would be passed by is rejected
    without asking the upstream, keeps the counters and is counted; any other
    read asks the upstream at most once, and the counter moves by exactly what
    a successful fetch returned. *)
Theorem gov_read_spec (e : gov_env) (n : Z) (g g' : govSource) r asked :
  0 < n → 0 ≤ lifetime g → lifetime g + n < 2 ^ 63 → 0 < hardCap g →
  (∀ read, ge_upstream e = Some read → 0 ≤ read ≤ n) →
  ReadAt e n g = (g', r, asked) →
  (hardCap g < lifetime g + n →
     r = Err ErrEgressCapExceeded ∧ asked = false ∧ lifetime g' = lifetime g ∧ capHits g' = capHits g + 1) ∧
  (lifetime g + n ≤ hardCap g →
     lifetime g' = lifetime g + match r with Ok read => read | Err _ => 0 end ∧
     lifetime g' ≤ hardCap g' ∧ capHits g' = capHits g ∧ (asked = false → r = Err ErrCanceled)).
Proof.
  intros Hn Hl Hs Hc Hup. unfold ReadAt. rewrite (proj2 (Z.eqb_neq n 0)) by lia.
  pose proof (admit_spec (ge_now e) n g Hl ltac:(lia) Hs Hc) as Ha.
  destruct (gov_admit _ n g) as [g1 [w|]].
  2:{ destruct Ha as (H1 & H2 & H3 & H4). intros [= <- <- <-]. split; [by repeat split; lia|lia]. }
  destruct Ha as (H1 & H2 & H3 & H4). intros Hr. split; [lia|]. intros _.
  destruct ((0 <? w) && ge_cancel e).
  { injection Hr as <- <- <-. repeat split; lia. }
  destruct (ge_upstream e) as [read|] eqn:Hu; injection Hr as <- <- <-; simpl.
  - specialize (Hup read eq_refl). rewrite i64_small by lia. repeat split; (lia || done).
  - repeat split; (lia || done).
Qed.

(** ** Witnesses *)

Lemma egress_bound_witness :
  rtc (gov_step 2 60) {| gs_gov := NewGovSource f64_zero f64_zero 100 0 0; gs_inflight := [] |}
    {| gs_gov := NewGovSource f64_zero f64_zero 100 0 0; gs_inflight := [60] |} ∧
  0 ≤ lifetime (NewGovSource f64_zero f64_zero 100 0 0) ≤ 100 + (2 - 1) * 60.
Proof.
  assert (Hr : rtc (gov_step 2 60)
    {| gs_gov := NewGovSource f64_zero f64_zero 100 0 0; gs_inflight := [] |}
    {| gs_gov := NewGovSource f64_zero f64_zero 100 0 0; gs_inflight := [60] |}).
  { apply rtc_once. apply (GAdmit 2 60 (mkGovSys (NewGovSource f64_zero f64_zero 100 0 0) []) 0 60
      (NewGovSource f64_zero f64_zero 100 0 0) 0); [lia | simpl; lia | vm_compute; reflexivity]. }
  split; [exact Hr|].
  apply (egress_bound 2 60 100 ltac:(lia) ltac:(lia) ltac:(lia) ltac:(lia) f64_zero f64_zero 0 0 _ Hr).
Defined.

Lemma gov_read_spec_witness :
  let e := {| ge_now := 5; ge_cancel := false; ge_upstream := Some 60 |} in
  let r := ReadAt e 60 (NewGovSource f64_zero f64_zero 100 0 0) in
  let r2 := ReadAt e 60 r.1.1 in
  lifetime r.1.1 = 60 ∧ r2.1.2 = Err ErrEgressCapExceeded ∧ r2.2 = false.
Proof.
  intros e r r2. split; [vm_compute; reflexivity|].
  destruct (gov_read_spec e 60 r.1.1 r2.1.1 r2.1.2 r2.2) as [H1 _];
    [lia | vm_compute; discriminate | vm_compute; reflexivity | vm_compute; reflexivity
    | intros read [= <-]; lia | vm_compute; reflexivity |].
  destruct H1 as (H2 & H3 & _); [vm_compute; reflexivity|]. by split.
Defined.
