(* ===== verification/VsockWire.v ===== *)
(** The framed host/guest protocol, agent/internal/guest/vsockwire/proto.go:
    opcodes, [WriteFrame] and [ReadFrame]. *)

From S2P Require Import Prelude.

(** "PD" *)
Definition Magic : list byte := [x50; x44].
Definition MaxPayload : Z := Z.shiftl 16 20.
Definition headerLen : nat := 7.

(** [Op] is a uint8; the named operations are these values of it. *)
Definition Op : Type := byte.
Definition OpHello : Op := x01.
Definition OpExec : Op := x02.
Definition OpReadFile : Op := x03.
Definition OpWriteFile : Op := x04.
Definition OpDelete : Op := x05.
Definition OpList : Op := x06.
Definition OpStat : Op := x07.
Definition OpError : Op := xff.

Inductive wire_err :=
  | ErrMarshal
  | ErrPayloadTooLarge
  | ErrWrite
  | ErrEOF
  | ErrUnexpectedEOF
  | ErrBadMagic.

(** [WriteFrame(w, op, v)]: [payload] is what marshalling [v] gives, [fail] the
    write ([false]: header, [true]: payload) that fails, if one does.  The
    bytes the writer has accepted, and the result. *)
Definition WriteFrame (payload : option (list byte)) (fail : option bool) (op : Op)
    : list byte * option wire_err :=
  match payload with
  | None => ([], Some ErrMarshal)
  | Some payload =>
      if MaxPayload <? Z.of_nat (length payload) then ([], Some ErrPayloadTooLarge)
      else
        let hdr := Magic ++ [op] ++ be_bytes 4 (u32 (Z.of_nat (length payload))) in
        match fail with
        | Some false => ([], Some ErrWrite)
        | Some true => (hdr, Some ErrWrite)
        | None => (hdr ++ payload, None)
        end
  end.

(** [io.ReadFull] of [n] bytes from a stream that ends after [l]. *)
Definition ReadFull (n : nat) (l : list byte) : res wire_err (list byte * list byte) :=
  if (n =? 0)%nat then Ok ([], l)
  else match l with
  | [] => Err ErrEOF
  | _ => if (length l <? n)%nat then Err ErrUnexpectedEOF else Ok (take n l, drop n l)
  end.

(** [ReadFrame]: opcode, payload, and what is left of the stream. *)
Definition ReadFrame (l : list byte) : res wire_err (Op * list byte * list byte) :=
  try p := ReadFull headerLen l in
  let '(hdr, l) := p in
  check bool_decide (take 2 hdr = Magic) else ErrBadMagic in
  let op := nth 2 hdr x00 in
  let n := be_val (drop 3 hdr) in
  check negb (MaxPayload <? n) else ErrPayloadTooLarge in
  try p := ReadFull (Z.to_nat n) l in
  let '(payload, l) := p in Ok (op, payload, l).

(** ** The codec *)

Definition frame (op : Op) (payload : list byte) : list byte :=
  Magic ++ [op] ++ be_bytes 4 (Z.of_nat (length payload)) ++ payload.

Lemma ReadFull_app n (l rest : list byte) : length l = n → ReadFull n (l ++ rest) = Ok (l, rest).
Proof.
  intros <-. unfold ReadFull. destruct l as [|b l]; [done|]. simpl Nat.eqb. cbv iota.
  rewrite <- app_comm_cons. rewrite (proj2 (Nat.ltb_ge _ _)) by (simpl; rewrite length_app; lia).
  rewrite app_comm_cons, take_app_length, drop_app_length. done.
Qed.

Lemma ReadFull_Ok n l p : ReadFull n l = Ok p → l = p.1 ++ p.2 ∧ length p.1 = n.
Proof.
  unfold ReadFull. destruct (Nat.eqb_spec n 0) as [->|]; [by intros [= <-]|].
  destruct l as [|b l]; [done|]. destruct (Nat.ltb_spec (length (b :: l)) n); [done|].
  intros [= <-]. simpl fst. simpl snd. rewrite take_drop, length_take. split; [done|lia].
Qed.

Lemma MaxPayload_val : MaxPayload = 16777216.
Proof. done. Qed.

Lemma read_frame_app (op : Op) (payload rest : list byte) :
  Z.of_nat (length payload) ≤ MaxPayload →
  ReadFrame (frame op payload ++ rest) = Ok (op, payload, rest).
Proof.
  rewrite MaxPayload_val. intros Hp. unfold ReadFrame, frame. rewrite <- !app_assoc.
  rewrite (app_assoc Magic), (app_assoc (Magic ++ [op])).
  rewrite ReadFull_app by (by rewrite !length_app, length_be_bytes).
  cbn [res_bind]. rewrite bool_decide_eq_true_2 by done. cbn [Magic app nth drop]. rewrite ?drop_0.
  rewrite be_val_bytes by (simpl Z.pow; lia). rewrite MaxPayload_val.
  rewrite (proj2 (Z.ltb_ge 16777216 _)) by done. cbn [negb].
  by rewrite Nat2Z.id, ReadFull_app.
Qed.

Lemma read_frame_inv (l : list byte) (op : Op) (payload rest : list byte) :
  ReadFrame l = Ok (op, payload, rest) →
  l = frame op payload ++ rest ∧ Z.of_nat (length payload) ≤ MaxPayload.
Proof.
  unfold ReadFrame, frame. rewrite MaxPayload_val.
  rewrite res_bind_Ok. intros ([hdr l1] & H1%ReadFull_Ok & H2). simpl in H1. destruct H1 as [-> Hh].
  case_bool_decide as Hm; [|done].
  destruct (Z.ltb_spec 16777216 (be_val (drop 3 hdr))); [done|]. simpl negb in H2. cbv iota in H2.
  apply res_bind_Ok in H2 as ([p l2] & H3%ReadFull_Ok & [= <- <- <-]). simpl in H3.
  destruct H3 as [-> Hp].
  pose proof (be_val_range (drop 3 hdr)). rewrite Hp. split; [|lia].
  rewrite Z2Nat.id by lia. rewrite !app_assoc. f_equal. f_equal.
  destruct hdr as [|a [|b [|c hdr]]]; try done. simpl in Hm, Hh |- *.
  injection Hm as -> ->. do 3 f_equal. rewrite drop_0. injection Hh as Hh. rewrite <- Hh.
  symmetry. apply be_bytes_val.
Qed.

(** The frames are self-delimiting.  [ReadFrame] accepts a stream exactly
    when it starts with the frame of some opcode and some payload of at most
    [MaxPayload] bytes, and returns that opcode, that payload and the rest of
    the stream: no accepted length is ever above the bound, and two different
    messages never have the same bytes. *)
Theorem read_frame_iff (l : list byte) (op : Op) (payload rest : list byte) :
  ReadFrame l = Ok (op, payload, rest) ↔
  l = frame op payload ++ rest ∧ Z.of_nat (length payload) ≤ MaxPayload.
Proof. split; [apply read_frame_inv | intros [-> ?]; by apply read_frame_app]. Qed.

(** What one side writes the other reads.  A frame written without an
    error is read back as the same opcode and payload, with exactly its own
    bytes consumed; a payload above the bound writes nothing; and whatever a
    failed write leaves on the wire is never read as a frame. *)
Theorem write_read_frame (payload : list byte) (fail : option bool) (op : Op) out r rest :
  WriteFrame (Some payload) fail op = (out, r) →
  (r = None → ReadFrame (out ++ rest) = Ok (op, payload, rest)) ∧
  (MaxPayload < Z.of_nat (length payload) → out = [] ∧ r = Some ErrPayloadTooLarge) ∧
  (r ≠ None → payload ≠ [] → ∃ e, ReadFrame out = Err e).
Proof.
  unfold WriteFrame. destruct (Z.ltb_spec MaxPayload (Z.of_nat (length payload))) as [|Hle].
  { intros [= <- <-]. split_and!; [done..|]. intros _ _. by eexists. }
  rewrite MaxPayload_val in Hle. rewrite u32_small by lia.
  destruct fail as [[]|]; intros [= <- <-]; (split; [|split]); try done; try (rewrite MaxPayload_val; lia).
  - intros _ Hne. destruct (ReadFrame _) as [[[op' p'] rest']|e] eqn:Hr; [|by eexists].
    apply read_frame_inv in Hr as [Hl _]. exfalso. apply Hne.
    unfold frame in Hl. rewrite <- !app_assoc in Hl. apply (f_equal (drop 3)) in Hl.
    cbn [Magic app drop] in Hl. rewrite ?drop_0 in Hl.
    apply (f_equal (take 4)) in Hl as Ht. rewrite take_ge, take_app_length' in Ht by (by rewrite length_be_bytes).
    apply (f_equal be_val) in Ht. apply (f_equal length) in Hl.
    rewrite !length_app, !length_be_bytes in Hl.
    assert (p' = []) as -> by (destruct p'; [done|simpl in Hl; lia]).
    rewrite !be_val_bytes in Ht by (simpl Z.pow; simpl length; lia).
    destruct payload; [done|]. simpl in Ht. lia.
  - intros _ _. by eexists.
  - intros _. rewrite <- (read_frame_app op payload rest); [|by rewrite MaxPayload_val]. unfold frame.
    by rewrite <- !app_assoc.
Qed.

(** ** Witnesses *)

Definition w_out : list byte := [x50; x44; x02; x00; x00; x00; x02; x7b; x7d].

Lemma write_read_frame_witness :
  WriteFrame (Some [x7b; x7d]) None OpExec = (w_out, None) ∧
  ReadFrame (w_out ++ [x50]) = Ok (OpExec, [x7b; x7d], [x50]).
Proof.
  assert (Hw : WriteFrame (Some [x7b; x7d]) None OpExec = (w_out, None)) by (vm_compute; reflexivity).
  split; [exact Hw|]. by apply (write_read_frame _ None OpExec w_out None [x50] Hw).
Defined.
