(* ===== verification/SlotStore.v ===== *)
(** The network-slot allocator, agent/internal/slotstore/slotstore.go: the
    table [network_slots], its SQL statements and the operations built of
    them.  Each operation is one transaction on the single connection, so the
    operations of concurrent callers are a sequence; a statement or commit
    that fails leaves the table as it was (SQLite's atomicity) and is not
    modelled. *)

From S2P Require Import Prelude.

Open Scope string_scope.
Open Scope list_scope.
Open Scope Z_scope.

(** One row; its [idx] is its position (rows are only ever inserted by [Seed],
    from 0 up, and never deleted). *)
Record row := mkRow {
  owner : option string;
  kind : string;
  claimed_at : option Z;
}.

#[export] Instance row_eq_dec : EqDecision row.
Proof. solve_decision. Defined.

Abbreviation table := (list row) (only parsing).
Definition free_row : row := {| owner := None; kind := ""; claimed_at := None |}.

Inductive slot_err := ErrEmptyID | ErrPoolExhausted | ErrTaken (idx : nat).

(** ** SQL *)

(** [UPDATE network_slots SET f WHERE p]: the table and [RowsAffected]. *)
Definition update_where (p : nat → row → bool) (f : row → row) (t : table) : table * Z :=
  (imap (λ i r, if p i r then f r else r) t,
   Z.of_nat (length (filter (λ b, b = true) (imap p t)))).

(** [SELECT idx FROM network_slots WHERE p LIMIT 1], in index order. *)
Definition select_first (p : row → bool) (t : table) : option nat :=
  fst <$> list_find (λ r, p r = true) t.

Definition owned_by (id : string) (r : row) : bool := bool_decide (owner r = Some id).
Definition is_free (r : row) : bool := bool_decide (owner r = None).

Definition take_row (now : Z) (id kd : string) (r : row) : row :=
  {| owner := Some id; kind := kd; claimed_at := Some now |}.

(** [INSERT OR IGNORE INTO network_slots (idx, ...) VALUES (i, NULL, '', NULL)]. *)
Definition insert_or_ignore (t : table) (i : nat) : table :=
  if (i <? length t)%nat then t else t ++ [free_row].

(** ** The operations *)

(** [strings.Contains] *)
Fixpoint contains (sub s : string) : bool :=
  String.prefix sub s || match s with EmptyString => false | String _ s => contains sub s end.

Definition guardBootDiskPath (path : string) : bool :=
  negb (contains "/var/lib/pandastack/volumes" path).

Definition Seed (capacity : nat) (t : table) : table :=
  if (capacity =? 0)%nat then t
  else if (capacity <=? length t)%nat then t
  else foldl insert_or_ignore t (seq 0 capacity).

Definition claim_free (now : Z) (id : nat → string) (kd : string) (t : table) : table * res slot_err nat :=
  match select_first is_free t with
  | None => (t, Err ErrPoolExhausted)
  | Some idx =>
      let '(t', n) := update_where (λ i r, (i =? idx)%nat && is_free r) (take_row now (id idx) kd) t in
      if negb (n =? 1) then (t, Err (ErrTaken idx)) else (t', Ok idx)
  end.

Definition Claim (now : Z) (id kd : string) (t : table) : table * res slot_err nat :=
  if String.eqb id "" then (t, Err ErrEmptyID)
  else match select_first (owned_by id) t with
  | Some existing => (t, Ok existing)
  | None => claim_free now (λ _, id) kd t
  end.

(** [%08x]: the eight low hex digits, most significant first. *)
Definition hex_digit (d : Z) : Ascii.ascii :=
  match String.get (Z.to_nat d) "0123456789abcdef" with Some c => c | None => Ascii.zero end.
Fixpoint hex (n : nat) (z : Z) : string :=
  match n with
  | O => ""
  | S n => String (hex_digit ((z / 16 ^ Z.of_nat n) mod 16)) (hex n z)
  end.

Definition PrebuiltOwner (idx : nat) : string := String.append "prebuilt:" (hex 8 (u32 (Z.of_nat idx))).

Definition ClaimPrebuilt (now : Z) (kd : string) (t : table) : table * res slot_err nat :=
  claim_free now PrebuiltOwner kd t.

Definition ClaimIdx (now : Z) (id kd : string) (idx : nat) (t : table) : table * res slot_err bool :=
  if String.eqb id "" then (t, Err ErrEmptyID)
  else
    let '(t, n) := update_where (λ i r, (i =? idx)%nat && (is_free r || owned_by id r)) (take_row now id kd) t in
    (t, Ok (n =? 1)).

Definition Reassign (now : Z) (fromOwner toOwner kd : string) (idx : nat) (t : table)
    : table * res slot_err bool :=
  if String.eqb toOwner "" then (t, Err ErrEmptyID)
  else
    let '(t, n) := update_where (λ i r, (i =? idx)%nat && owned_by fromOwner r) (take_row now toOwner kd) t in
    (t, Ok (n =? 1)).

Definition Release (id : string) (t : table) : table * bool :=
  if String.eqb id "" then (t, false)
  else let '(t, n) := update_where (λ _ r, owned_by id r) (λ _, free_row) t in (t, n =? 1).

Definition OwnerIdx (id : string) (t : table) : option nat := select_first (owned_by id) t.

(** [Reconcile]: the scan, then one update per orphan. *)
Definition orphan_row (live : gset string) (r : row) : bool :=
  match owner r with Some o => bool_decide (o ∉ live) | None => false end.

Definition orphans (live : gset string) (t : table) : list nat :=
  filter (λ i, default false (orphan_row live <$> t !! i) = true) (seq 0 (length t)).

Definition free_idx (t : table) (idx : nat) : table :=
  (update_where (λ i _, (i =? idx)%nat) (λ _, free_row) t).1.

Definition Reconcile (live : gset string) (t : table) : table * Z :=
  let os := orphans live t in (foldl free_idx t os, Z.of_nat (length os)).

Record stats := mkStats { Capacity : Z; Free : Z; Used : Z }.

Definition Stats (t : table) : stats :=
  let c := Z.of_nat (length t) in
  let f := Z.of_nat (length (filter (λ r, owner r = None) t)) in
  {| Capacity := c; Free := f; Used := c - f |}.

(** ** Lemmas about the SQL *)

Lemma update_lookup p f t i :
  (update_where p f t).1 !! i = (λ r, if p i r then f r else r) <$> t !! i.
Proof. apply list_lookup_imap. Qed.

Lemma update_length p f t : length (update_where p f t).1 = length t.
Proof. apply length_imap. Qed.

Lemma filter_true_none (l : list bool) :
  (∀ i, l !! i ≠ Some true) → filter (λ b, b = true) l = [].
Proof.
  intros Hn. induction l as [|b l IH]; [done|]. rewrite filter_cons_False.
  - apply IH. intros i. apply (Hn (S i)).
  - intros ->. by apply (Hn 0%nat).
Qed.

(** The rows an update touches, counted: none, or exactly one. *)
Lemma update_affected_0 p f t :
  (∀ i r, t !! i = Some r → p i r = false) → update_where p f t = (t, 0).
Proof.
  intros Hp. unfold update_where. f_equal.
  - apply list_eq. intros i. rewrite list_lookup_imap. destruct (t !! i) as [r|] eqn:Hr; [|done].
    simpl. by rewrite (Hp i r Hr).
  - rewrite filter_true_none; [done|]. intros i. rewrite list_lookup_imap.
    destruct (t !! i) as [r|] eqn:Hr; [|done]. simpl. by rewrite (Hp i r Hr).
Qed.

Lemma filter_true_one (l : list bool) k :
  l !! k = Some true → (∀ i, l !! i = Some true → i = k) → length (filter (λ b, b = true) l) = 1%nat.
Proof.
  revert k. induction l as [|b l IH]; intros k Hk Hu; [done|]. destruct k as [|k]; simpl in Hk.
  - injection Hk as ->. rewrite filter_cons_True by done. simpl.
    rewrite filter_true_none; [done|]. intros i Hi. specialize (Hu (S i) Hi). lia.
  - rewrite filter_cons_False.
    + apply (IH k); [done|]. intros i Hi. specialize (Hu (S i) Hi). lia.
    + intros ->. specialize (Hu 0%nat eq_refl). lia.
Qed.

Lemma update_affected_1 p f t k r :
  t !! k = Some r → p k r = true → (∀ i r, t !! i = Some r → p i r = true → i = k) →
  update_where p f t = (<[k := f r]> t, 1).
Proof.
  intros Hk Hp Hu. unfold update_where. f_equal.
  - apply list_eq. intros i. rewrite list_lookup_imap. destruct (decide (i = k)) as [->|Hik].
    + rewrite list_lookup_insert_eq by (by eapply lookup_lt_Some). rewrite Hk. simpl. by rewrite Hp.
    + rewrite list_lookup_insert_ne by done. destruct (t !! i) as [r'|] eqn:Hr; [|done]. simpl.
      destruct (p i r') eqn:Hpi; [|done]. by destruct Hik; eapply Hu.
  - rewrite (filter_true_one _ k); [done| |].
    + rewrite list_lookup_imap, Hk. simpl. by rewrite Hp.
    + intros i. rewrite list_lookup_imap. destruct (t !! i) as [r'|] eqn:Hr; [|done].
      simpl. intros [= Hpi]. by eapply Hu.
Qed.

Lemma select_first_Some p t i :
  select_first p t = Some i ↔
  ∃ r, t !! i = Some r ∧ p r = true ∧ ∀ j r', t !! j = Some r' → (j < i)%nat → p r' = false.
Proof.
  unfold select_first. split.
  - intros ([j r] & (Hr & Hp & Hl)%list_find_Some & ->)%fmap_Some. simpl. exists r. split_and!; try done.
    intros j' r' Hr' Hj'. apply not_true_iff_false. by eapply Hl.
  - intros (r & Hr & Hp & Hl). apply fmap_Some. exists (i, r). split; [|done].
    apply list_find_Some. split_and!; try done. intros j' r' Hr' Hj'. by rewrite (Hl j' r').
Qed.

Lemma select_first_None p t :
  select_first p t = None ↔ ∀ i r, t !! i = Some r → p r = false.
Proof.
  unfold select_first. rewrite fmap_None, list_find_None, Forall_lookup. split.
  - intros Hf i r Hr. apply not_true_iff_false. by apply (Hf i).
  - intros Hf i r Hr. rewrite (Hf i r) by done. done.
Qed.

(** ** The ownership invariant *)

(** Sandbox ids never look like the sentinel of a pre-built slot. *)
Definition sandbox_id (id : string) : Prop := id ≠ "" ∧ ∀ i, id ≠ PrebuiltOwner i.

Record slots_ok (t : table) : Prop := {
  so_size : Z.of_nat (length t) ≤ 2 ^ 32;
  so_unique : ∀ i j r r' o, t !! i = Some r → t !! j = Some r' →
    owner r = Some o → owner r' = Some o → i = j;
  so_prebuilt : ∀ i j r, t !! i = Some r → owner r = Some (PrebuiltOwner j) →
    Z.of_nat j < 2 ^ 32 → i = j;
}.

Lemma hex_digit_inj a b : 0 ≤ a < 16 → 0 ≤ b < 16 → hex_digit a = hex_digit b → a = b.
Proof.
  intros Ha Hb. unfold hex_digit.
  assert (Hin : ∀ z, 0 ≤ z < 16 → ∃ n : nat, z = Z.of_nat n ∧ (n < 16)%nat).
  { intros z Hz. exists (Z.to_nat z). lia. }
  destruct (Hin a Ha) as (m & -> & Hm), (Hin b Hb) as (n & -> & Hn). rewrite !Nat2Z.id. clear - Hm Hn.
  do 16 (destruct m as [|m]; [do 16 (destruct n as [|n]; [done || (intros; discriminate)|]); lia|]). lia.
Qed.

Lemma hex_inj n a b : hex n a = hex n b → a mod 16 ^ Z.of_nat n = b mod 16 ^ Z.of_nat n.
Proof.
  induction n as [|n IH]; [by rewrite !Z.mod_1_r|]. cbn [hex]. intros [= Hd Hr].
  apply hex_digit_inj in Hd; [|apply Z.mod_pos_bound; lia..]. apply IH in Hr.
  rewrite Nat2Z.inj_succ, Z.pow_succ_r by lia. rewrite (Z.mul_comm 16).
  rewrite !Z.rem_mul_r by lia. by rewrite Hd, Hr.
Qed.

Lemma append_inj p a b : String.append p a = String.append p b → a = b.
Proof. induction p as [|c p IH]; simpl; [done|]. intros [= H]. auto. Qed.

Lemma prebuilt_inj i j :
  Z.of_nat i < 2 ^ 32 → Z.of_nat j < 2 ^ 32 → PrebuiltOwner i = PrebuiltOwner j → i = j.
Proof.
  intros Hi Hj. unfold PrebuiltOwner. intros Hh%append_inj%(hex_inj 8).
  rewrite !u32_small in Hh by lia. simpl Z.pow in Hh. rewrite !Z.mod_small in Hh by lia. lia.
Qed.

Lemma lookup_insert_row (t : table) k x i r :
  <[k := x]> t !! i = Some r → (i = k ∧ r = x) ∨ (i ≠ k ∧ t !! i = Some r).
Proof.
  destruct (decide (k = i)) as [->|Hk].
  - intros Hr. assert (i < length t)%nat.
    { apply lookup_lt_Some in Hr. by rewrite length_insert in Hr. }
    rewrite list_lookup_insert_eq in Hr by done. left. by injection Hr.
  - rewrite list_lookup_insert_ne by done. by right.
Qed.

(** Giving one row to an owner who has none keeps the invariant. *)
Lemma give_ok t k id kd now :
  slots_ok t → (∀ i r, t !! i = Some r → owner r = Some id → i = k) →
  (∀ j, Z.of_nat j < 2 ^ 32 → id = PrebuiltOwner j → j = k) →
  slots_ok (<[k := {| owner := Some id; kind := kd; claimed_at := Some now |}]> t).
Proof.
  intros [Hs Hu Hp] Hfree Hpre. split.
  - by rewrite length_insert.
  - intros i j r r' o [[-> ->]|[? Hi]]%lookup_insert_row [[-> ->]|[? Hj]]%lookup_insert_row; simpl.
    + done.
    + intros [= <-] Ho. by rewrite (Hfree _ _ Hj Ho).
    + intros Ho [= <-]. by rewrite (Hfree _ _ Hi Ho).
    + by apply (Hu _ _ _ _ o Hi Hj).
  - intros i j r [[-> ->]|[? Hi]]%lookup_insert_row; simpl.
    + intros [= ->] Hj. symmetry. by apply Hpre.
    + by apply Hp.
Qed.

(** Freeing rows keeps it. *)
Lemma free_ok t p : slots_ok t → slots_ok (update_where p (λ _, free_row) t).1.
Proof.
  intros [Hs Hu Hp]. assert (Hl : ∀ i r o, (update_where p (λ _, free_row) t).1 !! i = Some r →
    owner r = Some o → t !! i = Some r).
  { intros i r o. rewrite update_lookup. destruct (t !! i) as [r'|]; [|done]. simpl.
    intros [= <-]. by destruct (p i r'). }
  split.
  - by rewrite update_length.
  - intros i j r r' o Hi Hj Ho Ho'. eapply Hu; eauto.
  - intros i j r Hi Ho. apply (Hp i j r); eauto.
Qed.

Lemma seed_ok t n : slots_ok t → Z.of_nat n ≤ 2 ^ 32 → slots_ok (Seed n t).
Proof.
  intros Ht Hn. unfold Seed. destruct (n =? 0)%nat; [done|]. destruct (n <=? length t)%nat; [done|].
  assert (Hall : Forall (λ i, (i < n)%nat) (seq 0 n)).
  { apply Forall_forall. intros i Hi. apply list_elem_of_In, in_seq in Hi. lia. }
  revert t Ht. induction Hall as [|i l Hi _ IH]; intros t Ht; simpl; [done|]. apply IH.
  unfold insert_or_ignore. destruct (Nat.ltb_spec i (length t)); [done|].
  assert (Hl : ∀ k r o, (t ++ [free_row]) !! k = Some r → owner r = Some o → t !! k = Some r).
  { intros k r o Hk Ho. apply lookup_app_Some in Hk as [|[? Hk]]; [done|].
    apply list_lookup_singleton_Some in Hk as [_ <-]. done. }
  destruct Ht as [Hs Hu Hp]. split.
  - rewrite length_app. simpl. lia.
  - intros a b r r' o Ha Hb Ho Ho'. eapply Hu; eauto.
  - intros a b r Ha Ho. eapply Hp; eauto.
Qed.

(** ** The operations, one by one *)

Lemma is_free_spec r : is_free r = true ↔ owner r = None.
Proof. apply bool_decide_eq_true. Qed.
Lemma owned_by_spec id r : owned_by id r = true ↔ owner r = Some id.
Proof. apply bool_decide_eq_true. Qed.

Lemma claim_free_spec now id kd t :
  (select_first is_free t = None ∧ claim_free now id kd t = (t, Err ErrPoolExhausted)) ∨
  ∃ k r, select_first is_free t = Some k ∧ t !! k = Some r ∧ owner r = None ∧
    claim_free now id kd t = (<[k := take_row now (id k) kd r]> t, Ok k).
Proof.
  unfold claim_free. destruct (select_first is_free t) as [k|] eqn:Hs; [right|by left].
  pose proof Hs as (r & Hr & Hf & _)%select_first_Some. exists k, r.
  rewrite (update_affected_1 _ _ _ k r); [|done|by rewrite Nat.eqb_refl, Hf|].
  - split_and!; try done. by apply is_free_spec.
  - intros i r' _ [Hi _]%andb_true_iff. by apply Nat.eqb_eq.
Qed.

Lemma not_owned t id : select_first (owned_by id) t = None → ∀ i r, t !! i = Some r → owner r ≠ Some id.
Proof. rewrite select_first_None. intros Hn i r Hr Ho. apply owned_by_spec in Ho. by rewrite (Hn i r Hr) in Ho. Qed.

Lemma claim_ok now id kd t : slots_ok t → sandbox_id id → slots_ok (Claim now id kd t).1.
Proof.
  intros Ht [Hne Hid]. unfold Claim. destruct (String.eqb_spec id ""); [done|].
  destruct (select_first (owned_by id) t) eqn:Hs; [done|].
  destruct (claim_free_spec now (λ _, id) kd t) as [[_ ->]|(k & r & _ & Hk & Ho & ->)]; [done|].
  apply give_ok; [done| |].
  - intros i r' Hi Ho'. by destruct (not_owned _ _ Hs i r' Hi).
  - intros j _ Hj. by destruct (Hid j).
Qed.

Lemma claim_prebuilt_ok now kd t : slots_ok t → slots_ok (ClaimPrebuilt now kd t).1.
Proof.
  intros Ht. unfold ClaimPrebuilt.
  destruct (claim_free_spec now PrebuiltOwner kd t) as [[_ ->]|(k & r & _ & Hk & Ho & ->)]; [done|].
  assert (Hb : Z.of_nat k < 2 ^ 32). { pose proof (so_size _ Ht). apply lookup_lt_Some in Hk. lia. }
  apply give_ok; [done| |].
  - intros i r' Hi Ho'. by eapply (so_prebuilt _ Ht).
  - intros j Hj Heq. by apply prebuilt_inj.
Qed.

(** An update of at most one row, by index and a test of its owner. *)
Lemma update_idx_spec idx (q : row → bool) f (t : table) :
  (∃ r, t !! idx = Some r ∧ q r = true ∧
     update_where (λ i r, (i =? idx)%nat && q r) f t = (<[idx := f r]> t, 1)) ∨
  ((∀ r, t !! idx = Some r → q r = false) ∧
     update_where (λ i r, (i =? idx)%nat && q r) f t = (t, 0)).
Proof.
  destruct (t !! idx) as [r|] eqn:Hr; [destruct (q r) eqn:Hq|].
  - left. exists r. split_and!; try done. apply update_affected_1; [done|by rewrite Nat.eqb_refl, Hq|].
    intros i r' _ [Hi _]%andb_true_iff. by apply Nat.eqb_eq.
  - right. split; [by intros r' [= <-]|]. apply update_affected_0. intros i r' Hi.
    destruct (Nat.eqb_spec i idx) as [->|]; [|done]. rewrite Hr in Hi. by injection Hi as <-.
  - right. split; [done|]. apply update_affected_0. intros i r' Hi.
    destruct (Nat.eqb_spec i idx) as [->|]; [|done]. by rewrite Hr in Hi.
Qed.

Definition owns_nothing_but (id : string) (idx : nat) (t : table) : Prop :=
  ∀ i r, t !! i = Some r → owner r = Some id → i = idx.

Lemma claim_idx_ok now id kd idx t :
  slots_ok t → sandbox_id id → owns_nothing_but id idx t → slots_ok (ClaimIdx now id kd idx t).1.
Proof.
  intros Ht [Hne Hid] Hown. unfold ClaimIdx. destruct (String.eqb_spec id ""); [done|].
  destruct (update_idx_spec idx (λ r, is_free r || owned_by id r) (take_row now id kd) t)
    as [(r & Hr & Hq & ->)|[_ ->]]; [|done].
  apply give_ok; [done|exact Hown|]. intros j _ Hj. by destruct (Hid j).
Qed.

Lemma reassign_ok now from to kd idx t :
  slots_ok t → sandbox_id to → owns_nothing_but to idx t → slots_ok (Reassign now from to kd idx t).1.
Proof.
  intros Ht [Hne Hid] Hown. unfold Reassign. destruct (String.eqb_spec to ""); [done|].
  destruct (update_idx_spec idx (owned_by from) (take_row now to kd) t)
    as [(r & Hr & Hq & ->)|[_ ->]]; [|done].
  apply give_ok; [done|exact Hown|]. intros j _ Hj. by destruct (Hid j).
Qed.

Lemma release_ok id t : slots_ok t → slots_ok (Release id t).1.
Proof.
  intros Ht. unfold Release. destruct (String.eqb id ""); [done|].
  pose proof (free_ok t (λ _ r, owned_by id r) Ht) as Hf. by destruct (update_where _ _ t).
Qed.

Lemma free_idx_lookup t idx i :
  free_idx t idx !! i = (λ r, if (i =? idx)%nat then free_row else r) <$> t !! i.
Proof. unfold free_idx. by rewrite update_lookup. Qed.

Lemma free_all_lookup t os i :
  foldl free_idx t os !! i = (λ r, if bool_decide (i ∈ os) then free_row else r) <$> t !! i.
Proof.
  revert t. induction os as [|o os IH]; intros t; simpl; [by destruct (t !! i)|].
  rewrite IH, free_idx_lookup. destruct (t !! i) as [r|]; [|done]. simpl. f_equal.
  destruct (Nat.eqb_spec i o) as [->|Hio].
  - rewrite (bool_decide_eq_true_2 (o ∈ o :: os)) by by left. by destruct (bool_decide _).
  - rewrite (bool_decide_ext (i ∈ o :: os) (i ∈ os)); [done|]. rewrite elem_of_cons. naive_solver.
Qed.

Lemma orphans_spec live t i :
  i ∈ orphans live t ↔ ∃ r o, t !! i = Some r ∧ owner r = Some o ∧ o ∉ live.
Proof.
  unfold orphans. rewrite list_elem_of_filter, list_elem_of_In, in_seq. split.
  - intros [Hi _]. destruct (t !! i) as [r|]; [|done]. simpl in Hi. unfold orphan_row in Hi.
    destruct (owner r) as [o|] eqn:Ho; [|done]. apply bool_decide_eq_true in Hi. eauto.
  - intros (r & o & Hr & Ho & Hl). rewrite Hr. simpl. unfold orphan_row. rewrite Ho.
    split; [by apply bool_decide_eq_true|]. apply lookup_lt_Some in Hr. lia.
Qed.

Lemma reconcile_ok live t : slots_ok t → slots_ok (Reconcile live t).1.
Proof.
  unfold Reconcile. simpl. generalize (orphans live t). intros os. revert t.
  induction os as [|o os IH]; intros t Ht; simpl; [done|]. apply IH. by apply free_ok.
Qed.

(** ** Every history of the store *)

Inductive slot_step (t : table) : table → Prop :=
  | StSeed n : Z.of_nat n ≤ 2 ^ 32 → slot_step t (Seed n t)
  | StClaim now id kd : sandbox_id id → slot_step t (Claim now id kd t).1
  | StClaimPrebuilt now kd : slot_step t (ClaimPrebuilt now kd t).1
  | StClaimIdx now id kd idx :
      sandbox_id id → owns_nothing_but id idx t → slot_step t (ClaimIdx now id kd idx t).1
  | StReassign now from to kd idx :
      sandbox_id to → owns_nothing_but to idx t → slot_step t (Reassign now from to kd idx t).1
  | StRelease id : slot_step t (Release id t).1
  | StReconcile live : slot_step t (Reconcile live t).1.

Lemma slot_step_ok t t' : slots_ok t → slot_step t t' → slots_ok t'.
Proof.
  intros Ht [].
  - by apply seed_ok.
  - by apply claim_ok.
  - by apply claim_prebuilt_ok.
  - by apply claim_idx_ok.
  - by apply reassign_ok.
  - by apply release_ok.
  - by apply reconcile_ok.
Qed.

Lemma empty_ok : slots_ok [].
Proof. split; [simpl; lia|done|done]. Qed.

Lemma used_count t :
  Used (Stats t) = Z.of_nat (length (filter (λ r, owner r ≠ None) t)).
Proof.
  unfold Stats; cbn [Used]. induction t as [|r t IH]; [done|]. rewrite !filter_cons.
  destruct (decide (owner r = None)), (decide (owner r ≠ None)); try done; simpl length; lia.
Qed.

(** One owner, one slot.  In every state the store reaches from an empty
    file by any sequence of its operations (a slot being adopted or claimed by
    index only for a sandbox that owns no other), no sandbox owns two slots,
    each pre-built sentinel is parked on the slot it names, and the statistics
    count exactly the owned and the free rows. *)
Theorem one_owner_one_slot (t : table) :
  rtc slot_step [] t →
  (∀ i j r r' o, t !! i = Some r → t !! j = Some r' → owner r = Some o → owner r' = Some o → i = j) ∧
  (∀ i j r, t !! i = Some r → owner r = Some (PrebuiltOwner j) → Z.of_nat j < 2 ^ 32 → i = j) ∧
  Used (Stats t) = Z.of_nat (length (filter (λ r, owner r ≠ None) t)) ∧
  Free (Stats t) + Used (Stats t) = Capacity (Stats t).
Proof.
  intros Hr. assert (Ht : slots_ok t) by (by eapply rtc_invariant; [exact slot_step_ok|exact empty_ok|]).
  destruct Ht as [_ Hu Hp]. split_and!; [exact Hu|exact Hp|apply used_count|simpl; lia].
Qed.

(** [Claim].  An owner that holds a slot gets it back and nothing changes;
    otherwise it gets the lowest free slot, every other row as it was; and it
    fails only when no row is free. *)
Theorem claim_spec now id kd (t t' : table) r :
  id ≠ "" → Claim now id kd t = (t', r) →
  match r with
  | Ok k => ∃ rw, t' !! k = Some rw ∧ owner rw = Some id ∧
      (t' = t ∨
       (∀ i rw, t !! i = Some rw → owner rw ≠ Some id) ∧
       t' = <[k := {| owner := Some id; kind := kd; claimed_at := Some now |}]> t ∧
       ∀ j rw, t !! j = Some rw → owner rw = None → (k ≤ j)%nat)
  | Err e => e = ErrPoolExhausted ∧ t' = t ∧ ∀ i rw, t !! i = Some rw → owner rw ≠ None
  end.
Proof.
  intros Hid. unfold Claim. destruct (String.eqb_spec id ""); [done|].
  destruct (select_first (owned_by id) t) as [k|] eqn:Hs.
  { intros [= <- <-]. apply select_first_Some in Hs as (rw & Hk & Ho%owned_by_spec & _).
    exists rw. split_and!; [done..|by left]. }
  destruct (claim_free_spec now (λ _, id) kd t) as [[Hf ->]|(k & rw & Hf & Hk & Ho & ->)]; intros [= <- <-].
  - split_and!; try done. intros i rw Hi Ho%is_free_spec. rewrite select_first_None in Hf.
    by rewrite (Hf i rw Hi) in Ho.
  - pose proof Hf as (rw' & Hk' & _ & Hlow)%select_first_Some.
    exists (take_row now id kd rw). split_and!; try done.
    { apply list_lookup_insert_eq. by eapply lookup_lt_Some. }
    right. split_and!; [by apply not_owned|done|]. intros j rw'' Hj Hjo.
    destruct (decide (j < k)%nat) as [Hlt|]; [|lia]. apply is_free_spec in Hjo.
    by rewrite (Hlow j rw'' Hj Hlt) in Hjo.
Qed.

Lemma release_owned id (t : table) k rw :
  slots_ok t → id ≠ "" → t !! k = Some rw → owner rw = Some id →
  Release id t = (<[k := free_row]> t, true).
Proof.
  intros Ht Hid Hk Ho. unfold Release. destruct (String.eqb_spec id ""); [done|].
  rewrite (update_affected_1 _ _ _ k rw); [done|done|by apply owned_by_spec|].
  intros i r' Hi Ho'%owned_by_spec. by eapply (so_unique _ Ht).
Qed.

Lemma release_unowned id (t : table) :
  (∀ i rw, t !! i = Some rw → owner rw ≠ Some id) → Release id t = (t, false).
Proof.
  intros Hn. unfold Release. destruct (String.eqb id ""); [done|].
  rewrite update_affected_0; [done|]. intros i r Hr. apply not_true_iff_false.
  intros Ho%owned_by_spec. by eapply Hn.
Qed.

(** Reclaimed exactly once.  When an owner holds a slot, the first of any
    two releases by it frees exactly that slot and reports so, and the second
    reports nothing and changes nothing, even after another sandbox has taken
    the slot in between. *)
Theorem release_once id (t : table) k rw now other kd :
  rtc slot_step [] t → sandbox_id id → sandbox_id other → other ≠ id →
  t !! k = Some rw → owner rw = Some id →
  let '(t1, freed1) := Release id t in
  let '(t2, _) := Claim now other kd t1 in
  let '(t3, freed2) := Release id t2 in
  t1 = <[k := free_row]> t ∧ freed1 = true ∧ t3 = t2 ∧ freed2 = false.
Proof.
  intros Hr Hid Hoth Hne Hk Ho.
  assert (Ht : slots_ok t) by (by eapply rtc_invariant; [exact slot_step_ok|exact empty_ok|]).
  rewrite (release_owned id t k rw) by (done || apply Hid).
  set (t1 := <[k := free_row]> t).
  assert (Hno : ∀ i r, t1 !! i = Some r → owner r ≠ Some id).
  { intros i r [[-> ->]|[Hik Hi]]%lookup_insert_row; [done|]. intros Hoi.
    apply Hik. by eapply (so_unique _ Ht). }
  destruct (Claim now other kd t1) as [t2 r2] eqn:Hc. rewrite release_unowned; [done|].
  unfold Claim in Hc. destruct (String.eqb other ""); [by injection Hc as <- <-|].
  destruct (select_first (owned_by other) t1); [by injection Hc as <- <-|].
  destruct (claim_free_spec now (λ _, other) kd t1) as [[_ E]|(k' & r' & _ & Hk' & _ & E)];
    rewrite E in Hc; injection Hc as <- <-; [done|].
  intros i r [[-> ->]|[_ Hi]]%lookup_insert_row; [simpl; congruence|by eapply Hno].
Qed.

Lemma free_count (t : table) k r :
  t !! k = Some r → owner r ≠ None →
  Z.of_nat (length (filter (λ r, owner r ≠ None) (free_idx t k))) =
  Z.of_nat (length (filter (λ r, owner r ≠ None) t)) - 1.
Proof.
  intros Hk Ho. assert (free_idx t k = <[k := free_row]> t) as ->.
  { apply list_eq. intros i. rewrite free_idx_lookup. destruct (Nat.eqb_spec i k) as [->|Hik].
    - rewrite list_lookup_insert_eq by (by eapply lookup_lt_Some). by rewrite Hk.
    - rewrite list_lookup_insert_ne by done. by destruct (t !! i). }
  revert k Hk. induction t as [|r0 t IH]; intros [|k] Hk; simpl in *; [done..| |].
  - injection Hk as ->. rewrite !filter_cons. repeat case_decide; try done. simpl length. lia.
  - specialize (IH k Hk). rewrite !filter_cons. case_decide; simpl length; lia.
Qed.

Lemma free_all_count os (t : table) :
  NoDup os → (∀ k, k ∈ os → ∃ r, t !! k = Some r ∧ owner r ≠ None) →
  Z.of_nat (length (filter (λ r, owner r ≠ None) (foldl free_idx t os))) =
  Z.of_nat (length (filter (λ r, owner r ≠ None) t)) - Z.of_nat (length os).
Proof.
  intros Hnd. revert t. induction Hnd as [|o os Hno _ IH]; intros t Ho; simpl; [lia|].
  destruct (Ho o ltac:(by left)) as (r & Hr & Hor). rewrite IH.
  - rewrite (free_count t o r) by done. lia.
  - intros k Hk. destruct (Ho k ltac:(by right)) as (r' & Hr' & Hor'). exists r'.
    rewrite free_idx_lookup, Hr'. simpl. destruct (Nat.eqb_spec k o) as [->|]; [done|done].
Qed.

(** [Reconcile].  It frees exactly the slots whose owner is not among the
    live ones, leaves every other row as it was, and returns their number. *)
Theorem reconcile_spec (live : gset string) (t : table) i :
  let '(t', n) := Reconcile live t in
  (t' !! i = match t !! i with
             | Some r => Some (match owner r with
                               | Some o => if bool_decide (o ∈ live) then r else free_row
                               | None => r
                               end)
             | None => None
             end) ∧
  n = Used (Stats t) - Used (Stats t').
Proof.
  unfold Reconcile. split.
  - rewrite free_all_lookup. destruct (t !! i) as [r|] eqn:Hr; [|done]. simpl. f_equal.
    destruct (owner r) as [o|] eqn:Ho.
    + destruct (decide (o ∈ live)).
      * rewrite (bool_decide_eq_true_2 (o ∈ live)), bool_decide_eq_false_2; [done| |done].
        intros (r' & o' & Hr' & Ho' & ?)%orphans_spec. by simplify_eq.
      * rewrite (bool_decide_eq_false_2 (o ∈ live)), bool_decide_eq_true_2; [done| |done].
        apply orphans_spec. eauto.
    + rewrite bool_decide_eq_false_2; [done|]. intros (r' & o' & Hr' & Ho' & ?)%orphans_spec. by simplify_eq.
  - rewrite !used_count.
    rewrite (free_all_count (orphans live t) t); [lia| |].
    + unfold orphans. apply NoDup_filter, NoDup_seq.
    + intros k (r & o & Hk & Ho & _)%orphans_spec. exists r. by rewrite Ho.
Qed.

(** The guard the callers owe: adopting a slot for a sandbox that already owns
    one leaves it with two, and then [Release] frees both rows and reports
    that it freed none. *)
Lemma reassign_can_give_two_slots :
  let t0 := Seed 3 [] in
  let t1 := (Claim 0 "sbx-a" "natid" t0).1 in
  let t2 := (ClaimPrebuilt 0 "prebuilt" t1).1 in
  let '(t3, ok) := Reassign 0 (PrebuiltOwner 1) "sbx-a" "natid" 1 t2 in
  let '(t4, freed) := Release "sbx-a" t3 in
  ok = Ok true ∧ Used (Stats t3) = 2 ∧ Used (Stats t4) = 0 ∧ freed = false.
Proof. vm_compute. done. Qed.

(** ** Witnesses *)

Definition w_table : table := (Claim 7 "sbx-a" "legacy" (Seed 2 [])).1.

Lemma sandbox_a : sandbox_id "sbx-a".
Proof. split; [done|]. intros i Hi. cbn [PrebuiltOwner String.append] in Hi. discriminate. Qed.
Lemma sandbox_b : sandbox_id "sbx-b".
Proof. split; [done|]. intros i Hi. cbn [PrebuiltOwner String.append] in Hi. discriminate. Qed.

Lemma w_table_reached : rtc slot_step [] w_table.
Proof.
  eapply rtc_l; [apply (StSeed [] 2); lia|].
  apply rtc_once. apply (StClaim (Seed 2 []) 7 "sbx-a" "legacy" sandbox_a).
Qed.

Lemma one_owner_one_slot_witness :
  Free (Stats w_table) + Used (Stats w_table) = Capacity (Stats w_table) ∧ Used (Stats w_table) = 1.
Proof. split; [apply (one_owner_one_slot w_table w_table_reached) | vm_compute; reflexivity]. Defined.

Lemma claim_spec_witness :
  (Claim 9 "sbx-b" "natid" w_table).2 = Ok 1%nat ∧
  ∃ rw, (Claim 9 "sbx-b" "natid" w_table).1 !! 1%nat = Some rw ∧ owner rw = Some "sbx-b".
Proof.
  split; [vm_compute; reflexivity|].
  assert (Hne : "sbx-b" ≠ "") by discriminate.
  destruct (claim_spec 9 "sbx-b" "natid" w_table (Claim 9 "sbx-b" "natid" w_table).1 (Ok 1%nat) Hne)
    as (rw & H1 & H2 & _); [vm_compute; reflexivity|].
  exists rw. split; [exact H1 | exact H2].
Defined.

Lemma release_once_witness :
  (Release "sbx-a" w_table).2 = true ∧
  let '(t1, freed1) := Release "sbx-a" w_table in
  let '(t2, _) := Claim 9 "sbx-b" "natid" t1 in
  let '(t3, freed2) := Release "sbx-a" t2 in
  t1 = <[0%nat := free_row]> w_table ∧ freed1 = true ∧ t3 = t2 ∧ freed2 = false.
Proof.
  split; [vm_compute; reflexivity|].
  apply (release_once "sbx-a" w_table 0
           {| owner := Some "sbx-a"; kind := "legacy"; claimed_at := Some 7 |} 9 "sbx-b" "natid");
    [exact w_table_reached | exact sandbox_a | exact sandbox_b | discriminate | reflexivity | reflexivity].
Defined.
