(* ===== verification/Uffd.v ===== *)
(** The page-fault handler, agent/internal/uffd: the region table Firecracker
    hands over (proto.go), the retry loop around a fault (faultretry.go), the
    ioctl numbers and event records (abi_linux.go), and serving one fault
    (handler_linux.go).  The poll loop, the socket handoff and the worker pool
    around them are system calls and channel plumbing and are not modelled:
    what a worker does with one address is. *)

From S2P Require Import Prelude Bytes Chunks Fetch.
From S2P Require MemHeader Resolver.

(** ** proto.go *)

Record GuestRegionUffdMapping := mkMapping {
  BaseHostVirtAddr : Z;
  Size : Z;
  Offset : Z;
  PageSize : Z;
}.

Definition pageSize (m : GuestRegionUffdMapping) : Z :=
  if PageSize m =? 0 then 4096 else PageSize m.

Definition contains (m : GuestRegionUffdMapping) (addr : Z) : bool :=
  (BaseHostVirtAddr m <=? addr) && (addr <? u64 (BaseHostVirtAddr m + Size m)).

Definition fileOffset (m : GuestRegionUffdMapping) (addr : Z) : Z :=
  i64 (u64 (Offset m + u64 (addr - BaseHostVirtAddr m))).

(** ** abi_linux.go *)

Definition ioc (dir typ nr size : Z) : Z :=
  Z.lor (Z.lor (Z.lor (u64 (Z.shiftl dir 30)) (u64 (Z.shiftl typ 8))) nr) (u64 (Z.shiftl size 16)).

Definition uffdMagic : Z := 0xAA.
Definition uffdioCopyReq : Z := ioc 3 uffdMagic 0x03 40.
Definition uffdioZeropageReq : Z := ioc 3 uffdMagic 0x04 32.
Definition uffdioWakeReq : Z := ioc 2 uffdMagic 0x02 16.
Definition uffdEventPagefault : Z := 0x12.
Definition uffdMsgSize : nat := 32.

(** The event loop's decoding of what one read returned: the addresses of the
    page faults, in order.  A message is 32 bytes, its event the first byte,
    the faulting address the u64 at byte 16. *)
Fixpoint decode_events (fuel : nat) (buf : list byte) : list Z :=
  match fuel with
  | O => []
  | S fuel =>
      if (length buf <? uffdMsgSize)%nat then []
      else
        let rest := decode_events fuel (drop uffdMsgSize buf) in
        if b2z (nth 0 buf x00) =? uffdEventPagefault then le_val (slice 16 8 buf) :: rest else rest
  end.

(** ** faultretry.go *)

Definition faultRetryBase : Z := 200 * 10 ^ 6.
Definition faultRetryMax : Z := 5 * 10 ^ 9.

(** Go's [x << n] on an int64 for a non-negative count. *)
Definition shl64 (x n : Z) : Z := if 64 <=? n then 0 else i64 (Z.shiftl x n).

(** The upper end of the jitter: [faultBackoff] returns a uniform value in
    [0, cap]. *)
Definition faultBackoffCap (n : Z) : Z :=
  let d := shl64 faultRetryBase n in
  if (faultRetryMax <? d) || (d <=? 0) then faultRetryMax else d.

Definition faultBackoff (rand : Z → Z) (n : Z) : Z := rand (i64 (faultBackoffCap n + 1)).

Inductive retry_err (E : Type) := Canceled | Exhausted (e : E).
Arguments Canceled {E}.
Arguments Exhausted {E} e.

Section Retry.
Context {S E : Type}.
(** The clock and the context at the head of each iteration, the context
    during its wait, and the resolve attempts (the first is number 0). *)
Variable clock : nat → Z.
Variables cancel_head cancel_wait : nat → bool.
Variable resolve : nat → S → S * option E.

Fixpoint retry_loop (fuel attempt : nat) (deadline : Z) (s : S) (err : E) (retries : Z)
    : option (S * option (retry_err E) * Z) :=
  match fuel with
  | O => None
  | Datatypes.S fuel =>
      if cancel_head attempt then Some (s, Some Canceled, retries)
      else if deadline <? clock attempt then Some (s, Some (Exhausted err), retries)
      else
        let retries := retries + 1 in
        if cancel_wait attempt then Some (s, Some Canceled, retries)
        else match resolve (Datatypes.S attempt) s with
        | (s, None) => Some (s, None, retries)
        | (s, Some err) => retry_loop fuel (Datatypes.S attempt) deadline s err retries
        end
  end.

Definition resolveWithRetry (fuel : nat) (start budget : Z) (s : S)
    : option (S * option (retry_err E) * Z) :=
  match resolve 0%nat s with
  | (s, None) => Some (s, None, 0)
  | (s, Some err) => retry_loop fuel 0 (start + budget) s err 0
  end.

(** Time passing is what ends the loop. *)
Lemma retry_loop_terminates fuel attempt deadline s err retries k :
  (attempt ≤ k)%nat → deadline < clock k → (k - attempt < fuel)%nat →
  is_Some (retry_loop fuel attempt deadline s err retries).
Proof.
  revert attempt s err retries. induction fuel as [|fuel IH]; intros attempt s err retries Hk Hd Hf; [lia|].
  simpl. destruct (cancel_head attempt); [done|].
  destruct (Z.ltb_spec deadline (clock attempt)); [done|].
  destruct (cancel_wait attempt); [done|]. destruct (resolve _ s) as [s' [e|]]; [|done].
  apply IH; try done; destruct (decide (attempt = k)) as [->|]; lia.
Qed.

(** A failure that ends in time is outlasted. *)
Lemma retry_loop_blip k fuel attempt deadline s err retries :
  (attempt ≤ k)%nat → (k - attempt < fuel)%nat →
  (∀ j, (j ≤ k)%nat → clock j ≤ deadline ∧ cancel_head j = false ∧ cancel_wait j = false) →
  (∀ j s, (j ≤ k)%nat → (resolve j s).2 ≠ None) → (∀ s, (resolve (Datatypes.S k) s).2 = None) →
  ∃ s', retry_loop fuel attempt deadline s err retries =
        Some (s', None, retries + (Z.of_nat (k - attempt) + 1)).
Proof.
  intros Hk Hf Henv Hfail Hok. revert attempt s err retries Hk Hf.
  induction fuel as [|fuel IH]; intros attempt s err retries Hk Hf; [lia|].
  destruct (Henv attempt Hk) as (Hc & Hh & Hw). simpl. rewrite Hh, Hw, (proj2 (Z.ltb_ge _ _)) by done.
  destruct (decide (attempt = k)) as [->|Hne].
  - specialize (Hok s). destruct (resolve (Datatypes.S k) s) as [s' e]. simpl in Hok. subst e.
    exists s'. do 2 f_equal. lia.
  - pose proof (Hfail (Datatypes.S attempt) s ltac:(lia)) as Hfl.
    destruct (resolve (Datatypes.S attempt) s) as [s' [e|]]; [|done].
    destruct (IH (Datatypes.S attempt) s' e (retries + 1)) as [s'' Hs]; [lia..|].
    exists s''. rewrite Hs. do 2 f_equal. lia.
Qed.

Section Post.
Variable I : S → Prop.
Variable P : S → Prop.
Context (Hstep : ∀ n s s' e, I s → resolve n s = (s', e) → I s' ∧ (e = None → P s')).

Lemma retry_loop_post fuel attempt deadline s err retries s' r n :
  I s → retry_loop fuel attempt deadline s err retries = Some (s', r, n) →
  I s' ∧ (r = None → P s') ∧
  (∀ e, r = Some (Exhausted e) → ∃ k, deadline < clock k).
Proof using Hstep.
  revert attempt s err retries. induction fuel as [|fuel IH]; intros attempt s err retries Hs; [done|].
  simpl. destruct (cancel_head attempt); [by intros [= <- <- <-]|].
  destruct (Z.ltb_spec deadline (clock attempt)); [intros [= <- <- <-]; split_and!; [done..|eauto]|].
  destruct (cancel_wait attempt); [by intros [= <- <- <-]|].
  destruct (resolve _ s) as [s1 [e|]] eqn:Hr; destruct (Hstep _ _ _ _ Hs Hr) as [H1 H2].
  - by apply IH.
  - intros [= <- <- <-]. split_and!; [done|auto|done].
Qed.

Lemma resolveWithRetry_post fuel start budget s s' r n :
  I s → resolveWithRetry fuel start budget s = Some (s', r, n) →
  I s' ∧ (r = None → P s') ∧
  (∀ e, r = Some (Exhausted e) → ∃ k, start + budget < clock k).
Proof using Hstep.
  intros Hs. unfold resolveWithRetry. destruct (resolve 0%nat s) as [s1 [e|]] eqn:Hr;
    destruct (Hstep _ _ _ _ Hs Hr) as [H1 H2].
  - by apply retry_loop_post.
  - intros [= <- <- <-]. split_and!; [done|auto|done].
Qed.
End Post.
End Retry.

(** A fault outlives a blip, and only a blip.  If the first [k+1] attempts
    fail and the next succeeds, while the clock stays within the budget and the
    context is not done, the fault succeeds, after exactly [k+1] retries.  In
    any case the loop ends once the clock has passed the budget, and it gives
    up with the resolver's error only if it has. *)
Theorem fault_retry_spec {S E} (clock : nat → Z) (cancel_head cancel_wait : nat → bool)
    (resolve : nat → S → S * option E) (k fuel : nat) (start budget : Z) (s : S) :
  (k < fuel)%nat →
  ((∀ j, (j ≤ k)%nat → clock j ≤ start + budget ∧ cancel_head j = false ∧ cancel_wait j = false) →
   (∀ j s, (j ≤ k)%nat → (resolve j s).2 ≠ None) → (∀ s, (resolve (Datatypes.S k) s).2 = None) →
   ∃ s', resolveWithRetry clock cancel_head cancel_wait resolve fuel start budget s =
         Some (s', None, Z.of_nat k + 1)) ∧
  (start + budget < clock k →
   ∃ s' r n, resolveWithRetry clock cancel_head cancel_wait resolve fuel start budget s = Some (s', r, n)) ∧
  (∀ s' e n, resolveWithRetry clock cancel_head cancel_wait resolve fuel start budget s =
               Some (s', Some (Exhausted e), n) → ∃ j, start + budget < clock j).
Proof.
  intros Hf. split; [|split].
  - intros Henv Hfail Hok. unfold resolveWithRetry. pose proof (Hfail 0%nat s ltac:(lia)) as H0.
    destruct (resolve 0%nat s) as [s1 [e|]]; [|done].
    destruct (retry_loop_blip clock cancel_head cancel_wait resolve k fuel 0 (start + budget) s1 e 0)
      as [s' Hs]; [lia|lia|done..|].
    exists s'. rewrite Hs. do 2 f_equal. lia.
  - intros Hd. unfold resolveWithRetry. destruct (resolve 0%nat s) as [s1 [e|]]; [|eauto].
    destruct (retry_loop_terminates clock cancel_head cancel_wait resolve fuel 0 (start + budget) s1 e 0 k)
      as [[[s' r] n] Hr]; [lia|done|lia|]. rewrite Hr. eauto.
  - intros s' e n Hr.
    destruct (resolveWithRetry_post clock cancel_head cancel_wait resolve (λ _, True) (λ _, True)
                ltac:(done) fuel start budget s s' _ n ltac:(done) Hr) as (_ & _ & H3). eauto.
Qed.

(** The backoff.  For every attempt number, overflow of the shift included,
    the wait is drawn from [0, min(200ms * 2^n, 5s)]: it never exceeds the
    documented maximum and the bound handed to the generator is positive. *)
Theorem backoff_bounds (rand : Z → Z) (n : Z) :
  (∀ m, 0 < m → 0 ≤ rand m < m) → 0 ≤ n →
  faultBackoffCap n = Z.min (faultRetryBase * 2 ^ n) faultRetryMax ∧
  0 ≤ faultBackoff rand n ≤ faultBackoffCap n.
Proof.
  intros Hr Hn.
  assert (Hcap : faultBackoffCap n = Z.min (faultRetryBase * 2 ^ n) faultRetryMax).
  { unfold faultBackoffCap, shl64. destruct (Z.leb_spec 64 n) as [H64|H64].
    { assert (2 ^ 64 ≤ 2 ^ n) by (apply Z.pow_le_mono_r; lia).
      unfold faultRetryBase, faultRetryMax in *. simpl orb. simpl in *. lia. }
    assert (Hin : ∃ k : nat, n = Z.of_nat k ∧ (k < 64)%nat) by (exists (Z.to_nat n); lia).
    destruct Hin as (k & -> & Hk). clear - Hk.
    do 64 (destruct k as [|k]; [vm_compute; reflexivity|]). lia. }
  split; [done|]. unfold faultBackoff. rewrite Hcap. unfold faultRetryBase, faultRetryMax.
  assert (1 ≤ 2 ^ n) by (apply (Z.pow_le_mono_r 2 0 n); lia).
  set (m := Z.min _ _). assert (0 < m ≤ 5 * 10 ^ 9) by (subst m; lia).
  rewrite i64_small by lia. pose proof (Hr (m + 1)). lia.
Qed.

(** ** handler_linux.go: one fault *)

Inductive copy_result := CopyOk | CopyExist | CopyErr.

Inductive served :=
  | Installed (dst : Z) (bytes : list byte)
  | AlreadyThere
  | Fatal.

Definition findMapping (mappings : list GuestRegionUffdMapping) (addr : Z)
    : option GuestRegionUffdMapping :=
  snd <$> list_find (λ m, contains m addr = true) mappings.

(** What one fault meets: the environments of the resolve attempts, the clock,
    the context, and how the copy ends. *)
Record fault_env := mkFaultEnv {
  fe_io : nat → io;
  fe_clock : nat → Z;
  fe_cancel_head : nat → bool;
  fe_cancel_wait : nat → bool;
  fe_start : Z;
  fe_copy : copy_result;
}.

Section Serve.
Variable h : MemHeader.Header.

(** One [ResolvePage] into the worker's buffer; a failed one leaves it. *)
Definition resolve_page (e : fault_env) (off : Z) (n : nat)
    (s : Resolver.resolver * list byte) : (Resolver.resolver * list byte) * option fetch_err :=
  match Resolver.ResolvePage Resolver.no_sum Resolver.mem_out h (fe_io e n) off s.2 s.1 with
  | (r, Ok page) => ((r, page), None)
  | (r, Err err) => ((r, s.2), Some err)
  end.

(** [servePage]: the resolver and the worker's buffer after it, and the
    outcome; [None] while the retries go on beyond [fuel]. *)
Definition servePage (fuel : nat) (budget : Z) (e : fault_env)
    (mappings : list GuestRegionUffdMapping) (addr : Z) (r : Resolver.resolver) (buf : list byte)
    : option (Resolver.resolver * list byte * served) :=
  match findMapping mappings addr with
  | None => Some (r, buf, Fatal)
  | Some m =>
      let ps := pageSize m in
      let pageStart := Z.ldiff addr (u64 (ps - 1)) in
      let n := Z.to_nat ps in
      match resolveWithRetry (fe_clock e) (fe_cancel_head e) (fe_cancel_wait e)
              (resolve_page e (fileOffset m pageStart)) fuel (fe_start e) budget (r, take n buf) with
      | None => None
      | Some ((r, page), Some _, _) => Some (r, page ++ drop n buf, Fatal)
      | Some ((r, page), None, _) =>
          Some (r, page ++ drop n buf,
                match fe_copy e with
                | CopyOk => Installed pageStart page
                | CopyExist => AlreadyThere
                | CopyErr => Fatal
                end)
      end
  end.
End Serve.

(** ** Well-formed region tables *)

Section Table.
Variable h : MemHeader.Header.

(** A region as Firecracker registers it: page-aligned, inside the address
    space and inside the memory file, its pages not straddling chunks. *)
Record region_ok (m : GuestRegionUffdMapping) : Prop := {
  ro_page : ∃ k, 0 ≤ k < 32 ∧ pageSize m = 2 ^ k;
  ro_base : 0 ≤ BaseHostVirtAddr m ∧ BaseHostVirtAddr m mod pageSize m = 0;
  ro_size : 0 ≤ Size m ∧ Size m mod pageSize m = 0;
  ro_top : BaseHostVirtAddr m + Size m < 2 ^ 64;
  ro_off : 0 ≤ Offset m ∧ Offset m mod pageSize m = 0;
  ro_file : Offset m + Size m ≤ TotalSize h;
  ro_chunk : ChunkSize h mod pageSize m = 0;
}.

Lemma ldiff_align addr k :
  0 ≤ addr → 0 ≤ k < 32 → Z.ldiff addr (u64 (2 ^ k - 1)) = addr - addr mod 2 ^ k.
Proof.
  intros Ha Hk. assert (2 ^ k ≤ 2 ^ 32) by (apply Z.pow_le_mono_r; lia).
  assert (0 < 2 ^ k) by (apply Z.pow_pos_nonneg; lia).
  rewrite u64_small by lia. replace (2 ^ k - 1) with (Z.ones k) by (rewrite Z.ones_equiv; lia).
  rewrite Z.ldiff_ones_r by lia. rewrite Z.shiftl_mul_pow2, Z.shiftr_div_pow2 by lia.
  pose proof (Z.div_mod addr (2 ^ k)). lia.
Qed.

Lemma mod_add_0 a b n : 0 < n → a mod n = 0 → b mod n = 0 → (a + b) mod n = 0.
Proof. intros Hn Ha Hb. by rewrite Z.add_mod, Ha, Hb, Z.mod_0_l by lia. Qed.

(** The page of an address in a region: aligned, whole, and at the file offset
    the region table gives it. *)
Lemma page_of_addr m addr :
  region_ok m → contains m addr = true → TotalSize h < 2 ^ 62 →
  let ps := pageSize m in
  let start := Z.ldiff addr (u64 (ps - 1)) in
  let off := fileOffset m start in
  0 < ps ∧ start ≤ addr < start + ps ∧ BaseHostVirtAddr m ≤ start ∧
  off = Offset m + (start - BaseHostVirtAddr m) ∧ 0 ≤ off ∧ off + ps ≤ TotalSize h ∧ off mod ps = 0 ∧
  start + ps ≤ BaseHostVirtAddr m + Size m.
Proof.
  intros [(k & Hk & Hps) [Hb0 Hb] [Hs0 Hs] Ht [Ho0 Ho] Hf Hc] Hin Htot. cbv zeta.
  unfold contains in Hin. rewrite u64_small in Hin by lia.
  apply andb_true_iff in Hin as [Hlo%Z.leb_le Hhi%Z.ltb_lt].
  assert (Hp : 0 < pageSize m) by (rewrite Hps; apply Z.pow_pos_nonneg; lia).
  assert (Hst : Z.ldiff addr (u64 (pageSize m - 1)) = addr - addr mod pageSize m)
    by (rewrite Hps; apply ldiff_align; lia).
  rewrite Hst. set (ps := pageSize m) in *. clearbody ps.
  pose proof (Z.mod_pos_bound addr ps Hp) as Hm. pose proof (Z.div_mod addr ps) as Hd.
  apply Z.mod_divide in Hb as [b Hb]; [|lia]. apply Z.mod_divide in Hs as [s Hs]; [|lia].
  apply Z.mod_divide in Ho as [o Ho]; [|lia].
  set (q := addr / ps) in *. assert (Hstart : addr - addr mod ps = q * ps) by lia. rewrite Hstart.
  assert (Hbq : b ≤ q) by nia. assert (Hqs : q + 1 ≤ b + s) by nia.
  assert (Hmul : (q - b + 1) * ps ≤ s * ps) by (apply Z.mul_le_mono_nonneg_r; lia).
  assert (Hmul0 : 0 ≤ (q - b) * ps) by (apply Z.mul_nonneg_nonneg; lia).
  unfold fileOffset. rewrite (u64_small (q * ps - _)) by lia. rewrite u64_small, i64_small by lia.
  split_and!; try lia.
  replace (Offset m + (q * ps - BaseHostVirtAddr m)) with ((o + (q - b)) * ps) by lia. apply Z.mod_mul. lia.
Qed.
End Table.

Definition page_inv (h : MemHeader.Header) (img : list byte) (n : nat)
    (s : Resolver.resolver * list byte) : Prop :=
  Resolver.res_inv h img false s.1 ∧ Resolver.r_inflight s.1 = ∅ ∧ length s.2 = n.

(** One attempt at a whole aligned page. *)
Lemma resolve_page_spec h img n e off k s s' f :
  wf_geom h → image_of h img → honest Resolver.no_sum h img (fe_io e k) →
  0 ≤ off → (0 < n)%nat → off + Z.of_nat n ≤ TotalSize h → off mod Z.of_nat n = 0 →
  ChunkSize h mod Z.of_nat n = 0 → page_inv h img n s →
  resolve_page h e off k s = (s', f) →
  page_inv h img n s' ∧ (f = None → s'.2 = slice (Z.to_nat off) n img).
Proof.
  intros Hwf Himg Hio H0 Hn Hfit Hmod Hcs (Hi & Hnil & Hl) Hr. unfold resolve_page in Hr.
  pose proof Hwf as ((Hc0 & _) & Ht & _).
  destruct (Z_of_nat_complete off H0) as [o ->]. rewrite Nat2Z.id.
  assert (Hstr : Z.of_nat o mod ChunkSize h + Z.of_nat (length s.2) ≤ ChunkSize h).
  { rewrite Hl. apply Z.mod_divide in Hcs as [c Hc]; [|lia]. apply Z.mod_divide in Hmod as [q Hq]; [|lia].
    pose proof (Z.div_mod (Z.of_nat o) (ChunkSize h)). pose proof (Z.mod_pos_bound (Z.of_nat o) (ChunkSize h)).
    set (m := Z.of_nat o mod ChunkSize h) in *. set (d := Z.of_nat o / ChunkSize h) in *.
    assert (Hm : m = (q - d * c) * Z.of_nat n) by nia.
    assert (q - d * c < c) by nia. nia. }
  destruct (Resolver.ResolvePage _ _ _ _ _ _ _) as [r1 a] eqn:Hrp.
  destruct (Resolver.mem_page_aux Resolver.no_sum Resolver.mem_out h img Hwf (fe_io e k) o s.2 s.1 r1 a)
    as (H1 & H2 & H3); try done; try lia.
  assert (Hav : Resolver.avail h o (length s.2) = n) by (unfold Resolver.avail; lia).
  rewrite Hav in H3. destruct a as [page|err]; injection Hr as <- <-; [|by split].
  rewrite drop_ge, app_nil_r in H3 by lia. subst page. split; [|done]. split_and!; [done|done|].
  simpl. apply length_slice. destruct Himg as [-> _]. lia.
Qed.

(** A page fault is answered with the snapshot's bytes.  For a region table
    as Firecracker registers it, an upstream that holds the memory image, and
    any number of failed attempts before the one that succeeds: the page
    installed is the one that contains the faulting address, and its bytes are
    those of the image at the file offset the region maps that page to.  A
    fault outside every region, and one whose retries ran out, are fatal and
    install nothing; and the resolver stays consistent in every case. *)
Theorem serve_page_spec (h : MemHeader.Header) (img : list byte) (fuel : nat) (budget : Z)
    (e : fault_env) (mappings : list GuestRegionUffdMapping) (addr : Z)
    (r r' : Resolver.resolver) (buf buf' : list byte) (out : served) :
  wf_geom h → image_of h img → (∀ n, honest Resolver.no_sum h img (fe_io e n)) →
  Forall (region_ok h) mappings → Forall (λ m, pageSize m ≤ Z.of_nat (length buf)) mappings →
  Resolver.res_inv h img false r → Resolver.r_inflight r = ∅ →
  servePage h fuel budget e mappings addr r buf = Some (r', buf', out) →
  Resolver.res_inv h img false r' ∧ Resolver.r_inflight r' = ∅ ∧ length buf' = length buf ∧
  match out with
  | Installed dst bytes =>
      ∃ m, m ∈ mappings ∧ contains m addr = true ∧ dst ≤ addr < dst + pageSize m ∧
        BaseHostVirtAddr m ≤ dst ∧ dst + pageSize m ≤ BaseHostVirtAddr m + Size m ∧
        bytes = slice (Z.to_nat (Offset m + (dst - BaseHostVirtAddr m))) (Z.to_nat (pageSize m)) img
  | _ => True
  end.
Proof.
  intros Hwf Himg Hio Hregs Hbuf Hinv Hnil. unfold servePage.
  destruct (findMapping mappings addr) as [m|] eqn:Hfind; [|by intros [= <- <- <-]].
  unfold findMapping in Hfind. apply fmap_Some in Hfind as ([i m'] & (Hi & Hin & _)%list_find_Some & ->).
  simpl in *. rename m' into m. apply list_elem_of_lookup_2 in Hi.
  rewrite Forall_forall in Hregs, Hbuf. pose proof (Hregs m Hi) as Hro. pose proof (Hbuf m Hi) as Hlen.
  assert (Htot : TotalSize h < 2 ^ 62) by apply Hwf.
  destruct (page_of_addr h m addr Hro Hin Htot) as (Hps & Hst & Hbase & Hoff & Hoff0 & Hfit & Hmod & Htop).
  set (start := Z.ldiff addr (u64 (pageSize m - 1))) in *. set (off := fileOffset m start) in *.
  set (n := Z.to_nat (pageSize m)) in *.
  assert (Hnz : Z.of_nat n = pageSize m) by (unfold n; lia).
  assert (Hres : ∀ k s s' f, page_inv h img n s → resolve_page h e off k s = (s', f) →
    page_inv h img n s' ∧ (f = None → s'.2 = slice (Z.to_nat off) n img)).
  { intros k s s' f Hs Hr. apply (resolve_page_spec h img n e off k s s' f); rewrite ?Hnz; try done; try lia.
    apply Hro. }
  destruct (resolveWithRetry _ _ _ _ _ _ _ _) as [[[[r1 page] f] retries]|] eqn:Hretry; [|done].
  assert (H0 : page_inv h img n (r, take n buf)).
  { split_and!; [done|done|]. simpl. rewrite length_take. lia. }
  destruct (resolveWithRetry_post _ _ _ _ _ (λ s, s.2 = slice (Z.to_nat off) n img) Hres
              _ _ _ _ _ _ _ H0 Hretry) as ((H1 & H2 & H3) & H4 & _). simpl in *.
  assert (Hlb : length (page ++ drop n buf) = length buf) by (rewrite length_app, length_drop; lia).
  destruct f as [err|]; intros [= <- <- <-]; [by split_and!|]. split_and!; try done.
  destruct (fe_copy e); [|done|done]. exists m. rewrite <- Hoff. split_and!; try done; try lia. auto.
Qed.

(** [StalledFor]: no progress for longer than [d]; a handler that has not
    started is not stalled. *)
Definition StalledFor (lastProgressNanos now d : Z) : bool :=
  if lastProgressNanos =? 0 then false else d <? now - lastProgressNanos.

(** The request numbers are the kernel's. *)
Lemma ioctl_numbers :
  uffdioCopyReq = 0xC028AA03 ∧ uffdioZeropageReq = 0xC020AA04 ∧ uffdioWakeReq = 0x8010AA02.
Proof. vm_compute. done. Qed.

(** Only page-fault messages are decoded, and all whole ones are. *)
Lemma decode_one (msg rest : list byte) fuel :
  length msg = uffdMsgSize →
  decode_events (S fuel) (msg ++ rest) =
    (if b2z (nth 0 msg x00) =? uffdEventPagefault then [le_val (slice 16 8 msg)] else []) ++
    decode_events fuel rest.
Proof.
  intros Hm. cbn [decode_events]. rewrite (proj2 (Nat.ltb_ge _ _)) by (rewrite length_app; lia).
  rewrite drop_app_length' by done. rewrite app_nth1 by (rewrite Hm; unfold uffdMsgSize; lia).
  assert (Hs : slice 16 8 (msg ++ rest) = slice 16 8 msg).
  { apply list_eq. intros i. rewrite !lookup_slice. case_decide; [|done].
    rewrite lookup_app_l; [done|]. rewrite Hm. unfold uffdMsgSize. lia. }
  rewrite Hs. by destruct (_ =? _).
Qed.

(** ** Witnesses: a two-page region over a 12-byte image, 4-byte pages *)

Definition w_img : list byte := [x01; x02; x03; x04; x00; x00; x00; x00; x05; x06; x07; x08].
Definition w_h : MemHeader.Header := MemHeader.BuildHeader w_img 4.
Definition w_map : GuestRegionUffdMapping :=
  {| BaseHostVirtAddr := 4096; Size := 8; Offset := 4; PageSize := 4 |}.
Definition w_up : io :=
  {| io_read := λ off len, Ok (slice (Z.to_nat off) (Z.to_nat len) w_img); io_wfault := λ _, None |}.
Definition w_down : io := {| io_read := λ _ _, Err (); io_wfault := λ _, None |}.
(** The first attempt fails, the second succeeds. *)
Definition w_env : fault_env :=
  {| fe_io := λ n, if (n =? 0)%nat then w_down else w_up; fe_clock := λ n, Z.of_nat n;
     fe_cancel_head := λ _, false; fe_cancel_wait := λ _, false; fe_start := 0; fe_copy := CopyOk |}.
Definition w_res : Resolver.resolver := Resolver.NewResolver w_h [].

Lemma w_h_wf : wf_geom w_h.
Proof. unfold wf_geom. vm_compute. repeat split; discriminate. Qed.

Lemma w_image : image_of w_h w_img.
Proof.
  split; [done|]. intros i Hi. change (NumChunks w_h) with 3 in Hi.
  destruct i as [|[|[|i]]]; [vm_compute; done..|lia].
Qed.

Lemma w_honest n : honest Resolver.no_sum w_h w_img (fe_io w_env n).
Proof.
  intros i got Hi. change (NumChunks w_h) with 3 in Hi. destruct n as [|n]; simpl; [done|].
  destruct i as [|[|[|i]]]; [intros _ [= <-] _ _; reflexivity..|lia].
Qed.

Lemma w_region : region_ok w_h w_map.
Proof. split; try (vm_compute; repeat split; (discriminate || done)). by exists 2. Qed.

Lemma serve_page_spec_witness :
  ∃ r' buf', servePage w_h 5 100 w_env [w_map] 4102 w_res (replicate 4 xff)
             = Some (r', buf', Installed 4100 [x05; x06; x07; x08]) ∧
  Resolver.res_inv w_h w_img false r'.
Proof.
  eexists _, _. split; [vm_compute; reflexivity|].
  eapply (serve_page_spec w_h w_img 5 100 w_env [w_map] 4102 w_res _ (replicate 4 xff) _
            (Installed 4100 [x05; x06; x07; x08]) w_h_wf w_image w_honest);
    [constructor; [exact w_region | constructor] | constructor; [vm_compute; discriminate | constructor]
    | exact (Resolver.new_inv w_h w_img w_h_wf []) | reflexivity | vm_compute; reflexivity].
Defined.

Lemma fault_retry_spec_witness :
  ∃ s', resolveWithRetry (λ n, Z.of_nat n) (λ _, false) (λ _, false)
          (λ n (s : unit), (s, if (n <=? 2)%nat then Some n else None)) 5 0 100 ()
        = Some (s', None, 3).
Proof.
  apply (fault_retry_spec (λ n, Z.of_nat n) (λ _, false) (λ _, false)
           (λ n (s : unit), (s, if (n <=? 2)%nat then Some n else None)) 2 5 0 100 ()); [lia| | |reflexivity].
  - intros j Hj. split; [lia | done].
  - intros j s Hj. simpl. by rewrite (proj2 (Nat.leb_le _ _)).
Defined.

Lemma backoff_bounds_witness :
  faultBackoffCap 3 = 1600000000 ∧ faultBackoffCap 60 = faultRetryMax ∧
  0 ≤ faultBackoff (λ m, m - 1) 3 ≤ faultBackoffCap 3.
Proof.
  split; [vm_compute; reflexivity|]. split; [vm_compute; reflexivity|].
  apply (backoff_bounds (λ m, m - 1) 3); [intros m Hm; lia | lia].
Defined.
