(* ===== verification/Nbd.v ===== *)
(** The NBD transmission loop, agent/internal/nbdstream/server_linux.go: the
    requests the kernel sends, the replies, and the progress signals of the
    watchdog.  Device setup and teardown are ioctls and are not modelled.  The
    read source is an interface, as in the code ([Backend]); its instance here
    is the disk stream's resolver. *)

From S2P Require Import Prelude Bytes Chunks Fetch.
From S2P Require DiskHeader Resolver.

Definition nbdRequestMagic : Z := 0x25609513.
Definition nbdReplyMagic : Z := 0x67446698.
Definition nbdCmdRead : Z := 0.
Definition nbdCmdWrite : Z := 1.
Definition nbdCmdDisc : Z := 2.
Definition nbdCmdFlush : Z := 3.
Definition nbdCmdTrim : Z := 5.
Definition nbdEPERM : Z := 1.
Definition nbdEIO : Z := 5.
Definition nbdRequestLen : nat := 28.
Definition nbdReplyLen : nat := 16.
Definition defaultMaxReadBytes : Z := Z.shiftl 4 20.

(** [Backend]: [ReadAt] of [len] bytes at [off] gives the count and the buffer.
    [X] is the environment of one call. *)
Class Backend (B X : Type) := {
  back_read : X → nat → Z → B → B * option (Z * list byte);
}.

(** What the server relies on: an invariant reads keep, and that a complete
    read of the device's extent returns the image's bytes. *)
Class ImageBackend (B X : Type) `{Backend B X} (img : list byte) := {
  back_inv : B → Prop;
  back_env : X → Prop;
  back_read_ok x (len off : nat) b b' a :
    back_env x → back_inv b → (0 < len)%nat → Z.of_nat len < 2 ^ 62 → (off + len ≤ length img)%nat →
    back_read x len (Z.of_nat off) b = (b', a) →
    back_inv b' ∧
    match a with
    | Some (n, dst) => n = Z.of_nat len ∧ dst = slice off len img
    | None => True
    end;
}.

(** What one request meets: the backend's environment, whether the fetch budget
    was over when the read failed, whether the reply could be written, and the
    clock at its completion. *)
Record nbd_env (X : Type) := mkNbdEnv {
  ne_back : X;
  ne_late : bool;
  ne_write : bool;
  ne_now : Z;
}.
Arguments ne_back {X}.
Arguments ne_late {X}.
Arguments ne_write {X}.
Arguments ne_now {X}.

Record server (B : Type) := mkServer {
  sv_backend : B;
  sv_reads : Z;
  sv_readBytes : Z;
  sv_breaker : Z;
  sv_errs : Z;
  sv_pending : Z;
  sv_lastIO : Z;
}.
Arguments sv_backend {B}.
Arguments sv_reads {B}.
Arguments sv_readBytes {B}.
Arguments sv_breaker {B}.
Arguments sv_errs {B}.
Arguments sv_pending {B}.
Arguments sv_lastIO {B}.

(** A request header as read off the wire. *)
Record request := mkRequest {
  rq_magic : Z;
  rq_typ : Z;
  rq_handle : list byte;
  rq_offset : Z;
  rq_length : Z;
}.

Definition parse_request (b : list byte) : request :=
  {| rq_magic := be_val (slice 0 4 b); rq_typ := Z.land (be_val (slice 4 4 b)) 0xffff;
     rq_handle := slice 8 8 b; rq_offset := be_val (slice 16 8 b); rq_length := be_val (slice 24 4 b) |}.

(** [reply]: the bytes put on the socket. *)
Definition reply (handle : list byte) (errCode : Z) (payload : list byte) : list byte :=
  be_bytes 4 nbdReplyMagic ++ be_bytes 4 errCode ++ handle ++ payload.

Section Serve.
Context {B X : Type} `{Backend B X}.
Variable MaxReadBytes : Z.

Definition accept (s : server B) : server B :=
  {| sv_backend := sv_backend s; sv_reads := sv_reads s; sv_readBytes := sv_readBytes s;
     sv_breaker := sv_breaker s; sv_errs := sv_errs s; sv_pending := sv_pending s + 1;
     sv_lastIO := sv_lastIO s |}.

(** The [complete] closure. *)
Definition complete (now : Z) (s : server B) : server B :=
  {| sv_backend := sv_backend s; sv_reads := sv_reads s; sv_readBytes := sv_readBytes s;
     sv_breaker := sv_breaker s; sv_errs := sv_errs s; sv_pending := sv_pending s - 1;
     sv_lastIO := now |}.

Definition count_err (s : server B) : server B :=
  {| sv_backend := sv_backend s; sv_reads := sv_reads s; sv_readBytes := sv_readBytes s;
     sv_breaker := sv_breaker s; sv_errs := sv_errs s + 1; sv_pending := sv_pending s;
     sv_lastIO := sv_lastIO s |}.

Definition count_read (n : Z) (s : server B) : server B :=
  {| sv_backend := sv_backend s; sv_reads := sv_reads s + 1; sv_readBytes := sv_readBytes s + n;
     sv_breaker := sv_breaker s; sv_errs := sv_errs s; sv_pending := sv_pending s;
     sv_lastIO := sv_lastIO s |}.

(** [serveRead]: [None] is an error. *)
Definition serveRead (e : nbd_env X) (len : nat) (off : Z) (s : server B)
    : server B * option (list byte) :=
  let '(b, a) := back_read (ne_back e) len off (sv_backend s) in
  let late := match a with None => ne_late e | Some _ => false end in
  let s := {| sv_backend := b; sv_reads := sv_reads s; sv_readBytes := sv_readBytes s;
              sv_breaker := if late then sv_breaker s + 1 else sv_breaker s; sv_errs := sv_errs s;
              sv_pending := sv_pending s; sv_lastIO := sv_lastIO s |} in
  match a with
  | None => (s, None)
  | Some (n, buf) => if n <? Z.of_nat len then (s, None) else (s, Some buf)
  end.

(** One iteration of [serve] on the bytes waiting on the socket: the server,
    what is left of the input ([None] once stopped), and the bytes written. *)
Definition serve_one (e : nbd_env X) (s : server B) (input : list byte)
    : server B * option (list byte) * list byte :=
  if (length input <? nbdRequestLen)%nat then (s, None, [])
  else
    let rq := parse_request (take nbdRequestLen input) in
    let input := drop nbdRequestLen input in
    if negb (rq_magic rq =? nbdRequestMagic) then (s, None, [])
    else if rq_typ rq =? nbdCmdDisc then (s, None, [])
    else
      let s := accept s in
      let finish s input errCode payload :=
        let s := complete (ne_now e) s in
        if ne_write e then (s, Some input, reply (rq_handle rq) errCode payload) else (s, None, []) in
      let len := Z.to_nat (rq_length rq) in
      if rq_typ rq =? nbdCmdRead then
        if MaxReadBytes <? rq_length rq then finish (count_err s) input nbdEIO []
        else match serveRead e len (i64 (rq_offset rq)) s with
        | (s, None) => finish (count_err s) input nbdEIO []
        | (s, Some buf) => finish (count_read (rq_length rq) s) input 0 buf
        end
      else if rq_typ rq =? nbdCmdWrite then
        let input := if rq_length rq <=? MaxReadBytes then drop len input else input in
        finish s input nbdEPERM []
      else if (rq_typ rq =? nbdCmdFlush) || (rq_typ rq =? nbdCmdTrim) then finish s input 0 []
      else finish s input nbdEPERM [].

(** [serve]: one environment per request. *)
Fixpoint serve (es : list (nbd_env X)) (s : server B) (input : list byte)
    : server B * option (list byte) * list byte :=
  match es with
  | [] => (s, Some input, [])
  | e :: es =>
      match serve_one e s input with
      | (s, None, out) => (s, None, out)
      | (s, Some input, out) =>
          let '(s, rest, out') := serve es s input in (s, rest, out ++ out')
      end
  end.

(** [StalledFor] (on a device that is not closed). *)
Definition StalledFor (s : server B) (now d : Z) : bool :=
  if sv_pending s <=? 0 then false
  else if sv_lastIO s =? 0 then false
  else d <? now - sv_lastIO s.
End Serve.

(** ** The abstract device *)

(** A command, as the kernel means it. *)
Inductive command :=
  | CRead (off : Z) (len : Z)
  | CWrite (off : Z) (data : list byte)
  | CFlush
  | CTrim (off : Z) (len : Z)
  | COther (typ off len : Z).

(** Its bytes on the wire: [flags] is the upper half of the type field. *)
Definition encode_header (flags typ : Z) (handle : list byte) (off len : Z) : list byte :=
  be_bytes 4 nbdRequestMagic ++ be_bytes 4 (flags * 2 ^ 16 + typ) ++ handle ++ be_bytes 8 off ++
  be_bytes 4 len.

Definition encode (flags : Z) (handle : list byte) (c : command) : list byte :=
  match c with
  | CRead off len => encode_header flags nbdCmdRead handle off len
  | CWrite off data => encode_header flags nbdCmdWrite handle off (Z.of_nat (length data)) ++ data
  | CFlush => encode_header flags nbdCmdFlush handle 0 0
  | CTrim off len => encode_header flags nbdCmdTrim handle off len
  | COther typ off len => encode_header flags typ handle off len
  end.

Definition field_ok (off len : Z) : Prop := 0 ≤ off < 2 ^ 64 ∧ 0 ≤ len < 2 ^ 32.

Definition command_ok (max : Z) (c : command) : Prop :=
  match c with
  | CRead off len | CTrim off len => field_ok off len
  | CWrite off data => field_ok off (Z.of_nat (length data)) ∧ Z.of_nat (length data) ≤ max
  | CFlush => True
  | COther typ off len => field_ok off len ∧ (typ = 4 ∨ 5 < typ < 2 ^ 16)
  end.

(** What a read-only device answers. *)
Section Device.
Context {B X : Type} `{Backend B X}.
Variable max : Z.

Definition answer (x : X) (c : command) (b : B) : B * (Z * list byte) :=
  match c with
  | CRead off len =>
      if max <? len then (b, (nbdEIO, []))
      else match back_read x (Z.to_nat len) (i64 off) b with
      | (b, None) => (b, (nbdEIO, []))
      | (b, Some (n, buf)) => (b, if n <? len then (nbdEIO, []) else (0, buf))
      end
  | CWrite _ _ | COther _ _ _ => (b, (nbdEPERM, []))
  | CFlush | CTrim _ _ => (b, (0, []))
  end.

(** The bytes of a sequence of commands. *)
Fixpoint wire (l : list (nbd_env X * Z * list byte * command)) : list byte :=
  match l with
  | [] => []
  | (_, flags, handle, c) :: l => encode flags handle c ++ wire l
  end.

(** A session: every command gets one reply, in order, under its handle. *)
Fixpoint session (l : list (nbd_env X * Z * list byte * command)) (b : B) : B * list byte :=
  match l with
  | [] => (b, [])
  | (e, _, handle, c) :: l =>
      let '(b, (err, payload)) := answer (ne_back e) c b in
      let '(b, out) := session l b in (b, reply handle err payload ++ out)
  end.
End Device.

(** ** Parsing *)

Lemma parse_header flags typ handle off len rest :
  0 ≤ flags < 2 ^ 16 → 0 ≤ typ < 2 ^ 16 → length handle = 8%nat → field_ok off len →
  let b := encode_header flags typ handle off len ++ rest in
  parse_request (take nbdRequestLen b) =
    {| rq_magic := nbdRequestMagic; rq_typ := typ; rq_handle := handle; rq_offset := off;
       rq_length := len |} ∧
  drop nbdRequestLen b = rest ∧ (nbdRequestLen ≤ length b)%nat.
Proof.
  intros Hf Ht Hh [Ho Hl]. cbv zeta.
  assert (Hlen : length (encode_header flags typ handle off len) = nbdRequestLen).
  { unfold encode_header. rewrite !length_app, !length_be_bytes, Hh. done. }
  rewrite take_app_length', drop_app_length' by done. split; [|split; [done|rewrite length_app; lia]].
  unfold parse_request, encode_header. f_equal.
  - rewrite slice_app_mid by (by rewrite ?length_be_bytes).
    rewrite be_val_bytes by (simpl Z.pow; lia). change 0xffff with (Z.ones 16).
    rewrite Z.land_ones by lia. rewrite Z.add_comm, Z.mod_add, Z.mod_small by lia. done.
  - rewrite (app_assoc (be_bytes 4 _)). apply slice_app_mid; [|done].
    by rewrite length_app, !length_be_bytes.
  - rewrite (app_assoc (be_bytes 4 _)), (app_assoc (_ ++ _) handle).
    rewrite slice_app_mid by (rewrite ?length_app, ?length_be_bytes, ?Hh; done). by apply be_val_bytes.
  - rewrite (app_assoc (be_bytes 4 _)), (app_assoc (_ ++ _) handle), (app_assoc ((_ ++ _) ++ handle)).
    rewrite <- (app_nil_r (be_bytes 4 len)).
    rewrite slice_app_mid by (rewrite ?length_app, ?length_be_bytes, ?Hh; done). by apply be_val_bytes.
Qed.

(** ** The loop refines the abstract device *)

Section Refinement.
Context {B X : Type} `{Backend B X}.
Variable max : Z.

Definition item_ok (x : nbd_env X * Z * list byte * command) : Prop :=
  let '(e, flags, handle, c) := x in
  ne_write e = true ∧ 0 ≤ flags < 2 ^ 16 ∧ length handle = 8%nat ∧ command_ok max c.

Ltac answered := eexists; split; [reflexivity | split; [reflexivity | split; [simpl; lia | reflexivity]]].

(** One command, whatever follows it on the socket. *)
Lemma serve_one_spec e flags handle c (s : server B) rest :
  item_ok (e, flags, handle, c) →
  let '(b, (err, payload)) := answer max (ne_back e) c (sv_backend s) in
  ∃ s', serve_one max e s (encode flags handle c ++ rest) = (s', Some rest, reply handle err payload) ∧
    sv_backend s' = b ∧ sv_pending s' = sv_pending s ∧ sv_lastIO s' = ne_now e.
Proof.
  intros (Hw & Hf & Hh & Hc).
  assert (Hgo : ∀ typ off len data, 0 ≤ typ < 2 ^ 16 → typ ≠ nbdCmdDisc → field_ok off len →
    serve_one max e s ((encode_header flags typ handle off len ++ data) ++ rest) =
    (let s := accept s in
     let input := data ++ rest in
     let finish s input errCode payload :=
       (complete (ne_now e) s, Some input, reply handle errCode payload) in
     if typ =? nbdCmdRead then
       if max <? len then finish (count_err s) input nbdEIO []
       else match serveRead e (Z.to_nat len) (i64 off) s with
       | (s, None) => finish (count_err s) input nbdEIO []
       | (s, Some buf) => finish (count_read len s) input 0 buf
       end
     else if typ =? nbdCmdWrite then
       finish s (if len <=? max then drop (Z.to_nat len) input else input) nbdEPERM []
     else if (typ =? nbdCmdFlush) || (typ =? nbdCmdTrim) then finish s input 0 []
     else finish s input nbdEPERM [])).
  { intros typ off len data Ht Hd Hfo. unfold serve_one. rewrite <- app_assoc.
    destruct (parse_header flags typ handle off len (data ++ rest) Hf Ht Hh Hfo) as (Hp & Hdr & Hle).
    rewrite (proj2 (Nat.ltb_ge _ _)) by done. rewrite Hp, Hdr. cbn [rq_magic rq_typ rq_handle rq_offset rq_length].
    rewrite Z.eqb_refl, (proj2 (Z.eqb_neq typ nbdCmdDisc)) by done. simpl negb. cbv iota zeta. by rewrite Hw. }
  destruct c as [off len|off data| |off len|typ off len]; cbn [answer encode].
  - rewrite <- (app_nil_r (encode_header _ _ _ _ _)), Hgo by (done || (unfold nbdCmdDisc, nbdCmdRead; lia)).
    cbv zeta. cbn [Z.eqb nbdCmdRead app]. destruct (max <? len); [answered|].
    unfold serveRead. cbn [accept sv_backend].
    destruct (back_read _ _ _ _) as [b [[n buf]|]]; [|answered].
    destruct Hc as [_ Hl]. rewrite Z2Nat.id by lia. destruct (n <? len); answered.
  - destruct Hc as [Hfo Hm]. rewrite Hgo by (done || (unfold nbdCmdDisc, nbdCmdWrite; lia)).
    cbv zeta. cbn [Z.eqb nbdCmdRead nbdCmdWrite Pos.eqb]. rewrite (proj2 (Z.leb_le _ _)) by done.
    rewrite Nat2Z.id, drop_app_length. answered.
  - rewrite <- (app_nil_r (encode_header _ _ _ _ _)), Hgo by (done || (unfold field_ok, nbdCmdDisc, nbdCmdFlush; lia)).
    answered.
  - rewrite <- (app_nil_r (encode_header _ _ _ _ _)), Hgo by (done || (unfold nbdCmdDisc, nbdCmdTrim; lia)).
    answered.
  - destruct Hc as [Hfo Ht]. rewrite <- (app_nil_r (encode_header _ _ _ _ _)).
    rewrite Hgo by (done || (unfold nbdCmdDisc; lia)). cbv zeta. cbn [app].
    unfold nbdCmdRead, nbdCmdWrite, nbdCmdFlush, nbdCmdTrim.
    rewrite !(proj2 (Z.eqb_neq typ _)) by lia. answered.
Qed.

(** C3. The loop is the abstract read-only device.  Over any sequence of
    well-formed commands (a write no longer than the drain buffer), the bytes
    it writes are the device's replies, one per command, in order, each under
    its own handle; all the input is consumed; and no request is left pending,
    so the watchdog never sees an answered device as stalled. *)
Theorem serve_refines_device (l : list (nbd_env X * Z * list byte * command)) (s : server B) :
  Forall item_ok l → sv_pending s = 0 →
  let '(s', rest, out) := serve max ((λ x, x.1.1.1) <$> l) s (wire l) in
  (sv_backend s', out) = session max l (sv_backend s) ∧ rest = Some [] ∧ sv_pending s' = 0 ∧
  ∀ now d, StalledFor s' now d = false.
Proof.
  intros Hl. revert s. induction Hl as [|[[[e flags] handle] c] l Hc _ IH]; intros s Hp.
  { simpl. split_and!; try done. intros now d. unfold StalledFor. by rewrite Hp. }
  rewrite fmap_cons. cbn [wire serve session fst].
  pose proof (serve_one_spec e flags handle c s (wire l) Hc) as Hone.
  destruct (answer max (ne_back e) c (sv_backend s)) as [b [err payload]].
  destruct Hone as (s1 & H1 & H2 & H3 & H4). rewrite H1.
  specialize (IH s1 ltac:(lia)). rewrite H2 in IH.
  destruct (serve max _ s1 _) as [[s2 rest] out]. destruct (session max l b) as [b' out'].
  destruct IH as ([= -> ->] & -> & Hp2 & Hst). by split_and!.
Qed.
End Refinement.

(** ** The disk resolver as a backend *)

Section ResolverBackend.
Variable Sum256 : list byte → list byte.
Variable h : DiskHeader.Header.

#[export] Instance resolver_backend : Backend Resolver.resolver io := {|
  back_read o len off r :=
    match Resolver.ReadAt Sum256 Resolver.disk_out h o len off r with
    | (r, Ok (n, dst)) => (r, Some (n, dst))
    | (r, Err _) => (r, None)
    end;
|}.

Variable img : list byte.
Context (Hwf : wf_geom h) (Himg : image_of h img).

#[export] Program Instance resolver_image : ImageBackend Resolver.resolver io img := {|
  back_inv r := Resolver.res_inv h img true r ∧ Resolver.r_inflight r = ∅;
  back_env o := honest Sum256 h img o;
|}.
Next Obligation.
  intros o len off r r' a Ho [Hi Hn] Hl Hl2 Hoff. cbn [back_read resolver_backend].
  destruct (Resolver.ReadAt _ _ _ _ _ _ _) as [r1 [[n dst]|e]] eqn:Hr; intros [= <- <-];
    destruct (Resolver.disk_read_aux Sum256 Resolver.disk_out h img Hwf o len off r r1 _ Ho Hi Hn Hl Hl2
                ltac:(destruct Himg; lia) Hr) as (H1 & H2 & _ & H3); [|done].
  split; [done|]. destruct H3 as (-> & _ & ->).
  assert (Hav : Resolver.avail h off len = len) by (unfold Resolver.avail; destruct Himg; lia).
  rewrite Hav, Nat.sub_diag. by rewrite app_nil_r.
Qed.
End ResolverBackend.

(** A guest read returns the image.  On any backend that promises what the
    server relies on, a read request inside the image is answered under its
    handle either with EIO or with success and exactly the image's bytes, and
    the backend keeps its promise for the next request. *)
Theorem guest_read_is_image {B X : Type} {img : list byte} `{ImageBackend B X img}
    (max : Z) (e : nbd_env X) (flags : Z) (handle rest : list byte) (off len : nat) (s : server B) :
  ne_write e = true → 0 ≤ flags < 2 ^ 16 → length handle = 8%nat →
  (0 < len)%nat → Z.of_nat len < 2 ^ 32 → Z.of_nat off < 2 ^ 63 → (off + len ≤ length img)%nat →
  back_env (ne_back e) → back_inv (sv_backend s) →
  ∃ s' out, serve_one max e s (encode flags handle (CRead (Z.of_nat off) (Z.of_nat len)) ++ rest)
            = (s', Some rest, out) ∧
    back_inv (sv_backend s') ∧
    (out = reply handle nbdEIO [] ∨ out = reply handle 0 (slice off len img)).
Proof.
  intros Hw Hf Hh Hl Hl2 Ho Hfit He Hinv.
  assert (Hok : item_ok max (e, flags, handle, CRead (Z.of_nat off) (Z.of_nat len))).
  { unfold item_ok, command_ok, field_ok. split_and!; try done; lia. }
  pose proof (serve_one_spec max e flags handle _ s rest Hok) as Hone. cbn [answer] in Hone.
  destruct (max <? Z.of_nat len).
  { destruct Hone as (s' & H1 & H2 & _). exists s', (reply handle nbdEIO []).
    rewrite H2. split_and!; [done|done|by left]. }
  rewrite Nat2Z.id, i64_small in Hone by lia.
  destruct (back_read (ne_back e) len (Z.of_nat off) (sv_backend s)) as [b a] eqn:Hr.
  destruct (back_read_ok _ _ _ _ _ _ He Hinv Hl ltac:(lia) Hfit Hr) as [Hb Ha].
  destruct a as [[n buf]|].
  - destruct Ha as [-> ->]. rewrite Z.ltb_irrefl in Hone. destruct Hone as (s' & H1 & H2 & _).
    exists s', (reply handle 0 (slice off len img)). rewrite H2. split_and!; [done|done|by right].
  - destruct Hone as (s' & H1 & H2 & _).
    exists s', (reply handle nbdEIO []). rewrite H2. split_and!; [done|done|by left].
Qed.

(** A write longer than the drain buffer is rejected without being drained, so
    its payload is read as the next requests: here an 8-byte buffer and a
    28-byte payload that spells a flush, which is answered. *)
#[local] Instance unit_backend : Backend unit unit := {| back_read _ _ _ b := (b, None) |}.
Definition u_env : nbd_env unit := {| ne_back := (); ne_late := false; ne_write := true; ne_now := 1 |}.
Definition u_server : server unit :=
  {| sv_backend := (); sv_reads := 0; sv_readBytes := 0; sv_breaker := 0; sv_errs := 0;
     sv_pending := 0; sv_lastIO := 0 |}.

Lemma oversized_write_desyncs :
  let h1 := replicate 8 x01 in
  let h2 := replicate 8 x02 in
  let input := encode 0 h1 (CWrite 0 (encode 0 h2 CFlush)) in
  (serve 8 [u_env; u_env] u_server input).2 = reply h1 nbdEPERM [] ++ reply h2 0 [].
Proof. vm_compute. reflexivity. Qed.

(** ** Witnesses *)

Abbreviation w_img := DiskHeader.sample_file (only parsing).
Abbreviation w_h := DiskHeader.sample_header (only parsing).
Definition w_up : io :=
  {| io_read := λ off len, Ok (slice (Z.to_nat off) (Z.to_nat len) w_img); io_wfault := λ _, None |}.

Lemma nbd_w_wf : wf_geom w_h.
Proof. unfold wf_geom. vm_compute. repeat split; discriminate. Qed.

Lemma nbd_w_image : image_of w_h w_img.
Proof.
  split; [vm_compute; done|]. intros i Hi. change (NumChunks w_h) with 3 in Hi.
  destruct i as [|[|[|i]]]; [vm_compute; done..|lia].
Qed.

Lemma nbd_w_honest : honest DiskHeader.demo_sum w_h w_img w_up.
Proof.
  intros i got Hi. change (NumChunks w_h) with 3 in Hi.
  destruct i as [|[|[|i]]]; [intros _ [= <-] _ _; vm_compute; reflexivity..|lia].
Qed.

#[local] Instance w_backend : Backend Resolver.resolver io := resolver_backend DiskHeader.demo_sum w_h.
#[local] Instance w_ibackend : ImageBackend Resolver.resolver io w_img :=
  resolver_image DiskHeader.demo_sum w_h w_img nbd_w_wf nbd_w_image.

Definition w_e : nbd_env io := {| ne_back := w_up; ne_late := false; ne_write := true; ne_now := 9 |}.
Definition w_server : server Resolver.resolver :=
  {| sv_backend := Resolver.NewResolver w_h []; sv_reads := 0; sv_readBytes := 0; sv_breaker := 0;
     sv_errs := 0; sv_pending := 0; sv_lastIO := 0 |}.
Definition w_handle : list byte := [x00; x01; x02; x03; x04; x05; x06; x07].

Lemma guest_read_is_image_witness :
  ∃ s' out, serve_one 4096 w_e w_server (encode 0 w_handle (CRead 7 3) ++ [x09]) = (s', Some [x09], out) ∧
    back_inv (sv_backend s') ∧
    (out = reply w_handle nbdEIO [] ∨ out = reply w_handle 0 (slice 7 3 w_img)).
Proof.
  apply (guest_read_is_image 4096 w_e 0 w_handle [x09] 7 3 w_server);
    [reflexivity | lia | reflexivity | lia | lia | lia | vm_compute; lia | exact nbd_w_honest |].
  split; [exact (Resolver.new_inv_clean w_h w_img nbd_w_wf nbd_w_image) | reflexivity].
Defined.

Lemma serve_refines_device_witness :
  let l := [(w_e, 0, w_handle, CRead 7 3); (w_e, 1, w_handle, CWrite 0 [x01]); (w_e, 0, w_handle, CFlush)] in
  let '(s', rest, out) := serve 4096 ((λ x, x.1.1.1) <$> l) w_server (wire l) in
  (sv_backend s', out) = session 4096 l (sv_backend w_server) ∧ rest = Some [] ∧ sv_pending s' = 0 ∧
  ∀ now d, StalledFor s' now d = false.
Proof.
  apply (serve_refines_device 4096 [(w_e, 0, w_handle, CRead 7 3); (w_e, 1, w_handle, CWrite 0 [x01]);
                                    (w_e, 0, w_handle, CFlush)] w_server); [|reflexivity].
  repeat constructor; simpl; lia.
Defined.

(** A read that runs past the image's end is refused, although the resolver
    zero-fills it: [serveRead] takes the clamped count for a short read. *)
Lemma read_past_end_is_eio :
  (serve_one 4096 w_e w_server (encode 0 w_handle (CRead 8 4))).2 = reply w_handle nbdEIO [] ∧
  (Resolver.ReadAt DiskHeader.demo_sum Resolver.disk_out w_h w_up 4 8 (Resolver.NewResolver w_h [])).2
    = Ok (2, [x00; x07; x00; x00]).
Proof. split; vm_compute; reflexivity. Qed.
