(* ===== verification/Addr.v ===== *)
(** Addresses and names of the network layer: the /30 arithmetic of
    agent/internal/network/pool.go and natid.go on 32-bit words, and the names
    derived from a slot index or a sandbox id. *)

From stdpp Require Import pretty.
From S2P Require Import Prelude SlotStore.

Open Scope string_scope.
Open Scope list_scope.
Open Scope Z_scope.

(** ** Data *)

(** A [net.IPNet] of an IPv4 base: its first address and prefix length. *)
Record IPNet := mkNet { IP : Z; ones : Z }.

Definition net_ok (n : IPNet) : Prop :=
  0 ≤ ones n ≤ 32 ∧ 0 ≤ IP n ∧ IP n mod 2 ^ (32 - ones n) = 0 ∧ IP n + 2 ^ (32 - ones n) ≤ 2 ^ 32.

(** [uint32(1) << (32 - ones)]: 0 for a /0. *)
Definition net_size (n : IPNet) : Z := u32 (Z.shiftl 1 (32 - ones n)).

Definition poolCapacity (n : IPNet) : Z := net_size n / 4.

(** The 4 bytes of [binary.BigEndian.PutUint32], each as its value. *)
Definition ipFromUint32 (v : Z) : list Z :=
  map (λ k, Z.shiftr v k mod 256) [24; 16; 8; 0].

(** [IP.String] of a 4-byte address. *)
Definition dotted (ip : list Z) : string :=
  String.concat "." (map (λ b, pretty (Z.to_N b)) ip).

(** [%02X] of a byte. *)
Definition upper_digit (d : Z) : Ascii.ascii :=
  match String.get (Z.to_nat d) "0123456789ABCDEF" with Some c => c | None => Ascii.zero end.
Definition hex2 (b : Z) : string := String (upper_digit (b / 16)) (String (upper_digit (b mod 16)) "").

Definition macFromIP (ip : list Z) : string :=
  "06:00:AC:" +:+ hex2 (default 0 (ip !! 1%nat)) +:+ ":" +:+ hex2 (default 0 (ip !! 2%nat))
              +:+ ":" +:+ hex2 (default 0 (ip !! 3%nat)).

(** The subnet's address, host and guest, or the exhausted error. *)
Definition carve (base : IPNet) (idx : Z) : option (Z * Z * Z) :=
  if (net_size base <? u32 (u32 (idx * 4) + 4)) then None
  else
    let subStart := u32 (IP base + u32 (idx * 4)) in
    Some (subStart, u32 (subStart + 1), u32 (subStart + 2)).

(** [natidPoolBase], 10.200.0.0/16. *)
Definition natidPoolBase : IPNet := {| IP := 10 * 2 ^ 24 + 200 * 2 ^ 16; ones := 16 |}.

Definition carveNATID (idx : Z) : option (Z * Z) :=
  let baseStart := IP natidPoolBase in
  let subStart := u32 (baseStart + u32 (idx * 4)) in
  if (u32 (baseStart + 2 ^ 16) <? u32 (subStart + 4)) then None
  else Some (u32 (subStart + 1), u32 (subStart + 2)).

(** [strings.ReplaceAll(s, "-", "")] *)
Fixpoint undash (s : string) : string :=
  match s with
  | EmptyString => ""
  | String c s => if Ascii.eqb c (Ascii.ascii_of_nat 45) then undash s else String c (undash s)
  end.

Definition tapName (sandboxID : string) : string := "fc" +:+ String.substring 0 12 (undash sandboxID).
Definition shortHex (sandboxID : string) : string := String.substring 0 10 (undash sandboxID).
Definition natidShort (idx : Z) : string := "p" +:+ hex 8 (u32 idx).

(** [natidIdentityKey]; [ports] lists the map in the order the runtime
    iterates it, which the code does not fix. *)
Definition natidIdentityKey (tapHostIP guestIP mac : string) (ports : list (Z * Z)) : string :=
  String.concat "|" ([tapHostIP; guestIP; mac] ++ map (λ '(k, v), pretty k +:+ ":" +:+ pretty v) ports).

(** ** Lemmas *)

Lemma net_size_eq n : net_ok n → 0 < ones n → net_size n = 2 ^ (32 - ones n).
Proof.
  intros (Ho & _) Hp. unfold net_size. rewrite Z.shiftl_1_l. apply u32_small. split; [lia|].
  apply Z.pow_lt_mono_r; lia.
Qed.

Lemma capacity_bound n idx :
  net_ok n → 0 < ones n → 0 ≤ idx → idx < poolCapacity n ↔ idx * 4 + 4 ≤ net_size n.
Proof. intros Hn Hp Hi. unfold poolCapacity. split; intros.
  - pose proof (Z.mul_div_le (net_size n) 4 ltac:(lia)). lia.
  - assert (idx + 1 ≤ net_size n / 4) by (apply Z.div_le_lower_bound; lia). lia.
Qed.

Lemma size_le n : net_ok n → 0 < ones n → net_size n ≤ 2 ^ 31.
Proof. intros Hn Hp. rewrite net_size_eq by done. apply Z.pow_le_mono_r; destruct Hn; lia. Qed.

(** Every index below the capacity is carved, in the pool, and the address
    arithmetic does not wrap. *)
Lemma carve_ok n idx :
  net_ok n → 0 < ones n → 0 ≤ idx < poolCapacity n →
  carve n idx = Some (IP n + idx * 4, IP n + idx * 4 + 1, IP n + idx * 4 + 2) ∧
  IP n + idx * 4 + 4 ≤ IP n + net_size n ∧ IP n + net_size n ≤ 2 ^ 32.
Proof.
  intros Hn Hp [Hi Hc]. pose proof (size_le _ Hn Hp) as Hs.
  apply capacity_bound in Hc; [|done..]. pose proof Hn as (_ & Hip & _ & Ht).
  rewrite <- net_size_eq in Ht by done. unfold carve.
  rewrite (u32_small (idx * 4)) by lia. rewrite (u32_small (idx * 4 + 4)) by lia.
  destruct (Z.ltb_spec (net_size n) (idx * 4 + 4)); [lia|].
  rewrite (u32_small (IP n + idx * 4)) by lia. rewrite !u32_small by lia. repeat split; lia.
Qed.

(** Past the capacity the carve is refused (up to where [idx*4+4] wraps). *)
Lemma carve_exhausted n idx :
  net_ok n → 0 < ones n → poolCapacity n ≤ idx → idx * 4 + 4 < 2 ^ 32 → carve n idx = None.
Proof.
  intros Hn Hp Hc Hi. pose proof (size_le _ Hn Hp).
  assert (0 ≤ poolCapacity n).
  { unfold poolCapacity. apply Z.div_pos; [|lia]. rewrite net_size_eq by done. lia. }
  assert (¬ idx < poolCapacity n) as Hnc by lia. rewrite capacity_bound in Hnc by (done || lia).
  unfold carve. rewrite (u32_small (idx * 4)) by lia. rewrite (u32_small (idx * 4 + 4)) by lia.
  destruct (Z.ltb_spec (net_size n) (idx * 4 + 4)); [done|lia].
Qed.

(** Beyond it the 32-bit guard wraps and lets the index through. *)
Lemma carve_wraps : carve natidPoolBase (2 ^ 30 - 1) = Some (IP natidPoolBase - 4, IP natidPoolBase - 3, IP natidPoolBase - 2).
Proof. reflexivity. Qed.

Lemma carveNATID_carve idx :
  0 ≤ idx < poolCapacity natidPoolBase →
  carveNATID idx = (λ '(_, h, g), (h, g)) <$> carve natidPoolBase idx.
Proof.
  change (poolCapacity natidPoolBase) with 16384. intros [Hi Hc].
  unfold carveNATID, carve. change (net_size natidPoolBase) with 65536.
  change (IP natidPoolBase) with 180879360.
  rewrite (u32_small (idx * 4)) by lia. rewrite (u32_small (idx * 4 + 4)) by lia.
  rewrite (u32_small (180879360 + idx * 4)) by lia. rewrite (u32_small (180879360 + 2 ^ 16)) by lia.
  rewrite (u32_small (180879360 + idx * 4 + 4)) by lia.
  destruct (Z.ltb_spec 65536 (idx * 4 + 4)); [lia|].
  destruct (Z.ltb_spec (180879360 + 2 ^ 16) (180879360 + idx * 4 + 4)); [lia|done].
Qed.

Lemma upper_digit_inj a b : 0 ≤ a < 16 → 0 ≤ b < 16 → upper_digit a = upper_digit b → a = b.
Proof.
  intros Ha Hb. assert (∃ n, a = Z.of_nat n ∧ (n < 16)%nat) as (n & -> & Hn) by (exists (Z.to_nat a); lia).
  assert (∃ m, b = Z.of_nat m ∧ (m < 16)%nat) as (m & -> & Hm) by (exists (Z.to_nat b); lia).
  unfold upper_digit. rewrite !Nat2Z.id.
  do 16 (destruct n as [|n]; [do 16 (destruct m as [|m]; [simpl; congruence|]); lia|]). lia.
Qed.

Lemma hex2_inj a b : 0 ≤ a < 256 → 0 ≤ b < 256 → hex2 a = hex2 b → a = b.
Proof.
  intros Ha Hb [= H1 H2].
  apply upper_digit_inj in H1; [|split; [apply Z.div_pos; lia|apply Z.div_lt_upper_bound; lia]..].
  apply upper_digit_inj in H2; [|apply Z.mod_pos_bound; lia..].
  rewrite (Z.div_mod a 16), (Z.div_mod b 16) by lia. congruence.
Qed.

Lemma ip_bytes v : ipFromUint32 v = [v / 2 ^ 24 mod 256; v / 2 ^ 16 mod 256; v / 2 ^ 8 mod 256; v / 2 ^ 0 mod 256].
Proof. unfold ipFromUint32. cbn [map]. rewrite !Z.shiftr_div_pow2 by lia. done. Qed.

Lemma mod256 x : 0 ≤ x mod 256 < 256.
Proof. apply Z.mod_pos_bound. lia. Qed.

(** Two addresses with the same first byte and the same MAC are the same. *)
Lemma mac_inj v w :
  0 ≤ v < 2 ^ 32 → 0 ≤ w < 2 ^ 32 → v / 2 ^ 24 = w / 2 ^ 24 →
  macFromIP (ipFromUint32 v) = macFromIP (ipFromUint32 w) → v = w.
Proof.
  intros Hv Hw Htop. rewrite !ip_bytes. unfold macFromIP. cbn [lookup list_lookup default from_option].
  intros [= H1 H2 H3 H4 H5 H6].
  assert (∀ x y, hex2 (x mod 256) = hex2 (y mod 256) → x mod 256 = y mod 256) as Hh.
  { intros. apply hex2_inj; auto using mod256. }
  assert (v / 2 ^ 16 mod 256 = w / 2 ^ 16 mod 256) as E1 by (apply Hh; unfold hex2; congruence).
  assert (v / 2 ^ 8 mod 256 = w / 2 ^ 8 mod 256) as E2 by (apply Hh; unfold hex2; congruence).
  assert (v / 2 ^ 0 mod 256 = w / 2 ^ 0 mod 256) as E3 by (apply Hh; unfold hex2; congruence).
  assert (∀ x, x / 2 ^ 24 = x / 256 / 256 / 256 ∧ x / 2 ^ 16 = x / 256 / 256 ∧ x / 2 ^ 8 = x / 256 ∧ x / 2 ^ 0 = x) as E.
  { intros x. rewrite !Z.div_div by lia. repeat split. apply Z.div_1_r. }
  destruct (E v) as (Ev1 & Ev2 & Ev3 & Ev4), (E w) as (Ew1 & Ew2 & Ew3 & Ew4).
  rewrite Ev1, Ew1 in Htop. rewrite Ev2, Ew2 in E1. rewrite Ev3, Ew3 in E2. rewrite Ev4, Ew4 in E3.
  clear -Htop E1 E2 E3.
  assert (v / 256 / 256 = w / 256 / 256) as H2.
  { rewrite (Z.div_mod (v / 256 / 256) 256), (Z.div_mod (w / 256 / 256) 256), Htop, E1 by lia. done. }
  assert (v / 256 = w / 256) as H1.
  { rewrite (Z.div_mod (v / 256) 256), (Z.div_mod (w / 256) 256), H2, E2 by lia. done. }
  rewrite (Z.div_mod v 256), (Z.div_mod w 256), H1, E3 by lia. done.
Qed.

(** Two carved indexes of one pool give disjoint /30s, so distinct hosts and
    guests; and distinct MACs when the pool lies in one /8. *)
Lemma carve_spec_aux n i j :
  net_ok n → 8 ≤ ones n → 0 ≤ i < poolCapacity n → 0 ≤ j < poolCapacity n → i ≠ j →
  ∃ si hi gi sj hj gj,
    carve n i = Some (si, hi, gi) ∧ carve n j = Some (sj, hj, gj) ∧
    IP n ≤ si ∧ si + 4 ≤ IP n + 2 ^ (32 - ones n) ∧ hi = si + 1 ∧ gi = si + 2 ∧
    (si + 4 ≤ sj ∨ sj + 4 ≤ si) ∧
    macFromIP (ipFromUint32 gi) ≠ macFromIP (ipFromUint32 gj).
Proof.
  intros Hn Ho Hi Hj Hij. pose proof (net_size_eq n Hn ltac:(lia)) as Hs.
  destruct (carve_ok n i Hn ltac:(lia) Hi) as (Ei & Bi & T). destruct (carve_ok n j Hn ltac:(lia) Hj) as (Ej & Bj & _).
  rewrite Hs in *. pose proof Hn as (_ & Hip & Hmod & _).
  do 6 eexists. split; [exact Ei|]. split; [exact Ej|]. repeat split; try lia.
  intros Hm. apply mac_inj in Hm; [lia|lia|lia|].
  (* the pool is aligned to its size, at most a /8 block *)
  assert (0 < 2 ^ (32 - ones n)) as Hp by (apply Z.pow_pos_nonneg; destruct Hn; lia).
  assert (0 < 2 ^ (ones n - 8)) by (apply Z.pow_pos_nonneg; lia).
  assert (∃ q, IP n = q * 2 ^ (32 - ones n)) as [q Hq].
  { exists (IP n / 2 ^ (32 - ones n)). pose proof (Z.div_mod (IP n) (2 ^ (32 - ones n)) ltac:(lia)). lia. }
  assert (∃ d, 2 ^ 24 = d * 2 ^ (32 - ones n) ∧ 0 < d) as (d & Hd & Hd0).
  { exists (2 ^ (ones n - 8)). rewrite <- Z.pow_add_r by (destruct Hn; lia). split; [f_equal; lia|lia]. }
  rewrite Hq in *. rewrite Hd. set (p := 2 ^ (32 - ones n)) in *.
  assert (∀ x, 0 ≤ x < p → (q * p + x) / (d * p) = q / d) as E.
  { intros x Hx. rewrite (Z.mul_comm d), <- Z.div_div by lia. f_equal. rewrite Z.div_add_l by lia.
    rewrite Z.div_small; lia. }
  rewrite <- !Z.add_assoc, !E by lia. done.
Qed.

(** ** Properties *)

(** The legacy pool's address arithmetic, on 32-bit words: two different
    slots below the capacity are both carved, inside the pool and without
    wrapping, with host .1 and guest .2 of /30s that do not overlap, and (for
    a pool within one /8) their guests get different MAC addresses. *)
Theorem carve_spec n i j :
  net_ok n → 8 ≤ ones n → 0 ≤ i < poolCapacity n → 0 ≤ j < poolCapacity n → i ≠ j →
  ∃ si hi gi sj hj gj,
    carve n i = Some (si, hi, gi) ∧ carve n j = Some (sj, hj, gj) ∧
    IP n ≤ si ∧ si + 4 ≤ IP n + 2 ^ (32 - ones n) ∧ hi = si + 1 ∧ gi = si + 2 ∧
    (si + 4 ≤ sj ∨ sj + 4 ≤ si) ∧
    macFromIP (ipFromUint32 gi) ≠ macFromIP (ipFromUint32 gj).
Proof. apply carve_spec_aux. Qed.

Example carve_example : (λ '(s, h, g), (dotted (ipFromUint32 s), dotted (ipFromUint32 h), dotted (ipFromUint32 g), macFromIP (ipFromUint32 g)))
    <$> carve natidPoolBase 3000 = Some ("10.200.46.224", "10.200.46.225", "10.200.46.226", "06:00:AC:C8:2E:E2").
Proof. vm_compute. reflexivity. Qed.

Lemma carve_spec_witness :
  net_ok natidPoolBase ∧ ∃ si hi gi sj hj gj,
    carve natidPoolBase 0 = Some (si, hi, gi) ∧ carve natidPoolBase 16383 = Some (sj, hj, gj) ∧
    IP natidPoolBase ≤ si ∧ si + 4 ≤ IP natidPoolBase + 2 ^ (32 - ones natidPoolBase) ∧ hi = si + 1 ∧ gi = si + 2 ∧
    (si + 4 ≤ sj ∨ sj + 4 ≤ si) ∧
    macFromIP (ipFromUint32 gi) ≠ macFromIP (ipFromUint32 gj).
Proof.
  assert (net_ok natidPoolBase) as Hn by (unfold net_ok; cbn -[Z.pow]; repeat split; try reflexivity; lia).
  split; [exact Hn|].
  apply (carve_spec natidPoolBase 0 16383); [exact Hn|cbn; lia|split; [lia|reflexivity]|split; [lia|reflexivity]|lia].
Defined.
