(* ===== verification/Crash.v ===== *)
(** A small crash logic for procedures that change durable state one effect at
    a time.  A computation runs against a state and a budget of effects; when
    the budget is used up the process dies between two effects and the state
    stays as it is.  A triple has an exceptional postcondition for that case. *)

From S2P Require Import Prelude.

(** The value and the budget left ([None]: killed), and the state. *)
Definition C (W A : Type) : Type := nat → W → option (A * nat) * W.

#[export] Instance C_ret {W} : MRet (C W) := λ A a n w, (Some (a, n), w).
#[export] Instance C_bind {W} : MBind (C W) := λ A B k c n w,
  match c n w with
  | (Some (a, n'), w') => k a n' w'
  | (None, w') => (None, w')
  end.

(** One effect: atomic, and the process may be killed before it. *)
Definition effect {W A} (f : W → A * W) : C W A := λ n w,
  match n with
  | O => (None, w)
  | S n => let '(a, w') := f w in (Some (a, n), w')
  end.

(** A step that touches no durable state. *)
Definition pure_step {W A} (f : W → A * W) : C W A := λ n w,
  let '(a, w') := f w in (Some (a, n), w').

(** A computation on a component of the state. *)
Definition zoom {V W A} (get : W → V) (put : V → W → W) (c : C V A) : C W A := λ n w,
  let '(r, v) := c n (get w) in (r, put v w).

(** [for _, x := range l { if err := f(x); err != nil { return err } }], as a boolean. *)
Fixpoint all_steps {W X} (f : X → C W bool) (l : list X) : C W bool :=
  match l with
  | [] => mret true
  | x :: l => ok ← f x; if (ok : bool) then all_steps f l else mret false
  end.

(** [for _, x := range l { f(x) }] *)
Fixpoint each {W X A} (f : X → C W A) (l : list X) : C W () :=
  match l with
  | [] => mret ()
  | x :: l => _ ← f x; each f l
  end.

(** [P ⟶ c ⟶ Q | R] : from [P], [c] ends in [Q] or is killed in [R]. *)
Definition triple {W A} (P : W → Prop) (c : C W A) (Q : A → W → Prop) (R : W → Prop) : Prop :=
  ∀ n w, P w → match c n w with
               | (Some (a, _), w') => Q a w'
               | (None, w') => R w'
               end.

Section rules.
Context {W : Type}.
Implicit Types (P R : W → Prop).

Lemma triple_conseq {A} P P' (c : C W A) Q Q' R R' :
  triple P' c Q' R' → (∀ w, P w → P' w) → (∀ a w, Q' a w → Q a w) → (∀ w, R' w → R w) →
  triple P c Q R.
Proof.
  intros H HP HQ HR n w Hw. specialize (H n w (HP w Hw)). destruct (c n w) as [[[a m]|] w']; auto.
Qed.

Lemma triple_ret {A} (a : A) P Q R : (∀ w, P w → Q a w) → triple P (mret a) Q R.
Proof. intros H n w Hw. apply H, Hw. Qed.

Lemma triple_bind {A B} P (c : C W A) (k : A → C W B) Q S R :
  triple P c Q R → (∀ a, triple (Q a) (k a) S R) → triple P (c ≫= k) S R.
Proof.
  intros Hc Hk n w Hw. specialize (Hc n w Hw). unfold mbind, C_bind.
  destruct (c n w) as [[[a m]|] w']; [apply Hk, Hc | exact Hc].
Qed.

Lemma triple_effect {A} P (f : W → A * W) Q R :
  (∀ w, P w → R w) → (∀ w, P w → Q (f w).1 (f w).2) → triple P (effect f) Q R.
Proof.
  intros HR HQ [|n] w Hw; simpl; [auto|]. specialize (HQ w Hw). destruct (f w) as [a w']. exact HQ.
Qed.

Lemma triple_pure_step {A} P (f : W → A * W) Q R :
  (∀ w, P w → Q (f w).1 (f w).2) → triple P (pure_step f) Q R.
Proof. intros HQ n w Hw. unfold pure_step. specialize (HQ w Hw). destruct (f w). exact HQ. Qed.

Lemma triple_case {A} (b : bool) P (c c' : C W A) Q R :
  (b = true → triple P c Q R) → (b = false → triple P c' Q R) →
  triple P (if b then c else c') Q R.
Proof. destruct b; auto. Qed.

Lemma triple_all_steps {X} (f : X → C W bool) l (I : W → Prop) (F : W → Prop) R :
  (∀ x, x ∈ l → triple I (f x) (λ ok w, if ok : bool then I w else F w) R) →
  triple I (all_steps f l) (λ ok w, if ok : bool then I w else F w) R.
Proof.
  intros H. induction l as [|x l IH]; simpl.
  - apply triple_ret. auto.
  - eapply triple_bind; [apply H; left|]. intros []; [apply IH; intros; apply H; by right | by apply triple_ret].
Qed.

(** Iterating over a list, the invariant indexed by what is still to do. *)
Lemma triple_each {X A} (f : X → C W A) (I : list X → W → Prop) R l :
  (∀ x l', triple (I (x :: l')) (f x) (λ _, I l') R) →
  triple (I l) (each f l) (λ _, I []) R.
Proof.
  intros H. induction l as [|x l IH]; simpl.
  - by apply triple_ret.
  - eapply triple_bind; [apply H | intros ?; exact IH].
Qed.

Lemma triple_zoom {V A} (get : W → V) (put : V → W → W) (c : C V A) P Q R PV QV RV :
  triple PV c QV RV →
  (∀ w, P w → PV (get w)) →
  (∀ w v a, P w → QV a v → Q a (put v w)) →
  (∀ w v, P w → RV v → R (put v w)) →
  triple P (zoom get put c) Q R.
Proof.
  intros Hc HP HQ HR n w Hw. specialize (Hc n (get w) (HP w Hw)). unfold zoom.
  destruct (c n (get w)) as [[[a m]|] v]; [eapply HQ | eapply HR]; eauto.
Qed.

Lemma triple_pre {A} P (φ : Prop) (c : C W A) Q R :
  (∀ w, P w → φ) → (φ → triple P c Q R) → triple P c Q R.
Proof. intros Hφ H n w Hw. by apply H; [eapply Hφ|]. Qed.

(** The state at the start can be named. *)
Lemma triple_start {A} P (c : C W A) Q R :
  (∀ w0, P w0 → triple (λ w, w = w0) c Q R) → triple P c Q R.
Proof. intros H n w Hw. by apply (H w Hw). Qed.

Lemma triple_run {A} P (c : C W A) Q R n w :
  triple P c Q R → P w →
  (∃ a m, (c n w).1 = Some (a, m) ∧ Q a (c n w).2) ∨ ((c n w).1 = None ∧ R (c n w).2).
Proof.
  intros H Hw. specialize (H n w Hw). destruct (c n w) as [[[a m]|] w']; [left|right]; eauto.
Qed.
End rules.

(** An existing list of effects never outlives a large enough budget. *)
Definition finishes {W A} (N : nat) (c : C W A) : Prop :=
  ∀ n w, (N ≤ n)%nat → ∃ a m, (c n w).1 = Some (a, m) ∧ (n ≤ m + N)%nat.

Lemma finishes_mono {W A} N M (c : C W A) : finishes N c → (N ≤ M)%nat → finishes M c.
Proof. intros H HM n w Hn. destruct (H n w ltac:(lia)) as (a & m & E & ?). exists a, m. split; [done|lia]. Qed.
Lemma finishes_ret {W A} (a : A) : finishes 0 (mret a : C W A).
Proof. intros n w _. exists a, n. split; [done|lia]. Qed.
Lemma finishes_effect {W A} (f : W → A * W) : finishes 1 (effect f).
Proof. intros [|n] w Hn; [lia|]. unfold effect. destruct (f w) as [a w'] eqn:E. exists a, n. simpl. split; [done|lia]. Qed.
Lemma finishes_pure_step {W A} (f : W → A * W) : finishes 0 (pure_step f).
Proof. intros n w _. unfold pure_step. destruct (f w) as [a w']. exists a, n. simpl. split; [done|lia]. Qed.
Lemma finishes_bind {W A B} N M (c : C W A) (k : A → C W B) :
  finishes N c → (∀ a, finishes M (k a)) → finishes (N + M) (c ≫= k).
Proof.
  intros Hc Hk n w Hn. destruct (Hc n w ltac:(lia)) as (a & m & E & Hm).
  destruct (Hk a m (c n w).2 ltac:(lia)) as (b & m' & E' & Hm'). exists b, m'.
  unfold mbind, C_bind. destruct (c n w) as [[[a' m0]|] w']; simpl in *; [|done].
  injection E as -> ->. split; [done|lia].
Qed.
Lemma finishes_zoom {V W A} N (get : W → V) (put : V → W → W) (c : C V A) :
  finishes N c → finishes N (zoom get put c).
Proof.
  intros Hc n w Hn. destruct (Hc n (get w) Hn) as (a & m & E & ?). exists a, m. unfold zoom.
  destruct (c n (get w)) as [[[a' m0]|] v]; simpl in *; [|done]. injection E as -> ->. split; [done|lia].
Qed.
