(* ===== verification/GoStrings.v ===== *)
(** The functions of Go's [strings] package the program uses, on UTF-8 text
    held as a [string] of bytes. *)

From stdpp Require Import pretty.
From S2P Require Import Prelude.

Open Scope string_scope.
Open Scope list_scope.
Open Scope Z_scope.

(** ** White space: the code points [unicode.IsSpace] accepts, encoded. *)

Definition code (c : Ascii.ascii) : Z := Z.of_N (Ascii.N_of_ascii c).

Definition space1 (a : Z) : bool := (9 <=? a) && (a <=? 13) || (a =? 32).
Definition space2 (a b : Z) : bool := (a =? 0xC2) && ((b =? 0x85) || (b =? 0xA0)).
Definition space3 (a b c : Z) : bool :=
  (a =? 0xE1) && (b =? 0x9A) && (c =? 0x80) ||
  (a =? 0xE2) && (b =? 0x80) && ((0x80 <=? c) && (c <=? 0x8A) || (c =? 0xA8) || (c =? 0xA9) || (c =? 0xAF)) ||
  (a =? 0xE2) && (b =? 0x81) && (c =? 0x9F) ||
  (a =? 0xE3) && (b =? 0x80) && (c =? 0x80).

Fixpoint ltrim (s : string) : string :=
  match s with
  | EmptyString => ""
  | String a s1 =>
      if space1 (code a) then ltrim s1
      else match s1 with
      | EmptyString => s
      | String b s2 =>
          if space2 (code a) (code b) then ltrim s2
          else match s2 with
          | EmptyString => s
          | String c s3 => if space3 (code a) (code b) (code c) then ltrim s3 else s
          end
      end
  end.

Fixpoint rtrim (s : string) : string :=
  if String.eqb (ltrim s) "" then ""
  else match s with
  | EmptyString => ""
  | String c s => String c (rtrim s)
  end.

Definition TrimSpace (s : string) : string := rtrim (ltrim s).

(** ** Splitting *)

(** [strings.Split(s, sep)] for a one-byte separator: never empty. *)
Fixpoint split (sep : Ascii.ascii) (s : string) : list string :=
  match s with
  | EmptyString => [""]
  | String c s' =>
      if Ascii.eqb c sep then "" :: split sep s'
      else match split sep s' with x :: xs => String c x :: xs | [] => [String c ""] end
  end.

Definition comma : Ascii.ascii := Ascii.ascii_of_nat 44.
Definition dash : Ascii.ascii := Ascii.ascii_of_nat 45.

(** [strings.HasSuffix] *)
Definition has_suffix (suf s : string) : bool :=
  (String.length suf <=? String.length s)%nat &&
  String.eqb (String.substring (String.length s - String.length suf) (String.length suf) s) suf.

(** [strings.HasPrefix], [strings.Contains] *)
Definition has_prefix (p s : string) : bool := String.prefix p s.
Definition str_contains (sub s : string) : bool :=
  match String.index 0 sub s with Some _ => true | None => false end.

(** [s[n:]] *)
Definition str_drop (n : nat) (s : string) : string := String.substring n (String.length s - n) s.

(** Every byte satisfies [f]. *)
Fixpoint all_chars (f : Ascii.ascii → bool) (s : string) : bool :=
  match s with EmptyString => true | String c s => f c && all_chars f s end.

(** [a < b] of two Go strings: the order of their bytes. *)
Fixpoint string_ltb (a b : string) : bool :=
  match a, b with
  | _, EmptyString => false
  | EmptyString, String _ _ => true
  | String x a, String y b => if code x =? code y then string_ltb a b else code x <? code y
  end.

(** ** [strconv] *)

Definition is_digit (c : Ascii.ascii) : bool := let n := code c in (48 <=? n) && (n <=? 57).
Fixpoint digits (acc : Z) (s : string) : option Z :=
  match s with
  | EmptyString => Some acc
  | String c s => if is_digit c then digits (acc * 10 + (code c - 48)) s else None
  end.

(** [strconv.ParseInt(s, 10, 64)]: the value, clamped when it is out of range,
    and whether there was an error. *)
Definition ParseInt (s : string) : Z * bool :=
  let '(neg, body) := match s with
    | String c r => if code c =? 45 then (true, r) else if code c =? 43 then (false, r) else (false, s)
    | EmptyString => (false, "")
    end in
  if String.eqb body "" then (0, true)
  else match digits 0 body with
  | None => (0, true)
  | Some v =>
      let v := if neg : bool then - v else v in
      if v <? - 2 ^ 63 then (- 2 ^ 63, true)
      else if 2 ^ 63 <=? v then (2 ^ 63 - 1, true)
      else (v, false)
  end.

Lemma TrimSpace_empty : TrimSpace "" = "".
Proof. reflexivity. Qed.

(** ** Concatenation *)

Lemma list_ascii_app a b :
  String.list_ascii_of_string (a +:+ b) = String.list_ascii_of_string a ++ String.list_ascii_of_string b.
Proof. induction a as [|c a IH]; [done|]. exact (f_equal (cons c) IH). Qed.

Lemma string_app_inj_r (a b t : string) : a +:+ t = b +:+ t → a = b.
Proof.
  intros E. apply (f_equal String.list_ascii_of_string) in E.
  rewrite !list_ascii_app in E. apply app_inv_tail in E.
  by rewrite <- (String.string_of_list_ascii_of_string a), <- (String.string_of_list_ascii_of_string b), E.
Qed.

Lemma string_app_assoc (a b c : string) : a +:+ (b +:+ c) = (a +:+ b) +:+ c.
Proof. induction a as [|x a IH]; [done|]. exact (f_equal (String x) IH). Qed.

Lemma has_prefix_iff p s : has_prefix p s = true ↔ ∃ r, s = p +:+ r.
Proof.
  unfold has_prefix. revert s. induction p as [|c p IH]; intros s; cbn.
  - split; [by exists s | by destruct s].
  - destruct s as [|c' s]; [split; [done | by intros []]|]. cbn [String.prefix]. destruct (Ascii.ascii_dec c c') as [->|Hne].
    + etransitivity; [apply IH|]. split; intros [r Hr]; exists r; [by rewrite Hr | by injection Hr].
    + split; [done|]. intros [r [= ??]]. congruence.
Qed.

Lemma substring_app a b r : String.substring (String.length a) (String.length b) (a +:+ b +:+ r) = b.
Proof.
  induction a as [|c a IH]; [|exact IH]. induction b as [|c b IH]; [by destruct r|].
  change (String c (String.substring 0 (String.length b) (b +:+ r)) = String c b). f_equal. exact IH.
Qed.

Lemma str_contains_app a b r : b ≠ "" → str_contains b (a +:+ b +:+ r) = true.
Proof.
  intros Hb. unfold str_contains. destruct (String.index 0 b _) eqn:E; [done|].
  destruct (String.index_correct3 0 (String.length a) b _ E Hb ltac:(lia)). apply substring_app.
Qed.

(** ** Fields and numbers *)

Fixpoint word (s : string) : string * string :=
  match s with
  | EmptyString => ("", "")
  | String c r => if String.eqb (ltrim s) s then (let '(w, rest) := word r in (String c w, rest)) else ("", s)
  end.

Fixpoint fields_aux (fuel : nat) (s : string) : list string :=
  match fuel with
  | O => []
  | S fuel => let s := ltrim s in
      if String.eqb s "" then [] else let '(w, rest) := word s in w :: fields_aux fuel rest
  end.

(** [strings.Fields] *)
Definition Fields (s : string) : list string := fields_aux (S (String.length s)) s.

(** [strings.LastIndex(s, sep)] for a one-byte separator, as what follows it
    (the whole string when it does not occur). *)
Definition after_last (sep : Ascii.ascii) (s : string) : string := List.last (split sep s) "".

Lemma digits_app acc a b : digits acc (a +:+ b) = match digits acc a with Some v => digits v b | None => None end.
Proof.
  revert acc. induction a as [|c a IH]; intros acc; [done|].
  change (String c a +:+ b) with (String c (a +:+ b)). cbn [digits]. destruct (is_digit c); [apply IH|done].
Qed.

Lemma digits_nonneg acc s v : 0 ≤ acc → digits acc s = Some v → acc ≤ v.
Proof.
  revert acc. induction s as [|c s IH]; intros acc Ha; cbn [digits]; [intros [= ->]; lia|].
  destruct (is_digit c) eqn:E; [|done]. unfold is_digit in E. rewrite andb_true_iff, !Z.leb_le in E.
  intros H. apply IH in H; lia.
Qed.

Lemma digits_all acc s v : digits acc s = Some v → all_chars is_digit s = true.
Proof.
  revert acc. induction s as [|c s IH]; intros acc; [done|]. cbn [digits all_chars].
  destruct (is_digit c); [apply IH|done].
Qed.

Lemma pretty_char_digit x : (x < 10)%N →
  is_digit (pretty_N_char x) = true ∧ code (pretty_N_char x) - 48 = Z.of_N x.
Proof.
  intros Hx.
  assert (x = 0 ∨ x = 1 ∨ x = 2 ∨ x = 3 ∨ x = 4 ∨ x = 5 ∨ x = 6 ∨ x = 7 ∨ x = 8 ∨ x = 9)%N as Hc by lia.
  by repeat (destruct Hc as [->|Hc]; [done|]); subst x.
Qed.

Lemma digits_pretty_go x s : digits 0 (pretty_N_go x s) = digits (Z.of_N x) s.
Proof.
  revert s. induction (N.lt_wf_0 x) as [x _ IH]. intros s. destruct (decide (x = 0)%N) as [->|Hx]; [by rewrite pretty_N_go_0|].
  rewrite pretty_N_go_step by lia. rewrite IH by (apply N.div_lt; lia). cbn [digits].
  destruct (pretty_char_digit (x mod 10)) as [-> ->]; [apply N.mod_lt; lia|]. f_equal.
  rewrite N2Z.inj_div, N2Z.inj_mod. pose proof (Z.div_mod (Z.of_N x) 10). lia.
Qed.

Lemma digits_pretty (z : Z) : 0 ≤ z → digits 0 (pretty z) = Some z.
Proof.
  intros Hz. destruct z as [|p|p]; [done| |lia]. change (pretty (Z.pos p)) with (pretty_N_go (N.pos p) "").
  by rewrite digits_pretty_go.
Qed.

Lemma pretty_head (z : Z) : 0 ≤ z → ∃ c r, pretty z = String c r ∧ is_digit c = true.
Proof.
  intros Hz. pose proof (digits_pretty z Hz) as Hd. destruct (pretty z) as [|c r] eqn:E.
  - exfalso. destruct z as [|p|p]; [done| |lia]. change (pretty_N_go (N.pos p) "" = "") in E.
    apply (f_equal String.length) in E. revert E. rewrite pretty_N_go_step by lia. clear.
    generalize (N.pos p `div` 10)%N as x. intros x. generalize (pretty_N_char (N.pos p `mod` 10)) as c. intros c E.
    cut (∀ y s, (String.length s ≤ String.length (pretty_N_go y s))%nat); [intros H; specialize (H x (String c "")); cbn in *; lia|].
    intros y. induction (N.lt_wf_0 y) as [y _ IH]. intros s. destruct (decide (y = 0)%N) as [->|]; [by rewrite pretty_N_go_0|].
    rewrite pretty_N_go_step by lia. specialize (IH (y / 10)%N ltac:(apply N.div_lt; lia) (String (pretty_N_char (y mod 10)) s)).
    cbn [String.length] in IH. lia.
  - exists c, r. split; [done|]. apply digits_all in Hd. cbn [all_chars] in Hd. by apply andb_true_iff in Hd as [? _].
Qed.

(** Printing and parsing. *)
Lemma ParseInt_pretty (z : Z) : 0 ≤ z < 2 ^ 63 → ParseInt (pretty z) = (z, false).
Proof.
  intros Hz. destruct (pretty_head z ltac:(lia)) as (c & r & E & Hc). unfold ParseInt. rewrite E.
  assert ((code c =? 45) = false ∧ (code c =? 43) = false) as [-> ->].
  { unfold is_digit in Hc. rewrite andb_true_iff, !Z.leb_le in Hc. lia. }
  rewrite <- E. rewrite digits_pretty by lia.
  destruct (String.eqb_spec (pretty z) ""); [congruence|].
  destruct (Z.ltb_spec z (- 2 ^ 63)); [lia|]. destruct (Z.leb_spec (2 ^ 63) z); [lia|]. done.
Qed.

(** A separator whose first byte does not occur before it. *)
Lemma index_app c sep a r :
  all_chars (λ x, negb (Ascii.eqb x c)) a = true →
  String.index 0 (String c sep) (a +:+ String c sep +:+ r) = Some (String.length a).
Proof.
  induction a as [|x a IH].
  - intros _. change ("" +:+ String c sep +:+ r) with (String c (sep +:+ r)). cbn [String.index].
    assert (String.prefix (String c sep) (String c (sep +:+ r)) = true) as ->; [|done].
    apply has_prefix_iff. by exists r.
  - cbn [all_chars]. intros [Hx Ha]%andb_true_iff. rewrite negb_true_iff, Ascii.eqb_neq in Hx.
    change (String x a +:+ String c sep +:+ r) with (String x (a +:+ String c sep +:+ r)).
    specialize (IH Ha). cbn [String.index].
    destruct (String.prefix (String c sep) (String x _)) eqn:E; [apply has_prefix_iff in E as [r' E]; injection E; congruence|].
    by rewrite IH.
Qed.

Lemma substring_prefix a b : String.substring 0 (String.length a) (a +:+ b) = a.
Proof. induction a as [|c a IH]; [by destruct b|]. exact (f_equal (String c) IH). Qed.

Lemma substring_full s n : (String.length s ≤ n)%nat → String.substring 0 n s = s.
Proof.
  revert n. induction s as [|c s IH]; intros [|n] Hn; cbn in *; [done|done|lia|]. f_equal. apply IH. lia.
Qed.

Lemma str_drop_app a b : str_drop (String.length a) (a +:+ b) = b.
Proof.
  unfold str_drop. assert (String.length (a +:+ b) = String.length a + String.length b)%nat as ->
    by (induction a as [|? ? IH]; [done|]; exact (f_equal S IH)).
  replace (String.length a + String.length b - String.length a)%nat with (String.length b) by lia.
  induction a as [|c a IH]; [by apply substring_full|exact IH].
Qed.

(** ** Trimming twice *)

(** [p] is a prefix of [s]. *)
Fixpoint starts (p s : string) : bool :=
  match p, s with
  | EmptyString, _ => true
  | String a p, String b s => Ascii.eqb a b && starts p s
  | _, _ => false
  end.

Lemma starts_refl s : starts s s = true.
Proof. induction s as [|c s IH]; [done|]. cbn. by rewrite Ascii.eqb_refl. Qed.

Lemma rtrim_starts s : starts (rtrim s) s = true.
Proof.
  induction s as [|c s IH]; [done|]. cbn [rtrim]. destruct (String.eqb _ _); [done|]. cbn [starts].
  by rewrite Ascii.eqb_refl.
Qed.

Lemma ltrim_length s : (String.length (ltrim s) ≤ String.length s)%nat.
Proof.
  induction s as [s IH] using (induction_ltof1 _ String.length). unfold ltof in IH.
  destruct s as [|a s]; [done|]. cbn [ltrim]. destruct (space1 _).
  - specialize (IH s ltac:(cbn; lia)). cbn. lia.
  - destruct s as [|b s]; [done|]. destruct (space2 _ _).
    + specialize (IH s ltac:(cbn; lia)). cbn. lia.
    + destruct s as [|c s]; [done|]. destruct (space3 _ _ _); [|done].
      specialize (IH s ltac:(cbn; lia)). cbn. lia.
Qed.

Lemma ltrim_idemp s : ltrim (ltrim s) = ltrim s.
Proof.
  induction s as [s IH] using (induction_ltof1 _ String.length). unfold ltof in IH.
  destruct s as [|a s]; [done|]. cbn [ltrim]. destruct (space1 _) eqn:E1; [apply IH; cbn; lia|].
  destruct s as [|b s]; [cbn; by rewrite E1|]. destruct (space2 _ _) eqn:E2; [apply IH; cbn; lia|].
  destruct s as [|c s]; [cbn; by rewrite E1, E2|]. destruct (space3 _ _ _) eqn:E3; [apply IH; cbn; lia|].
  cbn. by rewrite E1, E2, E3.
Qed.

(** A text that does not begin with white space has no prefix that does. *)
Lemma ltrim_starts p s : starts p s = true → ltrim s = s → ltrim p = p.
Proof.
  assert (Hlen : ∀ t c, ltrim t ≠ String c t).
  { intros t c E. pose proof (ltrim_length t) as Hl. rewrite E in Hl. cbn in Hl. lia. }
  intros Hp Hs. destruct p as [|a p]; [done|]. destruct s as [|a' s]; [done|]. cbn [starts] in Hp.
  apply andb_true_iff in Hp as [->%Ascii.eqb_eq Hp]. cbn [ltrim] in *.
  destruct (space1 _); [by apply Hlen in Hs|].
  destruct p as [|b p]; [done|]. destruct s as [|b' s]; [done|]. cbn [starts] in Hp.
  apply andb_true_iff in Hp as [->%Ascii.eqb_eq Hp].
  destruct (space2 _ _); [pose proof (ltrim_length s) as Hl; rewrite Hs in Hl; cbn in Hl; lia|].
  destruct p as [|c p]; [done|]. destruct s as [|c' s]; [done|]. cbn [starts] in Hp.
  apply andb_true_iff in Hp as [->%Ascii.eqb_eq Hp].
  destruct (space3 _ _ _); [pose proof (ltrim_length s) as Hl; rewrite Hs in Hl; cbn in Hl; lia|done].
Qed.

Lemma rtrim_empty s : rtrim s = "" ↔ ltrim s = "".
Proof.
  destruct s as [|c s]; [done|]. cbn [rtrim]. destruct (String.eqb_spec (ltrim (String c s)) ""); [done|].
  split; [done|congruence].
Qed.

Lemma rtrim_cons c s : ltrim (String c s) ≠ "" → rtrim (String c s) = String c (rtrim s).
Proof. intros H. cbn [rtrim]. by destruct (String.eqb_spec (ltrim (String c s)) ""). Qed.

Lemma TrimSpace_ltrim s : ltrim (TrimSpace s) = TrimSpace s.
Proof. unfold TrimSpace. eapply ltrim_starts; [apply rtrim_starts|apply ltrim_idemp]. Qed.

(** A continuation byte starts no white space. *)
Lemma ltrim_continuation c s : 0x80 <= code c <= 0xBF → ltrim (String c s) = String c s.
Proof.
  intros Hc. cbn [ltrim]. assert (space1 (code c) = false) as -> by (unfold space1; lia).
  destruct s as [|b s]; [done|]. assert (space2 (code c) (code b) = false) as -> by (unfold space2; lia).
  destruct s as [|d s]; [done|]. by assert (space3 (code c) (code b) (code d) = false) as -> by (unfold space3; lia).
Qed.

Lemma ltrim_rtrim_nonempty s : ltrim s ≠ "" → ltrim (rtrim s) ≠ "".
Proof.
  induction s as [s IH] using (induction_ltof1 _ String.length). unfold ltof in IH. intros Hne.
  assert (Hnon : ltrim s = s → ltrim (rtrim s) ≠ "").
  { intros E. rewrite (ltrim_starts _ _ (rtrim_starts s) E). by rewrite rtrim_empty. }
  destruct s as [|a s]; [done|]. rewrite rtrim_cons by done. cbn [ltrim] in Hne.
  destruct (space1 (code a)) eqn:E1; [cbn [ltrim]; rewrite E1; apply IH; [cbn; lia|done]|].
  destruct s as [|b s]; [by cbn [rtrim ltrim String.eqb]; rewrite E1|]. destruct (space2 (code a) (code b)) eqn:E2.
  { rewrite rtrim_cons by (rewrite ltrim_continuation by (unfold space2 in E2; lia); done).
    cbn [ltrim]. rewrite E1, E2. apply IH; [cbn; lia|done]. }
  destruct s as [|c s].
  { rewrite <- rtrim_cons; [apply Hnon|]; cbn [ltrim]; rewrite E1, E2; done. }
  destruct (space3 (code a) (code b) (code c)) eqn:E3.
  { rewrite !rtrim_cons by (rewrite ltrim_continuation by (unfold space3 in E3; lia); done).
    cbn [ltrim]. rewrite E1, E2, E3. apply IH; [cbn; lia|done]. }
  rewrite <- rtrim_cons; [apply Hnon|]; cbn [ltrim]; rewrite E1, E2, E3; done.
Qed.

Lemma rtrim_idemp s : rtrim (rtrim s) = rtrim s.
Proof.
  induction s as [|c s IH]; [done|]. destruct (String.eqb_spec (ltrim (String c s)) "") as [E|E].
  - by rewrite (proj2 (rtrim_empty _) E).
  - pose proof (ltrim_rtrim_nonempty _ E) as H. rewrite rtrim_cons in * by done.
    by rewrite rtrim_cons, IH.
Qed.

Lemma TrimSpace_idemp s : TrimSpace (TrimSpace s) = TrimSpace s.
Proof. unfold TrimSpace at 1. rewrite TrimSpace_ltrim. apply rtrim_idemp. Qed.

(** Text without white space is not trimmed. *)
Lemma TrimSpace_all f s :
  (∀ c, f c = true → 33 <= code c <= 127) → all_chars f s = true → TrimSpace s = s.
Proof.
  intros Hf. assert (Hl : ∀ t, all_chars f t = true → ltrim t = t).
  { intros [|c t]; [done|]. cbn [all_chars]. intros [Hc _]%andb_true_iff. apply Hf in Hc. cbn [ltrim].
    assert (space1 (code c) = false) as -> by (unfold space1; lia).
    destruct t as [|b t]; [done|]. assert (space2 (code c) (code b) = false) as -> by (unfold space2; lia).
    destruct t as [|d t]; [done|]. by assert (space3 (code c) (code b) (code d) = false) as -> by (unfold space3; lia). }
  intros Hs. unfold TrimSpace. rewrite Hl by done. induction s as [|c s IH]; [done|].
  rewrite rtrim_cons by (rewrite Hl; done). f_equal. apply IH. cbn [all_chars] in Hs. by apply andb_true_iff in Hs as [_ ?].
Qed.

(** *** Bytes and fields of a concatenation *)

Lemma all_chars_app f a b : all_chars f (a +:+ b) = all_chars f a && all_chars f b.
Proof. induction a as [|c a IH]; [done|]. change (String c a +:+ b) with (String c (a +:+ b)). cbn. by rewrite IH, andb_assoc. Qed.

Lemma all_chars_mono (f g : Ascii.ascii → bool) s : (∀ c, f c = true → g c = true) → all_chars f s = true → all_chars g s = true.
Proof.
  intros Hfg. induction s as [|c s IH]; [done|]. cbn. intros [Hc Hs]%andb_true_iff. by rewrite (Hfg c Hc), (IH Hs).
Qed.

Lemma split_nonempty c a : split c a ≠ [].
Proof. destruct a as [|x a]; cbn [split]; [done|]. destruct (Ascii.eqb x c); [done|]. by destruct (split c a). Qed.

Lemma split_app_sep c a b : split c (a +:+ String c b) = split c a ++ split c b.
Proof.
  induction a as [|x a IH].
  - change ("" +:+ String c b) with (String c b). cbn [split]. by rewrite Ascii.eqb_refl.
  - change (String x a +:+ String c b) with (String x (a +:+ String c b)). cbn [split]. rewrite IH.
    destruct (Ascii.eqb x c); [done|]. destruct (split c a) as [|y ys] eqn:E; [|done]. by destruct (split_nonempty c a).
Qed.

Lemma split_no_sep c s : all_chars (λ x, negb (Ascii.eqb x c)) s = true → split c s = [s].
Proof.
  induction s as [|x s IH]; [done|]. cbn [all_chars split]. intros [Hx%negb_true_iff Hs]%andb_true_iff.
  by rewrite Hx, IH.
Qed.

Lemma string_app_nil (s : string) : s +:+ "" = s.
Proof. induction s as [|c s IH]; [done|]. change (String c (s +:+ "") = String c s). by rewrite IH. Qed.
Lemma string_length_app (a b : string) : String.length (a +:+ b) = (String.length a + String.length b)%nat.
Proof. induction a as [|c a IH]; [done|]. change (S (String.length (a +:+ b)) = S (String.length a + String.length b)). by rewrite IH. Qed.
