(* ===== verification/Netns.v ===== *)
(** The per-sandbox network namespaces, agent/internal/netns/netns.go.  The
    kernel (what the [ip] and [iptables] commands do) is an interface with the
    documented behaviour of the few commands the proofs rely on; every command
    may fail, and the process may be killed between any two. *)

From stdpp Require Import pretty.
From S2P Require Import Prelude Crash GoStrings.

Open Scope string_scope.
Open Scope list_scope.
Open Scope Z_scope.

(** ** The kernel *)

(** [exec k cmd]: the state after the command, and whether it exited with 0 in
    its ten seconds.  [links] are the names of root-namespace interfaces,
    [namespaces] the named network namespaces, [forward] the root FORWARD chain,
    each rule as its arguments; [ls] reads /var/run/netns ([None]: a read error).
    [failures] is a history: the commands that did not exit with 0, the last one
    first. *)
Class Kernel (K : Type) := {
  exec : K → list string → K * bool;
  links : K → gset string;
  namespaces : K → gset string;
  forward : K → list (list string);
  ls : K → option (list string);
  failures : K → list (list string);
}.

(** A deletion that exits with 0 has deleted; one that fails may leave the object. *)
Class KernelLaws (K : Type) `{Kernel K} : Prop := {
  exec_failures k cmd : failures (exec k cmd).1 = if (exec k cmd).2 then failures k else cmd :: failures k;
  del_link k n : ((exec k ["ip"; "link"; "del"; n]).2 = true → n ∉ links (exec k ["ip"; "link"; "del"; n]).1) ∧
                 links (exec k ["ip"; "link"; "del"; n]).1 ⊆ links k ∧
                 namespaces (exec k ["ip"; "link"; "del"; n]).1 = namespaces k;
  del_netns k n : ((exec k ["ip"; "netns"; "del"; n]).2 = true → n ∉ namespaces (exec k ["ip"; "netns"; "del"; n]).1) ∧
                  namespaces k ∖ {[n]} ⊆ namespaces (exec k ["ip"; "netns"; "del"; n]).1 ∧
                  namespaces (exec k ["ip"; "netns"; "del"; n]).1 ⊆ namespaces k ∧
                  links (exec k ["ip"; "netns"; "del"; n]).1 ⊆ links k;
  ls_spec k l : ls k = Some l → NoDup l ∧ ∀ n, n ∈ l ↔ n ∈ namespaces k;
  ip_forward k args : forward (exec k ("ip" :: args)).1 = forward k;
  nat_forward k args : forward (exec k ("iptables" :: "-t" :: args)).1 = forward k;
  check_rule k r : forward (exec k ("iptables" :: "-C" :: "FORWARD" :: r)).1 = forward k ∧
                   ((exec k ("iptables" :: "-C" :: "FORWARD" :: r)).2 = true → r ∈ forward k);
  insert_rule k r : forward (exec k ("iptables" :: "-I" :: "FORWARD" :: "1" :: r)).1 =
                    if (exec k ("iptables" :: "-I" :: "FORWARD" :: "1" :: r)).2 then r :: forward k else forward k;
  append_rule k r : forward (exec k ("iptables" :: "-A" :: "FORWARD" :: r)).1 =
                    if (exec k ("iptables" :: "-A" :: "FORWARD" :: r)).2 then forward k ++ [r] else forward k;
}.

(** ** Data *)

Record Spec := mkSpec {
  Name : string; VethHost : string; VethGuest : string;
  VethHostIP : string; VethGuestIP : string; VethSubnetMask : Z;
  TapName : string; TapHostIP : string; TapSubnetMask : Z;
  GuestIP : string; PortMap : list (Z * Z); WANIface : string; PoolCIDR : string;
}.

(** ** Rules *)

Definition defaultBlockedEgressPorts : list string :=
  ["3333"; "4444"; "5555"; "7777"; "8333"; "9999"; "14444"; "45700"].

(** The argument is the environment variable, [None] when unset. *)
Definition blockedEgressPorts (env : option string) : list string :=
  match env with
  | None => defaultBlockedEgressPorts
  | Some v =>
      let v := TrimSpace v in
      if String.eqb v "" then []
      else filter (λ p, p ≠ "") (map TrimSpace (split comma v))
  end.

Definition iptablesVerbAt (args : list string) : nat :=
  if (2 <=? length args)%nat && String.eqb (default "" (args !! 0%nat)) "-t" then 2 else 0.

Definition iptablesCheckArgs (args : list string) : list string :=
  let v := iptablesVerbAt args in take v args ++ ["-C"] ++ drop v args.

(** [args[verbAt]] panics when the chain is missing; every call has one. *)
Definition iptablesInsertArgs (args : list string) : list string :=
  let v := iptablesVerbAt args in
  take v args ++ ["-I"; default "" (args !! v); "1"] ++ drop (v + 1) args.

Definition iptablesAppendArgs (args : list string) : list string :=
  let v := iptablesVerbAt args in take v args ++ ["-A"] ++ drop v args.

Definition with_mask (ip : string) (mask : Z) : string := ip +:+ "/" +:+ pretty mask.

(** The cross-tenant and metadata rules, and one rule per blocked port. *)
Definition pool_drop (s : Spec) : list string := ["-s"; PoolCIDR s; "-d"; PoolCIDR s; "-j"; "DROP"].
Definition metadata_drop (s : Spec) : list string := ["-s"; PoolCIDR s; "-d"; "169.254.0.0/16"; "-j"; "DROP"].
Definition port_drop (s : Spec) (port : string) : list string :=
  ["-s"; PoolCIDR s; "-o"; WANIface s; "-p"; "tcp"; "--dport"; port; "-j"; "DROP"].

Definition create_steps (s : Spec) : list (list string) :=
  [["ip"; "netns"; "add"; Name s];
   ["ip"; "-n"; Name s; "link"; "set"; "lo"; "up"];
   ["ip"; "link"; "add"; VethHost s; "type"; "veth"; "peer"; "name"; VethGuest s];
   ["ip"; "link"; "set"; VethGuest s; "netns"; Name s];
   ["ip"; "addr"; "add"; with_mask (VethHostIP s) (VethSubnetMask s); "dev"; VethHost s];
   ["ip"; "link"; "set"; VethHost s; "up"];
   ["ip"; "-n"; Name s; "addr"; "add"; with_mask (VethGuestIP s) (VethSubnetMask s); "dev"; VethGuest s];
   ["ip"; "-n"; Name s; "link"; "set"; VethGuest s; "up"];
   ["ip"; "netns"; "exec"; Name s; "ip"; "tuntap"; "add"; "dev"; TapName s; "mode"; "tap"];
   ["ip"; "-n"; Name s; "addr"; "add"; with_mask (TapHostIP s) (TapSubnetMask s); "dev"; TapName s];
   ["ip"; "-n"; Name s; "link"; "set"; TapName s; "up"];
   ["ip"; "netns"; "exec"; Name s; "sysctl"; "-q"; "-w"; "net.ipv4.ip_forward=1"];
   ["ip"; "netns"; "exec"; Name s; "sysctl"; "-q"; "-w"; "net.ipv4.conf.all.route_localnet=1"]].

(** Every other command of [Create] that runs inside the namespace. *)
Definition in_ns (s : Spec) (args : list string) : list string := ["ip"; "netns"; "exec"; Name s] ++ args.
Definition dnat_step (s : Spec) (p : Z * Z) : list string :=
  in_ns s ["iptables"; "-t"; "nat"; "-A"; "PREROUTING"; "-d"; VethGuestIP s; "-p"; "tcp"; "--dport"; pretty p.1;
           "-j"; "DNAT"; "--to-destination"; GuestIP s +:+ ":" +:+ pretty p.2].
Definition wildcard_step (s : Spec) : list string :=
  in_ns s ["iptables"; "-t"; "nat"; "-A"; "PREROUTING"; "-d"; VethGuestIP s; "-p"; "tcp";
           "-j"; "DNAT"; "--to-destination"; GuestIP s].
Definition snat_step (s : Spec) : list string :=
  in_ns s ["iptables"; "-t"; "nat"; "-A"; "POSTROUTING"; "-o"; TapName s; "-j"; "SNAT"; "--to-source"; TapHostIP s].

(** ** Operations *)

Section netns.
Context {K : Type} `{HK : Kernel K}.
(** [cidrNetwork], which is [net.ParseCIDR] and [IPNet.String], and the
    PANDASTACK_BLOCKED_EGRESS_PORTS variable. *)
Context (cidrNetwork : string → Z → string) (env : option string).

Definition run (cmd : list string) : C K bool :=
  effect (λ k, let '(k', ok) := exec k cmd in (ok, k')).

Definition Destroy (s : Spec) : C K () :=
  _ ← (if String.eqb (VethHost s) "" then mret true else run ["ip"; "link"; "del"; VethHost s]);
  _ ← (if String.eqb (Name s) "" then mret true else run ["ip"; "netns"; "del"; Name s]);
  mret ().

Definition ensureRoot (args : list string) : C K () :=
  ok ← run ("iptables" :: iptablesCheckArgs args);
  if ok : bool then mret () else _ ← run ("iptables" :: iptablesAppendArgs args); mret ().

Definition ensureRootFirst (args : list string) : C K () :=
  ok ← run ("iptables" :: iptablesCheckArgs args);
  if ok : bool then mret () else _ ← run ("iptables" :: iptablesInsertArgs args); mret ().

Definition root_rules (s : Spec) : C K () :=
  _ ← ensureRootFirst ("FORWARD" :: pool_drop s);
  _ ← ensureRootFirst ("FORWARD" :: metadata_drop s);
  _ ← each (λ port, ensureRootFirst ("FORWARD" :: port_drop s port)) (blockedEgressPorts env);
  _ ← ensureRoot ["-t"; "nat"; "POSTROUTING"; "-s"; PoolCIDR s; "-o"; WANIface s; "-j"; "MASQUERADE"];
  _ ← ensureRoot ["FORWARD"; "-s"; PoolCIDR s; "-o"; WANIface s; "-j"; "ACCEPT"];
  _ ← ensureRoot ["FORWARD"; "-d"; PoolCIDR s; "-i"; WANIface s; "-j"; "ACCEPT"];
  mret ().

Definition setupEgress (s : Spec) : C K bool :=
  let tapNet := cidrNetwork (TapHostIP s) (TapSubnetMask s) in
  ok ← all_steps run
    [["ip"; "-n"; Name s; "route"; "replace"; "default"; "via"; VethHostIP s; "dev"; VethGuest s];
     in_ns s ["iptables"; "-t"; "nat"; "-A"; "POSTROUTING"; "-s"; tapNet; "-o"; VethGuest s;
              "-j"; "SNAT"; "--to-source"; VethGuestIP s]];
  if negb ok then mret false
  else if String.eqb (PoolCIDR s) "" then mret true
  else _ ← root_rules s; mret true.

(** The body of [Create] after its first [Destroy]; each [return err] there is
    preceded by a [Destroy], which [Create] does here in one place. *)
Definition build (s : Spec) : C K bool :=
  ok ← all_steps run (create_steps s ++ map (dnat_step s) (PortMap s) ++ [wildcard_step s; snat_step s]);
  if negb ok then mret false
  else if String.eqb (WANIface s) "" then mret true
  else setupEgress s.

Definition Create (s : Spec) : C K bool :=
  _ ← Destroy s;
  ok ← build s;
  if ok : bool then mret true else _ ← Destroy s; mret false.

(** The ["<ifindex>: <dev> ..."] lines of [ip -o -4 addr show] as the devices
    they name; [show] is that query. *)
Definition ClearStaleHolders (show : K → string → option (list string)) (hostVethIP keepVeth : string)
    : C K (list string) :=
  if String.eqb hostVethIP "" then mret []
  else
    found ← pure_step (λ k, (show k hostVethIP, k));
    let stale := filter (λ d, d ≠ "" ∧ d ≠ keepVeth ∧ String.prefix "vh-" d = true) (default [] found) in
    _ ← each (λ d, run ["ip"; "link"; "del"; d]) stale;
    mret stale.

(** The first matching rule decides ([matches]: the packet matches the rule);
    a rule's target is its last argument. *)
Definition verdict (matches : list string → bool) (chain : list (list string)) : option string :=
  '(_, r) ← list_find (λ r, matches r = true) chain; last r.
End netns.

(** ** Lemmas *)

(** What the history of [k] has since [k0], and the commands that failed in between. *)
Definition later {K} `{Kernel K} (k0 k : K) : Prop := failures k0 `suffix_of` failures k.
Definition refused {K} `{Kernel K} (k0 k : K) (cmd : list string) : Prop :=
  ∃ l, failures k = l ++ failures k0 ∧ cmd ∈ l.

(** Nothing of the sandbox is left in the kernel but what the kernel refused to
    delete. *)
Definition clean {K} `{Kernel K} (s : Spec) (k0 k : K) : Prop :=
  (VethHost s ≠ "" → VethHost s ∈ links k → refused k0 k ["ip"; "link"; "del"; VethHost s]) ∧
  (Name s ≠ "" → Name s ∈ namespaces k → refused k0 k ["ip"; "netns"; "del"; Name s]).

Section proofs.
Context {K : Type} `{HK : Kernel K} `{!KernelLaws K}.

Lemma later_refl (k : K) : later k k.
Proof. by exists []. Qed.
Lemma later_exec (k0 k : K) cmd : later k0 k → later k0 (exec k cmd).1.
Proof. intros H. unfold later. rewrite exec_failures. destruct (exec k cmd).2; [done|]. by apply suffix_cons_r. Qed.
Lemma refused_later (k0 k k' : K) cmd : refused k0 k cmd → later k k' → refused k0 k' cmd.
Proof. intros (l & E & H) [l' E']. exists (l' ++ l). rewrite E', E, app_assoc. split; [done|]. apply elem_of_app. by right. Qed.
Lemma later_refused (k0 k k' : K) cmd : later k0 k → refused k k' cmd → refused k0 k' cmd.
Proof. intros [l' E'] (l & E & H). exists (l ++ l'). rewrite E, E', app_assoc. split; [done|]. apply elem_of_app. by left. Qed.
Lemma refused_exec (k0 k : K) cmd c : refused k0 k c → refused k0 (exec k cmd).1 c.
Proof. intros H. eapply refused_later; [done|]. apply later_exec, later_refl. Qed.
Lemma exec_refused (k0 k : K) cmd : later k0 k → (exec k cmd).2 = false → refused k0 (exec k cmd).1 cmd.
Proof.
  intros H E. eapply later_refused; [done|]. exists [cmd]. rewrite exec_failures, E. split; [done|]. by apply list_elem_of_singleton.
Qed.

Lemma run_triple (P R : K → Prop) cmd (Q : bool → K → Prop) :
  (∀ k, P k → R k) → (∀ k, P k → Q (exec k cmd).2 (exec k cmd).1) → triple P (run cmd) Q R.
Proof.
  intros HR H. apply triple_effect; [done|]. intros k Hk. specialize (H k Hk). by destruct (exec k cmd).
Qed.

(** A command that is skipped under a condition. *)
Lemma skip_triple (P R : K → Prop) (b : bool) cmd (Q : bool → K → Prop) :
  (∀ k, P k → R k) → (b = true → ∀ k, P k → Q true k) →
  (b = false → ∀ k, P k → Q (exec k cmd).2 (exec k cmd).1) →
  triple P (if b then mret true else run cmd) Q R.
Proof. intros HR HT HF. destruct b; [apply triple_ret | apply run_triple]; auto. Qed.

(** [Destroy] from [k0]: at every crash point the kernel has no more than it
    had, and at the end the two objects are gone, or their deletion failed. *)
Definition shrunk (k0 k : K) : Prop := links k ⊆ links k0 ∧ namespaces k ⊆ namespaces k0 ∧ later k0 k.

Lemma shrunk_refl k : shrunk k k.
Proof. split_and!; [done..|apply later_refl]. Qed.

Lemma Destroy_triple (s : Spec) (k0 : K) :
  triple (shrunk k0) (Destroy s) (λ _ k, shrunk k0 k ∧ clean s k0 k) (shrunk k0).
Proof.
  unfold Destroy.
  apply triple_bind with (Q := λ _ k, shrunk k0 k ∧
    (VethHost s ≠ "" → VethHost s ∈ links k → refused k0 k ["ip"; "link"; "del"; VethHost s])).
  { apply skip_triple; [done | |].
    - intros E%String.eqb_eq k Hk. by split.
    - intros E k (Hl & Hn & Hh). destruct (del_link k (VethHost s)) as (H1 & H2 & H3).
      split; [split_and!; [by etrans | by rewrite H3 | by apply later_exec]|]. intros _ Hin.
      apply exec_refused; [done|]. destruct (exec _ _).2; [by destruct (H1 eq_refl)|done]. }
  intros ?. apply triple_bind with (Q := λ _ k, shrunk k0 k ∧ clean s k0 k).
  { apply skip_triple; [by intros k [? _] | |].
    - intros E%String.eqb_eq k [Hk Hv]. split; [done|]. by split.
    - intros E k [(Hl & Hn & Hh) Hv]. destruct (del_netns k (Name s)) as (H1 & _ & H2 & H3).
      split; [split_and!; [etrans; [exact H3|exact Hl] | etrans; [exact H2|exact Hn] | by apply later_exec]|]. split.
      + intros Hne Hin%H3. by apply refused_exec, Hv.
      + intros _ Hin. apply exec_refused; [done|]. destruct (exec _ _).2; [by destruct (H1 eq_refl)|done]. }
  intros ?. by apply triple_ret.
Qed.

(** [Destroy] keeps every other namespace. *)
Definition without (s : Spec) (X : gset string) : gset string :=
  if String.eqb (Name s) "" then X else X ∖ {[Name s]}.

Lemma Destroy_namespaces (s : Spec) (k0 : K) :
  triple (λ k, namespaces k = namespaces k0 ∧ later k0 k) (Destroy s)
    (λ _ k, without s (namespaces k0) ⊆ namespaces k ∧ namespaces k ⊆ namespaces k0 ∧ later k0 k ∧
            (Name s ≠ "" → Name s ∈ namespaces k → refused k0 k ["ip"; "netns"; "del"; Name s]))
    (λ k, namespaces k = namespaces k0 ∧ later k0 k).
Proof.
  unfold Destroy. apply triple_bind with (Q := λ _ k, namespaces k = namespaces k0 ∧ later k0 k).
  { apply skip_triple; [done | done |]. intros E k [<- Hh]. split; [apply del_link|by apply later_exec]. }
  intros ?. eapply triple_bind; [|intros ?; apply triple_ret; intros k Hk; exact Hk].
  unfold without. apply skip_triple; [done| |].
  - intros E k [-> Hh]. rewrite E. apply String.eqb_eq in E. by split_and!.
  - intros -> k [<- Hh]. destruct (del_netns k (Name s)) as (H1 & H2 & H3 & _). split_and!; [done..|by apply later_exec|].
    intros _ Hin. apply exec_refused; [done|]. destruct (exec _ _).2; [by destruct (H1 eq_refl)|done].
Qed.

(** What [ip] commands keep, whatever they answer. *)
Definition ip_stable (I : K → Prop) : Prop := ∀ k args, I k → I (exec k ("ip" :: args)).1.

Lemma Destroy_stable (s : Spec) (I : K → Prop) : ip_stable I → triple I (Destroy s) (λ _, I) I.
Proof.
  intros HI. unfold Destroy. eapply triple_bind.
  { apply skip_triple with (Q := λ _, I); [done | done |]. intros E k. apply HI. }
  intros ?. eapply triple_bind.
  { apply skip_triple with (Q := λ _, I); [done | done |]. intros E k. apply HI. }
  intros ?. by apply triple_ret.
Qed.

(** ** The FORWARD chain *)

Definition accepts (r : list string) : Prop := last r = Some "ACCEPT".

(** Every accepting rule of the chain comes after a copy of [d]. *)
Definition guarded (d : list string) (chain : list (list string)) : Prop :=
  ∀ i r, chain !! i = Some r → accepts r → ∃ j, (j < i)%nat ∧ chain !! j = Some d.

Definition placed (d : list string) (chain : list (list string)) : Prop := d ∈ chain ∧ guarded d chain.
Definition placeable (d : list string) (chain : list (list string)) : Prop := d ∉ chain ∨ guarded d chain.

Lemma placed_placeable d c : placed d c → placeable d c.
Proof. intros [_ H]. by right. Qed.
Lemma placeable_present d c : placeable d c → d ∈ c → placed d c.
Proof. intros [?|?] ?; [done|by split]. Qed.

Lemma placed_insert_self d c : ¬ accepts d → placed d (d :: c).
Proof.
  intros Hd. split; [apply elem_of_cons; by left|]. intros [|i] r; simpl.
  - by intros [= ->].
  - intros _ _. exists 0%nat. split; [lia|done].
Qed.
Lemma guarded_insert d r c : guarded d c → ¬ accepts r → guarded d (r :: c).
Proof.
  intros Hg Hr [|i] x; simpl; [by intros [= ->]|]. intros Hi Hx. destruct (Hg i x Hi Hx) as (j & ? & ?).
  exists (S j). split; [lia|done].
Qed.
Lemma placed_insert d r c : placed d c → ¬ accepts r → placed d (r :: c).
Proof. intros [? ?] Hr. split; [apply elem_of_cons; by right | by apply guarded_insert]. Qed.
Lemma placeable_insert d r c : placeable d c → ¬ accepts r → placeable d (r :: c) ∨ d = r.
Proof.
  intros [H|H] Hr; [|left; right; by apply guarded_insert].
  destruct (decide (d = r)) as [->|Hne]; [by right|left; left]. rewrite elem_of_cons. tauto.
Qed.
Lemma placed_append d r c : placed d c → placed d (c ++ [r]).
Proof.
  intros [Hin Hg]. split; [apply elem_of_app; by left|]. intros i x Hi Hx.
  apply lookup_app_Some in Hi as [Hi|[Hlen Hi]].
  - destruct (Hg i x Hi Hx) as (j & ? & ?). exists j. split; [done|]. by apply lookup_app_l_Some.
  - apply list_elem_of_lookup in Hin as [j Hj]. exists j.
    split; [apply lookup_lt_Some in Hj; lia | by apply lookup_app_l_Some].
Qed.

(** A packet the guard matches is never accepted by the chain. *)
Lemma guarded_verdict matches d c :
  guarded d c → matches d = true → verdict matches c ≠ Some "ACCEPT".
Proof.
  intros Hg Hm. unfold verdict. destruct (list_find _ c) as [[i r]|] eqn:E; simpl; [|done].
  apply list_find_Some in E as (Hi & Hr & Hmin). intros Ha.
  destruct (Hg i r Hi Ha) as (j & Hj & Hd). by apply (Hmin j d Hd Hj).
Qed.
Lemma placeable_append d r c : placeable d c → ¬ accepts d → accepts r → placeable d (c ++ [r]).
Proof.
  intros H Hd Hr. destruct (decide (d ∈ c)) as [Hin|Hin].
  - apply placed_placeable, placed_append. by apply placeable_present.
  - left. rewrite elem_of_app, list_elem_of_singleton. intros [?| ->]; done.
Qed.

(** The insertion of a guard. *)
Definition insertion (d : list string) : list string := "iptables" :: "-I" :: "FORWARD" :: "1" :: d.

(** Since [k0]: no guard of [A] is behind an ACCEPT. *)
Definition safe (k0 : K) (A : list (list string)) (k : K) : Prop :=
  later k0 k ∧ ∀ x, x ∈ A → placeable x (forward k).
(** What [root_rules] has still to place. *)
Definition progress (k0 : K) (A todo : list (list string)) (k : K) : Prop :=
  safe k0 A k ∧ ∀ x, x ∈ A → x ∈ todo ∨ placed x (forward k) ∨ refused k0 k (insertion x).

Lemma safe_stable k0 A : ip_stable (safe k0 A).
Proof. intros k args [Hh Hk]. split; [by apply later_exec|]. by rewrite ip_forward. Qed.

(** A command that leaves the chain as it is. *)
Lemma progress_same k0 A todo k cmd : forward (exec k cmd).1 = forward k → progress k0 A todo k → progress k0 A todo (exec k cmd).1.
Proof.
  intros E [[Hh Hs] Hp]. split; [split; [by apply later_exec|by rewrite E]|].
  intros x Hx. rewrite E. destruct (Hp x Hx) as [?|[?|?]]; auto using refused_exec.
Qed.

Lemma forward_check_args d : iptablesCheckArgs ("FORWARD" :: d) = "-C" :: "FORWARD" :: d.
Proof. unfold iptablesCheckArgs, iptablesVerbAt. cbn. by rewrite andb_false_r. Qed.
Lemma forward_insert_args d : iptablesInsertArgs ("FORWARD" :: d) = "-I" :: "FORWARD" :: "1" :: d.
Proof. unfold iptablesInsertArgs, iptablesVerbAt. cbn. by rewrite andb_false_r. Qed.
Lemma forward_append_args d : iptablesAppendArgs ("FORWARD" :: d) = "-A" :: "FORWARD" :: d.
Proof. unfold iptablesAppendArgs, iptablesVerbAt. cbn. by rewrite andb_false_r. Qed.

Lemma ensureFirst_triple k0 A d todo :
  ¬ accepts d →
  triple (progress k0 A (d :: todo)) (ensureRootFirst ("FORWARD" :: d)) (λ _, progress k0 A todo) (safe k0 A).
Proof.
  intros Hd. unfold ensureRootFirst. rewrite forward_check_args, forward_insert_args.
  eapply triple_bind with (Q := λ ok k, progress k0 A (d :: todo) k ∧ (ok = true → d ∈ forward k)).
  { apply run_triple; [by intros k []|]. intros k Hk. destruct (check_rule k d) as [Hf Hc].
    split; [by apply progress_same|]. by rewrite Hf. }
  intros ok. apply triple_case.
  - intros ->. apply triple_ret. intros k [[Hs Hp] Hin]. split; [done|]. intros x Hx.
    destruct (Hp x Hx) as [[->|?]%elem_of_cons|?]; auto. right. left. apply placeable_present; [by apply Hs|auto].
  - intros ->. eapply triple_bind with (Q := λ _, progress k0 A todo); [|intros ?; by apply triple_ret].
    apply run_triple; [by intros k [[] _]|]. intros k [[[Hh Hs] Hp] _].
    pose proof (insert_rule k d) as Hi. fold (insertion d) in *. destruct (exec k (insertion d)).2 eqn:E.
    + split; [split; [by apply later_exec|]|]; intros x Hx; rewrite Hi; destruct (decide (x = d)) as [->|Hne].
      * by apply placed_placeable, placed_insert_self.
      * by destruct (placeable_insert x d (forward k) (Hs x Hx) Hd).
      * right. left. by apply placed_insert_self.
      * destruct (Hp x Hx) as [[->|?]%elem_of_cons|[?|?]]; [done|by left|right; left; by apply placed_insert|right; right; by apply refused_exec].
    + split; [split; [by apply later_exec|by rewrite Hi]|]. intros x Hx. rewrite Hi.
      destruct (Hp x Hx) as [[->|?]%elem_of_cons|[?|?]]; auto using refused_exec. right. right. by apply exec_refused.
Qed.

(** The rules appended after the guards leave them in place. *)
Lemma ensureRoot_triple k0 A r :
  (∀ x, x ∈ A → ¬ accepts x) → accepts r →
  triple (progress k0 A []) (ensureRoot ("FORWARD" :: r)) (λ _, progress k0 A []) (safe k0 A).
Proof.
  intros HA Hr. unfold ensureRoot. rewrite forward_check_args, forward_append_args.
  eapply triple_bind with (Q := λ _, progress k0 A []).
  { apply run_triple; [by intros k []|]. intros k. apply progress_same, check_rule. }
  intros ok. apply triple_case; intros ->; [by apply triple_ret|].
  eapply triple_bind with (Q := λ _, progress k0 A []); [|intros ?; by apply triple_ret].
  apply run_triple; [by intros k []|]. intros k Hk. pose proof (append_rule k r) as Ha.
  destruct (exec k _).2 eqn:E; [|by apply progress_same]. destruct Hk as [[Hh Hs] Hp].
  split; [split; [by apply later_exec|]|]; intros x Hx; rewrite Ha.
  - apply placeable_append; auto.
  - destruct (Hp x Hx) as [?|[?|?]]; [by left|right; left; by apply placed_append|right; right; by apply refused_exec].
Qed.

Lemma ensureRoot_nat_triple k0 A r :
  triple (progress k0 A []) (ensureRoot ("-t" :: "nat" :: r)) (λ _, progress k0 A []) (safe k0 A).
Proof.
  unfold ensureRoot.
  assert (∀ cmd, triple (progress k0 A []) (run ("iptables" :: "-t" :: cmd)) (λ _, progress k0 A []) (safe k0 A)) as Hn.
  { intros cmd. apply run_triple; [by intros k []|]. intros k. apply progress_same, nat_forward. }
  eapply triple_bind; [apply Hn|]. intros ok. apply triple_case; intros _; [by apply triple_ret|].
  eapply triple_bind; [apply Hn|]. intros ?. by apply triple_ret.
Qed.
End proofs.

(** Every DROP rule [root_rules] wants ahead of the ACCEPTs. *)
Definition drops (env : option string) (s : Spec) : list (list string) :=
  pool_drop s :: metadata_drop s :: map (port_drop s) (blockedEgressPorts env).

Section egress.
Context {K : Type} `{HK : Kernel K} `{!KernelLaws K}.
Context (cidr : string → Z → string) (env : option string).

Lemma drops_reject (s : Spec) x : x ∈ drops env s → ¬ accepts x.
Proof.
  unfold drops. rewrite !elem_of_cons, list_elem_of_fmap. unfold accepts. by intros [->|[->|(p & -> & _)]].
Qed.

Lemma root_rules_triple k0 (s : Spec) :
  triple (safe k0 (drops env s)) (root_rules env s) (λ _, progress k0 (drops env s) []) (safe k0 (drops env s)).
Proof.
  unfold root_rules. pose proof (drops_reject s) as HA. set (A := drops env s) in *.
  eapply triple_conseq with (P' := progress k0 A A); [|by intros k Hk; split; [done|by left]|intros a k Hk; exact Hk|done].
  unfold A at 2. unfold drops.
  eapply triple_bind; [by apply ensureFirst_triple | intros ?].
  eapply triple_bind; [by apply ensureFirst_triple | intros ?].
  eapply triple_bind.
  { eapply (triple_each _ (λ l, progress k0 A (map (port_drop s) l))).
    intros port l. simpl. by apply ensureFirst_triple. }
  intros ?. simpl. eapply triple_bind; [by apply ensureRoot_nat_triple | intros ?].
  eapply triple_bind; [by apply ensureRoot_triple | intros ?].
  eapply triple_bind; [by apply ensureRoot_triple | intros ?]. by apply triple_ret.
Qed.

(** The commands before the root rules are [ip] commands. *)
Lemma ip_steps_triple (I : K → Prop) (l : list (list string)) :
  ip_stable I → Forall (λ c, head c = Some "ip") l → triple I (all_steps run l) (λ _, I) I.
Proof.
  intros HI Hl. eapply triple_conseq with (Q' := λ (ok : bool) (k : K), if ok then I k else I k); [|done|by intros []|done].
  apply triple_all_steps. intros c Hc. rewrite Forall_forall in Hl. specialize (Hl c Hc).
  destruct c as [|c args]; simplify_eq/=. apply run_triple; [done|]. intros k Hk. destruct (exec k _).2; by apply HI.
Qed.

Lemma Create_guards_aux k0 (s : Spec) :
  WANIface s ≠ "" → PoolCIDR s ≠ "" →
  triple (safe k0 (drops env s)) (Create cidr env s)
    (λ ok k, if ok : bool then progress k0 (drops env s) [] k else safe k0 (drops env s) k) (safe k0 (drops env s)).
Proof.
  intros HW HP. pose proof (safe_stable k0 (drops env s)) as HI. set (I := safe k0 (drops env s)) in *. unfold Create.
  eapply triple_bind; [by apply (Destroy_stable s I) | intros ?].
  eapply triple_bind with (Q := λ (ok : bool) k, if ok then progress k0 (drops env s) [] k else I k).
  { unfold build. eapply triple_bind; [apply (ip_steps_triple I); [done|] |].
    - rewrite !Forall_app. repeat split; repeat constructor. apply Forall_map, Forall_true. done.
    - intros ok. apply triple_case; [by intros; apply triple_ret|]. intros _.
      rewrite (proj2 (String.eqb_neq _ _) HW). unfold setupEgress.
      eapply triple_bind; [apply (ip_steps_triple I); [done|repeat constructor] |].
      intros ok'. apply triple_case; [by intros; apply triple_ret|]. intros _.
      rewrite (proj2 (String.eqb_neq _ _) HP).
      eapply triple_bind; [apply root_rules_triple|]. intros ?. by apply triple_ret. }
  intros []; [by apply triple_ret|].
  eapply triple_bind; [by apply (Destroy_stable s I) | intros ?]. by apply triple_ret.
Qed.
End egress.

(** ** A concrete kernel, for the witnesses *)

Record host := mkHost {
  h_links : gset string; h_ns : gset string; h_fwd : list (list string); h_failed : list (list string) }.

(** The effect of a command on a host where it can be carried out. *)
Definition host_effect (k : host) (cmd : list string) : host * bool :=
  let begins l := bool_decide (take (length l) cmd = l) in
  let arg := default "" (cmd !! 3%nat) in
  if begins ["ip"; "link"; "del"] then
    (mkHost (h_links k ∖ {[arg]}) (h_ns k) (h_fwd k) (h_failed k), bool_decide (arg ∈ h_links k))
  else if begins ["ip"; "netns"; "del"] then
    (mkHost (h_links k) (h_ns k ∖ {[arg]}) (h_fwd k) (h_failed k), bool_decide (arg ∈ h_ns k))
  else if begins ["ip"; "link"; "add"] then (mkHost (h_links k ∪ {[arg]}) (h_ns k) (h_fwd k) (h_failed k), true)
  else if begins ["ip"; "netns"; "add"] then (mkHost (h_links k) (h_ns k ∪ {[arg]}) (h_fwd k) (h_failed k), true)
  else if begins ["ip"] then (k, true)
  else if begins ["iptables"; "-t"] then (k, true)
  else if begins ["iptables"; "-C"; "FORWARD"] then (k, bool_decide (drop 3 cmd ∈ h_fwd k))
  else if begins ["iptables"; "-I"; "FORWARD"; "1"] then
    (mkHost (h_links k) (h_ns k) (drop 4 cmd :: h_fwd k) (h_failed k), true)
  else if begins ["iptables"; "-A"; "FORWARD"] then
    (mkHost (h_links k) (h_ns k) (h_fwd k ++ [drop 3 cmd]) (h_failed k), true)
  else (k, true).

(** [bad]: the commands that fail on this host without an effect. *)
Definition host_exec (bad : list string → bool) (k : host) (cmd : list string) : host * bool :=
  let '(k', ok) := if bad cmd then (k, false) else host_effect k cmd in
  (mkHost (h_links k') (h_ns k') (h_fwd k') (if ok : bool then h_failed k else cmd :: h_failed k), ok).

#[local] Instance host_kernel (bad : list string → bool) : Kernel host := {|
  exec := host_exec bad; links := h_links; namespaces := h_ns; forward := h_fwd;
  ls := λ k, Some (elements (h_ns k)); failures := h_failed |}.

(** The commands that begin so fail, or none do. *)
Definition failing (l : list string) (cmd : list string) : bool := bool_decide (take (length l) cmd = l).
Definition works (cmd : list string) : bool := false.

Lemma host_laws bad : @KernelLaws host (host_kernel bad).
Proof.
  constructor; unfold exec, links, namespaces, forward, ls, failures, host_kernel, host_exec.
  - intros k cmd. destruct (bad cmd); simpl; [done|]. by destruct (host_effect k cmd) as [k' []].
  - intros k n. destruct (bad _); simpl; split_and!; try done; set_solver.
  - intros k n. destruct (bad _); simpl; split_and!; try done; set_solver.
  - intros k l [= <-]. split; [apply NoDup_elements | intros; apply elem_of_elements].
  - intros k args. destruct (bad _); [done|]. unfold host_effect. simpl. repeat case_bool_decide; done.
  - intros k args. destruct (bad _); [done|]. unfold host_effect. simpl. repeat case_bool_decide; done.
  - intros k r. destruct (bad _); [done|]. unfold host_effect. simpl. repeat case_bool_decide; simplify_eq/=; split; try done.
  - intros k r. destruct (bad _); [done|]. unfold host_effect. simpl. repeat case_bool_decide; simplify_eq/=; done.
  - intros k r. destruct (bad _); [done|]. unfold host_effect. simpl. repeat case_bool_decide; simplify_eq/=; done.
Qed.

Definition w_spec : Spec :=
  {| Name := "ns-p00000007"; VethHost := "vh-p00000007"; VethGuest := "vg-p00000007";
     VethHostIP := "10.200.0.29"; VethGuestIP := "10.200.0.30"; VethSubnetMask := 30;
     TapName := "tap0"; TapHostIP := "172.20.6.117"; TapSubnetMask := 30; GuestIP := "172.20.6.118";
     PortMap := [(22, 22)]; WANIface := "ens4"; PoolCIDR := "10.200.0.0/16" |}.
Definition w_cidr : string → Z → string := λ _ _, "172.20.6.116/30".
Definition docker_rule : list string := ["-i"; "docker0"; "-j"; "ACCEPT"].
Definition w_host : host :=
  {| h_links := {["ens4"; "vh-p00000007"]}; h_ns := {["cni-1"]}; h_fwd := [docker_rule]; h_failed := [] |}.

(** ** Properties *)

(** C5. However a sandbox's namespace is created, fails to be created or is
    interrupted, and whichever commands fail, no isolation rule gets behind an
    ACCEPT of the host's FORWARD chain if none was to begin with; and once [Create]
    has succeeded, the cross-tenant DROP, the metadata DROP and every blocked port's
    DROP stand ahead of every ACCEPT, so that no packet one of them matches is
    accepted, each of them unless its own [iptables -I] failed during this call
    (which the code does not check). *)
Theorem egress_isolated {K} `{HK : Kernel K} `{!KernelLaws K} cidr env s k n :
  WANIface s ≠ "" → PoolCIDR s ≠ "" →
  (∀ d, d ∈ drops env s → placeable d (forward k)) →
  let '(r, k') := Create cidr env s n k in
  (∀ d, d ∈ drops env s → placeable d (forward k')) ∧
  match r with
  | Some (true, _) => ∀ d, d ∈ drops env s → refused k k' (insertion d) ∨
      placed d (forward k') ∧ ∀ matches, matches d = true → verdict matches (forward k') ≠ Some "ACCEPT"
  | _ => True
  end.
Proof.
  intros HW HP Hk. pose proof (Create_guards_aux cidr env k s HW HP n k (conj (later_refl k) Hk)) as H.
  destruct (Create cidr env s n k) as [[[[] m]|] k']; [|by split; [apply H|]..].
  destruct H as [[_ Hs] Hp]. split; [done|]. intros d Hd.
  destruct (Hp d Hd) as [?%not_elem_of_nil|[Hpl|?]]; [done| |by left].
  right. split; [done|]. intros m' Hm. eapply guarded_verdict; [apply Hpl|done].
Qed.

(** On a host where nothing fails but the insertion of one port's DROP. *)
Definition w_bad : list string → bool := failing (insertion (port_drop w_spec "3333")).
Lemma egress_isolated_witness :
  let r := Create (HK := host_kernel w_bad) w_cidr None w_spec 100%nat w_host in
  r.1 = Some (true, 55%nat) ∧ h_fwd r.2 !! 0%nat = Some (port_drop w_spec "45700") ∧ h_fwd r.2 !! 8%nat = Some (pool_drop w_spec) ∧
  ∀ d, d ∈ drops None w_spec → refused (H := host_kernel w_bad) w_host r.2 (insertion d) ∨
    placed d (h_fwd r.2) ∧ ∀ matches, matches d = true → verdict matches (h_fwd r.2) ≠ Some "ACCEPT".
Proof.
  assert (∀ d, d ∈ drops None w_spec → placeable d (h_fwd w_host)) as H0.
  { intros d Hd. left. simpl. intros ->%list_elem_of_singleton. revert Hd.
    apply (bool_decide_eq_true_1 (docker_rule ∉ drops None w_spec)). vm_compute. reflexivity. }
  pose proof (@egress_isolated host (host_kernel w_bad) (host_laws w_bad) w_cidr None w_spec w_host 100 ltac:(done) ltac:(done) H0) as H.
  assert ((Create (HK := host_kernel w_bad) w_cidr None w_spec 100%nat w_host).1 = Some (true, 55%nat)) as E by (vm_compute; reflexivity).
  intros r. split; [exact E|]. split; [vm_compute; reflexivity|]. split; [vm_compute; reflexivity|].
  unfold r. destruct (Create (HK := host_kernel w_bad) w_cidr None w_spec 100%nat w_host) as [r' k']. simpl in E. subst r'. apply H.
Defined.

(** When [iptables -I] fails (a lock held by another process, say), its error
    is dropped and the ACCEPT rules go in all the same: [Create] succeeds with
    guest-to-guest traffic open. *)
Lemma isolation_fails_open :
  let r := Create (HK := host_kernel (failing ["iptables"; "-I"])) w_cidr None w_spec 100%nat w_host in
  (∃ m, r.1 = Some (true, m)) ∧ (pool_drop w_spec ∉ h_fwd r.2) ∧
  ["-s"; "10.200.0.0/16"; "-o"; "ens4"; "-j"; "ACCEPT"] ∈ h_fwd r.2.
Proof.
  split; [eexists; vm_compute; reflexivity|].
  split; [apply (bool_decide_eq_true_1 (_ ∉ _)) | apply (bool_decide_eq_true_1 (_ ∈ _))]; vm_compute; reflexivity.
Qed.
