(* ===== verification/NetPool.v ===== *)
(** The network pool, agent/internal/network/pool.go and natid.go: what a
    sandbox's network costs in durable state (a slot row, a payload row) and
    in kernel objects, and the order in which each operation changes them.
    Every operation is a [Crash.C] computation: the process may be killed
    between any two effects, and the statements named by [fault] fail. *)

From S2P Require Import Prelude Crash SlotStore Addr Netns.

Open Scope string_scope.
Open Scope list_scope.
Open Scope Z_scope.

(** ** Data *)

(** The payload row; JSON is the identity on it. *)
Record Allocation := mkAlloc {
  al_SandboxID : string; al_TAP : string; al_HostIP : string; al_GuestIP : string;
  al_MAC : string; al_VsockCID : Z; al_Subnet : string; al_Idx : Z;
}.

Record NATIDAlloc := mkNatid {
  na_SandboxID : string; na_Netns : string; na_VethHost : string; na_VethGuest : string;
  na_ProxyHostIP : string; na_ProxyGuestIP : string; na_TapName : string; na_TapHostIP : string;
  na_GuestIP : string; na_MAC : string; na_Idx : nat;
}.

(** The databases, the kernel and the pool's memory. *)
Record world (K : Type) := mkWorld {
  slots : table;
  rows : gmap string Allocation;
  kern : K;
  savedCID : Z;
  nextCID : Z;
  natidFree : gmap string (list NATIDAlloc);
}.
Arguments mkWorld {K} _ _ _ _ _ _.
Arguments slots {K} _. Arguments rows {K} _. Arguments kern {K} _.
Arguments savedCID {K} _. Arguments nextCID {K} _. Arguments natidFree {K} _.

Inductive net_err := DBErr | NoRows | SlotErr (e : slot_err) | CarveErr | NetnsErr | TapErr | SweepErr.

(** The statements that can fail. *)
Inductive dbop := OpClaim | OpReassign | OpFree | OpSave | OpGet (id : string) | OpDelete | OpCID.

Section pool.
Context {K : Type} `{HK : Kernel K}.
Context (now : Z) (wan : string) (cidr : string → Z → string) (env : option string).
(** The devices [ip addr show to <ip>/32] lists. *)
Context (show : K → string → option (list string)).
Context (base : IPNet).
Context (fault : dbop → bool).

Definition set_slots (t : table) (w : world K) : world K :=
  mkWorld t (rows w) (kern w) (savedCID w) (nextCID w) (natidFree w).
Definition set_rows (m : gmap string Allocation) (w : world K) : world K :=
  mkWorld (slots w) m (kern w) (savedCID w) (nextCID w) (natidFree w).
Definition set_kern (k : K) (w : world K) : world K :=
  mkWorld (slots w) (rows w) k (savedCID w) (nextCID w) (natidFree w).
Definition set_free (f : gmap string (list NATIDAlloc)) (w : world K) : world K :=
  mkWorld (slots w) (rows w) (kern w) (savedCID w) (nextCID w) f.
Definition set_cids (saved next : Z) (w : world K) : world K :=
  mkWorld (slots w) (rows w) (kern w) saved next (natidFree w).

(** ** Statements *)

(** A slot-store transaction. *)
Definition slot_op {A} (op : dbop) (f : table → table * res slot_err A) : C (world K) (res net_err A) :=
  effect (λ w, if fault op then (Err DBErr, w)
               else let '(t, r) := f (slots w) in
                    (match r with Ok a => Ok a | Err e => Err (SlotErr e) end, set_slots t w)).

Definition ReleaseSlot (id : string) : C (world K) (res net_err bool) :=
  slot_op OpFree (λ t, let '(t', b) := SlotStore.Release id t in (t', Ok b)).

Definition SaveAllocation (a : Allocation) : C (world K) (res net_err ()) :=
  effect (λ w, if fault OpSave then (Err DBErr, w)
               else (Ok (), set_rows (<[al_SandboxID a := a]> (rows w)) w)).
Definition GetAllocationJSON (id : string) : C (world K) (res net_err Allocation) :=
  effect (λ w, if fault (OpGet id) then (Err DBErr, w)
               else (match rows w !! id with Some a => Ok a | None => Err NoRows end, w)).
Definition DeleteAllocation (id : string) : C (world K) (res net_err ()) :=
  effect (λ w, if fault OpDelete then (Err DBErr, w) else (Ok (), set_rows (delete id (rows w)) w)).
Definition SaveVsockCID (c : Z) : C (world K) (res net_err ()) :=
  effect (λ w, if fault OpCID then (Err DBErr, w) else (Ok (), set_cids c (nextCID w) w)).

Definition on_kern {A} (c : C K A) : C (world K) A := zoom kern set_kern c.

(** [netns.Destroy(netns.Spec{Name: ns, VethHost: vh})] *)
Definition objects (ns vh : string) : Spec :=
  {| Name := ns; VethHost := vh; VethGuest := ""; VethHostIP := ""; VethGuestIP := ""; VethSubnetMask := 0;
     TapName := ""; TapHostIP := ""; TapSubnetMask := 0; GuestIP := ""; PortMap := []; WANIface := ""; PoolCIDR := "" |}.

(** ** The legacy path *)

Definition setup_steps (a : Allocation) : list (list string) :=
  [["ip"; "tuntap"; "add"; "dev"; al_TAP a; "mode"; "tap"];
   ["ip"; "addr"; "add"; al_HostIP a +:+ "/30"; "dev"; al_TAP a];
   ["ip"; "link"; "set"; "dev"; al_TAP a; "up"]].

Definition setupTAP (a : Allocation) : C K bool :=
  _ ← run ["ip"; "link"; "del"; al_TAP a];
  ok ← all_steps run (setup_steps a);
  if negb ok then mret false
  else
    c ← run ["iptables"; "-t"; "nat"; "-C"; "POSTROUTING"; "-s"; al_Subnet a; "-j"; "MASQUERADE"];
    m ← (if c : bool then mret true
         else run ["iptables"; "-t"; "nat"; "-A"; "POSTROUTING"; "-s"; al_Subnet a; "-j"; "MASQUERADE"]);
    if negb m then mret false
    else
      _ ← each run [["iptables"; "-C"; "FORWARD"; "-i"; al_TAP a; "-o"; wan; "-j"; "ACCEPT"];
                    ["iptables"; "-A"; "FORWARD"; "-i"; al_TAP a; "-o"; wan; "-j"; "ACCEPT"];
                    ["iptables"; "-C"; "FORWARD"; "-o"; al_TAP a; "-i"; wan; "-j"; "ACCEPT"];
                    ["iptables"; "-A"; "FORWARD"; "-o"; al_TAP a; "-i"; wan; "-j"; "ACCEPT"]];
      mret true.

Definition teardownTAP (tap : string) : C K bool := run ["ip"; "link"; "del"; tap].

Definition takeCID : C (world K) Z :=
  pure_step (λ w, (nextCID w, set_cids (savedCID w) (u32 (nextCID w + 1)) w)).

Definition Allocate (id : string) : C (world K) (res net_err Allocation) :=
  r ← slot_op OpClaim (SlotStore.Claim now id "legacy");
  match r with
  | Err e => mret (Err e)
  | Ok idx =>
      cid ← takeCID;
      match carve base (Z.of_nat idx) with
      | None => _ ← ReleaseSlot id; mret (Err CarveErr)
      | Some (subnet, host, guest) =>
          let a := {| al_SandboxID := id; al_TAP := tapName id; al_HostIP := dotted (ipFromUint32 host);
                      al_GuestIP := dotted (ipFromUint32 guest); al_MAC := macFromIP (ipFromUint32 guest);
                      al_VsockCID := cid; al_Subnet := with_mask (dotted (ipFromUint32 subnet)) 30;
                      al_Idx := Z.of_nat idx |} in
          ok ← on_kern (setupTAP a);
          if negb ok then _ ← ReleaseSlot id; mret (Err TapErr)
          else
            s ← SaveAllocation a;
            match s with
            | Err e => _ ← on_kern (teardownTAP (al_TAP a)); _ ← ReleaseSlot id; mret (Err e)
            | Ok _ => _ ← SaveVsockCID (u32 (cid + 1)); mret (Ok a)
            end
      end
  end.

(** The kernel side of both release operations. *)
Definition teardown (a : Allocation) : C (world K) () :=
  if String.eqb (al_TAP a) "" then mret ()
  else if String.prefix "ns-" (al_TAP a) then on_kern (Destroy (objects (al_TAP a) (al_Subnet a)))
  else _ ← on_kern (teardownTAP (al_TAP a)); mret ().

Definition zero_alloc : Allocation := mkAlloc "" "" "" "" "" 0 "" 0.

Definition Release (id : string) : C (world K) (res net_err ()) :=
  payload ← GetAllocationJSON id;
  _ ← teardown (match payload with Ok a => a | Err _ => zero_alloc end);
  storeErr ← DeleteAllocation id;
  s ← ReleaseSlot id;
  mret (match s with Err e => Err e | Ok _ => storeErr end).

Definition Lookup (id : string) : C (world K) (res net_err Allocation) := GetAllocationJSON id.

(** ** The NATID path *)

Definition default_ports (ports : option (list (Z * Z))) : list (Z * Z) := default [(22, 22)] ports.

Definition natid_spec (short hostIP guestVethIP tapHostIP guestIP : string) (ports : list (Z * Z)) : Spec :=
  {| Name := "ns-" +:+ short; VethHost := "vh-" +:+ short; VethGuest := "vg-" +:+ short;
     VethHostIP := hostIP; VethGuestIP := guestVethIP; VethSubnetMask := 30;
     TapName := "tap0"; TapHostIP := tapHostIP; TapSubnetMask := 30; GuestIP := guestIP;
     PortMap := ports; WANIface := wan; PoolCIDR := with_mask (dotted (ipFromUint32 (IP natidPoolBase))) (ones natidPoolBase) |}.

Definition natid_alloc (id short hostIP guestVethIP tapHostIP guestIP mac : string) (idx : nat) : NATIDAlloc :=
  {| na_SandboxID := id; na_Netns := "ns-" +:+ short; na_VethHost := "vh-" +:+ short; na_VethGuest := "vg-" +:+ short;
     na_ProxyHostIP := hostIP; na_ProxyGuestIP := guestVethIP; na_TapName := "tap0"; na_TapHostIP := tapHostIP;
     na_GuestIP := guestIP; na_MAC := mac; na_Idx := idx |}.

Definition slotPrebuiltOwner (idx : nat) : string := PrebuiltOwner idx.

Definition PrebuildNATID (tapHostIP guestIP mac : string) (ports : option (list (Z * Z)))
    : C (world K) (res net_err nat) :=
  let ports := default_ports ports in
  r ← slot_op OpClaim (ClaimPrebuilt now "prebuilt");
  match r with
  | Err e => mret (Err e)
  | Ok idx =>
      match carveNATID (Z.of_nat idx) with
      | None => _ ← ReleaseSlot (slotPrebuiltOwner idx); mret (Err CarveErr)
      | Some (host, guest) =>
          let hostIP := dotted (ipFromUint32 host) in
          let guestVethIP := dotted (ipFromUint32 guest) in
          let short := natidShort (Z.of_nat idx) in
          ok ← on_kern (Create cidr env (natid_spec short hostIP guestVethIP tapHostIP guestIP ports));
          if negb ok then _ ← ReleaseSlot (slotPrebuiltOwner idx); mret (Err NetnsErr)
          else
            let slot := natid_alloc "" short hostIP guestVethIP tapHostIP guestIP mac idx in
            let key := natidIdentityKey tapHostIP guestIP mac ports in
            pure_step (λ w, let l := default [] (natidFree w !! key) ++ [slot] in
                            (Ok (length l), set_free (<[key := l]> (natidFree w)) w))
      end
  end.

Definition NATIDPoolSize (tapHostIP guestIP mac : string) (ports : option (list (Z * Z))) (w : world K) : nat :=
  length (default [] (natidFree w !! natidIdentityKey tapHostIP guestIP mac (default_ports ports))).

(** Pop the last slot of the free list. *)
Definition popFree (key : string) : C (world K) (option NATIDAlloc) :=
  pure_step (λ w, let l := default [] (natidFree w !! key) in
                  match last l with
                  | None => (None, w)
                  | Some s => (Some s, set_free (<[key := take (length l - 1) l]> (natidFree w)) w)
                  end).

(** Claim and build from scratch. *)
Definition slow_path (id tapHostIP guestIP mac : string) (ports : list (Z * Z)) : C (world K) (res net_err NATIDAlloc) :=
  r ← slot_op OpClaim (SlotStore.Claim now id "natid");
  match r with
  | Err e => mret (Err e)
  | Ok idx =>
      match carveNATID (Z.of_nat idx) with
      | None => _ ← ReleaseSlot id; mret (Err CarveErr)
      | Some (host, guest) =>
          let hostIP := dotted (ipFromUint32 host) in
          let guestVethIP := dotted (ipFromUint32 guest) in
          let spec := natid_spec (shortHex id) hostIP guestVethIP tapHostIP guestIP ports in
          ok ← on_kern (Create cidr env spec);
          if negb ok then _ ← ReleaseSlot id; mret (Err NetnsErr)
          else
            let a := natid_alloc id (shortHex id) hostIP guestVethIP tapHostIP guestIP mac idx in
            s ← SaveAllocation {| al_SandboxID := id; al_TAP := na_Netns a; al_HostIP := hostIP; al_GuestIP := guestIP;
                                  al_MAC := mac; al_VsockCID := 0; al_Subnet := na_VethHost a; al_Idx := Z.of_nat idx |};
            match s with
            | Err e => _ ← on_kern (Destroy spec); _ ← ReleaseSlot id; mret (Err e)
            | Ok _ => mret (Ok a)
            end
      end
  end.

(** [s] with its [SandboxID] set. *)
Definition adopt (id : string) (s : NATIDAlloc) : NATIDAlloc :=
  {| na_SandboxID := id; na_Netns := na_Netns s; na_VethHost := na_VethHost s; na_VethGuest := na_VethGuest s;
     na_ProxyHostIP := na_ProxyHostIP s; na_ProxyGuestIP := na_ProxyGuestIP s; na_TapName := na_TapName s;
     na_TapHostIP := na_TapHostIP s; na_GuestIP := na_GuestIP s; na_MAC := na_MAC s; na_Idx := na_Idx s |}.

(** The payload of an adopted or fresh allocation. *)
Definition payload_of (id : string) (s : NATIDAlloc) : Allocation :=
  {| al_SandboxID := id; al_TAP := na_Netns s; al_HostIP := na_ProxyHostIP s; al_GuestIP := na_GuestIP s;
     al_MAC := na_MAC s; al_VsockCID := 0; al_Subnet := na_VethHost s; al_Idx := Z.of_nat (na_Idx s) |}.

(** [go refill(key)] starts another operation, so it is not a step of this one. *)
Definition AllocateNATID (id tapHostIP guestIP mac : string) (ports : option (list (Z * Z)))
    : C (world K) (res net_err NATIDAlloc) :=
  let ports := default_ports ports in
  let key := natidIdentityKey tapHostIP guestIP mac ports in
  parked ← popFree key;
  match parked with
  | None => slow_path id tapHostIP guestIP mac ports
  | Some slot =>
      r ← slot_op OpReassign (Reassign now (slotPrebuiltOwner (na_Idx slot)) id "natid" (na_Idx slot));
      match r with
      | Ok true =>
          s ← SaveAllocation (payload_of id slot);
          match s with
          | Err e => _ ← ReleaseSlot id;
                     _ ← on_kern (Destroy (objects (na_Netns slot) (na_VethHost slot)));
                     mret (Err e)
          | Ok _ => _ ← on_kern (ClearStaleHolders show (na_ProxyHostIP slot) ("vh-" +:+ natidShort (Z.of_nat (na_Idx slot))));
                    mret (Ok (adopt id slot))
          end
      | _ => _ ← on_kern (Destroy (objects (na_Netns slot) (na_VethHost slot)));
             slow_path id tapHostIP guestIP mac ports
      end
  end.

Definition ReleaseNATID (id : string) : C (world K) (res net_err ()) :=
  payload ← GetAllocationJSON id;
  _ ← teardown (match payload with Ok a => a | Err _ => zero_alloc end);
  storeErr ← DeleteAllocation id;
  s ← ReleaseSlot id;
  mret (match s with Err e => Err e | Ok _ => storeErr end).

(** ** The boot sweep *)

(** [None]: a read failed, the keep-set is incomplete. *)
Fixpoint liveNetnsNames (liveIDs : list string) (keep : gset string) : C (world K) (option (gset string)) :=
  match liveIDs with
  | [] => mret (Some keep)
  | id :: ids =>
      r ← GetAllocationJSON id;
      match r with
      | Err NoRows => liveNetnsNames ids keep
      | Err _ => mret None
      | Ok a => liveNetnsNames ids (if String.prefix "ns-" (al_TAP a) then keep ∪ {[al_TAP a]} else keep)
      end
  end.

Definition orphanNetnsToSweep (all : list string) (keep : gset string) : list string :=
  filter (λ n, String.prefix "ns-" n = true ∧ n ∉ keep) all.

(** [strings.TrimPrefix(s, "ns-")] of a name that has the prefix. *)
Definition trim_ns (s : string) : string := String.substring 3 (String.length s - 3) s.

Definition SweepOrphanNetns (liveIDs : list string) : C (world K) (res net_err nat) :=
  keep ← liveNetnsNames liveIDs ∅;
  match keep with
  | None => mret (Err SweepErr)
  | Some keep =>
      all ← pure_step (λ w, (ls (kern w), w));
      match all with
      | None => mret (Err SweepErr)
      | Some all =>
          let orphans := orphanNetnsToSweep all keep in
          _ ← each (λ n, on_kern (Destroy (objects n ("vh-" +:+ trim_ns n)))) orphans;
          mret (Ok (length orphans))
      end
  end.
End pool.

Definition Reconcile {K} (live : gset string) (w : world K) : world K * Z :=
  let '(t, n) := SlotStore.Reconcile live (slots w) in (set_slots t w, n).

(** ** Lemmas *)

(** No row of the table belongs to [id]. *)
Definition unowned (id : string) (t : table) : Prop :=
  ∀ i rw, t !! i = Some rw → owner rw ≠ Some id.

(** The table once [id]'s row is freed. *)
Definition freed (id : string) (t : table) : table := (SlotStore.Release id t).1.

Lemma freed_lookup id t i :
  id ≠ "" → freed id t !! i = (λ r, if owned_by id r then free_row else r) <$> t !! i.
Proof.
  intros Hid. unfold freed, SlotStore.Release. destruct (String.eqb_spec id ""); [done|].
  rewrite <- (update_lookup (λ _ r, owned_by id r) (λ _, free_row)). by destruct (update_where _ _ t).
Qed.

Lemma freed_unowned id t : id ≠ "" → unowned id (freed id t).
Proof.
  intros Hid i rw. rewrite freed_lookup by done. destruct (t !! i) as [r|]; [|done]. simpl.
  intros [= <-]. destruct (owned_by id r) eqn:E; [done|]. intros Ho%owned_by_spec. congruence.
Qed.

Lemma freed_idem id t : id ≠ "" → freed id (freed id t) = freed id t.
Proof.
  intros Hid. apply list_eq. intros i. rewrite !freed_lookup by done.
  destruct (t !! i) as [r|]; [|done]. simpl. f_equal. destruct (owned_by id r) eqn:E; [done|by rewrite E].
Qed.

(** Every owned row of [t] is owned in [t']. *)
Definition kept (t t' : table) : Prop :=
  ∀ i rw, t !! i = Some rw → owner rw ≠ None → ∃ rw', t' !! i = Some rw' ∧ owner rw' ≠ None.

Lemma kept_refl t : kept t t.
Proof. intros i rw. eauto. Qed.

Lemma kept_insert t k rw rw0 : t !! k = Some rw0 → owner rw ≠ None → kept t (<[k := rw]> t).
Proof.
  intros Hk Ho i r Hi Hr. destruct (decide (i = k)) as [->|].
  - exists rw. split; [|done]. apply list_lookup_insert_eq. by eapply lookup_lt_Some.
  - exists r. by rewrite list_lookup_insert_ne.
Qed.

(** Freeing what [id] claimed since [t] frees none of [t]'s rows. *)
Lemma kept_claim_free id t k kd now rw :
  id ≠ "" → unowned id t → t !! k = Some rw → owner rw = None →
  kept t (freed id (<[k := take_row now id kd rw]> t)).
Proof.
  intros Hid Hu Hk Ho i r Hi Hr. exists r. rewrite freed_lookup, list_lookup_insert_ne by (congruence || done).
  rewrite Hi. simpl. split; [|done]. destruct (owned_by id r) eqn:E; [|done].
  apply owned_by_spec in E. by destruct (Hu _ _ Hi).
Qed.

Section rules.
Context {K : Type} `{HK : Kernel K}.
Implicit Types (P R : world K → Prop).

Lemma slot_op_triple {A} fault op (f : table → table * res slot_err A) P Q R :
  (∀ w, P w → R w) →
  (fault op = true → ∀ w, P w → Q (Err DBErr) w) →
  (fault op = false → ∀ w t r, P w → f (slots w) = (t, r) →
     Q (match r with Ok a => Ok a | Err e => Err (SlotErr e) end) (set_slots t w)) →
  triple P (slot_op fault op f) Q R.
Proof.
  intros HR HF HT. apply triple_effect; [done|]. intros w Hw. destruct (fault op) eqn:E; [by apply HF|].
  destruct (f (slots w)) as [t r] eqn:Ef. by apply (HT eq_refl w t r).
Qed.

Lemma release_slot_triple fault id P Q R :
  (∀ w, P w → R w) →
  (fault OpFree = true → ∀ w, P w → Q (Err DBErr) w) →
  (fault OpFree = false → ∀ w b, P w → Q (Ok b) (set_slots (freed id (slots w)) w)) →
  triple P (ReleaseSlot fault id) Q R.
Proof.
  intros HR HF HT. apply slot_op_triple; [done..|]. intros E w t r Hw.
  specialize (HT E w). unfold freed in HT. destruct (SlotStore.Release id (slots w)) as [t' b].
  intros [= <- <-]. by apply HT.
Qed.

Lemma save_triple fault a P Q R :
  (∀ w, P w → R w) →
  (fault OpSave = true → ∀ w, P w → Q (Err DBErr) w) →
  (fault OpSave = false → ∀ w, P w → Q (Ok ()) (set_rows (<[al_SandboxID a := a]> (rows w)) w)) →
  triple P (SaveAllocation fault a) Q R.
Proof.
  intros HR HF HT. apply triple_effect; [done|]. intros w Hw. destruct (fault OpSave); [by apply HF | by apply HT].
Qed.

(** A kernel step leaves the databases alone. *)
Lemma kern_frame {A} (c : C K A) (F : table → gmap string Allocation → Prop) (QK : A → K → Prop) :
  triple (λ _, True) c QK (λ _, True) →
  triple (λ w : world K, F (slots w) (rows w)) (on_kern c)
    (λ a w, F (slots w) (rows w) ∧ QK a (kern w)) (λ w, F (slots w) (rows w)).
Proof.
  intros H. eapply triple_zoom; [exact H | done | |].
  - intros w v a Hw Ha. by split.
  - intros w v Hw _. exact Hw.
Qed.

Lemma kern_skip {A} (c : C K A) (F : table → gmap string Allocation → Prop) :
  triple (λ w : world K, F (slots w) (rows w)) (on_kern c) (λ _ w, F (slots w) (rows w)) (λ w, F (slots w) (rows w)).
Proof.
  eapply triple_conseq; [apply (kern_frame c F (λ _ _, True)) | done | by intros ? w [] | done].
  intros n w _. by repeat case_match.
Qed.
End rules.

(** ** Release *)

Section release.
Context {K : Type} `{HK : Kernel K} `{!KernelLaws K}.
Context (id : string) (a : Allocation) (t0 : table) (k0 : K).
Hypothesis Hid : id ≠ "".
Hypothesis Hns : String.prefix "ns-" (al_TAP a) = true.
Hypothesis Hvh : al_Subnet a ≠ "".

(** The sandbox's kernel objects are gone, but for those that the kernel refused to
    delete since [k0]. *)
Definition gone (w : world K) : Prop :=
  (al_Subnet a ∈ links (kern w) → refused k0 (kern w) ["ip"; "link"; "del"; al_Subnet a]) ∧
  (al_TAP a ∈ namespaces (kern w) → refused k0 (kern w) ["ip"; "netns"; "del"; al_TAP a]).

(** What holds between any two effects of any number of attempts: the payload
    row that names the objects is there until they are gone, and so is the
    ownership of the slot. *)
Definition releasing (w : world K) : Prop :=
  later k0 (kern w) ∧
  (rows w !! id = Some a ∨ rows w !! id = None ∧ gone w) ∧
  (slots w = t0 ∨ slots w = freed id t0 ∧ gone w).

Lemma tap_nonempty : al_TAP a ≠ "".
Proof using Hns. intros E. rewrite E in Hns. done. Qed.

Lemma gone_clean k (w : world K) :
  later k0 k → clean (objects (al_TAP a) (al_Subnet a)) k (kern w) → gone w.
Proof using Hns Hvh.
  pose proof tap_nonempty. unfold gone, clean. cbn. intros Hk [H1 H2].
  split; intros Hin; (eapply later_refused; [exact Hk|]); [by apply H1|by apply H2].
Qed.

Lemma gone_shrunk (w : world K) k : gone w → shrunk (kern w) k → gone (set_kern k w).
Proof. intros [H1 H2] (S1 & S2 & S3). split; simpl; intros H; (eapply refused_later; [|exact S3]); [by apply H1, S1 | by apply H2, S2]. Qed.

Lemma releasing_shrunk (w : world K) k : releasing w → shrunk (kern w) k → releasing (set_kern k w).
Proof.
  intros (H0 & H1 & H2) S. split_and!.
  - destruct S as (_ & _ & S). unfold later in *. by etrans.
  - destruct H1 as [?|[? G]]; [by left | right; split; [done|by apply gone_shrunk]].
  - destruct H2 as [?|[? G]]; [by left | right; split; [done|by apply gone_shrunk]].
Qed.

Lemma teardown_triple :
  triple releasing (teardown a) (λ _ w, releasing w ∧ gone w) releasing.
Proof using All.
  unfold teardown. destruct (String.eqb_spec (al_TAP a) "") as [E|_]; [by destruct tap_nonempty|]. rewrite Hns.
  apply triple_start. intros w0 Hw0.
  eapply triple_zoom; [apply (Destroy_triple (objects (al_TAP a) (al_Subnet a)) (kern w0)) | | |].
  - intros w ->. apply shrunk_refl.
  - intros w k _ -> [Hs Hc]. split; [by apply releasing_shrunk|]. eapply gone_clean; [apply Hw0|exact Hc].
  - intros w k -> Hs. by apply releasing_shrunk.
Qed.

Lemma skip_teardown_triple :
  triple (λ w : world K, releasing w ∧ gone w) (teardown zero_alloc) (λ _ w, releasing w ∧ gone w) releasing.
Proof. by apply triple_ret. Qed.

Lemma get_triple fault :
  fault (OpGet id) = false →
  triple releasing (GetAllocationJSON (K := K) fault id)
    (λ p w, releasing w ∧ (p = Ok a ∨ p = Err NoRows ∧ gone w)) releasing.
Proof.
  intros Hf. apply triple_effect; [done|]. intros w Hw. rewrite Hf. simpl. split; [done|].
  destruct Hw as (_ & [->|[-> G]] & _); [by left | by right].
Qed.

Lemma ReleaseNATID_triple fault :
  fault (OpGet id) = false →
  triple releasing (ReleaseNATID fault id)
    (λ r w, releasing w ∧ gone w ∧
       (r = Ok () → rows w !! id = None ∧ slots w = freed id t0) ∧
       ((∀ op, fault op = false) → r = Ok ()))
    releasing.
Proof using All.
  intros Hf. unfold ReleaseNATID.
  eapply triple_bind; [by apply get_triple|]. intros p.
  eapply triple_bind with (Q := λ _ w, releasing w ∧ gone w).
  { eapply (triple_pre _ (p = Ok a ∨ p = Err NoRows)); [by intros w [_ [?|[? _]]]; auto|].
    intros [->| ->].
    - eapply triple_conseq; [apply teardown_triple | by intros w [] | done | done].
    - eapply triple_conseq; [apply skip_teardown_triple | | done | done].
      intros w [Hw [[=]|[_ G]]]. done. }
  intros ?. eapply triple_bind with
    (Q := λ s w, releasing w ∧ gone w ∧ (s = Ok () → rows w !! id = None) ∧ ((∀ op, fault op = false) → s = Ok ())).
  { apply triple_effect; [by intros w [] |]. intros w [Hw G]. destruct (fault OpDelete) eqn:E; simpl.
    - split_and!; try done. intros H. by rewrite H in E.
    - split_and!; try done; [|intros _; apply lookup_delete_eq]. destruct Hw as (Hk & _ & Hw). split_and!; simpl; [done|right|exact Hw].
      split; [apply lookup_delete_eq | exact G]. }
  intros s. eapply triple_bind with
    (Q := λ r w, releasing w ∧ gone w ∧ (s = Ok () → rows w !! id = None) ∧
                 ((∀ op, fault op = false) → s = Ok () ∧ ∃ b, r = Ok b) ∧ (∀ b, r = Ok b → slots w = freed id t0)).
  { apply release_slot_triple; [by intros w [] | |].
    - intros E w (Hw & G & Hs & Hn). split_and!; try done. intros H. by rewrite H in E.
    - intros E w b (Hw & G & Hs & Hn).
      assert (freed id (slots w) = freed id t0) as Hfr.
      { destruct Hw as (_ & _ & [->|[-> _]]); [done | by apply freed_idem]. }
      rewrite Hfr. split_and!; try done; [|intros H; split; [by apply Hn | by exists b]].
      destruct Hw as (Hk & Hw & _). split_and!; [done..|right; by split]. }
  intros r. apply triple_ret. intros w (Hw & G & Hs & Hn & Hok). split_and!; try done.
  - destruct r as [b|e]; [|done]. intros ->. split; [by apply Hs | by apply (Hok b)].
  - intros H. destruct (Hn H) as [-> [b ->]]. done.
Qed.

Lemma teardown_finishes (b : Allocation) : finishes 2 (teardown (K := K) b).
Proof.
  unfold teardown. destruct (String.eqb _ ""); [eapply finishes_mono; [apply finishes_ret | lia]|].
  destruct (String.prefix "ns-" (al_TAP b)).
  - apply finishes_zoom. unfold Destroy. change 2%nat with (1 + (1 + 0))%nat.
    apply finishes_bind; [destruct (String.eqb _ _); [eapply finishes_mono; [apply finishes_ret|lia] | apply finishes_effect]|].
    intros _. apply finishes_bind; [|intros _; apply finishes_ret].
    destruct (String.eqb _ _); [eapply finishes_mono; [apply finishes_ret|lia] | apply finishes_effect].
  - eapply finishes_mono; [eapply (finishes_bind 1 0); [apply finishes_zoom, finishes_effect | intros ?; apply finishes_ret] | lia].
Qed.

Lemma ReleaseNATID_finishes fault : finishes 5 (ReleaseNATID (K := K) fault id).
Proof.
  unfold ReleaseNATID. change 5%nat with (1 + (2 + (1 + (1 + 0))))%nat.
  apply finishes_bind; [apply finishes_effect | intros p].
  apply finishes_bind; [apply teardown_finishes | intros ?].
  apply finishes_bind; [apply finishes_effect | intros s].
  apply finishes_bind; [apply finishes_effect | intros r]. apply finishes_ret.
Qed.

Lemma releasing_attempts (runs : list ((dbop → bool) * nat)) w :
  Forall (λ x, x.1 (OpGet id) = false) runs → releasing w →
  releasing (foldl (λ w x, (ReleaseNATID x.1 id x.2 w).2) w runs).
Proof using All.
  revert w. induction runs as [|[f n] runs IH]; simpl; intros w Hf Hw; [done|].
  apply Forall_cons in Hf as [Hf Hfs]. apply IH; [done|].
  destruct (triple_run _ _ _ _ n w (ReleaseNATID_triple f Hf) Hw) as [(r & m & _ & H & _)|[_ H]]; done.
Qed.
End release.

Definition no_fault : dbop → bool := λ _, false.

(** C4. Releasing a sandbox's network survives being killed.  However many
    attempts are cut short at whatever point, and whichever commands and
    statements fail (as long as the payload row can be read), the slot is never
    free while the namespace or veth it stands for exists, unless the very [ip]
    command that deletes it failed in one of the attempts (which the code does
    not check); and one more attempt whose statements succeed always completes,
    with the payload row deleted, the slot free, and the objects gone as far as
    the kernel deleted them. *)
Theorem release_crash_safe {K} `{HK : Kernel K} `{!KernelLaws K} id a (w : world K) runs n :
  id ≠ "" → String.prefix "ns-" (al_TAP a) = true → al_Subnet a ≠ "" → rows w !! id = Some a →
  Forall (λ x, x.1 (OpGet id) = false) runs → (5 ≤ n)%nat →
  let w1 := foldl (λ w x, (ReleaseNATID x.1 id x.2 w).2) w runs in
  let '(r, w2) := ReleaseNATID no_fault id n w1 in
  (slots w1 = slots w ∨ slots w1 = freed id (slots w) ∧ gone a (kern w) w1) ∧
  (∃ m, r = Some (Ok (), m)) ∧ gone a (kern w) w2 ∧ rows w2 !! id = None ∧
  slots w2 = freed id (slots w) ∧ unowned id (slots w2).
Proof.
  intros Hid Hns Hvh Hrow Hruns Hn w1.
  assert (releasing id a (slots w) (kern w) w1) as H1.
  { apply releasing_attempts; [done..|]. split_and!; [apply later_refl|by left..]. }
  pose proof (triple_run _ _ _ _ n w1 (ReleaseNATID_triple id a (slots w) (kern w) Hid Hns Hvh no_fault eq_refl) H1) as Hr.
  destruct (ReleaseNATID_finishes id no_fault n w1 Hn) as (x & m & Ex & _).
  destruct (ReleaseNATID no_fault id n w1) as [r w2]. simpl in *. subst r.
  destruct Hr as [(r & m' & [= <- <-] & Hw & G & Hok & Hnf)|[[=] _]].
  rewrite (Hnf (λ _, eq_refl)) in *. destruct (Hok eq_refl) as [Hrows Hsl].
  split_and!; try done; [apply H1 | by exists m | rewrite Hsl; by apply freed_unowned].
Qed.

(** A host with sandbox "a-1" on slot 0, in the namespace of a pre-built slot. *)
Definition w_alloc : Allocation :=
  mkAlloc "a-1" "ns-p00000000" "10.200.0.1" "172.20.6.118" "06:00:AC:14:06:76" 0 "vh-p00000000" 0.
Definition w_world : world host :=
  {| slots := [take_row 1 "a-1" "natid" free_row; free_row]; rows := {["a-1" := w_alloc]};
     kern := {| h_links := {["vh-p00000000"]}; h_ns := {["ns-p00000000"; "cni-1"]}; h_fwd := []; h_failed := [] |};
     savedCID := 3; nextCID := 3; natidFree := ∅ |}.

(** Killed twice: before the namespace is deleted, then before the slot is freed. *)
Lemma release_crash_safe_witness :
  let HK := host_kernel works in
  let w1 := foldl (λ w x, (ReleaseNATID (HK := host_kernel works) x.1 "a-1" x.2 w).2) w_world [(no_fault, 2%nat); (no_fault, 4%nat)] in
  rows w1 !! "a-1" = None ∧ slots w1 = slots w_world ∧
  let '(r, w2) := ReleaseNATID (HK := host_kernel works) no_fault "a-1" 5%nat w1 in
  (slots w1 = slots w_world ∨ slots w1 = freed "a-1" (slots w_world) ∧ gone w_alloc (kern w_world) w1) ∧
  (∃ m, r = Some (Ok (), m)) ∧ gone w_alloc (kern w_world) w2 ∧ rows w2 !! "a-1" = None ∧
  slots w2 = freed "a-1" (slots w_world) ∧ unowned "a-1" (slots w2).
Proof.
  intros HK w1. split; [vm_compute; reflexivity|]. split; [vm_compute; reflexivity|].
  apply (@release_crash_safe host (host_kernel works) (host_laws works) "a-1" w_alloc w_world
           [(no_fault, 2%nat); (no_fault, 4%nat)] 5%nat);
    [discriminate | reflexivity | discriminate | vm_compute; reflexivity | repeat constructor | lia].
Defined.

(** A deletion that failed is not looked at: the slot is freed under a namespace that
    is there. *)
Lemma failed_delete_frees_a_live_slot :
  let r := ReleaseNATID (HK := host_kernel (failing ["ip"; "netns"; "del"])) no_fault "a-1" 9%nat w_world in
  (∃ m, r.1 = Some (Ok (), m)) ∧ (∃ rw, slots r.2 !! 0%nat = Some rw ∧ owner rw = None) ∧
  bool_decide ("ns-p00000000" ∈ h_ns (kern r.2)) = true.
Proof. split; [eexists; vm_compute; reflexivity|]. split; [eexists; split; vm_compute; reflexivity | vm_compute; reflexivity]. Qed.

(** A payload that cannot be read is taken for one that is missing: the slot is
    freed and its namespace stays. *)
Lemma read_error_frees_a_live_slot :
  let w2 := (ReleaseNATID (HK := host_kernel works) (λ op, match op with OpGet _ => true | _ => false end) "a-1" 9%nat w_world).2 in
  (∃ rw, slots w2 !! 0%nat = Some rw ∧ owner rw = None) ∧ bool_decide ("ns-p00000000" ∈ h_ns (kern w2)) = true.
Proof. split; [eexists; split; vm_compute; reflexivity | vm_compute; reflexivity]. Qed.

(** A payload row that could not be deleted outlives the ownership of its slot:
    once another sandbox has adopted the slot, a second release of the first
    one destroys the other's namespace. *)
Lemma stale_row_destroys_the_next_owner :
  let HK := host_kernel works in
  let w1 := (ReleaseNATID (λ op, match op with OpDelete => true | _ => false end) "a-1" 9%nat w_world).2 in
  let w2 := (PrebuildNATID 2 "ens4" w_cidr None no_fault "172.20.6.117" "172.20.6.118" "06:00:AC:14:06:76" None 100%nat w1).2 in
  let r3 := AllocateNATID 3 "ens4" w_cidr None (λ _ _, None) no_fault "b-2" "172.20.6.117" "172.20.6.118"
              "06:00:AC:14:06:76" None 100%nat w2 in
  let w3 := r3.2 in
  let w4 := (ReleaseNATID no_fault "a-1" 9%nat w3).2 in
  match r3.1 with Some (Ok s, _) => na_Netns s | _ => "" end = "ns-p00000000" ∧
  bool_decide ("ns-p00000000" ∈ h_ns (kern w3)) = true ∧ bool_decide ("ns-p00000000" ∈ h_ns (kern w4)) = false ∧
  OwnerIdx "b-2" (slots w4) = Some 0%nat.
Proof. intros HK w1 w2 r3 w3 w4. repeat (split; [vm_compute; reflexivity|]). vm_compute. reflexivity. Qed.

(** A fast-path allocation whose payload cannot be saved frees the slot before
    it destroys the namespace: killed in between, it leaves a free slot whose
    namespace is alive. *)
Lemma rollback_frees_before_destroying :
  let HK := host_kernel works in
  let slot := natid_alloc "" (natidShort 0) "10.200.0.1" "10.200.0.2" "172.20.6.117" "172.20.6.118" "m" 0%nat in
  let w0 : world host :=
    {| slots := [take_row 1 (PrebuiltOwner 0%nat) "prebuilt" free_row]; rows := ∅;
       kern := {| h_links := {["vh-p00000000"]}; h_ns := {["ns-p00000000"]}; h_fwd := []; h_failed := [] |};
       savedCID := 3; nextCID := 3;
       natidFree := {[natidIdentityKey "172.20.6.117" "172.20.6.118" "m" [(22, 22)] := [slot]]} |} in
  let r1 := AllocateNATID 3 "ens4" w_cidr None (λ _ _, None) (λ op, match op with OpSave => true | _ => false end)
                    "b-2" "172.20.6.117" "172.20.6.118" "m" None 3%nat w0 in
  r1.1 = None ∧ OwnerIdx "b-2" (slots r1.2) = None ∧ OwnerIdx (PrebuiltOwner 0) (slots r1.2) = None ∧
  bool_decide ("ns-p00000000" ∈ h_ns (kern r1.2)) = true.
Proof. intros HK slot w0 r1. repeat (split; [vm_compute; reflexivity|]). vm_compute. reflexivity. Qed.

(** ** Allocate *)

Section allocate.
Context {K : Type} `{HK : Kernel K} `{!KernelLaws K}.
Context (now : Z) (wan : string) (cidr : string → Z → string) (env : option string)
        (show : K → string → option (list string)) (fault : dbop → bool).
Context (id : string) (t0 : table) (m0 : gmap string Allocation).
Hypothesis Hid : id ≠ "".
Hypothesis Hu : unowned id t0.

Definition unchanged (t : table) (m : gmap string Allocation) : Prop := t = t0 ∧ m = m0.

(** The row [id] claimed, every other row as in [t0]. *)
Definition claimed (k : nat) (t : table) (m : gmap string Allocation) : Prop :=
  m = m0 ∧ ∃ rw rw0, t0 !! k = Some rw0 ∧ t = <[k := rw]> t0 ∧ owner rw = Some id ∧
    (owner rw0 = None → ∃ kd, rw = take_row now id kd rw0).

Definition allocated (a : NATIDAlloc) (w : world K) : Prop :=
  na_SandboxID a = id ∧ (∃ rw, slots w !! na_Idx a = Some rw ∧ owner rw = Some id) ∧
  rows w = <[id := payload_of id a]> m0.

Definition failed (w : world K) : Prop :=
  rows w = m0 ∧ (fault OpFree = false → unowned id (slots w)).

Definition outcome (r : res net_err NATIDAlloc) (w : world K) : Prop :=
  match r with Ok a => allocated a w | Err _ => failed w end ∧ (fault OpSave = false → kept t0 (slots w)).

Definition killed (w : world K) : Prop := fault OpSave = false → kept t0 (slots w).

Lemma unchanged_failed w : unchanged (slots w) (rows w) → failed w ∧ kept t0 (slots w).
Proof using Hu. intros [E1 E2]. split; [split; [done|intros _; by rewrite E1] | rewrite E1; apply kept_refl]. Qed.

Lemma claimed_kept k t m : claimed k t m → kept t0 t.
Proof. intros (_ & rw & rw0 & Hk & -> & Ho & _). eapply kept_insert; [done|]. by rewrite Ho. Qed.

(** Giving the claim back. *)
Lemma give_back (e : net_err) k :
  triple (λ w : world K, claimed k (slots w) (rows w) ∧ ∃ rw0, t0 !! k = Some rw0 ∧ owner rw0 = None)
    (_ ← ReleaseSlot fault id; mret (Err e)) outcome killed.
Proof using All.
  eapply triple_bind with (Q := λ _ w, failed w ∧ kept t0 (slots w)).
  - apply release_slot_triple.
    + intros w [Hc _] _. by eapply claimed_kept.
    + intros E w [Hc _]. split; [|by eapply claimed_kept]. split; [apply Hc | congruence].
    + intros E w b [(Hm & rw & rw0 & Hk & Ht & Ho & Hf) (rw1 & Hk1 & Ho1)]. simplify_eq.
      destruct (Hf Ho1) as [kd ->]. simpl. split.
      * split; [done|]. intros _. by apply freed_unowned.
      * simpl. rewrite Ht. by apply kept_claim_free.
  - intros ?. apply triple_ret. intros w [H1 H2]. split; [exact H1 | by intros _].
Qed.

Lemma slow_path_triple tapHostIP guestIP mac ports :
  triple (λ w : world K, unchanged (slots w) (rows w))
    (slow_path now wan cidr env fault id tapHostIP guestIP mac ports) outcome killed.
Proof using All.
  unfold slow_path. eapply triple_bind with
    (Q := λ r w, match r with
                 | Ok k => claimed k (slots w) (rows w) ∧ ∃ rw0, t0 !! k = Some rw0 ∧ owner rw0 = None
                 | Err _ => failed w ∧ kept t0 (slots w)
                 end).
  { apply slot_op_triple.
    - intros w Hw _. by apply unchanged_failed.
    - intros _ w Hw. by apply unchanged_failed.
    - intros _ w t r [Hs Hm] Hc. rewrite Hs in Hc. revert Hc. unfold SlotStore.Claim.
      destruct (String.eqb_spec id ""); [done|].
      destruct (select_first (owned_by id) t0) as [k|] eqn:Ho.
      { apply select_first_Some in Ho as (rw & Hk & Ho%owned_by_spec & _). by destruct (Hu _ _ Hk). }
      destruct (claim_free_spec now (λ _, id) "natid" t0) as [[_ ->]|(k & rw & _ & Hk & Hf & ->)]; intros [= <- <-]; simpl.
      + split; [split; [done|by intros _] | apply kept_refl].
      + split; [|by exists rw]. split; [done|]. exists (take_row now id "natid" rw), rw. split_and!; try done. eauto. }
  intros [k|e]; [|apply triple_ret; intros w [H1 H2]; split; [exact H1 | by intros _]].
  destruct (carveNATID (Z.of_nat k)) as [[host guest]|]; [|apply give_back].
  set (F := λ t m, claimed k t m ∧ ∃ rw0, t0 !! k = Some rw0 ∧ owner rw0 = None).
  assert (∀ w : world K, F (slots w) (rows w) → killed w) as HF by (intros w [Hc _] _; by eapply claimed_kept).
  eapply triple_bind; [eapply triple_conseq; [apply (kern_skip _ F) | done | | by intros w; apply HF]|].
  { intros ok w Hw. exact Hw. }
  intros []; [|apply give_back].
  eapply triple_bind with
    (Q := λ s w, match s with
                 | Ok _ => outcome (Ok (natid_alloc id (shortHex id) (dotted (ipFromUint32 host)) (dotted (ipFromUint32 guest))
                                          tapHostIP guestIP mac k)) w
                 | Err _ => F (slots w) (rows w)
                 end).
  { apply save_triple; [done..|]. intros _ w [Hc Hr].
    pose proof Hc as (Hm & rw & rw0 & Hk & Ht & Ho & _). split; [|intros _; by eapply claimed_kept].
    split_and!; [done | | by rewrite <- Hm]. exists rw. split; [|done]. simpl. rewrite Ht.
    apply list_lookup_insert_eq. by eapply lookup_lt_Some. }
  intros [[]|e]; [by apply triple_ret|].
  eapply triple_bind; [eapply triple_conseq; [apply (kern_skip _ F) | done | | by intros w; apply HF]|].
  { intros ? w Hw. exact Hw. }
  intros ?. apply give_back.
Qed.

(** The fast path once the parked slot is adopted. *)
Definition adopted (k : nat) (t : table) (m : gmap string Allocation) : Prop :=
  m = m0 ∧ ∃ rw rw0, t0 !! k = Some rw0 ∧ t = <[k := rw]> t0 ∧ owner rw = Some id.

Lemma AllocateNATID_triple tapHostIP guestIP mac ports :
  triple (λ w : world K, unchanged (slots w) (rows w))
    (AllocateNATID now wan cidr env show fault id tapHostIP guestIP mac ports) outcome killed.
Proof using All.
  unfold AllocateNATID. eapply triple_bind with (Q := λ _ w, unchanged (slots w) (rows w)).
  { apply triple_pure_step. intros w Hw. cbn. destruct (last (default [] (natidFree w !! _))); exact Hw. }
  intros [slot|]; [|apply slow_path_triple].
  eapply triple_bind with
    (Q := λ r w, match r with Ok true => adopted (na_Idx slot) (slots w) (rows w) | _ => unchanged (slots w) (rows w) end).
  { apply slot_op_triple; [intros w Hw _; by apply unchanged_failed | done |].
    intros _ w t r [Hs Hm] Hr. rewrite Hs in Hr. revert Hr. unfold Reassign.
    destruct (String.eqb_spec id ""); [done|].
    destruct (update_idx_spec (na_Idx slot) (owned_by (slotPrebuiltOwner (na_Idx slot))) (take_row now id "natid") t0)
      as [(rw & Hk & _ & ->)|[_ ->]]; intros [= <- <-]; simpl; [|done].
    split; [done|]. by exists (take_row now id "natid" rw), rw. }
  assert (∀ w : world K, adopted (na_Idx slot) (slots w) (rows w) → kept t0 (slots w)) as Hkept.
  { intros w (_ & rw & rw0 & Hk & -> & Ho). eapply kept_insert; [done|]. by rewrite Ho. }
  assert (triple (λ w : world K, unchanged (slots w) (rows w))
            (_ ← on_kern (Destroy (objects (na_Netns slot) (na_VethHost slot)));
             slow_path now wan cidr env fault id tapHostIP guestIP mac (default_ports ports)) outcome killed) as Hslow.
  { eapply triple_bind; [eapply triple_conseq; [apply (kern_skip _ unchanged) | done | |] | intros ?; apply slow_path_triple].
    - intros ? w Hw. exact Hw.
    - intros w Hw _. by apply unchanged_failed. }
  intros [[]|e]; [|exact Hslow..].
  eapply triple_bind with
    (Q := λ s w, match s with
                 | Ok _ => allocated (adopt id slot) w ∧ kept t0 (slots w)
                 | Err _ => adopted (na_Idx slot) (slots w) (rows w) ∧ fault OpSave = true
                 end).
  { apply save_triple; [intros w Hw _; by apply Hkept | done |]. intros _ w Hw. split; [|exact (Hkept w Hw)].
    destruct Hw as (Hm & rw & rw0 & Hk & Ht & Ho). split_and!; [done | | by rewrite <- Hm].
    exists rw. split; [|done]. simpl. rewrite Ht. apply list_lookup_insert_eq. by eapply lookup_lt_Some. }
  intros [[]|e].
  - eapply triple_bind with (Q := λ _ w, allocated (adopt id slot) w ∧ kept t0 (slots w)).
    + eapply triple_conseq; [eapply (kern_skip _ (λ t m, (∃ rw, t !! na_Idx slot = Some rw ∧ owner rw = Some id) ∧
          m = <[id := payload_of id (adopt id slot)]> m0 ∧ kept t0 t)) | | |].
      * intros w [(_ & H1 & H2) H3]. exact (conj H1 (conj H2 H3)).
      * intros ? w (H1 & H2 & H3). exact (conj (conj eq_refl (conj H1 H2)) H3).
      * intros w (_ & _ & H) _. exact H.
    + intros ?. apply triple_ret. intros w [H1 H2]. split; [exact H1|by intros _].
  - eapply (triple_pre _ (fault OpSave = true)); [by intros w []|]. intros Hsave.
    eapply triple_bind with (Q := λ _ w, failed w).
    + apply release_slot_triple; [intros w _ ?; congruence | |].
      * intros E w [Hc _]. split; [apply Hc | congruence].
      * intros E w b [Hc _]. split; [apply Hc | intros _; by apply freed_unowned].
    + intros ?. eapply triple_bind with (Q := λ _ w, failed w).
      * eapply triple_conseq; [eapply (kern_skip _ (λ t m, m = m0 ∧ (fault OpFree = false → unowned id t)))
          | by intros w | by intros ? w | intros w _ ?; congruence].
      * intros ?. apply triple_ret. intros w Hw. split; [exact Hw | congruence].
Qed.
End allocate.

(** Allocating a NAT-identity slot, on every path: pre-built or built from
    scratch, with any statement failing and the process killed at any point.
    On success the sandbox owns the slot the result names, and the payload row
    that a later release will read records exactly its namespace and veth; on
    an error the payload rows are as before and the sandbox owns no slot
    (unless the statement that gives it back failed too); and unless the
    payload of an adopted slot cannot be saved, no slot that was owned is free
    at any point. *)
Theorem natid_allocation {K} `{HK : Kernel K} `{!KernelLaws K} now wan cidr env show fault id tapHostIP guestIP mac ports
    (w : world K) n :
  id ≠ "" → unowned id (slots w) →
  let '(r, w') := AllocateNATID now wan cidr env show fault id tapHostIP guestIP mac ports n w in
  match r with
  | Some (Ok a, _) => na_SandboxID a = id ∧ (∃ rw, slots w' !! na_Idx a = Some rw ∧ owner rw = Some id) ∧
                      rows w' = <[id := payload_of id a]> (rows w)
  | Some (Err _, _) => rows w' = rows w ∧ (fault OpFree = false → unowned id (slots w'))
  | None => True
  end ∧ (fault OpSave = false → kept (slots w) (slots w')).
Proof.
  intros Hid Hu.
  pose proof (AllocateNATID_triple now wan cidr env show fault id (slots w) (rows w) Hid Hu tapHostIP guestIP mac ports
                n w (conj eq_refl eq_refl)) as H.
  destruct (AllocateNATID _ _ _ _ _ _ _ _ _ _ _ n w) as [[[[a|e] m]|] w']; [exact H | exact H | by split].
Qed.

Lemma natid_allocation_witness :
  let r := AllocateNATID (HK := host_kernel works) 2 "ens4" w_cidr None (λ _ _, None) no_fault "b-2"
             "172.20.6.117" "172.20.6.118" "m" None 100%nat w_world in
  match r.1 with Some (Ok a, _) => na_Idx a | _ => 9%nat end = 1%nat ∧
  let '(r, w') := r in
  match r with
  | Some (Ok a, _) => na_SandboxID a = "b-2" ∧ (∃ rw, slots w' !! na_Idx a = Some rw ∧ owner rw = Some "b-2") ∧
                      rows w' = <["b-2" := payload_of "b-2" a]> (rows w_world)
  | Some (Err _, _) => rows w' = rows w_world ∧ (no_fault OpFree = false → unowned "b-2" (slots w'))
  | None => True
  end ∧ (no_fault OpSave = false → kept (slots w_world) (slots w')).
Proof.
  intros r. split; [vm_compute; reflexivity|].
  apply (@natid_allocation host (host_kernel works) (host_laws works)); [discriminate|].
  intros [|[|i]] rw [= <-]; discriminate.
Defined.

(** ** The sweep *)

(** [x] is the namespace of one of the live sandboxes. *)
Definition live_ns (ids : list string) (m : gmap string Allocation) (x : string) : Prop :=
  ∃ id a, id ∈ ids ∧ m !! id = Some a ∧ al_TAP a = x ∧ String.prefix "ns-" x = true.

Section sweep.
Context {K : Type} `{HK : Kernel K} `{!KernelLaws K}.
Context (fault : dbop → bool) (w0 : world K).

Lemma live_names_triple ids keep :
  triple (λ w, w = w0) (liveNetnsNames fault ids keep)
    (λ r w, w = w0 ∧ match r with
                     | Some ks => (∀ x, x ∈ ks ↔ x ∈ keep ∨ live_ns ids (rows w0) x) ∧
                                  ∀ id, id ∈ ids → fault (OpGet id) = false
                     | None => ∃ id, id ∈ ids ∧ fault (OpGet id) = true
                     end) (λ w, w = w0).
Proof.
  revert keep. induction ids as [|id ids IH]; intros keep; simpl.
  { apply triple_ret. intros w ->. split; [done|]. split.
    - intros x. split; [by left|]. intros [?|(i & a & Hi & _)]; [done | by apply not_elem_of_nil in Hi].
    - intros id Hi. by apply not_elem_of_nil in Hi. }
  eapply triple_bind with
    (Q := λ r w, w = w0 ∧ if fault (OpGet id) then r = Err DBErr
                          else r = match rows w0 !! id with Some a => Ok a | None => Err NoRows end).
  { apply triple_effect; [done|]. intros w ->. by destruct (fault (OpGet id)). }
  intros r. destruct (fault (OpGet id)) eqn:Ef.
  { eapply (triple_pre _ (r = Err DBErr)); [by intros w [_ ?]|]. intros ->. apply triple_ret.
    intros w [-> _]. split; [done|]. exists id. split; [by left|done]. }
  eapply (triple_pre _ _); [by intros w [_ H]; exact H|]. intros ->.
  destruct (rows w0 !! id) as [a|] eqn:Er.
  - eapply triple_conseq; [apply IH | by intros w [-> _] | | done].
    intros [ks|] w [-> H]; split; try done.
    + destruct H as [Hx Hf]. split.
      * intros x. rewrite Hx. destruct (String.prefix "ns-" (al_TAP a)) eqn:Ep.
        -- rewrite elem_of_union, elem_of_singleton. unfold live_ns. setoid_rewrite elem_of_cons. split.
           ++ intros [[?| ->]|(i & b & ? & ?)]; [by left | right; exists id, a; auto | right; exists i, b; auto].
           ++ intros [?|(i & b & [->|?] & Hi & ? & ?)]; [by left; left | left; right; congruence | right; exists i, b; auto].
        -- unfold live_ns. setoid_rewrite elem_of_cons. split.
           ++ intros [?|(i & b & ? & ?)]; [by left | right; exists i, b; auto].
           ++ intros [?|(i & b & [->|?] & Hi & Ht & Hp)]; [by left | exfalso; congruence | right; exists i, b; auto].
      * intros i [->|Hi]%elem_of_cons; [done | by apply Hf].
    + destruct H as (i & Hi & ?). exists i. split; [by right|done].
  - eapply triple_conseq; [apply IH | by intros w [-> _] | | done].
    intros [ks|] w [-> H]; split; try done.
    + destruct H as [Hx Hf]. split.
      * intros x. rewrite Hx. unfold live_ns. setoid_rewrite elem_of_cons. split.
        -- intros [?|(i & b & ? & ?)]; [by left | right; exists i, b; auto].
        -- intros [?|(i & b & [->|?] & Hi & ?)]; [by left | congruence | right; exists i, b; auto].
      * intros i [->|Hi]%elem_of_cons; [done | by apply Hf].
    + destruct H as (i & Hi & ?). exists i. split; [by right|done].
Qed.

(** The databases are untouched and exactly the orphans already visited are gone,
    as far as the kernel deleted them. *)
Definition swept (orphans l : list string) (w : world K) : Prop :=
  slots w = slots w0 ∧ rows w = rows w0 ∧ NoDup l ∧ (∀ x, x ∈ l → x ∈ orphans ∧ x ≠ "") ∧ later (kern w0) (kern w) ∧
  ∀ x, (x ∈ namespaces (kern w) → x ∈ namespaces (kern w0) ∧
          (x ∈ orphans → x ∈ l ∨ refused (kern w0) (kern w) ["ip"; "netns"; "del"; x])) ∧
       (x ∈ namespaces (kern w0) → (x ∈ orphans → x ∈ l) → x ∈ namespaces (kern w)).

(** At any moment: nothing but orphans may be missing. *)
Definition sweeping (orphans : list string) (w : world K) : Prop :=
  slots w = slots w0 ∧ rows w = rows w0 ∧
  (∀ x, x ∈ namespaces (kern w0) → x ∉ orphans → x ∈ namespaces (kern w)).

Lemma sweep_one orphans x l vh :
  triple (swept orphans (x :: l)) (on_kern (Destroy (objects x vh))) (λ _, swept orphans l) (sweeping orphans).
Proof.
  apply triple_start. intros w1 (Hs & Hr & Hnd & Hl & Hh & Hn).
  apply NoDup_cons in Hnd as [Hx Hnd]. destruct (Hl x ltac:(by left)) as [Hxo Hxe].
  eapply triple_zoom; [apply (Destroy_namespaces (objects x vh) (kern w1)) | by intros w ->; split; [|apply later_refl] | |].
  - intros w k _ -> (Hk1 & Hk2 & Hk3 & Hk4). split_and!; try done; simpl; [intros y Hy; apply Hl; by right|unfold later in *; by etrans|].
    unfold without in Hk1. cbn [Name objects] in *. destruct (String.eqb_spec x ""); [done|]. intros y. split.
    + intros Hy. destruct (proj1 (Hn y) (Hk2 y Hy)) as [H0 Ho]. split; [done|]. intros Hyo.
      destruct (decide (y = x)) as [->|Hne]; [right; eapply later_refused; [exact Hh|by apply Hk4]|].
      destruct (Ho Hyo) as [[->|?]%elem_of_cons|Hre]; [done|by left|right]. by eapply refused_later.
    + intros Hy Ho. apply Hk1. rewrite elem_of_difference, elem_of_singleton. split.
      * apply Hn; [done|]. intros ?. right. auto.
      * intros ->. auto.
  - intros w k -> [Hk _]. split_and!; try done. simpl. intros y Hy Hno. rewrite Hk. apply Hn; [done|]. by intros ?.
Qed.

Lemma orphans_in all keep x :
  x ∈ orphanNetnsToSweep all keep ↔ (String.prefix "ns-" x = true ∧ x ∉ keep) ∧ x ∈ all.
Proof. unfold orphanNetnsToSweep. by rewrite list_elem_of_filter. Qed.

Definition keeps_live (ids : list string) (w : world K) : Prop :=
  slots w = slots w0 ∧ rows w = rows w0 ∧
  ∀ x, x ∈ namespaces (kern w0) → String.prefix "ns-" x = false ∨ live_ns ids (rows w0) x → x ∈ namespaces (kern w).

Lemma sweep_triple ids :
  triple (λ w, w = w0) (SweepOrphanNetns fault ids)
    (λ r w, keeps_live ids w ∧
       match r with
       | Ok _ => (∀ id, id ∈ ids → fault (OpGet id) = false) ∧
                 ∀ x, x ∈ namespaces (kern w) → x ∈ namespaces (kern w0) ∧
                      (String.prefix "ns-" x = true →
                       live_ns ids (rows w0) x ∨ refused (kern w0) (kern w) ["ip"; "netns"; "del"; x])
       | Err _ => w = w0
       end) (keeps_live ids).
Proof.
  assert (keeps_live ids w0) as H0 by done.
  unfold SweepOrphanNetns. eapply triple_bind; [eapply triple_conseq; [apply (live_names_triple ids ∅) | done | |]|].
  { intros r w Hw. exact Hw. }
  { by intros w ->. }
  intros [keep|]; [|apply triple_ret; by intros w [-> _]].
  eapply (triple_pre _ _); [intros w [_ H]; exact H|]. intros [Hkeep Hf].
  eapply triple_bind with (Q := λ all w, w = w0 ∧ all = ls (kern w0)).
  { apply triple_pure_step. by intros w [-> _]. }
  intros [all|]; [|apply triple_ret; by intros w [-> _]].
  eapply (triple_pre _ (ls (kern w0) = Some all)); [by intros w [_ <-]|]. intros Hls.
  destruct (ls_spec _ _ Hls) as [Hnd Hall]. set (os := orphanNetnsToSweep all keep).
  assert (∀ x, x ∈ os ↔ x ∈ namespaces (kern w0) ∧ String.prefix "ns-" x = true ∧ ¬ live_ns ids (rows w0) x) as Hos.
  { intros x. unfold os. rewrite orphans_in, Hall, Hkeep. pose proof (not_elem_of_empty (C := gset string) x). tauto. }
  assert (∀ w, sweeping os w → keeps_live ids w) as Hsw.
  { intros w (Hs & Hr & Hn). split_and!; try done. intros x Hx Hp. apply Hn; [done|]. rewrite Hos.
    destruct Hp as [Hp|Hp]; [rewrite Hp; intuition done | tauto]. }
  eapply triple_bind.
  { eapply triple_conseq; [apply (triple_each _ (swept os) (sweeping os) os) | | |].
    - intros x l. apply sweep_one.
    - intros w [-> _]. split_and!; try done.
      + by apply NoDup_filter.
      + intros x Hx. split; [done|]. intros ->. apply Hos in Hx as (_ & Hx & _). done.
      + apply later_refl.
      + tauto.
    - intros ? w Hw. exact Hw.
    - exact Hsw. }
  intros ?. apply triple_ret. intros w (Hs & Hr & _ & _ & _ & Hn). split.
  - apply Hsw. split_and!; try done. intros x Hx Hno. apply Hn; [done|]. by intros ?.
  - split; [done|]. intros x Hx. apply Hn in Hx as [H1 H2]. split; [done|]. intros Hp.
    destruct (decide (x ∈ keep)) as [Hk|Hk]; [left; apply Hkeep in Hk as [?%not_elem_of_empty|?]; done|right].
    destruct H2 as [?%not_elem_of_nil|?]; [|done..]. apply Hos. split_and!; [done..|]. intros H. apply Hk, Hkeep. by right.
Qed.
End sweep.

(** The boot sweep of orphaned namespaces.  At no point, finished, failed
    or killed, has it deleted a namespace of a live sandbox or one that is not
    PandaStack's; if any live sandbox's payload cannot be read it deletes
    nothing; and when it succeeds the only "ns-" namespaces left are those of
    live sandboxes, and those whose deletion failed. *)
Theorem sweep_spec {K} `{HK : Kernel K} `{!KernelLaws K} fault ids (w : world K) n :
  let '(r, w') := SweepOrphanNetns fault ids n w in
  slots w' = slots w ∧ rows w' = rows w ∧
  (∀ x, x ∈ namespaces (kern w) → String.prefix "ns-" x = false ∨ live_ns ids (rows w) x → x ∈ namespaces (kern w')) ∧
  match r with
  | Some (Ok _, _) => (∀ id, id ∈ ids → fault (OpGet id) = false) ∧
      ∀ x, x ∈ namespaces (kern w') → x ∈ namespaces (kern w) ∧
           (String.prefix "ns-" x = true → live_ns ids (rows w) x ∨ refused (kern w) (kern w') ["ip"; "netns"; "del"; x])
  | Some (Err _, _) => w' = w
  | None => True
  end.
Proof.
  pose proof (sweep_triple fault w ids n w eq_refl) as H.
  destruct (SweepOrphanNetns fault ids n w) as [[[r m]|] w']; [|split_and!; [apply H..|done]].
  destruct H as [(H1 & H2 & H3) H4]. split_and!; done.
Qed.

(** A leaked pool namespace, a foreign one, and the sandbox's own. *)
Definition w_boot : world host :=
  set_kern {| h_links := {["vh-p00000000"; "vh-p00000003"]}; h_ns := {["ns-p00000000"; "cni-1"; "ns-p00000003"]}; h_fwd := []; h_failed := [] |} w_world.

Lemma sweep_spec_witness :
  let r := SweepOrphanNetns (HK := host_kernel works) no_fault ["a-1"; "gone"] 50%nat w_boot in
  bool_decide (h_ns (kern r.2) = {["ns-p00000000"; "cni-1"]}) = true ∧
  let '(r, w') := r in
  slots w' = slots w_boot ∧ rows w' = rows w_boot ∧
  (∀ x, x ∈ h_ns (kern w_boot) → String.prefix "ns-" x = false ∨ live_ns ["a-1"; "gone"] (rows w_boot) x → x ∈ h_ns (kern w')) ∧
  match r with
  | Some (Ok _, _) => (∀ id, id ∈ ["a-1"; "gone"] → no_fault (OpGet id) = false) ∧
      ∀ x, x ∈ h_ns (kern w') → x ∈ h_ns (kern w_boot) ∧
           (String.prefix "ns-" x = true → live_ns ["a-1"; "gone"] (rows w_boot) x ∨
            refused (H := host_kernel works) (kern w_boot) (kern w') ["ip"; "netns"; "del"; x])
  | Some (Err _, _) => w' = w_boot
  | None => True
  end.
Proof.
  intros r. split; [vm_compute; reflexivity|].
  apply (@sweep_spec host (host_kernel works) (host_laws works) no_fault ["a-1"; "gone"] w_boot 50%nat).
Defined.
