(* ===== verification/Scheduler.v ===== *)
(** The placement scheduler of the control plane,
    api/internal/scheduler/scheduler.go: the agent list and its cache, the
    in-flight reservations, [Pick], and the lease cache.  The database's
    answers are arguments; times are nanoseconds. *)

From Stdlib Require Import Floats.SpecFloat.
From stdpp Require Import sorting.
From S2P Require Import Prelude GoSort Float64 GoStrings.

Open Scope string_scope.
Open Scope list_scope.
Open Scope Z_scope.

(** ** Data *)

Record Capacity := mkCapacity {
  CPUTotal : Z; CPUUsed : Z; MemoryMB : Z; MemoryUsed : Z; Sandboxes : Z; LoadAverage : f64;
  StreamRestoreEnabled : bool;
  VolumeProvisionedBytes : Z; VolumesFSSizeBytes : Z; VolumesFSFreeBytes : Z;
  cPool : string;
}.

Record Agent := mkAgent {
  ID : string; Endpoint : string; aRegion : string; Zone : string; Version : string; Status : string;
  aCapacity : Capacity; LastHeartbeat : Z;
}.

Record Request := mkRequest { CPU : Z; rMemoryMB : Z; Region : string; DiskBytes : Z; RequirePool : string }.

Record reservation := mkReservation { r_cpu : Z; r_memMB : Z; r_disk : Z; r_at : Z }.

Record Scheduler := mkScheduler {
  cache : list Agent;
  cachedAt : Z;
  cacheTTL : Z;
  reservations : gmap string (list reservation);
  localLeases : gmap string (Agent * Z);
  leaseCacheTTL : Z;
}.

(** A decimal literal of the source, as the quotient of two integers that are
    exact (1/100 and 6/10 round to the same float as 0.01 and 0.6). *)
Definition f64_lit (num den : Z) : f64 := f64_div (f64_of_Z num) (f64_of_Z den).

Definition second : Z := 10 ^ 9.
Definition streamBoost : f64 := f64_of_Z 5.
Definition PoolStateful : string := "stateful".
Definition PoolEphemeral : string := "ephemeral".
Definition volumeOversubFactor : f64 := f64_of_Z 3.
Definition volumeFreeReserveBytes : Z := Z.shiftl 20 30.
Definition reservationTTL : Z := 15 * second.
Definition defaultReservedCPU : Z := 8.

(** ** Operations *)

(** The variable's text and what [strconv.ParseFloat] makes of it. *)
Definition cpuOvercommitFromEnv (v : string) (parsed : option f64) : f64 * bool :=
  if String.eqb v "" then (f64_zero, false)
  else match parsed with
  | Some f => if f64_leb (f64_of_Z 1) f then (f, true) else (f64_zero, false)
  | None => (f64_zero, false)
  end.

Definition agentPool (a : Agent) : string :=
  let p := TrimSpace (cPool (aCapacity a)) in if String.eqb p "" then PoolStateful else p.

Definition volumeHeadroomBytes (c : Capacity) : option Z :=
  if VolumesFSSizeBytes c <=? 0 then None
  else
    let budget := i64 (f64_trunc (f64_mul volumeOversubFactor (f64_of_Z (VolumesFSSizeBytes c))) - VolumeProvisionedBytes c) in
    let reserve := i64 (VolumesFSFreeBytes c - volumeFreeReserveBytes) in
    Some (if reserve <? budget then reserve else budget).

Definition New (ttl : Z) : Scheduler :=
  {| cache := []; cachedAt := 0; cacheTTL := ttl; reservations := ∅; localLeases := ∅; leaseCacheTTL := 300 * second |}.

Definition set_reservations (m : gmap string (list reservation)) (s : Scheduler) : Scheduler :=
  {| cache := cache s; cachedAt := cachedAt s; cacheTTL := cacheTTL s; reservations := m;
     localLeases := localLeases s; leaseCacheTTL := leaseCacheTTL s |}.

Definition fresh_reservation (now : Z) (r : reservation) : bool := now - r_at r <? reservationTTL.

Definition pruneReservationsLocked (now : Z) (m : gmap string (list reservation)) : gmap string (list reservation) :=
  omap (λ rs, let kept := filter (λ r, fresh_reservation now r = true) rs in
              if (length kept =? 0)%nat then None else Some kept) m.

Definition reservedLocked (m : gmap string (list reservation)) (id : string) : Z * Z * Z :=
  foldl (λ '(cpu, mem, disk) r, (i64 (cpu + r_cpu r), i64 (mem + r_memMB r), i64 (disk + r_disk r)))
        (0, 0, 0) (default [] (m !! id)).

Definition reserveLocked (m : gmap string (list reservation)) (id : string) (req : Request) (now : Z)
    : gmap string (list reservation) :=
  let cpu := if CPU req <=? 0 then defaultReservedCPU else CPU req in
  <[id := default [] (m !! id) ++ [{| r_cpu := cpu; r_memMB := rMemoryMB req; r_disk := DiskBytes req; r_at := now |}]]> m.

Section pick.
(** [cpuOvercommit, cpuAdmissionEnabled]. *)
Context (overcommit : f64 * bool).

Definition wantPool (req : Request) : string := if 0 <? DiskBytes req then PoolStateful else RequirePool req.

Definition freeMem (res : Z * Z * Z) (c : Capacity) : Z := i64 (i64 (MemoryMB c - MemoryUsed c) - res.1.2).
Definition freeCPU (res : Z * Z * Z) (c : Capacity) : Z := i64 (i64 (CPUTotal c - CPUUsed c) - res.1.1).
Definition schedulableCPU (res : Z * Z * Z) (c : Capacity) : Z :=
  i64 (i64 (f64_trunc (f64_mul (f64_of_Z (CPUTotal c)) overcommit.1) - CPUUsed c) - res.1.1).

(** The body of the candidate loop: the agent's score, or skipped. *)
Definition consider (res : Z * Z * Z) (req : Request) (a : Agent) : option f64 :=
  let c := aCapacity a in
  if negb (String.eqb (Status a) "active") then None
  else if negb (String.eqb (Region req) "") && negb (String.eqb (aRegion a) "") && negb (String.eqb (Region req) (aRegion a)) then None
  else if negb (String.eqb (wantPool req) "") && negb (String.eqb (agentPool a) (wantPool req)) then None
  else if overcommit.2 && (0 <? CPU req) && (schedulableCPU res c <? CPU req) then None
  else if (0 <? rMemoryMB req) && (freeMem res c <? rMemoryMB req) then None
  else if 0 <? DiskBytes req then
    let tie := f64_mul (f64_of_Z (freeCPU res c)) (f64_lit 1 100) in
    match volumeHeadroomBytes c with
    | Some hr =>
        let hr := i64 (hr - res.2) in
        if hr <? DiskBytes req then None
        else Some (f64_add (f64_div (f64_of_Z hr) (f64_of_Z (Z.shiftl 1 30))) tie)
    | None => Some (f64_add f64_zero tie)
    end
  else
    let score := f64_add (f64_mul (f64_of_Z (freeCPU res c)) (f64_lit 6 10))
                         (f64_mul (f64_div (f64_of_Z (freeMem res c)) (f64_of_Z 1024)) (f64_lit 3 10)) in
    Some (if StreamRestoreEnabled c then f64_add score streamBoost else score).

Definition candidates (m : gmap string (list reservation)) (req : Request) (agents : list Agent) : list (Agent * f64) :=
  omap (λ a, (a,.) <$> consider (reservedLocked m (ID a)) req a) agents.

(** [candidates[i].score > candidates[j].score] *)
Definition better (x y : Agent * f64) : bool := f64_ltb y.2 x.2.

(** [Pick] on the agents [List] returned; [None] is [ErrNoAgents]. *)
Definition pick (now : Z) (req : Request) (agents : list Agent) (m : gmap string (list reservation))
    : gmap string (list reservation) * option Agent :=
  let m := pruneReservationsLocked now m in
  match sort_slice better (candidates m req agents) with
  | [] => (m, None)
  | (a, _) :: _ => (reserveLocked m (ID a) req now, Some a)
  end.

(** The cached agent list; [rows] is the query's answer.  A nil slice is an
    empty one. *)
Definition List (now : Z) (rows : option (list Agent)) (s : Scheduler) : Scheduler * option (list Agent) :=
  if (0 <? cacheTTL s) && (now - cachedAt s <? cacheTTL s) && negb (length (cache s) =? 0)%nat then (s, Some (cache s))
  else match rows with
  | None => (s, None)
  | Some out =>
      if 0 <? cacheTTL s then
        ({| cache := out; cachedAt := now; cacheTTL := cacheTTL s; reservations := reservations s;
            localLeases := localLeases s; leaseCacheTTL := leaseCacheTTL s |}, Some out)
      else (s, Some out)
  end.

Inductive pick_err := ListFailed | ErrNoAgents.

Definition Pick (now : Z) (rows : option (list Agent)) (req : Request) (s : Scheduler) : Scheduler * res pick_err Agent :=
  match List now rows s with
  | (s, None) => (s, Err ListFailed)
  | (s, Some agents) =>
      let '(m, a) := pick now req agents (reservations s) in
      (set_reservations m s, match a with Some a => Ok a | None => Err ErrNoAgents end)
  end.
End pick.

(** ** Leases *)

Definition set_leases (l : gmap string (Agent * Z)) (s : Scheduler) : Scheduler :=
  {| cache := cache s; cachedAt := cachedAt s; cacheTTL := cacheTTL s; reservations := reservations s;
     localLeases := l; leaseCacheTTL := leaseCacheTTL s |}.

Definition rememberLeaseWithTTL (now : Z) (id : string) (a : Agent) (ttl : Z) (s : Scheduler) : Scheduler :=
  if String.eqb id "" then s else set_leases (<[id := (a, now + ttl)]> (localLeases s)) s.
Definition RememberLease (now : Z) (id : string) (a : Agent) (s : Scheduler) : Scheduler :=
  rememberLeaseWithTTL now id a (leaseCacheTTL s) s.
Definition RememberLeasePersistent (now : Z) (id : string) (a : Agent) (s : Scheduler) : Scheduler :=
  rememberLeaseWithTTL now id a (3600 * second) s.
Definition ForgetLease (id : string) (s : Scheduler) : Scheduler :=
  if String.eqb id "" then s else set_leases (delete id (localLeases s)) s.

(** [row]: what the database answers for the sandbox ([Ok None]: no lease). *)
Definition LookupLease {E} (now : Z) (row : res E (option Agent)) (id : string) (s : Scheduler) : res (option E) (option Agent) :=
  if String.eqb id "" then Err None
  else match localLeases s !! id with
  | Some (a, expiresAt) => if now <? expiresAt then Ok (Some a) else match row with Ok a => Ok a | Err e => Err (Some e) end
  | None => match row with Ok a => Ok a | Err e => Err (Some e) end
  end.

(** ** The order of scores *)

(** The place of a float among the others, NaN last. *)
Definition key (x : f64) : Z * Z * Z :=
  match x with
  | S754_nan => (-3, 0, 0)
  | S754_infinity true => (-2, 0, 0)
  | S754_finite true m e => (-1, - e, - Z.pos m)
  | S754_zero _ => (0, 0, 0)
  | S754_finite false m e => (1, e, Z.pos m)
  | S754_infinity false => (2, 0, 0)
  end.

Definition lex (x y : Z * Z * Z) : bool :=
  (x.1.1 <? y.1.1) || (x.1.1 =? y.1.1) && ((x.1.2 <? y.1.2) || (x.1.2 =? y.1.2) && (x.2 <? y.2)).

Lemma f64_ltb_key x y : x ≠ S754_nan → y ≠ S754_nan → f64_ltb x y = lex (key x) (key y).
Proof.
  intros Hx Hy. unfold f64_ltb, SFltb, SFcompare, lex.
  destruct x as [[]|[]| |[] m e], y as [[]|[]| |[] m' e']; try done; cbn [key fst snd];
    rewrite ?Z.ltb_irrefl, ?Z.eqb_refl; cbn [orb andb];
    change (-1 <? -1) with false; change (1 <? 1) with false; cbn [orb andb];
    fold (Pos.compare m m');
    destruct (Z.compare_spec e e'), (Pos.compare_spec m m'); subst; simpl;
    repeat match goal with |- context [?a <? ?b] => destruct (Z.ltb_spec a b) end;
    repeat match goal with |- context [?a =? ?b] => destruct (Z.eqb_spec a b) end; simpl; try done; try lia.
Qed.

(** [better], extended to NaN scores so that it is a strict weak order. *)
Definition better_total (x y : Agent * f64) : bool := lex (key y.2) (key x.2).

#[local] Instance better_total_strict : StrictWeak better_total.
Proof.
  assert (∀ a b c d e f, lex (a, b, c) (d, e, f) = true ↔ a < d ∨ a = d ∧ (b < e ∨ b = e ∧ c < f)) as L.
  { intros. unfold lex. simpl. rewrite orb_true_iff, andb_true_iff, orb_true_iff, andb_true_iff, !Z.ltb_lt, !Z.eqb_eq. lia. }
  split; unfold better_total; intros x; [|intros y z|intros y z].
  - destruct (key x.2) as [[a b] c]. apply not_true_iff_false. rewrite L. lia.
  - destruct (key x.2) as [[a b] c], (key y.2) as [[a' b'] c'], (key z.2) as [[a'' b''] c'']. rewrite !L. lia.
  - destruct (key x.2) as [[a b] c], (key y.2) as [[a' b'] c'], (key z.2) as [[a'' b''] c'']. rewrite !L. lia.
Qed.

Lemma sort_slice_ext {A} (less less' : A → A → bool) l :
  (∀ x y, x ∈ l → y ∈ l → less x y = less' x y) → sort_slice less l = sort_slice less' l.
Proof.
  intros H. unfold sort_slice.
  assert (∀ x, x ∈ reverse l → x ∈ l) as Hr by (intros x; by rewrite elem_of_reverse).
  revert Hr. induction (reverse l) as [|x k IH]; intros Hk; simpl; [done|].
  rewrite <- IH by (intros y Hy; apply Hk; by right).
  assert (∀ y, y ∈ foldr (insert_sorted less) [] k → y ∈ l) as Hf.
  { intros y Hy. apply Hk. right. clear -Hy. revert y Hy. induction k as [|z k IH]; simpl; intros y Hy; [done|].
    rewrite insert_sorted_perm in Hy. apply elem_of_cons in Hy as [->|Hy]; [by left | right; by apply IH]. }
  assert (x ∈ l) as Hx by (apply Hk; by left). clear IH Hk.
  induction (foldr (insert_sorted less) [] k) as [|y m IH]; simpl; [done|].
  rewrite H by (done || (apply Hf; by left)). destruct (less' x y); [done|]. f_equal. apply IH.
  intros z Hz. apply Hf. by right.
Qed.

Lemma candidates_spec oc m req agents a s :
  (a, s) ∈ candidates oc m req agents ↔ a ∈ agents ∧ consider oc (reservedLocked m (ID a)) req a = Some s.
Proof.
  unfold candidates. rewrite list_elem_of_omap. split.
  - intros (b & Hb & (t & Ht & [= <- <-])%fmap_Some). done.
  - intros [Ha Hc]. exists a. split; [done|]. by rewrite Hc.
Qed.

(** ** What a candidate must have *)

Record fits (oc : f64 * bool) (res : Z * Z * Z) (req : Request) (a : Agent) : Prop := {
  fit_active : Status a = "active";
  fit_region : Region req = "" ∨ aRegion a = "" ∨ Region req = aRegion a;
  fit_pool : DiskBytes req ≤ 0 → RequirePool req = "" ∨ agentPool a = RequirePool req;
  fit_stateful : 0 < DiskBytes req → agentPool a = PoolStateful;
  fit_cpu : oc.2 = true → 0 < CPU req → CPU req ≤ schedulableCPU oc res (aCapacity a);
  fit_mem : 0 < rMemoryMB req → rMemoryMB req ≤ freeMem res (aCapacity a);
  fit_disk hr : 0 < DiskBytes req → volumeHeadroomBytes (aCapacity a) = Some hr → DiskBytes req ≤ i64 (hr - res.2);
}.

Lemma unless_eq (s t : string) : negb (String.eqb s t) = false ↔ s = t.
Proof. rewrite negb_false_iff. apply String.eqb_eq. Qed.
Lemma unless_neq (s t : string) : negb (String.eqb s t) = true ↔ s ≠ t.
Proof. rewrite negb_true_iff. apply String.eqb_neq. Qed.

Lemma consider_fits oc res req a :
  (∃ s, consider oc res req a = Some s) ↔ fits oc res req a.
Proof.
  unfold consider.
  destruct (negb (String.eqb (Status a) "active")) eqn:E1.
  { apply unless_neq in E1. split; [by intros [? ?] | by intros []]. }
  apply unless_eq in E1.
  destruct (negb (String.eqb (Region req) "") && negb (String.eqb (aRegion a) "") && negb (String.eqb (Region req) (aRegion a))) eqn:E2.
  { rewrite !andb_true_iff, !unless_neq in E2. split; [by intros [? ?] | intros []; tauto]. }
  rewrite !andb_false_iff, !unless_eq in E2.
  destruct (negb (String.eqb (wantPool req) "") && negb (String.eqb (agentPool a) (wantPool req))) eqn:E3.
  { rewrite !andb_true_iff, !unless_neq in E3. split; [by intros [? ?]|]. unfold wantPool in E3.
    intros []. destruct (Z.ltb_spec 0 (DiskBytes req)); intuition lia. }
  rewrite !andb_false_iff, !unless_eq in E3. unfold wantPool in E3.
  destruct (oc.2 && (0 <? CPU req) && (schedulableCPU oc res (aCapacity a) <? CPU req)) eqn:E4.
  { rewrite !andb_true_iff, !Z.ltb_lt in E4. split; [by intros [? ?]|]. intros [? ? ? ? Hc ? ?].
    specialize (Hc (proj1 (proj1 E4)) (proj2 (proj1 E4))). lia. }
  rewrite !andb_false_iff, !Z.ltb_ge in E4.
  destruct ((0 <? rMemoryMB req) && (freeMem res (aCapacity a) <? rMemoryMB req)) eqn:E5.
  { rewrite !andb_true_iff, !Z.ltb_lt in E5. split; [by intros [? ?]|]. intros [? ? ? ? ? Hc ?]. lia. }
  rewrite !andb_false_iff, !Z.ltb_ge in E5.
  assert (oc.2 = true → 0 < CPU req → CPU req ≤ schedulableCPU oc res (aCapacity a)) as H4.
  { intros H ?. rewrite H in E4. destruct E4 as [[?|?]|?]; [done|lia|lia]. }
  assert (0 < rMemoryMB req → rMemoryMB req ≤ freeMem res (aCapacity a)) as H5 by lia.
  clear E4 E5. destruct (Z.ltb_spec 0 (DiskBytes req)).
  - assert (agentPool a = PoolStateful) by (destruct E3; done).
    destruct (volumeHeadroomBytes (aCapacity a)) as [hr|] eqn:Eh.
    + destruct (Z.ltb_spec (i64 (hr - res.2)) (DiskBytes req)) as [Hd|Hd].
      * split; [by intros [? ?]|]. intros [? ? ? ? ? ? Hc]. specialize (Hc hr ltac:(lia) Eh). lia.
      * split; [intros _ | eauto]. split; try tauto; try lia. intros hr' _. rewrite Eh. by intros [= <-].
    + split; [intros _ | eauto]. split; try tauto; try lia. intros hr' _. by rewrite Eh.
  - split; [intros _ | eauto]. split; try tauto; lia.
Qed.

Lemma pick_Some oc now req agents m m' a :
  pick oc now req agents m = (m', Some a) →
  a ∈ agents ∧ (∃ s, consider oc (reservedLocked (pruneReservationsLocked now m) (ID a)) req a = Some s) ∧
  m' = reserveLocked (pruneReservationsLocked now m) (ID a) req now.
Proof.
  unfold pick. set (mp := pruneReservationsLocked now m).
  destruct (sort_slice better (candidates oc mp req agents)) as [|[b s] l] eqn:E; [done|]. intros [= <- <-].
  assert ((b, s) ∈ candidates oc mp req agents) as Hb.
  { rewrite <- (sort_slice_perm better), E. by left. }
  apply candidates_spec in Hb as [Hb Hs]. eauto.
Qed.

(** [Pick] places a request on an agent that qualifies, and on the best
    one.  The chosen agent is active, in the right region and pool (a volume
    always in the stateful one), with room for the request once the
    reservations still in flight are discounted; no agent that qualifies
    scores higher (no score being NaN); exactly its claim is recorded, after
    the expired ones are dropped; and [Pick] fails only when no agent
    qualifies. *)
Theorem pick_spec oc now req agents m :
  let mp := pruneReservationsLocked now m in
  (∀ a s, a ∈ agents → consider oc (reservedLocked mp (ID a)) req a = Some s → s ≠ S754_nan) →
  match pick oc now req agents m with
  | (m', Some a) =>
      a ∈ agents ∧ fits oc (reservedLocked mp (ID a)) req a ∧
      (∃ s, consider oc (reservedLocked mp (ID a)) req a = Some s ∧
         ∀ b t, b ∈ agents → consider oc (reservedLocked mp (ID b)) req b = Some t → f64_ltb s t = false) ∧
      m' = reserveLocked mp (ID a) req now
  | (m', None) => m' = mp ∧ ∀ a, a ∈ agents → ¬ fits oc (reservedLocked mp (ID a)) req a
  end.
Proof.
  intros mp Hnan. unfold pick. fold mp.
  assert (∀ x, x ∈ candidates oc mp req agents → x.2 ≠ S754_nan) as Hn.
  { intros [a s] [Ha Hs]%candidates_spec. by eapply Hnan. }
  rewrite (sort_slice_ext better better_total) by (intros x y Hx Hy; apply f64_ltb_key; auto).
  destruct (sort_slice better_total (candidates oc mp req agents)) as [|[a s] l] eqn:E.
  - split; [done|]. intros a Ha [s Hs]%consider_fits.
    assert ((a, s) ∈ candidates oc mp req agents) as Hc by by apply candidates_spec.
    rewrite <- (sort_slice_perm better_total), E in Hc. by apply not_elem_of_nil in Hc.
  - destruct (sort_slice_head better_total _ _ _ E) as [Hin Hmin]. pose proof (proj1 (candidates_spec _ _ _ _ _ _) Hin) as [Ha Hs].
    split_and!; [done | apply consider_fits; eauto | | done]. exists s. split; [done|]. intros b t Hb Ht.
    assert ((b, t) ∈ candidates oc mp req agents) as Hc by by apply candidates_spec.
    rewrite f64_ltb_key; [exact (Hmin _ Hc) | exact (Hn _ Hin) | exact (Hn _ Hc)].
Qed.

(** ** Bursts *)

Definition msum (rs : list reservation) : Z := foldr (λ r acc, r_memMB r + acc) 0 rs.
Definition dsum (rs : list reservation) : Z := foldr (λ r acc, r_disk r + acc) 0 rs.

Lemma i64_add_l x y : i64 (i64 x + y) = i64 (x + y).
Proof.
  unfold i64. f_equal.
  replace ((x + 2 ^ 63) mod 2 ^ 64 - 2 ^ 63 + y + 2 ^ 63) with ((x + 2 ^ 63) mod 2 ^ 64 + y) by lia.
  rewrite Zplus_mod_idemp_l. f_equal. lia.
Qed.

Lemma fold_sums rs c m d :
  (foldl (λ '(cpu, mem, disk) r, (i64 (cpu + r_cpu r), i64 (mem + r_memMB r), i64 (disk + r_disk r))) (c, i64 m, i64 d) rs).1.2
    = i64 (m + msum rs) ∧
  (foldl (λ '(cpu, mem, disk) r, (i64 (cpu + r_cpu r), i64 (mem + r_memMB r), i64 (disk + r_disk r))) (c, i64 m, i64 d) rs).2
    = i64 (d + dsum rs).
Proof.
  revert c m d. induction rs as [|r rs IH]; intros c m d; simpl; [by rewrite !Z.add_0_r|].
  rewrite !i64_add_l, !Z.add_assoc. apply IH.
Qed.

Lemma reserved_sums m id :
  (reservedLocked m id).1.2 = i64 (msum (default [] (m !! id))) ∧
  (reservedLocked m id).2 = i64 (dsum (default [] (m !! id))).
Proof. apply (fold_sums (default [] (m !! id)) 0 0 0). Qed.

Lemma msum_app a b : msum (a ++ b) = msum a + msum b.
Proof. unfold msum. induction a as [|x a IH]; simpl; [done|]. fold (msum (a ++ b)) in *. rewrite IH. lia. Qed.
Lemma dsum_app a b : dsum (a ++ b) = dsum a + dsum b.
Proof. unfold dsum. induction a as [|x a IH]; simpl; [done|]. fold (dsum (a ++ b)) in *. rewrite IH. lia. Qed.

(** A burst: requests placed one after the other against one agent list. *)
Fixpoint burst (oc : f64 * bool) (agents : list Agent) (reqs : list (Z * Request)) (m : gmap string (list reservation))
    : gmap string (list reservation) * list (Request * option Agent) :=
  match reqs with
  | [] => (m, [])
  | (now, req) :: reqs =>
      let '(m, a) := pick oc now req agents m in
      let '(m, out) := burst oc agents reqs m in (m, (req, a) :: out)
  end.

(** What a burst gave one agent: memory in MB, volume bytes. *)
Definition given (id : string) (f : Request → Z) (out : list (Request * option Agent)) : Z :=
  foldr (λ '(req, a) acc, (if bool_decide (ID <$> a = Some id) then f req else 0) + acc) 0 out.

Section burst.
Context (oc : f64 * bool) (agents : list Agent) (t0 : Z).
Hypothesis Hids : NoDup (map ID agents).

Definition window (t : Z) : Prop := t0 ≤ t < t0 + reservationTTL.
Definition sized (req : Request) : Prop := 0 ≤ rMemoryMB req ∧ 0 ≤ DiskBytes req.

Definition memory_free (a : Agent) : Z := Z.max 0 (i64 (MemoryMB (aCapacity a) - MemoryUsed (aCapacity a))).

(** Claims made in the window, and none of an agent's memory or headroom
    promised twice. *)
Record claims_ok (m : gmap string (list reservation)) : Prop := {
  co_live id rs : m !! id = Some rs → rs ≠ [] ∧ Forall (λ r, window (r_at r) ∧ 0 ≤ r_memMB r ∧ 0 ≤ r_disk r) rs;
  co_mem a : a ∈ agents → 0 ≤ msum (default [] (m !! ID a)) ≤ memory_free a;
  co_disk a hr : a ∈ agents → volumeHeadroomBytes (aCapacity a) = Some hr →
    0 ≤ dsum (default [] (m !! ID a)) ≤ Z.max 0 hr;
}.

Lemma prune_window now m : claims_ok m → window now → pruneReservationsLocked now m = m.
Proof.
  intros [Hl _ _] Hw. apply map_eq. intros id. unfold pruneReservationsLocked. rewrite lookup_omap.
  destruct (m !! id) as [rs|] eqn:E; [|done]. simpl. destruct (Hl _ _ E) as [Hne Hall].
  rewrite filter_id.
  - destruct rs; done.
  - eapply Forall_impl; [exact Hall|]. intros r [[? ?] _]. unfold fresh_reservation, window in *.
    apply Z.ltb_lt. lia.
Qed.

Lemma headroom_range c hr : volumeHeadroomBytes c = Some hr → - 2 ^ 63 ≤ hr < 2 ^ 63.
Proof. unfold volumeHeadroomBytes. destruct (_ <=? 0); [done|]. intros [= <-]. case_match; apply i64_range. Qed.

Lemma same_agent a b : a ∈ agents → b ∈ agents → ID a = ID b → a = b.
Proof using Hids.
  intros Ha Hb Hab. apply list_elem_of_lookup in Ha as [i Hi], Hb as [j Hj].
  assert (i = j) as ->; [|congruence].
  eapply (NoDup_lookup (map ID agents)); [exact Hids | |]; change (map ID agents) with (ID <$> agents);
    rewrite list_lookup_fmap; [rewrite Hi | rewrite Hj]; simpl; [done | by rewrite Hab].
Qed.

Lemma reserve_lookup m id req now j :
  default [] (reserveLocked m id req now !! j) =
  if bool_decide (j = id) then default [] (m !! id) ++
       [{| r_cpu := if CPU req <=? 0 then defaultReservedCPU else CPU req; r_memMB := rMemoryMB req;
           r_disk := DiskBytes req; r_at := now |}]
  else default [] (m !! j).
Proof.
  unfold reserveLocked. case_bool_decide as Hj.
  - subst. by rewrite lookup_insert_eq.
  - by rewrite lookup_insert_ne.
Qed.

(** The chosen agent has the room that is recorded. *)
Lemma reserve_ok m now req a s :
  claims_ok m → window now → sized req → a ∈ agents →
  consider oc (reservedLocked m (ID a)) req a = Some s → claims_ok (reserveLocked m (ID a) req now).
Proof using Hids.
  intros Hm Hw [Hrm Hrd] Ha Hs. destruct (proj1 (consider_fits oc _ req a) (ex_intro _ s Hs)) as [_ _ _ _ _ Hmem Hdisk].
  destruct (reserved_sums m (ID a)) as [Em Ed].
  pose proof (co_mem _ Hm a Ha) as Bm.
  assert (memory_free a < 2 ^ 63) as Bf.
  { unfold memory_free. pose proof (i64_range (MemoryMB (aCapacity a) - MemoryUsed (aCapacity a))). lia. }
  split.
  - intros id rs. unfold reserveLocked. rewrite lookup_insert_Some. intros [[<- <-]|[_ Hl]]; [|by apply (co_live _ Hm id)].
    split; [by destruct (default [] _)|]. apply Forall_app. split; [|by apply Forall_singleton].
    destruct (m !! ID a) as [rs|] eqn:El; simpl; [by apply (co_live _ Hm (ID a)) | by apply Forall_nil].
  - intros b Hb. rewrite reserve_lookup. case_bool_decide as Hid; [|by apply (co_mem _ Hm)].
    assert (b = a) as -> by by apply same_agent. rewrite msum_app. simpl.
    destruct (Z.ltb_spec 0 (rMemoryMB req)) as [Hp|Hp]; [|lia]. specialize (Hmem Hp). unfold freeMem in Hmem.
    rewrite Em in Hmem. rewrite (i64_small (msum _)) in Hmem by lia.
    unfold memory_free in *. pose proof (i64_range (MemoryMB (aCapacity a) - MemoryUsed (aCapacity a))).
    rewrite i64_small in Hmem by lia. lia.
  - intros b hr Hb Hh. rewrite reserve_lookup. case_bool_decide as Hid; [|by eapply (co_disk _ Hm)].
    assert (b = a) as -> by by apply same_agent. rewrite dsum_app. simpl. pose proof (co_disk _ Hm a hr Ha Hh) as Bd.
    destruct (Z.ltb_spec 0 (DiskBytes req)) as [Hp|Hp]; [|lia]. specialize (Hdisk hr Hp Hh).
    pose proof (headroom_range _ _ Hh). rewrite Ed in Hdisk. rewrite (i64_small (dsum _)) in Hdisk by lia.
    rewrite i64_small in Hdisk by lia. lia.
Qed.

Lemma given_claims a reqs m :
  a ∈ agents → claims_ok m → Forall (λ x, window x.1 ∧ sized x.2) reqs →
  let '(m', out) := burst oc agents reqs m in
  claims_ok m' ∧
  msum (default [] (m' !! ID a)) = msum (default [] (m !! ID a)) + given (ID a) rMemoryMB out ∧
  dsum (default [] (m' !! ID a)) = dsum (default [] (m !! ID a)) + given (ID a) DiskBytes out.
Proof using Hids.
  intros Ha. revert m. induction reqs as [|[now req] reqs IH]; intros m Hm Hr; simpl; [split_and!; [done|lia..]|].
  apply Forall_cons in Hr as [[Hw Hsz] Hr]. simpl in Hw, Hsz.
  destruct (pick oc now req agents m) as [m1 [b|]] eqn:Ep.
  - apply pick_Some in Ep as (Hb & [s Hs] & ->). rewrite (prune_window now m Hm Hw) in *.
    specialize (IH _ (reserve_ok m now req b s Hm Hw Hsz Hb Hs) Hr).
    destruct (burst oc agents reqs _) as [m' out]. destruct IH as (H1 & H2 & H3). split; [done|].
    rewrite H2, H3. rewrite reserve_lookup. simpl.
    destruct (decide (ID a = ID b)) as [E|E].
    + rewrite !bool_decide_eq_true_2 by congruence. rewrite E, msum_app, dsum_app. simpl. lia.
    + rewrite !bool_decide_eq_false_2 by congruence. lia.
  - assert (m1 = m) as ->.
    { unfold pick in Ep. destruct (sort_slice _ _) as [|[? ?] ?]; [|done]. injection Ep as <-. by apply prune_window. }
    specialize (IH m Hm Hr). destruct (burst oc agents reqs m) as [m' out]. simpl. done.
Qed.
End burst.

(** C6. A burst of placements cannot oversell an agent.  However many
    requests arrive within the reservations' life time and are all placed
    against the same (cached) agent list, the memory handed out on each agent
    stays within what it had free, and the volume bytes within its storage
    headroom where it reports one. *)
Theorem burst_never_oversells oc agents t0 reqs a :
  NoDup (map ID agents) → a ∈ agents →
  Forall (λ x, window t0 x.1 ∧ sized x.2) reqs →
  let out := (burst oc agents reqs ∅).2 in
  given (ID a) rMemoryMB out ≤ Z.max 0 (i64 (MemoryMB (aCapacity a) - MemoryUsed (aCapacity a))) ∧
  ∀ hr, volumeHeadroomBytes (aCapacity a) = Some hr → given (ID a) DiskBytes out ≤ Z.max 0 hr.
Proof.
  intros Hids Ha Hr.
  assert (claims_ok agents t0 ∅) as H0 by (split; intros; rewrite ?lookup_empty in *; simpl; [done | unfold memory_free; lia | lia]).
  pose proof (given_claims oc agents t0 Hids a reqs ∅ Ha H0 Hr) as H.
  destruct (burst oc agents reqs ∅) as [m' out]. destruct H as (Hc & Em & Ed). rewrite lookup_empty in *. simpl in *.
  pose proof (co_mem _ _ _ Hc a Ha) as Hm. rewrite Em in Hm. split; [unfold memory_free in Hm; lia|].
  intros hr Hh. pose proof (co_disk _ _ _ Hc a hr Ha Hh). lia.
Qed.

(** Two agents with 16 GB and 8 GB free, and a burst of five 8-vCPU, 4 GB creates. *)
Definition w_agent (id : string) (used : Z) : Agent :=
  {| ID := id; Endpoint := ""; aRegion := "eu"; Zone := ""; Version := ""; Status := "active";
     aCapacity := {| CPUTotal := 8; CPUUsed := 0; MemoryMB := 32768; MemoryUsed := used; Sandboxes := 0; LoadAverage := f64_zero;
                     StreamRestoreEnabled := true; VolumeProvisionedBytes := 0; VolumesFSSizeBytes := 2 ^ 40;
                     VolumesFSFreeBytes := 2 ^ 39; cPool := " stateful " |};
     LastHeartbeat := 0 |}.
Definition w_agents : list Agent := [w_agent "a" 16384; w_agent "b" 24576].
Definition w_create : Request := {| CPU := 0; rMemoryMB := 4096; Region := ""; DiskBytes := 0; RequirePool := "stateful" |}.
Definition w_burst : list (Z * Request) := map (λ t, (t, w_create)) [0; 1; 2; 3; 4; 5; 6; 7].

Example burst_spreads :
  map (λ x, ID <$> x.2) (burst (f64_zero, false) w_agents w_burst ∅).2 =
  [Some "a"; Some "b"; Some "a"; Some "b"; Some "a"; Some "a"; None; None].
Proof. vm_compute. reflexivity. Qed.

Lemma burst_never_oversells_witness :
  given "a" rMemoryMB (burst (f64_zero, false) w_agents w_burst ∅).2 = 16384 ∧
  given "a" rMemoryMB (burst (f64_zero, false) w_agents w_burst ∅).2 ≤ Z.max 0 (i64 (32768 - 16384)) ∧
  ∀ hr, volumeHeadroomBytes (aCapacity (w_agent "a" 16384)) = Some hr →
        given "a" DiskBytes (burst (f64_zero, false) w_agents w_burst ∅).2 ≤ Z.max 0 hr.
Proof.
  split; [vm_compute; reflexivity|].
  apply (burst_never_oversells (f64_zero, false) w_agents 0 w_burst (w_agent "a" 16384)).
  - apply (bool_decide_eq_true_1 (NoDup (map ID w_agents))). vm_compute. reflexivity.
  - left.
  - unfold w_burst, window, sized, reservationTTL, second. repeat constructor; simpl; lia.
Defined.

Lemma pick_spec_witness :
  let m : gmap string (list reservation) := {["a" := [{| r_cpu := 8; r_memMB := 12289; r_disk := 0; r_at := 0 |}]]} in
  match pick (f64_zero, false) 5 w_create w_agents m with
  | (m', Some a) =>
      a ∈ w_agents ∧ fits (f64_zero, false) (reservedLocked m (ID a)) w_create a ∧
      (∃ s, consider (f64_zero, false) (reservedLocked m (ID a)) w_create a = Some s ∧
         ∀ b t, b ∈ w_agents → consider (f64_zero, false) (reservedLocked m (ID b)) w_create b = Some t → f64_ltb s t = false) ∧
      m' = reserveLocked m (ID a) w_create 5
  | (m', None) => m' = m ∧ ∀ a, a ∈ w_agents → ¬ fits (f64_zero, false) (reservedLocked m (ID a)) w_create a
  end.
Proof.
  intros m. assert (pruneReservationsLocked 5 m = m) as Hp by (vm_compute; reflexivity).
  pose proof (pick_spec (f64_zero, false) 5 w_create w_agents m) as H. cbv zeta in H. rewrite Hp in H. apply H.
  clear H. intros a s Ha. unfold w_agents in Ha. apply elem_of_cons in Ha as [->|[->|Ha]%elem_of_cons].
  - vm_compute. discriminate.
  - vm_compute. by intros [= <-].
  - by apply not_elem_of_nil in Ha.
Defined.
