(* ===== verification/Pressure.v ===== *)
(** The memory-pressure ladder of the agent,
    agent/internal/sandbox/pressure.go (with [workloadClass] of workload.go):
    the controller that squeezes, reclaims from and freezes cold VMs.  What it
    reads of the host is an argument of one tick; what it does to the VMs is
    the tick's list of actions.  Times are nanoseconds; [None] is the zero
    time.  The flags that only limit logging are left out. *)

From Stdlib Require Import Floats.SpecFloat Sorting.Sorted.
From S2P Require Import Prelude GoSort Float64.

Open Scope string_scope.
Open Scope list_scope.
Open Scope Z_scope.

(** ** Constants *)

Definition second : Z := 10 ^ 9.
Definition minute : Z := 60 * second.
Definition pressureTick : Z := 10 * second.
Definition squeezeShrinkPct : Z := 70.
Definition squeezeFloorBytes : Z := Z.shiftl 256 20.
Definition squeezeSkipBelowBytes : Z := Z.shiftl 32 20.
Definition maxSqueezesPerTick : nat := 2.
Definition freezeMinAge : Z := 2 * minute.
Definition freezeMinIdle : Z := 60 * second.
Definition freezeMaxCPURate : f64 := f64_div (f64_of_Z 5) (f64_of_Z 100).
Definition freezeMinInterval : Z := 60 * second.
Definition freezeFailCooldown : Z := 15 * minute.
Definition squeezeMaxCPURate : f64 := f64_div (f64_of_Z 1) (f64_of_Z 2).
Definition squeezeMinIdle : Z := 60 * second.
Definition reclaimInterval : Z := 10 * minute.
Definition reclaimDwell : Z := 90 * second.
Definition reclaimMinIdle : Z := 5 * minute.
Definition reclaimPerTick : nat := 1.
Definition appSqueezeWarmup : Z := 15 * minute.

(** ** Levels *)

Inductive pressureLevel := levelOK | levelElevated | levelCritical.

#[export] Instance level_eq_dec : EqDecision pressureLevel.
Proof. solve_decision. Defined.

Definition level_val (l : pressureLevel) : Z :=
  match l with levelOK => 0 | levelElevated => 1 | levelCritical => 2 end.

Record pressureThresholds := mkThresholds { lowPct : f64; critPct : f64; psiSome : f64; psiFull : f64 }.

(** [int64(float64(totalMB) * pct / 100)], clamped. *)
Definition water (totalMB : Z) (pct : f64) (ceiling : Z) : Z :=
  let mb := f64_trunc (f64_div (f64_mul (f64_of_Z totalMB) pct) (f64_of_Z 100)) in
  if ceiling <? mb then ceiling else mb.

Definition critWaterMB (t : pressureThresholds) (totalMB : Z) : Z := water totalMB (critPct t) 2048.

Definition classifyPressure (t : pressureThresholds) (availMB totalMB : Z) (some full : f64) : pressureLevel :=
  let lowMB := water totalMB (lowPct t) 4096 in
  if (availMB <? critWaterMB t totalMB) || f64_ltb (psiFull t) full then levelCritical
  else if (availMB <? lowMB) || f64_ltb (psiSome t) some then levelElevated
  else levelOK.

(** The level and the new fall streak. *)
Definition applyHysteresis (prev raw : pressureLevel) (fallStreak : Z) : pressureLevel * Z :=
  if level_val prev <=? level_val raw then (raw, 0)
  else
    let fallStreak := fallStreak + 1 in
    if 2 <=? fallStreak then (raw, 0) else (prev, fallStreak).

(** ** VMs *)

Definition workloadClass (template : string) (md : gmap string string) : string :=
  let get k := default "" (md !! k) in
  if String.eqb (get "kind") "app" || negb (String.eqb (get "app.id") "") then "app"
  else if String.prefix "app-" template then "app"
  else if String.prefix "postgres-16" template then "db"
  else "sandbox".

Record pressureVM := mkVM {
  v_id : string; v_class : string; v_rate : f64; v_lastAct : option Z; v_current : Z; v_squeezed : bool;
}.

(** [now.Sub(t)]: the zero time is as far away as a Duration can say. *)
Definition since (now : Z) (t : option Z) : Z :=
  match t with Some t => now - t | None => 2 ^ 63 - 1 end.

(** [t.Before(u)] with the zero time before all others. *)
Definition before (t u : option Z) : bool :=
  match t, u with
  | Some t, Some u => t <? u
  | None, Some _ => true
  | _, None => false
  end.

Definition coldnessLess (a b : pressureVM) : bool :=
  if negb (SFeqb (v_rate a) (v_rate b)) then f64_ltb (v_rate a) (v_rate b)
  else before (v_lastAct a) (v_lastAct b).

Definition squeezeTarget (currentBytes : Z) : Z :=
  let t := Z.quot (i64 (currentBytes * squeezeShrinkPct)) 100 in
  if t <? squeezeFloorBytes then squeezeFloorBytes else t.

(** [!t.IsZero() && now.Sub(t) < d] *)
Definition active_within (now : Z) (t : option Z) (d : Z) : bool :=
  match t with Some t => now - t <? d | None => false end.

Definition freezeEligible (vm : pressureVM) (createdAt : option Z) (now : Z) : bool :=
  if negb (String.eqb (v_class vm) "sandbox") then false
  else if since now createdAt <? freezeMinAge then false
  else if active_within now (v_lastAct vm) freezeMinIdle then false
  else f64_leb (v_rate vm) freezeMaxCPURate.

(** ** State *)

Record pressureState := mkState {
  prevUsec : gmap string Z;
  prevTickAt : option Z;
  lastFreeze : option Z;
  level : pressureLevel;
  fallStreak : Z;
  squeezeBasis : gmap string Z;
  cooldown : gmap string Z;
  squeezedAt : gmap string Z;
  lastReclaim : gmap string Z;
  freezing : gset string;
}.

Definition init_state : pressureState :=
  {| prevUsec := ∅; prevTickAt := None; lastFreeze := None; level := levelOK; fallStreak := 0;
     squeezeBasis := ∅; cooldown := ∅; squeezedAt := ∅; lastReclaim := ∅; freezing := ∅ |}.

Definition set_level (l : pressureLevel) (n : Z) (st : pressureState) : pressureState :=
  {| prevUsec := prevUsec st; prevTickAt := prevTickAt st; lastFreeze := lastFreeze st; level := l; fallStreak := n;
     squeezeBasis := squeezeBasis st; cooldown := cooldown st; squeezedAt := squeezedAt st; lastReclaim := lastReclaim st;
     freezing := freezing st |}.
Definition set_tick (now : Z) (st : pressureState) : pressureState :=
  {| prevUsec := prevUsec st; prevTickAt := Some now; lastFreeze := lastFreeze st; level := level st; fallStreak := fallStreak st;
     squeezeBasis := squeezeBasis st; cooldown := cooldown st; squeezedAt := squeezedAt st; lastReclaim := lastReclaim st;
     freezing := freezing st |}.
Definition set_maps (usec basis cool at_ recl : gmap string Z) (st : pressureState) : pressureState :=
  {| prevUsec := usec; prevTickAt := prevTickAt st; lastFreeze := lastFreeze st; level := level st; fallStreak := fallStreak st;
     squeezeBasis := basis; cooldown := cool; squeezedAt := at_; lastReclaim := recl; freezing := freezing st |}.
Definition set_squeezedAt (m : gmap string Z) (st : pressureState) : pressureState :=
  set_maps (prevUsec st) (squeezeBasis st) (cooldown st) m (lastReclaim st) st.
Definition set_squeezeBasis (m : gmap string Z) (st : pressureState) : pressureState :=
  set_maps (prevUsec st) m (cooldown st) (squeezedAt st) (lastReclaim st) st.
Definition set_lastReclaim (m : gmap string Z) (st : pressureState) : pressureState :=
  set_maps (prevUsec st) (squeezeBasis st) (cooldown st) (squeezedAt st) m st.
Definition set_cooldown (m : gmap string Z) (st : pressureState) : pressureState :=
  set_maps (prevUsec st) (squeezeBasis st) m (squeezedAt st) (lastReclaim st) st.
Definition set_freeze (last : option Z) (f : gset string) (st : pressureState) : pressureState :=
  {| prevUsec := prevUsec st; prevTickAt := prevTickAt st; lastFreeze := last; level := level st; fallStreak := fallStreak st;
     squeezeBasis := squeezeBasis st; cooldown := cooldown st; squeezedAt := squeezedAt st; lastReclaim := lastReclaim st;
     freezing := f |}.

Definition isFreezing (id : string) (st : pressureState) : bool := bool_decide (id ∈ freezing st).
Definition setFreezing (id : string) (v : bool) (st : pressureState) : pressureState :=
  set_freeze (lastFreeze st) (if v then freezing st ∪ {[id]} else freezing st ∖ {[id]}) st.

(** ** Inventory *)

(** One row of the agent's sandboxes, with what the host says of its VM. *)
Record row := mkRow {
  p_id : string; p_owned : bool; p_status : string; p_template : string; p_md : gmap string string;
  p_usec : option Z; p_lastAct : option Z; p_current : Z; p_high : string; p_created : option Z;
}.

Definition seconds (d : Z) : f64 :=
  f64_add (f64_of_Z (Z.quot d second)) (f64_div (f64_of_Z (Z.rem d second)) (f64_of_Z second)).

Definition window_secs (now : Z) (prev : option Z) : f64 :=
  match prev with
  | Some p => let dt := seconds (now - p) in if f64_leb dt f64_zero then seconds pressureTick else dt
  | None => seconds pressureTick
  end.

Definition cpu_rate (dt : f64) (prev : option Z) (usec : Z) : f64 :=
  match prev with
  | Some p => if usec <? p then f64_add squeezeMaxCPURate (f64_of_Z 1)
              else f64_div (f64_div (f64_of_Z (usec - p)) (f64_of_Z (10 ^ 6))) dt
  | None => f64_add squeezeMaxCPURate (f64_of_Z 1)
  end.

(** One row: skipped, or its VM; [prevUsec] is updated on the way. *)
Definition inventory_row (dt : f64) (acc : gmap string Z * gset string * list pressureVM * gmap string Z) (r : row)
    : gmap string Z * gset string * list pressureVM * gmap string Z :=
  let '(usecs, seen, out, created) := acc in
  if String.eqb (p_id r) "" || negb (p_owned r) then acc
  else if negb (String.eqb (p_status r) "running") then acc
  else if String.eqb (default "" (p_md r !! "workspace")) "" then acc
  else match p_usec r with
  | None => acc
  | Some usec =>
      let rate := cpu_rate dt (usecs !! p_id r) usec in
      (<[p_id r := usec]> usecs, seen ∪ {[p_id r]},
       out ++ [{| v_id := p_id r; v_class := workloadClass (p_template r) (p_md r); v_rate := rate; v_lastAct := p_lastAct r;
                  v_current := p_current r;
                  v_squeezed := negb (String.eqb (p_high r) "") && negb (String.eqb (p_high r) "max") |}],
       match p_created r with Some c => <[p_id r := c]> created | None => created end)
  end.

Definition pressureInventory (now : Z) (rows : option (list row)) (st : pressureState)
    : pressureState * list pressureVM * gmap string Z :=
  match rows with
  | None => (st, [], ∅)
  | Some rows =>
      let dt := window_secs now (prevTickAt st) in
      let '(usecs, seen, out, created) := foldl (inventory_row dt) (prevUsec st, ∅, [], ∅) rows in
      let gone := dom usecs ∖ seen in
      let keep (m : gmap string Z) := filter (λ kv, kv.1 ∉ gone) m in
      (set_maps (keep usecs) (keep (squeezeBasis st)) (keep (cooldown st)) (keep (squeezedAt st)) (keep (lastReclaim st)) st,
       out, created)
  end.

(** ** The tick *)

Inductive action :=
  | Unsqueeze (id : string)
  | Reclaim (id : string) (want : Z)
  | Squeeze (id : string) (target : Z)
  | Freeze (id : string).

Record host_view := mkView {
  hv_now : Z;
  hv_mem : option (Z * Z * Z);
  hv_psi : option (f64 * f64);
  hv_ready : bool;
  hv_delegated : bool;
  hv_reclaim : bool;
  hv_rows : option (list row);
  hv_write : string → bool;
  hv_driver : string → bool;
}.

Section tick.
Context (hv : host_view).

Abbreviation now := (hv_now hv) (only parsing).

Fixpoint unsqueeze_pass (lifted : nat) (vms : list pressureVM) (st : pressureState) : pressureState * list action :=
  match vms with
  | [] => (st, [])
  | vm :: vms =>
      if negb (v_squeezed vm) || (maxSqueezesPerTick <=? lifted)%nat then unsqueeze_pass lifted vms st
      else if match squeezedAt st !! v_id vm with Some at_ => now - at_ <? reclaimDwell | None => false end
      then unsqueeze_pass lifted vms st
      else if hv_write hv (v_id vm) then
        let '(st, acts) := unsqueeze_pass (S lifted) vms (set_squeezedAt (delete (v_id vm) (squeezedAt st)) st) in
        (st, Unsqueeze (v_id vm) :: acts)
      else unsqueeze_pass lifted vms st
  end.

Definition too_busy (vm : pressureVM) (idle : Z) : bool :=
  f64_ltb squeezeMaxCPURate (v_rate vm) || active_within now (v_lastAct vm) idle.

Definition out_of_scope (vm : pressureVM) : bool :=
  v_squeezed vm || String.eqb (v_class vm) "db" || (v_current vm <? squeezeSkipBelowBytes).

Definition reclaimable (created : gmap string Z) (vm : pressureVM) (st : pressureState) : bool :=
  negb (out_of_scope vm) && negb (too_busy vm reclaimMinIdle || (since now (created !! v_id vm) <? reclaimMinIdle)) &&
  negb (match lastReclaim st !! v_id vm with Some l => now - l <? reclaimInterval | None => false end) &&
  negb (isFreezing (v_id vm) st) && negb (v_current vm - squeezeTarget (v_current vm) <=? 0).

Fixpoint reclaim_pass (created : gmap string Z) (launched : nat) (vms : list pressureVM) (st : pressureState)
    : pressureState * list action :=
  match vms with
  | [] => (st, [])
  | vm :: vms =>
      if (reclaimPerTick <=? launched)%nat then (st, [])
      else if reclaimable created vm st then
        let st := setFreezing (v_id vm) true (set_lastReclaim (<[v_id vm := now]> (lastReclaim st)) st) in
        let '(st, acts) := reclaim_pass created (S launched) vms st in
        (st, Reclaim (v_id vm) (v_current vm - squeezeTarget (v_current vm)) :: acts)
      else reclaim_pass created launched vms st
  end.

(** The residency a squeeze is computed from: the largest ever seen. *)
Definition basis_of (vm : pressureVM) (st : pressureState) : Z :=
  Z.max (v_current vm) (default 0 (squeezeBasis st !! v_id vm)).

Definition squeezable (created : gmap string Z) (vm : pressureVM) : bool :=
  negb (out_of_scope vm) && negb (too_busy vm squeezeMinIdle) &&
  negb (String.eqb (v_class vm) "app" && (since now (created !! v_id vm) <? appSqueezeWarmup)).

Fixpoint squeeze_pass (created : gmap string Z) (squeezed : nat) (vms : list pressureVM) (st : pressureState)
    : pressureState * list action :=
  match vms with
  | [] => (st, [])
  | vm :: vms =>
      if (maxSqueezesPerTick <=? squeezed)%nat then (st, [])
      else if squeezable created vm then
        let basis := basis_of vm st in
        let st := set_squeezeBasis (<[v_id vm := basis]> (squeezeBasis st)) st in
        if hv_write hv (v_id vm) then
          let '(st, acts) := squeeze_pass created (S squeezed) vms (set_squeezedAt (<[v_id vm := now]> (squeezedAt st)) st) in
          (st, Squeeze (v_id vm) (squeezeTarget basis) :: acts)
        else squeeze_pass created squeezed vms st
      else squeeze_pass created squeezed vms st
  end.

(** [now.Before(st.cooldown[id])] *)
Definition parked (id : string) (st : pressureState) : bool :=
  match cooldown st !! id with Some c => now <? c | None => false end.

Fixpoint freeze_pass (created : gmap string Z) (vms : list pressureVM) (st : pressureState) : pressureState * list action :=
  match vms with
  | [] => (st, [])
  | vm :: vms =>
      if isFreezing (v_id vm) st || parked (v_id vm) st || negb (freezeEligible vm (created !! v_id vm) now)
      then freeze_pass created vms st
      else if negb (hv_driver hv (v_id vm)) then freeze_pass created vms st
      else (setFreezing (v_id vm) true (set_freeze (Some now) (freezing st) st), [Freeze (v_id vm)])
  end.

(** [case levelOK] *)
Definition calm_pass (swapMB : Z) (vms : list pressureVM) (created : gmap string Z)
    (st : pressureState) : pressureState * list action :=
  let '(st, acts) := unsqueeze_pass 0 vms st in
  if hv_reclaim hv && (0 <? swapMB) && hv_delegated hv then
    let '(st, acts') := reclaim_pass created 0 vms st in (st, acts ++ acts')
  else (st, acts).

(** [case levelElevated, levelCritical] *)
Definition tight_pass (th : pressureThresholds) (availMB totalMB swapMB : Z) (vms : list pressureVM)
    (created : gmap string Z) (st : pressureState) : pressureState * list action :=
  let vms := sort_slice coldnessLess vms in
  let '(st, acts) := if (0 <? swapMB) && hv_delegated hv then squeeze_pass created 0 vms st else (st, []) in
  if bool_decide (level st = levelCritical) && (availMB <? critWaterMB th totalMB) &&
     (freezeMinInterval <=? since now (lastFreeze st)) then
    let '(st, acts') := freeze_pass created vms st in (st, acts ++ acts')
  else (st, acts).

Definition act (th : pressureThresholds) (availMB totalMB swapMB : Z) (vms : list pressureVM) (created : gmap string Z)
    (st : pressureState) : pressureState * list action :=
  match level st with
  | levelOK => calm_pass swapMB vms created st
  | _ => tight_pass th availMB totalMB swapMB vms created st
  end.

Definition pressureTickOnce (th : pressureThresholds) (st : pressureState) : pressureState * list action :=
  match hv_mem hv with
  | None => (st, [])
  | Some (availMB, totalMB, swapMB) =>
      let '(some, full) := default (f64_zero, f64_zero) (hv_psi hv) in
      let raw := classifyPressure th availMB totalMB some full in
      let '(l, streak) := applyHysteresis (level st) raw (fallStreak st) in
      let st := set_level l streak st in
      if negb (hv_ready hv) then (st, [])
      else
        let '(st, vms, created) := pressureInventory now (hv_rows hv) st in
        let st := set_tick now st in
        if (length vms =? 0)%nat then (st, []) else act th availMB totalMB swapMB vms created st
  end.
End tick.

(** The goroutine of a [Reclaim], and of a [Freeze], when it returns. *)
Definition reclaim_done (id : string) (st : pressureState) : pressureState := setFreezing id false st.
Definition freeze_done (id : string) (now : Z) (failed : bool) (st : pressureState) : pressureState :=
  setFreezing id false (if failed then set_cooldown (<[id := now + freezeFailCooldown]> (cooldown st)) st else st).

(** ** What an action needs *)

(** [vm] is one of the tick's VMs, idle for [idle], quiet, of a class and size
    the ladder may shrink. *)
Record shrinkable (hv : host_view) (vms : list pressureVM) (idle : Z) (id : string) (vm : pressureVM) : Prop := {
  sh_in : vm ∈ vms;
  sh_id : v_id vm = id;
  sh_class : v_class vm ≠ "db";
  sh_free : v_squeezed vm = false;
  sh_size : squeezeSkipBelowBytes ≤ v_current vm;
  sh_quiet : f64_ltb squeezeMaxCPURate (v_rate vm) = false;
  sh_idle t : v_lastAct vm = Some t → idle ≤ hv_now hv - t;
}.

(** The state [st], VMs and creation times are those of the tick's inventory. *)
Definition allowed (hv : host_view) (th : pressureThresholds) (availMB totalMB swapMB : Z) (vms : list pressureVM)
    (created : gmap string Z) (st : pressureState) (a : action) : Prop :=
  match a with
  | Unsqueeze id => level st = levelOK ∧ ∃ vm, vm ∈ vms ∧ v_id vm = id ∧ v_squeezed vm = true
  | Reclaim id want =>
      level st = levelOK ∧ 0 < swapMB ∧ hv_delegated hv = true ∧
      ∃ vm, shrinkable hv vms reclaimMinIdle id vm ∧ reclaimMinIdle ≤ since (hv_now hv) (created !! id) ∧
            0 < want ∧ squeezeFloorBytes ≤ v_current vm - want
  | Squeeze id target =>
      level st ≠ levelOK ∧ 0 < swapMB ∧ hv_delegated hv = true ∧
      ∃ vm basis, shrinkable hv vms squeezeMinIdle id vm ∧ v_current vm ≤ basis ∧ target = squeezeTarget basis ∧
                  squeezeFloorBytes ≤ target ∧
                  (v_class vm = "app" → appSqueezeWarmup ≤ since (hv_now hv) (created !! id))
  | Freeze id =>
      level st = levelCritical ∧ availMB < critWaterMB th totalMB ∧
      freezeMinInterval ≤ since (hv_now hv) (lastFreeze st) ∧ (id ∉ freezing st) ∧ hv_driver hv id = true ∧
      (∀ c, cooldown st !! id = Some c → c ≤ hv_now hv) ∧
      ∃ vm, vm ∈ vms ∧ v_id vm = id ∧ v_class vm = "sandbox" ∧ f64_leb (v_rate vm) freezeMaxCPURate = true ∧
            freezeMinAge ≤ since (hv_now hv) (created !! id) ∧
            (∀ t, v_lastAct vm = Some t → freezeMinIdle ≤ hv_now hv - t)
  end.

Definition is_unsqueeze (a : action) : bool := match a with Unsqueeze _ => true | _ => false end.
Definition is_reclaim (a : action) : bool := match a with Reclaim _ _ => true | _ => false end.
Definition is_squeeze (a : action) : bool := match a with Squeeze _ _ => true | _ => false end.
Definition is_freeze (a : action) : bool := match a with Freeze _ => true | _ => false end.
Definition num (p : action → bool) (l : list action) : nat := length (filter (λ a, p a = true) l).

Lemma num_app p a b : num p (a ++ b) = (num p a + num p b)%nat.
Proof. unfold num. by rewrite filter_app, length_app. Qed.
Lemma num_none p l : Forall (λ a, p a = false) l → num p l = 0%nat.
Proof.
  unfold num. induction 1 as [|a l Ha _ IH]; [done|]. rewrite filter_cons_False; [done|]. by rewrite Ha.
Qed.
Lemma num_all p l : (num p l ≤ length l)%nat.
Proof. unfold num. apply length_filter. Qed.

Lemma squeezeTarget_floor c : squeezeFloorBytes ≤ squeezeTarget c.
Proof. unfold squeezeTarget. destruct (Z.ltb_spec (Z.quot (i64 (c * squeezeShrinkPct)) 100) squeezeFloorBytes); lia. Qed.

Section passes.
Context (hv : host_view) (created : gmap string Z).

(** The state a pass may change, seen from the other passes. *)
Definition same_freeze (st st' : pressureState) : Prop :=
  level st' = level st ∧ lastFreeze st' = lastFreeze st ∧ cooldown st' = cooldown st ∧ freezing st' = freezing st.

Lemma unsqueeze_acts n vms st :
  let '(st', acts) := unsqueeze_pass hv n vms st in
  same_freeze st st' ∧ (length acts + n ≤ Nat.max n maxSqueezesPerTick)%nat ∧
  Forall (λ a, ∃ vm, a = Unsqueeze (v_id vm) ∧ vm ∈ vms ∧ v_squeezed vm = true) acts.
Proof.
  revert n st. induction vms as [|vm vms IH]; intros n st; [simpl; split_and!; [done | lia | constructor]|].
  assert (∀ n st, let '(st', acts) := unsqueeze_pass hv n vms st in
    same_freeze st st' ∧ (length acts + n ≤ Nat.max n maxSqueezesPerTick)%nat ∧
    Forall (λ a, ∃ x, a = Unsqueeze (v_id x) ∧ x ∈ vm :: vms ∧ v_squeezed x = true) acts) as IH'.
  { intros k s. specialize (IH k s). destruct (unsqueeze_pass hv k vms s) as [s' a]. destruct IH as (? & ? & Hf).
    split_and!; [done..|]. eapply Forall_impl; [exact Hf|]. intros x (y & ? & ? & ?). exists y. split_and!; [done|by right|done]. }
  clear IH. cbn [unsqueeze_pass]. destruct (negb (v_squeezed vm) || _) eqn:E1; [apply IH'|].
  apply orb_false_iff in E1 as [E1 E2]. apply negb_false_iff in E1. apply Nat.leb_gt in E2. unfold maxSqueezesPerTick in *.
  destruct (match squeezedAt st !! v_id vm with Some _ => _ | None => _ end); [apply IH'|].
  destruct (hv_write hv (v_id vm)); [|apply IH'].
  specialize (IH' (S n) (set_squeezedAt (delete (v_id vm) (squeezedAt st)) st)).
  destruct (unsqueeze_pass hv (S n) vms _) as [s' a]. destruct IH' as (H1 & H2 & H3).
  split_and!; [exact H1 | simpl; lia|]. constructor; [|done]. exists vm. split_and!; [done|by left|done].
Qed.

Lemma too_busy_spec vm d :
  too_busy hv vm d = false →
  f64_ltb squeezeMaxCPURate (v_rate vm) = false ∧ ∀ t, v_lastAct vm = Some t → d ≤ hv_now hv - t.
Proof.
  unfold too_busy. intros [H1 H2]%orb_false_iff. split; [done|]. intros t Ht.
  unfold active_within in H2. rewrite Ht in H2. by apply Z.ltb_ge in H2.
Qed.

Lemma out_of_scope_spec vm :
  out_of_scope vm = false → v_squeezed vm = false ∧ v_class vm ≠ "db" ∧ squeezeSkipBelowBytes ≤ v_current vm.
Proof.
  unfold out_of_scope. intros [[H1 H2]%orb_false_iff H3]%orb_false_iff.
  apply String.eqb_neq in H2. apply Z.ltb_ge in H3. done.
Qed.

Lemma reclaim_acts n vms st :
  let '(st', acts) := reclaim_pass hv created n vms st in
  level st' = level st ∧ lastFreeze st' = lastFreeze st ∧ cooldown st' = cooldown st ∧
  (length acts + n ≤ Nat.max n reclaimPerTick)%nat ∧
  Forall (λ a, ∃ vm, a = Reclaim (v_id vm) (v_current vm - squeezeTarget (v_current vm)) ∧
    shrinkable hv vms reclaimMinIdle (v_id vm) vm ∧ reclaimMinIdle ≤ since (hv_now hv) (created !! v_id vm) ∧
    0 < v_current vm - squeezeTarget (v_current vm)) acts.
Proof.
  revert n st. induction vms as [|vm vms IH]; intros n st; [simpl; split_and!; [done.. | lia | constructor]|].
  cbn [reclaim_pass]. destruct (Nat.leb_spec reclaimPerTick n); [split_and!; [done.. | simpl; lia | constructor]|].
  assert (∀ l, Forall (λ a, ∃ x, a = Reclaim (v_id x) (v_current x - squeezeTarget (v_current x)) ∧
      shrinkable hv vms reclaimMinIdle (v_id x) x ∧ reclaimMinIdle ≤ since (hv_now hv) (created !! v_id x) ∧
      0 < v_current x - squeezeTarget (v_current x)) l →
    Forall (λ a, ∃ x, a = Reclaim (v_id x) (v_current x - squeezeTarget (v_current x)) ∧
      shrinkable hv (vm :: vms) reclaimMinIdle (v_id x) x ∧ reclaimMinIdle ≤ since (hv_now hv) (created !! v_id x) ∧
      0 < v_current x - squeezeTarget (v_current x)) l) as Hw.
  { intros l Hl. eapply Forall_impl; [exact Hl|]. intros a (x & ? & [] & ? & ?). exists x. split_and!; [done| |done..].
    split; try done. by right. }
  destruct (reclaimable hv created vm st) eqn:E.
  - specialize (IH (S n) (setFreezing (v_id vm) true (set_lastReclaim (<[v_id vm := hv_now hv]> (lastReclaim st)) st))).
    destruct (reclaim_pass hv created (S n) vms _) as [s' a]. destruct IH as (H1 & H2 & H3 & H4 & H5).
    unfold reclaimPerTick in *. split_and!; [done.. | simpl; lia|]. constructor; [|by apply Hw].
    unfold reclaimable in E. rewrite !andb_true_iff, !negb_true_iff in E. destruct E as [[[[E1 E2] E3] E4] E5].
    apply out_of_scope_spec in E1 as (? & ? & ?). apply orb_false_iff in E2 as [E2 E6].
    apply too_busy_spec in E2 as [? ?]. apply Z.ltb_ge in E6. apply Z.leb_gt in E5.
    exists vm. split_and!; [done| |done..]. split; try done. by left.
  - specialize (IH n st). destruct (reclaim_pass hv created n vms st) as [s' a]. destruct IH as (H1 & H2 & H3 & H4 & H5).
    split_and!; [done..|by apply Hw].
Qed.

Lemma squeeze_acts n vms st :
  let '(st', acts) := squeeze_pass hv created n vms st in
  same_freeze st st' ∧ (length acts + n ≤ Nat.max n maxSqueezesPerTick)%nat ∧
  Forall (λ a, ∃ vm basis, a = Squeeze (v_id vm) (squeezeTarget basis) ∧
    shrinkable hv vms squeezeMinIdle (v_id vm) vm ∧ v_current vm ≤ basis ∧
    (v_class vm = "app" → appSqueezeWarmup ≤ since (hv_now hv) (created !! v_id vm))) acts.
Proof.
  revert n st. induction vms as [|vm vms IH]; intros n st; [simpl; split_and!; [done | lia | constructor]|].
  cbn [squeeze_pass]. destruct (Nat.leb_spec maxSqueezesPerTick n); [split_and!; [done | simpl; lia | constructor]|].
  assert (∀ n st, let '(st', acts) := squeeze_pass hv created n vms st in
    same_freeze st st' ∧ (length acts + n ≤ Nat.max n maxSqueezesPerTick)%nat ∧
    Forall (λ a, ∃ x basis, a = Squeeze (v_id x) (squeezeTarget basis) ∧
      shrinkable hv (vm :: vms) squeezeMinIdle (v_id x) x ∧ v_current x ≤ basis ∧
      (v_class x = "app" → appSqueezeWarmup ≤ since (hv_now hv) (created !! v_id x))) acts) as IH'.
  { intros k s. specialize (IH k s). destruct (squeeze_pass hv created k vms s) as [s' a]. destruct IH as (? & ? & Hf).
    split_and!; [done..|]. eapply Forall_impl; [exact Hf|]. intros b (x & y & ? & [] & ? & ?). exists x, y.
    split_and!; [done| |done..]. split; try done. by right. }
  clear IH. destruct (squeezable hv created vm) eqn:E; [|apply IH'].
  destruct (hv_write hv (v_id vm)); [|apply (IH' n (set_squeezeBasis _ st))].
  set (st1 := set_squeezedAt _ _). specialize (IH' (S n) st1).
  destruct (squeeze_pass hv created (S n) vms st1) as [s' a]. destruct IH' as (H1 & H2 & H3).
  unfold maxSqueezesPerTick in *. split_and!; [exact H1 | simpl; lia|]. constructor; [|done].
  unfold squeezable in E. rewrite !andb_true_iff, !negb_true_iff in E. destruct E as [[E1 E2] E3].
  apply out_of_scope_spec in E1 as (? & ? & ?). apply too_busy_spec in E2 as [? ?].
  exists vm, (basis_of vm st). split_and!; [done | split; try done; by left | unfold basis_of; lia |].
  intros Hc. rewrite Hc in E3. by apply Z.ltb_ge in E3.
Qed.

Lemma freeze_acts vms st :
  let '(st', acts) := freeze_pass hv created vms st in
  (acts = [] ∧ st' = st) ∨
  ∃ vm, acts = [Freeze (v_id vm)] ∧ vm ∈ vms ∧ level st' = level st ∧ lastFreeze st' = Some (hv_now hv) ∧
    (v_id vm ∉ freezing st) ∧ (∀ c, cooldown st !! v_id vm = Some c → c ≤ hv_now hv) ∧
    hv_driver hv (v_id vm) = true ∧ freezeEligible vm (created !! v_id vm) (hv_now hv) = true.
Proof.
  induction vms as [|vm vms IH]; simpl; [by left|].
  assert (let '(st', acts) := freeze_pass hv created vms st in
    (acts = [] ∧ st' = st) ∨
    ∃ x, acts = [Freeze (v_id x)] ∧ x ∈ vm :: vms ∧ level st' = level st ∧ lastFreeze st' = Some (hv_now hv) ∧
      (v_id x ∉ freezing st) ∧ (∀ c, cooldown st !! v_id x = Some c → c ≤ hv_now hv) ∧
      hv_driver hv (v_id x) = true ∧ freezeEligible x (created !! v_id x) (hv_now hv) = true) as IH'.
  { destruct (freeze_pass hv created vms st) as [s' a]. destruct IH as [?|(x & ? & ? & ?)]; [by left | right].
    exists x. split_and!; try done; try by right. all: apply H1. }
  clear IH. destruct (isFreezing (v_id vm) st || _ || _) eqn:E; [exact IH'|].
  destruct (hv_driver hv (v_id vm)) eqn:Ed; [|exact IH']. simpl. right. exists vm.
  rewrite !orb_false_iff, negb_false_iff in E. destruct E as [[E1 E2] E3].
  split_and!; try done; [by left | by apply bool_decide_eq_false in E1 |].
  intros c Hc. unfold parked in E2. rewrite Hc in E2. by apply Z.ltb_ge in E2.
Qed.

Lemma freezeEligible_spec vm c n :
  freezeEligible vm c n = true →
  v_class vm = "sandbox" ∧ f64_leb (v_rate vm) freezeMaxCPURate = true ∧ freezeMinAge ≤ since n c ∧
  ∀ t, v_lastAct vm = Some t → freezeMinIdle ≤ n - t.
Proof.
  unfold freezeEligible. destruct (negb (String.eqb (v_class vm) "sandbox")) eqn:E1; [done|].
  apply negb_false_iff, String.eqb_eq in E1. destruct (Z.ltb_spec (since n c) freezeMinAge); [done|].
  destruct (active_within n (v_lastAct vm) freezeMinIdle) eqn:E2; [done|]. intros E3. split_and!; try done.
  intros t Ht. unfold active_within in E2. rewrite Ht in E2. by apply Z.ltb_ge in E2.
Qed.
End passes.

(** At most two squeezes, two releases, one reclaim and one freeze a tick. *)
Definition bounded (acts : list action) : Prop :=
  (num is_squeeze acts ≤ maxSqueezesPerTick)%nat ∧ (num is_unsqueeze acts ≤ maxSqueezesPerTick)%nat ∧
  (num is_reclaim acts ≤ reclaimPerTick)%nat ∧ (num is_freeze acts ≤ 1)%nat.

(** No action of a list built by one pass is of another kind. *)
Ltac other_kinds H := eapply Forall_impl; [exact H|]; intros ?;
  first [by intros (? & -> & _) | by intros (? & ? & -> & _)].

Lemma calm_ok hv th availMB totalMB swapMB vms created st :
  level st = levelOK →
  let '(st', acts) := calm_pass hv swapMB vms created st in
  Forall (allowed hv th availMB totalMB swapMB vms created st) acts ∧ bounded acts ∧
  level st' = level st ∧ num is_freeze acts = 0%nat ∧ lastFreeze st' = lastFreeze st.
Proof.
  intros El. unfold calm_pass.
  pose proof (unsqueeze_acts hv 0 vms st) as Hu. destruct (unsqueeze_pass hv 0 vms st) as [s1 a1].
  destruct Hu as ((L1 & F1 & _ & _) & N1 & A1). unfold maxSqueezesPerTick in N1.
  assert (Forall (λ a, is_squeeze a = false) a1) as Q1 by other_kinds A1.
  assert (Forall (λ a, is_reclaim a = false) a1) as Q2 by other_kinds A1.
  assert (Forall (λ a, is_freeze a = false) a1) as Q3 by other_kinds A1.
  assert (Forall (allowed hv th availMB totalMB swapMB vms created st) a1) as B1.
  { eapply Forall_impl; [exact A1|]. intros ? (vm & -> & ? & ?). simpl. split; [done|]. by exists vm. }
  pose proof (num_all is_unsqueeze a1). unfold bounded, maxSqueezesPerTick, reclaimPerTick.
  destruct (hv_reclaim hv && (0 <? swapMB) && hv_delegated hv) eqn:Er.
  - rewrite !andb_true_iff in Er. destruct Er as [[_ Hsw%Z.ltb_lt] Hde].
    pose proof (reclaim_acts hv created 0 vms s1) as Hr. destruct (reclaim_pass hv created 0 vms s1) as [s2 a2].
    destruct Hr as (L2 & F2 & _ & N2 & A2). unfold reclaimPerTick in N2.
    assert (Forall (λ a, is_squeeze a = false) a2) as R1 by other_kinds A2.
    assert (Forall (λ a, is_unsqueeze a = false) a2) as R2 by other_kinds A2.
    assert (Forall (λ a, is_freeze a = false) a2) as R3 by other_kinds A2.
    rewrite !num_app, !(num_none is_squeeze), !(num_none is_freeze), (num_none is_reclaim a1), (num_none is_unsqueeze a2) by done.
    pose proof (num_all is_reclaim a2). split_and!; try lia; try congruence.
    apply Forall_app. split; [done|]. eapply Forall_impl; [exact A2|]. intros ? (vm & -> & Hs & ? & ?). simpl.
    split_and!; try done. exists vm. split_and!; try done. pose proof (squeezeTarget_floor (v_current vm)). lia.
  - rewrite (num_none is_squeeze), (num_none is_freeze), (num_none is_reclaim) by done.
    split_and!; try lia; congruence || done.
Qed.

Lemma shrinkable_sorted hv vms d id vm :
  shrinkable hv (sort_slice coldnessLess vms) d id vm → shrinkable hv vms d id vm.
Proof. intros []. split; try done. by rewrite <- (sort_slice_perm coldnessLess). Qed.

Lemma tight_ok hv th availMB totalMB swapMB vms created st :
  level st ≠ levelOK →
  let '(st', acts) := tight_pass hv th availMB totalMB swapMB vms created st in
  Forall (allowed hv th availMB totalMB swapMB vms created st) acts ∧ bounded acts ∧
  level st' = level st ∧
  (num is_freeze acts = 0%nat ∧ lastFreeze st' = lastFreeze st ∨
   num is_freeze acts = 1%nat ∧ lastFreeze st' = Some (hv_now hv)).
Proof.
  intros El. unfold tight_pass. set (sorted := sort_slice coldnessLess vms).
  assert (let '(s1, a1) := if (0 <? swapMB) && hv_delegated hv then squeeze_pass hv created 0 sorted st else (st, []) in
    same_freeze st s1 ∧ (length a1 ≤ maxSqueezesPerTick)%nat ∧
    Forall (allowed hv th availMB totalMB swapMB vms created st) a1 ∧ Forall (λ a, is_squeeze a = true) a1) as Hs.
  { destruct ((0 <? swapMB) && hv_delegated hv) eqn:E; [|split_and!; [done|simpl; unfold maxSqueezesPerTick; lia|constructor|constructor]].
    apply andb_true_iff in E as [E1%Z.ltb_lt E2].
    pose proof (squeeze_acts hv created 0 sorted st) as Hq. destruct (squeeze_pass hv created 0 sorted st) as [s1 a1].
    destruct Hq as (S1 & N1 & A1). unfold maxSqueezesPerTick in *. split_and!; [done|lia| |other_kinds A1].
    eapply Forall_impl; [exact A1|]. intros ? (vm & basis & -> & Hs & Hb & Ha). simpl. split_and!; try done.
    exists vm, basis. split_and!; try done; [by apply shrinkable_sorted | apply squeezeTarget_floor]. }
  destruct (if (0 <? swapMB) && hv_delegated hv then _ else _) as [s1 a1].
  destruct Hs as ((L1 & F1 & C1 & Z1) & N1 & B1 & Q). pose proof (num_all is_squeeze a1).
  assert (Forall (λ a, is_unsqueeze a = false) a1) as Q1 by (eapply Forall_impl; [exact Q|]; by intros []).
  assert (Forall (λ a, is_reclaim a = false) a1) as Q2 by (eapply Forall_impl; [exact Q|]; by intros []).
  assert (Forall (λ a, is_freeze a = false) a1) as Q3 by (eapply Forall_impl; [exact Q|]; by intros []).
  unfold bounded, maxSqueezesPerTick, reclaimPerTick in *.
  assert (Forall (allowed hv th availMB totalMB swapMB vms created st) a1 ∧ bounded a1 ∧ level s1 = level st ∧
    (num is_freeze a1 = 0%nat ∧ lastFreeze s1 = lastFreeze st ∨ num is_freeze a1 = 1%nat ∧ lastFreeze s1 = Some (hv_now hv))) as Hdone.
  { unfold bounded, maxSqueezesPerTick, reclaimPerTick. rewrite (num_none is_unsqueeze), (num_none is_freeze), (num_none is_reclaim) by done.
    split_and!; try done; try lia. by left. }
  destruct (bool_decide (level s1 = levelCritical) && _ && _) eqn:Ef; [|exact Hdone].
  rewrite !andb_true_iff in Ef. destruct Ef as [[Ec%bool_decide_eq_true Ea%Z.ltb_lt] Ei%Z.leb_le].
  pose proof (freeze_acts hv created sorted s1) as Hf. destruct (freeze_pass hv created sorted s1) as [s2 a2].
  destruct Hf as [[-> ->]|(vm & -> & Hin & L2 & F2 & Hnf & Hcool & Hdrv & Hel)]; [rewrite app_nil_r; exact Hdone|].
  unfold bounded, maxSqueezesPerTick, reclaimPerTick. rewrite !num_app, (num_none is_unsqueeze a1), (num_none is_freeze a1), (num_none is_reclaim a1) by done.
  change (num is_squeeze [Freeze (v_id vm)]) with 0%nat. change (num is_unsqueeze [Freeze (v_id vm)]) with 0%nat.
  change (num is_reclaim [Freeze (v_id vm)]) with 0%nat. change (num is_freeze [Freeze (v_id vm)]) with 1%nat.
  split_and!; try lia; [|congruence | by right].
  apply Forall_app. split; [done|]. apply Forall_singleton. simpl.
  apply freezeEligible_spec in Hel as (Hcl & Hr & Hage & Hidle).
  rewrite <- L1, <- F1, <- C1, <- Z1. split_and!; try done. exists vm. split_and!; try done.
  by rewrite <- (sort_slice_perm coldnessLess).
Qed.

(** One tick of the pressure ladder does only what its rules allow.  A
    database VM is never squeezed, reclaimed from or frozen, and only a plain
    sandbox is ever frozen; a VM in use (busy, or active within the last
    minute), too small, already capped, or an app still deploying is not
    squeezed, and no cap or reclaim goes below 256 MiB; a freeze needs critical
    pressure and an absolute shortage, a minute since the last one, and a
    victim that is old, idle, quiet, driven, not parked and not already being
    acted on; and a tick takes at most two squeezes, two releases, one reclaim
    and one freeze. *)
Theorem tick_spec hv th st :
  let '(st', acts) := pressureTickOnce hv th st in
  bounded acts ∧
  (acts = [] ∨
   ∃ availMB totalMB swapMB some full,
     hv_mem hv = Some (availMB, totalMB, swapMB) ∧ (some, full) = default (f64_zero, f64_zero) (hv_psi hv) ∧
     let '(l, streak) := applyHysteresis (level st) (classifyPressure th availMB totalMB some full) (fallStreak st) in
     let '(st1, vms, created) := pressureInventory (hv_now hv) (hv_rows hv) (set_level l streak st) in
     Forall (allowed hv th availMB totalMB swapMB vms created st1) acts ∧ level st1 = l).
Proof.
  assert (bounded []) as B0 by (repeat split; apply Nat.le_0_l).
  unfold pressureTickOnce. destruct (hv_mem hv) as [[[availMB totalMB] swapMB]|]; [|by split; [|left]].
  destruct (default (f64_zero, f64_zero) (hv_psi hv)) as [some full] eqn:Ep.
  destruct (applyHysteresis (level st) (classifyPressure th availMB totalMB some full) (fallStreak st)) as [l streak] eqn:Eh.
  destruct (negb (hv_ready hv)); [by split; [|left]|].
  destruct (pressureInventory (hv_now hv) (hv_rows hv) (set_level l streak st)) as [[st1 vms] created] eqn:Ei.
  assert (level st1 = l) as Hl.
  { unfold pressureInventory in Ei. destruct (hv_rows hv); [|by injection Ei as <- _ _].
    destruct (foldl _ _ _) as [[[? ?] ?] ?]. by injection Ei as <- _ _. }
  destruct (length vms =? 0)%nat; [by split; [|left]|]. unfold act.
  assert (∀ a, allowed hv th availMB totalMB swapMB vms created (set_tick (hv_now hv) st1) a →
               allowed hv th availMB totalMB swapMB vms created st1 a) as Hw by (by intros []).
  assert (let '(st', acts) := match level (set_tick (hv_now hv) st1) with
            | levelOK => calm_pass hv swapMB vms created (set_tick (hv_now hv) st1)
            | _ => tight_pass hv th availMB totalMB swapMB vms created (set_tick (hv_now hv) st1) end in
          bounded acts ∧ Forall (allowed hv th availMB totalMB swapMB vms created st1) acts) as Ha.
  { destruct (level (set_tick (hv_now hv) st1)) eqn:E.
    - pose proof (calm_ok hv th availMB totalMB swapMB vms created _ E) as H. destruct (calm_pass _ _ _ _ _) as [s' a].
      destruct H as (H1 & H2 & _). split; [done|]. eapply Forall_impl; [exact H1|auto].
    - pose proof (tight_ok hv th availMB totalMB swapMB vms created (set_tick (hv_now hv) st1) ltac:(congruence)) as H.
      destruct (tight_pass _ _ _ _ _ _ _ _) as [s' a]. destruct H as (H1 & H2 & _). split; [done|]. eapply Forall_impl; [exact H1|auto].
    - pose proof (tight_ok hv th availMB totalMB swapMB vms created (set_tick (hv_now hv) st1) ltac:(congruence)) as H.
      destruct (tight_pass _ _ _ _ _ _ _ _) as [s' a]. destruct H as (H1 & H2 & _). split; [done|]. eapply Forall_impl; [exact H1|auto]. }
  destruct (match level (set_tick (hv_now hv) st1) with levelOK => _ | _ => _ end) as [st' acts].
  destruct Ha as [H1 H2]. split; [done|]. right. exists availMB, totalMB, swapMB, some, full.
  by rewrite Eh, Ei.
Qed.

(** ** Hysteresis *)

Definition smooth (raws : list pressureLevel) : pressureLevel * Z :=
  foldl (λ '(l, s) raw, applyHysteresis l raw s) (levelOK, 0) raws.

Lemma smooth_streak raws : 0 ≤ (smooth raws).2 ≤ 1.
Proof.
  induction raws as [|r raws IH] using rev_ind; [simpl; lia|]. unfold smooth in *. rewrite foldl_app. simpl.
  destruct (foldl _ _ raws) as [l s]. unfold applyHysteresis. simpl in *.
  destruct (level_val l <=? level_val r); [simpl; lia|]. destruct (Z.leb_spec 2 (s + 1)); simpl; lia.
Qed.

(** The ladder's level is a Schmitt trigger.  After any history of raw
    readings and two more: the level is never below the last reading; it falls
    only when both of the last two readings were below it, and then to the
    last one; and two readings below it always bring it down. *)
Theorem hysteresis_spec raws r1 r2 :
  let l0 := (smooth raws).1 in
  let l1 := (smooth (raws ++ [r1])).1 in
  let l2 := (smooth (raws ++ [r1; r2])).1 in
  level_val r2 ≤ level_val l2 ∧
  (level_val l2 < level_val l1 → l2 = r2 ∧ l1 = l0 ∧ level_val r1 < level_val l1) ∧
  (level_val r1 < level_val l0 → level_val r2 < level_val l0 → level_val l2 < level_val l0).
Proof.
  pose proof (smooth_streak raws) as Hs. unfold smooth in *. rewrite !foldl_app. simpl.
  destruct (foldl _ _ raws) as [l s]. simpl in Hs. unfold applyHysteresis.
  destruct l, r1, r2; simpl;
    repeat match goal with |- context [2 <=? ?x] => destruct (Z.leb_spec 2 x); simpl end;
    split_and!; intros; try done; try lia.
Qed.

(** ** Freeze storms *)

Inductive event :=
  | Tick (hv : host_view)
  | ReclaimDone (id : string)
  | FreezeDone (id : string) (now : Z) (failed : bool).

(** The times of the freezes of a run. *)
Fixpoint freezes (th : pressureThresholds) (es : list event) (st : pressureState) : list Z :=
  match es with
  | [] => []
  | Tick hv :: es =>
      let '(st, acts) := pressureTickOnce hv th st in
      (if (0 <? num is_freeze acts)%nat then [hv_now hv] else []) ++ freezes th es st
  | ReclaimDone id :: es => freezes th es (reclaim_done id st)
  | FreezeDone id now failed :: es => freezes th es (freeze_done id now failed st)
  end.

Lemma inventory_frame now rows st st1 vms created :
  pressureInventory now rows st = (st1, vms, created) → level st1 = level st ∧ lastFreeze st1 = lastFreeze st.
Proof.
  unfold pressureInventory. destruct rows as [rows|]; [|by intros [= <- _ _]].
  destruct (foldl _ _ _) as [[[? ?] ?] ?]. by intros [= <- _ _].
Qed.

Lemma tick_freeze hv th st :
  let '(st', acts) := pressureTickOnce hv th st in
  if (0 <? num is_freeze acts)%nat
  then lastFreeze st' = Some (hv_now hv) ∧ freezeMinInterval ≤ since (hv_now hv) (lastFreeze st)
  else lastFreeze st' = lastFreeze st.
Proof.
  unfold pressureTickOnce. destruct (hv_mem hv) as [[[availMB totalMB] swapMB]|]; [|done].
  destruct (default (f64_zero, f64_zero) (hv_psi hv)) as [some full].
  destruct (applyHysteresis _ _ _) as [l streak]. destruct (negb (hv_ready hv)); [done|].
  destruct (pressureInventory _ _ _) as [[st1 vms] created] eqn:Ei. apply inventory_frame in Ei as [_ Ef]. simpl in Ef.
  destruct (length vms =? 0)%nat; [done|]. unfold act. set (st2 := set_tick _ _).
  assert (lastFreeze st2 = lastFreeze st) as Hl by done.
  assert (level st2 ≠ levelOK → let '(st', acts) := tight_pass hv th availMB totalMB swapMB vms created st2 in
    if (0 <? num is_freeze acts)%nat then lastFreeze st' = Some (hv_now hv) ∧ freezeMinInterval ≤ since (hv_now hv) (lastFreeze st)
    else lastFreeze st' = lastFreeze st) as Ht.
  { intros Hne. pose proof (tight_ok hv th availMB totalMB swapMB vms created st2 Hne) as H.
    destruct (tight_pass _ _ _ _ _ _ _ _) as [s a]. destruct H as (Hall & _ & _ & [[-> ->]|[Hn ->]]); [done|].
    rewrite Hn. split; [done|]. destruct (filter (λ a, is_freeze a = true) a) as [|x l'] eqn:Ex; [unfold num in Hn; by rewrite Ex in Hn|].
    assert (x ∈ filter (λ a, is_freeze a = true) a) as Hx by (rewrite Ex; by left).
    apply list_elem_of_filter in Hx as [Hf Hx]. rewrite Forall_forall in Hall. specialize (Hall x Hx).
    destruct x; try done. rewrite <- Hl. apply Hall. }
  destruct (level st2) eqn:El; [|by apply Ht..].
  pose proof (calm_ok hv th availMB totalMB swapMB vms created st2 El) as H.
  destruct (calm_pass _ _ _ _ _) as [s a]. destruct H as (_ & _ & _ & -> & ->). done.
Qed.

Lemma freezes_spaced th es st :
  (∀ t, head (freezes th es st) = Some t → ∀ l, lastFreeze st = Some l → l + freezeMinInterval ≤ t) ∧
  Sorted (λ t t', t + freezeMinInterval ≤ t') (freezes th es st).
Proof.
  revert st. induction es as [|[hv|id|id n failed] es IH]; intros st; simpl.
  - split; [done | constructor].
  - pose proof (tick_freeze hv th st) as Ht. destruct (pressureTickOnce hv th st) as [st' acts].
    destruct (IH st') as [Hh Hs]. destruct (0 <? num is_freeze acts)%nat; simpl.
    + destruct Ht as [Hl Hi]. split.
      * intros t [= <-] l Hl'. rewrite Hl' in Hi. simpl in Hi. lia.
      * constructor; [done|]. destruct (freezes th es st') as [|t ts]; [constructor|]. constructor.
        by apply (Hh t eq_refl).
    + rewrite <- Ht. by split.
  - exact (IH (reclaim_done id st)).
  - specialize (IH (freeze_done id n failed st)). by destruct failed.
Qed.

(** No freeze storm: whatever the host reports and whenever the freezes
    and reclaims it started come back, the ladder's freezes are at least a
    minute apart, from the agent's start on. *)
Theorem freeze_storm_cap th es :
  Sorted (λ t t', t + freezeMinInterval ≤ t') (freezes th es init_state).
Proof. apply freezes_spaced. Qed.

(** ** Examples *)

Definition th0 : pressureThresholds :=
  {| lowPct := f64_of_Z 15; critPct := f64_of_Z 8; psiSome := f64_of_Z 10; psiFull := f64_of_Z 5 |}.

Definition w_row (id template : string) (usec : Z) : row :=
  {| p_id := id; p_owned := true; p_status := "running"; p_template := template; p_md := {["workspace" := "w"]};
     p_usec := Some usec; p_lastAct := None; p_current := 2 ^ 30; p_high := "max"; p_created := Some 0 |}.

Definition w_view (t avail : Z) : host_view :=
  {| hv_now := t * second; hv_mem := Some (avail, 32768, 8192); hv_psi := None; hv_ready := true; hv_delegated := true;
     hv_reclaim := true; hv_rows := Some [w_row "db" "postgres-16-small" 0; w_row "app" "app-node" 5; w_row "box" "base" 5];
     hv_write := λ _, true; hv_driver := λ _, true |}.

(** A host at 1 GB of 32: on the second tick (the first only takes a CPU
    sample) the app and the sandbox are squeezed and the sandbox frozen; the
    database is left alone. *)
Example ladder_example :
  let '(st1, a1) := pressureTickOnce (w_view 3600 1024) th0 init_state in
  let '(_, a2) := pressureTickOnce (w_view 3610 1024) th0 st1 in
  (a1, a2) = ([], [Squeeze "app" 751619276; Squeeze "box" 751619276; Freeze "box"]).
Proof. vm_compute. reflexivity. Qed.

(** On a calm host two caps are lifted in one tick. *)
Example two_lifted_per_tick :
  let capped id := {| p_id := id; p_owned := true; p_status := "running"; p_template := "base"; p_md := {["workspace" := "w"]};
                      p_usec := Some 0; p_lastAct := None; p_current := 2 ^ 30; p_high := "300000000"; p_created := Some 0 |} in
  let hv := {| hv_now := 10; hv_mem := Some (30000, 32768, 8192); hv_psi := None; hv_ready := true; hv_delegated := true;
               hv_reclaim := true; hv_rows := Some [capped "a"; capped "b"; capped "c"];
               hv_write := λ _, true; hv_driver := λ _, true |} in
  (pressureTickOnce hv th0 init_state).2 = [Unsqueeze "a"; Unsqueeze "b"].
Proof. vm_compute. reflexivity. Qed.
