(* ===== verification/DbFencing.v ===== *)
(** Fencing of the managed databases' archives,
    api/cmd/api/db_fencing.go: generations, garbage-collection leases, the
    WAL-gap scrub, the choice of superseded partial uploads, and the loop
    breaker.  A table is a map or a list of rows; a statement that fails is an
    argument. *)

From Stdlib Require Import Sorting.Sorted.
From stdpp Require Import pretty.
From S2P Require Import Prelude GoSort GoStrings.

Open Scope string_scope.
Open Scope list_scope.
Open Scope Z_scope.

(** ** Archive generations *)

Record gen_row := mkGen { generation : Z; holder : string }.
Abbreviation gen_table := (gmap string gen_row) (only parsing).

(** [db]: the API has a database. *)
Definition seedArchiveGeneration (db : bool) (id : string) (t : gen_table) : gen_table :=
  if negb db then t
  else match t !! id with
  | Some _ => t
  | None => <[id := {| generation := 1; holder := "create" |}]> t
  end.

(** The upsert. *)
Definition bump_row (id h : string) (t : gen_table) : gen_table * Z :=
  let g := match t !! id with Some r => i64 (generation r + 1) | None => 2 end in
  (<[id := {| generation := g; holder := h |}]> t, g).

(** How a statement can end: answered, failed without effect, or committed
    with the answer lost. *)
Inductive db_outcome := Answered | Failed | Lost.

Definition bumpArchiveGeneration (db : bool) (o : db_outcome) (id h : string) (t : gen_table) : gen_table * option Z :=
  if negb db then (t, Some 1)
  else match o with
  | Answered => let '(t, g) := bump_row id h t in (t, Some g)
  | Failed => (t, None)
  | Lost => ((bump_row id h t).1, None)
  end.

(** Up to three attempts; [None] in the list is the context's end. *)
Fixpoint bump_attempts (n : nat) (outs : list (option db_outcome)) (id h : string) (t : gen_table) : gen_table * option Z :=
  match n, outs with
  | S n, Some o :: outs =>
      match bumpArchiveGeneration true o id h t with
      | (t, Some g) => (t, Some g)
      | (t, None) => bump_attempts n outs id h t
      end
  | _, _ => (t, None)
  end.

Definition bumpArchiveGenerationRetry (db : bool) (outs : list (option db_outcome)) (id h : string) (t : gen_table)
    : gen_table * option Z :=
  if negb db then (t, Some 1) else bump_attempts 3 outs id h t.

Definition currentArchiveGeneration (db : bool) (fails : bool) (id : string) (t : gen_table) : Z * bool :=
  if negb db || fails then (0, false)
  else match t !! id with Some r => (generation r, true) | None => (0, false) end.

(** ** Leases: rows in no order, times in seconds *)

Record lease := mkLease { l_db : string; l_holder : string; l_purpose : string; l_expires : Z }.

Definition acquireArchiveLease (now : Z) (id h purpose : string) (ttl : Z) (t : list lease) : list lease :=
  {| l_db := id; l_holder := h; l_purpose := purpose; l_expires := now + ttl |} :: t.
Definition releaseArchiveLease (id h : string) (t : list lease) : list lease :=
  filter (λ l, ¬ (l_db l = id ∧ l_holder l = h)) t.
Definition archiveLeaseActive (now : Z) (fails : bool) (id : string) (t : list lease) : bool :=
  if fails then true else existsb (λ l, String.eqb (l_db l) id && (now <? l_expires l)) t.
Definition expireArchiveLeases (now : Z) (t : list lease) : list lease :=
  filter (λ l, ¬ l_expires l < now - 3600) t.

(** ** The WAL scrub *)

Definition hex_value (c : Ascii.ascii) : option Z :=
  let n := code c in
  if (48 <=? n) && (n <=? 57) then Some (n - 48)
  else if (65 <=? n) && (n <=? 70) then Some (n - 55)
  else None.

Fixpoint all_hex (s : string) : bool :=
  match s with
  | EmptyString => true
  | String c s => match hex_value c with Some _ => all_hex s | None => false end
  end.

Definition isFullWALSegment (name : string) : bool :=
  let name := TrimSpace name in (String.length name =? 24)%nat && all_hex name.

(** [strconv.ParseUint(s, 16, 64)] of a short string of upper-case digits. *)
Fixpoint parse_hex (acc : Z) (s : string) : Z :=
  match s with
  | EmptyString => acc
  | String c s => parse_hex (acc * 16 + default 0 (hex_value c)) s
  end.

(** [(tli, log, seg)] *)
Definition parse_segment (n : string) : option (Z * Z * Z) :=
  let n := TrimSpace n in
  if negb (String.length n =? 24)%nat then None
  else if negb (all_hex n) then None
  else Some (parse_hex 0 (String.substring 0 8 n), parse_hex 0 (String.substring 8 8 n), parse_hex 0 (String.substring 16 8 n)).

Definition maxTLI (l : list (Z * Z * Z)) : Z := foldr (λ x m, Z.max x.1.1 m) 0 l.

Definition segs_of (l : list (Z * Z * Z)) : list (Z * Z) :=
  map (λ x, (x.1.2, x.2)) (filter (λ x, x.1.1 = maxTLI l) l).

Definition segLess (a b : Z * Z) : bool := if negb (a.1 =? b.1) then a.1 <? b.1 else a.2 <? b.2.

Definition position (s : Z * Z) : Z := u64 (s.1 * 0x100 + s.2).

Fixpoint gap_loop (prev : Z) (rest : list Z) (gaps : Z) : Z :=
  match rest with
  | [] => gaps
  | cur :: rest =>
      if cur =? prev then gap_loop cur rest gaps
      else if negb (cur =? u64 (prev + 1)) then gap_loop cur rest (i64 (gaps + i64 (u64 (cur - prev - 1))))
      else gap_loop cur rest gaps
  end.

Definition countWALGaps (names : list string) : Z * Z :=
  match omap parse_segment names with
  | [] => (0, 0)
  | parsed =>
      let segs := sort_slice segLess (segs_of parsed) in
      (match map position segs with [] => 0 | p :: rest => gap_loop p rest 0 end, Z.of_nat (length segs))
  end.

(** ** Partial uploads *)

Record pinfo := mkPinfo { p_name : string; p_seg : string; p_off : Z; p_gen : Z }.

(** A name with ".partial-" in it: its partial, or dropped. *)
Definition parse_partial (n : string) (i : nat) : option pinfo :=
  let seg := String.substring 0 i n in
  let rest := str_drop (i + 9) n in
  let '(gen, rest) := match String.index 0 "-g" rest with
    | Some j => ((ParseInt (str_drop (j + 2) rest)).1, String.substring 0 j rest)
    | None => (0, rest)
    end in
  let '(off, err) := ParseInt rest in
  if err || (off <=? 0) then None else Some {| p_name := n; p_seg := seg; p_off := off; p_gen := gen |}.

Definition partial_at (n : string) : option nat :=
  match String.index 0 ".partial-" n with Some (S i) => Some (S i) | _ => None end.

Definition partials_of (names : list string) : list pinfo :=
  omap (λ n, match partial_at n with Some i => parse_partial n i | None => None end) names.
Definition fulls_of (names : list string) : list string :=
  filter (λ n, partial_at n = None ∧ String.length n = 24%nat) names.

Definition better_than (p q : pinfo) : bool :=
  (p_gen q <? p_gen p) || (p_gen p =? p_gen q) && (p_off q <? p_off p).

(** The index of the best partial of a non-empty list. *)
Fixpoint best_from (best : nat) (b : pinfo) (i : nat) (ps : list pinfo) : nat :=
  match ps with
  | [] => best
  | p :: ps => if better_than p b then best_from i p (S i) ps else best_from best b (S i) ps
  end.
Definition best_of (ps : list pinfo) : nat := match ps with [] => 0%nat | p :: ps => best_from 0 p 1 ps end.

Definition drop_index (k : nat) (ps : list pinfo) : list pinfo := take k ps ++ drop (k + 1) ps.

(** One segment's partials: which go. *)
Definition superseded (full : list string) (seg : string) (ps : list pinfo) : list string :=
  if bool_decide (seg ∈ full) then map p_name ps else map p_name (drop_index (best_of ps) ps).

Definition selectPartialsToDelete (names : list string) : list string :=
  let ps := partials_of names in
  let full := fulls_of names in
  let segs := remove_dups (map p_seg ps) in
  sort_slice string_ltb (segs ≫= λ seg, superseded full seg (filter (λ p, p_seg p = seg) ps)).

(** ** Backup health *)

(** The verdict of [scrubArchiveHealth]: the sizes of the base backups, the
    names of the WAL objects. *)
Definition scrub_verdict (bases : list Z) (wals : list string) : string * string :=
  let '(gaps, segs) := countWALGaps wals in
  if (length bases =? 0)%nat then ("error", "no base backups in archive")
  else if 0 <? gaps then
    ("error", "WAL gap detected: " +:+ pretty gaps +:+ " missing segment(s) among " +:+ pretty segs +:+
              " on the live timeline — PITR may fail across the gap")
  else
    let zero := length (filter (λ s, s = 0) bases) in
    if (0 <? zero)%nat then ("warn", pretty zero +:+ " base backup(s) have zero size") else ("ok", "").

(** ** The breaker *)

Record loopBreaker := mkBreaker { trip : Z; park : Z; fails : Z; parkedUntil : option Z; tripped : bool }.

Definition newLoopBreaker (trip park : Z) : loopBreaker :=
  {| trip := trip; park := park; fails := 0; parkedUntil := None; tripped := false |}.
Definition Allow (now : Z) (b : loopBreaker) : bool :=
  match parkedUntil b with Some t => t <? now | None => true end.
Definition Success (b : loopBreaker) : loopBreaker :=
  {| trip := trip b; park := park b; fails := 0; parkedUntil := None; tripped := false |}.
Definition Fail_ (now : Z) (b : loopBreaker) : loopBreaker * bool :=
  let n := fails b + 1 in
  if (trip b <=? n) && negb (tripped b) then
    ({| trip := trip b; park := park b; fails := n; parkedUntil := Some (now + park b); tripped := true |}, true)
  else
    ({| trip := trip b; park := park b; fails := n;
        parkedUntil := if tripped b then Some (now + park b) else parkedUntil b; tripped := tripped b |}, false).

(** ** Gap counting *)

(** The segment numbers in [lo..hi] that are not there. *)
Definition missing (ps : list Z) (lo hi : Z) : Z := Z.of_nat (length (filter (λ x, x ∉ ps) (seqZ lo (hi - lo + 1)))).

Lemma missing_step p q rest hi :
  p ≤ q → q ≤ hi → Forall (λ x, q ≤ x) (q :: rest) →
  missing (p :: q :: rest) p hi = (if q =? p then 0 else q - p - 1) + missing (q :: rest) q hi.
Proof.
  intros Hpq Hq Hall. rewrite Forall_forall in Hall. unfold missing. destruct (Z.eqb_spec q p) as [->|Hne].
  - rewrite Z.add_0_l. f_equal. f_equal. apply filter_ext_in. intros x _. rewrite !elem_of_cons. tauto.
  - replace (hi - p + 1) with ((q - p) + (hi - q + 1)) by lia.
    rewrite seqZ_app, filter_app, length_app, Nat2Z.inj_add by lia. replace (p + (q - p)) with q by lia. f_equal.
    + rewrite seqZ_cons by lia. rewrite filter_cons_False by (intros H; apply H; left).
      rewrite filter_id; [rewrite length_seqZ; lia|]. apply Forall_forall. intros x Hx%elem_of_seqZ Hin.
      apply elem_of_cons in Hin as [?|Hin]; [lia|]. specialize (Hall x Hin). lia.
    + f_equal. f_equal. apply filter_ext_in. intros x Hx%elem_of_seqZ. rewrite (elem_of_cons (q :: rest)). split; [tauto|].
      intros Hno [->|?]; [lia | done].
Qed.

Lemma missing_one p hi : hi = p → missing [p] p hi = 0.
Proof.
  intros ->. unfold missing. rewrite filter_none; [done|]. apply Forall_forall. intros x Hx%elem_of_seqZ H. apply H.
  apply list_elem_of_singleton. lia.
Qed.

Lemma missing_range ps lo hi : 0 ≤ missing ps lo hi ∧ (lo ≤ hi + 1 → missing ps lo hi ≤ hi - lo + 1).
Proof.
  unfold missing. split; [lia|]. intros H. pose proof (length_filter (λ x, x ∉ ps) (seqZ lo (hi - lo + 1))) as Hl.
  rewrite length_seqZ in Hl. lia.
Qed.

Lemma gap_loop_missing p rest hi gaps :
  StronglySorted Z.le (p :: rest) → 0 ≤ p → hi < 2 ^ 62 → last (p :: rest) = Some hi → 0 ≤ gaps →
  gaps + (hi - p) < 2 ^ 62 →
  gap_loop p rest gaps = gaps + missing (p :: rest) p hi.
Proof.
  revert p gaps. induction rest as [|q rest IH]; intros p gaps Hs Hp Hhi Hlast Hg Hb; cbn [gap_loop].
  - injection Hlast as ->. rewrite missing_one by done. lia.
  - apply StronglySorted_inv in Hs as [Hs Hle]. apply Forall_cons in Hle as [Hpq Hle].
    assert (q ≤ hi) as Hqh.
    { apply StronglySorted_inv in Hs as [_ Hq]. change (last (q :: rest) = Some hi) in Hlast.
      apply last_Some_elem_of in Hlast. apply elem_of_cons in Hlast as [->|Hl]; [done|].
      rewrite Forall_forall in Hq. by apply Hq. }
    assert (Forall (λ x, q ≤ x) (q :: rest)) as Hall.
    { apply StronglySorted_inv in Hs as [_ Hq]. constructor; [lia|exact Hq]. }
    rewrite (missing_step p q rest hi) by done.
    assert (last (q :: rest) = Some hi) as Hlast' by done.
    destruct (Z.eqb_spec q p) as [->|Hne]; [rewrite IH by (done || lia); lia|].
    rewrite (u64_small (p + 1)), (u64_small (q - p - 1)) by lia.
    destruct (Z.eqb_spec q (p + 1)) as [->|Hne']; simpl negb; cbv iota.
    + rewrite IH by (done || lia). lia.
    + rewrite (i64_small (q - p - 1)) by lia. rewrite i64_small by lia. rewrite IH by (done || lia). lia.
Qed.

#[local] Instance segLess_strict : StrictWeak segLess.
Proof.
  assert (∀ a b, segLess a b = true ↔ a.1 < b.1 ∨ a.1 = b.1 ∧ a.2 < b.2) as L.
  { intros a b. unfold segLess. destruct (Z.eqb_spec a.1 b.1); simpl; rewrite Z.ltb_lt; lia. }
  split; intros x; [|intros y z|intros y z]; rewrite <- ?not_true_iff_false, !L; lia.
Qed.

Lemma parse_hex_range acc s : 0 ≤ acc → 0 ≤ parse_hex acc s < (acc + 1) * 16 ^ Z.of_nat (String.length s).
Proof.
  revert acc. induction s as [|c s IH]; intros acc Ha; cbn [parse_hex String.length]; [rewrite Z.mul_1_r; lia|].
  assert (0 ≤ default 0 (hex_value c) < 16) as Hh.
  { unfold hex_value. destruct ((48 <=? code c) && (code c <=? 57)) eqn:E1; [simpl; lia|].
    destruct ((65 <=? code c) && (code c <=? 70)) eqn:E2; simpl; lia. }
  specialize (IH (acc * 16 + default 0 (hex_value c)) ltac:(lia)). rewrite Nat2Z.inj_succ, Z.pow_succ_r by lia.
  pose proof (Z.pow_pos_nonneg 16 (Z.of_nat (String.length s)) ltac:(lia) ltac:(lia)). nia.
Qed.

Lemma substring_length n m s : (String.length (String.substring n m s) ≤ m)%nat.
Proof.
  revert n m. induction s as [|c s IH]; intros [|n] [|m]; simpl; try lia; [|apply IH..].
  specialize (IH 0%nat m). lia.
Qed.

Lemma parse_hex_8 n s : 0 ≤ parse_hex 0 (String.substring n 8 s) < 2 ^ 32.
Proof.
  pose proof (parse_hex_range 0 (String.substring n 8 s) ltac:(lia)) as H.
  pose proof (substring_length n 8 s).
  assert (16 ^ Z.of_nat (String.length (String.substring n 8 s)) ≤ 16 ^ 8) by (apply Z.pow_le_mono_r; lia).
  change (16 ^ 8) with (2 ^ 32) in *. lia.
Qed.

Lemma segs_of_range names x :
  x ∈ segs_of (omap parse_segment names) → 0 ≤ x.1 < 2 ^ 32 ∧ 0 ≤ x.2 < 2 ^ 32.
Proof.
  unfold segs_of. change (map ?f ?l) with (f <$> l). rewrite list_elem_of_fmap.
  intros (y & -> & Hy). rewrite list_elem_of_filter, list_elem_of_omap in Hy. destruct Hy as (_ & n & _ & Hn).
  unfold parse_segment in Hn. destruct (negb (String.length _ =? 24)%nat); [done|]. destruct (negb (all_hex _)); [done|].
  injection Hn as <-. cbn -[Z.pow parse_hex]. split; apply parse_hex_8.
Qed.

Lemma head_last_bounds (l : list Z) lo hi :
  StronglySorted Z.le l → head l = Some lo → last l = Some hi → Forall (λ x, lo ≤ x ≤ hi) l ∧ lo ∈ l ∧ hi ∈ l.
Proof.
  intros Hs Hh Hl. split_and!; [|by destruct l; simplify_eq/=; left | by apply last_Some_elem_of].
  revert lo Hh. induction Hs as [|x l Hs IH Hx]; intros lo; [done|]. intros [= ->].
  destruct l as [|y l]; [simpl in Hl; injection Hl as ->; repeat constructor; lia|].
  specialize (IH Hl y eq_refl). constructor.
  - apply Forall_cons in IH as [Hy _]. apply Forall_cons in Hx as [? _]. lia.
  - rewrite Forall_forall in *. intros z Hz. specialize (IH z Hz). specialize (Hx z Hz). lia.
Qed.

Lemma sorted_positions l :
  Forall (λ x, (0 ≤ x.1 < 2 ^ 32 ∧ 0 ≤ x.2 < 2 ^ 32) ∧ x.2 ≤ 0xFF) l →
  StronglySorted (not_after segLess) l → StronglySorted Z.le (map position l).
Proof.
  intros Hall. induction 1 as [|x l Hs IH Hx]; simpl; [constructor|].
  apply Forall_cons in Hall as [Hr Hall]. constructor; [by apply IH|]. apply Forall_map.
  rewrite Forall_forall in *. intros y Hy. specialize (Hx y Hy). specialize (Hall y Hy). simpl in *.
  unfold not_after, segLess in Hx. unfold position. rewrite !u64_small by lia.
  destruct (Z.eqb_spec y.1 x.1) as [E|E]; simpl in Hx; apply Z.ltb_ge in Hx; lia.
Qed.

Lemma countWALGaps_eq names :
  let segs := sort_slice segLess (segs_of (omap parse_segment names)) in
  countWALGaps names = (match map position segs with [] => 0 | p :: rest => gap_loop p rest 0 end, Z.of_nat (length segs)).
Proof. unfold countWALGaps. by destruct (omap parse_segment names). Qed.

(** The WAL scrub counts exactly the missing segments.  For a listing of
    16 MiB segments (in any order, with duplicates and other objects among
    them) it reports how many segment objects of the highest timeline are
    listed, and as gaps the number of segment numbers between the lowest and
    the highest of them that are absent. *)
Theorem wal_gaps_spec names :
  let segs := segs_of (omap parse_segment names) in
  Forall (λ x, x.2 ≤ 0xFF) segs →
  let ps := map position segs in
  (countWALGaps names).2 = Z.of_nat (length ps) ∧
  (ps = [] → (countWALGaps names).1 = 0) ∧
  ∀ lo hi, lo ∈ ps → hi ∈ ps → Forall (λ x, lo ≤ x ≤ hi) ps → (countWALGaps names).1 = missing ps lo hi.
Proof.
  intros segs Hseg ps. rewrite countWALGaps_eq. cbv zeta. fold segs.
  assert (Forall (λ x, (0 ≤ x.1 < 2 ^ 32 ∧ 0 ≤ x.2 < 2 ^ 32) ∧ x.2 ≤ 0xFF) (sort_slice segLess segs)) as Hr.
  { rewrite (sort_slice_perm segLess). rewrite Forall_forall in *. intros x Hx. split; [|by apply Hseg].
    by apply (segs_of_range names). }
  pose proof (sorted_positions _ Hr (sort_slice_sorted segLess segs)) as Hsort.
  assert (map position (sort_slice segLess segs) ≡ₚ ps) as Hperm by (unfold ps; by rewrite (sort_slice_perm segLess)).
  assert (Forall (λ p, 0 ≤ p < 2 ^ 41) (map position (sort_slice segLess segs))) as Hb.
  { apply Forall_map. eapply Forall_impl; [exact Hr|]. intros x [[? ?] ?]. unfold position. rewrite u64_small; lia. }
  simpl. split_and!.
  - by rewrite <- (length_map position), Hperm.
  - intros E. rewrite E in Hperm. by apply Permutation_nil_r in Hperm as ->.
  - intros lo hi Hlo Hhi Hbnd. destruct (map position (sort_slice segLess segs)) as [|p rest] eqn:Em.
    { apply Permutation_nil_l in Hperm. rewrite <- Hperm in Hlo. by apply not_elem_of_nil in Hlo. }
    destruct (last (p :: rest)) as [h|] eqn:El; [|by apply last_None in El].
    destruct (head_last_bounds _ p h Hsort eq_refl El) as (Hin & Hp & Hh).
    rewrite Hperm in Hp, Hh. rewrite Hperm in Hin. rewrite Forall_forall in Hin, Hbnd.
    assert (p = lo) as -> by (pose proof (Hin lo Hlo); pose proof (Hbnd p Hp); lia).
    assert (h = hi) as -> by (pose proof (Hin hi Hhi); pose proof (Hbnd h Hh); lia).
    apply Forall_cons in Hb as Hb'. destruct Hb' as [? _].
    assert (hi < 2 ^ 41) by (rewrite Forall_forall in Hb; apply Hb; by apply last_Some_elem_of).
    rewrite (gap_loop_missing lo rest hi 0) by (done || lia). rewrite Z.add_0_l. unfold missing. do 2 f_equal.
    apply filter_ext_in. intros x _. by rewrite Hperm.
Qed.

Definition w_wals : list string :=
  ["000000020000000A000000FE"; "00000002.history"; "000000020000000B00000001"; "000000010000000000000001";
   "000000020000000A000000FE"; "000000020000000B00000002.partial-4096"; "000000020000000B00000003"].

Lemma wal_gaps_spec_witness :
  countWALGaps w_wals = (3, 4) ∧
  let ps := map position (segs_of (omap parse_segment w_wals)) in
  (countWALGaps w_wals).2 = Z.of_nat (length ps) ∧
  (ps = [] → (countWALGaps w_wals).1 = 0) ∧
  ∀ lo hi, lo ∈ ps → hi ∈ ps → Forall (λ x, lo ≤ x ≤ hi) ps → (countWALGaps w_wals).1 = missing ps lo hi.
Proof.
  split; [vm_compute; reflexivity|]. apply (wal_gaps_spec w_wals).
  change (segs_of (omap parse_segment w_wals)) with [(10, 254); (11, 1); (10, 254); (11, 3)].
  repeat constructor; simpl; lia.
Defined.

(** ** Partial uploads *)

(** [q] is at least as good as [p]: a higher generation, or as high and no shorter. *)
Definition at_least (q p : pinfo) : Prop := p_gen p < p_gen q ∨ p_gen p = p_gen q ∧ p_off p ≤ p_off q.

Lemma better_than_spec p q : better_than p q = false ↔ at_least q p.
Proof.
  unfold better_than, at_least. rewrite orb_false_iff, andb_false_iff, !Z.ltb_ge, Z.eqb_neq. lia.
Qed.
Lemma better_at_least p q : better_than p q = true → at_least p q.
Proof. unfold better_than, at_least. rewrite orb_true_iff, andb_true_iff, !Z.ltb_lt, Z.eqb_eq. lia. Qed.
Lemma at_least_trans a b c : at_least a b → at_least b c → at_least a c.
Proof. unfold at_least. lia. Qed.
Lemma at_least_refl a : at_least a a.
Proof. unfold at_least. lia. Qed.

Lemma best_from_spec best b i ps :
  ∃ e, (best_from best b i ps = best ∧ e = b ∨ ∃ j, best_from best b i ps = (i + j)%nat ∧ ps !! j = Some e) ∧
       at_least e b ∧ ∀ j p, ps !! j = Some p → at_least e p.
Proof.
  revert best b i. induction ps as [|p ps IH]; intros best b i; simpl.
  - exists b. split_and!; [by left | apply at_least_refl | done].
  - destruct (better_than p b) eqn:E.
    + destruct (IH i p (S i)) as (e & He & Hep & Hall). exists e. apply better_at_least in E.
      split_and!; [right | by eapply at_least_trans | intros [|j] q; simpl; [by intros [= <-] | apply Hall]].
      destruct He as [[-> ->]|(j & -> & Hj)]; [exists 0%nat; split; [lia|done] | exists (S j); split; [lia|done]].
    + destruct (IH best b (S i)) as (e & He & Hep & Hall). exists e. apply better_than_spec in E.
      split_and!; [|done | intros [|j] q; simpl; [intros [= <-]; by eapply at_least_trans | apply Hall]].
      destruct He as [?|(j & -> & Hj)]; [by left | right; exists (S j); split; [lia|done]].
Qed.

Lemma best_of_spec ps :
  ps ≠ [] → ∃ e, ps !! best_of ps = Some e ∧ ∀ p, p ∈ ps → at_least e p.
Proof.
  destruct ps as [|p ps]; [done|]. intros _. unfold best_of. destruct (best_from_spec 0 p 1 ps) as (e & He & Hp & Hall).
  exists e. split; [destruct He as [[-> ->]|(j & -> & Hj)]; done|].
  intros q [->|(j & Hj)%list_elem_of_lookup]%elem_of_cons; [done | by eapply Hall].
Qed.

Lemma drop_index_spec k ps p : p ∈ drop_index k ps ↔ ∃ j, j ≠ k ∧ ps !! j = Some p.
Proof.
  unfold drop_index. rewrite elem_of_app, !list_elem_of_lookup. split.
  - intros [[j Hj]|[j Hj]].
    + apply lookup_take_Some in Hj as [Hj Hlt]. exists j. split; [lia|done].
    + rewrite lookup_drop in Hj. exists (k + 1 + j)%nat. split; [lia|done].
  - intros (j & Hne & Hj). destruct (decide (j < k)%nat).
    + left. exists j. by apply lookup_take_Some.
    + right. exists (j - k - 1)%nat. rewrite lookup_drop. by replace (k + 1 + (j - k - 1))%nat with j by lia.
Qed.

Lemma partials_of_spec names p :
  p ∈ partials_of names → p_name p ∈ names ∧ ∃ i, partial_at (p_name p) = Some i ∧ parse_partial (p_name p) i = Some p.
Proof.
  unfold partials_of. rewrite list_elem_of_omap. intros (n & Hn & Hp).
  destruct (partial_at n) as [i|] eqn:Ei; [|done].
  assert (p_name p = n) as En.
  { unfold parse_partial in Hp. destruct (match String.index 0 "-g" _ with Some _ => _ | None => _ end) as [g r].
    destruct (ParseInt r) as [o e]. destruct (e || (o <=? 0)); [done|]. by injection Hp as <-. }
  rewrite En. eauto.
Qed.

Lemma partial_unique names p q : p ∈ partials_of names → q ∈ partials_of names → p_name p = p_name q → p = q.
Proof.
  intros (_ & i & Hi & Hp)%partials_of_spec (_ & j & Hj & Hq)%partials_of_spec E.
  rewrite E in Hi, Hp. congruence.
Qed.

Lemma partials_nodup names : NoDup names → NoDup (map p_name (partials_of names)).
Proof.
  induction 1 as [|n names Hn _ IH]; [constructor|]. unfold partials_of in *. cbn [omap list_omap].
  destruct (match partial_at n with Some _ => _ | None => _ end) as [p|] eqn:E; [|done].
  cbn [map]. constructor; [|done]. change (map p_name ?l) with (p_name <$> l). rewrite list_elem_of_fmap.
  intros (q & Eq & Hq). assert (p ∈ partials_of (n :: names)) as Hp.
  { unfold partials_of. cbn [omap list_omap]. rewrite E. by left. }
  assert (p_name p = n) as En.
  { destruct (partial_at n) as [i|]; [|done]. unfold parse_partial in E.
    destruct (match String.index 0 "-g" _ with Some _ => _ | None => _ end) as [g r].
    destruct (ParseInt r) as [o e]. destruct (e || (o <=? 0)); [done|]. by injection E as <-. }
  apply (partials_of_spec names) in Hq as [Hq _]. rewrite <- Eq, En in Hq. done.
Qed.

Definition group (names : list string) (seg : string) : list pinfo := filter (λ p, p_seg p = seg) (partials_of names).

Lemma group_spec names seg p : p ∈ group names seg ↔ p ∈ partials_of names ∧ p_seg p = seg.
Proof. unfold group. rewrite list_elem_of_filter. tauto. Qed.

Lemma select_spec names n :
  n ∈ selectPartialsToDelete names ↔
  ∃ p, p ∈ partials_of names ∧ p_name p = n ∧ n ∈ superseded (fulls_of names) (p_seg p) (group names (p_seg p)).
Proof.
  unfold selectPartialsToDelete. rewrite (sort_slice_perm string_ltb), list_elem_of_bind.
  setoid_rewrite elem_of_remove_dups. change (map ?f ?l) with (f <$> l). split.
  - intros (seg & Hn & (p0 & -> & _)%list_elem_of_fmap). fold (group names (p_seg p0)) in Hn. pose proof Hn as Hn'.
    unfold superseded in Hn'. case_bool_decide; change (map p_name ?l) with (p_name <$> l) in Hn';
      apply list_elem_of_fmap in Hn' as (p & -> & Hp).
    + apply group_spec in Hp as [Hp E]. exists p. by rewrite E.
    + apply drop_index_spec in Hp as (j & _ & Hj). apply list_elem_of_lookup_2, group_spec in Hj as [Hp E]. exists p. by rewrite E.
  - intros (p & Hp & <- & Hn). exists (p_seg p). split; [exact Hn|]. apply list_elem_of_fmap. by exists p.
Qed.

Lemma group_nodup names seg j k p q :
  NoDup names → group names seg !! j = Some p → group names seg !! k = Some q → p_name p = p_name q → j = k.
Proof.
  intros Hnd Hj Hk E. assert (NoDup (p_name <$> group names seg)) as Hn.
  { unfold group. pose proof (partials_nodup names Hnd) as H. revert H. change (map ?f ?l) with (f <$> l).
    induction (partials_of names) as [|x l IH]; [done|]. cbn [fmap list_fmap]. intros [Hx Hl]%NoDup_cons.
    rewrite filter_cons. case_decide; [|by apply IH]. cbn [fmap list_fmap]. constructor; [|by apply IH].
    intros Hin. apply Hx. apply list_elem_of_fmap in Hin as (y & -> & [_ Hy]%list_elem_of_filter).
    apply list_elem_of_fmap. by exists y. }
  eapply (NoDup_lookup _ j k); [exact Hn | rewrite list_lookup_fmap, Hj; simpl; by rewrite E | by rewrite list_lookup_fmap, Hk].
Qed.

Lemma partials_kept names :
  NoDup names →
  let del := selectPartialsToDelete names in
  (∀ n, n ∈ del → ∃ p, p ∈ partials_of names ∧ p_name p = n ∧
     (p_seg p ∈ fulls_of names ∨
      ∃ q, q ∈ partials_of names ∧ p_seg q = p_seg p ∧ at_least q p ∧ p_name q ∉ del)) ∧
  (∀ p, p ∈ partials_of names → p_seg p ∈ fulls_of names → p_name p ∈ del) ∧
  (∀ p, p ∈ partials_of names → p_seg p ∉ fulls_of names →
     ∃ q, q ∈ partials_of names ∧ p_seg q = p_seg p ∧
       ∀ r, r ∈ partials_of names → p_seg r = p_seg p → p_name r ∉ del ↔ r = q).
Proof.
  intros Hnd del.
  assert (∀ p, p ∈ partials_of names → p_seg p ∉ fulls_of names → ∃ q, q ∈ partials_of names ∧ p_seg q = p_seg p ∧
    (∀ r, r ∈ partials_of names → p_seg r = p_seg p → at_least q r) ∧
    ∀ r, r ∈ partials_of names → p_seg r = p_seg p → p_name r ∉ del ↔ r = q) as Hbest.
  { intros p Hp Hf. set (g := group names (p_seg p)).
    assert (p ∈ g) as Hpg by by apply group_spec.
    destruct (best_of_spec g) as (q & Hq & Hall); [by intros E; rewrite E in Hpg; apply not_elem_of_nil in Hpg|].
    pose proof (list_elem_of_lookup_2 _ _ _ Hq) as [Hqp Hqs]%group_spec. exists q. split_and!; [done..| |].
    - intros r Hr Es. apply Hall. by apply group_spec.
    - intros r Hr Es. unfold del. rewrite select_spec. split.
      + intros Hno. assert (r ∈ g) as (j & Hj)%list_elem_of_lookup by by apply group_spec.
        destruct (decide (j = best_of g)) as [->|Hne]; [congruence|]. destruct Hno. exists r. split_and!; [done..|].
        rewrite Es. unfold superseded. rewrite bool_decide_eq_false_2 by done. change (map ?f ?l) with (f <$> l).
        apply list_elem_of_fmap. exists r. split; [done|]. apply drop_index_spec. eauto.
      + intros -> (p' & Hp' & En & Hin). assert (p' = q) as -> by by apply (partial_unique names).
        rewrite Hqs in Hin. fold g in Hin. unfold superseded in Hin. rewrite bool_decide_eq_false_2 in Hin by done.
        change (map p_name ?l) with (p_name <$> l) in Hin.
        apply list_elem_of_fmap in Hin as (r & Er & (j & Hne & Hj)%drop_index_spec). apply Hne.
        by apply (group_nodup names (p_seg p) j (best_of g) r q). }
  split_and!.
  - intros n Hn. pose proof Hn as (p & Hp & <- & Hin)%select_spec. exists p. split_and!; [done..|].
    destruct (decide (p_seg p ∈ fulls_of names)) as [Hf|Hf]; [by left | right].
    destruct (Hbest p Hp Hf) as (q & Hq & Es & Hall & Hdel). exists q. split_and!; [done..|by apply Hall|].
    by apply Hdel.
  - intros p Hp Hf. apply select_spec. exists p. split_and!; [done..|]. unfold superseded.
    rewrite bool_decide_eq_true_2 by done. change (map ?f ?l) with (f <$> l). apply list_elem_of_fmap. exists p.
    split; [done|]. by apply group_spec.
  - intros p Hp Hf. destruct (Hbest p Hp Hf) as (q & Hq & Es & _ & Hdel). eauto.
Qed.

(** Deleting superseded partial uploads never loses WAL.  Of a listing
    without duplicates, every name chosen for deletion is a partial upload
    that either has its full segment in the archive or loses to another
    partial of its segment that stays and is at least as good (a higher
    generation, or as high and at least as long); every partial of an archived
    segment is chosen; and of the partials of any other segment exactly one
    stays. *)
Theorem partials_spec names :
  NoDup names →
  let del := selectPartialsToDelete names in
  (∀ n, n ∈ del → ∃ p, p ∈ partials_of names ∧ p_name p = n ∧
     (p_seg p ∈ fulls_of names ∨
      ∃ q, q ∈ partials_of names ∧ p_seg q = p_seg p ∧ at_least q p ∧ p_name q ∉ del)) ∧
  (∀ p, p ∈ partials_of names → p_seg p ∈ fulls_of names → p_name p ∈ del) ∧
  (∀ p, p ∈ partials_of names → p_seg p ∉ fulls_of names →
     ∃ q, q ∈ partials_of names ∧ p_seg q = p_seg p ∧
       ∀ r, r ∈ partials_of names → p_seg r = p_seg p → p_name r ∉ del ↔ r = q).
Proof. exact (partials_kept names). Qed.

Definition w_partials : list string :=
  ["000000010000000000000005.partial-8192-g2"; "000000010000000000000005.partial-16384"; "000000010000000000000004.partial-4096";
   "000000010000000000000004"; "000000010000000000000005.partial-4096-g2"; "000000010000000000000005.partial-x"].

Lemma partials_spec_witness :
  selectPartialsToDelete w_partials =
    ["000000010000000000000004.partial-4096"; "000000010000000000000005.partial-16384"; "000000010000000000000005.partial-4096-g2"] ∧
  ∀ p, p ∈ partials_of w_partials → p_seg p ∈ fulls_of w_partials → p_name p ∈ selectPartialsToDelete w_partials.
Proof.
  split; [vm_compute; reflexivity|]. apply (partials_spec w_partials).
  apply (bool_decide_eq_true_1 (NoDup w_partials)). vm_compute. reflexivity.
Defined.

(** ** Generations *)

Inductive gen_op := GSeed (id : string) | GBump (o : db_outcome) (id h : string).

(** The table, and the generations handed out, oldest first. *)
Fixpoint gen_run (ops : list gen_op) (t : gen_table) : gen_table * list (string * Z) :=
  match ops with
  | [] => (t, [])
  | GSeed id :: ops => gen_run ops (seedArchiveGeneration true id t)
  | GBump o id h :: ops =>
      let '(t, g) := bumpArchiveGeneration true o id h t in
      let '(t, out) := gen_run ops t in
      (t, match g with Some g => (id, g) :: out | None => out end)
  end.

Definition issued_to (id : string) (out : list (string * Z)) : list Z :=
  map snd (filter (λ x, x.1 = id) out).

Definition gen_of (id : string) (t : gen_table) : Z := match t !! id with Some r => generation r | None => 1 end.

Lemma bump_gen id h t n :
  (∀ i, 1 ≤ gen_of i t ≤ n) → n < 2 ^ 62 →
  (bump_row id h t).2 = gen_of id t + 1 ∧
  ∀ i, gen_of i (bump_row id h t).1 = if bool_decide (i = id) then gen_of id t + 1 else gen_of i t.
Proof.
  intros Hr Hn. unfold bump_row. cbn [fst snd]. unfold gen_of in *. specialize (Hr id).
  assert (match t !! id with Some r => i64 (generation r + 1) | None => 2 end = match t !! id with Some r => generation r | None => 1 end + 1) as E.
  { destruct (t !! id) as [r|]; [rewrite i64_small; lia | lia]. }
  split; [exact E|]. intros i. case_bool_decide as Hi.
  - subst. rewrite lookup_insert_eq. exact E.
  - by rewrite lookup_insert_ne.
Qed.

Arguments bump_row : simpl never.

Lemma seed_gen id t i : gen_of i (seedArchiveGeneration true id t) = gen_of i t.
Proof.
  unfold seedArchiveGeneration, gen_of. simpl. destruct (t !! id) as [r|] eqn:E; [done|].
  destruct (decide (i = id)) as [->|]; [by rewrite lookup_insert_eq, E | by rewrite lookup_insert_ne].
Qed.

Lemma gen_run_spec ops t n :
  (∀ i, 1 ≤ gen_of i t ≤ n) → n + Z.of_nat (length ops) < 2 ^ 62 →
  let '(t', out) := gen_run ops t in
  ∀ id, gen_of id t ≤ gen_of id t' ∧ StronglySorted Z.lt (issued_to id out) ∧
        Forall (λ g, gen_of id t < g ≤ gen_of id t') (issued_to id out).
Proof.
  revert t n. induction ops as [|op ops IH]; intros t n Hr Hn; simpl.
  - intros id. split_and!; [lia | constructor | constructor].
  - simpl in Hn. destruct op as [id0|o id0 h].
    + specialize (IH (seedArchiveGeneration true id0 t) n). destruct (gen_run ops _) as [t' out].
      intros id. destruct (IH ltac:(intros i; rewrite seed_gen; apply Hr) ltac:(lia) id) as (H1 & H2 & H3).
      rewrite seed_gen in H1, H3. done.
    + pose proof (bump_gen id0 h t n Hr ltac:(lia)) as [Hg Ht].
      assert (∀ i, 1 ≤ gen_of i (bump_row id0 h t).1 ≤ n + 1) as Hr'.
      { intros i. rewrite Ht. pose proof (Hr i). pose proof (Hr id0). case_bool_decide; lia. }
      assert (∀ i, gen_of i t ≤ gen_of i (bump_row id0 h t).1) as Hle.
      { intros i. rewrite Ht. case_bool_decide as E; [subst|]; lia. }
      unfold bumpArchiveGeneration. cbn [negb]. destruct o; cbv iota.
      * destruct (bump_row id0 h t) as [t1 g] eqn:Eb. cbn [fst snd] in *.
        specialize (IH t1 (n + 1) Hr' ltac:(lia)). destruct (gen_run ops t1) as [t' out]. intros id.
        destruct (IH id) as (H1 & H2 & H3). specialize (Hle id). split; [lia|].
        unfold issued_to in *. rewrite filter_cons. simpl. case_decide as E; simpl.
        -- subst id0. specialize (Ht id). rewrite bool_decide_eq_true_2 in Ht by done. split.
           ++ constructor; [done|]. eapply Forall_impl; [exact H3|]. intros x Hx. cbv beta in Hx. lia.
           ++ constructor; [lia|]. eapply Forall_impl; [exact H3|]. intros x Hx. cbv beta in Hx. lia.
        -- split; [done|]. eapply Forall_impl; [exact H3|]. intros x Hx. cbv beta in Hx. lia.
      * specialize (IH t n Hr ltac:(lia)). by destruct (gen_run ops t).
      * specialize (IH (bump_row id0 h t).1 (n + 1) Hr' ltac:(lia)). destruct (gen_run ops _) as [t' out]. intros id.
        destruct (IH id) as (H1 & H2 & H3). specialize (Hle id). split_and!; [lia | done|].
        eapply Forall_impl; [exact H3|]. intros x Hx. cbv beta in Hx. lia.
Qed.

Lemma gen_run_bound ops t n :
  (∀ i, 1 ≤ gen_of i t ≤ n) → n + Z.of_nat (length ops) < 2 ^ 62 →
  ∀ i, 1 ≤ gen_of i (gen_run ops t).1 ≤ n + Z.of_nat (length ops).
Proof.
  revert t n. induction ops as [|op ops IH]; intros t n Hr Hn i; cbn [gen_run length].
  - specialize (Hr i). cbn. lia.
  - cbn [length] in Hn. rewrite Nat2Z.inj_succ in *. destruct op as [id0|o id0 h].
    + specialize (IH _ n (λ i, eq_rect_r (λ z, 1 ≤ z ≤ n) (Hr i) (seed_gen id0 t i)) ltac:(lia) i). lia.
    + pose proof (bump_gen id0 h t n Hr ltac:(lia)) as [Hg Ht].
      assert (∀ i, 1 ≤ gen_of i (bump_row id0 h t).1 ≤ n + 1) as Hr'.
      { intros j. rewrite Ht. pose proof (Hr j). pose proof (Hr id0). case_bool_decide; lia. }
      unfold bumpArchiveGeneration. cbn [negb]. destruct o; cbv iota.
      * destruct (bump_row id0 h t) as [t1 g]. cbn [fst] in *. specialize (IH t1 (n + 1) Hr' ltac:(lia) i).
        destruct (gen_run ops t1). cbn [fst] in *. lia.
      * specialize (IH t n Hr ltac:(lia) i). destruct (gen_run ops t). cbn [fst] in *. lia.
      * specialize (IH _ (n + 1) Hr' ltac:(lia) i). destruct (gen_run ops _). cbn [fst] in *. lia.
Qed.

(** C15. Archive generations fence.  Over any history of creates and ownership
    changes, with statements that fail and commits whose answer is lost, the
    generations handed out for a database are strictly increasing, all of them
    above the generation 1 that an original host implies, and none above the
    one the table records. *)
Theorem generations_fence ops :
  Z.of_nat (length ops) < 2 ^ 61 →
  let '(t, out) := gen_run ops ∅ in
  ∀ id, StronglySorted Z.lt (issued_to id out) ∧ Forall (λ g, 1 < g ≤ gen_of id t) (issued_to id out).
Proof.
  intros Hn. assert (∀ i, 1 ≤ gen_of i ∅ ≤ 1) as H0 by (intros i; unfold gen_of; rewrite lookup_empty; lia).
  pose proof (gen_run_spec ops ∅ 1 H0 ltac:(lia)) as H. destruct (gen_run ops ∅) as [t out]. intros id.
  destruct (H id) as (_ & H1 & H2). split; [done|]. unfold gen_of at 1 in H2. rewrite lookup_empty in H2. exact H2.
Qed.

Lemma generations_fence_witness :
  let ops := [GSeed "d"; GBump Answered "d" "x"; GBump Lost "d" "y"; GSeed "d"; GBump Failed "d" "y"; GBump Answered "d" "y"; GBump Answered "old" "z"] in
  (gen_run ops ∅).2 = [("d", 2); ("d", 4); ("old", 2)] ∧
  let '(t, out) := gen_run ops ∅ in
  ∀ id, StronglySorted Z.lt (issued_to id out) ∧ Forall (λ g, 1 < g ≤ gen_of id t) (issued_to id out).
Proof. intros ops. split; [vm_compute; reflexivity|]. apply (generations_fence ops). simpl. lia. Defined.

(** ** Leases *)

(** While a lease runs, nothing but its holder's release ends it. *)
Lemma lease_protects now id h purpose ttl t now' :
  now' < now + ttl →
  (∀ id' h', ¬ (id = id' ∧ h = h') → archiveLeaseActive now' false id (releaseArchiveLease id' h' (acquireArchiveLease now id h purpose ttl t)) = true) ∧
  (∀ τ, τ ≤ now' → archiveLeaseActive now' false id (expireArchiveLeases τ (acquireArchiveLease now id h purpose ttl t)) = true) ∧
  ∀ f, archiveLeaseActive now' f id (acquireArchiveLease now id h purpose ttl t) = true.
Proof.
  intros Hn. assert ((now' <? now + ttl) = true) as Hlt by by apply Z.ltb_lt.
  unfold acquireArchiveLease, archiveLeaseActive, releaseArchiveLease, expireArchiveLeases. split_and!.
  - intros id' h' Hne. rewrite filter_cons_True by done. simpl. by rewrite String.eqb_refl, Hlt.
  - intros τ Hτ. rewrite filter_cons_True by (simpl; lia). simpl. by rewrite String.eqb_refl, Hlt.
  - intros []; simpl; [done|]. by rewrite String.eqb_refl, Hlt.
Qed.

(** ** The breaker *)

Inductive breaker_event := BSuccess | BFail (t : Z).

Definition breaker_run (es : list breaker_event) (b : loopBreaker) : loopBreaker :=
  foldl (λ b e, match e with BSuccess => Success b | BFail t => (Fail_ t b).1 end) b es.

(** The failures since the last success, newest first. *)
Definition streak (es : list breaker_event) : list Z :=
  foldl (λ l e, match e with BSuccess => [] | BFail t => t :: l end) [] es.

Lemma breaker_inv es tr pk :
  1 ≤ tr →
  let b := breaker_run es (newLoopBreaker tr pk) in
  trip b = tr ∧ park b = pk ∧ fails b = Z.of_nat (length (streak es)) ∧
  tripped b = (tr <=? Z.of_nat (length (streak es))) ∧
  parkedUntil b = if tr <=? Z.of_nat (length (streak es)) then (λ t, t + pk) <$> head (streak es) else None.
Proof.
  intros Ht. assert ((tr <=? 0) = false) as E0 by (apply Z.leb_gt; lia).
  induction es as [|e es IH] using rev_ind.
  - change (Z.of_nat (length (streak []))) with 0. rewrite E0. done.
  - unfold breaker_run, streak in *. rewrite !foldl_app. cbn -[Z.leb Z.of_nat].
    set (b := foldl _ (newLoopBreaker tr pk) es) in *. set (l := foldl _ [] es) in *.
    destruct IH as (H1 & H2 & H3 & H4 & H5). destruct e as [|t]; cbn -[Z.leb Z.of_nat].
    + rewrite H1, H2. change (Z.of_nat 0) with 0. by rewrite E0.
    + unfold Fail_. rewrite H1, H2, H3, H4, H5.
      destruct (Z.leb_spec tr (Z.of_nat (length l))), (Z.leb_spec tr (Z.of_nat (length l) + 1)),
        (Z.leb_spec tr (Z.of_nat (S (length l)))); simpl; split_and!; try done; lia.
Qed.

(** The loop breaker.  After any history of successes and failures the
    loop may run unless the failures since the last success have reached the
    trip count and the park time since the last of them is not over; and a
    failure raises the alert exactly when it is the trip'th in a row. *)
Theorem breaker_spec es tr pk t :
  1 ≤ tr →
  let b := breaker_run es (newLoopBreaker tr pk) in
  let k := Z.of_nat (length (streak es)) in
  (∀ now, Allow now b = (k <? tr) || (default 0 (head (streak es)) + pk <? now)) ∧
  (Fail_ t b).2 = (k + 1 =? tr).
Proof.
  intros Ht b k. destruct (breaker_inv es tr pk Ht) as (H1 & H2 & H3 & H4 & H5). fold b in H1, H2, H3, H4, H5. fold k in H3, H4, H5.
  split.
  - intros now. unfold Allow. rewrite H5. destruct (Z.leb_spec tr k), (Z.ltb_spec k tr); try lia.
    destruct (streak es) as [|t0 l]; [unfold k in *; simpl in *; lia|done].
  - unfold Fail_. rewrite H1, H3, H4.
    destruct (Z.leb_spec tr (k + 1)), (Z.leb_spec tr k), (Z.eqb_spec (k + 1) tr); simpl; lia || done.
Qed.

Lemma breaker_spec_witness :
  let es := [BFail 1; BSuccess; BFail 10; BFail 20; BFail 30] in
  let b := breaker_run es (newLoopBreaker 3 100) in
  Allow 130 b = false ∧
  (∀ now, Allow now b = (3 <? 3) || (30 + 100 <? now)) ∧ (Fail_ 40 b).2 = (3 + 1 =? 3).
Proof. intros es b. split; [vm_compute; reflexivity|]. apply (breaker_spec es 3 100 40). lia. Defined.
