(* ===== verification/WalSpool.v ===== *)
(** The spool of the WAL relay and its uploader, agent/internal/sandbox/wal_relay.go
    (ingest, runUploader, and the spool clean-up of partialOne): requests of the
    guests, the upload sweep and foreign writers of the bucket interleave one
    file-system operation at a time, the agent may be killed and the host may
    lose power at any point.

    The file system: names map to inodes, inodes to bytes.  [fsync] makes an
    inode's bytes survive a power loss; the names come back as any version
    since the journal was last committed. *)

From S2P Require Import Prelude Bytes GoStrings.

Open Scope string_scope.
Open Scope list_scope.
Open Scope Z_scope.

(** ** Names *)

Definition alnum (c : Ascii.ascii) : bool :=
  let n := code c in
  (48 <=? n) && (n <=? 57) || (65 <=? n) && (n <=? 90) || (97 <=? n) && (n <=? 122).
Definition name_char (c : Ascii.ascii) : bool :=
  alnum c || (code c =? 46) || (code c =? 95) || (code c =? 45).

(** [walNameRe]: ^[A-Za-z0-9][A-Za-z0-9._-]{0,127}$ *)
Definition walName (s : string) : bool :=
  match s with
  | EmptyString => false
  | String c r => alnum c && all_chars name_char r && (String.length r <=? 127)%nat
  end.

(** {id}/{kind}/{file} under the spool, and under gs://{bucket}/db/. *)
Abbreviation path := (string * string * string)%type (only parsing).

Definition dotted (p : path) : bool := has_prefix "." p.2.
Definition full (p : path) : bool := negb (str_contains ".partial-" p.2).

Definition walMaxSegmentBytes : Z := Z.shiftl 64 20.
Definition walMaxBaseBytes : Z := Z.shiftl 64 30.
Definition maxBytes (kind : string) : Z := if String.eqb kind "wal" then walMaxSegmentBytes else walMaxBaseBytes.

(** ** Files *)

Record disk := mkDisk {
  names : gmap path nat;
  older : list (gmap path nat);
  data : gmap nat (list byte);
  dirty : gset nat;
}.

Definition versions (d : disk) : list (gmap path nat) := names d :: older d.

Definition renamed (f : gmap path nat → gmap path nat) (d : disk) : disk :=
  {| names := f (names d); older := versions d; data := data d; dirty := dirty d |}.
Definition set_data (i : nat) (b : list byte) (d : disk) : disk :=
  {| names := names d; older := older d; data := <[i := b]> (data d); dirty := {[i]} ∪ dirty d |}.

(** [os.OpenFile(p, O_CREATE|O_TRUNC|O_WRONLY)] *)
Definition open_trunc (p : path) (d : disk) : nat * disk :=
  match names d !! p with
  | Some i => (i, set_data i [] d)
  | None => let i := fresh (dom (data d)) in (i, set_data i [] (renamed <[p := i]> d))
  end.

(** [pwrite]: a gap before the offset reads as zeros. *)
Definition pwrite (i off : nat) (b : list byte) (d : disk) : disk :=
  let old := default [] (data d !! i) in
  set_data i (write_at off b (old ++ replicate (off - length old) x00)) d.

Definition fsync (i : nat) (d : disk) : disk :=
  {| names := names d; older := older d; data := data d; dirty := dirty d ∖ {[i]} |}.
Definition rename (p q : path) (d : disk) : option disk :=
  match names d !! p with Some i => Some (renamed (λ n, <[q := i]> (delete p n)) d) | None => None end.
Definition remove (p : path) (d : disk) : disk := renamed (delete p) d.
Definition commit (d : disk) : disk := {| names := names d; older := []; data := data d; dirty := dirty d |}.

(** What a power loss may leave. *)
Definition survives (d d' : disk) : Prop :=
  names d' ∈ versions d ∧ older d' = [] ∧ dirty d' = ∅ ∧
  dom (data d') = dom (data d) ∧ ∀ i, i ∉ dirty d → data d' !! i = data d !! i.

(** ** The relay *)

Inductive pc := Copying | Synced | Renamed.
#[global] Instance pc_eq_dec : EqDecision pc.
Proof. solve_decision. Defined.

(** A request being ingested: the open temporary file, what was copied to it
    and what the body still holds. *)
Record handler := mkHandler {
  h_id : string; h_kind : string; h_name : string;
  h_fd : nat; h_done : list byte; h_rest : list byte; h_pc : pc;
}.
Definition h_body (h : handler) : list byte := h_done h ++ h_rest h.
Definition tmp_of (id kind name : string) : path := (id, kind, "." +:+ name +:+ ".tmp").
Definition h_tmp (h : handler) : path := tmp_of (h_id h) (h_kind h) (h_name h).
Definition h_final (h : handler) : path := (h_id h, h_kind h, h_name h).

(** [removing]: where the uploader stands between an upload and the removal of
    the local copy.  The last five fields are observations: the files
    acknowledged with 201 since the last journal commit and before it, the
    bodies put into place, what others wrote to the bucket, and the files whose
    failed upload was read as "already archived" with no such object there. *)
Record sys := mkSys {
  fs : disk;
  live : gmap nat handler;
  removing : option path;
  archive : gmap path (list byte);
  recent : list path;
  settled : list path;
  posted : list (path * list byte);
  foreign : list (path * list byte);
  misread : gset path;
}.

Definition with_fs (d : disk) (s : sys) : sys :=
  mkSys d (live s) (removing s) (archive s) (recent s) (settled s) (posted s) (foreign s) (misread s).
Definition with_live (l : gmap nat handler) (s : sys) : sys :=
  mkSys (fs s) l (removing s) (archive s) (recent s) (settled s) (posted s) (foreign s) (misread s).
Definition with_upload (r : option path) (a : gmap path (list byte)) (s : sys) : sys :=
  mkSys (fs s) (live s) r a (recent s) (settled s) (posted s) (foreign s) (misread s).
Definition log_acks (r st : list path) (s : sys) : sys :=
  mkSys (fs s) (live s) (removing s) (archive s) r st (posted s) (foreign s) (misread s).
Definition log_posted (p : list (path * list byte)) (s : sys) : sys :=
  mkSys (fs s) (live s) (removing s) (archive s) (recent s) (settled s) p (foreign s) (misread s).
Definition log_foreign (f : list (path * list byte)) (s : sys) : sys :=
  mkSys (fs s) (live s) (removing s) (archive s) (recent s) (settled s) (posted s) f (misread s).

Definition log_misread (m : gset path) (s : sys) : sys :=
  mkSys (fs s) (live s) (removing s) (archive s) (recent s) (settled s) (posted s) (foreign s) m.

(** The checks of [ingest]: [Err] is the status answered.  [token] is what
    [Token] derives for the id. *)
Definition ingest_gate (token : string → string) (volume : string → bool) (id name auth : string) : res Z () :=
  if negb (walName id) || negb (walName name) then Err 400
  else
    let tok := if has_prefix "Bearer " auth then str_drop 7 auth else auth in
    if negb (String.eqb tok (token id)) then Err 401
    else if negb (volume id) then Err 404
    else Ok ().

Definition ingest_open (hid : nat) (id kind name : string) (body : list byte) (s : sys) : sys :=
  let '(fd, d) := open_trunc (tmp_of id kind name) (fs s) in
  with_live (<[hid := mkHandler id kind name fd [] body Copying]> (live s)) (with_fs d s).

(** [io.Copy] moves the next [n] bytes. *)
Definition ingest_copy (hid : nat) (h : handler) (n : nat) (s : sys) : sys :=
  let b := take n (h_rest h) in
  with_live (<[hid := mkHandler (h_id h) (h_kind h) (h_name h) (h_fd h) (h_done h ++ b) (drop n (h_rest h)) Copying]> (live s))
    (with_fs (pwrite (h_fd h) (length (h_done h)) b (fs s)) s).

Definition at_pc (h : handler) (c : pc) : handler :=
  mkHandler (h_id h) (h_kind h) (h_name h) (h_fd h) (h_done h) (h_rest h) c.

Definition ingest_sync (hid : nat) (h : handler) (s : sys) : sys :=
  with_live (<[hid := at_pc h Synced]> (live s)) (with_fs (fsync (h_fd h) (fs s)) s).

Definition ingest_rename (hid : nat) (h : handler) (s : sys) : option sys :=
  match rename (h_tmp h) (h_final h) (fs s) with
  | Some d => Some (log_posted ((h_final h, h_body h) :: posted s)
                      (with_live (<[hid := at_pc h Renamed]> (live s)) (with_fs d s)))
  | None => None
  end.

(** [rw.WriteHeader(http.StatusCreated)] *)
Definition ingest_reply (hid : nat) (h : handler) (s : sys) : sys :=
  log_acks (h_final h :: recent s) (settled s) (with_live (delete hid (live s)) s).

(** [if err != nil { os.Remove(tmp) ... }] *)
Definition ingest_fail (hid : nat) (h : handler) (s : sys) : sys :=
  with_live (delete hid (live s)) (with_fs (remove (h_tmp h) (fs s)) s).

(** What one [gsutil cp] ended with. *)
Record answer := mkAnswer { a_ok : bool; a_out : string }.

Definition already_archived (out : string) : bool :=
  str_contains "412" out || str_contains "Precondition" out || str_contains "conditionNotMet" out.

(** The sweep goes on to remove the local copy. *)
Definition drops_local (a : answer) : bool := a_ok a || already_archived (a_out a).

Definition upload_done (p : path) (a : answer) (arch : gmap path (list byte)) (s : sys) : sys :=
  log_misread (if drops_local a && bool_decide (arch !! p = None) then {[p]} ∪ misread s else misread s)
    (with_upload (if drops_local a then Some p else None) arch s).
Definition upload_remove (p : path) (s : sys) : sys :=
  with_upload None (archive s) (with_fs (remove p (fs s)) s).

(** The clean-up of [partialOne]: names it removes after uploading [name]. *)
Definition superseded_local (seg name n : string) : bool :=
  negb (String.eqb n name) && has_prefix (seg +:+ ".partial-") n.

(** The bucket: what a create-only [gsutil cp] of [c] to [p] may do.  The laws
    are the documented behaviour of the precondition; nothing is supposed about
    what a command that fails prints. *)
Class Gsutil (cp : gmap path (list byte) → path → list byte → answer → gmap path (list byte) → Prop) := {
  cp_immutable a p c r a' q v : cp a p c r a' → a !! q = Some v → a' !! q = Some v;
  cp_new a p c r a' q v : cp a p c r a' → a' !! q = Some v → a !! q = Some v ∨ q = p ∧ v = c;
  cp_ok a p c r a' : cp a p c r a' → a_ok r = true → a' !! p = Some c;
}.

Definition init : sys := {|
  fs := {| names := ∅; older := []; data := ∅; dirty := ∅ |};
  live := ∅; removing := None; archive := ∅; recent := []; settled := []; posted := []; foreign := []; misread := ∅ |}.

Section Steps.
Variable token : string → string.
Variable volume : string → bool.
Variable cp : gmap path (list byte) → path → list byte → answer → gmap path (list byte) → Prop.
(** Whether a guest has at most one request per name in flight. *)
Variable one_per_name : bool.

Definition may_open (t : path) (s : sys) : Prop :=
  one_per_name = true → ∀ hid h, live s !! hid = Some h → h_tmp h ≠ t.

Inductive step (s : sys) : sys → Prop :=
  | SOpen hid id kind name auth body :
      live s !! hid = None → ingest_gate token volume id name auth = Ok () →
      kind = "wal" ∨ kind = "base" → may_open (tmp_of id kind name) s →
      step s (ingest_open hid id kind name body s)
  | SCopy hid h n :
      live s !! hid = Some h → h_pc h = Copying → step s (ingest_copy hid h n s)
  | SSync hid h :
      live s !! hid = Some h → h_pc h = Copying → h_rest h = [] →
      Z.of_nat (length (h_body h)) ≤ maxBytes (h_kind h) →
      step s (ingest_sync hid h s)
  | SRename hid h s' :
      live s !! hid = Some h → h_pc h = Synced → ingest_rename hid h s = Some s' → step s s'
  | SReply hid h :
      live s !! hid = Some h → h_pc h = Renamed → step s (ingest_reply hid h s)
  | SFail hid h :
      live s !! hid = Some h → h_pc h ≠ Renamed → step s (ingest_fail hid h s)
  | SUpload p i c a arch :
      removing s = None → names (fs s) !! p = Some i → data (fs s) !! i = Some c → dotted p = false →
      cp (archive s) p c a arch → step s (upload_done p a arch s)
  | SRemove p : removing s = Some p → step s (upload_remove p s)
  | SPartials id seg name n :
      walName seg = true → superseded_local seg name n = true →
      step s (with_fs (remove (id, "wal", n) (fs s)) s)
  | SForeign p c a arch :
      cp (archive s) p c a arch →
      step s (log_foreign ((p, c) :: foreign s) (with_upload (removing s) arch s))
  | SCommit : step s (log_acks [] (recent s ++ settled s) (with_fs (commit (fs s)) s))
  | SKill : step s (with_upload None (archive s) (with_live ∅ s))
  | SPowerLoss d :
      survives (fs s) d →
      step s (log_acks [] (settled s) (with_upload None (archive s) (with_live ∅ (with_fs d s)))).
End Steps.

(** ** The invariant *)

Lemma prefix_dot s : has_prefix "." ("." +:+ s) = true.
Proof. unfold has_prefix. cbn. by destruct s. Qed.

Lemma alnum_not_dot c r : alnum c = true → has_prefix "." (String c r) = false.
Proof.
  intros Ha. destruct (has_prefix _ _) eqn:E; [|done]. apply has_prefix_iff in E as [r' [= -> _]]. by vm_compute in Ha.
Qed.

Lemma walName_not_dotted s : walName s = true → has_prefix "." s = false.
Proof. destruct s as [|c r]; [done|]. cbn [walName]. rewrite !andb_true_iff. intros [[Ha _] _]. by apply alnum_not_dot. Qed.

Lemma tmp_of_inj id kind n id' kind' n' : tmp_of id kind n = tmp_of id' kind' n' → (id, kind, n) = (id', kind', n').
Proof.
  unfold tmp_of. intros [= -> -> E]. change (n +:+ ".tmp" = n' +:+ ".tmp") in E.
  by apply string_app_inj_r in E as ->.
Qed.

Lemma dotted_tmp h : dotted (h_tmp h) = true.
Proof. apply prefix_dot. Qed.

(** In the bucket, or taken to be. *)
Definition archived (s : sys) : gset path := dom (archive s) ∪ misread s.
(** There is a copy in the spool, or [a] has it. *)
Definition kept (v : gmap path nat) (a : gset path) (p : path) : Prop := is_Some (v !! p) ∨ p ∈ a.

Definition version_ok (s : sys) (v : gmap path nat) : Prop :=
  (∀ p q i, v !! p = Some i → v !! q = Some i → p = q) ∧
  (∀ p i, v !! p = Some i → is_Some (data (fs s) !! i)) ∧
  (∀ p i, v !! p = Some i → dotted p = false →
     (i ∉ dirty (fs s)) ∧ (∀ t, dotted t = true → names (fs s) !! t ≠ Some i) ∧
     ∃ c, data (fs s) !! i = Some c ∧ (p, c) ∈ posted s).

Definition handler_ok (s : sys) (h : handler) : Prop :=
  walName (h_name h) = true ∧
  match h_pc h with
  | Copying => names (fs s) !! h_tmp h = Some (h_fd h) ∧ data (fs s) !! h_fd h = Some (h_done h)
  | Synced => names (fs s) !! h_tmp h = Some (h_fd h) ∧ data (fs s) !! h_fd h = Some (h_body h) ∧ (h_fd h ∉ dirty (fs s))
  | Renamed => full (h_final h) = true → kept (names (fs s)) (archived s) (h_final h)
  end.

Record inv (s : sys) : Prop := {
  i_versions : Forall (version_ok s) (versions (fs s));
  i_live : map_Forall (λ _, handler_ok s) (live s);
  i_alone : ∀ a b h h', live s !! a = Some h → live s !! b = Some h' → h_tmp h = h_tmp h' → a = b;
  i_recent : ∀ p, p ∈ recent s → full p = true → kept (names (fs s)) (archived s) p;
  i_settled : ∀ p v, p ∈ settled s → full p = true → v ∈ versions (fs s) → kept v (archived s) p;
  i_removing : ∀ p, removing s = Some p → p ∈ archived s;
  i_final : ∀ p, p ∈ recent s ∨ p ∈ settled s → dotted p = false;
  i_archive : ∀ p c, archive s !! p = Some c → (p, c) ∈ posted s ∨ (p, c) ∈ foreign s;
}.

Lemma version_ok_sub s v v' : version_ok s v → v' ⊆ v → version_ok s v'.
Proof.
  intros (Hi & Hd & Hf) Hsub. split_and!.
  - intros p q i Hp Hq. eapply Hi; by eapply lookup_weaken.
  - intros p i Hp. eapply Hd. by eapply lookup_weaken.
  - intros p i Hp. eapply Hf. by eapply lookup_weaken.
Qed.

(** A step that writes only the inodes [X] and names no final file. *)
Lemma version_ok_keep (X : gset nat) s s' v :
  version_ok s v →
  (∀ i, i ∉ X → data (fs s') !! i = data (fs s) !! i) →
  (∀ i, i ∈ X → is_Some (data (fs s') !! i)) →
  dirty (fs s') ⊆ X ∪ dirty (fs s) →
  posted s ⊆ posted s' →
  (∀ p i, v !! p = Some i → dotted p = false → i ∉ X) →
  (∀ p i t, v !! p = Some i → dotted p = false → dotted t = true →
     names (fs s') !! t = Some i → names (fs s) !! t = Some i) →
  version_ok s' v.
Proof.
  intros (Hi & Hd & Hf) Hdata HX Hdirty Hpost Hfin Hnames. split_and!; [done| |].
  - intros p i Hp. destruct (decide (i ∈ X)); [by apply HX|]. rewrite Hdata by done. by eapply Hd.
  - intros p i Hp Hdot. destruct (Hf p i Hp Hdot) as (Hnd & Ht & c & Hc & Hin).
    pose proof (Hfin p i Hp Hdot) as HiX. split_and!.
    + intros [?|?]%Hdirty%elem_of_union; done.
    + intros t Ht' Hn. eapply (Ht t); [done|]. by eapply Hnames.
    + exists c. rewrite Hdata by done. split; [done|]. by apply Hpost.
Qed.

Lemma handler_ok_keep s s' h :
  handler_ok s h →
  names (fs s') !! h_tmp h = names (fs s) !! h_tmp h →
  (names (fs s) !! h_tmp h = Some (h_fd h) →
     data (fs s') !! h_fd h = data (fs s) !! h_fd h ∧ (h_fd h ∉ dirty (fs s) → h_fd h ∉ dirty (fs s'))) →
  (full (h_final h) = true → kept (names (fs s)) (archived s) (h_final h) → kept (names (fs s')) (archived s') (h_final h)) →
  handler_ok s' h.
Proof.
  intros [Hw H] Hn Hd Hk. split; [done|]. destruct (h_pc h).
  - destruct H as [H1 H2]. destruct (Hd H1) as [-> _]. by rewrite Hn.
  - destruct H as (H1 & H2 & H3). destruct (Hd H1) as [-> Hdi]. rewrite Hn. auto.
  - auto.
Qed.

Lemma final_not_dotted s h : handler_ok s h → dotted (h_final h) = false.
Proof. intros [? _]. by apply walName_not_dotted. Qed.

Lemma tmp_final h h' : h_tmp h = h_tmp h' ↔ h_final h = h_final h'.
Proof.
  split; [apply tmp_of_inj|]. unfold h_tmp, h_final, tmp_of. by intros [= -> -> ->].
Qed.

(** A final file never shares its inode with a temporary one. *)
Lemma final_off_tmp s v p i t j :
  version_ok s v → v !! p = Some i → dotted p = false → names (fs s) !! t = Some j → dotted t = true → i ≠ j.
Proof. intros (_ & _ & Hf) Hp Hd Ht Hdt ->. by destruct (Hf p j Hp Hd) as (_ & Hn & _); apply (Hn t). Qed.

Lemma kept_delete (v : gmap path nat) a p q : p ≠ q → kept v a p → kept (delete q v) a p.
Proof. intros Hne [?|?]; [left; by rewrite lookup_delete_ne | by right]. Qed.
Lemma kept_add (v : gmap path nat) a p q i : kept v a p → kept (<[q := i]> v) a p.
Proof. intros [?|?]; [left; by apply lookup_insert_is_Some'; right | by right]. Qed.
Lemma kept_archive (v : gmap path nat) a a' p : a ⊆ a' → kept v a p → kept v a' p.
Proof. intros Ha [?|Hc]; [by left | right; by apply Ha]. Qed.


Lemma versions_names s : inv s → version_ok s (names (fs s)).
Proof. intros H. pose proof (i_versions _ H) as Hv. by apply Forall_cons in Hv as [? _]. Qed.

(** Removing names, as the uploader and the failure paths do: what stays
    readable is the caller's business. *)
Lemma inv_remove s t :
  inv s →
  (∀ p, p = t → full p = true → p ∈ archived s ∨ dotted p = true) →
  (∀ a h, live s !! a = Some h → h_pc h ≠ Renamed → h_tmp h ≠ t) →
  inv (with_fs (remove t (fs s)) s).
Proof.
  intros I Ht Hl.
  assert (∀ p, full p = true → dotted p = false → kept (names (fs s)) (archived s) p → kept (delete t (names (fs s))) (archived s) p) as Hk.
  { intros p Hf Hd Hkp. destruct (decide (p = t)) as [->|Hne]; [|by apply kept_delete].
    destruct (Ht t eq_refl Hf) as [?|?]; [by right | congruence]. }
  assert (∀ v, version_ok s v → version_ok (with_fs (remove t (fs s)) s) v) as Hver.
  { intros v Hv. apply (version_ok_keep ∅ s); try done; [set_solver|].
    intros p i t' _ _ _ Hn. cbn in Hn. by apply lookup_delete_Some in Hn as [_ ?]. }
  destruct I as [Hv Hh Ha Hr Hs Hrm Hfin Har]. split; [..|done|done|done].
  - cbn. apply Forall_cons. split.
    + apply Hver. apply Forall_cons in Hv as [Hv _]. eapply version_ok_sub; [exact Hv|]. apply delete_subseteq.
    + eapply Forall_impl; [exact Hv | apply Hver].
  - intros a h Hlh. specialize (Hh a h Hlh). specialize (Hl a h Hlh).
    destruct (decide (h_pc h = Renamed)) as [E|E].
    + destruct Hh as [Hw Hh]. split; [done|]. rewrite E in *. intros Hf. apply Hk; [done|by apply walName_not_dotted|auto].
    + specialize (Hl E). apply (handler_ok_keep s); [done| | |].
      * cbn. by rewrite lookup_delete_ne.
      * cbn. auto.
      * intros Hf. apply Hk; [done|]. exact (final_not_dotted s h Hh).
  - exact Ha.
  - intros p Hp Hf. apply Hk; auto.
  - intros p v Hp Hf Hvv. cbn in Hvv. apply elem_of_cons in Hvv as [->|Hvv]; [|by apply Hs].
    apply Hk; [done|auto|]. apply Hs; [done..|left].
Qed.

Lemma open_trunc_spec t d fd d' :
  open_trunc t d = (fd, d') →
  (∀ v p i, v ∈ versions d → v !! p = Some i → is_Some (data d !! i)) →
  names d' = <[t := fd]> (names d) ∧ data d' = <[fd := []]> (data d) ∧ dirty d' = {[fd]} ∪ dirty d ∧
  (versions d' = versions d ∧ names d !! t = Some fd ∨
   versions d' = <[t := fd]> (names d) :: versions d ∧ ∀ v p, v ∈ versions d → v !! p ≠ Some fd).
Proof.
  unfold open_trunc. intros E Hdom. destruct (names d !! t) as [i|] eqn:En.
  - injection E as <- <-. cbn. rewrite insert_id by done. split_and!; [done..|by left].
  - set (i := fresh (dom (data d))) in *. injection E as <- <-. cbn. split_and!; [done..|]. right. split; [done|].
    intros v p Hv Hp. destruct (Hdom v p i Hv Hp) as [c Hc].
    apply (is_fresh (dom (data d))). fold i. by apply elem_of_dom_2 in Hc.
Qed.

Lemma version_dom s v p i : inv s → v ∈ versions (fs s) → v !! p = Some i → is_Some (data (fs s) !! i).
Proof. intros [Hv _ _ _ _ _ _ _] Hin. rewrite Forall_forall in Hv. by apply (Hv v Hin). Qed.

Lemma inv_open s hid id kind name body :
  inv s → live s !! hid = None → walName name = true →
  (∀ a h, live s !! a = Some h → h_tmp h ≠ tmp_of id kind name) →
  inv (ingest_open hid id kind name body s).
Proof.
  intros I Hnone Hname Hopen. unfold ingest_open. set (t := tmp_of id kind name) in *.
  destruct (open_trunc t (fs s)) as [fd d] eqn:E.
  destruct (open_trunc_spec _ _ _ _ E (λ v p i, version_dom s v p i I)) as (En & Ed & Edir & Hver). clear E.
  pose proof (versions_names s I) as Hnow. assert (dotted t = true) as Hdt by apply prefix_dot.
  destruct I as [Hv Hh Ha Hr Hs Hrm Hfin Har]. rewrite Forall_forall in Hv.
  set (s' := with_live _ _).
  assert (∀ v p i, v ∈ versions (fs s) → v !! p = Some i → dotted p = false → i ≠ fd) as Hoff.
  { intros v p i Hvv Hp Hd ->. destruct Hver as [[_ Ht]|[_ Hno]]; [|by apply (Hno v p)].
    by apply (final_off_tmp s v p fd t fd (Hv v Hvv) Hp Hd Ht Hdt). }
  assert (∀ v, v ∈ versions (fs s) → version_ok s' v) as Hold.
  { intros v Hvv. apply (version_ok_keep {[fd]} s); [by apply Hv|..].
    - intros i Hi. cbn. rewrite Ed, lookup_insert_ne; [done|]. set_solver.
    - intros i ->%elem_of_singleton. cbn. rewrite Ed, lookup_insert_eq. eauto.
    - cbn. by rewrite Edir.
    - done.
    - intros p i Hp Hd ->%elem_of_singleton. by apply (Hoff v p fd).
    - intros p i t' Hp Hd Hd' Hn. cbn in Hn. rewrite En in Hn.
      apply lookup_insert_Some in Hn as [[<- <-]|[_ ?]]; [|done]. by destruct (Hoff v p fd). }
  split.
  - cbn. destruct Hver as [[-> _]|[-> Hno]]; [by apply Forall_forall, Hold|].
    apply Forall_cons. split; [|by apply Forall_forall, Hold].
    destruct (Hold (names (fs s)) ltac:(left)) as (Hi & Hd & Hf). split_and!.
    + intros p q i [[<- <-]|[? Hp]]%lookup_insert_Some [[<- Hq']|[? Hq]]%lookup_insert_Some; [done| | |by eapply Hi].
      * by destruct (Hno (names (fs s)) q ltac:(left)).
      * subst. by destruct (Hno (names (fs s)) p ltac:(left)).
    + intros p i [[<- <-]|[_ Hp]]%lookup_insert_Some; [|by eapply Hd]. cbn. rewrite Ed, lookup_insert_eq. eauto.
    + intros p i [[<- <-]|[_ Hp]]%lookup_insert_Some Hdot; [congruence|]. by apply Hf.
  - intros a h Hah. cbn in Hah. apply lookup_insert_Some in Hah as [[<- <-]|[Hne Hah]].
    + split; [done|]. cbn. fold (h_tmp (mkHandler id kind name fd [] body Copying)). unfold h_tmp. cbn. fold t.
      rewrite En, Ed, !lookup_insert_eq. done.
    + pose proof (Hopen a h Hah) as Hne'. apply (handler_ok_keep s); [by apply (Hh a)|..].
      * cbn. by rewrite En, lookup_insert_ne.
      * intros Hn. cbn. assert (h_fd h ≠ fd) as Hfd.
        { intros Heq. destruct Hver as [[_ Ht]|[_ Hno]]; [|by apply (Hno (names (fs s)) (h_tmp h) ltac:(left)); rewrite Hn, Heq].
          destruct Hnow as (Hi & _). apply Hne'. apply (Hi _ _ fd); congruence. }
        rewrite Ed, Edir, lookup_insert_ne by done. split; [done|]. by intros ? [?%elem_of_singleton|?]%elem_of_union.
      * intros _ Hk. cbn. rewrite En. by apply kept_add.
  - intros a b h h' Hah Hbh Et. cbn in Hah, Hbh.
    apply lookup_insert_Some in Hah as [[<- <-]|[? Hah]]; apply lookup_insert_Some in Hbh as [[<- <-]|[? Hbh]].
    + done.
    + destruct (Hopen b h' Hbh). by rewrite <- Et.
    + destruct (Hopen a h Hah). by rewrite Et.
    + by eapply Ha.
  - intros p Hp Hf. cbn. rewrite En. apply kept_add. by apply Hr.
  - intros p v Hp Hf Hvv. cbn in Hvv. destruct Hver as [[Hve _]|[Hve _]]; rewrite Hve in Hvv; [by apply Hs|].
    apply elem_of_cons in Hvv as [->|Hvv]; [|by apply Hs]. apply kept_add, Hs; [done..|left].
  - done.
  - done.
  - done.
Qed.

(** A handler's open file is not a final file's, nor another handler's. *)
Lemma fd_off s hid h v p i :
  inv s → live s !! hid = Some h → h_pc h ≠ Renamed →
  v ∈ versions (fs s) → v !! p = Some i → dotted p = false → i ≠ h_fd h.
Proof.
  intros I Hl Hpc Hvv Hp Hd. pose proof (i_versions _ I) as Hv. rewrite Forall_forall in Hv.
  pose proof (i_live _ I hid h Hl) as [_ Hh]. apply (final_off_tmp s v p i (h_tmp h)); auto using dotted_tmp.
  by destruct (h_pc h); destruct Hh.
Qed.

Lemma fd_other s a b h h' :
  inv s → live s !! a = Some h → live s !! b = Some h' → a ≠ b → h_pc h ≠ Renamed →
  names (fs s) !! h_tmp h' = Some (h_fd h') → h_fd h' ≠ h_fd h.
Proof.
  intros I Hah Hbh Hne Hpc Hn Heq. destruct (versions_names s I) as (Hi & _).
  assert (names (fs s) !! h_tmp h = Some (h_fd h)) as Ht.
  { destruct (i_live _ I a h Hah) as [_ Hh]. by destruct (h_pc h); destruct Hh. }
  apply Hne. eapply (i_alone _ I); [done..|]. apply (Hi _ _ (h_fd h)); congruence.
Qed.

(** A handler that moves on by itself: the file it has open is the only thing
    written. *)
Lemma inv_advance s s' hid h h' :
  inv s → live s !! hid = Some h → h_pc h ≠ Renamed →
  live s' = <[hid := h']> (live s) → h_tmp h' = h_tmp h →
  names (fs s') = names (fs s) → older (fs s') = older (fs s) →
  (∀ i, i ≠ h_fd h → data (fs s') !! i = data (fs s) !! i) → is_Some (data (fs s') !! h_fd h) →
  dirty (fs s') ⊆ {[h_fd h]} ∪ dirty (fs s) →
  removing s' = removing s → archive s' = archive s → recent s' = recent s → settled s' = settled s →
  posted s' = posted s → foreign s' = foreign s → misread s' = misread s →
  handler_ok s' h' →
  inv s'.
Proof.
  intros I Hl Hpc El Et En Eo Hd Hfd Hdir Erm Ear Er Es Ep Ef Em Hok.
  pose proof I as [Hv Hh Ha Hr Hs Hrm Hfin Har].
  assert (versions (fs s') = versions (fs s)) as Ev by (unfold versions; congruence).
  assert (archived s' = archived s) as Eb by (unfold archived; congruence).
  split; rewrite ?Erm, ?Eb, ?Ear, ?Er, ?Es, ?Ep, ?Ef, ?En; try done.
  - rewrite Ev, Forall_forall in *. intros v Hvv. apply (version_ok_keep {[h_fd h]} s); [by apply Hv|..].
    + intros i Hi. apply Hd. intros ->. by apply Hi, elem_of_singleton.
    + by intros i ->%elem_of_singleton.
    + done.
    + by rewrite Ep.
    + intros p i Hp Hdot ->%elem_of_singleton. by eapply (fd_off s hid h v p).
    + intros p i t _ _ _. by rewrite En.
  - rewrite El. intros b g Hb. apply lookup_insert_Some in Hb as [[<- <-]|[Hne Hb]]; [done|].
    apply (handler_ok_keep s); [by apply (Hh b)|by rewrite En|..].
    + intros Hn. pose proof (fd_other s hid b h g I Hl Hb Hne Hpc Hn) as Hf. split; [by apply Hd|].
      intros ? [?%elem_of_singleton|?]%Hdir%elem_of_union; done.
    + intros _. by rewrite En, Eb.
  - rewrite El. intros a b g g' [[<- <-]|[? Hag]]%lookup_insert_Some [[<- <-]|[? Hbg]]%lookup_insert_Some Eg; [done|..].
    + eapply Ha; [done..|congruence].
    + eapply Ha; [done..|congruence].
    + by eapply Ha.
  - intros p v. rewrite Ev. apply Hs.
Qed.

Lemma inv_copy s hid h n :
  inv s → live s !! hid = Some h → h_pc h = Copying → inv (ingest_copy hid h n s).
Proof.
  intros I Hl Hpc. destruct (i_live _ I hid h Hl) as [Hw Hh]. rewrite Hpc in Hh. destruct Hh as [Hn Hd].
  eapply (inv_advance s _ hid h); try done; [congruence|..].
  - intros i Hi. cbn. by rewrite lookup_insert_ne.
  - cbn. rewrite lookup_insert_eq. eauto.
  - split; [done|]. cbn. split; [done|]. rewrite lookup_insert_eq, Hd. cbn. f_equal. unfold write_at.
    rewrite Nat.sub_diag, app_nil_r, take_ge, drop_ge, app_nil_r by lia. done.
Qed.

Lemma inv_sync s hid h :
  inv s → live s !! hid = Some h → h_pc h = Copying → h_rest h = [] → inv (ingest_sync hid h s).
Proof.
  intros I Hl Hpc Hrest. destruct (i_live _ I hid h Hl) as [Hw Hh]. rewrite Hpc in Hh. destruct Hh as [Hn Hd].
  eapply (inv_advance s _ hid h); try done; [congruence|..].
  - cbn. intros i [? _]%elem_of_difference. by apply elem_of_union_r.
  - split; [done|]. cbn. unfold h_body. cbn. rewrite Hrest, app_nil_r. split_and!; [done..|].
    by intros [_ []%not_elem_of_singleton]%elem_of_difference.
Qed.

Lemma inv_rename s hid h s' :
  inv s → live s !! hid = Some h → h_pc h = Synced → ingest_rename hid h s = Some s' → inv s'.
Proof.
  intros I Hl Hpc E. pose proof (i_live _ I hid h Hl) as Hok. pose proof Hok as [Hw Hh]. rewrite Hpc in Hh.
  destruct Hh as (Hn & Hd & Hdir). unfold ingest_rename, rename in E. rewrite Hn in E. injection E as <-. set (s' := log_posted _ _).
  pose proof (dotted_tmp h) as Hdt. pose proof (final_not_dotted _ _ Hok) as Hdf.
  assert (h_pc h ≠ Renamed) as Hpc' by congruence.
  assert (∀ v p i, v ∈ versions (fs s) → v !! p = Some i → dotted p = false → i ≠ h_fd h) as Hoff
    by eauto using fd_off.
  pose proof (versions_names s I) as (Hinj & Hdom & _).
  pose proof I as [Hv Hlive Ha Hr Hs Hrm Hfin Har]. rewrite Forall_forall in Hv.
  assert (∀ v, v ∈ versions (fs s) → version_ok s' v) as Hold.
  { intros v Hvv. apply (version_ok_keep ∅ s); [by apply Hv|done..|clear; set_solver| |done|].
    - cbn. clear; set_solver.
    - intros p i t Hp Hdp Hdt' Ht. cbn in Ht. apply lookup_insert_Some in Ht as [[<- _]|[_ Ht]]; [congruence|].
      by apply lookup_delete_Some in Ht as [_ ?]. }
  assert (∀ p, kept (names (fs s)) (archived s) p → dotted p = false → kept (<[h_final h:=h_fd h]> (delete (h_tmp h) (names (fs s)))) (archived s) p) as Hk.
  { intros p Hp Hdp. apply kept_add, kept_delete; [congruence|done]. }
  split; [..|done|done|].
  - cbn. apply Forall_cons. split; [|by apply Forall_forall, Hold]. unfold version_ok. cbn [names renamed]. split_and!.
    + intros p q i [[<- <-]|[Hp' Hp]]%lookup_insert_Some [[<- Hq]|[Hq' Hq]]%lookup_insert_Some; [done| | |].
      * apply lookup_delete_Some in Hq as [? Hq]. destruct (Hinj q (h_tmp h) (h_fd h) Hq Hn). done.
      * subst i. apply lookup_delete_Some in Hp as [? Hp]. destruct (Hinj p (h_tmp h) (h_fd h) Hp Hn). done.
      * apply lookup_delete_Some in Hp as [_ Hp], Hq as [_ Hq]. by eapply Hinj.
    + intros p i [[<- <-]|[_ Hp]]%lookup_insert_Some; [eauto|]. apply lookup_delete_Some in Hp as [_ Hp]. by eapply Hdom.
    + intros p i [[<- <-]|[Hne Hp]]%lookup_insert_Some Hdp.
      * split_and!; [done| |exists (h_body h); split; [done|left]].
        intros t Ht Ht'. cbn in Ht'. apply lookup_insert_Some in Ht' as [[<- _]|[_ Ht']]; [congruence|].
        apply lookup_delete_Some in Ht' as [Hne Ht']. by destruct (Hinj t (h_tmp h) (h_fd h) Ht' Hn).
      * apply lookup_delete_Some in Hp as [_ Hp]. by apply (Hold (names (fs s)) ltac:(left)).
  - intros b g Hb. cbn in Hb. apply lookup_insert_Some in Hb as [[<- <-]|[Hne Hb]].
    + split; [done|]. cbn. intros _. left. cbn. rewrite lookup_insert_eq. eauto.
    + assert (h_tmp g ≠ h_tmp h) as Hnt. { intros Et. apply Hne. symmetry. by eapply Ha. }
      assert (h_tmp g ≠ h_final h) as Hnf. { intros Et. pose proof (dotted_tmp g). congruence. }
      apply (handler_ok_keep s); [by apply (Hlive b)|..].
      * cbn. by rewrite lookup_insert_ne, lookup_delete_ne by done.
      * cbn. auto.
      * intros _ Hkp. apply Hk; [done|]. exact (final_not_dotted s g (Hlive b g Hb)).
  - cbn. intros a b g g' [[<- <-]|[? Hag]]%lookup_insert_Some [[<- <-]|[? Hbg]]%lookup_insert_Some Eg; [done|..].
    + eapply Ha; [exact Hl|exact Hbg|exact Eg].
    + eapply Ha; [exact Hag|exact Hl|exact Eg].
    + by eapply Ha.
  - intros p Hp Hf. apply Hk; [by apply Hr|]. apply Hfin. by left.
  - intros p v Hp Hf Hvv. cbn in Hvv. apply elem_of_cons in Hvv as [->|Hvv]; [|by apply Hs].
    apply Hk; [|apply Hfin; by right]. apply Hs; [done..|left].
  - intros p c Hp. destruct (Har p c Hp); [left; by right | by right].
Qed.

(** Steps that change neither files nor handlers. *)
Lemma inv_archive s r arch fo m :
  inv s → (∀ q v, archive s !! q = Some v → arch !! q = Some v) → misread s ⊆ m →
  (∀ p, r = Some p → p ∈ dom arch ∪ m) →
  (∀ p c, arch !! p = Some c → (p, c) ∈ posted s ∨ (p, c) ∈ fo) →
  inv (log_misread m (log_foreign fo (with_upload r arch s))).
Proof.
  intros [Hv Hh Ha Hr Hs Hrm Hfin Har] Himm Hm Hr' Hnew.
  assert (archived s ⊆ dom arch ∪ m) as Hsub.
  { apply union_mono; [|done]. intros q [v Hq]%elem_of_dom. apply elem_of_dom. eauto. }
  split; cbn; try done.
  - intros a h Hah. apply (handler_ok_keep s); [by apply (Hh a)|done..|]. intros _. by apply kept_archive.
  - intros p Hp Hf. eapply kept_archive; [exact Hsub|auto].
  - intros p v Hp Hf Hvv. eapply kept_archive; [exact Hsub|auto].
Qed.

(** Dropping handlers and forgetting what the uploader was doing. *)
Lemma inv_live s l r :
  inv s → l ⊆ live s → (r = removing s ∨ r = None) → inv (with_upload r (archive s) (with_live l s)).
Proof.
  intros [Hv Hh Ha Hr Hs Hrm Hfin Har] Hsub Hrr. split; cbn; try done.
  - intros a h Hah. apply (Hh a). by eapply lookup_weaken.
  - intros a b h h' Hah Hbh. eapply Ha; by eapply lookup_weaken.
  - intros p Hp. destruct Hrr as [->| ->]; [by apply Hrm|done].
Qed.

Lemma inv_reply s hid h :
  inv s → live s !! hid = Some h → h_pc h = Renamed → inv (ingest_reply hid h s).
Proof.
  intros I Hl Hpc. destruct (i_live _ I hid h Hl) as [Hw Hh]. rewrite Hpc in Hh.
  destruct (inv_live s (delete hid (live s)) (removing s) I (delete_subseteq _ _) ltac:(by left)) as [Hv Hlv Ha Hr Hs Hrm Hfin Har].
  split; cbn; try done.
  - intros p [->|Hp]%elem_of_cons Hf; [by apply Hh|by apply Hr].
  - intros p [[->|Hp]%elem_of_cons|Hp]; [by apply walName_not_dotted|by apply Hfin; left|by apply Hfin; right].
Qed.

Lemma inv_fail s hid h :
  inv s → live s !! hid = Some h → h_pc h ≠ Renamed → inv (ingest_fail hid h s).
Proof.
  intros I Hl Hpc.
  pose proof (inv_live s (delete hid (live s)) (removing s) I (delete_subseteq _ _) ltac:(by left)) as I'.
  apply (inv_remove _ (h_tmp h)) in I'; [exact I'|..].
  - intros p -> _. right. apply dotted_tmp.
  - cbn. intros a g [Hne Ha]%lookup_delete_Some _ E. apply Hne. symmetry. by eapply (i_alone _ I).
Qed.

Lemma inv_upload_remove s p :
  inv s → removing s = Some p → dotted p = false → inv (upload_remove p s).
Proof.
  intros I Hr Hd.
  assert (inv (with_fs (remove p (fs s)) s)) as I'.
  { apply inv_remove; [done|..].
    - intros q -> _. left. by apply (i_removing _ I).
    - intros a h Hl _ E. pose proof (dotted_tmp h). congruence. }
  pose proof (inv_live _ (live s) None I' ltac:(done) ltac:(by right)) as I2. exact I2.
Qed.

Lemma inv_commit s : inv s → inv (log_acks [] (recent s ++ settled s) (with_fs (commit (fs s)) s)).
Proof.
  intros I. pose proof I as [Hv Hh Ha Hr Hs Hrm Hfin Har]. split; cbn; try done.
  - apply Forall_cons in Hv as [Hv _]. constructor; [exact Hv|constructor].
  - by intros p ?%not_elem_of_nil.
  - intros p v [Hp|Hp]%elem_of_app Hf ->%list_elem_of_singleton; [by apply Hr|]. apply Hs; [done..|left].
  - intros p [?%not_elem_of_nil|[?|?]%elem_of_app]; [done|apply Hfin; by left|apply Hfin; by right].
Qed.

Lemma inv_power_loss s d :
  inv s → survives (fs s) d →
  inv (log_acks [] (settled s) (with_upload None (archive s) (with_live ∅ (with_fs d s)))).
Proof.
  intros [Hv Hh Ha Hr Hs Hrm Hfin Har] (Hin & Hold & Hdir & Hdom & Hdata). rewrite Forall_forall in Hv.
  destruct (Hv _ Hin) as (Hi & Hd & Hf). split; cbn; try done.
  - unfold versions. rewrite Hold. apply Forall_singleton. unfold version_ok. cbn. split_and!; [done|..].
    + intros p i Hp. apply elem_of_dom. rewrite Hdom. apply elem_of_dom. by eapply Hd.
    + intros p i Hp Hdp. destruct (Hf p i Hp Hdp) as (Hnd & _ & c & Hc & Hpc). split_and!.
      * rewrite Hdir. by apply not_elem_of_empty.
      * intros t Ht Ht'. pose proof (Hi p t i Hp Ht'). congruence.
      * exists c. by rewrite Hdata.
  - by intros p ?%not_elem_of_nil.
  - intros p v Hp Hfp Hvv. unfold versions in Hvv. rewrite Hold in Hvv. apply list_elem_of_singleton in Hvv as ->. by apply Hs.
  - intros p [?%not_elem_of_nil|?]; [done|apply Hfin; by right].
Qed.

Lemma superseded_is_partial seg name n id :
  walName seg = true → superseded_local seg name n = true →
  full (id, "wal", n) = false ∧ dotted (id, "wal", n) = false.
Proof.
  unfold superseded_local. intros Hseg [_ [r ->]%has_prefix_iff]%andb_true_iff. split.
  - unfold full. cbn [snd]. apply negb_false_iff. rewrite <- string_app_assoc. by apply str_contains_app.
  - unfold dotted. cbn [snd]. destruct seg as [|c seg]; [done|]. cbn [walName] in Hseg.
    rewrite !andb_true_iff in Hseg. destruct Hseg as [[Ha _] _]. by apply alnum_not_dot.
Qed.

(** ** The promise of the relay *)

(** What a reader gets: the spool first, then the bucket. *)
Definition fetch (s : sys) (p : path) : option (list byte) :=
  match names (fs s) !! p with Some i => data (fs s) !! i | None => archive s !! p end.

Section Promise.
Context (token : string → string) (volume : string → bool).
Context {cp : gmap path (list byte) → path → list byte → answer → gmap path (list byte) → Prop} `{!Gsutil cp}.

Lemma inv_upload s p i c a arch :
  inv s → names (fs s) !! p = Some i → data (fs s) !! i = Some c → dotted p = false →
  cp (archive s) p c a arch → inv (upload_done p a arch s).
Proof using All.
  intros I Hn Hd Hdot Hcp.
  destruct (versions_names s I) as (_ & _ & Hf). destruct (Hf p i Hn Hdot) as (_ & _ & c' & Hc' & Hpost).
  set (m := if drops_local a && bool_decide (arch !! p = None) then {[p]} ∪ misread s else misread s).
  apply (inv_archive s (if drops_local a then Some p else None) arch (foreign s) m I).
  - intros q v. by eapply cp_immutable.
  - unfold m. destruct (_ && _); [apply union_subseteq_r|done].
  - intros q. unfold m. destruct (drops_local a); [|done]. intros [= <-]. cbn. destruct (arch !! p) as [v|] eqn:E.
    + apply elem_of_union_l, elem_of_dom. by rewrite E.
    + rewrite bool_decide_eq_true_2 by done. apply elem_of_union_r, elem_of_union_l. by apply elem_of_singleton.
  - intros q v Hq. destruct (cp_new _ _ _ _ _ _ _ Hcp Hq) as [Ho|[-> ->]]; [by apply (i_archive _ I)|].
    left. congruence.
Qed.

(** What the uploader is about to remove is never a temporary file. *)
Definition removing_final (s : sys) : Prop := ∀ p, removing s = Some p → dotted p = false.

Lemma inv_step s s' : inv s ∧ removing_final s → step token volume cp true s s' → inv s' ∧ removing_final s'.
Proof using All.
  intros [I Hrf] Hstep. split.
  - destruct Hstep.
    + unfold may_open in *. apply inv_open; [done..| |by match goal with Ho : _ → ∀ _ _, _ |- _ => apply (Ho eq_refl) end]. unfold ingest_gate in *. destruct (walName name); [done|].
      by rewrite orb_true_r in *.
    + by apply inv_copy.
    + by apply inv_sync.
    + by eapply inv_rename.
    + by apply inv_reply.
    + by apply inv_fail.
    + by eapply inv_upload.
    + apply inv_upload_remove; auto.
    + edestruct (superseded_is_partial seg name n id) as [Hf Hd]; [done..|]. apply inv_remove; [done|..].
      * intros q -> Hq. congruence.
      * intros a h _ _ E. pose proof (dotted_tmp h). rewrite E, Hd in *. done.
    + apply (inv_archive s (removing s) arch ((p, c) :: foreign s) (misread s)); [done| |done|..].
      * intros q v. by eapply cp_immutable.
      * intros q [[v Hv]%elem_of_dom|?]%(i_removing _ I)%elem_of_union; [|by apply elem_of_union_r].
        apply elem_of_union_l, elem_of_dom. exists v. by eapply cp_immutable.
      * intros q v Hq. edestruct cp_new as [Ho|[-> ->]]; [done..| |right; left].
        destruct (i_archive _ I q v Ho); [by left | right; by right].
    + by apply inv_commit.
    + apply (inv_live s ∅ None I); [apply map_empty_subseteq | by right].
    + by apply inv_power_loss.
  - destruct Hstep; intros q Hq; cbn in Hq; try done; try (by apply Hrf).
    + unfold ingest_open in Hq. destruct (open_trunc _ _). by apply Hrf.
    + unfold ingest_rename in *. destruct (rename _ _ _); simplify_eq. by apply Hrf.
    + destruct (drops_local a); [by injection Hq as <-|done].
Qed.

Lemma inv_init : inv init ∧ removing_final init.
Proof using Type.
  split; [|done]. split; try done; try by intros ? ?.
  - constructor; [|constructor]. split_and!; by intros ? ?.
  - intros ? []%not_elem_of_nil.
  - by intros ? ? ?%not_elem_of_nil.
  - by intros ? [?%not_elem_of_nil|?%not_elem_of_nil].
Qed.

Lemma step_archive s s' b p c :
  step token volume cp b s s' → archive s !! p = Some c → archive s' !! p = Some c.
Proof using All.
  intros Hstep Hp. destruct Hstep; try done.
  - unfold ingest_open. by destruct (open_trunc _ _).
  - unfold ingest_rename in *. destruct (rename _ _ _); by simplify_eq.
  - by eapply cp_immutable.
  - by eapply cp_immutable.
Qed.

(** C7. Acknowledged WAL stays readable.  Guests post segments concurrently, the
    uploader and other writers of the bucket run among them, the agent is
    killed and the host loses power at any point: as long as no two requests
    for the same name are in flight, every full segment or base backup that was
    answered with 201 can be fetched from the spool or the bucket, unless the
    uploader took the output of a failed upload of it for "already archived" (it
    looks for "412" and two words anywhere in it) and no such object was there;
    what is fetched is a body posted in full under that name or an object someone
    else had put there first.  Only the files acknowledged since the last journal
    commit of the host are at the mercy of a power loss.  A bucket object never
    changes. *)
Theorem acknowledged_is_readable s s' p :
  rtc (step token volume cp true) init s → rtc (step token volume cp true) s s' →
  (p ∈ recent s' ∨ p ∈ settled s' → full p = true → p ∈ misread s' ∨
     ∃ c, fetch s' p = Some c ∧ ((p, c) ∈ posted s' ∨ (p, c) ∈ foreign s')) ∧
  (∀ c, archive s !! p = Some c → archive s' !! p = Some c).
Proof using All.
  intros H1 H2. split.
  - assert (inv s' ∧ removing_final s') as [I _].
    { apply (rtc_invariant (step token volume cp true) (λ s, inv s ∧ removing_final s) init);
        [eauto using inv_step | apply inv_init | by etransitivity]. }
    intros Hp Hf. assert (kept (names (fs s')) (archived s') p) as Hk.
    { destruct Hp as [Hp|Hp]; [by apply (i_recent _ I)|]. apply (i_settled _ I); [done..|left]. }
    unfold fetch. destruct (names (fs s') !! p) as [i|] eqn:En.
    + destruct (versions_names s' I) as (_ & _ & Hfin).
      destruct (Hfin p i En (i_final _ I p Hp)) as (_ & _ & c & Hc & Hpost). eauto 6.
    + destruct Hk as [[? ?]|[[c Hc]%elem_of_dom|Hm]%elem_of_union]; [congruence| |by left]. right. exists c. split; [done|]. by apply (i_archive _ I).
  - intros c Hc. induction H2 as [|s s1 s2 Hs _ IH]; [done|]. apply IH; [by eapply rtc_r|]. by eapply step_archive.
Qed.
End Promise.

(** ** Runs: an executable scheduler for the step relation *)

(** A create-only copy; [Some out]: the command failed with that output. *)
Definition bucket_cp (a : gmap path (list byte)) (p : path) (c : list byte) (fails : option string)
    : answer * gmap path (list byte) :=
  match fails with
  | Some out => ({| a_ok := false; a_out := out |}, a)
  | None =>
      match a !! p with
      | Some _ => ({| a_ok := false; a_out := "412 Precondition Failed" |}, a)
      | None => ({| a_ok := true; a_out := "" |}, <[p := c]> a)
      end
  end.

(** The copies whose failures print [out] with [P out]. *)
Definition bucket (P : string → Prop) (a : gmap path (list byte)) (p : path) (c : list byte) (r : answer)
    (a' : gmap path (list byte)) : Prop :=
  ∃ fails, (∀ out, fails = Some out → P out) ∧ bucket_cp a p c fails = (r, a').

Lemma bucket_gsutil P : Gsutil (bucket P).
Proof.
  assert (∀ a p c r a', bucket P a p c r a' →
    (a' = a ∧ a_ok r = false) ∨ (a !! p = None ∧ a' = <[p := c]> a ∧ r = {| a_ok := true; a_out := "" |})) as Hcases.
  { intros a p c r a' (fails & Hf & E). destruct fails as [out|]; cbn in E; [by injection E as <- <-; left|].
    destruct (a !! p) as [v|] eqn:Ep; injection E as <- <-; [by left|by right]. }
  split; intros a p c r a'; [intros q v|intros q v|]; intros Hb; destruct (Hcases _ _ _ _ _ Hb) as [(-> & Hok)|(Hn & -> & ->)]; cbn.
  - done.
  - intros Hq. destruct (decide (p = q)) as [->|?]; [congruence|]. by rewrite lookup_insert_ne.
  - by left.
  - intros [[-> ->]|[_ ?]]%lookup_insert_Some; [by right|by left].
  - congruence.
  - intros _. apply lookup_insert_eq.
Qed.

Inductive act :=
  | AOpen (hid : nat) (id kind name : string) (body : list byte)
  | ACopy (hid n : nat) | ASync (hid : nat) | ARename (hid : nat) | AReply (hid : nat) | AFail (hid : nat)
  | AUpload (p : path) (fails : option string) | ARemove | ACommit | AKill
  | APowerLoss (k : nat).

(** Tokens are the id itself, every database has its volume here. *)
Definition run_token (id : string) : string := id.
Definition run_volume (id : string) : bool := true.

Definition when (b : bool) (s : sys) : option sys := if b then Some s else None.

Definition exec (one_per_name : bool) (a : act) (s : sys) : option sys :=
  match a with
  | AOpen hid id kind name body =>
      when (bool_decide (live s !! hid = None) && walName id && walName name && (String.eqb kind "wal" || String.eqb kind "base") &&
            (negb one_per_name || bool_decide (map_Forall (λ _ h, h_tmp h ≠ tmp_of id kind name) (live s))))
        (ingest_open hid id kind name body s)
  | ACopy hid n => h ← live s !! hid; when (bool_decide (h_pc h = Copying)) (ingest_copy hid h n s)
  | ASync hid => h ← live s !! hid;
      when (bool_decide (h_pc h = Copying) && bool_decide (h_rest h = []) && (Z.of_nat (length (h_body h)) <=? maxBytes (h_kind h)))
        (ingest_sync hid h s)
  | ARename hid => h ← live s !! hid; if bool_decide (h_pc h = Synced) then ingest_rename hid h s else None
  | AReply hid => h ← live s !! hid; when (bool_decide (h_pc h = Renamed)) (ingest_reply hid h s)
  | AFail hid => h ← live s !! hid; when (bool_decide (h_pc h ≠ Renamed)) (ingest_fail hid h s)
  | AUpload p fails =>
      i ← names (fs s) !! p; c ← data (fs s) !! i;
      let '(r, arch) := bucket_cp (archive s) p c fails in
      when (bool_decide (removing s = None) && negb (dotted p)) (upload_done p r arch s)
  | ARemove => p ← removing s; Some (upload_remove p s)
  | ACommit => Some (log_acks [] (recent s ++ settled s) (with_fs (commit (fs s)) s))
  | AKill => Some (with_upload None (archive s) (with_live ∅ s))
  | APowerLoss k =>
      v ← versions (fs s) !! k;
      Some (log_acks [] (settled s) (with_upload None (archive s) (with_live ∅
        (with_fs {| names := v; older := []; data := data (fs s); dirty := ∅ |} s))))
  end.

Fixpoint run (one_per_name : bool) (l : list act) (s : sys) : option sys :=
  match l with [] => Some s | a :: l => s' ← exec one_per_name a s; run one_per_name l s' end.

(** The outputs of the failing commands of a run. *)
Definition outputs (l : list act) : list string := omap (λ a, match a with AUpload _ f => f | _ => None end) l.

Lemma gate_passes id name :
  walName id = true → walName name = true → ingest_gate run_token run_volume id name ("Bearer " +:+ id) = Ok ().
Proof.
  intros H1 H2. unfold ingest_gate. rewrite H1, H2. cbn [negb orb].
  assert (has_prefix "Bearer " ("Bearer " +:+ id) = true) as -> by (apply has_prefix_iff; eauto).
  assert (str_drop 7 ("Bearer " +:+ id) = id) as ->; [|by rewrite String.eqb_refl].
  unfold str_drop. change (String.substring 0 (String.length id - 0) id = id). rewrite Nat.sub_0_r.
  clear. induction id as [|c id IH]; [done|]. exact (f_equal (String c) IH).
Qed.

Lemma when_Some b s s' : when b s = Some s' → b = true ∧ s' = s.
Proof. unfold when. destruct b; [|done]. by intros [= ->]. Qed.

Lemma exec_sound (P : string → Prop) b a s s' :
  exec b a s = Some s' → (∀ p out, a = AUpload p (Some out) → P out) →
  step run_token run_volume (bucket P) b s s'.
Proof.
  destruct a as [hid id kind name body|hid n|hid|hid|hid|hid|p f| | | |k]; cbn [exec]; intros E HP;
    try (apply bind_Some in E as (h & Hl & E)); try (apply when_Some in E as [Hb ->]; rewrite ?andb_true_iff in Hb).
  - destruct Hb as [[[[Hn%bool_decide_eq_true Hid] Hname] Hk%orb_true_iff] Ho].
    eapply SOpen; [done|by apply (gate_passes id name)| |].
    + by destruct Hk as [->%String.eqb_eq| ->%String.eqb_eq]; [left|right].
    + intros -> a h Hl. apply orb_true_iff in Ho as [?|Ho%bool_decide_eq_true]; [done|]. by apply (Ho a).
  - apply bool_decide_eq_true in Hb. by apply SCopy.
  - destruct Hb as [[H1%bool_decide_eq_true H2%bool_decide_eq_true] H3%Z.leb_le]. by apply SSync.
  - destruct (bool_decide_reflect (h_pc h = Synced)); [|done]. by eapply SRename.
  - apply bool_decide_eq_true in Hb. by apply SReply.
  - apply bool_decide_eq_true in Hb. by apply SFail.
  - apply bind_Some in E as (c & Hc & E). destruct (bucket_cp (archive s) p c f) as [r arch] eqn:Ecp.
    apply when_Some in E as [Hb ->]. rewrite andb_true_iff, negb_true_iff in Hb. destruct Hb as [Hr%bool_decide_eq_true Hd].
    eapply SUpload; [done..|]. exists f. split; [|done]. intros out ->. by eapply HP.
  - injection E as <-. by apply SRemove.
  - injection E as <-. apply SCommit.
  - injection E as <-. apply SKill.
  - injection E as <-. apply SPowerLoss. split_and!; [|done..]. by apply list_elem_of_lookup_2 in Hl.
Qed.

Lemma run_sound (P : string → Prop) b l s s' :
  run b l s = Some s' → Forall P (outputs l) → rtc (step run_token run_volume (bucket P) b) s s'.
Proof.
  revert s. induction l as [|a l IH]; intros s E HP; cbn [run] in E; [by injection E as ->|].
  apply bind_Some in E as (s1 & E1 & E). unfold outputs in HP. cbn [omap list_omap] in HP.
  eapply rtc_l; [eapply exec_sound; [exact E1|]|apply IH; [done|]].
  - intros p out ->. by apply Forall_cons in HP as [? _].
  - destruct a; try done. destruct fails; [by apply Forall_cons in HP as [_ ?]|done].
Qed.

Definition no_failure (out : string) : Prop := False.
Definition w_seg : string := "000000010000000000000041".
Definition w_p : path := ("db-7", "wal", w_seg).
Definition w_body : list byte := [x01; x02; x03].
Definition w_ingest (hid : nat) : list act := [AOpen hid "db-7" "wal" w_seg w_body; ACopy hid 3; ASync hid; ARename hid; AReply hid].

(** Two databases, a failed upload, a kill between upload and removal, and a
    power loss that forgets the latest names. *)
Definition w_run : list act :=
  [AOpen 1 "db-8" "base" "base-1.tar.gz" [x09]; AOpen 0 "db-7" "wal" w_seg w_body; ACopy 0 2; ACopy 1 1; ACopy 0 5;
   ASync 0; ARename 0; AReply 0; ACommit; AUpload w_p (Some "timeout"); AUpload w_p None; AKill;
   AUpload w_p None; ARemove; APowerLoss 1].

Definition only_timeouts (out : string) : Prop := out = "timeout".

Lemma acknowledged_is_readable_witness :
  ∃ s, run true w_run init = Some s ∧ names (fs s) !! w_p = Some 1%nat ∧ misread s = ∅ ∧
    (w_p ∈ misread s ∨ ∃ c, fetch s w_p = Some c ∧ ((w_p, c) ∈ posted s ∨ (w_p, c) ∈ foreign s)).
Proof.
  destruct (run true w_run init) as [s|] eqn:E; [|exfalso; vm_compute in E; discriminate E].
  exists s. split; [done|].
  assert (names (fs s) !! w_p = Some 1%nat ∧ w_p ∈ settled s ∧ misread s = ∅) as (Hn & Hs & Hm).
  { assert (run true w_run init ≫= (λ s, Some (names (fs s) !! w_p, settled s, misread s)) = Some (Some 1%nat, [w_p], ∅)) as E' by (vm_compute; reflexivity).
    rewrite E in E'. cbn in E'. injection E' as -> -> ->. split_and!; [done|left|done]. }
  split; [done|]. split; [done|].
  apply (@acknowledged_is_readable run_token run_volume (bucket only_timeouts) (bucket_gsutil only_timeouts) init s w_p).
  - apply rtc_refl.
  - apply (run_sound only_timeouts true w_run); [done|]. by repeat constructor.
  - by right.
  - vm_compute. reflexivity.
Defined.

Lemma run_result {A} b l (f : sys → A) x :
  option_map f (run b l init) = Some x → ∃ s, run b l init = Some s ∧ f s = x.
Proof. destruct (run b l init) as [s|]; [|done]. intros [= <-]. eauto. Qed.

(** Two requests for one name share the temporary file: a retry of the guest
    while the first request is being synced truncates it, the truncated file is
    put into place and archived, and the complete copy of a third request is
    dropped because the object exists. *)
Definition w_retry : list act :=
  [AOpen 0 "db-7" "wal" w_seg w_body; ACopy 0 3; AOpen 1 "db-7" "wal" w_seg w_body; ACopy 1 1;
   ASync 0; ARename 0; AReply 0; AUpload w_p None; ARemove; AFail 1] ++ w_ingest 2 ++ [AUpload w_p None; ARemove].

Lemma concurrent_retry_corrupts_archive :
  ∃ s, rtc (step run_token run_volume (bucket no_failure) false) init s ∧
    w_p ∈ recent s ∧ fetch s w_p = Some [x01] ∧ (∀ c, (w_p, c) ∈ posted s → c = w_body) ∧ foreign s = [].
Proof.
  destruct (run_result false w_retry (λ s, (recent s, fetch s w_p, posted s, foreign s))
    ([w_p; w_p], Some [x01], [(w_p, w_body); (w_p, w_body)], [])) as (s & Hs & E); [vm_compute; reflexivity|].
  injection E as Er Ef Ep Eo. exists s. split; [by apply (run_sound no_failure false w_retry)|].
  rewrite Er, Ef, Ep, Eo. split_and!; [left|done| |done].
  intros c [[= ->]|[[= ->]|?%not_elem_of_nil]%elem_of_cons]%elem_of_cons; done.
Qed.

(** An upload that fails with "412" anywhere in its output, say in the object
    name it quotes, is taken for a refused overwrite: the only copy goes. *)
Definition w_unlucky : path := ("5e412c0b", "wal", w_seg).
Definition w_quoted (out : string) : Prop := out = "503 Backend Error: gs://b/db/5e412c0b/wal/" +:+ w_seg.
Definition w_drop : list act :=
  [AOpen 0 "5e412c0b" "wal" w_seg w_body; ACopy 0 3; ASync 0; ARename 0; AReply 0; ACommit;
   AUpload w_unlucky (Some ("503 Backend Error: gs://b/db/5e412c0b/wal/" +:+ w_seg)); ARemove].

Lemma marker_in_name_loses_segment :
  ∃ s, rtc (step run_token run_volume (bucket w_quoted) true) init s ∧ w_unlucky ∈ settled s ∧ fetch s w_unlucky = None.
Proof.
  destruct (run_result true w_drop (λ s, (settled s, fetch s w_unlucky)) ([w_unlucky], None)) as (s & Hs & E);
    [vm_compute; reflexivity|].
  injection E as Er Ef. exists s. split; [apply (run_sound w_quoted true w_drop); [done|by repeat constructor]|].
  rewrite Er, Ef. split; [left|done].
Qed.

(** The directory is never synced: a power loss right after the answer loses
    the segment. *)
Lemma power_loss_loses_acknowledged :
  ∃ s s', rtc (step run_token run_volume (bucket no_failure) true) init s ∧ w_p ∈ recent s ∧
    step run_token run_volume (bucket no_failure) true s s' ∧ fetch s' w_p = None.
Proof.
  destruct (run_result true (w_ingest 0) (λ s, (recent s, option_map (λ s, fetch s w_p) (exec true (APowerLoss 1) s))) ([w_p], Some None))
    as (s & Hs & E); [vm_compute; reflexivity|].
  pose proof (f_equal fst E) as Er. pose proof (f_equal snd E) as Ef. cbn [fst snd] in Er, Ef.
  destruct (exec true (APowerLoss 1) s) as [s'|] eqn:Es; [|done]. injection Ef as Ef.
  exists s, s'. rewrite Er. split_and!; [by apply (run_sound no_failure true (w_ingest 0))|left| |done].
  by apply (exec_sound no_failure true (APowerLoss 1)).
Qed.
