(* ===== verification/WalRelay.v ===== *)
(** The rest of the WAL relay, agent/internal/sandbox/wal_relay.go: the pinned
    archive generation, recovery grants, serving a segment to a recovering
    database, partial segments, and the schedule of the base backups.  The
    spool and the uploader are in WalSpool.  A statement, command or file that
    may fail is an argument. *)

From stdpp Require Import pretty.
From S2P Require Import Prelude GoStrings Float64 DbFencing WalSpool.

Open Scope string_scope.
Open Scope list_scope.
Open Scope Z_scope.

(** ** The archive generation *)

(** [row]: the [db.archive_gen] of the sandbox row, [None] when the row cannot be
    read or has none. *)
Definition gen_of_row (row : option string) : string :=
  match row with
  | Some g => if negb (String.eqb g "") && negb (ParseInt g).2 then g else "1"
  | None => "1"
  end.

Definition archiveGenFor (row : option string) (id : string) (cache : gmap string string) : gmap string string * string :=
  match cache !! id with
  | Some g => (cache, g)
  | None => let g := gen_of_row row in (<[id := g]> cache, g)
  end.
Definition InvalidateGen (id : string) (cache : gmap string string) : gmap string string := delete id cache.

(** ** Recovery grants: times in seconds *)

Definition AllowRecoverySource (now : Z) (id : string) (ttl : Z) (g : gmap string Z) : gmap string Z := <[id := now + ttl]> g.

(** [rows]: the [db.recover_from] of this agent's sandboxes, when the store answers. *)
Definition recoverySourceAllowed (now : Z) (rows : option (list (option string))) (id : string) (g : gmap string Z)
    : gmap string Z * bool :=
  if match g !! id with Some e => now <? e | None => false end then (g, true)
  else
    let g := delete id g in
    match rows with
    | None => (g, false)
    | Some rows => if bool_decide (Some id ∈ rows) then (AllowRecoverySource now id 3600 g, true) else (g, false)
    end.

(** ** Partial segments *)

Definition walSegmentBytes : Z := Z.shiftl 16 20.

(** [(seg, off, gen)] *)
Definition parsePartialName (n : string) : option (string * Z * Z) :=
  match partial_at n with
  | None => None
  | Some i =>
      let seg := String.substring 0 i n in
      let rest := str_drop (i + 9) n in
      let suffix := match String.index 0 "-g" rest with
        | Some j => let '(g, err) := ParseInt (str_drop (j + 2) rest) in
                    if err : bool then None else Some (g, String.substring 0 j rest)
        | None => Some (0, rest)
        end in
      '(gen, rest) ← suffix;
      let '(o, err) := ParseInt rest in
      if err || (o <=? 0) then None else Some (seg, o, gen)
  end.

Fixpoint best_partial (seg : string) (names : list string) (best : string) (bestOff bestGen : Z) : string :=
  match names with
  | [] => best
  | n :: names =>
      match parsePartialName n with
      | Some (s, off, gen) =>
          if String.eqb s seg && ((bestGen <? gen) || (gen =? bestGen) && (bestOff <? off))
          then best_partial seg names n off gen else best_partial seg names best bestOff bestGen
      | None => best_partial seg names best bestOff bestGen
      end
  end.
Definition bestPartial (names : list string) (seg : string) : string := best_partial seg names "" (-1) (-1).

(** The body [streamPadded] sends, [None] when it sends nothing. *)
Definition streamPadded (file : option (list byte)) : option (list byte) :=
  match file with
  | Some b => if walSegmentBytes <? Z.of_nat (length b) then None
              else Some (b ++ replicate (Z.to_nat walSegmentBytes - length b) x00)
  | None => None
  end.

(** What the host and the bucket answer while one segment is served. *)
Record serve_env := mkServeEnv {
  e_spool : string → option (list byte);    (** a file of the database's spool *)
  e_dir : option (list string);             (** its directory *)
  e_tmp : bool;                             (** a temporary file can be created *)
  e_cp : string → bool * string * list byte;  (** gsutil cp: success, output, file *)
  e_ls : bool * string;                     (** gsutil ls of the partials *)
}.

Definition newline : Ascii.ascii := Ascii.ascii_of_nat 10.
Definition slash : Ascii.ascii := Ascii.ascii_of_nat 47.

(** The object names of a listing. *)
Definition listed (out : string) : list string :=
  omap (λ ln, let ln := TrimSpace ln in if String.eqb ln "" then None else Some (after_last slash ln)) (split newline out).

Definition servePartialSegment (env : serve_env) (name : string) : option (list byte) :=
  let best := bestPartial (default [] (e_dir env)) name in
  match (if String.eqb best "" then None else streamPadded (e_spool env best)) with
  | Some b => Some b
  | None =>
      let '(ok, out) := e_ls env in
      if negb ok then None
      else
        let best := bestPartial (listed out) name in
        if String.eqb best "" then None
        else if negb (e_tmp env) then None
        else let '(ok, _, b) := e_cp env best in
             if negb ok then None else streamPadded (Some b)
  end.

Definition not_found (out : string) : bool :=
  str_contains "No URLs matched" out || str_contains "NotFoundException" out || str_contains "matched no objects" out.

(** [serveWAL] past its checks: the status and the body. *)
Definition serve_segment (env : serve_env) (name : string) : Z * list byte :=
  match e_spool env name with
  | Some b => (200, b)
  | None =>
      if negb (e_tmp env) then (500, [])
      else
        let '(ok, out, b) := e_cp env name in
        if negb ok then
          if not_found out then
            match servePartialSegment env name with Some b => (200, b) | None => (404, []) end
          else (502, [])
        else (200, b)
  end.

Definition serveWAL (token : string → string) (volume : string → bool) (now : Z) (rows : option (list (option string)))
    (env : serve_env) (id name auth : string) (g : gmap string Z) : gmap string Z * (Z * list byte) :=
  match ingest_gate token (λ _, true) id name auth with
  | Err code => (g, (code, []))
  | Ok _ =>
      if volume id then (g, serve_segment env name)
      else let '(g, ok) := recoverySourceAllowed now rows id g in
           (g, if ok : bool then serve_segment env name else (404, []))
  end.

(** ** The partial uploader *)

(** [v]: the setting, in whole seconds; 0 disables. *)
Definition walPartialInterval (v : string) : Z :=
  let v := TrimSpace v in
  if String.eqb v "" then 20
  else let '(n, err) := ParseInt v in
       if err : bool then 20 else if n <=? 0 then 0 else n.

Definition partial_name (seg : string) (off : Z) (gen : string) : string :=
  seg +:+ ".partial-" +:+ pretty off +:+ "-g" +:+ gen.

(** What [partialOne] decides after its probe of the guest: the key that marks
    the upload and the object name. *)
Definition partial_probe (stdout : string) (last : option string) (gen : string) : option (string * string * Z * string) :=
  match Fields (TrimSpace stdout) with
  | [seg; off] =>
      if negb (walName seg) then None
      else let '(offN, err) := ParseInt off in
           if err || (offN <=? 0) || (walSegmentBytes <? offN) then None
           else let key := seg +:+ ":" +:+ off in
                if bool_decide (last = Some key) then None else Some (key, seg, offN, partial_name seg offN gen)
  | _ => None
  end.

(** [partialOne]: the new last key, and the spool entries it removes.
    [probe]: the probe's output, when it ran; [up]: the upload succeeded. *)
Definition partialOne (probe : option string) (gen : string) (up : bool) (dir : list string) (last : option string)
    : option string * list string :=
  match probe with
  | None => (last, [])
  | Some out =>
      match partial_probe out last gen with
      | None => (last, [])
      | Some (key, seg, _, name) => if up then (Some key, filter (λ n, superseded_local seg name n = true) dir) else (last, [])
      end
  end.

(** ** Base backups: times in seconds *)

Definition walBaseEvery : Z := 86400.
Definition walBaseRetry : Z := 300.

Record base_state := mkBase {
  lastSuccess : option Z; lastAttempt : option Z; baseParkedTo : option Z;
  baseFails : Z; walBytes : Z; baseSize : Z;
}.

(** The uploader's accounting. *)
Definition account (kind name : string) (size : Z) (b : base_state) : base_state :=
  if String.eqb kind "wal" && negb (str_contains ".partial-" name) then
    mkBase (lastSuccess b) (lastAttempt b) (baseParkedTo b) (baseFails b) (i64 (walBytes b + size)) (baseSize b)
  else if String.eqb kind "base" then
    mkBase (lastSuccess b) (lastAttempt b) (baseParkedTo b) (baseFails b) (walBytes b) size
  else b.

Definition ratioDue (ratio : f64) (b : base_state) : bool :=
  (0 <? baseSize b) && f64_leb (f64_mul ratio (f64_of_Z (baseSize b))) (f64_of_Z (walBytes b)).

(** Whether the sweep goes on to ask the guest. *)
Definition base_due (ratio : f64) (now : Z) (b : base_state) : bool :=
  negb (match baseParkedTo b with Some t => now <? t | None => false end) &&
  (match lastSuccess b with None => true | Some t => walBaseEvery <=? now - t end || ratioDue ratio b) &&
  negb (match lastAttempt b with Some t => now - t <? walBaseRetry | None => false end).

Definition base_failed (t : Z) (b : base_state) : base_state :=
  let fails := baseFails b + 1 in
  mkBase (lastSuccess b) (Some t) (if 5 <=? fails then Some (t + 86400) else baseParkedTo b) fails (walBytes b) (baseSize b).
Definition base_succeeded (t : Z) (b : base_state) : base_state :=
  mkBase (Some t) (Some t) None 0 0 (baseSize b).

(** A sweep that looks at the database at [now]; a backup, if one is made, ends
    at [fin].  The second result: an attempt was made. *)
Record sweep := mkSweep { sw_now : Z; sw_ready : bool; sw_end : Z; sw_ok : bool }.

Definition base_sweep (ratio : f64) (s : sweep) (b : base_state) : base_state * bool :=
  if base_due ratio (sw_now s) b && sw_ready s
  then ((if sw_ok s then base_succeeded else base_failed) (sw_end s) b, true)
  else (b, false).

(** The sweep forgets databases whose volume is gone. *)
Definition base_forget (b : base_state) : base_state :=
  mkBase None None (baseParkedTo b) (baseFails b) (walBytes b) (baseSize b).

(** ** The winning partial *)

(** At least as good: a higher generation, or as high and as long. *)
Definition ranks (x y : Z * Z) : Prop := y.1 < x.1 ∨ x.1 = y.1 ∧ y.2 ≤ x.2.

Definition candidate (seg : string) (names : list string) (n : string) (og : Z * Z) : Prop :=
  n ∈ names ∧ parsePartialName n = Some (seg, og.2, og.1).

Lemma best_partial_spec seg names best bo bg :
  let r := best_partial seg names best bo bg in
  ∃ x, (r = best ∧ x = (bg, bo) ∨ candidate seg names r x) ∧ ranks x (bg, bo) ∧
       ∀ n y, candidate seg names n y → ranks x y.
Proof.
  unfold candidate, ranks. revert best bo bg. induction names as [|n names IH]; intros best bo bg; cbn [best_partial].
  - exists (bg, bo). split_and!; [by left|cbn; lia|]. by intros n y [?%not_elem_of_nil _].
  - assert (∀ b o g, (∀ s, parsePartialName n = Some s → s.1.1 = seg → ranks (g, o) (s.2, s.1.2)) →
      ranks (g, o) (bg, bo) → (b = best ∧ (g, o) = (bg, bo) ∨ candidate seg (n :: names) b (g, o)) →
      let r := best_partial seg names b o g in
      ∃ x, (r = best ∧ x = (bg, bo) ∨ candidate seg (n :: names) r x) ∧ ranks x (bg, bo) ∧
        ∀ m y, candidate seg (n :: names) m y → ranks x y) as Hgo.
    { intros b o g Hn Hb Hcur r. destruct (IH b o g) as (x & Hr & Hx & Hall). exists x. split_and!.
      - fold r in Hr. destruct Hr as [[-> ->]|[Hr Hp]]; [exact Hcur|]. right. split; [by right|done].
      - unfold ranks in *. cbn [fst snd] in *. lia.
      - intros m y [[->|Hm]%elem_of_cons Hp]; [|by apply (Hall m)]. specialize (Hn _ Hp eq_refl). unfold ranks in *. cbn [fst snd] in *. lia. }
    destruct (parsePartialName n) as [[[s off] gen]|] eqn:Ep.
    + destruct (String.eqb_spec s seg) as [->|Hne]; cbn [andb].
      * destruct (Z.ltb_spec bg gen), (Z.eqb_spec gen bg), (Z.ltb_spec bo off); cbn [orb andb]; apply Hgo;
          unfold ranks, candidate; cbn [fst snd]; try lia; try (by left); try (right; split; [left|exact Ep]);
          intros s' [= <-] _; cbn [fst snd]; lia.
      * apply Hgo; [|unfold ranks; cbn; lia|by left]. intros s' [= <-] E. by destruct Hne.
    + apply Hgo; [done|unfold ranks; cbn; lia|by left].
Qed.

Lemma parse_offset_pos n s o g : parsePartialName n = Some (s, o, g) → 0 < o.
Proof.
  unfold parsePartialName. destruct (partial_at n) as [i|]; [|done]. intros (x & _ & H)%bind_Some. destruct x as [gen rest].
  destruct (ParseInt rest) as [o' err]. destruct err; cbn [orb] in H; [done|]. destruct (Z.leb_spec o' 0); [done|].
  by injection H as _ <- _.
Qed.

Lemma parse_empty : parsePartialName "" = None.
Proof. reflexivity. Qed.

Lemma bestPartial_spec names seg :
  (bestPartial names seg = "" ∧ ∀ n y, candidate seg names n y → y.1 < -1) ∨
  ∃ x, candidate seg names (bestPartial names seg) x ∧ -1 ≤ x.1 ∧ ∀ n y, candidate seg names n y → ranks x y.
Proof.
  destruct (best_partial_spec seg names "" (-1) (-1)) as (x & Hr & Hx & Hall). fold (bestPartial names seg) in Hr.
  destruct Hr as [[E ->]|Hc]; [left|right].
  - split; [done|]. intros n y Hc. pose proof (parse_offset_pos _ _ _ _ (proj2 Hc)).
    specialize (Hall n y Hc). unfold ranks in Hall. cbn in Hall. lia.
  - exists x. split_and!; [done| |done]. unfold ranks in Hx. cbn in Hx. lia.
Qed.

Lemma bestPartial_nonempty names seg : bestPartial names seg ≠ "" → ∃ x, candidate seg names (bestPartial names seg) x ∧ ∀ n y, candidate seg names n y → ranks x y.
Proof. intros Hne. destruct (bestPartial_spec names seg) as [[? _]|(x & ? & _ & ?)]; [done|eauto]. Qed.

(** ** Serving *)

(** The host and the bucket answer truthfully, but may fail: [spool] and [obj] are
    the files of one database's WAL. *)
Record honest (spool obj : string → option (list byte)) (name : string) (env : serve_env) : Prop := {
  h_spool : ∀ n, e_spool env n = spool n;
  h_dir : ∀ l n, e_dir env = Some l → n ∈ l ↔ is_Some (spool n);
  h_cp : ∀ n, (e_cp env n).1.1 = true → obj n = Some (e_cp env n).2;
  h_absent : (e_cp env name).1.1 = false → not_found (e_cp env name).1.2 = true → obj name = None;
  h_ls : (e_ls env).1 = true → ∀ n, n ∈ listed (e_ls env).2 ↔ is_Some (obj n) ∧ has_prefix (name +:+ ".partial-") n = true;
}.

(** Some step of the look-up of partials did not answer. *)
Definition partial_trouble (env : serve_env) (name : string) : Prop :=
  e_dir env = None ∨ (e_ls env).1 = false ∨ e_tmp env = false ∨
  (e_cp env (bestPartial (listed (e_ls env).2) name)).1.1 = false.

Definition oversize (f : string → option (list byte)) : Prop := ∃ n b, f n = Some b ∧ walSegmentBytes < Z.of_nat (length b).

Definition usable (f : string → option (list byte)) (name n : string) (y : Z * Z) : Prop :=
  is_Some (f n) ∧ has_prefix (name +:+ ".partial-") n = true ∧ parsePartialName n = Some (name, y.2, y.1) ∧ -1 ≤ y.1.

Lemma streamPadded_spec f body :
  streamPadded f = Some body →
  ∃ b, f = Some b ∧ body = b ++ replicate (Z.to_nat walSegmentBytes - length b) x00 ∧ Z.of_nat (length body) = walSegmentBytes.
Proof.
  unfold streamPadded. destruct f as [b|]; [|done]. destruct (Z.ltb_spec walSegmentBytes (Z.of_nat (length b))) as [|Hle]; [done|].
  intros [= <-]. exists b. split_and!; [done..|]. rewrite length_app, length_replicate.
  change walSegmentBytes with 16777216 in *. lia.
Qed.

Lemma streamPadded_None f : streamPadded f = None → f = None ∨ ∃ b, f = Some b ∧ walSegmentBytes < Z.of_nat (length b).
Proof.
  unfold streamPadded. destruct f as [b|]; [|by left]. destruct (Z.ltb_spec walSegmentBytes (Z.of_nat (length b))); [|done]. eauto.
Qed.

Lemma partial_served spool obj env name body :
  honest spool obj name env → servePartialSegment env name = Some body →
  Z.of_nat (length body) = walSegmentBytes ∧
  ∃ n y b, parsePartialName n = Some (name, y.2, y.1) ∧ (spool n = Some b ∨ obj n = Some b) ∧
    body = b ++ replicate (Z.to_nat walSegmentBytes - length b) x00 ∧
    ((∀ m z, e_dir env ≠ None → usable spool name m z → ranks y z) ∨ (∀ m z, usable obj name m z → ranks y z)).
Proof.
  intros Hh. unfold servePartialSegment.
  destruct (if String.eqb (bestPartial (default [] (e_dir env)) name) "" then None else _) as [b|] eqn:E.
  - intros [= <-]. destruct (String.eqb_spec (bestPartial (default [] (e_dir env)) name) "") as [|Hne]; [done|].
    apply streamPadded_spec in E as (c & Hc & Hb & Hl). split; [done|].
    destruct (bestPartial_nonempty _ _ Hne) as (x & [Hin Hp] & Hall).
    exists (bestPartial (default [] (e_dir env)) name), x, c. rewrite (h_spool _ _ _ _ Hh) in Hc. split_and!; [done|by left|done|].
    left. intros m z Hd (Hm & _ & Hpm & _). apply (Hall m). split; [|done].
    destruct (e_dir env) as [l|] eqn:El; [|done]. cbn. by apply (h_dir _ _ _ _ Hh).
  - clear E. destruct (e_ls env) as [[] out] eqn:El; cbn [negb]; [|done].
    destruct (String.eqb_spec (bestPartial (listed out) name) "") as [|Hne]; [done|]. destruct (e_tmp env); cbn [negb]; [|done].
    destruct (e_cp env (bestPartial (listed out) name)) as [[ok o] c] eqn:Ec. destruct ok; cbn [negb]; [|done].
    intros (c' & [= <-] & Hb & Hl)%streamPadded_spec. split; [done|].
    destruct (bestPartial_nonempty _ _ Hne) as (x & [Hin Hp] & Hall).
    exists (bestPartial (listed out) name), x, c. split_and!; [done| |done|].
    + right. pose proof (h_cp _ _ _ _ Hh (bestPartial (listed out) name)) as H. rewrite Ec in H. by apply H.
    + right. intros m z (Hm & Hpre & Hpm & _). apply (Hall m). split; [|done].
      pose proof (h_ls _ _ _ _ Hh) as H. rewrite El in H. by apply H.
Qed.

Lemma partial_not_served spool obj env name :
  honest spool obj name env → servePartialSegment env name = None →
  ¬ partial_trouble env name → ¬ oversize spool → ¬ oversize obj →
  ∀ m z, ¬ usable spool name m z ∧ ¬ usable obj name m z.
Proof.
  intros Hh. unfold servePartialSegment, partial_trouble.
  destruct (if String.eqb (bestPartial (default [] (e_dir env)) name) "" then None else _) as [b|] eqn:E; [done|].
  intros Hrest Htr Hos Hoo m z. destruct (e_dir env) as [l|] eqn:El; [|tauto]. change (default [] (Some l)) with l in *. split.
  - intros (Hm & _ & Hpm & Hz). apply (h_dir _ _ _ _ Hh l m El) in Hm.
    destruct (bestPartial_spec l name) as [[_ Hno]|(x & [Hin Hp] & _)].
    + specialize (Hno m z (conj Hm Hpm)). lia.
    + destruct (String.eqb_spec (bestPartial l name) "") as [Hemp|Hne]; [by rewrite Hemp in Hp|].
      apply (h_dir _ _ _ _ Hh l _ El) in Hin as [b Hb]. rewrite (h_spool _ _ _ _ Hh), Hb in E.
      apply streamPadded_None in E as [?|(c & [= <-] & Hbig)]; [done|]. apply Hos. exists (bestPartial l name), b. done.
  - intros (Hm & Hpre & Hpm & Hz). destruct (e_ls env) as [[] out] eqn:Els; [|tauto]. cbn [fst snd negb] in *.
    assert (m ∈ listed out) as Hin.
    { pose proof (h_ls _ _ _ _ Hh) as H. rewrite Els in H. by apply H. }
    destruct (bestPartial_spec (listed out) name) as [[_ Hno]|(x & [Hin' Hp] & _)]; [specialize (Hno m z (conj Hin Hpm)); lia|].
    destruct (String.eqb_spec (bestPartial (listed out) name) "") as [Hemp|Hne]; [by rewrite Hemp in Hp|].
    destruct (e_tmp env); [|tauto]. cbn [negb] in Hrest.
    destruct (e_cp env (bestPartial (listed out) name)) as [[ok o] c] eqn:Ec. destruct ok; [|cbn in Htr; tauto]. cbn [negb] in Hrest.
    pose proof (h_cp _ _ _ _ Hh (bestPartial (listed out) name)) as Hob. rewrite Ec in Hob.
    apply streamPadded_None in Hrest as [?|(b' & [= <-] & Hbig)]; [done|]. apply Hoo. exists (bestPartial (listed out) name), c.
    split; [by apply Hob|done].
Qed.

(** The answers a recovering database gets.  Against a host and a bucket
    that answer truthfully but may fail at every step: a segment that is in the
    spool or the bucket is never answered with 404, which ends recovery; a 200
    carries the segment itself or, when it is nowhere, a partial upload of it
    padded with zeros to 16 MiB, the best of the spool's or of the bucket's
    (highest generation, then longest); and a 404 means that the segment is
    nowhere and that no partial of it is in the spool or the bucket, unless a
    step of looking for the partials failed or a file is larger than a segment. *)
Theorem serve_contract spool obj env name :
  honest spool obj name env →
  let '(code, body) := serve_segment env name in
  (code = 200 →
     spool name = Some body ∨ spool name = None ∧ obj name = Some body ∨
     (spool name = None ∧ obj name = None ∧ Z.of_nat (length body) = walSegmentBytes ∧
      ∃ n y b, parsePartialName n = Some (name, y.2, y.1) ∧ (spool n = Some b ∨ obj n = Some b) ∧
        body = b ++ replicate (Z.to_nat walSegmentBytes - length b) x00 ∧
        ((∀ m z, e_dir env ≠ None → usable spool name m z → ranks y z) ∨ (∀ m z, usable obj name m z → ranks y z)))) ∧
  (code = 404 →
     spool name = None ∧ obj name = None ∧
     (¬ partial_trouble env name → ¬ oversize spool → ¬ oversize obj →
      ∀ m z, ¬ usable spool name m z ∧ ¬ usable obj name m z)).
Proof.
  intros Hh. unfold serve_segment. rewrite (h_spool _ _ _ _ Hh).
  destruct (spool name) as [b|] eqn:Es; [split; [by left|done]|].
  destruct (e_tmp env); cbn [negb]; [|done].
  destruct (e_cp env name) as [[ok out] b] eqn:Ec. destruct ok; cbn [negb].
  - split; [|done]. intros _. right; left. pose proof (h_cp _ _ _ _ Hh name) as H. rewrite Ec in H. split; [done|by apply H].
  - destruct (not_found out) eqn:En; [|done].
    assert (obj name = None) as Ho by (pose proof (h_absent _ _ _ _ Hh) as H; rewrite Ec in H; by apply H).
    destruct (servePartialSegment env name) as [body|] eqn:Ep; (split; [try done|try done]).
    + intros _. right; right. destruct (partial_served _ _ _ _ _ Hh Ep) as (Hl & Hx). done.
    + intros _. split; [done|]. split; [done|]. by apply partial_not_served.
Qed.

Definition w_name : string := "000000010000000000000042".
Definition w_part : string := "000000010000000000000042.partial-4096-g2".
Definition w_obj (n : string) : option (list byte) := if String.eqb n w_part then Some [x01; x02] else None.
Definition w_none (n : string) : option (list byte) := None.
Definition w_env (ls : bool) : serve_env := {|
  e_spool := w_none; e_dir := Some []; e_tmp := true;
  e_cp := λ n, match w_obj n with Some b => (true, "", b) | None => (false, "CommandException: No URLs matched", []) end;
  e_ls := (ls, if ls then "gs://b/db/d/wal/000000010000000000000042.partial-4096-g2" else "503 Backend Error") |}.

Lemma serve_env_honest ls : honest w_none w_obj w_name (w_env ls).
Proof.
  split; cbn [e_spool e_dir e_cp e_ls w_env].
  - done.
  - intros l n [= <-]. split; [by intros ?%not_elem_of_nil|by intros [? ?]].
  - intros n. destruct (w_obj n); [done|done].
  - done.
  - intros E n. cbn [fst] in E. subst ls. cbn [snd fst].
    replace (listed _) with [w_part] by (vm_compute; reflexivity). rewrite list_elem_of_singleton. unfold w_obj.
    destruct (String.eqb_spec n w_part) as [->|Hne].
    + split; [intros _; split; [eauto|vm_compute; reflexivity]|done].
    + split; [by intros ->|by intros [[? ?] _]].
Qed.

Lemma serve_contract_witness :
  (serve_segment (w_env true) w_name).1 = 200 ∧
  let '(code, body) := serve_segment (w_env true) w_name in
  (code = 200 →
     w_none w_name = Some body ∨ w_none w_name = None ∧ w_obj w_name = Some body ∨
     (w_none w_name = None ∧ w_obj w_name = None ∧ Z.of_nat (length body) = walSegmentBytes ∧
      ∃ n y b, parsePartialName n = Some (w_name, y.2, y.1) ∧ (w_none n = Some b ∨ w_obj n = Some b) ∧
        body = b ++ replicate (Z.to_nat walSegmentBytes - length b) x00 ∧
        ((∀ m z, e_dir (w_env true) ≠ None → usable w_none w_name m z → ranks y z) ∨ (∀ m z, usable w_obj w_name m z → ranks y z)))) ∧
  (code = 404 →
     w_none w_name = None ∧ w_obj w_name = None ∧
     (¬ partial_trouble (w_env true) w_name → ¬ oversize w_none → ¬ oversize w_obj →
      ∀ m z, ¬ usable w_none w_name m z ∧ ¬ usable w_obj w_name m z)).
Proof. split; [lazy; reflexivity|]. exact (serve_contract w_none w_obj (w_env true) w_name (serve_env_honest true)). Defined.

(** A listing that fails is answered with 404 although the partial is there. *)
Lemma listing_failure_ends_recovery :
  honest w_none w_obj w_name (w_env false) ∧ usable w_obj w_name w_part (2, 4096) ∧ (serve_segment (w_env false) w_name).1 = 404.
Proof.
  split_and!; [apply serve_env_honest| |vm_compute; reflexivity].
  unfold usable. split_and!; [done|vm_compute; reflexivity..|cbn; lia].
Qed.

(** ** Partial names *)

Definition no_dot (s : string) : bool := all_chars (λ c, negb (Ascii.eqb c (Ascii.ascii_of_nat 46))) s.

Lemma all_chars_weaken (f g : Ascii.ascii → bool) s :
  (∀ c, f c = true → g c = true) → all_chars f s = true → all_chars g s = true.
Proof. intros H. induction s as [|c s IH]; [done|]. cbn [all_chars]. rewrite !andb_true_iff. intros [? ?]. auto. Qed.

Lemma digit_not_dash s v : digits 0 s = Some v → all_chars (λ c, negb (Ascii.eqb c dash)) s = true.
Proof.
  intros H%digits_all. revert H. apply all_chars_weaken. intros c Hc. destruct (Ascii.eqb_spec c dash) as [->|]; [by vm_compute in Hc|done].
Qed.

Lemma partial_at_name seg off g : no_dot seg = true → seg ≠ "" → partial_at (partial_name seg off g) = Some (String.length seg).
Proof.
  intros Hd Hne. unfold partial_at, partial_name.
  pose proof (index_app (Ascii.ascii_of_nat 46) "partial-" seg (pretty off +:+ "-g" +:+ g) Hd) as H.
  change (String (Ascii.ascii_of_nat 46) "partial-") with ".partial-" in H. rewrite H. by destruct seg.
Qed.

Lemma partial_name_tail seg off g : str_drop (String.length seg + 9) (partial_name seg off g) = pretty off +:+ "-g" +:+ g.
Proof.
  unfold partial_name. rewrite string_app_assoc.
  replace (String.length seg + 9)%nat with (String.length (seg +:+ ".partial-")); [apply str_drop_app|].
  induction seg as [|c seg IH]; [done|]. exact (f_equal S IH).
Qed.

Lemma gen_suffix off g : 0 ≤ off → String.index 0 "-g" (pretty off +:+ "-g" +:+ g) = Some (String.length (pretty off)).
Proof. intros Ho. apply (index_app dash "g"). apply (digit_not_dash _ off), digits_pretty, Ho. Qed.

Lemma gen_suffix_tail (off : Z) (g : string) : str_drop (String.length (pretty off) + 2) (pretty off +:+ "-g" +:+ g) = g.
Proof.
  rewrite string_app_assoc. replace (String.length (pretty off) + 2)%nat with (String.length (pretty off +:+ "-g")); [apply str_drop_app|].
  generalize (pretty off) as s. induction s as [|c s IH]; [done|]. exact (f_equal S IH).
Qed.

(** Partial uploads name themselves.  The object name the agent gives to the
    flushed prefix of a segment is read back, by the relay that serves a
    recovery and by the control plane's janitor alike, as the segment, the
    number of bytes and the generation it was made from. *)
Theorem partial_name_roundtrip stdout last key seg off name gen :
  0 ≤ gen < 2 ^ 63 → partial_probe stdout last (pretty gen) = Some (key, seg, off, name) → no_dot seg = true →
  0 < off ≤ walSegmentBytes ∧ parsePartialName name = Some (seg, off, gen) ∧
  partials_of [name] = [{| p_name := name; p_seg := seg; p_off := off; p_gen := gen |}].
Proof.
  intros Hg Hp Hd.
  assert (walName seg = true ∧ 0 < off ≤ walSegmentBytes ∧ name = partial_name seg off (pretty gen)) as (Hw & Ho & ->).
  { unfold partial_probe in Hp. destruct (Fields _) as [|seg' [|o [|? ?]]]; try done. destruct (walName seg') eqn:Ew; [|done].
    cbn [negb] in Hp. destruct (ParseInt o) as [offN err]. destruct err; [done|]. cbn [orb] in Hp.
    destruct (Z.leb_spec offN 0), (Z.ltb_spec walSegmentBytes offN); try done. cbn [orb] in Hp.
    case_bool_decide; [done|]. injection Hp as <- <- <- <-. done. }
  assert (off < 2 ^ 63) as Ho' by (change walSegmentBytes with 16777216 in Ho; lia).
  assert (seg ≠ "") as Hne by (by destruct seg).
  assert (String.substring 0 (String.length seg) (partial_name seg off (pretty gen)) = seg) as Es by apply substring_prefix.
  assert (ParseInt (pretty off) = (off, false) ∧ ParseInt (pretty gen) = (gen, false)) as [E1 E2] by (by rewrite !ParseInt_pretty by lia).
  assert ((off <=? 0) = false) as E3 by (apply Z.leb_gt; lia).
  split; [done|]. split.
  - unfold parsePartialName. rewrite partial_at_name, partial_name_tail, gen_suffix, gen_suffix_tail, E2, substring_prefix, Es by (done || lia).
    cbn. by rewrite E1, E3.
  - unfold partials_of. cbn [omap list_omap]. rewrite partial_at_name by done. unfold parse_partial.
    rewrite partial_name_tail, gen_suffix, gen_suffix_tail, E2, substring_prefix, Es by lia. cbn [fst]. by rewrite E1, E3.
Qed.

Definition w_upload : string := "000000010000000000000042.partial-1048576-g3".

Lemma partial_name_roundtrip_witness :
  0 < 1048576 ≤ walSegmentBytes ∧ parsePartialName w_upload = Some (w_name, 1048576, 3) ∧
  partials_of [w_upload] = [{| p_name := w_upload; p_seg := w_name; p_off := 1048576; p_gen := 3 |}].
Proof.
  assert (partial_probe "000000010000000000000042 1048576 " (Some "000000010000000000000042:4096") (pretty 3) =
          Some ("000000010000000000000042:1048576", w_name, 1048576, w_upload)) as H by (vm_compute; reflexivity).
  assert (no_dot w_name = true) as Hd by (vm_compute; reflexivity).
  assert (0 ≤ 3 < 2 ^ 63) as Hg by lia.
  exact (partial_name_roundtrip _ _ _ _ _ _ _ Hg H Hd).
Defined.

(** ** The janitor and the relay *)

Lemma parse_agrees n seg off gen :
  parsePartialName n = Some (seg, off, gen) →
  ∃ i, partial_at n = Some i ∧ parse_partial n i = Some {| p_name := n; p_seg := seg; p_off := off; p_gen := gen |}.
Proof.
  unfold parsePartialName. destruct (partial_at n) as [i|] eqn:Ei; [|done]. intros (x & Hx & H)%bind_Some.
  exists i. split; [done|]. unfold parse_partial. destruct x as [g rest].
  destruct (String.index 0 "-g" (str_drop (i + 9) n)) as [j|].
  - destruct (ParseInt (str_drop (j + 2) _)) as [g' err]. destruct err; [done|]. injection Hx as <- <-. cbn [fst].
    destruct (ParseInt (String.substring 0 j _)) as [o e]. destruct (e || (o <=? 0)); [done|]. by injection H as <- <- <-.
  - injection Hx as <- <-. destruct (ParseInt _) as [o e]. destruct (e || (o <=? 0)); [done|]. by injection H as <- <- <-.
Qed.

Lemma parse_in_partials names n seg off gen :
  n ∈ names → parsePartialName n = Some (seg, off, gen) →
  {| p_name := n; p_seg := seg; p_off := off; p_gen := gen |} ∈ partials_of names.
Proof.
  intros Hn (i & Hi & Hp)%parse_agrees. unfold partials_of. apply list_elem_of_omap. exists n. by rewrite Hi.
Qed.

Lemma at_least_ranks p q : at_least p q ↔ ranks (p_gen p, p_off p) (p_gen q, p_off q).
Proof. unfold at_least, ranks. cbn. lia. Qed.

(** The janitor never deletes what a recovery would be served.  For any
    listing of a database's WAL objects and any segment that has not been
    archived in full, what the relay picks among the objects that remain after
    the janitor's deletions is still a best one of all partials that were
    there.  (The relay and the janitor parse the generation suffix separately:
    the names are assumed to be ones on which they agree.) *)
Theorem janitor_keeps_the_best names seg :
  NoDup names → seg ∉ fulls_of names →
  (∀ p, p ∈ partials_of names → p_seg p = seg → parsePartialName (p_name p) = Some (seg, p_off p, p_gen p)) →
  let left := filter (λ n, n ∉ selectPartialsToDelete names) names in
  ∀ n y, candidate seg names n y → -1 ≤ y.1 →
  ∃ x, candidate seg left (bestPartial left seg) x ∧ candidate seg names (bestPartial left seg) x ∧
       ∀ m z, candidate seg names m z → ranks x z.
Proof.
  intros Hnd Hfull Hagree left n y [Hn Hp] Hy.
  destruct (partials_kept names Hnd) as (Hdel & _ & Hone).
  set (p := {| p_name := n; p_seg := seg; p_off := y.2; p_gen := y.1 |}).
  assert (p ∈ partials_of names) as Hpin by by apply parse_in_partials.
  destruct (Hone p Hpin Hfull) as (q & Hq & Es & Huniq). cbn in Es.
  assert (p_name q ∉ selectPartialsToDelete names) as Hkept by by apply (Huniq q).
  assert (∀ m z, candidate seg names m z → ranks (p_gen q, p_off q) z) as Hbest.
  { intros m z [Hm Hpm]. pose proof (parse_in_partials _ _ _ _ _ Hm Hpm) as Hr. set (r := mkPinfo _ _ _ _) in Hr.
    destruct (decide (m ∈ selectPartialsToDelete names)) as [Hd|Hd].
    - destruct (Hdel m Hd) as (r' & Hr' & En & [Hf|(q' & Hq' & Es' & Hal & Hkq)]).
      + assert (r' = r) as -> by by apply (partial_unique names). done.
      + assert (r' = r) as -> by by apply (partial_unique names).
        assert (q' = q) as -> by by apply (Huniq q' Hq' Es'). apply at_least_ranks in Hal. by destruct z.
    - assert (r = q) as <- by by apply (Huniq r Hr eq_refl). unfold ranks. destruct z; cbn. lia. }
  assert (∀ m z, candidate seg left m z → candidate seg names m z) as Hsub.
  { intros m z [[_ Hm]%list_elem_of_filter Hpm]. done. }
  assert (candidate seg left (p_name q) (p_gen q, p_off q)) as Hqc.
  { split; [|by apply Hagree]. apply list_elem_of_filter. split; [done|]. by apply partials_of_spec in Hq as [? _]. }
  destruct (bestPartial_spec left seg) as [[_ Hno]|(x & Hx & _ & Hall)].
  - specialize (Hno _ _ Hqc). specialize (Hbest n y (conj Hn Hp)). unfold ranks in Hbest. cbn in *. lia.
  - exists x. split_and!; [done|by apply Hsub|]. intros m z Hm. specialize (Hbest m z Hm). specialize (Hall _ _ Hqc).
    unfold ranks in *. cbn in *. lia.
Qed.

Definition w_listing : list string :=
  ["000000010000000000000042.partial-8192-g2"; "000000010000000000000042.partial-16384"; "000000010000000000000041";
   "000000010000000000000042.partial-4096-g2"; "000000010000000000000041.partial-4096-g7"].

Lemma janitor_keeps_the_best_witness :
  selectPartialsToDelete w_listing =
    ["000000010000000000000041.partial-4096-g7"; "000000010000000000000042.partial-16384"; "000000010000000000000042.partial-4096-g2"] ∧
  let left := filter (λ n, n ∉ selectPartialsToDelete w_listing) w_listing in
  ∃ x, candidate w_name left (bestPartial left w_name) x ∧ candidate w_name w_listing (bestPartial left w_name) x ∧
       ∀ m z, candidate w_name w_listing m z → ranks x z.
Proof.
  split; [vm_compute; reflexivity|]. intros left.
  assert (NoDup w_listing) as Hnd by (apply (bool_decide_eq_true_1 (NoDup w_listing)); vm_compute; reflexivity).
  assert (w_name ∉ fulls_of w_listing) as Hf by (apply (bool_decide_eq_true_1 (w_name ∉ fulls_of w_listing)); vm_compute; reflexivity).
  assert (Forall (λ p, p_seg p = w_name → parsePartialName (p_name p) = Some (w_name, p_off p, p_gen p)) (partials_of w_listing)) as Ha.
  { assert (partials_of w_listing = [mkPinfo "000000010000000000000042.partial-8192-g2" w_name 8192 2;
      mkPinfo "000000010000000000000042.partial-16384" w_name 16384 0; mkPinfo "000000010000000000000042.partial-4096-g2" w_name 4096 2;
      mkPinfo "000000010000000000000041.partial-4096-g7" "000000010000000000000041" 4096 7]) as -> by (vm_compute; reflexivity).
    repeat constructor; intros; vm_compute; reflexivity || done. }
  rewrite Forall_forall in Ha.
  assert (candidate w_name w_listing "000000010000000000000042.partial-4096-g2" (2, 4096)) as Hc
    by (split; [do 3 right; left | vm_compute; reflexivity]).
  apply (janitor_keeps_the_best w_listing w_name Hnd Hf Ha _ _ Hc). cbn. lia.
Defined.

(** ** The pinned generation *)

Inductive gen_call := Stamp (row : option string) (id : string) | Repin (id : string).
#[global] Instance gen_call_eq_dec : EqDecision gen_call.
Proof. solve_decision. Defined.

(** The cache, and the generations stamped, oldest first. *)
Fixpoint stamps (calls : list gen_call) (cache : gmap string string) : gmap string string * list (string * string) :=
  match calls with
  | [] => (cache, [])
  | Stamp row id :: calls =>
      let '(cache, g) := archiveGenFor row id cache in
      let '(cache, out) := stamps calls cache in (cache, (id, g) :: out)
  | Repin id :: calls => stamps calls (InvalidateGen id cache)
  end.

Lemma stamps_pinned calls cache id g :
  cache !! id = Some g → Repin id ∉ calls → ∀ g', (id, g') ∈ (stamps calls cache).2 → g' = g.
Proof.
  revert cache. induction calls as [|[row i|i] calls IH]; intros cache Hc Hno g'; cbn [stamps].
  - by intros ?%not_elem_of_nil.
  - assert (Repin id ∉ calls) as Hno' by (intros ?; apply Hno; by right).
    destruct (archiveGenFor row i cache) as [cache' gi] eqn:E.
    assert (cache' !! id = Some g ∧ (i = id → gi = g)) as [Hc' Hi].
    { unfold archiveGenFor in E. destruct (decide (i = id)) as [->|Hne].
      - rewrite Hc in E. by injection E as <- <-.
      - destruct (cache !! i); injection E as <- <-; [done|]. by rewrite lookup_insert_ne. }
    specialize (IH cache' Hc' Hno' g'). destruct (stamps calls cache') as [c out]. cbn [fst snd] in *.
    intros [[= <- ->]|?]%elem_of_cons; [by apply Hi|by apply IH].
  - assert (Repin id ∉ calls) as Hno' by (intros ?; apply Hno; by right).
    apply IH; [|done]. unfold InvalidateGen. rewrite lookup_delete_ne; [done|]. intros ->. apply Hno. left.
Qed.

Lemma gen_of_row_pretty g : 0 ≤ g < 2 ^ 63 → gen_of_row (Some (pretty g)) = pretty g.
Proof.
  intros Hg. unfold gen_of_row. rewrite ParseInt_pretty by done. destruct (pretty_head g ltac:(lia)) as (c & r & -> & _). done.
Qed.

(** A superseded host stays below.  A relay that first sees a database when
    the control plane's generation is [g] stamps [g] on every upload from then
    on, whatever the shared row says later and however the reads of it end,
    until the database's virtual machine is started on this host again; and
    every generation the control plane hands to a new owner after that is
    larger. *)
Theorem superseded_host_stays_below ops ops' calls cache id row :
  Z.of_nat (length (ops ++ ops')) < 2 ^ 61 → cache !! id = None → Repin id ∉ calls →
  let '(t, _) := gen_run ops ∅ in
  let g := gen_of id t in
  row = pretty g →
  let '(_, stamped) := stamps (Stamp (Some row) id :: calls) cache in
  let '(_, issued) := gen_run ops' t in
  (∀ s, (id, s) ∈ stamped → s = pretty g) ∧ Forall (λ g', g < g') (issued_to id issued).
Proof.
  rewrite length_app, Nat2Z.inj_add. intros Hlen Hc Hno.
  assert (∀ i, 1 ≤ gen_of i ∅ ≤ 1) as H0 by (intros i; unfold gen_of; rewrite lookup_empty; lia).
  pose proof (gen_run_spec ops ∅ 1 H0 ltac:(lia)) as H. pose proof (gen_run_bound ops ∅ 1 H0 ltac:(lia)) as Hb.
  destruct (gen_run ops ∅) as [t out]. cbn [fst] in Hb. intros g ->.
  assert (1 ≤ g ≤ 1 + Z.of_nat (length ops)) as Hg by apply Hb.
  pose proof (stamps_pinned calls (<[id := pretty g]> cache) id (pretty g) (lookup_insert_eq _ _ _) Hno) as Hst.
  pose proof (gen_run_spec ops' t (1 + Z.of_nat (length ops)) Hb ltac:(lia)) as H'.
  cbn [stamps]. unfold archiveGenFor at 1. rewrite Hc, gen_of_row_pretty by lia.
  destruct (stamps calls _) as [c stamped]. destruct (gen_run ops' t) as [t' issued]. cbn [fst snd] in *. split.
  - intros s [[= ->]|Hs]%elem_of_cons; [done|by apply Hst].
  - destruct (H' id) as (_ & _ & Hall). eapply Forall_impl; [exact Hall|]. intros x Hx. cbv beta in Hx. lia.
Qed.

Lemma superseded_host_stays_below_witness :
  let ops := [GSeed "d"; GBump Answered "d" "a"] in
  let ops' := [GBump Lost "d" "b"; GBump Answered "d" "b"] in
  let calls := [Stamp (Some "4") "d"; Repin "e"; Stamp None "d"] in
  (stamps (Stamp (Some "2") "d" :: calls) ∅).2 = [("d", "2"); ("d", "2"); ("d", "2")] ∧
  let '(t, _) := gen_run ops ∅ in
  let g := gen_of "d" t in
  "2" = pretty g →
  let '(_, stamped) := stamps (Stamp (Some "2") "d" :: calls) ∅ in
  let '(_, issued) := gen_run ops' t in
  (∀ s, ("d", s) ∈ stamped → s = pretty g) ∧ Forall (λ g', g < g') (issued_to "d" issued).
Proof.
  intros ops ops' calls. split; [vm_compute; reflexivity|].
  apply (superseded_host_stays_below ops ops' calls ∅ "d" "2"); [cbn; lia|done|].
  apply (bool_decide_eq_true_1 (Repin "d" ∉ calls)). vm_compute. reflexivity.
Defined.

(** A row that cannot be read on first sight pins generation 1, below every
    generation handed out. *)
Lemma failed_read_pins_one id cache calls :
  cache !! id = None → Repin id ∉ calls →
  ∀ g, (id, g) ∈ (stamps (Stamp None id :: calls) cache).2 → g = "1".
Proof.
  intros Hc Hno g. cbn [stamps]. unfold archiveGenFor at 1. rewrite Hc.
  pose proof (stamps_pinned calls (<[id := "1"]> cache) id "1" (lookup_insert_eq _ _ _) Hno g) as Hst.
  change (gen_of_row None) with "1". destruct (stamps calls _) as [c out]. cbn [snd] in *.
  intros [[= ->]|?]%elem_of_cons; auto.
Qed.

(** ** The schedule of the base backups *)

Inductive base_event := Sweep (s : sweep) | Uploaded (kind name : string) (size : Z).

Definition base_fresh : base_state := mkBase None None None 0 0 0.

(** The attempts made so far, newest first: when each ended, and how. *)
Fixpoint base_run (ratio : f64) (evs : list base_event) (b : base_state) (log : list (Z * bool)) : base_state * list (Z * bool) :=
  match evs with
  | [] => (b, log)
  | Sweep s :: evs =>
      let '(b, made) := base_sweep ratio s b in
      base_run ratio evs b (if made : bool then (sw_end s, sw_ok s) :: log else log)
  | Uploaded kind name size :: evs => base_run ratio evs (account kind name size b) log
  end.

(** The failures since the last success. *)
Fixpoint failures (log : list (Z * bool)) : Z :=
  match log with (_, false) :: log => failures log + 1 | _ => 0 end.
Fixpoint success (log : list (Z * bool)) : option Z :=
  match log with [] => None | (t, true) :: _ => Some t | (_, false) :: log => success log end.

(** The times the log alone allows an attempt at: five minutes after the last
    one, a day after the fifth failure in a row and each one after it. *)
Definition allowed (log : list (Z * bool)) (now : Z) : Prop :=
  ∀ t, head log.*1 = Some t → t + (if 5 <=? failures log then 86400 else walBaseRetry) ≤ now.
Definition due (log : list (Z * bool)) (now : Z) : Prop := ∀ t, success log = Some t → t + walBaseEvery ≤ now.

Definition base_inv (b : base_state) (log : list (Z * bool)) : Prop :=
  lastSuccess b = success log ∧ lastAttempt b = head log.*1 ∧ baseFails b = failures log ∧
  baseParkedTo b = (if 5 <=? failures log then (λ t, t + 86400) <$> head log.*1 else None).

Lemma failures_nonneg log : 0 ≤ failures log.
Proof. induction log as [|[t []] log IH]; cbn; lia. Qed.

Lemma base_inv_sweep ratio s b log b' made :
  base_inv b log → base_sweep ratio s b = (b', made) →
  base_inv b' (if made then (sw_end s, sw_ok s) :: log else log) ∧ (made = false → b' = b).
Proof.
  intros (H1 & H2 & H3 & H4). unfold base_sweep. destruct (base_due ratio (sw_now s) b && sw_ready s).
  - intros [= <- <-]. split; [|done]. destruct (sw_ok s); unfold base_inv; cbn; [done|].
    rewrite H1, H3, H4. split_and!; [done..|].
    destruct (Z.leb_spec 5 (failures log + 1)); [done|]. by destruct (Z.leb_spec 5 (failures log)); [lia|].
  - by intros [= <- <-].
Qed.

Lemma base_inv_account kind name size b log : base_inv b log → base_inv (account kind name size b) log.
Proof. unfold account. repeat case_match; done. Qed.

Lemma base_run_inv ratio evs b log :
  base_inv b log → base_inv (base_run ratio evs b log).1 (base_run ratio evs b log).2.
Proof.
  revert b log. induction evs as [|[s|kind name size] evs IH]; intros b log H; cbn [base_run]; [done| |].
  - destruct (base_sweep ratio s b) as [b' made] eqn:E. apply IH. by eapply base_inv_sweep.
  - by apply IH, base_inv_account.
Qed.

Lemma base_due_spec ratio now b log :
  base_inv b log → base_due ratio now b = true ↔ allowed log now ∧ (due log now ∨ ratioDue ratio b = true).
Proof.
  intros (H1 & H2 & H3 & H4). unfold base_due, allowed, due. rewrite H1, H2, H4, !andb_true_iff, orb_true_iff, !negb_true_iff.
  assert (match success log with None => true | Some t => walBaseEvery <=? now - t end = true ↔
          ∀ t, success log = Some t → t + walBaseEvery ≤ now) as ->.
  { destruct (success log) as [t|]; [rewrite Z.leb_le; split; [intros ? ? [= <-]; lia|intros H; specialize (H t eq_refl); lia]|done]. }
  destruct (head log.*1) as [t|]; cbn [fmap option_fmap option_map].
  - assert (∀ P : Z → Prop, (∀ t', Some t = Some t' → P t') ↔ P t) as Hq by (intros P; split; [auto|by intros ? ? [= <-]]).
    rewrite (Hq (λ t, t + _ ≤ now)). change walBaseRetry with 300 in *.
    destruct (Z.leb_spec 5 (failures log)); rewrite ?Z.ltb_ge; split; intros; split_and?; (done || lia || tauto).
  - destruct (5 <=? failures log); split; intros; split_and?; try done; tauto.
Qed.

(** While no attempt is made, only the counters of the uploader move. *)
Lemma base_run_log ratio evs b log :
  (∃ l, (base_run ratio evs b log).2 = l ++ log).
Proof.
  revert b log. induction evs as [|[s|kind name size] evs IH]; intros b log; cbn [base_run]; [by exists []| |apply IH].
  destruct (base_sweep ratio s b) as [b' []]; [|apply IH]. destruct (IH b' ((sw_end s, sw_ok s) :: log)) as [l ->].
  exists (l ++ [(sw_end s, sw_ok s)]). by rewrite <- app_assoc.
Qed.

(** The schedule of the base backups.  After any history of sweeps and
    uploads, a sweep backs the database up exactly when the guest is ready, five
    minutes have passed since the last attempt ended (a day, if it was the
    fifth failure in a row or a later one), and the last success is a day old
    or the archived WAL outweighs the last base.  And no database is left out: whatever
    happens in between, by the first sweep that finds the guest ready at a time
    allowed and due, a new attempt has been made. *)
Theorem backup_schedule ratio evs :
  let '(b, log) := base_run ratio evs base_fresh [] in
  (∀ s, (base_sweep ratio s b).2 = true ↔
     sw_ready s = true ∧ allowed log (sw_now s) ∧ (due log (sw_now s) ∨ ratioDue ratio b = true)) ∧
  (∀ fut s, sw_ready s = true → allowed log (sw_now s) → due log (sw_now s) →
     ∃ a l, (base_run ratio (fut ++ [Sweep s]) b log).2 = l ++ a :: log).
Proof.
  assert (base_inv base_fresh []) as H0 by done.
  pose proof (base_run_inv ratio evs _ _ H0) as Hinv. destruct (base_run ratio evs base_fresh []) as [b log].
  cbn [fst snd] in Hinv. split.
  - intros s. rewrite <- (base_due_spec ratio (sw_now s) b log Hinv). unfold base_sweep.
    destruct (base_due ratio (sw_now s) b), (sw_ready s); cbn; tauto.
  - intros fut s Hr Ha Hd. revert b Hinv. induction fut as [|[s'|kind name size] fut IH]; intros b Hinv; cbn [app base_run].
    + assert (base_due ratio (sw_now s) b = true) as E by (apply (base_due_spec _ _ _ _ Hinv); tauto).
      unfold base_sweep. rewrite E, Hr. cbn. by exists (sw_end s, sw_ok s), [].
    + destruct (base_sweep ratio s' b) as [b' made] eqn:E. destruct (base_inv_sweep _ _ _ _ _ _ Hinv E) as [Hinv' Hsame].
      destruct made; [|by apply IH]. destruct (base_run_log ratio (fut ++ [Sweep s]) b' ((sw_end s', sw_ok s') :: log)) as [l ->].
      eauto.
    + by apply IH, base_inv_account.
Qed.
