(* ===== verification/GoTime.v ===== *)
(** The parts of Go's [time] package the program uses: instants as nanoseconds
    since the Unix epoch, durations as wrapping [int64] nanoseconds, and the
    two layouts it parses. *)

From S2P Require Import Prelude GoStrings.

Open Scope string_scope.
Open Scope list_scope.
Open Scope Z_scope.

Definition Second : Z := 1000000000.
Definition Minute : Z := 60 * Second.
Definition Hour : Z := 60 * Minute.

(** [time.Time{}] *)
Definition zero_time : Z := -62135596800 * Second.

(** Days from 1970-01-01 of a date of the proleptic Gregorian calendar. *)
Definition days_from_civil (y m d : Z) : Z :=
  let y := if m <=? 2 then y - 1 else y in
  let era := y / 400 in
  let yoe := y mod 400 in
  let doy := (153 * (if 2 <? m then m - 3 else m + 9) + 2) / 5 + d - 1 in
  era * 146097 + (yoe * 365 + yoe / 4 - yoe / 100 + doy) - 719468.

Definition is_leap (y : Z) : bool := (y mod 4 =? 0) && (negb (y mod 100 =? 0) || (y mod 400 =? 0)).
Definition days_in (m y : Z) : Z :=
  if m =? 2 then (if is_leap y then 29 else 28)
  else if (m =? 4) || (m =? 6) || (m =? 9) || (m =? 11) then 30 else 31.

(** A date and a time of day, range-checked as [time.Parse] does. *)
Definition instant (y m d hh mm ss : Z) : option Z :=
  if (1 <=? m) && (m <=? 12) && (1 <=? d) && (d <=? days_in m y) && (hh <? 24) && (mm <? 60) && (ss <? 60)
  then Some ((days_from_civil y m d * 86400 + hh * 3600 + mm * 60 + ss) * Second)
  else None.

(** The [n] digits of [s] at [i], and the byte at [i]. *)
Definition num_at (i n : nat) (s : string) : option Z :=
  let f := String.substring i n s in
  if (String.length f =? n)%nat then digits 0 f else None.
Definition byte_at (i : nat) (c : Ascii.ascii) (s : string) : bool :=
  match String.get i s with Some c' => Ascii.eqb c c' | None => false end.

Definition chr (n : nat) : Ascii.ascii := Ascii.ascii_of_nat n.

(** Layout 20060102T150405Z *)
Definition parse_stamp (s : string) : option Z :=
  if negb (String.length s =? 16)%nat || negb (byte_at 8 (chr 84) s) || negb (byte_at 15 (chr 90) s) then None
  else
    y ← num_at 0 4 s; m ← num_at 4 2 s; d ← num_at 6 2 s;
    hh ← num_at 9 2 s; mm ← num_at 11 2 s; ss ← num_at 13 2 s;
    instant y m d hh mm ss.

(** The zone of an RFC 3339 time: Z or a numeric offset, in seconds. *)
Definition parse_zone (s : string) : option Z :=
  if String.eqb s "Z" then Some 0
  else if (String.length s =? 6)%nat && byte_at 3 (chr 58) s then
    hh ← num_at 1 2 s; mm ← num_at 4 2 s;
    if (hh <=? 24) && (mm <? 60) then
      if byte_at 0 (chr 43) s then Some (hh * 3600 + mm * 60)
      else if byte_at 0 (chr 45) s then Some (- (hh * 3600 + mm * 60)) else None
    else None
  else None.

Fixpoint span_digits (s : string) : string * string :=
  match s with
  | String c r => if is_digit c then let '(d, rest) := span_digits r in (String c d, rest) else ("", s)
  | EmptyString => ("", "")
  end.

(** Fractional seconds: nine digits count. *)
Definition parse_fraction (s : string) : Z * string :=
  match s with
  | String c r =>
      if Ascii.eqb c (chr 46) || Ascii.eqb c (chr 44) then
        let '(d, rest) := span_digits r in
        if String.eqb d "" then (0, s)
        else (default 0 (digits 0 (String.substring 0 9 (d +:+ "000000000"))), rest)
      else (0, s)
  | EmptyString => (0, "")
  end.

(** Layout RFC 3339 *)
Definition parse_rfc3339 (s : string) : option Z :=
  if byte_at 4 (chr 45) s && byte_at 7 (chr 45) s && byte_at 10 (chr 84) s && byte_at 13 (chr 58) s && byte_at 16 (chr 58) s then
    y ← num_at 0 4 s; m ← num_at 5 2 s; d ← num_at 8 2 s;
    hh ← num_at 11 2 s; mm ← num_at 14 2 s; ss ← num_at 17 2 s;
    t ← instant y m d hh mm ss;
    let '(frac, rest) := parse_fraction (str_drop 19 s) in
    off ← parse_zone rest;
    Some (t + frac - off * Second)
  else None.
