(* ===== verification/DbArchive.v ===== *)
(** The life of a managed database's archive: the retention window, the purge of
    orphans and the sweep over all archives (api/cmd/api/db_archive.go and
    databases.go), and the choice of the base backup to restore from
    (agent/internal/sandbox/db_restore.go).  Statements, listings and commands
    are arguments that may fail. *)

From Stdlib Require Import Sorting.Sorted.
From S2P Require Import Prelude GoSort GoStrings GoTime DbFencing.

Open Scope string_scope.
Open Scope list_scope.
Open Scope Z_scope.

(** ** Base backup names *)

(** A string that begins with base-<stamp>[-g<gen>].tar.gz and ends there: the
    stamp and the generation's digits. *)
Definition base_parts (s : string) : option (string * string) :=
  if negb (has_prefix "base-" s) then None
  else
    let stamp := String.substring 5 16 s in
    let tail := str_drop 21 s in
    if negb ((String.length stamp =? 16)%nat && all_chars is_digit (String.substring 0 8 stamp) && byte_at 8 (chr 84) stamp &&
             all_chars is_digit (String.substring 9 6 stamp) && byte_at 15 (chr 90) stamp) then None
    else if String.eqb tail ".tar.gz" then Some (stamp, "")
    else if has_prefix "-g" tail && has_suffix ".tar.gz" tail then
      let g := String.substring 2 (String.length tail - 9) tail in
      if (9 <? String.length tail)%nat && all_chars is_digit g then Some (stamp, g) else None
    else None.

(** [baseNameRe]: anchored at the end only. *)
Fixpoint base_match (s : string) : option (string * string) :=
  match base_parts s with
  | Some m => Some m
  | None => match s with EmptyString => None | String _ r => base_match r end
  end.

Definition parseBaseTimestamp (s : string) : option Z := m ← base_match s; parse_stamp m.1.
Definition parseBaseGeneration (s : string) : Z :=
  match base_match s with
  | Some (_, g) => if String.eqb g "" then 0 else let '(v, err) := ParseInt g in if err : bool then 0 else v
  | None => 0
  end.

(** ** Listings *)

Record backupObj := mkBackup { b_url : string; b_ts : Z; b_size : Z }.
Record walObj := mkWal { w_url : string; w_mtime : Z }.
#[global] Instance backupObj_eq_dec : EqDecision backupObj.
Proof. solve_decision. Defined.
#[global] Instance walObj_eq_dec : EqDecision walObj.
Proof. solve_decision. Defined.

(** [(size, mtime, url)] *)
Definition parseGsutilLongLine (line : string) : option (Z * Z * string) :=
  match Fields (TrimSpace line) with
  | f0 :: f1 :: f2 :: rest =>
      let url := List.last (f2 :: rest) "" in
      if negb (has_prefix "gs://" url) || has_suffix "/" url then None
      else let '(sz, err) := ParseInt f0 in
           if err : bool then None else t ← parse_rfc3339 f1; Some (sz, t, url)
  | _ => None
  end.

Definition newest_first (a b : backupObj) : bool := b_ts b <? b_ts a.
Definition oldest_first (a b : backupObj) : bool := b_ts a <? b_ts b.

(** What [gsutil ls -l] ended with: its output, and on failure whether it says
    that there is nothing. *)
Inductive listing := Listed (out : string) | NothingThere | ListFailed.

Definition nl : Ascii.ascii := chr 10.

Definition listBaseBackups (l : listing) : option (list backupObj) :=
  match l with
  | ListFailed => None
  | NothingThere => Some []
  | Listed out => Some (sort_slice newest_first (omap (λ line,
      '(sz, mt, url) ← parseGsutilLongLine line;
      Some {| b_url := url; b_ts := default mt (parseBaseTimestamp url); b_size := sz |}) (split nl out)))
  end.
Definition listWALObjects (l : listing) : option (list walObj) :=
  match l with
  | ListFailed => None
  | NothingThere => Some []
  | Listed out => Some (omap (λ line, '(_, mt, url) ← parseGsutilLongLine line; Some {| w_url := url; w_mtime := mt |}) (split nl out))
  end.

(** ** Retention *)

Definition oldestTS (bases : list backupObj) : Z :=
  match bases with [] => zero_time | b :: rest => foldl (λ m b, if b_ts b <? m then b_ts b else m) (b_ts b) rest end.

(** The URLs [selectBasesToDelete] keeps; [sorted] is oldest first. *)
Definition kept_urls (sorted : list backupObj) (cutoff : Z) : list string :=
  match last sorted with Some b => [b_url b] | None => [] end ++
  map b_url (filter (λ b, ¬ b_ts b < cutoff) sorted) ++
  match last (filter (λ b, b_ts b < cutoff) sorted) with Some b => [b_url b] | None => [] end.

Fixpoint anchor_loop (keep : list string) (sorted : list backupObj) (anchor : Z) (first : bool) : Z :=
  match sorted with
  | [] => anchor
  | b :: rest =>
      if bool_decide (b_url b ∈ keep) && (first || (b_ts b <? anchor)) then anchor_loop keep rest (b_ts b) false
      else anchor_loop keep rest anchor first
  end.

Definition selectBasesToDelete (bases : list backupObj) (window now : Z) : list backupObj * Z :=
  if (length bases <=? 1)%nat then ([], oldestTS bases)
  else
    let sorted := sort_slice oldest_first bases in
    let cutoff := now + i64 (- window) in
    let keep := kept_urls sorted cutoff in
    (filter (λ b, b_url b ∉ keep) sorted, anchor_loop keep sorted now true).

Definition selectWALToDelete (wals : list walObj) (anchor margin : Z) : list walObj :=
  if anchor =? zero_time then [] else filter (λ w, w_mtime w < anchor + i64 (- margin)) wals.

Definition walPruneMargin : Z := 6 * Hour.
Definition orphanPurgeGrace : Z := 7 * 24 * Hour.
Definition defaultRetentionDays : Z := 30.

(** [strconv.Atoi] is [ParseInt] on a 64-bit host. *)
Definition envDaysOr (v : string) (def : Z) : Z :=
  let v := TrimSpace v in
  if String.eqb v "" then def
  else let '(n, err) := ParseInt v in if negb err && (0 <? n) then n else def.

(** [time.Duration(days) * 24 * time.Hour] *)
Definition retention_window (days : Z) : Z := i64 (i64 (days * 24) * Hour).

Definition lastPathSeg (u : string) : string := after_last (chr 47) u.

(** The map from names to URLs: a later object of the same name wins. *)
Definition nameToURL (wals : list walObj) (n : string) : option string :=
  w_url <$> last (filter (λ w, lastPathSeg (w_url w) = n) wals).

(** What the prune pass reads. *)
Record prune_env := mkPruneEnv {
  p_leased : bool; p_recovering : bool; p_days : string; p_now : Z; p_bases : listing; p_wals : listing;
}.

(** The URLs [pruneArchiveToRetention] hands to [gsutil rm], in order; [None]
    when the pass ends before. *)
Definition prune_plan (env : prune_env) : option (list backupObj * list walObj * list string) :=
  if p_leased env then None
  else if p_recovering env then None
  else
    bases ← listBaseBackups (p_bases env);
    let '(delBases, anchor) := selectBasesToDelete bases (retention_window (envDaysOr (p_days env) defaultRetentionDays)) (p_now env) in
    let wals := default [] (listWALObjects (p_wals env)) in
    let delWALs := selectWALToDelete wals anchor walPruneMargin in
    let names := map (λ w, lastPathSeg (w_url w)) wals in
    Some (bases, wals, map b_url delBases ++ map w_url delWALs ++ omap (nameToURL wals) (selectPartialsToDelete names)).

(** The pass: what is deleted, and what the scrub then sees ([rm]: the command
    succeeded). *)
Definition pruneArchiveToRetention (env : prune_env) (rm : bool) : list string * option (list backupObj * list walObj) :=
  match prune_plan env with
  | None => ([], None)
  | Some (bases, wals, urls) =>
      let view := (filter (λ b, b_url b ∉ urls) bases, filter (λ w, w_url w ∉ urls) wals) in
      if (length urls =? 0)%nat then ([], Some view)
      else if rm then (urls, Some view) else (urls, None)
  end.

(** ** Orphans *)

Definition newestArchiveMtime (bases wals : listing) : Z :=
  let n := foldl (λ m b, if m <? b_ts b then b_ts b else m) zero_time (default [] (listBaseBackups bases)) in
  foldl (λ m w, if m <? w_mtime w then w_mtime w else m) n (default [] (listWALObjects wals)).

(** A row count: [None] when the query fails. *)
Definition sandboxRowExists (row : option bool) : bool := default false row.

Record purge_env := mkPurgeEnv {
  o_enabled : bool; o_recovering : bool; o_leased : bool;
  o_gen_before : option Z; o_bases : listing; o_wals : listing; o_now : Z;
  o_row : option bool; o_gen_after : option Z;
}.

(** Whether [purgeOrphanArchive] goes on to delete the whole archive. *)
Definition purgeOrphanArchive (env : purge_env) : bool :=
  if negb (o_enabled env) then false
  else if o_recovering env then false
  else if o_leased env then false
  else
    let genBefore := default 0 (o_gen_before env) in
    let newest := newestArchiveMtime (o_bases env) (o_wals env) in
    if (newest =? zero_time) || (o_now env - newest <? orphanPurgeGrace) then false
    else if sandboxRowExists (o_row env) then false
    else match o_gen_after env with Some g => g =? genBefore | None => true end.

(** ** The sweep *)

Inductive archive_action := APrune | APurge | ASkip.

(** One archive of the sweep: [row] as [archiveHasRow] reports it. *)
Definition sweep_one (retention : bool) (row : option bool) : archive_action :=
  match row with
  | None => ASkip
  | Some false => APurge
  | Some true => if retention then APrune else ASkip
  end.

Fixpoint trim_left (c : Ascii.ascii) (s : string) : string :=
  match s with String c' r => if Ascii.eqb c c' then trim_left c r else s | EmptyString => "" end.
Fixpoint trim_right (c : Ascii.ascii) (s : string) : string :=
  if String.eqb (trim_left c s) "" then "" else match s with String c' r => String c' (trim_right c r) | EmptyString => "" end.

(** The archive a line of the bucket listing names. *)
Definition archive_id (bucket line : string) : option string :=
  let line := TrimSpace line in
  let pre := "gs://" +:+ bucket +:+ "/db/" in
  let id := trim_right (chr 47) (trim_left (chr 47) (if has_prefix pre line then str_drop (String.length pre) line else line)) in
  if String.eqb id "" || str_contains "/" id then None else Some id.

(** [sweepOrphanArchives]: the breaker after the pass and what is done to each
    archive, in order. *)
Definition sweepOrphanArchives (now : Z) (bucket : string) (ls : option string) (retention : bool)
    (row : string → option bool) (b : loopBreaker) : loopBreaker * list (string * archive_action) :=
  if negb (Allow now b) then (b, [])
  else match ls with
  | None => ((Fail_ now b).1, [])
  | Some out => (Success b, map (λ id, (id, sweep_one retention (row id))) (omap (archive_id bucket) (split nl out)))
  end.

(** [claimJanitorSweep]: the row's time, [None] when there is no row. *)
Definition claimJanitorSweep (db fails : bool) (now minInterval : Z) (last : option Z) : option Z * bool :=
  if negb db then (last, true)
  else if fails then (last, false)
  else match last with
  | None => (Some now, true)
  | Some t => if t <? now - minInterval then (Some now, true) else (last, false)
  end.

(** ** Choosing the base to restore from *)

Record baseCand := mkCand { c_url : string; c_gen : Z; c_ts : Z }.

Definition cand_before (a b : baseCand) : bool :=
  if negb (c_gen a =? c_gen b) then c_gen b <? c_gen a else c_ts b <? c_ts a.

(** [None]: a line that is not a base backup.  An out-of-range generation keeps
    the value [ParseInt] clamps it to. *)
Definition parse_cand (line : string) : option baseCand :=
  let ln := TrimSpace line in
  '(stamp, g) ← base_parts (after_last (chr 47) ln);
  ts ← parse_stamp stamp;
  Some {| c_url := ln; c_gen := if String.eqb g "" then 0 else (ParseInt g).1; c_ts := ts |}.

(** [out]: the listing of the bases, when it succeeds. *)
Definition resolveBaseCandidates (out : option string) : option (list string) :=
  out ← out;
  let bases := omap parse_cand (split nl out) in
  if (length bases =? 0)%nat then None else Some (map c_url (sort_slice cand_before bases)).

(** The download loop: the first candidate that downloads and passes gzip -t. *)
Definition pick_base (usable : string → bool) (cands : list string) : option string := find usable cands.

(** [stripPandaStackRecoveryConf], on the lines of the file. *)
Definition recovery_line (ln : string) : bool :=
  let t := TrimSpace ln in
  String.eqb t "# PandaStack failover recovery" || has_prefix "restore_command" t || has_prefix "recovery_target_timeline" t ||
  has_prefix "recovery_target_time" t || has_prefix "recovery_target_action" t.
Fixpoint join_lines (l : list string) : string :=
  match l with [] => "" | [x] => x | x :: l => x +:+ String nl (join_lines l) end.
Definition stripPandaStackRecoveryConf (conf : string) : string :=
  join_lines (filter (λ ln, recovery_line ln = false) (split nl conf)).

Definition dbRestoreWALRestoreConf : string :=
  String nl ("# PandaStack failover recovery" +:+ String nl
    ("restore_command = '/usr/local/bin/pandastack-wal-restore %f %p'" +:+ String nl
      ("recovery_target_timeline = 'latest'" +:+ String nl ""))).

(** The configuration a restored volume boots with. *)
Definition staged_conf (conf : string) : string := stripPandaStackRecoveryConf conf +:+ dbRestoreWALRestoreConf.

(** ** Retention *)

#[local] Instance oldest_first_strict : StrictWeak oldest_first.
Proof. unfold oldest_first. split; intros x; [|intros y z|intros y z]; rewrite ?Z.ltb_ge, ?Z.ltb_lt; lia. Qed.

Lemma last_filter {A} (P : A → Prop) `{!∀ x, Decision (P x)} l x : last (filter P l) = Some x → x ∈ l ∧ P x.
Proof. intros Hl%last_Some_elem_of. by apply list_elem_of_filter in Hl as [? ?]. Qed.

(** The last element of a sorted list is a latest one. *)
Lemma last_latest l x : StronglySorted (not_after oldest_first) l → last l = Some x → ∀ y, y ∈ l → b_ts y ≤ b_ts x.
Proof.
  induction 1 as [|a l Hs IH Ha]; [done|]. rewrite last_cons. destruct (last l) as [z|] eqn:E.
  - intros [= <-] y [->|Hy]%elem_of_cons; [|by apply IH]. rewrite Forall_forall in Ha. apply last_Some_elem_of in E.
    specialize (Ha z E). unfold not_after, oldest_first in Ha. apply Z.ltb_ge in Ha. lia.
  - apply last_None in E as ->. intros [= <-] y [->|?%not_elem_of_nil]%elem_of_cons; [lia|done].
Qed.

Lemma filter_sorted {A} (R : relation A) (P : A → Prop) `{!∀ x, Decision (P x)} l : StronglySorted R l → StronglySorted R (filter P l).
Proof.
  induction 1 as [|x l Hs IH Hx]; [constructor|]. rewrite filter_cons. case_decide; [|done]. constructor; [done|].
  rewrite Forall_forall in *. intros y [_ Hy]%list_elem_of_filter. auto.
Qed.

Lemma filter_last_some {A} (P : A → Prop) `{!∀ x, Decision (P x)} l y : y ∈ l → P y → ∃ x, last (filter P l) = Some x.
Proof.
  intros Hy Hp. destruct (last (filter P l)) as [x|] eqn:E; [eauto|]. apply last_None in E.
  assert (y ∈ filter P l) as Hf by by apply list_elem_of_filter. rewrite E in Hf. by apply not_elem_of_nil in Hf.
Qed.

Section kept.
Variable sorted : list backupObj.
Variable cutoff : Z.
Context (Hs : StronglySorted (not_after oldest_first) sorted) (Hnd : NoDup (map b_url sorted)).
Let keep := kept_urls sorted cutoff.

Lemma url_inj b c : b ∈ sorted → c ∈ sorted → b_url b = b_url c → b = c.
Proof using Hnd.
  intros (i & Hi)%list_elem_of_lookup (j & Hj)%list_elem_of_lookup E.
  change (map b_url sorted) with (b_url <$> sorted) in Hnd.
  assert (i = j) as ->; [|congruence]. eapply NoDup_lookup; [exact Hnd| |].
  - by rewrite list_lookup_fmap, Hi.
  - rewrite list_lookup_fmap, Hj. by rewrite E.
Qed.

Lemma keep_window b : b ∈ sorted → cutoff ≤ b_ts b → b_url b ∈ keep.
Proof using Type.
  intros Hb Ht. apply elem_of_app. right. apply elem_of_app. left. change (map ?f ?l) with (f <$> l).
  apply list_elem_of_fmap. exists b. split; [done|]. apply list_elem_of_filter. split; [lia|done].
Qed.

Lemma keep_below b : b ∈ sorted → b_ts b < cutoff → ∃ c, c ∈ sorted ∧ b_url c ∈ keep ∧ b_ts b ≤ b_ts c < cutoff.
Proof using Hs.
  intros Hb Ht. destruct (filter_last_some (λ b, b_ts b < cutoff) sorted b Hb Ht) as [c Hc].
  destruct (last_filter _ _ _ Hc) as [Hin Hlt]. exists c. split_and!; [done| | |done].
  - unfold keep, kept_urls. rewrite Hc. do 2 (apply elem_of_app; right). left.
  - apply (last_latest (filter (λ b, b_ts b < cutoff) sorted)); [by apply filter_sorted|done|by apply list_elem_of_filter].
Qed.

Lemma keep_newest b : b ∈ sorted → ∃ c, c ∈ sorted ∧ b_url c ∈ keep ∧ b_ts b ≤ b_ts c.
Proof using Hs.
  intros Hb. destruct (decide (b_ts b < cutoff)) as [Hlt|Hge].
  - destruct (keep_below b Hb Hlt) as (c & ? & ? & ? & _). eauto.
  - exists b. split_and!; [done| |done]. apply keep_window; [done|lia].
Qed.

(** Nothing else is kept. *)
Lemma keep_only b : b ∈ sorted → b_url b ∈ keep → cutoff ≤ b_ts b ∨ ∀ c, c ∈ sorted → b_ts c < cutoff → b_ts c ≤ b_ts b.
Proof using Hs Hnd.
  intros Hb [Hk|[Hk|Hk]%elem_of_app]%elem_of_app.
  - destruct (last sorted) as [c|] eqn:E; [|by apply not_elem_of_nil in Hk]. apply list_elem_of_singleton in Hk.
    pose proof (last_Some_elem_of _ _ E) as Hc. assert (b = c) as -> by by apply url_inj.
    right. intros d Hd _. by eapply last_latest.
  - change (map ?f ?l) with (f <$> l) in Hk. apply list_elem_of_fmap in Hk as (c & Eu & [Ht Hc]%list_elem_of_filter).
    assert (b = c) as -> by by apply url_inj. left. lia.
  - destruct (last (filter _ sorted)) as [c|] eqn:E; [|by apply not_elem_of_nil in Hk]. apply list_elem_of_singleton in Hk.
    destruct (last_filter _ _ _ E) as [Hc _]. assert (b = c) as -> by by apply url_inj.
    right. intros d Hd Hlt. apply (last_latest (filter (λ b, b_ts b < cutoff) sorted)); [by apply filter_sorted|done|by apply list_elem_of_filter].
Qed.
End kept.

(** The anchor is the oldest timestamp kept. *)
Lemma anchor_loop_le keep l a first :
  StronglySorted (not_after oldest_first) l →
  (first = false → ∀ b, b ∈ l → b_url b ∈ keep → a ≤ b_ts b) →
  ∀ b, b ∈ l → b_url b ∈ keep → anchor_loop keep l a first ≤ b_ts b.
Proof.
  intros Hs. revert a first. induction Hs as [|c l Hs IH Hc]; intros a first Ha b Hb Hk; [by apply not_elem_of_nil in Hb|].
  rewrite Forall_forall in Hc. unfold not_after, oldest_first in Hc. cbn [anchor_loop].
  assert (∀ a, (∀ d, d ∈ l → b_url d ∈ keep → a ≤ b_ts d) → ∀ f, anchor_loop keep l a f ≤ a ∨ f = true) as Hle.
  { clear -Hs. intros a Ha f. destruct f; [by right|left]. revert a Ha. induction Hs as [|d l Hs IH Hd]; intros a Ha; cbn [anchor_loop]; [lia|].
    destruct (bool_decide_reflect (b_url d ∈ keep)) as [Hk|Hk]; cbn [andb orb].
    - specialize (Ha d ltac:(left) Hk). destruct (Z.ltb_spec (b_ts d) a); [lia|]. apply IH. intros e He Hke.
      rewrite Forall_forall in Hd. specialize (Hd e He). unfold not_after, oldest_first in Hd. apply Z.ltb_ge in Hd. lia.
    - apply IH. intros e He. apply Ha. by right. }
  assert (∀ d, d ∈ l → b_ts c ≤ b_ts d) as Hmin by (intros d Hd; specialize (Hc d Hd); apply Z.ltb_ge in Hc; lia).
  destruct (bool_decide_reflect (b_url c ∈ keep)) as [Hkc|Hkc]; cbn [andb].
  - destruct (first || (b_ts c <? a)) eqn:E.
    + apply elem_of_cons in Hb as [->|Hb].
      * destruct (Hle (b_ts c) ltac:(auto) false); [lia|done].
      * apply (IH (b_ts c) false); auto.
    + apply orb_false_iff in E as [-> Hge%Z.ltb_ge].
      assert (∀ d, d ∈ l → b_url d ∈ keep → a ≤ b_ts d) as Ha' by (intros d Hd Hkd; apply Ha; [done|by right|done]).
      apply elem_of_cons in Hb as [->|Hb].
      * destruct (Hle a Ha' false); [lia|done].
      * by apply (IH a false).
  - apply elem_of_cons in Hb as [->|Hb]; [done|]. apply (IH a first); [|done..].
    intros Hf d Hd. apply Ha; [done|by right].
Qed.

Definition cutoff_of (window now : Z) : Z := now + i64 (- window).

(** [selectBasesToDelete] on a listing without duplicates. *)
Lemma select_bases_spec bases window now :
  NoDup (map b_url bases) →
  let '(del, anchor) := selectBasesToDelete bases window now in
  let cutoff := cutoff_of window now in
  (∀ b, b ∈ del → b ∈ bases) ∧
  (∀ b, b ∈ bases → ∃ c, c ∈ bases ∧ (b_url c ∉ map b_url del) ∧ b_ts b ≤ b_ts c) ∧
  (∀ t b, b ∈ bases → cutoff ≤ t → b_ts b ≤ t → ∃ c, c ∈ bases ∧ (b_url c ∉ map b_url del) ∧ b_ts b ≤ b_ts c ≤ t) ∧
  (∀ b, b ∈ bases → b_url b ∉ map b_url del → anchor ≤ b_ts b ∧
     (cutoff ≤ b_ts b ∨ length bases = 1%nat ∨ ∀ c, c ∈ bases → b_ts c < cutoff → b_ts c ≤ b_ts b)).
Proof.
  intros Hnd. unfold selectBasesToDelete. fold (cutoff_of window now). destruct (Nat.leb_spec (length bases) 1) as [Hlen|Hlen].
  - cbn [map]. split_and!.
    + by intros b ?%not_elem_of_nil.
    + intros b Hb. exists b. split_and!; [done|by apply not_elem_of_nil|lia].
    + intros t b Hb _ Ht. exists b. split_and!; [done|by apply not_elem_of_nil|lia|done].
    + intros b Hb _. destruct bases as [|c [|? ?]]; [by apply not_elem_of_nil in Hb| |cbn in Hlen; lia].
      apply list_elem_of_singleton in Hb as ->. cbn. split; [lia|]. by right; left.
  - set (sorted := sort_slice oldest_first bases). set (cutoff := cutoff_of window now). set (keep := kept_urls sorted cutoff).
    pose proof (sort_slice_perm oldest_first bases) as Hp. fold sorted in Hp.
    pose proof (sort_slice_sorted oldest_first bases) as Hs. fold sorted in Hs.
    assert (NoDup (map b_url sorted)) as Hnd' by (change (NoDup (b_url <$> sorted)); rewrite Hp; exact Hnd).
    assert (∀ b, b ∈ sorted ↔ b ∈ bases) as Hin by (intros b; by rewrite Hp).
    assert (∀ b, b ∈ sorted → b_url b ∉ map b_url (filter (λ b, b_url b ∉ keep) sorted) ↔ b_url b ∈ keep) as Hdel.
    { intros b Hb. change (map ?f ?l) with (f <$> l). rewrite list_elem_of_fmap. split.
      - intros Hno. destruct (decide (b_url b ∈ keep)); [done|]. destruct Hno. exists b. split; [done|]. by apply list_elem_of_filter.
      - intros Hk (c & Eu & [Hnk _]%list_elem_of_filter). apply Hnk. by rewrite <- Eu. }
    split_and!.
    + intros b [_ Hb]%list_elem_of_filter. by apply Hin.
    + intros b Hb%Hin. destruct (keep_newest sorted cutoff Hs b Hb) as (c & Hc & Hk & Ht). exists c.
      rewrite <- Hin, Hdel by done. done.
    + intros t b Hb%Hin Hcut Ht. destruct (decide (b_ts b < cutoff)) as [Hlt|Hge].
      * destruct (keep_below sorted cutoff Hs b Hb Hlt) as (c & Hc & Hk & Htc). exists c. rewrite <- Hin, Hdel by done.
        split_and!; [done..|lia|lia].
      * exists b. rewrite <- Hin, Hdel by done. split_and!; [done| |lia|done]. apply keep_window; [done|lia].
    + intros b Hb%Hin Hk%Hdel; [|done]. split.
      * apply anchor_loop_le; done.
      * destruct (keep_only sorted cutoff Hs Hnd' b Hb Hk) as [?|Hall]; [by left|right; right].
        intros c Hc%Hin. by apply Hall.
Qed.

Lemma select_wal_spec wals anchor margin w :
  w ∈ selectWALToDelete wals anchor margin → w ∈ wals ∧ w_mtime w < anchor + i64 (- margin).
Proof.
  unfold selectWALToDelete. destruct (anchor =? zero_time); [by intros ?%not_elem_of_nil|].
  by intros [? ?]%list_elem_of_filter.
Qed.

(** [l]: what a listing that worked shows. *)
Definition shows {A} (f : listing → option (list A)) (l : listing) (x : list A) : Prop := f l = Some x.

(** C13. Pruning an archive never shortens the retention window.  Nothing is
    deleted while the archive is leased or read by a recovery, or when its base
    backups cannot be listed.  Otherwise, for every instant of the window the
    best base to roll forward from is as recent after the pass as before it,
    and no WAL object uploaded later than six hours before that base is
    deleted, save superseded partial uploads; the newest base always stays; and
    a base older than the window stays only if it is the newest of those (or
    the only one). *)
Theorem prune_keeps_window env rm bases wals :
  listBaseBackups (p_bases env) = Some bases → default [] (listWALObjects (p_wals env)) = wals →
  NoDup (map b_url bases) → NoDup (map w_url wals) → (∀ b w, b ∈ bases → w ∈ wals → b_url b ≠ w_url w) →
  let deleted := (pruneArchiveToRetention env rm).1 in
  let cutoff := cutoff_of (retention_window (envDaysOr (p_days env) defaultRetentionDays)) (p_now env) in
  (p_leased env || p_recovering env = true → deleted = []) ∧
  (∀ b, b ∈ bases → ∃ c, c ∈ bases ∧ (b_url c ∉ deleted) ∧ b_ts b ≤ b_ts c) ∧
  (∀ t b, b ∈ bases → cutoff ≤ t → b_ts b ≤ t →
     ∃ c, c ∈ bases ∧ (b_url c ∉ deleted) ∧ b_ts b ≤ b_ts c ≤ t ∧
       ∀ w, w ∈ wals → w_url w ∈ deleted →
         w_mtime w < b_ts c - 6 * Hour ∨
         lastPathSeg (w_url w) ∈ selectPartialsToDelete (map (λ w, lastPathSeg (w_url w)) wals)) ∧
  (p_leased env || p_recovering env = false → ∀ b, b ∈ bases → b_url b ∉ deleted →
     cutoff ≤ b_ts b ∨ length bases = 1%nat ∨ ∀ c, c ∈ bases → b_ts c < cutoff → b_ts c ≤ b_ts b).
Proof.
  intros Hb Hw Hnb Hnw Hdisj deleted cutoff.
  set (del := (selectBasesToDelete bases (retention_window (envDaysOr (p_days env) defaultRetentionDays)) (p_now env)).1).
  set (anchor := (selectBasesToDelete bases (retention_window (envDaysOr (p_days env) defaultRetentionDays)) (p_now env)).2).
  pose proof (select_bases_spec bases (retention_window (envDaysOr (p_days env) defaultRetentionDays)) (p_now env) Hnb) as Hsel.
  assert (∀ u, u ∈ deleted → u ∈ map b_url del ∨ ∃ w, w ∈ wals ∧ u = w_url w ∧
    (w_mtime w < anchor - 6 * Hour ∨ lastPathSeg (w_url w) ∈ selectPartialsToDelete (map (λ w, lastPathSeg (w_url w)) wals))) as Hdel.
  { intros u. unfold deleted, pruneArchiveToRetention, prune_plan.
    destruct (p_leased env); [by intros ?%not_elem_of_nil|]. destruct (p_recovering env); [by intros ?%not_elem_of_nil|].
    rewrite Hb, Hw. cbn [mbind option_bind]. fold del anchor. subst del anchor.
    destruct (selectBasesToDelete bases _ _) as [del anchor]. cbn [fst snd].
    set (urls := map b_url del ++ _). intros Hu.
    assert (u ∈ urls) as Hu' by (destruct (length urls =? 0)%nat; [by apply not_elem_of_nil in Hu|by destruct rm]).
    clear Hu. unfold urls in Hu'. apply elem_of_app in Hu' as [?|[Hu|Hu]%elem_of_app]; [by left|right..].
    - change (map ?f ?l) with (f <$> l) in Hu. apply list_elem_of_fmap in Hu as (w & -> & [Hin Ht]%select_wal_spec). exists w.
      split_and!; [done..|]. left. change (i64 (- walPruneMargin)) with (- (6 * Hour)) in Ht. lia.
    - apply list_elem_of_omap in Hu as (n & Hn & Hu). unfold nameToURL in Hu. apply fmap_Some in Hu as (w & Hl & ->).
      apply last_filter in Hl as [Hin <-]. exists w. split_and!; [done..|]. by right. }
  assert (p_leased env || p_recovering env = false → ∀ u, u ∈ map b_url del → u ∈ deleted) as Hback.
  { intros [Hl Hr]%orb_false_iff u Hu. unfold deleted, pruneArchiveToRetention, prune_plan. rewrite Hl, Hr, Hb, Hw.
    cbn [mbind option_bind]. subst del. destruct (selectBasesToDelete bases _ _) as [del anch]. cbn [fst] in Hu.
    set (urls := map b_url del ++ _). assert (u ∈ urls) as Hu' by (apply elem_of_app; by left).
    destruct (Nat.eqb_spec (length urls) 0) as [E|_]; [|by destruct rm].
    apply nil_length_inv in E. rewrite E in Hu'. by apply not_elem_of_nil in Hu'. }
  assert (∀ b, b ∈ bases → b_url b ∉ map b_url del → b_url b ∉ deleted) as Hkeep.
  { intros b Hbin Hno [?|(w & Hwin & E & _)]%Hdel; [done|]. by apply (Hdisj b w). }
  subst del anchor. destruct (selectBasesToDelete bases _ _) as [del anchor]. cbn [fst snd] in *.
  destruct Hsel as (Hsub & Hnew & Hwin & Hanc). split_and!.
  - intros Hg. unfold deleted, pruneArchiveToRetention, prune_plan. destruct (p_leased env); [done|]. cbn in Hg. by rewrite Hg.
  - intros b Hbin. destruct (Hnew b Hbin) as (c & Hc & Hk & Ht). exists c. auto.
  - intros t b Hbin Hcut Ht. destruct (Hwin t b Hbin Hcut Ht) as (c & Hc & Hk & Htc). exists c. split_and!; [done|by apply Hkeep|lia|lia|].
    intros w Hwin' [Hu|(w' & Hw' & E & Hcase)]%Hdel.
    + change (map ?f ?l) with (f <$> l) in Hu. apply list_elem_of_fmap in Hu as (b' & E & Hb').
      destruct (Hdisj b' w (Hsub b' Hb') Hwin'). done.
    + assert (w' = w) as ->.
      { apply list_elem_of_lookup in Hw' as [i Hi], Hwin' as [j Hj]. change (map w_url wals) with (w_url <$> wals) in Hnw.
        assert (i = j) as ->; [|congruence]. eapply NoDup_lookup; [exact Hnw| |]; rewrite list_lookup_fmap.
        - by rewrite Hi.
        - rewrite Hj. cbn. by rewrite E. }
      destruct (Hanc c Hc Hk) as [Hle _]. destruct Hcase as [?|?]; [left; lia|by right].
  - intros Hg b Hbin Hk. destruct (decide (b_url b ∈ map b_url del)) as [Hd|Hd]; [by apply (Hback Hg) in Hd|].
    by destruct (Hanc b Hbin Hd) as [_ ?].
Qed.

Definition line (size mtime url : string) : string := size +:+ "  " +:+ mtime +:+ "  gs://b/db/7/" +:+ url +:+ String nl "".

Definition w_bases : string :=
  line "100" "2026-05-01T00:10:00Z" "base/base-20260501T000000Z-g1.tar.gz" +:+
  line "100" "2026-06-20T00:10:00Z" "base/base-20260620T000000Z-g2.tar.gz" +:+
  line "100" "2026-07-01T00:10:00Z" "base/base-20260701T000000Z-g1.tar.gz" +:+
  line "100" "2026-07-30T00:10:00Z" "base/base-20260730T000000Z-g1.tar.gz" +:+ "TOTAL: 4 objects".
Definition w_walls : string :=
  line "16777216" "2026-06-30T12:00:00Z" "wal/000000010000000000000003" +:+
  line "16777216" "2026-06-30T20:00:00Z" "wal/000000010000000000000004" +:+
  line "4096" "2026-07-30T20:00:00Z" "wal/000000010000000000000009.partial-4096-g1" +:+
  line "8192" "2026-07-30T21:00:00Z" "wal/000000010000000000000009.partial-8192-g1".

Definition w_now : Z := default 0 (parse_stamp "20260805T000000Z").
Definition w_penv (days : string) : prune_env :=
  {| p_leased := false; p_recovering := false; p_days := days; p_now := w_now; p_bases := Listed w_bases; p_wals := Listed w_walls |}.
Definition w_base_list : list backupObj := default [] (listBaseBackups (Listed w_bases)).
Definition w_wal_list : list walObj := default [] (listWALObjects (Listed w_walls)).

Definition w_deleted : list string :=
  ["gs://b/db/7/base/base-20260501T000000Z-g1.tar.gz"; "gs://b/db/7/base/base-20260620T000000Z-g2.tar.gz";
   "gs://b/db/7/wal/000000010000000000000003"; "gs://b/db/7/wal/000000010000000000000009.partial-4096-g1"].

Lemma prune_keeps_window_witness :
  (pruneArchiveToRetention (w_penv "") true).1 = w_deleted ∧
  ∀ t b, b ∈ w_base_list → cutoff_of (retention_window (envDaysOr "" defaultRetentionDays)) w_now ≤ t → b_ts b ≤ t →
    ∃ c, c ∈ w_base_list ∧ (b_url c ∉ (pruneArchiveToRetention (w_penv "") true).1) ∧ b_ts b ≤ b_ts c ≤ t ∧
      ∀ w, w ∈ w_wal_list → w_url w ∈ (pruneArchiveToRetention (w_penv "") true).1 →
        w_mtime w < b_ts c - 6 * Hour ∨
        lastPathSeg (w_url w) ∈ selectPartialsToDelete (map (λ w, lastPathSeg (w_url w)) w_wal_list).
Proof.
  split; [vm_compute; reflexivity|].
  assert (listBaseBackups (p_bases (w_penv "")) = Some w_base_list) as H1 by (vm_compute; reflexivity).
  assert (default [] (listWALObjects (p_wals (w_penv ""))) = w_wal_list) as H2 by (vm_compute; reflexivity).
  assert (NoDup (map b_url w_base_list)) as H3 by (apply (bool_decide_eq_true_1 (NoDup (map b_url w_base_list))); vm_compute; reflexivity).
  assert (NoDup (map w_url w_wal_list)) as H4 by (apply (bool_decide_eq_true_1 (NoDup (map w_url w_wal_list))); vm_compute; reflexivity).
  assert (∀ b w, b ∈ w_base_list → w ∈ w_wal_list → b_url b ≠ w_url w) as H5.
  { assert (Forall (λ b, Forall (λ w, b_url b ≠ w_url w) w_wal_list) w_base_list) as H
      by (apply (bool_decide_eq_true_1 (Forall (λ b, Forall (λ w, b_url b ≠ w_url w) w_wal_list) w_base_list)); vm_compute; reflexivity).
    rewrite Forall_forall in H. intros b w Hb Hw. specialize (H b Hb). rewrite Forall_forall in H. by apply H. }
  exact (proj1 (proj2 (proj2 (prune_keeps_window (w_penv "") true w_base_list w_wal_list H1 H2 H3 H4 H5)))).
Defined.

(** The window is exact up to 106751 days. *)
Lemma window_exact d now : 0 < d ≤ 106751 → cutoff_of (retention_window d) now = now - d * 24 * Hour.
Proof.
  intros Hd. unfold cutoff_of, retention_window. rewrite (i64_small (d * 24)) by lia.
  change Hour with 3600000000000. rewrite !i64_small; rewrite ?i64_small; lia.
Qed.

(** Above that it overflows: a retention of 200000 days deletes everything but
    the newest base. *)
Lemma huge_window_wipes :
  (pruneArchiveToRetention (w_penv "200000") true).1 =
    ["gs://b/db/7/base/base-20260501T000000Z-g1.tar.gz"; "gs://b/db/7/base/base-20260620T000000Z-g2.tar.gz";
     "gs://b/db/7/base/base-20260701T000000Z-g1.tar.gz"; "gs://b/db/7/wal/000000010000000000000003";
     "gs://b/db/7/wal/000000010000000000000004"; "gs://b/db/7/wal/000000010000000000000009.partial-4096-g1"].
Proof. vm_compute. reflexivity. Qed.

(** ** Orphans *)

Lemma foldl_max {A} (f : A → Z) l z :
  z ≤ foldl (λ m x, if m <? f x then f x else m) z l ∧ ∀ x, x ∈ l → f x ≤ foldl (λ m x, if m <? f x then f x else m) z l.
Proof.
  revert z. induction l as [|a l IH]; intros z; cbn [foldl]; [split; [lia|by intros x ?%not_elem_of_nil]|].
  destruct (IH (if z <? f a then f a else z)) as [H1 H2]. split.
  - destruct (Z.ltb_spec z (f a)); lia.
  - intros x [->|Hx]%elem_of_cons; [|by apply H2]. destruct (Z.ltb_spec z (f a)); lia.
Qed.

(** C14. An archive is purged only when it is safe.  If every lookup of the pass
    is answered, the whole archive is deleted only when purging is enabled, no
    recovery reads it, no lease holds it, no sandbox row of the database exists
    at the last look, its generation did not move, and everything listed in it
    is at least seven days old. *)
Theorem purge_is_safe env bases wals row g g' :
  listBaseBackups (o_bases env) = Some bases → listWALObjects (o_wals env) = Some wals →
  o_row env = Some row → o_gen_before env = Some g → o_gen_after env = Some g' →
  purgeOrphanArchive env = true →
  o_enabled env = true ∧ o_recovering env = false ∧ o_leased env = false ∧ row = false ∧ g' = g ∧
  (∀ b, b ∈ bases → b_ts b ≤ o_now env - orphanPurgeGrace) ∧ (∀ w, w ∈ wals → w_mtime w ≤ o_now env - orphanPurgeGrace).
Proof.
  intros Hb Hw Hr Hg Hg'. unfold purgeOrphanArchive. rewrite Hr, Hg, Hg'.
  destruct (o_enabled env); [|done]. destruct (o_recovering env); [done|]. destruct (o_leased env); [done|]. cbn [negb].
  unfold newestArchiveMtime. rewrite Hb, Hw.
  pose proof (foldl_max b_ts bases zero_time) as [_ H1]. set (n := foldl _ zero_time _) in *.
  pose proof (foldl_max w_mtime wals n) as [H2 H3]. set (m := foldl _ n _) in *.
  change (default [] (Some bases)) with bases in *. change (default [] (Some wals)) with wals in *.
  fold n in H1 |- *. fold m in H2, H3 |- *.
  destruct (Z.eqb_spec m zero_time); [done|]. destruct (Z.ltb_spec (o_now env - m) orphanPurgeGrace); [done|]. cbn [orb].
  destruct row; [done|]. cbn. intros ->%Z.eqb_eq. split_and!; [done..|intros b Hbin; specialize (H1 b Hbin); lia|].
  intros w Hwin. specialize (H3 w Hwin). lia.
Qed.

Definition w_oenv (row : option bool) (gen : option Z) (wals : listing) : purge_env :=
  {| o_enabled := true; o_recovering := false; o_leased := false; o_gen_before := Some 3; o_bases := Listed w_bases;
     o_wals := wals; o_now := w_now + 30 * 24 * Hour; o_row := row; o_gen_after := gen |}.

Lemma purge_is_safe_witness :
  purgeOrphanArchive (w_oenv (Some false) (Some 3) (Listed w_walls)) = true ∧
  (∀ w, w ∈ w_wal_list → w_mtime w ≤ o_now (w_oenv (Some false) (Some 3) (Listed w_walls)) - orphanPurgeGrace).
Proof.
  assert (purgeOrphanArchive (w_oenv (Some false) (Some 3) (Listed w_walls)) = true) as H by (vm_compute; reflexivity).
  split; [exact H|].
  exact (proj2 (proj2 (proj2 (proj2 (proj2 (proj2 (purge_is_safe (w_oenv (Some false) (Some 3) (Listed w_walls)) w_base_list w_wal_list
    false 3 3 ltac:(vm_compute; reflexivity) ltac:(vm_compute; reflexivity) eq_refl eq_refl eq_refl H))))))).
Defined.

(** The last guards fail open: with the row there but its look-up failing, with
    the generation moved but its look-up failing, or with fresh WAL whose
    listing failed, the archive is purged. *)
Lemma purge_fails_open :
  purgeOrphanArchive (w_oenv None (Some 3) (Listed w_walls)) = true ∧
  purgeOrphanArchive (w_oenv (Some false) None (Listed w_walls)) = true ∧
  ∃ fresh, purgeOrphanArchive (w_oenv (Some false) (Some 3) (Listed fresh)) = false ∧
           purgeOrphanArchive (w_oenv (Some false) (Some 3) ListFailed) = true.
Proof.
  split_and!; [vm_compute; reflexivity..|].
  exists (line "16777216" "2026-09-03T00:00:00Z" "wal/000000010000000000000010"). split; vm_compute; reflexivity.
Qed.

(** ** Choosing the base *)

#[local] Instance cand_before_strict : StrictWeak cand_before.
Proof.
  assert (∀ a b, cand_before a b = true ↔ c_gen b < c_gen a ∨ c_gen a = c_gen b ∧ c_ts b < c_ts a) as L.
  { intros a b. unfold cand_before. destruct (Z.eqb_spec (c_gen a) (c_gen b)); cbn; rewrite Z.ltb_lt; lia. }
  split; intros x; [|intros y z|intros y z]; rewrite <- ?not_true_iff_false, !L; lia.
Qed.

Lemma find_first {A} (f : A → string) (ok : string → bool) (R : relation A) l :
  StronglySorted R l →
  match find ok (map f l) with
  | Some u => ∃ c, c ∈ l ∧ f c = u ∧ ok u = true ∧ ∀ c', c' ∈ l → ok (f c') = true → c' = c ∨ R c c'
  | None => ∀ c, c ∈ l → ok (f c) = false
  end.
Proof.
  induction 1 as [|x l Hs IH Hx]; cbn [map find]; [by intros c ?%not_elem_of_nil|].
  rewrite Forall_forall in Hx. destruct (ok (f x)) eqn:Ex.
  - exists x. split_and!; [left|done..|]. intros c [->|Hc]%elem_of_cons Hok; [by left|right; by apply Hx].
  - destruct (find ok (map f l)) as [u|].
    + destruct IH as (c & Hc & Hu & Hok & Hall). exists c. split_and!; [by right|done..|].
      intros c' [->|Hc']%elem_of_cons Hok'; [congruence|by apply Hall].
    + intros c [->|Hc]%elem_of_cons; [done|by apply IH].
Qed.

(** A restore starts from the best usable base.  Of all base backups listed,
    whatever their order, the one staged downloads and passes the integrity
    check, and every base of a higher generation, or of the same generation and
    a later time, does not; a restore fails only if there is no base backup or none
    is usable. *)
Theorem restore_picks_best out usable :
  let cands := omap parse_cand (split nl out) in
  match resolveBaseCandidates (Some out) with
  | None => cands = []
  | Some urls =>
      match pick_base usable urls with
      | Some u => ∃ c, c ∈ cands ∧ c_url c = u ∧ usable u = true ∧
          ∀ c', c' ∈ cands → c_gen c < c_gen c' ∨ c_gen c' = c_gen c ∧ c_ts c < c_ts c' → usable (c_url c') = false
      | None => ∀ c, c ∈ cands → usable (c_url c) = false
      end
  end.
Proof.
  intros cands. unfold resolveBaseCandidates. cbn [mbind option_bind]. fold cands.
  destruct (Nat.eqb_spec (length cands) 0) as [E|_]; [by apply nil_length_inv|].
  pose proof (find_first c_url usable (not_after cand_before) _ (sort_slice_sorted cand_before cands)) as H.
  unfold pick_base. destruct (find usable _) as [u|].
  - destruct H as (c & Hc & Hu & Hok & Hall). rewrite (sort_slice_perm cand_before) in Hc. exists c. split_and!; [done..|].
    intros c' Hc' Hbetter. destruct (usable (c_url c')) eqn:Eok; [|done]. exfalso.
    rewrite <- (sort_slice_perm cand_before) in Hc'. destruct (Hall c' Hc' Eok) as [->|Hr]; [lia|].
    unfold not_after, cand_before in Hr. destruct (Z.eqb_spec (c_gen c') (c_gen c)); cbn in Hr; apply Z.ltb_ge in Hr; lia.
  - intros c Hc. apply H. by rewrite (sort_slice_perm cand_before).
Qed.

(** Retention looks at timestamps only: the base a restore would choose first can
    be the one it deletes, when a superseded host went on uploading. *)
Lemma retention_deletes_the_preferred_base :
  resolveBaseCandidates (Some (String.concat (String nl "") (map b_url w_base_list))) =
    Some ("gs://b/db/7/base/base-20260620T000000Z-g2.tar.gz" ::
          ["gs://b/db/7/base/base-20260730T000000Z-g1.tar.gz"; "gs://b/db/7/base/base-20260701T000000Z-g1.tar.gz";
           "gs://b/db/7/base/base-20260501T000000Z-g1.tar.gz"]) ∧
  "gs://b/db/7/base/base-20260620T000000Z-g2.tar.gz" ∈ (pruneArchiveToRetention (w_penv "") true).1.
Proof.
  split; [vm_compute; reflexivity|].
  apply (bool_decide_eq_true_1 ("gs://b/db/7/base/base-20260620T000000Z-g2.tar.gz" ∈ (pruneArchiveToRetention (w_penv "") true).1)).
  vm_compute. reflexivity.
Qed.

(** ** The staged configuration *)

Lemma split_lines c s : Forall (λ x, all_chars (λ x, negb (Ascii.eqb x c)) x = true) (split c s).
Proof.
  induction s as [|x s IH]; cbn [split]; [by repeat constructor|]. destruct (Ascii.eqb x c) eqn:E; [by constructor|].
  destruct (split c s) as [|y ys]; [constructor; [cbn [all_chars]; by rewrite E|done]|].
  apply Forall_cons in IH as [Hy Hys]. constructor; [|done]. cbn [all_chars]. by rewrite E.
Qed.

Lemma split_join l : l ≠ [] → Forall (λ x, all_chars (λ x, negb (Ascii.eqb x nl)) x = true) l → split nl (join_lines l) = l.
Proof.
  induction l as [|x l IH]; [done|]. intros _ [Hx Hl]%Forall_cons. destruct l as [|y l]; [by apply split_no_sep|].
  change (join_lines (x :: y :: l)) with (x +:+ String nl (join_lines (y :: l))).
  rewrite split_app_sep, (split_no_sep _ x Hx), IH by done. done.
Qed.

(** A restored database boots with the fresh recovery settings only.  Of the
    staged configuration file, whatever the base backup carried over from
    earlier restores, the lines that set recovery are exactly the ones just
    appended, and the other lines are those of the backup, in order. *)
Theorem staged_conf_is_fresh conf :
  filter (λ ln, recovery_line ln = true) (split nl (staged_conf conf)) =
    ["# PandaStack failover recovery"; "restore_command = '/usr/local/bin/pandastack-wal-restore %f %p'";
     "recovery_target_timeline = 'latest'"] ∧
  ∃ blank, Forall (λ x, x = "") blank ∧
    filter (λ ln, recovery_line ln = false) (split nl (staged_conf conf)) =
    filter (λ ln, recovery_line ln = false) (split nl conf) ++ blank.
Proof.
  set (own := filter (λ ln, recovery_line ln = false) (split nl conf)).
  assert (∃ b1, Forall (λ x, x = "") b1 ∧ split nl (stripPandaStackRecoveryConf conf) = own ++ b1) as (b1 & Hb1 & Hs).
  { unfold stripPandaStackRecoveryConf. fold own. destruct (decide (own = [])) as [->|Hne].
    - exists [""]. split; [by repeat constructor|done].
    - exists []. split; [constructor|]. rewrite app_nil_r. apply split_join; [done|].
      pose proof (split_lines nl conf) as H. rewrite Forall_forall in *. intros x [_ Hx]%list_elem_of_filter. by apply H. }
  assert (split nl (staged_conf conf) = (own ++ b1) ++
    ["# PandaStack failover recovery"; "restore_command = '/usr/local/bin/pandastack-wal-restore %f %p'"; "recovery_target_timeline = 'latest'"; ""]) as ->.
  { unfold staged_conf, dbRestoreWALRestoreConf. rewrite split_app_sep, Hs. f_equal. }
  assert (Forall (λ ln, recovery_line ln = false) own) as Hown.
  { apply Forall_forall. by intros x [? _]%list_elem_of_filter. }
  assert (Forall (λ ln, recovery_line ln = false) b1) as Hb1'.
  { eapply Forall_impl; [exact Hb1|]. intros x ->. vm_compute. reflexivity. }
  rewrite !filter_app. split.
  - rewrite (filter_none _ own), (filter_none _ b1).
    + vm_compute. reflexivity.
    + eapply Forall_impl; [exact Hb1'|]. intros x ->. done.
    + eapply Forall_impl; [exact Hown|]. intros x ->. done.
  - exists (b1 ++ [""]). split; [apply Forall_app; split; [done|by repeat constructor]|].
    rewrite (filter_id _ own), (filter_id _ b1), <- app_assoc by done. f_equal.
Qed.
