(* ===== verification/Lifecycle.v ===== *)
(** The life of one sandbox on its agent, agent/internal/sandbox/manager.go:
    Hibernate, Wake, EnsureRunning, Pause, Resume, delete, the crash teardown
    of teardown.go, the health monitor, the restart's Recover and the in-place
    restore of db_restore.go, with the Firecracker driver's start and stop.

    Everything here is keyed by the sandbox id, so one [world] is what the
    agent, the disk, the kernel and the store hold for one id.  An operation is
    cut where another goroutine or a kill can come between two of its effects:
    the lifecycle lock's holder is a program counter ([lock]), the operations
    that do not take the lock leave the rest of their work in [bg], and an
    [event] is one step of either, or of the guest, the kernel or the agent
    process.  A call of the SDK is one step, and so is a removal of a directory
    tree; it may leave part of the tree, which is also what a kill in the middle
    of it leaves. *)

From S2P Require Import Prelude.

Open Scope list_scope.
Open Scope nat_scope.
#[local] Set Warnings "-clear-no-such-hyp".

(** ** Data *)

Inductive status := StatusCreating | StatusRunning | StatusPaused | StatusStopping
                  | StatusDeleted | StatusFailed | StatusHibernated.

#[export] Instance status_eq_dec : EqDecision status.
Proof. solve_decision. Defined.

Inductive vcpu := VPaused | VRunning.

(** A process that died stays in /proc until its parent waits for it. *)
Inductive pstate := Live (v : vcpu) | Zombie | Gone.

(** [d.machine], started and waited for by the SDK, or [d.proc], an
    [exec.Cmd] that only [Stop] waits for. *)
Inductive kind := SDK | Raw.
#[export] Instance kind_eq_dec : EqDecision kind.
Proof. solve_decision. Defined.

(** A Firecracker process.  [p_view] is the version of the root disk its
    guest's memory (page cache, open files) agrees with. *)
Record proc := mkProc { p_kind : kind; p_state : pstate; p_view : nat }.

(** A snapshot directory: the view frozen into each of its two files. *)
Record snap := mkSnap { vm_mem : option nat; vm_state : option nat }.

(** What <DataDir>/vms/<id> holds: rootfs.ext4 (the version of its contents),
    hibernation/ and hibernation.tmp/. *)
Record files := mkFiles { rootfs : option nat; hib : option snap; tmp : option snap }.

(** How the sandbox is attached to the network ([alloc.TAP]'s prefix). *)
Inductive netkind := Legacy | NATID.

(** Where the holder of the lifecycle lock is: the next thing it does. *)
Inductive pc :=
  | H_tmp (p : nat) | H_pause (p : nat) | H_snap (p : nat) | H_undo (p : nat) | H_clean
  | H_swap (p : nat) | H_rename (p : nat) | H_stop (p : nat) | H_drop | H_status
  | W_check | W_realloc | W_start (k : netkind) | W_patch (p : nat) | W_resume (p : nat)
  | W_register (p : nat) | W_ready (p : nat) | W_undo (p : nat) | W_done (p : nat)
  | R_backup | R_drop | R_net | R_dir | R_vol | R_build | R_row | R_create.

(** What an operation outside the lock still has to do. *)
Inductive act := AKill (p : nat) | ANet | ARow | ADir | AVol | AFail.

Record world := mkWorld {
  procs : list proc;            (* every process ever started for the id *)
  sock : bool;                  (* /tmp/fc-<id>.socket *)
  vmdir : option files;
  vol : option nat;             (* volumes/db/<id>.ext4: its version *)
  backups : list nat;           (* the versions base backups were taken of *)
  row : option status;          (* the sandboxes row *)
  net : option netkind;         (* what netPool.Lookup finds *)
  netns : bool;                 (* netns.Exists *)
  driver : option nat;          (* m.drivers[id] *)
  mon : list nat;               (* the health monitors, by what they watch *)
  lock : option pc;             (* lifecycleLock(id) *)
  bg : list (list act);
}.

Definition set_procs f w := mkWorld (f (procs w)) (sock w) (vmdir w) (vol w) (backups w) (row w) (net w) (netns w) (driver w) (mon w) (lock w) (bg w).
Definition set_sock b w := mkWorld (procs w) b (vmdir w) (vol w) (backups w) (row w) (net w) (netns w) (driver w) (mon w) (lock w) (bg w).
Definition set_vmdir d w := mkWorld (procs w) (sock w) d (vol w) (backups w) (row w) (net w) (netns w) (driver w) (mon w) (lock w) (bg w).
Definition set_vol v w := mkWorld (procs w) (sock w) (vmdir w) v (backups w) (row w) (net w) (netns w) (driver w) (mon w) (lock w) (bg w).
Definition set_backups v w := mkWorld (procs w) (sock w) (vmdir w) (vol w) v (row w) (net w) (netns w) (driver w) (mon w) (lock w) (bg w).
Definition set_row r w := mkWorld (procs w) (sock w) (vmdir w) (vol w) (backups w) r (net w) (netns w) (driver w) (mon w) (lock w) (bg w).
Definition set_net n b w := mkWorld (procs w) (sock w) (vmdir w) (vol w) (backups w) (row w) n b (driver w) (mon w) (lock w) (bg w).
Definition set_driver d w := mkWorld (procs w) (sock w) (vmdir w) (vol w) (backups w) (row w) (net w) (netns w) d (mon w) (lock w) (bg w).
Definition set_mon f w := mkWorld (procs w) (sock w) (vmdir w) (vol w) (backups w) (row w) (net w) (netns w) (driver w) (f (mon w)) (lock w) (bg w).
Definition set_lock l w := mkWorld (procs w) (sock w) (vmdir w) (vol w) (backups w) (row w) (net w) (netns w) (driver w) (mon w) l (bg w).
Definition set_bg b w := mkWorld (procs w) (sock w) (vmdir w) (vol w) (backups w) (row w) (net w) (netns w) (driver w) (mon w) (lock w) b.

(** How a call ends: it succeeds, it fails without effect, or it fails half way,
    for which some calls have two ways. *)
Inductive outcome := Good | Bad | Half | Torn.

(** ** The store, the disk, the driver *)

(** [UPDATE sandboxes SET status=? WHERE id=?]: nothing without a row. *)
Definition SetStatus (s : status) (w : world) : world :=
  set_row (match row w with Some _ => Some s | None => None end) w.

Definition SetStatusIf (from to : status) (w : world) : world * bool :=
  if decide (row w = Some from) then (set_row (Some to) w, true) else (w, false).

Definition no_files : files := mkFiles None None None.
(** [os.MkdirAll] below vmDir creates vmDir when it is gone. *)
Definition on_files (f : files → files) (w : world) : world :=
  set_vmdir (Some (f (default no_files (vmdir w)))) w.
Definition set_hib (s : option snap) (f : files) : files := mkFiles (rootfs f) s (tmp f).
Definition set_tmp (s : option snap) (f : files) : files := mkFiles (rootfs f) (hib f) s.
Definition empty_snap : snap := mkSnap None None.
(** [os.RemoveAll] of a snapshot directory: done; not begun; or ended early,
    with vm.mem or vm.state gone. *)
Definition RemoveAll (o : outcome) (s : option snap) : option snap :=
  match o with
  | Good => None
  | Bad => s
  | Half => (λ s, mkSnap None (vm_state s)) <$> s
  | Torn => (λ s, mkSnap (vm_mem s) None) <$> s
  end.
(** [os.RemoveAll] of hibernation.tmp/. *)
Definition rm_tmp (o : outcome) (w : world) : world := set_vmdir ((λ f, set_tmp (RemoveAll o (tmp f)) f) <$> vmdir w) w.
(** [os.RemoveAll] of vmDir. *)
Definition rm_vmdir (o : outcome) (w : world) : world :=
  set_vmdir
    match o with
    | Good => None
    | Bad => vmdir w
    | Half => (λ f, mkFiles None (RemoveAll Half (hib f)) (tmp f)) <$> vmdir w
    | Torn => (λ f, mkFiles (rootfs f) (RemoveAll Torn (hib f)) (tmp f)) <$> vmdir w
    end w.
(** [os.Rename] onto a directory: refused unless it is empty. *)
Definition renamable (s : option snap) : bool :=
  match s with None | Some (mkSnap None None) => true | _ => false end.

Definition pstate_at (w : world) (p : nat) : option pstate := p_state <$> procs w !! p.
Definition with_state (s : pstate) (x : proc) : proc := mkProc (p_kind x) s (p_view x).
Definition set_pstate (p : nat) (s : pstate) (w : world) : world := set_procs (alter (with_state s) p) w.

Definition alive (x : proc) : bool := match p_state x with Live _ => true | _ => false end.
Definition live_at (w : world) (p : nat) : bool := default false (alive <$> procs w !! p).

(** [os.Stat("/proc/<pid>")] finds a zombie too. *)
Definition pidAlive (w : world) (p : nat) : bool :=
  match pstate_at w p with Some (Live _) | Some Zombie => true | _ => false end.

(** [Driver.Pause], [Driver.Resume]: refused without a live process. *)
Definition vm_set (v : vcpu) (p : nat) (w : world) : option world :=
  if live_at w p then Some (set_pstate p (Live v) w) else None.

(** [Driver.Stop], [FastStop], which remove the socket and return nil.  A raw
    process is killed and waited for; the SDK's machine is told to stop, an
    error only logged, and waited for at most ten seconds: it may live on. *)
Definition stopped (o : outcome) (x : proc) : proc :=
  match o, p_kind x with Good, _ | _, Raw => with_state Gone x | _, SDK => x end.
Definition Stop (o : outcome) (p : nat) (w : world) : world := set_sock false (set_procs (alter (stopped o) p) w).

(** What [/snapshot/create] freezes. *)
Definition freeze (p : nat) (w : world) : option nat :=
  x ← procs w !! p; match p_state x with Live VPaused => Some (p_view x) | _ => None end.

(** ** The lock holder *)

Definition unlock (w : world) : world := set_lock None w.
Definition goto (c : pc) (w : world) : world := set_lock (Some c) w.
(** [_ = m.store.SetStatus(ctx, id, string(StatusFailed)); return err] *)
Definition fail (w : world) : world := unlock (SetStatus StatusFailed w).

Definition new_proc (k : kind) (v : vcpu) (view : nat) (w : world) : world :=
  set_sock true (set_procs (λ l, l ++ [mkProc k (Live v) view]) w).

Definition kind_of (n : netkind) : kind := match n with Legacy => SDK | NATID => Raw end.

(** [Hibernate], one call at a time. *)
Definition hibernate (o : outcome) (c : pc) (w : world) : option world :=
  match c with
  | H_tmp p =>
      match o with                               (* removed? made? *)
      | Good => Some (goto (H_pause p) (on_files (set_tmp (Some empty_snap)) w))
      | Bad => Some (unlock (rm_tmp Good w))
      | Half => Some (goto (H_pause p) (on_files (λ f, set_tmp (Some (default empty_snap (tmp f))) f) w))
      | Torn => Some (unlock w)
      end
  | H_pause p =>
      match o with
      | Good => goto (H_snap p) <$> vm_set VPaused p w
      | Half => goto (H_undo p) <$> vm_set VPaused p w      (* timed out, yet paused *)
      | _ => Some (goto (H_undo p) w)
      end
  | H_snap p =>
      match o with
      | Good => v ← freeze p w; f ← vmdir w; _ ← tmp f;
                Some (goto (H_swap p) (set_vmdir (Some (set_tmp (Some (mkSnap (Some v) (Some v))) f)) w))
      | Half => v ← freeze p w; f ← vmdir w; s ← tmp f;
                Some (goto (H_undo p) (set_vmdir (Some (set_tmp (Some (mkSnap (Some v) (vm_state s))) f)) w))
      | _ => Some (goto (H_undo p) w)
      end
  | H_undo p => goto H_clean <$> match o with Good => vm_set VRunning p w | _ => Some w end
  | H_clean => Some (unlock (rm_tmp o w))
  | H_swap p => Some (goto (H_rename p) (on_files (λ f, set_hib (RemoveAll o (hib f)) f) w))
  | H_rename p =>
      match o with
      | Good => f ← vmdir w; s ← tmp f;
                if renamable (hib f) then Some (goto (H_stop p) (set_vmdir (Some (set_tmp None (set_hib (Some s) f))) w)) else None
      | _ => Some (goto (H_undo p) w)
      end
  | H_stop p => Some (goto H_drop (Stop o p w))
  | H_drop => Some (goto H_status (set_driver None w))
  | H_status => Some (unlock (match o with Good => SetStatus StatusHibernated w | _ => w end))
  | _ => None
  end.

(** What a restore reads: both files. *)
Definition image (w : world) : option nat :=
  f ← vmdir w; s ← hib f; v ← vm_mem s; u ← vm_state s; if decide (u = v) then Some v else None.
(** [os.Stat(filepath.Join(hiberDir, "vm.state"))] *)
Definition has_state (w : world) : bool :=
  bool_decide (is_Some (f ← vmdir w; s ← hib f; vm_state s)).
Definition has_mem (w : world) : bool :=
  bool_decide (is_Some (f ← vmdir w; s ← hib f; vm_mem s)).

(** The old allocation is released before the new one is made. *)
Definition reallocateNATID (o : outcome) (w : world) : world :=
  match o with
  | Good => set_net (Some NATID) true w
  | Bad => w
  | _ => set_net None false w
  end.

(** The raw process: loaded and paused; not spawned; or spawned, its load
    refused, killed but not waited for. *)
Definition StartFromSnapNoDrive (o : outcome) (w : world) : option world :=
  match o with
  | Good => if netns w then v ← image w; Some (new_proc Raw VPaused v w) else None
  | Half => Some (set_sock true (set_procs (λ l, l ++ [mkProc Raw Zombie 0]) w))
  | _ => Some (set_sock false w)
  end.

(** The SDK's machine, from a snapshot: loaded and resumed; not started; or
    loaded and left when the resume fails. *)
Definition Start (o : outcome) (w : world) : option world :=
  match o with
  | Good => v ← image w; Some (new_proc SDK VRunning v w)
  | Half => v ← image w; Some (new_proc SDK VPaused v w)
  | _ => Some (set_sock false w)
  end.

(** [wakeLocked]. *)
Definition wake (o : outcome) (c : pc) (w : world) : option world :=
  match c with
  | W_check =>
      match o, has_state w, net w with
      | Good, true, Some NATID => Some (goto (if netns w then W_start NATID else W_realloc) w)
      | Good, true, Some Legacy => Some (goto (W_start Legacy) w)
      | _, _, _ => Some (unlock w)
      end
  | W_realloc =>
      match o with
      | Good => Some (goto (W_start NATID) (reallocateNATID o w))
      | _ => Some (fail (reallocateNATID o w))
      end
  | W_start k =>
      match o, k with
      | Good, NATID => goto (W_patch (length (procs w))) <$> StartFromSnapNoDrive o w
      | _, NATID => fail <$> StartFromSnapNoDrive o w
      | Good, Legacy => goto (W_register (length (procs w))) <$> Start o w
      | _, Legacy => fail <$> Start o w
      end
  | W_patch p =>
      match o with
      | Good => if live_at w p then Some (goto (W_resume p) w) else None
      | _ => Some (fail (Stop o p w))
      end
  | W_resume p =>
      match o with Good => goto (W_register p) <$> vm_set VRunning p w | _ => Some (fail (Stop o p w)) end
  | W_register p => Some (goto (W_ready p) (set_driver (Some p) w))
  | W_ready p =>
      match o with
      | Good => if live_at w p then Some (goto (W_done p) w) else None
      | _ => Some (goto (W_undo p) w)
      end
  | W_undo p => Some (fail (set_driver None (Stop o p w)))
  | W_done p =>
      Some (unlock (match o with Good => SetStatus StatusRunning (set_mon (cons p) w) | _ => set_mon (cons p) w end))
  | _ => None
  end.

(** [RestoreDatabase] with [InPlace]: the backup, [teardownResourcesOpts]
    (handles, network, vm dir, volume), the rebuilt volume, the stale row and
    [Create].  [v] is the version the archive rebuilds. *)
Definition restore (v : nat) (o : outcome) (c : pc) (w : world) : option world :=
  match c with
  | R_backup =>
      match o with
      | Good => Some (goto R_drop (set_backups (option_list (vol w) ++ backups w) w))
      | _ => Some (unlock w)
      end
  | R_drop => Some (goto R_net (set_driver None w))
  | R_net => Some (goto R_dir (match o with Good => set_net None false w | Half => set_net None (netns w) w | _ => w end))
  | R_dir => Some (goto R_vol (rm_vmdir o w))
  | R_vol => Some (goto R_build (match o with Good => set_vol None w | _ => w end))
  | R_build =>
      match o with
      | Good => Some (goto R_row (set_vol (Some v) w))
      | _ => Some (fail w)
      end
  | R_row => Some (goto R_create (match o with Good => set_row None w | _ => w end))
  | R_create =>
      match o with
      | Good =>
          let p := length (procs w) in
          Some (unlock (set_mon (cons p) (set_driver (Some p) (set_row (Some StatusRunning)
            (set_net (Some NATID) true (on_files (λ f, mkFiles (Some 0) (hib f) (tmp f)) (new_proc Raw VRunning 0 w)))))))
      | Bad => Some (unlock (set_row (Some StatusFailed) (set_net None false (set_vmdir None w))))
      | Half => Some (unlock (set_row None (set_net None false (set_vmdir None w))))     (* not re-inserted *)
      | Torn => Some (unlock (set_row (Some StatusFailed) (set_net None false w)))       (* vm dir kept *)
      end
  | _ => None
  end.

(** ** Events *)

(** The sandbox's constants: [managedKind] is not empty; the agent's
    [ownsRow]; the version of the archive a restore rebuilds; whether the SDK's
    [Machine.PID] still answers with the pid of a process that has exited. *)
Record config := mkConfig { managed : bool; owned : bool; archived : nat; sdk_pid : bool }.

(** [Driver.PID() != 0]: [Stop] forgets [d.proc], and only [Stop] waits for it. *)
Definition PID (cf : config) (w : world) (p : nat) : bool :=
  match procs w !! p with
  | Some (mkProc Raw Gone _) | None => false
  | Some (mkProc SDK (Zombie | Gone) _) => sdk_pid cf
  | Some _ => true
  end.

Inductive event :=
  | CallHibernate | CallWake | CallEnsureRunning | CallRestore
  | Advance (o : outcome)
  | CallPause | CallResume
  | CallDelete (force : bool) (read : bool)    (* whether GetSandbox answers *)
  | Background (k : nat) (o : outcome)
  | HealthTick (p : nat)
  | GuestWrite (p : nat)
  | ProcessDies (p : nat)
  | AgentKilled (spared : bool)
  | Recover (o : outcome).                     (* of its removal of the vm dir *)

(** One call of those operations; the next follows however it ends. *)
Definition run_act (o : outcome) (a : act) (w : world) : world :=
  match a, o with
  | AKill p, _ => Stop o p w
  | ADir, _ => rm_vmdir o w
  | ANet, Good => set_net None false w
  | ANet, Half => set_net None (netns w) w      (* the namespace stays *)
  | ARow, Good => set_row None w
  | AVol, Good => set_vol None w
  | AFail, Good => SetStatus StatusFailed w
  | _, _ => w
  end.

(** [delete]: FastStop, netPool.Release, DeleteSandbox, then the goroutine. *)
Definition delete_acts (d : option nat) : list act := (AKill <$> option_list d) ++ [ANet; ARow; ADir; AVol].
(** [teardownResourcesKeepDurable], then SetStatus. *)
Definition crash_acts : list act := [ANet; ADir; AFail].

(** A guest writes its disk; if its memory agreed with it, it still does. *)
Definition write (p : nat) (w : world) : option world :=
  x ← procs w !! p;
  match p_state x with
  | Live VRunning =>
      match vmdir w ≫= rootfs with
      | Some d =>
          let x' := mkProc (p_kind x) (p_state x) (if decide (p_view x = d) then S d else p_view x) in
          Some (set_vmdir ((λ f, mkFiles (Some (S d)) (hib f) (tmp f)) <$> vmdir w)
                  (set_procs (<[p := x']>) (set_vol (S <$> vol w) w)))
      | None => Some w
      end
  | _ => None
  end.

(** [Recover] on the row of this sandbox. *)
Definition recover (cf : config) (w : world) : world :=
  match row w with
  | None => w
  | Some st =>
      if negb (owned cf) then w
      else match st with
      | StatusCreating => (SetStatusIf StatusCreating StatusFailed w).1
      | StatusRunning | StatusPaused =>
          if has_mem w then set_sock false (SetStatus StatusHibernated w)
          else if negb (sock w) then set_net None false (SetStatus StatusFailed w)
          else SetStatus StatusFailed w
      | _ => w
      end
  end.

(** Its second part: the vm dirs of no live row, no live process. *)
Definition recover_gc (o : outcome) (live_row : bool) (w : world) : world :=
  if live_row then w else if sock w then w else rm_vmdir o w.
Definition live_row (cf : config) (w : world) : bool :=
  match row w with Some st => negb (owned cf) || negb (bool_decide (st = StatusFailed)) | None => false end.

Definition Recover_all (cf : config) (o : outcome) (w : world) : world :=
  recover_gc o (live_row cf w) (recover cf w).

Definition all_gone (w : world) : world :=
  set_procs (fmap (λ x, match p_state x with Zombie => with_state Gone x | _ => x end)) w.
Definition kill_all (w : world) : world := set_procs (fmap (with_state Gone)) w.

Definition advance (cf : config) (o : outcome) (w : world) : option world :=
  c ← lock w;
  match hibernate o c w with
  | Some w' => Some w'
  | None => match wake o c w with Some w' => Some w' | None => restore (archived cf) o c w end
  end.

(** The way into each operation: the lock, the driver's absence or presence. *)
Definition Hibernate (w : world) : option world :=
  match lock w, driver w with
  | Some _, _ => None
  | None, None => Some w
  | None, Some p => Some (goto (H_tmp p) w)
  end.

Definition Wake (w : world) : option world :=
  match lock w, driver w with
  | Some _, _ => None
  | None, Some _ => Some w
  | None, None => Some (goto W_check w)
  end.

Definition EnsureRunning (w : world) : option world :=
  match driver w, lock w with
  | Some _, _ => Some w
  | None, Some _ => None
  | None, None => if has_state w then Some (goto W_check w) else Some w
  end.

Definition RestoreInPlace (w : world) : option world :=
  match lock w, driver w with
  | Some _, _ => None
  | None, None => Some w
  | None, Some _ => Some (goto R_backup w)
  end.

(** These do not take the lock. *)
Definition Pause (w : world) : option world :=
  match driver w with
  | None => Some w
  | Some p => match vm_set VPaused p w with Some w' => Some (SetStatus StatusPaused w') | None => Some w end
  end.

Definition Resume (w : world) : option world :=
  match driver w with
  | None => Some w
  | Some p => match vm_set VRunning p w with Some w' => Some (SetStatus StatusRunning w') | None => Some w end
  end.

(** The guard lets pass what it cannot read. *)
Definition delete_sandbox (cf : config) (force read : bool) (w : world) : option world :=
  if negb force && read && managed cf && bool_decide (is_Some (row w)) then Some w
  else Some (set_bg (bg w ++ [delete_acts (driver w)]) (set_driver None w)).

(** A tick of the monitor that watches [p]; it ends once the driver is
    another. *)
Definition health_tick (cf : config) (p : nat) (w : world) : option world :=
  if negb (bool_decide (p ∈ mon w)) then None
  else if negb (bool_decide (driver w = Some p)) then Some (set_mon (filter (λ q, q ≠ p)) w)
  else if negb (PID cf w p) then Some w                     (* still starting / transient *)
  else if pidAlive w p then Some w
  else Some (set_bg (bg w ++ [crash_acts]) (set_driver None (set_mon (filter (λ q, q ≠ p)) w))).

Definition step (cf : config) (e : event) (w : world) : option world :=
  match e with
  | CallHibernate => Hibernate w
  | CallWake => Wake w
  | CallEnsureRunning => EnsureRunning w
  | CallRestore => RestoreInPlace w
  | Advance o => advance cf o w
  | CallPause => Pause w
  | CallResume => Resume w
  | CallDelete force read => delete_sandbox cf force read w
  | Background k o =>
      match bg w !! k with
      | Some (a :: rest) => Some (set_bg (<[k := rest]> (bg w)) (run_act o a w))
      | _ => None
      end
  | HealthTick p => health_tick cf p w
  | GuestWrite p => write p w
  | ProcessDies p =>
      x ← procs w !! p;
      match p_state x with
      | Live _ => Some (set_pstate p (match p_kind x with SDK => Gone | Raw => Zombie end) w)
      | _ => None
      end
  | AgentKilled spared =>
      let w := set_bg [] (set_lock None (set_mon (λ _, []) (set_driver None w))) in
      if spared then Some (all_gone w) else Some (kill_all w)
  | Recover o =>
      match driver w, lock w with None, None => Some (Recover_all cf o w) | _, _ => None end
  end.

Fixpoint run (cf : config) (es : list event) (w : world) : option world :=
  match es with
  | [] => Some w
  | e :: es => w' ← step cf e w; run cf es w'
  end.

(** ** Reachability *)

(** A sandbox just created. *)
Definition booted (n : netkind) (db : option nat) : world :=
  mkWorld [mkProc (kind_of n) (Live VRunning) 0] true (Some (mkFiles (Some 0) None None)) db []
    (Some StatusRunning) (Some n) (match n with NATID => true | Legacy => false end) (Some 0) [0] None [].

Definition reachable (cf : config) (w : world) : Prop :=
  ∃ n db es, run cf es (booted n db) = Some w.

Lemma run_app cf es1 es2 w : run cf (es1 ++ es2) w = (run cf es1 w ≫= run cf es2).
Proof.
  revert w. induction es1 as [|e es1 IH]; intros w; [done|].
  change (run cf ((e :: es1) ++ es2) w) with (step cf e w ≫= run cf (es1 ++ es2)).
  change (run cf (e :: es1) w) with (step cf e w ≫= run cf es1).
  destruct (step cf e w); [apply IH|done].
Qed.

Lemma run_inv cf (I : world → Prop) es w w' :
  (∀ e u u', I u → step cf e u = Some u' → I u') → I w → run cf es w = Some w' → I w'.
Proof.
  intros Hs. revert w. induction es as [|e es IH]; intros w Hw H; [by injection H as <-|].
  change (step cf e w ≫= run cf es = Some w') in H. destruct (step cf e w) eqn:E; [|done]. eauto.
Qed.

(** ** The snapshot directory *)

Definition snap_of (v : nat) : snap := mkSnap (Some v) (Some v).
Definition complete (s : snap) : Prop := ∃ v, s = snap_of v.
(** [s] is what a removal of [s0] has left. *)
Definition part (s s0 : snap) : Prop :=
  (vm_mem s = None ∨ vm_mem s = vm_mem s0) ∧ (vm_state s = None ∨ vm_state s = vm_state s0).
Definition left_of (s s0 : option snap) : Prop := match s with None => True | Some s => ∃ s', s0 = Some s' ∧ part s s' end.

Definition the_hib (w : world) : option snap := vmdir w ≫= hib.
Definition the_tmp (w : world) : option snap := vmdir w ≫= tmp.

(** The steps that remove the whole vm directory. *)
Definition clears (e : event) (w : world) : Prop :=
  match e with
  | Background k _ => ∃ l, bg w !! k = Some (ADir :: l)
  | Recover _ => True
  | Advance _ => lock w = Some R_dir ∨ lock w = Some R_create
  | _ => False
  end.

(** Between a successful snapshot and its promotion hibernation.tmp/ is
    complete, unless the whole vm dir went. *)
Definition tmp_ready (w : world) : Prop :=
  match lock w with
  | Some (H_swap _) => vmdir w = None ∨ ∃ s, the_tmp w = Some s ∧ complete s
  | Some (H_rename _) => ∀ s, the_tmp w = Some s → complete s
  | _ => True
  end.

Definition snap_inv (w : world) : Prop := (∀ s, the_hib w = Some s → ∃ v, part s (snap_of v)) ∧ tmp_ready w.

(** The ways hibernation/ changes in a step. *)
Definition hib_change (e : event) (w w' : world) : Prop :=
  the_hib w' = the_hib w ∨
  left_of (the_hib w') (the_hib w) ∧ (clears e w ∨ ∃ p, lock w = Some (H_swap p)) ∨
  (∃ p s, lock w = Some (H_rename p) ∧ the_tmp w = Some s ∧ the_hib w' = Some s).

(** Split a step into its cases, each with its resulting world. *)
Ltac split_step H :=
  repeat (cbn in H; unfold mbind, option_bind, fmap, option_fmap, option_map in H;
    match type of H with
    | None = Some _ => discriminate H
    | Some _ = Some _ => injection H as <-
    | context [match ?x with _ => _ end] =>
        match x with
        | context [match _ with _ => _ end] => fail 1
        | _ => first [is_var x; destruct x | let E := fresh "E" in destruct x eqn:E]
        end
    end).

(** All the steps of a world, case by case. *)
Ltac all_steps w e H :=
  destruct w as [ps sk vd vo ba ro ne ns dr mo lo bg0];
  destruct e; unfold step, Hibernate, Wake, EnsureRunning, RestoreInPlace, Pause, Resume, delete_sandbox, health_tick, advance, hibernate, wake, StartFromSnapNoDrive, Start, Stop, restore, vm_set, freeze, image, write, fail, goto, unlock in H;
  split_step H;
  repeat match goal with a : act |- _ => destruct a | o : outcome |- _ => destruct o end.

Lemma Recover_all_dir cf o w : vmdir (Recover_all cf o w) = vmdir w ∨ vmdir (Recover_all cf o w) = vmdir (rm_vmdir o w).
Proof.
  unfold Recover_all, recover_gc, recover.
  repeat match goal with |- context [if ?b then _ else _] => destruct b end; auto.
  all: destruct (row w) as [[]|]; auto; unfold SetStatusIf;
    repeat match goal with |- context [if ?b then _ else _] => destruct b end; auto.
Qed.
Lemma Recover_all_lock cf o w : lock (Recover_all cf o w) = lock w.
Proof.
  unfold Recover_all, recover_gc, recover.
  repeat match goal with |- context [if ?b then _ else _] => destruct b end; auto.
  all: destruct (row w) as [[]|]; auto; unfold SetStatusIf;
    repeat match goal with |- context [if ?b then _ else _] => destruct b end; auto.
Qed.

Lemma part_refl s : part s s.
Proof. split; auto. Qed.
Lemma part_trans s1 s2 s3 : part s1 s2 → part s2 s3 → part s1 s3.
Proof. intros [[E1|E1] [E2|E2]] [[E3|E3] [E4|E4]]; split; rewrite ?E1, ?E2, ?E3, ?E4; auto. Qed.
Lemma left_of_refl s : left_of s s.
Proof. destruct s; cbn; eauto using part_refl. Qed.

Lemma RemoveAll_left o s : left_of (RemoveAll o s) s.
Proof. destruct o, s; cbn; try done; eexists; (split; [reflexivity|split; auto]). Qed.

Lemma rm_vmdir_left o w : left_of (the_hib (rm_vmdir o w)) (the_hib w).
Proof.
  destruct w as [? ? [f|]]; destruct o; try done; unfold the_hib; cbn; [apply left_of_refl|..].
  - apply (RemoveAll_left Half).
  - apply (RemoveAll_left Torn).
Qed.

Lemma rm_vmdir_tmp o w s : the_tmp (rm_vmdir o w) = Some s → the_tmp w = Some s.
Proof. destruct w as [? ? [f|]]; by destruct o. Qed.

Lemma Recover_all_left cf o w : left_of (the_hib (Recover_all cf o w)) (the_hib w).
Proof.
  destruct (Recover_all_dir cf o w) as [E|E]; unfold the_hib in *; rewrite E; [apply left_of_refl|apply rm_vmdir_left].
Qed.

Lemma step_hib cf e w w' : step cf e w = Some w' → hib_change e w w'.
Proof.
  intros H. unfold hib_change, clears.
  all_steps w e H; try by left.
  all: try (right; left; split; [apply Recover_all_left|by left]).
  all: unfold the_hib, the_tmp, left_of, part; cbn; try by left.
  all: repeat match goal with d : option files |- _ => destruct d | f : files |- _ => destruct f end; cbn; try by left.
  all: try (right; left; split; [repeat match goal with s : option snap |- _ => destruct s end; cbn; eauto 10|eauto 10]; fail).
  right; right. eauto.
Qed.

Lemma step_snap cf e w w' : snap_inv w → step cf e w = Some w' → snap_inv w'.
Proof.
  intros [Hh Ht] H. split.
  - destruct (step_hib cf e w w' H) as [->|[[Hl _]|(p & s & Hl & Hs & ->)]]; [done|..].
    + intros s E. rewrite E in Hl. destruct Hl as (s0 & E0 & Hp). destruct (Hh s0 E0) as [v Hv]. exists v. by eapply part_trans.
    + unfold tmp_ready in Ht. rewrite Hl in Ht. intros s' [= <-]. destruct (Ht s Hs) as [v ->]. exists v. apply part_refl.
  - clear Hh. all_steps w e H; unfold tmp_ready, the_tmp, complete in *; cbn in *; try done.
    all: try (match goal with |- context [Recover_all ?cf ?o ?w] => rewrite Recover_all_lock end; done).
    all: try (destruct spared; cbn; done).
    all: repeat match goal with d : option files |- _ => destruct d | f : files |- _ => destruct f end; cbn in *; try done.
    all: unfold snap_of in *; try (eauto; fail).
    all: try (right; eauto; fail).
    all: try (destruct ns; done).
    all: try (intros s E; destruct Ht as [?|(? & E' & Hc)]; [done|rewrite E in E'; injection E' as <-; exact Hc]).
    all: destruct lo as [[]|]; try done; first [by left | by destruct Ht as [|]; [|right]].
Qed.

Lemma reachable_snap cf w : reachable cf w → snap_inv w.
Proof.
  intros (n & db & es & H). refine (run_inv cf snap_inv es _ _ (λ e u u', step_snap cf e u u') _ H).
  by split.
Qed.

(** C9. Hibernation never mixes two snapshots and never gives up the last good
    one for a bad one.  In every run, with any kills, deletes and failures, the
    files in hibernation/ are all of one snapshot: both, or what a removal has
    left of them.  A step that changes it either removes from it, and then it
    removes the whole vm directory or a complete newer snapshot is already in
    hibernation.tmp/ (unless that vm directory was removed under the Hibernate);
    or it renames a complete hibernation.tmp/ into its place. *)
Theorem snapshot_never_torn cf w e w' :
  reachable cf w → step cf e w = Some w' →
  (∀ s, the_hib w' = Some s → ∃ v, part s (snap_of v)) ∧
  (the_hib w' = the_hib w ∨
   (left_of (the_hib w') (the_hib w) ∧
    (clears e w ∨ ∃ p, lock w = Some (H_swap p) ∧ (vmdir w = None ∨ ∃ s, the_tmp w = Some s ∧ complete s))) ∨
   (∃ p s, lock w = Some (H_rename p) ∧ the_tmp w = Some s ∧ complete s ∧ the_hib w' = Some s)).
Proof.
  intros Hr%reachable_snap H. split; [apply (step_snap cf e w w' Hr H)|].
  destruct Hr as [_ Ht]. unfold tmp_ready in Ht.
  destruct (step_hib _ _ _ _ H) as [?|[[? [?|[p Hl]]]|(p & s & Hl & Hs & Hh)]]; rewrite ?Hl in Ht; eauto 10.
Qed.

Definition cf0 : config := mkConfig false true 7 false.
(** [n] successful calls of the lock's holder. *)
Definition good (n : nat) : list event := replicate n (Advance Good).
Definition hibernates : list event := CallHibernate :: good 8.
Definition wakes : list event := CallWake :: good 7.

Definition after (cf : config) (n : netkind) (es : list event) : world :=
  default (booted n None) (run cf es (booted n None)).

Lemma after_reachable cf n es : is_Some (run cf es (booted n None)) → reachable cf (after cf n es).
Proof. intros [w H]. exists n, None, es. unfold after. by rewrite H. Qed.

Example snapshot_never_torn_witness :
  let w := after cf0 NATID (hibernates ++ wakes ++ [GuestWrite 1; CallHibernate] ++ good 3 ++ [Advance Half; Advance Bad]) in
  let w1 := after cf0 NATID (hibernates ++ wakes ++ [GuestWrite 1; CallHibernate] ++ good 4) in
  let w2 := default w1 (step cf0 (Advance Good) w1) in
  (∃ s v, the_hib w = Some s ∧ part s (snap_of v)) ∧ image w = None ∧
  (∃ s v, the_hib w2 = Some s ∧ part s (snap_of v)) ∧ the_hib w1 = None ∧ the_tmp w1 = Some (snap_of 1) ∧ image w2 = Some 1.
Proof.
  intros w w1 w2.
  set (w0 := after cf0 NATID (hibernates ++ wakes ++ [GuestWrite 1; CallHibernate] ++ good 3 ++ [Advance Half])).
  assert (reachable cf0 w0) as Hr0 by (apply after_reachable; vm_compute; eauto).
  assert (reachable cf0 w1) as Hr1 by (apply after_reachable; vm_compute; eauto).
  assert (step cf0 (Advance Bad) w0 = Some w) as Hs0 by (vm_compute; reflexivity).
  assert (step cf0 (Advance Good) w1 = Some w2) as Hs1 by (vm_compute; reflexivity).
  assert (the_hib w = Some (mkSnap None (Some 0))) as Hh by (vm_compute; reflexivity).
  assert (the_hib w2 = Some (snap_of 1)) as Hh2 by (vm_compute; reflexivity).
  split; [|split; [vm_compute; reflexivity|split; [|split_and!; vm_compute; reflexivity]]].
  - destruct (proj1 (snapshot_never_torn cf0 w0 (Advance Bad) w Hr0 Hs0) _ Hh) as [v Hv]. exact (ex_intro _ _ (ex_intro _ v (conj Hh Hv))).
  - destruct (proj1 (snapshot_never_torn cf0 w1 (Advance Good) w2 Hr1 Hs1) _ Hh2) as [v Hv]. exact (ex_intro _ _ (ex_intro _ v (conj Hh2 Hv))).
Defined.

(** ** The memory agrees with the disk *)





Section process_table.
Context (d p : nat) (ps : list proc).









End process_table.




(** What the health monitor can see die: a process of the SDK, if the SDK
    still tells its pid. *)
Lemma dead_pid cf w p : PID cf w p = true → pidAlive w p = false →
  sdk_pid cf = true ∧ live_at w p = false ∧ ∃ x, procs w !! p = Some x ∧ p_kind x = SDK.
Proof.
  unfold PID, pidAlive, pstate_at, live_at.
  destruct (procs w !! p) as [[[] [] v]|]; cbn; try done; intros; split_and!; eauto.
Qed.







(** ** What the exclusions hide *)

(** Two VMs, or one whose memory is not of its disk. *)
Definition disagrees (w : world) : bool :=
  existsb (λ x, alive x && negb (bool_decide (vmdir w ≫= rootfs = Some (p_view x)))) (procs w).
Definition vms (w : world) : nat := length (filter (λ x, alive x = true) (procs w)).

(** The snapshot outlives the wake: after the agent is killed (and its VMs
    with it), Recover finds hibernation/vm.mem, calls the sandbox hibernated,
    and the next request restores the old memory over the newer disk. *)
Lemma restart_restores_stale_memory :
  let w := after cf0 NATID (hibernates ++ wakes ++ [GuestWrite 1; AgentKilled false; Recover Good; CallEnsureRunning] ++ good 7) in
  row w = Some StatusRunning ∧ vms w = 1 ∧ disagrees w = true.
Proof. vm_compute. split_and!; reflexivity. Qed.

(** If the VMs were spared, it starts a second one over the same disk. *)
Lemma restart_starts_a_second_vm :
  let w := after cf0 NATID (hibernates ++ wakes ++ [AgentKilled true; Recover Good; CallEnsureRunning] ++ good 7) in
  row w = Some StatusRunning ∧ vms w = 2.
Proof. vm_compute. split_and!; reflexivity. Qed.

(** A wake whose guest never answers is torn down after it ran; the retry
    restores the same snapshot. *)
Lemma retried_wake_restores_stale_memory :
  let w := after cf0 NATID (hibernates ++ CallWake :: good 5 ++ [GuestWrite 1; Advance Bad; Advance Good] ++ wakes) in
  row w = Some StatusRunning ∧ vms w = 1 ∧ disagrees w = true.
Proof. vm_compute. split_and!; reflexivity. Qed.

(** Resume does not take the lifecycle lock. *)
Lemma resume_during_hibernate :
  let w := after cf0 NATID (CallHibernate :: good 4 ++ [CallResume; GuestWrite 0] ++ good 4 ++ wakes) in
  vms w = 1 ∧ disagrees w = true.
Proof. vm_compute. split_and!; reflexivity. Qed.

(** A legacy wake whose resume fails leaves its process behind. *)
Lemma failed_legacy_wake_leaks :
  let w := after cf0 Legacy (hibernates ++ [CallWake; Advance Good; Advance Half; CallWake] ++ good 5) in
  row w = Some StatusRunning ∧ vms w = 2.
Proof. vm_compute. split_and!; reflexivity. Qed.

(** A stop of a VM of the SDK may not take effect: its error is logged, the
    wait for its end bounded, and the driver forgotten all the same.  The wake
    starts another. *)
Lemma ignored_stop_starts_a_second_vm :
  let w := after cf0 Legacy (CallHibernate :: good 5 ++ [Advance Bad] ++ good 2 ++ CallWake :: good 5) in
  row w = Some StatusRunning ∧ driver w = Some 1 ∧ vms w = 2.
Proof. vm_compute. split_and!; reflexivity. Qed.

(** A removal of the old snapshot that fails half way is not noticed; the
    rename onto what is left fails, the VM is resumed, and hibernation/ holds
    a vm.mem without vm.state.  Recover calls that a clean hibernation. *)
Lemma torn_snapshot_is_called_hibernated :
  let w := after cf0 NATID (hibernates ++ wakes ++ CallHibernate :: good 3 ++ [Advance Torn; Advance Bad] ++ good 2 ++
                            [AgentKilled false; Recover Good]) in
  row w = Some StatusHibernated ∧ image w = None ∧ the_tmp w = None.
Proof. vm_compute. split_and!; reflexivity. Qed.

(** The in-place restore drops the driver without stopping the VM. *)
Lemma in_place_restore_leaks_the_vm :
  let w := after cf0 NATID (CallRestore :: good 8) in
  row w = Some StatusRunning ∧ driver w = Some 1 ∧ vms w = 2.
Proof. vm_compute. split_and!; reflexivity. Qed.

(** A kill between the removal of the old snapshot and the rename: Recover
    does not look into hibernation.tmp/ and marks the sandbox failed; the next
    restart removes its directory. *)
Lemma killed_hibernate_loses_the_sandbox :
  let es := CallHibernate :: good 4 ++ [AgentKilled false] in
  (∃ s, the_tmp (after cf0 NATID es) = Some s ∧ complete s) ∧
  row (after cf0 NATID (es ++ [Recover Good])) = Some StatusFailed.
Proof. cbv zeta. split; [exists (snap_of 0); split; [vm_compute; reflexivity|by eexists] | vm_compute; reflexivity]. Qed.

(** VMs that died with the agent leave their sockets; Recover takes one for a
    living process, keeps the network, and no later start removes it. *)
Lemma stale_socket_survives_recovery :
  let w := after cf0 NATID [AgentKilled false; Recover Good; AgentKilled false; Recover Good] in
  row w = Some StatusFailed ∧ sock w = true ∧ net w = Some NATID ∧ vms w = 0.
Proof. vm_compute. split_and!; reflexivity. Qed.

(** The health monitor never acts on a VM started as a raw process: the dead
    child stays in /proc, as nobody waits for it, and a stopped one has no pid;
    nor on one of the SDK, unless the SDK tells the pid of an exited process. *)
Lemma raw_death_unnoticed cf w p x :
  p ∈ mon w → driver w = Some p → procs w !! p = Some x → p_kind x = Raw ∨ sdk_pid cf = false →
  step cf (HealthTick p) w = Some w.
Proof.
  intros Hm Hd Hp Hk. unfold step, health_tick. rewrite !bool_decide_true by done. cbn.
  destruct (PID cf w p) eqn:E1; [|done]. destruct (pidAlive w p) eqn:E2; [done|].
  destruct (dead_pid _ _ _ E1 E2) as (Hs & _ & y & Hy & Hk'). rewrite Hp in Hy. injection Hy as <-.
  destruct Hk; congruence.
Qed.

(** ** What one Hibernate does *)

(** Alone on the lock, with nothing else running. *)
Definition alone (call : event) (os : list outcome) : list event := call :: (Advance <$> os).

Section one_hibernate.
Context (cf : config) (w0 : world) (p : nat) (x : proc) (f : files).


















End one_hibernate.




(** Resuming after a failed snapshot also runs a VM its user had paused; the
    row still says paused. *)
Lemma failed_hibernate_unpauses :
  let w := after cf0 NATID (CallPause :: alone CallHibernate [Good; Good; Bad; Good; Good]) in
  row w = Some StatusPaused ∧ pstate_at w 0 = Some (Live VRunning) ∧ driver w = Some 0.
Proof. vm_compute. split_and!; reflexivity. Qed.

(** ** What may destroy the durable volume *)

Definition spares_volume (e : event) : bool :=
  match e with CallDelete true _ | CallDelete _ false | CallRestore => false | _ => true end.

Definition harmless (a : act) : Prop := a ≠ AVol ∧ a ≠ ARow.
Definition restoring (c : pc) : bool :=
  match c with R_backup | R_drop | R_net | R_dir | R_vol | R_build | R_row | R_create => true | _ => false end.

Definition volume_inv (v : nat) (w : world) : Prop :=
  (∃ v', vol w = Some v' ∧ v ≤ v') ∧ is_Some (row w) ∧ Forall (Forall harmless) (bg w) ∧
  (∀ c, lock w = Some c → restoring c = false).

Lemma SetStatus_row s w : is_Some (row w) → is_Some (row (SetStatus s w)).
Proof. cbn. by intros [? ->]. Qed.

Lemma Recover_all_keeps cf o w :
  vol (Recover_all cf o w) = vol w ∧ bg (Recover_all cf o w) = bg w ∧ (is_Some (row w) → is_Some (row (Recover_all cf o w))).
Proof.
  destruct w as [ps sk vd vo ba ro ne ns dr mo lo bg0].
  unfold Recover_all, recover_gc, recover, live_row, SetStatusIf, SetStatus. cbn.
  destruct ro as [[]|]; cbn; repeat case_match; cbn; eauto.
Qed.

Lemma step_volume cf v e w w' :
  managed cf = true → spares_volume e = true → volume_inv v w → step cf e w = Some w' → volume_inv v w'.
Proof.
  intros Hm He ((v' & Hv & Hle) & Hr & Hb & Hl) H.
  destruct w as [ps sk vd vo ba ro ne ns dr mo lo bg0]; cbn in Hv, Hr, Hb, Hl; subst vo.
  destruct e; try discriminate He;
    unfold step, Hibernate, Wake, EnsureRunning, RestoreInPlace, Pause, Resume, delete_sandbox, health_tick, advance, hibernate, wake, StartFromSnapNoDrive, Start, Stop, restore, vm_set, freeze, image, write, fail, goto, unlock in H.
  all: split_step H; unfold volume_inv; cbn.
  all: try (exfalso; specialize (Hl _ eq_refl); discriminate Hl).
  all: destruct Hr as [r ->]; repeat match goal with o : outcome |- _ => destruct o end; cbn.
  all: try (split_and!; [eexists; split; [reflexivity|lia]|eexists; reflexivity|first [assumption|by constructor]|
    let E := fresh in intros ? E; first [discriminate E | injection E as <-; reflexivity | exact (Hl _ E)]]).
  1: split_and!; eauto; intros c [= <-]; by destruct ns.
  1: exfalso; destruct force, read; try done; rewrite Hm, bool_decide_true in E by eauto; done.
  5: split_and!; eauto; apply Forall_app; split; [done|]; repeat constructor; done.
  1-4: match goal with L : ?b !! ?k = Some (?a :: ?l) |- _ =>
      pose proof (Forall_lookup_1 _ _ _ _ Hb L) as [[? ?] Hrest]%Forall_cons;
      assert (Forall (Forall harmless) (<[k := l]> b)) by (by apply Forall_insert); destruct a; try done
    end; cbn; split_and!; eauto.
  all: match goal with |- context [Recover_all ?cf ?o ?w] => destruct (Recover_all_keeps cf o w) as (Hvk & Hbk & Hrk) end;
    rewrite Hvk, Hbk; split_and!; cbn; eauto; rewrite Recover_all_lock; done.
Qed.

(** C11. Only its owner destroys a managed database's volume, as far as the
    store answers.  Crashes of the VM and of the agent, restarts, failed wakes
    and hibernations, idle deletes and a user's generic delete whose guard reads
    the row, in any order, never remove the durable volume of a managed sandbox
    nor its row; the volume's version never goes back. *)
Theorem volume_survives_failures cf n v es w :
  managed cf = true → forallb spares_volume es = true → run cf es (booted n (Some v)) = Some w →
  (∃ v', vol w = Some v' ∧ v ≤ v') ∧ is_Some (row w).
Proof.
  intros Hm He H.
  assert (∀ es u, forallb spares_volume es = true → volume_inv v u → run cf es u = Some w → volume_inv v w) as K.
  { clear es He H. induction es as [|e es IH]; intros u He Hu H; [by injection H as <-|].
    cbn [forallb] in He. apply andb_true_iff in He as [He Hes].
    change (step cf e u ≫= run cf es = Some w) in H. destruct (step cf e u) eqn:E; [|done].
    eapply IH; [done| |done]. by eapply step_volume. }
  destruct (K es (booted n (Some v)) He) as (? & ? & _); [|done|by split].
  split_and!; cbn; eauto. done.
Qed.

(** A generic delete whose guard cannot read the row goes through with it: the
    row and the volume of a managed database are gone. *)
Lemma unread_row_is_no_guard :
  let cf := mkConfig true true 0 false in
  let del := λ read, run cf (CallDelete false read :: replicate 5 (Background 0 Good)) (booted NATID (Some 3)) in
  option_map (λ w, (vol w, row w)) (del false) = Some (None, None) ∧ del true = None ∧
  option_map (λ w, (vol w, row w)) (run cf [CallDelete false true] (booted NATID (Some 3))) = Some (Some 3, Some StatusRunning).
Proof. vm_compute. split_and!; reflexivity. Qed.

(** A VM of the SDK dies, its monitor sees it (if the SDK tells the pid), the
    user deletes, the agent is killed and comes back. *)
Definition crash_cf : config := mkConfig true true 0 true.
Definition crash_story : list event :=
  [GuestWrite 0; ProcessDies 0; HealthTick 0; Background 0 Good; Background 0 Good; Background 0 Good;
   CallDelete false true; AgentKilled false; Recover Good].

Example volume_survives_failures_witness :
  ∃ w, run crash_cf crash_story (booted Legacy (Some 3)) = Some w ∧ vmdir w = None ∧ row w = Some StatusFailed ∧
       ∃ v', vol w = Some v' ∧ 3 ≤ v'.
Proof.
  assert ((λ w, (vmdir w, row w)) <$> run crash_cf crash_story (booted Legacy (Some 3)) = Some (None, Some StatusFailed)) as Hn
    by (vm_compute; reflexivity).
  destruct (run crash_cf crash_story (booted Legacy (Some 3))) as [w|] eqn:E; [|done].
  exists w. injection Hn as Hf Hr. split; [done|]. split; [done|]. split; [done|].
  exact (proj1 (volume_survives_failures crash_cf Legacy 3 crash_story w eq_refl eq_refl E)).
Defined.
