(* ===== verification/Idle.v ===== *)
(** When the agent puts a sandbox to sleep, deletes it or refuses it:
    the activity and tunnel bookkeeping, the idle sweeper and the lifecycle
    settings of agent/internal/sandbox/manager.go and lifecycle.go, the reaper
    of reaper.go, the request gate of api/router.go, and the memory admission
    of admission.go with the usage it is computed from.

    Times and durations are nanoseconds.  A lock of the source covers each
    operation, so operations are functions on the maps; a Go map's iteration
    order is an argument (the list of ids). *)

From S2P Require Import Prelude GoStrings Float64 Pressure.

Open Scope string_scope.
Open Scope list_scope.
Open Scope Z_scope.
#[local] Set Warnings "-clear-no-such-hyp".

(** ** Lifecycle settings *)

Record lifecycleState := mkLife { ttl : Z; persistent : bool }.

Abbreviation lifes := (gmap string lifecycleState) (only parsing).

Definition lc_Set (id : string) (t : Z) (p : bool) (m : lifes) : lifes := <[id := mkLife t p]> m.
Definition lc_Get (id : string) (m : lifes) : option lifecycleState := m !! id.
Definition lc_Delete (id : string) (m : lifes) : lifes := delete id m.
Definition SetTTL (id : string) (t : Z) (m : lifes) : lifes := alter (λ st, mkLife t (persistent st)) id m.
Definition SetPersistent (id : string) (p : bool) (m : lifes) : lifes := alter (λ st, mkLife (ttl st) p) id m.

(** The columns [persistent] and [ttl_seconds] of a row. *)
Abbreviation columns := (gmap string (bool * Z)) (only parsing).

(** A write of [persistLifecycleWithRetry], in its goroutine: an UPDATE. *)
Definition persistLifecycle (id : string) (p : bool) (sec : Z) (rows : columns) : columns * Z :=
  match rows !! id with Some _ => (<[id := (p, sec)]> rows, 1) | None => (rows, 0) end.

(** At most five attempts; [found k] is what the row is at the k-th. *)
Fixpoint persistLifecycleWithRetry (fuel : nat) (id : string) (p : bool) (sec : Z)
    (between : nat → columns → columns) (rows : columns) : columns * bool :=
  match fuel with
  | O => (rows, false)
  | S fuel =>
      let rows := between fuel rows in
      let '(rows', n) := persistLifecycle id p sec rows in
      if 0 <? n then (rows', true) else persistLifecycleWithRetry fuel id p sec between rows'
  end.

Section settings.
Context (defaultTTL : Z) (phasedBootTemplates : gset string).

Definition isDurableTemplate (t : string) : bool := bool_decide (t ∈ phasedBootTemplates).

Definition rehydrateLifecycle (id tmpl : string) (rows : option columns) : Z * bool :=
  let p0 := isDurableTemplate tmpl in
  match rows ≫= λ r, r !! id with
  | Some (p, sec) => (if 0 <? sec then sec * second else defaultTTL, p0 || p)
  | None => (defaultTTL, p0)
  end.

(** The setting [Create] leaves, and the write it hands to the goroutine. *)
Definition setLifecycleForCreate (id tmpl : string) (reqTTL : option Z) (reqPersistent : bool) (m : lifes)
    : lifes * (bool * Z) :=
  let t := match reqTTL with Some s => s * second | None => defaultTTL end in
  let p := reqPersistent || isDurableTemplate tmpl in
  (lc_Set id t p m, (p, t / second)).

Inductive life_err := NotFound | StoreErr | NegativeTTL.

(** The row a [GetSandbox] finds: its template. *)
Definition ensureLifecycleState (id : string) (get : res life_err (option string)) (rows : option columns) (m : lifes)
    : res life_err lifes :=
  if String.eqb id "" then Err NotFound
  else match lc_Get id m with
  | Some _ => Ok m
  | None =>
      match get with
      | Err e => Err e
      | Ok None => Err NotFound
      | Ok (Some tmpl) => let '(t, p) := rehydrateLifecycle id tmpl rows in Ok (lc_Set id t p m)
      end
  end.

Definition UpdateLifecycle (id : string) (t : option Z) (p : option bool)
    (get : res life_err (option string)) (rows : option columns) (m : lifes) : res life_err (lifes * (bool * Z)) :=
  try m := ensureLifecycleState id get rows m in
  try m := match t with
           | Some s => if s <? 0 then Err NegativeTTL else Ok (SetTTL id (s * second) m)
           | None => Ok m
           end in
  let m := match p with Some b => SetPersistent id b m | None => m end in
  match lc_Get id m with
  | Some st => Ok (m, (persistent st, ttl st / second))
  | None => Ok (m, (false, 0))
  end.

End settings.

(** ** Activity *)

Record activity := mkAct {
  lastActivity : gmap string Z;
  activeTunnels : gmap string Z;
  hibFails : gmap string Z;
}.

Definition no_activity : activity := mkAct ∅ ∅ ∅.
Definition touch (now : Z) (id : string) (a : activity) : activity :=
  mkAct (<[id := now]> (lastActivity a)) (activeTunnels a) (hibFails a).
Definition set_tunnels (m : gmap string Z) (a : activity) : activity := mkAct (lastActivity a) m (hibFails a).
Definition set_fails (m : gmap string Z) (a : activity) : activity := mkAct (lastActivity a) (activeTunnels a) m.

Definition count (id : string) (m : gmap string Z) : Z := default 0 (m !! id).

Definition MarkActivity (now : Z) (id : string) (a : activity) : activity :=
  if String.eqb id "" then a else touch now id a.

Definition idleHibernateFailCap : Z := 3.

Definition noteHibernateResult (now : Z) (id : string) (ok : bool) (a : activity) : activity * (Z * bool) :=
  if ok then (touch now id (set_fails (delete id (hibFails a)) a), (0, false))
  else
    let fails := count id (hibFails a) + 1 in
    let a := set_fails (<[id := fails]> (hibFails a)) a in
    if idleHibernateFailCap <=? fails then (touch now id (set_fails (delete id (hibFails a)) a), (fails, true))
    else (a, (fails, false)).

Definition TunnelOpened (now : Z) (id : string) (a : activity) : activity :=
  if String.eqb id "" then a
  else touch now id (set_tunnels (<[id := count id (activeTunnels a) + 1]> (activeTunnels a)) a).

Definition TunnelClosed (now : Z) (id : string) (a : activity) : activity :=
  if String.eqb id "" then a
  else
    let n := count id (activeTunnels a) in
    touch now id (set_tunnels (if n <=? 1 then delete id (activeTunnels a) else <[id := n - 1]> (activeTunnels a)) a).

Definition ActiveTunnels (id : string) (a : activity) : Z := count id (activeTunnels a).

Definition lastActivityFor (now : Z) (id : string) (a : activity) : Z * activity :=
  match lastActivity a !! id with Some t => (t, a) | None => (now, touch now id a) end.

(** What delete and teardownResources forget of an id. *)
Definition forget (id : string) (a : activity) : activity :=
  mkAct (delete id (lastActivity a)) (delete id (activeTunnels a)) (hibFails a).
Definition forget_all (id : string) (a : activity) : activity :=
  mkAct (delete id (lastActivity a)) (delete id (activeTunnels a)) (delete id (hibFails a)).

(** ** The idle sweeper *)

Section sweep.
Context (idleAfter : Z) (life : lifes).
(** When the Hibernate of an id returns, and whether it worked. *)
Context (done_at : string → Z) (hibernate : string → bool).

(** The body of the loop over the drivers: whether Hibernate was called. *)
Definition sweep_one (now : Z) (id : string) (a : activity) : activity * bool :=
  let '(last, a) := lastActivityFor now id a in
  if now - last <? idleAfter then (a, false)
  else if 0 <? ActiveTunnels id a then (a, false)
  else match lc_Get id life with
  | Some st =>
      if persistent st then ((noteHibernateResult (done_at id) id (hibernate id) a).1, true) else (a, false)
  | None => (a, false)
  end.

Fixpoint idle_sweep (now : Z) (ids : list string) (a : activity) : activity * list string :=
  match ids with
  | [] => (a, [])
  | id :: ids =>
      let '(a, b) := sweep_one now id a in
      let '(a, l) := idle_sweep now ids a in
      (a, if b : bool then id :: l else l)
  end.

(** [RunIdleSweeper] does nothing at all when not configured. *)
Definition RunIdleSweeper_tick (now : Z) (ids : list string) (a : activity) : activity * list string :=
  if idleAfter <=? 0 then (a, []) else idle_sweep now ids a.

End sweep.

(** ** The reaper *)

(** [scan]: the ids [DeleteReap] is called on. *)
Fixpoint reaper_scan (now : Z) (entries : list (string * lifecycleState)) (a : activity) : activity * list string :=
  match entries with
  | [] => (a, [])
  | (id, st) :: entries =>
      if persistent st then reaper_scan now entries a
      else
        let '(last, a) := lastActivityFor now id a in
        if now - last <=? ttl st then reaper_scan now entries a
        else let '(a, l) := reaper_scan now entries a in (a, id :: l)
  end.

(** ** Which requests use the guest *)

Definition readOnlyInspectionGETs : list string :=
  [""; "/lifecycle"; "/metrics"; "/logs"; "/events"; "/ports"; "/fs/stat"; "/fs/dir"; "/postgres-info"; "/repl/sessions"].

Definition shouldAutoWake (method tail : string) : bool :=
  if bool_decide (tail ∈ ["/hibernate"; "/wake"; "/stop"; "/start"]) then false
  else if String.eqb method "DELETE" then false
  else if String.eqb method "GET" && bool_decide (tail ∈ readOnlyInspectionGETs) then false
  else true.

(** The id and the rest of a path under /sandboxes/. *)
Definition sandbox_path (path : string) : option (string * string) :=
  if has_prefix "/sandboxes/" path then
    let rest := str_drop 11 path in
    match String.index 0 "/" rest with
    | Some i => Some (String.substring 0 i rest, str_drop i rest)
    | None => Some (rest, "")
    end
  else None.

(** The id [activityTracker] marks active and wakes. *)
Definition activityTracker (method path : string) : option string :=
  match sandbox_path path with
  | Some (id, tail) => if negb (String.eqb id "") && shouldAutoWake method tail then Some id else None
  | None => None
  end.

(** ** Usage and admission *)

Definition fallbackSandboxCPU : Z := 8.
Definition fallbackSandboxMemMB : Z := 4096.

(** Of a row: id, cpu, memory_mb ([0] where missing). *)
Record usageRow := mkUsage { u_id : string; u_cpu : Z; u_mem : Z }.

Definition eff (fallback x : Z) : Z := if x <=? 0 then fallback else x.

(** The loop over the rows: the sums, and the live ids seen. *)
Fixpoint sum_rows (live : gset string) (rows : list usageRow) (seen : gset string) (cpu mem : Z)
    : gset string * Z * Z :=
  match rows with
  | [] => (seen, cpu, mem)
  | r :: rows =>
      if bool_decide (u_id r ∈ live) then
        sum_rows live rows ({[u_id r]} ∪ seen) (cpu + eff fallbackSandboxCPU (u_cpu r))
          (mem + eff fallbackSandboxMemMB (u_mem r))
      else sum_rows live rows seen cpu mem
  end.

Definition sumLiveSandboxUsage (rows : list usageRow) (live : gset string) : Z * Z :=
  let '(seen, cpu, mem) := sum_rows live rows ∅ 0 0 in
  let missing := Z.of_nat (size live) - Z.of_nat (size seen) in
  if 0 <? missing then (cpu + missing * fallbackSandboxCPU, mem + missing * fallbackSandboxMemMB) else (cpu, mem).

(** [rows] is [None] when the store does not answer. *)
Definition RegistrySnapshot (rows : option (list usageRow)) (drivers : gset string) : Z * Z * Z :=
  let n := Z.of_nat (size drivers) in
  if n =? 0 then (0, 0, 0)
  else match rows with
  | None => (n * fallbackSandboxCPU, n * fallbackSandboxMemMB, n)
  | Some rows => let '(c, m) := sumLiveSandboxUsage rows drivers in (c, m, n)
  end.

(** [total] is MemTotal in MB, 0 when unknown. *)
Definition memoryBudgetMB (total reserve : Z) (factor : f64) : Z :=
  if total <=? 0 then 0
  else
    let budget := f64_trunc (f64_mul (f64_of_Z (total - reserve)) factor) in
    if budget <? 0 then 0 else budget.

Definition admitMemory (budget : Z) (rows : option (list usageRow)) (drivers : gset string) (reqMemMB : Z) : bool :=
  if (budget <=? 0) || (reqMemMB <=? 0) then true
  else
    let '(_, used, _) := RegistrySnapshot rows drivers in
    negb (budget <? used + reqMemMB).

(** [MemoryCommittedRatio]'s numbers: used and budget. *)
Definition MemoryCommitted (budget : Z) (rows : option (list usageRow)) (drivers : gset string) : option (Z * Z) :=
  if budget <=? 0 then None else let '(_, used, _) := RegistrySnapshot rows drivers in Some (used, budget).

(** ** Lemmas: usage *)

Lemma eff_pos fb x : 0 < fb → 0 < eff fb x.
Proof. unfold eff. case_match; lia. Qed.

(** What one live id costs: its row's size, or the fallback. *)
Definition row_of (rows : list usageRow) (id : string) : option usageRow :=
  snd <$> list_find (λ r, u_id r = id) rows.
Definition cpu_of (rows : list usageRow) (id : string) : Z :=
  match row_of rows id with Some r => eff fallbackSandboxCPU (u_cpu r) | None => fallbackSandboxCPU end.
Definition mem_of (rows : list usageRow) (id : string) : Z :=
  match row_of rows id with Some r => eff fallbackSandboxMemMB (u_mem r) | None => fallbackSandboxMemMB end.

Definition zs (l : list Z) : Z := foldr Z.add 0 l.
Definition sum_over (f : string → Z) (s : gset string) : Z := zs (f <$> elements s).

Lemma zs_app a b : zs (a ++ b) = zs a + zs b.
Proof. induction a as [|x a IH]; cbn; [done|]. unfold zs in *. rewrite IH. lia. Qed.

#[global] Instance zs_perm : Proper ((≡ₚ) ==> (=)) zs.
Proof. unfold zs. induction 1; cbn; lia. Qed.

Lemma zs_const {A} (l : list A) c : zs ((λ _, c) <$> l) = Z.of_nat (length l) * c.
Proof. unfold zs. induction l as [|x l IH]; cbn [fmap list_fmap foldr length]; lia. Qed.

Lemma sum_over_union f X Y : X ## Y → sum_over f (X ∪ Y) = sum_over f X + sum_over f Y.
Proof. intros H. unfold sum_over. by rewrite elements_disj_union, fmap_app, zs_app by done. Qed.

Lemma sum_over_const f c X : (∀ x, x ∈ X → f x = c) → sum_over f X = Z.of_nat (size X) * c.
Proof.
  intros H. unfold sum_over. change (size X) with (length (elements X)). rewrite <- (zs_const (elements X) c). f_equal.
  apply list_fmap_ext. intros i x Hi. apply H. apply elem_of_elements. by eapply list_elem_of_lookup_2.
Qed.

Lemma sum_over_list f l : NoDup l → sum_over f (list_to_set l) = zs (f <$> l).
Proof. intros H. unfold sum_over. by rewrite elements_list_to_set. Qed.

Definition live_rows (live : gset string) (rows : list usageRow) : list usageRow :=
  filter (λ r, u_id r ∈ live) rows.

Lemma sum_rows_spec live rows seen cpu mem :
  sum_rows live rows seen cpu mem =
  (list_to_set (u_id <$> live_rows live rows) ∪ seen,
   cpu + zs ((λ r, eff fallbackSandboxCPU (u_cpu r)) <$> live_rows live rows),
   mem + zs ((λ r, eff fallbackSandboxMemMB (u_mem r)) <$> live_rows live rows)).
Proof.
  unfold live_rows, zs. revert seen cpu mem. induction rows as [|r rows IH]; intros seen cpu mem; cbn [sum_rows].
  { cbn. f_equal; [f_equal|]; [set_solver|lia..]. }
  destruct (decide (u_id r ∈ live)) as [Hin|Hin].
  - rewrite bool_decide_true by done. rewrite IH, filter_cons_True by done. rewrite !fmap_cons. cbn [foldr].
    change (list_to_set (u_id r :: ?l)) with ({[u_id r]} ∪ list_to_set l : gset string).
    f_equal; [f_equal|]; [set_solver|lia..].
  - rewrite bool_decide_false by done. by rewrite IH, filter_cons_False by done.
Qed.

Lemma row_of_in rows r : NoDup (u_id <$> rows) → r ∈ rows → row_of rows (u_id r) = Some r.
Proof.
  unfold row_of. induction rows as [|r' rows IH]; intros Hnd Hin; [by apply elem_of_nil in Hin|].
  cbn in Hnd. apply NoDup_cons in Hnd as [Hni Hnd]. apply elem_of_cons in Hin as [->|Hin].
  - cbn. by rewrite decide_True.
  - cbn. rewrite decide_False.
    + specialize (IH Hnd Hin). destruct (list_find _ rows) as [[]|]; done.
    + intros E. apply Hni. rewrite E. by apply list_elem_of_fmap_2.
Qed.

Lemma row_of_out rows id : id ∉ (u_id <$> rows) → row_of rows id = None.
Proof.
  intros H. unfold row_of. destruct (list_find _ rows) as [[i r]|] eqn:E; [|done].
  apply list_find_Some in E as (Hi & Hr & _). destruct H. rewrite <- Hr. apply list_elem_of_fmap_2. by eapply list_elem_of_lookup_2.
Qed.

(** One sum: the rows of live ids, then the ids without a row. *)
Lemma usage_sum rows live (g : usageRow → Z) fb (f : string → Z) :
  NoDup (u_id <$> rows) → (∀ id, f id = match row_of rows id with Some r => g r | None => fb end) →
  let seen := list_to_set (u_id <$> live_rows live rows) : gset string in
  seen ⊆ live ∧
  sum_over f live = zs (g <$> live_rows live rows) + (Z.of_nat (size live) - Z.of_nat (size seen)) * fb.
Proof.
  intros Hnd Hf seen.
  assert (NoDup (u_id <$> live_rows live rows)) as Hnd'.
  { eapply sublist_NoDup; [exact Hnd|apply fmap_sublist, sublist_filter]. }
  assert (seen ⊆ live) as Hsub.
  { intros id Hid. apply elem_of_list_to_set, list_elem_of_fmap in Hid as (r & -> & Hr).
    by apply list_elem_of_filter in Hr as [? _]. }
  split; [done|].
  rewrite (union_difference_L seen live) at 1 by done. rewrite sum_over_union by set_solver.
  f_equal.
  - unfold seen. rewrite sum_over_list by done. rewrite <- list_fmap_compose. f_equal.
    apply list_fmap_ext. intros i r Hi. cbn. apply list_elem_of_lookup_2, list_elem_of_filter in Hi as [_ Hi].
    by rewrite Hf, row_of_in.
  - rewrite (sum_over_const _ fb).
    + rewrite size_difference by done. pose proof (subseteq_size _ _ Hsub). by rewrite Nat2Z.inj_sub.
    + intros id [Hl Hs]%elem_of_difference. rewrite Hf, row_of_out; [done|].
      intros (r & -> & Hr)%list_elem_of_fmap. apply Hs. apply elem_of_list_to_set, list_elem_of_fmap_2.
      by apply list_elem_of_filter.
Qed.

(** A running sandbox is never counted as free.  With one row per id, the
    usage is exactly the sum over the live ids of the size in the id's row,
    with the baked default where the row is missing or has no size; so each
    live id adds at least one of each, and nothing else is counted. *)
Theorem usage_exact rows live :
  NoDup (u_id <$> rows) →
  sumLiveSandboxUsage rows live = (sum_over (cpu_of rows) live, sum_over (mem_of rows) live).
Proof.
  intros Hnd. unfold sumLiveSandboxUsage. rewrite sum_rows_spec, !(right_id_L ∅ (∪)).
  destruct (usage_sum rows live (λ r, eff fallbackSandboxCPU (u_cpu r)) fallbackSandboxCPU (cpu_of rows) Hnd) as [Hs ->];
    [done|].
  destruct (usage_sum rows live (λ r, eff fallbackSandboxMemMB (u_mem r)) fallbackSandboxMemMB (mem_of rows) Hnd) as [_ ->];
    [done|].
  pose proof (subseteq_size _ _ Hs). unfold fallbackSandboxCPU, fallbackSandboxMemMB.
  case_match; f_equal; lia.
Qed.

Example usage_exact_witness :
  let rows := [mkUsage "a" 2 1024; mkUsage "b" 0 0; mkUsage "c" 4 512] in
  NoDup (u_id <$> rows) ∧ sumLiveSandboxUsage rows {["a"; "b"; "z"]} = (18, 9216).
Proof.
  cbv zeta. set (rows := [_; _; _]).
  assert (NoDup (u_id <$> rows)) as H by (apply (bool_decide_eq_true_1 (NoDup (u_id <$> rows))); vm_compute; reflexivity).
  split; [exact H|]. rewrite (usage_exact rows {["a"; "b"; "z"]} H). vm_compute. reflexivity.
Defined.

(** ** Admission *)

Lemma mem_of_pos rows id : 0 < mem_of rows id.
Proof.
  unfold mem_of. destruct (row_of rows id); [|done]. by apply eff_pos.
Qed.

Lemma sum_over_ext f g X : (∀ x, x ∈ X → f x = g x) → sum_over f X = sum_over g X.
Proof.
  intros H. unfold sum_over. f_equal. apply list_fmap_ext. intros i x Hi. apply H, elem_of_elements. by eapply list_elem_of_lookup_2.
Qed.

Lemma sum_over_nonneg f X : (∀ x, 0 ≤ f x) → 0 ≤ sum_over f X.
Proof.
  intros H. unfold sum_over. induction (elements X) as [|x l IH]; [done|]. unfold zs in *. cbn. specialize (H x). lia.
Qed.

Lemma sum_over_single f x : sum_over f {[x]} = f x.
Proof. unfold sum_over. rewrite elements_singleton. unfold zs. cbn. lia. Qed.

Lemma sum_over_del f x X : (∀ x, 0 ≤ f x) → sum_over f (X ∖ {[x]}) ≤ sum_over f X.
Proof.
  intros H. destruct (decide (x ∈ X)) as [Hin|Hni].
  - rewrite (union_difference_L {[x]} X) at 2 by set_solver. rewrite sum_over_union, sum_over_single by set_solver.
    specialize (H x). lia.
  - rewrite difference_disjoint_L by set_solver. lia.
Qed.

(** The sandboxes of a host: the rows and the running ids. *)
Record host := mkHost { h_rows : list usageRow; h_drivers : gset string }.

(** [Create] (its admission and its boot, with nothing in between), delete,
    hibernate and wake, of sandboxes of known size. *)
Inductive hostop :=
  | OpCreate (r : usageRow) | OpDelete (id : string) | OpHibernate (id : string) | OpWake (id : string).

Definition known (rows : list usageRow) (id : string) : bool := existsb (λ r, String.eqb (u_id r) id) rows.

Definition hstep (budget : Z) (op : hostop) (h : host) : host :=
  match op with
  | OpCreate r =>
      if negb (known (h_rows h) (u_id r)) && (0 <? u_mem r) && admitMemory budget (Some (h_rows h)) (h_drivers h) (u_mem r)
      then mkHost (r :: h_rows h) ({[u_id r]} ∪ h_drivers h) else h
  | OpDelete id => mkHost (filter (λ r, u_id r ≠ id) (h_rows h)) (h_drivers h ∖ {[id]})
  | OpHibernate id => mkHost (h_rows h) (h_drivers h ∖ {[id]})
  | OpWake id => if known (h_rows h) id then mkHost (h_rows h) ({[id]} ∪ h_drivers h) else h
  end.

Definition committed (h : host) : Z := sum_over (mem_of (h_rows h)) (h_drivers h).

Definition host_ok (budget : Z) (h : host) : Prop :=
  NoDup (u_id <$> h_rows h) ∧ (∀ id, id ∈ h_drivers h → known (h_rows h) id = true) ∧ committed h ≤ budget.

Lemma known_spec rows id : known rows id = true ↔ id ∈ (u_id <$> rows).
Proof.
  unfold known. rewrite existsb_exists. split.
  - intros (r & Hr & E%String.eqb_eq). subst. apply list_elem_of_fmap_2. by apply list_elem_of_In.
  - intros (r & -> & Hr)%list_elem_of_fmap. exists r. split; [by apply list_elem_of_In|by apply String.eqb_eq].
Qed.

Lemma row_of_cons_ne r rows id : u_id r ≠ id → row_of (r :: rows) id = row_of rows id.
Proof. intros H. unfold row_of. cbn. rewrite decide_False by done. by destruct (list_find _ rows) as [[]|]. Qed.
Lemma row_of_cons_eq r rows : row_of (r :: rows) (u_id r) = Some r.
Proof. unfold row_of. cbn. by rewrite decide_True. Qed.

Lemma row_of_filter rows id id' : id ≠ id' → row_of (filter (λ r, u_id r ≠ id') rows) id = row_of rows id.
Proof.
  intros Hne. induction rows as [|r rows IH]; [done|]. destruct (decide (u_id r = id')) as [<-|Hr].
  - rewrite filter_cons_False by auto. rewrite IH. symmetry. by apply row_of_cons_ne.
  - rewrite filter_cons_True by done. destruct (decide (u_id r = id)) as [<-|]; [by rewrite !row_of_cons_eq|].
    by rewrite !row_of_cons_ne.
Qed.

Lemma admit_fits budget h m :
  host_ok budget h → 0 < budget → 0 < m →
  admitMemory budget (Some (h_rows h)) (h_drivers h) m = true → committed h + m ≤ budget.
Proof.
  intros (Hnd & _ & Hc) Hb Hm H. unfold admitMemory in H.
  replace (budget <=? 0) with false in H by lia. replace (m <=? 0) with false in H by lia. cbn [orb] in H.
  unfold RegistrySnapshot in H. destruct (Z.of_nat (size (h_drivers h)) =? 0) eqn:E.
  - assert (h_drivers h = ∅) as E' by (apply leibniz_equiv, size_empty_inv; lia).
    unfold committed. rewrite E'. change (sum_over _ ∅) with 0. lia.
  - rewrite usage_exact in H by done. fold (committed h) in H. lia.
Qed.

Lemma hstep_ok budget op h :
  0 < budget → (∀ id, op ≠ OpWake id) → host_ok budget h → host_ok budget (hstep budget op h).
Proof.
  intros Hb Hop Hok. destruct op as [r|id|id|id]; [| | |by destruct (Hop id)]; cbn.
  - destruct (known (h_rows h) (u_id r)) eqn:Hk; [done|]. destruct (0 <? u_mem r) eqn:Hm; [|done]. cbn [negb andb].
    destruct (admitMemory _ _ _ _) eqn:Ha; [|done].
    pose proof (admit_fits budget h (u_mem r) Hok Hb) as Hfit. destruct Hok as (Hnd & Hkn & Hc).
    assert (u_id r ∉ (u_id <$> h_rows h)) as Hni by (rewrite <- known_spec; by rewrite Hk).
    assert (u_id r ∉ h_drivers h) as Hnd' by (intros Hin; apply Hkn in Hin; by rewrite Hk in Hin).
    unfold host_ok, committed; cbn [h_rows h_drivers]. split_and!.
    + cbn. by apply NoDup_cons.
    + intros id [->%elem_of_singleton|Hin]%elem_of_union; cbn; [by rewrite String.eqb_refl|].
      apply orb_true_iff. right. exact (Hkn id Hin).
    + rewrite sum_over_union, sum_over_single by set_solver.
      unfold mem_of at 1. rewrite row_of_cons_eq. unfold eff.
      rewrite (sum_over_ext _ (mem_of (h_rows h)) (h_drivers h)).
      * fold (committed h). replace (u_mem r <=? 0) with false by lia. specialize (Hfit ltac:(lia) Ha). lia.
      * intros id Hin. unfold mem_of. rewrite row_of_cons_ne; [done|]. by intros <-.
  - destruct Hok as (Hnd & Hkn & Hc). unfold host_ok, committed; cbn [h_rows h_drivers]. split_and!.
    + eapply sublist_NoDup; [exact Hnd|apply fmap_sublist, sublist_filter].
    + intros id' [Hin Hne]%elem_of_difference. apply known_spec. apply Hkn, known_spec in Hin.
      apply list_elem_of_fmap in Hin as (r & -> & Hr). apply list_elem_of_fmap_2, list_elem_of_filter. set_solver.
    + rewrite (sum_over_ext _ (mem_of (h_rows h))).
      * etrans; [apply sum_over_del|done]. intros x. pose proof (mem_of_pos (h_rows h) x). lia.
      * intros id' [Hin Hne]%elem_of_difference. unfold mem_of. rewrite row_of_filter; [done|set_solver].
  - destruct Hok as (Hnd & Hkn & Hc). unfold host_ok, committed; cbn [h_rows h_drivers]. split_and!; [done|set_solver|].
    etrans; [apply sum_over_del|done]. intros x. pose proof (mem_of_pos (h_rows h) x). lia.
Qed.

(** Creates do not over-pack a host.  As long as each create boots before
    the next one is admitted and no hibernated sandbox is woken, the memory
    committed to running sandboxes never exceeds the host's budget. *)
Theorem creates_fit_the_budget budget ops :
  0 < budget → Forall (λ op, ∀ id, op ≠ OpWake id) ops →
  committed (foldl (λ h op, hstep budget op h) (mkHost [] ∅) ops) ≤ budget.
Proof.
  intros Hb Hops.
  assert (∀ h, host_ok budget h → host_ok budget (foldl (λ h op, hstep budget op h) h ops)) as K.
  { induction Hops as [|op ops Hop _ IH]; intros h Hh; [done|]. cbn. apply IH. by apply hstep_ok. }
  apply (K (mkHost [] ∅)). split_and!; [constructor|set_solver|].
  change (committed (mkHost [] ∅)) with 0. lia.
Qed.

Example creates_fit_the_budget_witness :
  let ops := [OpCreate (mkUsage "a" 2 3000); OpCreate (mkUsage "b" 2 3000); OpHibernate "a"; OpCreate (mkUsage "c" 2 900)] in
  let h := foldl (λ h op, hstep 4000 op h) (mkHost [] ∅) ops in
  committed h = 900 ∧ committed h ≤ 4000.
Proof.
  cbv zeta. split; [vm_compute; reflexivity|]. apply creates_fit_the_budget; [lia|].
  repeat (apply Forall_cons; split; [intros id; discriminate|]). apply Forall_nil. exact I.
Defined.

(** A wake is not admitted: hibernate, create, wake. *)
Lemma wake_oversells :
  let ops := [OpCreate (mkUsage "a" 2 3000); OpHibernate "a"; OpCreate (mkUsage "b" 2 3000); OpWake "a"] in
  committed (foldl (λ h op, hstep 4000 op h) (mkHost [] ∅) ops) = 6000.
Proof. vm_compute. reflexivity. Qed.

(** An admitted create holds nothing until it boots: a second one is admitted
    on the same figures. *)
Lemma concurrent_creates_oversell :
  let h := mkHost [] ∅ in
  let a := mkUsage "a" 2 3000 in let b := mkUsage "b" 2 3000 in
  admitMemory 4000 (Some (h_rows h)) (h_drivers h) (u_mem a) = true ∧
  admitMemory 4000 (Some (h_rows h)) (h_drivers h) (u_mem b) = true ∧
  committed (mkHost [a; b] {["a"; "b"]}) = 6000.
Proof. vm_compute. split_and!; reflexivity. Qed.

(** ** Hibernation attempts *)

(** What the maps hold of one id. *)
Definition seen_of (id : string) (a : activity) : option Z * Z * Z :=
  (lastActivity a !! id, count id (activeTunnels a), count id (hibFails a)).

Section attempts.
Context (idleAfter : Z) (life : lifes) (hibernate : string → bool) (id : string).
Context (Hpos : 0 < idleAfter) (Hfail : hibernate id = false).

(** A tick of the sweeper over some drivers, each Hibernate returning at
    [done_at]; or activity on some sandbox in between. *)
Inductive moment := Tick (now : Z) (ids : list string) (done_at : string → Z) | Touch (now : Z) (id' : string).

Definition play (m : moment) (a : activity) : activity * list Z :=
  match m with
  | Tick now ids d =>
      let '(a', l) := RunIdleSweeper_tick idleAfter life d hibernate now ids a in
      (a', if bool_decide (id ∈ l) then [now] else [])
  | Touch now id' => (MarkActivity now id' a, [])
  end.

(** The times of the ticks that tried to hibernate [id]. *)
Fixpoint attempts (ms : list moment) (a : activity) : list Z :=
  match ms with
  | [] => []
  | m :: ms => let '(a', l) := play m a in l ++ attempts ms a'
  end.

(** Time passes; a tick visits each driver once. *)
Fixpoint in_order (t : Z) (ms : list moment) : Prop :=
  match ms with
  | [] => True
  | Tick now ids d :: ms => t ≤ now ∧ now ≤ d id ∧ NoDup ids ∧ in_order (d id) ms
  | Touch now _ :: ms => t ≤ now ∧ in_order now ms
  end.

Lemma count_insert_ne i j z m : i ≠ j → count i (<[j := z]> m) = count i m.
Proof. intros. unfold count. by rewrite lookup_insert_ne. Qed.
Lemma count_delete_ne i j m : i ≠ j → count i (delete j m) = count i m.
Proof. intros. unfold count. by rewrite lookup_delete_ne. Qed.

Lemma touch_other now id' a : id ≠ id' → seen_of id (touch now id' a) = seen_of id a.
Proof. intros H. unfold seen_of, touch. cbn. by rewrite lookup_insert_ne. Qed.

Lemma sweep_one_other d now id' a : id ≠ id' → seen_of id (sweep_one idleAfter life d hibernate now id' a).1 = seen_of id a.
Proof.
  intros H. unfold sweep_one, lastActivityFor.
  assert (∀ a, seen_of id (noteHibernateResult (d id') id' (hibernate id') a).1 = seen_of id a) as K.
  { intros b. unfold noteHibernateResult, set_fails. destruct (hibernate id'); [|case_match]; cbn [fst];
      rewrite ?touch_other by done; unfold seen_of; cbn;
      rewrite ?count_delete_ne, ?count_insert_ne, ?count_delete_ne by done; done. }
  destruct (lastActivity a !! id') eqn:E; cbn [fst];
    (repeat case_match; cbn [fst]; rewrite ?K, ?touch_other by done; done).
Qed.

(** One visit of [id], in terms of what is held of it. *)
Lemma sweep_one_self d now a :
  let '(a', b) := sweep_one idleAfter life d hibernate now id a in
  let '(l, n, c) := seen_of id a in
  if b : bool then
    ∃ t, l = Some t ∧ t + idleAfter ≤ now ∧
    seen_of id a' = (if 2 <=? c then (Some (d id), n, 0) else (Some t, n, c + 1))
  else ∃ t, seen_of id a' = (Some t, n, c) ∧ (l = Some t ∨ l = None ∧ t = now).
Proof.
  unfold sweep_one, lastActivityFor, seen_of.
  destruct (lastActivity a !! id) as [t|] eqn:E.
  - destruct (Z.ltb_spec (now - t) idleAfter); [exists t; rewrite E; auto|].
    destruct (0 <? ActiveTunnels id a); [exists t; rewrite E; auto|].
    destruct (lc_Get id life) as [[? []]|]; cbn [persistent]; [|exists t; rewrite E; auto..].
    exists t. split_and!; [done|lia|]. unfold noteHibernateResult, idleHibernateFailCap. rewrite Hfail.
    replace (3 <=? count id (hibFails a) + 1) with (2 <=? count id (hibFails a)) by lia.
    destruct (2 <=? count id (hibFails a)); cbn [fst touch set_fails lastActivity activeTunnels hibFails].
    + rewrite lookup_insert_eq. unfold count at 2. by rewrite lookup_delete_eq.
    + rewrite E. unfold count at 2. by rewrite lookup_insert_eq.
  - replace (now - now <? idleAfter) with true by lia. exists now. cbn. rewrite lookup_insert_eq. auto.
Qed.

Lemma sweep_locate d now ids a :
  NoDup ids →
  let '(a', l) := idle_sweep idleAfter life d hibernate now ids a in
  if decide (id ∈ ids) then
    ∃ b, seen_of id b = seen_of id a ∧
         seen_of id a' = seen_of id (sweep_one idleAfter life d hibernate now id b).1 ∧
         (id ∈ l ↔ (sweep_one idleAfter life d hibernate now id b).2 = true)
  else seen_of id a' = seen_of id a ∧ id ∉ l.
Proof.
  revert a. induction ids as [|i ids IH]; intros a Hnd; cbn [idle_sweep].
  { rewrite decide_False by apply not_elem_of_nil. split; [done|apply not_elem_of_nil]. }
  apply NoDup_cons in Hnd as [Hni Hnd].
  destruct (sweep_one _ _ _ _ now i a) as [a1 b1] eqn:E1.
  specialize (IH a1 Hnd). destruct (idle_sweep _ _ _ _ now ids a1) as [a2 l2].
  destruct (decide (i = id)) as [->|Hne].
  - rewrite decide_True by left. rewrite decide_False in IH by done. destruct IH as [IH1 IH2].
    exists a. rewrite E1. cbn. split_and!; [done|done|]. destruct b1; [|done]. split; [done|]. intros _. left.
  - assert (seen_of id a1 = seen_of id a) as Ho.
    { pose proof (sweep_one_other d now i a (not_eq_sym Hne)) as K. by rewrite E1 in K. }
    destruct (decide (id ∈ ids)) as [Hin|Hout].
    + rewrite decide_True by (by right). destruct IH as (b & Hb & Ha & Hl). exists b. rewrite Hb. split_and!; [done..|].
      rewrite <- Hl. destruct b1; [|done]. rewrite elem_of_cons. naive_solver.
    + rewrite decide_False by (rewrite elem_of_cons; naive_solver). rewrite Ho in IH. destruct IH as [? ?].
      split; [done|]. destruct b1; [|done]. rewrite elem_of_cons. naive_solver.
Qed.

(** From counter [c] on: the third failure in a row is followed by a pause. *)
Fixpoint spaced (c : Z) (l : list Z) : Prop :=
  match l with
  | [] => True
  | t :: l =>
      (∀ u, u ∈ l → t ≤ u) ∧
      (if 2 <=? c then (∀ u, u ∈ l → t + idleAfter ≤ u) ∧ spaced 0 l else spaced (c + 1) l)
  end.

Lemma spaced_window c l i t u :
  0 ≤ c ≤ 2 → spaced c l → l !! i = Some t → l !! (i + 3)%nat = Some u → t + idleAfter ≤ u.
Proof.
  revert c i. induction l as [|t0 l IH]; intros c i Hc Hs Ht Hu; [done|]. destruct Hs as [Hmon Hs].
  destruct i as [|i]; cbn in Ht, Hu.
  - injection Ht as <-.
    destruct l as [|t1 [|t2 l]]; try done. cbn in Hs, Hu.
    assert (u ∈ l) as Hin by (by eapply list_elem_of_lookup_2).
    assert (t0 ≤ t1 ∧ t0 ≤ t2 ∧ t0 ≤ u) as (? & ? & ?).
    { split_and!; apply Hmon; [left|right; left|right; right; done]. }
    destruct (2 <=? c) eqn:E0; [apply Hs; right; by right|].
    destruct Hs as [_ Hs]. destruct (2 <=? c + 1) eqn:E1.
    + destruct Hs as [Hs _]. specialize (Hs u). assert (t1 + idleAfter ≤ u) by (apply Hs; by right). lia.
    + destruct Hs as [_ Hs]. replace (2 <=? c + 1 + 1) with true in Hs by lia. destruct Hs as [Hs _].
      specialize (Hs u Hin). lia.
  - destruct (2 <=? c) eqn:E0; [apply (IH 0 i); [lia|apply Hs|done..]|].
    apply (IH (c + 1) i); [lia|done..].
Qed.

Lemma attempts_spaced ms : ∀ a t0,
  in_order t0 ms →
  let '(l, _, c) := seen_of id a in
  (∀ t, l = Some t → t ≤ t0) → 0 ≤ c ≤ 2 →
  (∀ u, u ∈ attempts ms a → t0 ≤ u ∧ ∀ t, l = Some t → t + idleAfter ≤ u) ∧ spaced c (attempts ms a).
Proof.
  induction ms as [|m ms IH]; intros a t0 Ho; destruct (seen_of id a) as [[l n] c] eqn:Es; intros Hl Hc.
  { split; [|done]. by intros u ?%elem_of_nil. }
  destruct m as [now ids d|now id']; cbn [attempts play in_order] in *.
  - destruct Ho as (H1 & H2 & Hnd & Ho). unfold RunIdleSweeper_tick. replace (idleAfter <=? 0) with false by lia.
    pose proof (sweep_locate d now ids a Hnd) as K. destruct (idle_sweep _ _ _ _ now ids a) as [a' ll] eqn:E.
    assert (∀ l', (∀ t, l' = Some t → t ≤ d id) → seen_of id a' = (l', n, c) → id ∉ ll →
              (∀ t, l = Some t → l' = Some t) →
              (∀ u, u ∈ attempts ms a' → t0 ≤ u ∧ ∀ t, l = Some t → t + idleAfter ≤ u) ∧ spaced c (attempts ms a')) as Kidle.
    { intros l' Hl' Ha' _ Hll. specialize (IH a' (d id) Ho). rewrite Ha' in IH. destruct (IH Hl' Hc) as [I1 I2].
      split; [|done]. intros u Hu. destruct (I1 u Hu) as [? I3]. split; [lia|auto]. }
    destruct (decide (id ∈ ids)) as [Hin|Hout].
    + destruct K as (b & Hb & Ha' & Hll). pose proof (sweep_one_self d now b) as S.
      destruct (sweep_one _ _ _ _ now id b) as [b' z] eqn:Eb. cbn [fst snd] in Ha', Hll. rewrite Hb, Es in S. destruct z.
      * destruct S as (t & -> & Hidle & Hs). rewrite bool_decide_true by (by apply Hll). cbn [app].
        rewrite <- Ha' in Hs. specialize (IH a' (d id) Ho). specialize (Hl t eq_refl).
        destruct (2 <=? c) eqn:Ec; rewrite Hs in IH.
        -- destruct IH as [I1 I2]; [by intros ? [= <-]|lia|]. split.
           ++ intros u [->|Hu]%elem_of_cons; [split; [lia|by intros ? [= <-]]|]. destruct (I1 u Hu) as [? I3].
              specialize (I3 _ eq_refl). split; [lia|]. intros ? [= <-]. lia.
           ++ cbn [spaced]. rewrite Ec. split_and!; [|intros u Hu; destruct (I1 u Hu) as [? I3]; specialize (I3 _ eq_refl); lia|done].
              intros u Hu. destruct (I1 u Hu) as [? _]. lia.
        -- destruct IH as [I1 I2]; [intros ? [= <-]; lia|lia|]. split.
           ++ intros u [->|Hu]%elem_of_cons; [split; [lia|by intros ? [= <-]]|]. destruct (I1 u Hu) as [? I3].
              split; [lia|]. intros ? [= <-]. auto.
           ++ cbn [spaced]. rewrite Ec. split; [|done]. intros u Hu. destruct (I1 u Hu) as [? _]. lia.
      * rewrite bool_decide_false by (rewrite Hll; done). cbn [app]. destruct S as (t & Hs & Ht). rewrite <- Ha' in Hs.
        apply (Kidle (Some t)); [|done|rewrite Hll; done|].
        -- intros ? [= <-]. destruct Ht as [->|[_ ->]]; [specialize (Hl t eq_refl); lia|lia].
        -- intros t' ->. by destruct Ht as [[= ->]|[? _]].
    + destruct K as [K1 K2]. rewrite bool_decide_false by done. cbn [app]. rewrite Es in K1.
      apply (Kidle l); [|done..]. intros t Ht. specialize (Hl t Ht). lia.
  - destruct Ho as [H1 Ho]. unfold MarkActivity. cbn [app].
    specialize (IH (if String.eqb id' "" then a else touch now id' a) now Ho).
    destruct (String.eqb id' "") eqn:E0; [|destruct (decide (id' = id)) as [->|Hne]].
    + rewrite Es in IH. destruct IH as [I1 I2]; [intros t Ht; specialize (Hl t Ht); lia|done|]. split; [|done].
      intros u Hu. destruct (I1 u Hu). split; [lia|done].
    + assert (seen_of id (touch now id a) = (Some now, n, c)) as E.
      { unfold seen_of in *. injection Es as _ <- <-. cbn. by rewrite lookup_insert_eq. }
      rewrite E in IH. destruct IH as [I1 I2]; [by intros ? [= <-]|done|]. split; [|done].
      intros u Hu. destruct (I1 u Hu) as [? I3]. specialize (I3 _ eq_refl). split; [lia|].
      intros t Ht. specialize (Hl t Ht). lia.
    + rewrite touch_other, Es in IH by done. destruct IH as [I1 I2]; [intros t Ht; specialize (Hl t Ht); lia|done|].
      split; [|done]. intros u Hu. destruct (I1 u Hu). split; [lia|done].
Qed.

End attempts.

(** No retry storm.  While every Hibernate of a sandbox fails, the idle
    sweeper tries it at most three times in any span shorter than the idle
    window, whatever the other sandboxes and the activity in between: from the
    fourth attempt back to the first, a whole window has passed. *)
Theorem no_retry_storm idleAfter life hibernate id ms t0 i t u :
  0 < idleAfter → hibernate id = false → in_order id t0 ms →
  attempts idleAfter life hibernate id ms no_activity !! i = Some t →
  attempts idleAfter life hibernate id ms no_activity !! (i + 3)%nat = Some u →
  t + idleAfter ≤ u.
Proof.
  intros Hp Hf Ho Ht Hu.
  destruct (attempts_spaced idleAfter life hibernate id Hp Hf ms no_activity t0 Ho) as [_ Hs].
  { intros t'. unfold no_activity. cbn. by rewrite lookup_empty. }
  { done. }
  by eapply (spaced_window idleAfter 0).
Qed.

Definition idle_life : lifes := {["a" := mkLife 0 true]}.
Definition idle_story : list moment :=
  [Touch 0 "a"; Tick 60 ["b"; "a"] (λ _, 61); Tick 90 ["a"] (λ _, 91); Tick 120 ["a"; "b"] (λ _, 121);
   Tick 150 ["a"] (λ _, 151); Touch 160 "b"; Tick 181 ["a"] (λ _, 182)].

Example no_retry_storm_witness :
  let l := attempts 60 idle_life (λ _, false) "a" idle_story no_activity in
  l = [60; 90; 120; 181] ∧ 60 + 60 ≤ 181.
Proof.
  cbv zeta. split; [vm_compute; reflexivity|].
  assert (in_order "a" 0 idle_story) as Ho.
  { cbn. split_and!; try lia; try (apply (bool_decide_eq_true_1 (NoDup _)); vm_compute; reflexivity); exact I. }
  refine (no_retry_storm 60 idle_life (λ _, false) "a" idle_story 0 0 60 181 ltac:(lia) eq_refl Ho _ _);
    vm_compute; reflexivity.
Defined.

(** ** Tunnels *)

(** What happens to one sandbox's tunnels; [Forgotten] is a teardown. *)
Inductive tunnel_event := Opened (now : Z) | Closed (now : Z) | Marked (now : Z) | Noted (now : Z) (ok : bool).

Definition tunnel_step (id : string) (a : activity) (e : tunnel_event) : activity :=
  match e with
  | Opened now => TunnelOpened now id a
  | Closed now => TunnelClosed now id a
  | Marked now => MarkActivity now id a
  | Noted now ok => (noteHibernateResult now id ok a).1
  end.

(** How many tunnels are open after the events; [None] if one was closed that
    had not been opened. *)
Fixpoint balance (n : Z) (es : list tunnel_event) : option Z :=
  match es with
  | [] => Some n
  | Opened _ :: es => balance (n + 1) es
  | Closed _ :: es => if n <=? 0 then None else balance (n - 1) es
  | _ :: es => balance n es
  end.

Lemma tunnels_counted id es a n : id ≠ "" →
  ActiveTunnels id a = n → 0 ≤ n → ∀ k, balance n es = Some k →
  ActiveTunnels id (foldl (tunnel_step id) a es) = k.
Proof.
  intros Hid. revert a n. induction es as [|e es IH]; intros a n Ha Hn k Hk; [by injection Hk as <-|].
  cbn [foldl]. assert (String.eqb id "" = false) as E by (by apply String.eqb_neq).
  destruct e as [now|now|now|now ok]; cbn [balance tunnel_step] in Hk |- *.
  - apply (IH _ (n + 1)); [|lia|done]. unfold TunnelOpened, ActiveTunnels, count in *. rewrite E. cbn.
    by rewrite lookup_insert_eq, Ha.
  - destruct (n <=? 0) eqn:En; [done|]. apply (IH _ (n - 1)); [|lia|done].
    unfold TunnelClosed, ActiveTunnels in *. rewrite E, Ha. cbn. unfold count. destruct (n <=? 1) eqn:E1.
    + rewrite lookup_delete_eq. cbn. lia.
    + by rewrite lookup_insert_eq.
  - apply (IH _ n); [|done..]. unfold MarkActivity. by rewrite E.
  - apply (IH _ n); [|done..]. unfold noteHibernateResult. destruct ok; [done|]. by case_match.
Qed.

Lemma sweep_spares_tunnels idleAfter life d hib now ids id a : NoDup ids →
  0 < ActiveTunnels id a → id ∉ (idle_sweep idleAfter life d hib now ids a).2.
Proof.
  intros Hnd Ht. pose proof (sweep_locate idleAfter life hib id d now ids a Hnd) as K.
  destruct (idle_sweep _ _ _ _ now ids a) as [a' l]. cbn. destruct (decide (id ∈ ids)); [|by destruct K].
  destruct K as (b & Hb & _ & ->). unfold sweep_one, lastActivityFor.
  assert (0 < ActiveTunnels id b) as Hb'.
  { unfold ActiveTunnels. injection Hb as _ -> _. exact Ht. }
  destruct (lastActivity b !! id); (case_match; [done|]); unfold ActiveTunnels in *; cbn [touch activeTunnels];
    replace (0 <? count id (activeTunnels b)) with true by lia; done.
Qed.

(** Nobody is put to sleep under an open connection.  As long as every
    closed tunnel was opened before (and the sandbox was not torn down), the
    tunnel count is the number of open ones, and while it is not zero the idle
    sweeper does not hibernate the sandbox. *)
Theorem open_tunnel_keeps_awake id es k idleAfter life d hib now ids :
  id ≠ "" → NoDup ids → balance 0 es = Some k → 0 < k →
  let a := foldl (tunnel_step id) no_activity es in
  ActiveTunnels id a = k ∧ id ∉ (RunIdleSweeper_tick idleAfter life d hib now ids a).2.
Proof.
  intros Hid Hnd Hb Hk a.
  assert (ActiveTunnels id a = k) as Ha by (apply (tunnels_counted id es no_activity 0 Hid); try done; apply Z.le_refl).
  split; [done|]. unfold RunIdleSweeper_tick. case_match; [by apply not_elem_of_nil|].
  apply sweep_spares_tunnels; [done|lia].
Qed.

Example open_tunnel_keeps_awake_witness :
  let a := foldl (tunnel_step "a") no_activity [Opened 1; Opened 2; Closed 3] in
  ActiveTunnels "a" a = 1 ∧ "a" ∉ (RunIdleSweeper_tick 60 idle_life (λ _, 0) (λ _, true) 1000 ["a"] a).2.
Proof.
  assert (NoDup ["a"]) as H by (apply (bool_decide_eq_true_1 (NoDup ["a"])); vm_compute; reflexivity).
  exact (open_tunnel_keeps_awake "a" [Opened 1; Opened 2; Closed 3] 1 60 idle_life (λ _, 0) (λ _, true) 1000 ["a"]
           ltac:(discriminate) H eq_refl ltac:(lia)).
Defined.

(** A teardown drops the count; when a connection of before is noticed as
    closed, it takes one off the connections of after. *)
Lemma stale_close_puts_to_sleep :
  let a := TunnelClosed 4 "a" (TunnelOpened 3 "a" (forget_all "a" (TunnelOpened 1 "a" no_activity))) in
  ActiveTunnels "a" a = 0 ∧ (RunIdleSweeper_tick 60 idle_life (λ _, 0) (λ _, true) 1000 ["a"] a).2 = ["a"].
Proof. split; vm_compute; reflexivity. Qed.

(** delete forgets the tunnels and the clock but not the failures, as
    teardownResources does. *)
Lemma delete_keeps_failures :
  let a := (noteHibernateResult 1 "a" false no_activity).1 in
  hibFails (forget "a" a) !! "a" = Some 1 ∧ hibFails (forget_all "a" a) !! "a" = None.
Proof. split; vm_compute; reflexivity. Qed.

(** ** The settings across a restart *)

(** A positive whole number of seconds comes back as it was set. *)
Lemma settings_survive_restart defaultTTL durable id tmpl s p m rows :
  0 < s → is_Some (rows !! id) →
  let '(m', (p', sec)) := setLifecycleForCreate defaultTTL durable id tmpl (Some s) p m in
  let rows' := (persistLifecycle id p' sec rows).1 in
  ∃ st, lc_Get id m' = Some st ∧
    rehydrateLifecycle defaultTTL durable id tmpl (Some rows') = (ttl st, persistent st).
Proof.
  intros Hs [c Hc]. cbn. exists (mkLife (s * second) (p || isDurableTemplate durable tmpl)).
  unfold lc_Get, lc_Set. rewrite lookup_insert_eq. split; [done|]. unfold persistLifecycle, rehydrateLifecycle. rewrite Hc. cbn.
  rewrite lookup_insert_eq. unfold second. rewrite Z.div_mul by lia. replace (0 <? s) with true by lia.
  cbn. f_equal. by destruct p, (isDurableTemplate durable tmpl).
Qed.

(** A TTL of zero, which reaps at the next scan, comes back as the default. *)
Lemma zero_ttl_becomes_default :
  let rows := (persistLifecycle "a" false 0 {["a" := (false, 0)]}).1 in
  rehydrateLifecycle (30 * minute) ∅ "a" "base" (Some rows) = (30 * minute, false).
Proof. reflexivity. Qed.

(** Two updates write from two goroutines; the first may land last. *)
Lemma older_update_wins :
  let land w rows := (persistLifecycle "a" w.1 w.2 rows).1 in
  match UpdateLifecycle (30 * minute) ∅ "a" (Some 60) None (Ok None) None {["a" := mkLife 0 false]} with
  | Err _ => False
  | Ok (m1, w1) =>
      match UpdateLifecycle (30 * minute) ∅ "a" None (Some true) (Ok None) None m1 with
      | Err _ => False
      | Ok (m2, w2) =>
          lc_Get "a" m2 = Some (mkLife (60 * second) true) ∧
          land w1 (land w2 {["a" := (false, 0)]}) !! "a" = Some (false, 60)
      end
  end.
Proof. vm_compute. split; reflexivity. Qed.
