(* ===== verification/Janitor.v ===== *)
(** Who may judge a sandbox row, and what the sweeps of the agent reclaim:
    [ownsRow] and [managedKind] of agent/internal/sandbox/manager.go, the
    failed-row janitor and the orphan-loop sweep of teardown.go.  What the
    agent sees of the host (directories, sockets, volumes, drivers, network
    slots) is a set of ids each; a row is its columns. *)

From S2P Require Import Prelude GoStrings.

Open Scope string_scope.
Open Scope list_scope.
Open Scope Z_scope.
#[local] Set Warnings "-clear-no-such-hyp".

(** ** Rows and host *)

Record sbrow := mkRow {
  r_id : string; r_status : string; r_template : string; r_agent : string;
  r_kind : string;     (* metadata["kind"] *)
  r_app : string;      (* metadata["app.id"] *)
}.

Record host := mkHost {
  vms : gset string;        (* DataDir/vms/<id> *)
  socks : gset string;      (* /tmp/fc-<id>.socket *)
  vols : gset string;       (* DataDir/volumes/db/<id>.ext4 *)
  drivers : gset string;    (* m.drivers *)
  nets : gset string;       (* network slots and namespaces *)
}.

Definition pgManagedTemplates : list string := ["postgres-16"].

Definition managedKind (r : sbrow) : string :=
  if bool_decide (r_template r ∈ pgManagedTemplates) then "database"
  else if String.eqb (r_kind r) "app" || negb (String.eqb (r_app r) "") then "app"
  else "".

Definition hasLocalEvidence (h : host) (id : string) : bool :=
  bool_decide (id ∈ vms h) || bool_decide (id ∈ socks h) || bool_decide (id ∈ vols h).

(** The cases of the switch, in order: an agent without an id owns the rows
    without one. *)
Definition ownsRow (me : string) (h : host) (r : sbrow) : bool :=
  if String.eqb (r_id r) "" then false
  else if String.eqb (r_agent r) me then true
  else if String.eqb (r_agent r) "" then hasLocalEvidence h (r_id r)
  else false.

Definition fcProcessAlive (h : host) (id : string) : bool := bool_decide (id ∈ socks h).

(** [teardownResourcesKeepDurable]. *)
Definition teardownKeepDurable (id : string) (h : host) : host :=
  mkHost (vms h ∖ {[id]}) (socks h) (vols h) (drivers h ∖ {[id]}) (nets h ∖ {[id]}).

Lemma bool_decide_same (P Q : Prop) `{!Decision P, !Decision Q} : bool_decide P = bool_decide Q → (P ↔ Q).
Proof. do 2 case_bool_decide; naive_solver. Qed.

(** ** The failed-row janitor *)

Section janitor.
Context (me : string) (grace : Z).

(** What a sweep carries along: the host, [firstSeen], [stillFailed], the rows
    deleted. *)
Record sweeping := mkSweep {
  s_host : host; firstSeen : gmap string Z; stillFailed : gset string; reclaimed : list string;
}.

Definition failed_unmanaged (h : host) (r : sbrow) : bool :=
  negb (String.eqb (r_id r) "") && String.eqb (r_status r) "failed" && ownsRow me h r &&
  String.eqb (managedKind r) "".

Definition sweep_row (now : Z) (deleteRow : string → bool) (s : sweeping) (r : sbrow) : sweeping :=
  let id := r_id r in
  if negb (failed_unmanaged (s_host s) r) then s
  else
    let s := mkSweep (s_host s) (firstSeen s) ({[id]} ∪ stillFailed s) (reclaimed s) in
    match firstSeen s !! id with
    | None => mkSweep (s_host s) (<[id := now]> (firstSeen s)) (stillFailed s) (reclaimed s)
    | Some first =>
        if now - first <? grace then s
        else if bool_decide (id ∈ drivers (s_host s)) || fcProcessAlive (s_host s) id then s
        else
          let h := teardownKeepDurable id (s_host s) in
          if negb (deleteRow id) then mkSweep h (firstSeen s) (stillFailed s) (reclaimed s)
          else mkSweep h (delete id (firstSeen s)) (stillFailed s) (reclaimed s ++ [id])
    end.

(** One sweep; [rows] is [None] when the store does not answer. *)
Definition sweep (now : Z) (rows : option (list sbrow)) (deleteRow : string → bool) (h : host) (fs : gmap string Z)
    : host * gmap string Z * list string :=
  match rows with
  | None => (h, fs, [])
  | Some rows =>
      let s := foldl (sweep_row now deleteRow) (mkSweep h fs ∅ []) rows in
      (s_host s, filter (λ p, p.1 ∈ stillFailed s) (firstSeen s), reclaimed s)
  end.

(** ** Its effect on one id *)

Definition torn (id : string) (h h' : host) : Prop :=
  vms h' = vms h ∖ {[id]} ∧ drivers h' = drivers h ∖ {[id]} ∧ nets h' = nets h ∖ {[id]}.

(** What a sweep never touches. *)
Definition spared (h h' : host) : Prop :=
  vols h' = vols h ∧ socks h' = socks h ∧ vms h' ⊆ vms h ∧ drivers h' ⊆ drivers h ∧ nets h' ⊆ nets h.

Lemma spared_refl h : spared h h.
Proof. by split_and!. Qed.
Lemma spared_trans h1 h2 h3 : spared h1 h2 → spared h2 h3 → spared h1 h3.
Proof.
  intros (E1 & E2 & ? & ? & ?) (E3 & E4 & ? & ? & ?). unfold spared. rewrite E3, E4, E1, E2. split_and!; try done; set_solver.
Qed.

Lemma sweep_row_spared now dr s r : spared (s_host s) (s_host (sweep_row now dr s r)).
Proof.
  unfold sweep_row. repeat case_match; cbn; try apply spared_refl; unfold spared, teardownKeepDurable; cbn; set_solver.
Qed.

(** A row of another id leaves what the sweep holds of [id] alone. *)
Lemma sweep_row_other now dr s r id : r_id r ≠ id →
  let s' := sweep_row now dr s r in
  firstSeen s' !! id = firstSeen s !! id ∧ (id ∈ stillFailed s' ↔ id ∈ stillFailed s) ∧
  (id ∈ reclaimed s' ↔ id ∈ reclaimed s) ∧
  (id ∈ vms (s_host s') ↔ id ∈ vms (s_host s)) ∧ (id ∈ drivers (s_host s') ↔ id ∈ drivers (s_host s)) ∧
  (id ∈ nets (s_host s') ↔ id ∈ nets (s_host s)).
Proof.
  intros Hne. unfold sweep_row, teardownKeepDurable.
  repeat case_match; cbn; rewrite ?lookup_insert_ne, ?lookup_delete_ne by done; split_and!; try done; try set_solver.
Qed.

(** What the fold holds of [id]. *)
Definition holds (id : string) (s : sweeping) : option Z * bool * bool * bool * bool :=
  (firstSeen s !! id, bool_decide (id ∈ stillFailed s), bool_decide (id ∈ reclaimed s),
   bool_decide (id ∈ vms (s_host s)), bool_decide (id ∈ drivers (s_host s))).

Lemma fold_other now dr rows s id : id ∉ (r_id <$> rows) →
  holds id (foldl (sweep_row now dr) s rows) = holds id s.
Proof.
  revert s. induction rows as [|r rows IH]; intros s Hni; [done|]. cbn [foldl].
  apply not_elem_of_cons in Hni as [Hne Hni]. rewrite IH by done.
  destruct (sweep_row_other now dr s r id (not_eq_sym Hne)) as (E1 & E2 & E3 & E4 & E5 & _).
  unfold holds. by rewrite E1, (bool_decide_ext _ _ E2), (bool_decide_ext _ _ E3), (bool_decide_ext _ _ E4), (bool_decide_ext _ _ E5).
Qed.

Lemma fold_spared now dr rows s : spared (s_host s) (s_host (foldl (sweep_row now dr) s rows)).
Proof.
  revert s. induction rows as [|r rows IH]; intros s; [apply spared_refl|].
  eapply spared_trans; [apply sweep_row_spared|apply IH].
Qed.

(** The same evidence, the same judgement. *)
Lemma judged_same h h' r : spared h h' → (r_id r ∈ vms h' ↔ r_id r ∈ vms h) →
  failed_unmanaged h' r = failed_unmanaged h r.
Proof.
  intros (E1 & E2 & _) E3. unfold failed_unmanaged, ownsRow, hasLocalEvidence.
  by rewrite E1, E2, (bool_decide_ext _ _ E3).
Qed.

(** The row of [id] that counts as failed, owned and unmanaged. *)
Definition bad (rows : list sbrow) (h : host) (id : string) : Prop :=
  ∃ r, r ∈ rows ∧ r_id r = id ∧ failed_unmanaged h r = true.

Definition busy (h : host) (id : string) : Prop := id ∈ drivers h ∨ id ∈ socks h.
#[local] Instance busy_dec h id : Decision (busy h id).
Proof. unfold busy. apply _. Defined.

(** One sweep, for one id: what is remembered, and whether it is reclaimed. *)
Lemma janitor_sweep_spec now rows dr h fs id h' fs' l :
  NoDup (r_id <$> rows) → sweep now (Some rows) dr h fs = (h', fs', l) →
  let v := bool_decide (id ∈ vms h) in
  (¬ bad rows h id ∧ (fs' !! id, bool_decide (id ∈ l), bool_decide (id ∈ vms h')) = (None, false, v)) ∨
  (bad rows h id ∧ (fs' !! id, bool_decide (id ∈ l), bool_decide (id ∈ vms h')) =
   match fs !! id with
   | None => (Some now, false, v)
   | Some t =>
       if decide (now - t < grace ∨ busy h id) then (Some t, false, v)
       else if dr id then (None, true, false) else (Some t, false, false)
   end).
Proof.
  intros Hnd H v. unfold sweep in H. injection H as <- <- <-.
  set (s0 := mkSweep h fs ∅ []).
  assert (∀ s, filter (λ p, p.1 ∈ stillFailed s) (firstSeen s) !! id =
    if bool_decide (id ∈ stillFailed s) then firstSeen s !! id else None) as Kf.
  { intros s. case_bool_decide as Hs.
    - destruct (firstSeen s !! id) eqn:E; [by apply map_lookup_filter_Some|]. apply map_lookup_filter_None. by left.
    - apply map_lookup_filter_None. right. by intros ? ? ?. }
  destruct (decide (id ∈ (r_id <$> rows))) as [Hin|Hout].
  2:{ left. pose proof (fold_other now dr rows s0 id Hout) as E. unfold holds in E. injection E as E1 E2 E3 E4 _.
      rewrite Kf, E2, E3, E4. split; [|done].
      intros (r & Hr & <- & _). apply Hout. by apply list_elem_of_fmap_2. }
  apply list_elem_of_fmap in Hin as (r & -> & Hr).
  pose proof Hnd as Hnd0. pose proof Hr as Hr0.
  apply list_elem_of_split in Hr as (l1 & l2 & ->).
  rewrite fmap_app, fmap_cons in Hnd. apply NoDup_app in Hnd as (_ & Hd & Hnd2). apply NoDup_cons in Hnd2 as [Hn2 _].
  assert (r_id r ∉ (r_id <$> l1)) as Hn1 by (intros Hx; apply (Hd _ Hx); left).
  assert (bad (l1 ++ r :: l2) h (r_id r) ↔ failed_unmanaged h r = true) as Hbad.
  { split; [|by exists r]. intros (r' & Hr' & E & Hf).
    apply elem_of_app in Hr' as [Hr'|[->|Hr']%elem_of_cons]; [|done|].
    - destruct Hn1. rewrite <- E. by apply list_elem_of_fmap_2.
    - destruct Hn2. rewrite <- E. by apply list_elem_of_fmap_2. }
  rewrite foldl_app. cbn [foldl]. set (s1 := foldl _ s0 l1).
  pose proof (fold_other now dr l1 s0 (r_id r) Hn1) as E1. fold s1 in E1. unfold holds in E1.
  injection E1 as F1 F2 F3 F4 F5. cbn in F1.
  pose proof (fold_spared now dr l1 s0) as Sp. fold s1 in Sp. cbn in Sp.
  pose proof (fold_other now dr l2 (sweep_row now dr s1 r) (r_id r) Hn2) as E2. unfold holds in E2.
  injection E2 as G1 G2 G3 G4 _. rewrite Kf, G1, G2, G3, G4. clear Kf G1 G2 G3 G4.
  apply bool_decide_same in F4, F5. cbn in F4, F5.
  assert (busy (s_host s1) (r_id r) ↔ busy h (r_id r)) as Hbusy.
  { unfold busy. rewrite F5. by destruct Sp as (_ & -> & _). }
  assert (bool_decide (r_id r ∈ stillFailed s1) = false ∧ bool_decide (r_id r ∈ reclaimed s1) = false) as [F2' F3'].
  { split; [|exact F3]. rewrite F2. apply bool_decide_false. set_solver. }
  clear F2 F3. assert (bool_decide (r_id r ∈ vms (s_host s1)) = v) as Hv by (by apply bool_decide_ext).
  unfold sweep_row. rewrite (judged_same h (s_host s1) r Sp F4).
  destruct (failed_unmanaged h r) eqn:Ef; cbn [negb].
  2:{ left. rewrite Hbad, F2', F3', Hv. by split. }
  right. split; [by apply Hbad|]. cbn [s_host firstSeen stillFailed reclaimed]. rewrite F1.
  assert (∀ X : gset string, bool_decide (r_id r ∈ {[r_id r]} ∪ X) = true) as Kx by (intros; apply bool_decide_true; set_solver).
  destruct (fs !! r_id r) as [t|] eqn:Et; cbn [s_host firstSeen stillFailed reclaimed].
  2:{ by rewrite Kx, lookup_insert_eq, F3', Hv. }
  assert (bool_decide (r_id r ∈ drivers (s_host s1)) || fcProcessAlive (s_host s1) (r_id r) =
          bool_decide (busy h (r_id r))) as Kb.
  { unfold fcProcessAlive. rewrite <- bool_decide_or. by apply bool_decide_ext. }
  rewrite Kb. destruct (Z.ltb_spec (now - t) grace).
  { rewrite decide_True by (by left). cbn. by rewrite Kx, F1, F3', Hv. }
  destruct (decide (busy h (r_id r))) as [Hb|Hb];
    [rewrite (bool_decide_true (busy h (r_id r))) by done|rewrite (bool_decide_false (busy h (r_id r))) by done].
  { rewrite decide_True by (by right). cbn. by rewrite Kx, F1, F3', Hv. }
  rewrite decide_False by (intros [?|?]; [lia|done]).
  assert (∀ X : gset string, bool_decide (r_id r ∈ X ∖ {[r_id r]}) = false) as Kv
    by (intros; apply bool_decide_false; set_solver).
  destruct (dr (r_id r)); cbn.
  - rewrite Kx, Kv, lookup_delete_eq. f_equal. f_equal. apply bool_decide_true, elem_of_app. right. left.
  - by rewrite Kx, Kv, F1, F3'.
Qed.

(** ** A history of sweeps *)

(** When it ran, what the store answered, which deletes work, the host. *)
Record sweep_at := mkAt { a_now : Z; a_rows : option (list sbrow); a_del : string → bool; a_host : host }.

Definition do_sweep (s : sweep_at) (fs : gmap string Z) : host * gmap string Z * list string :=
  sweep (a_now s) (a_rows s) (a_del s) (a_host s) fs.

(** [firstSeen] after the sweeps. *)
Definition remembered (ss : list sweep_at) (fs : gmap string Z) : gmap string Z :=
  foldl (λ fs s, (do_sweep s fs).1.2) fs ss.

Definition rows_ok (s : sweep_at) : Prop := ∀ rows, a_rows s = Some rows → NoDup (r_id <$> rows).
Definition bad_at (id : string) (s : sweep_at) : Prop := ∀ rows, a_rows s = Some rows → bad rows (a_host s) id.

Lemma remembered_since ss id t :
  Forall rows_ok ss → remembered ss ∅ !! id = Some t →
  ∃ ss1 s1 ss2, ss = ss1 ++ s1 :: ss2 ∧ a_now s1 = t ∧ is_Some (a_rows s1) ∧ Forall (bad_at id) (s1 :: ss2).
Proof.
  revert t. induction ss as [|s ss IH] using rev_ind; intros t Hok Ht; [unfold remembered in Ht; cbn in Ht; by apply lookup_empty_Some in Ht|].
  apply Forall_app in Hok as [Hok [Hs _]%Forall_cons]. unfold remembered in Ht. rewrite foldl_app in Ht. cbn [foldl] in Ht.
  fold (remembered ss ∅) in Ht. unfold do_sweep in Ht. destruct (a_rows s) as [rows|] eqn:Er.
  - destruct (sweep _ _ _ _ _) as [[h' fs'] l] eqn:E. cbn in Ht.
    destruct (janitor_sweep_spec _ _ _ _ _ id _ _ _ (Hs rows Er) E) as [[_ K]|[Hb K]]; [by rewrite Ht in K|].
    assert (bad_at id s) as Hbs by (intros rows' Hr'; rewrite Er in Hr'; by injection Hr' as <-).
    destruct (remembered ss ∅ !! id) as [t'|] eqn:Et.
    + assert (t' = t) as -> by (rewrite Ht in K; repeat case_match; congruence).
      destruct (IH t Hok eq_refl) as (ss1 & s1 & ss2 & -> & ? & ? & Hall). exists ss1, s1, (ss2 ++ [s]).
      rewrite <- app_assoc. split_and!; try done. change (s1 :: (ss2 ++ [s])) with ((s1 :: ss2) ++ [s]).
      apply Forall_app. by split; [|apply Forall_singleton].
    + exists ss, s, []. rewrite Ht in K. split_and!; [done|congruence|by rewrite Er; eauto|by apply Forall_singleton].
  - cbn in Ht. destruct (IH t Hok Ht) as (ss1 & s1 & ss2 & -> & ? & ? & Hall). exists ss1, s1, (ss2 ++ [s]).
    rewrite <- app_assoc. split_and!; try done. change (s1 :: (ss2 ++ [s])) with ((s1 :: ss2) ++ [s]).
    apply Forall_app. split; [done|]. apply Forall_singleton. intros rows Hr. congruence.
Qed.

(** What the janitor reclaims is dead.  In any history of sweeps, the
    directory of an id goes, or its row, only if this sweep saw a row of the id
    that is failed, owned by this agent and backs no database or app, with no
    driver and no control socket; and if an earlier sweep, at least the grace
    period ago, saw such a row, as did every sweep since that got an answer.
    Volumes and sockets of all ids stay. *)
Theorem janitor_waits ss s id h' fs' l :
  Forall rows_ok (ss ++ [s]) → do_sweep s (remembered ss ∅) = (h', fs', l) →
  spared (a_host s) h' ∧
  (id ∈ l ∨ (id ∈ vms (a_host s) ∧ id ∉ vms h') →
   (∃ rows, a_rows s = Some rows ∧ bad rows (a_host s) id) ∧ ¬ busy (a_host s) id ∧
   ∃ ss1 s1 ss2, ss = ss1 ++ s1 :: ss2 ∧ a_now s1 + grace ≤ a_now s ∧ is_Some (a_rows s1) ∧
                 Forall (bad_at id) (s1 :: ss2)).
Proof.
  intros [Hok [Hs _]%Forall_cons]%Forall_app E. unfold do_sweep in E. destruct (a_rows s) as [rows|] eqn:Er.
  2:{ injection E as <- <- <-. split; [apply spared_refl|]. intros [?%elem_of_nil|[? ?]]; done. }
  split.
  { injection E as <- <- <-. apply (fold_spared (a_now s) (a_del s) rows (mkSweep (a_host s) (remembered ss ∅) ∅ [])). }
  intros Hgone.
  assert ((bool_decide (id ∈ l), bool_decide (id ∈ vms h')) ≠ (false, bool_decide (id ∈ vms (a_host s)))) as Hne.
  { intros K. injection K as K1 K2. apply bool_decide_eq_false in K1. apply bool_decide_same in K2. naive_solver. }
  destruct (janitor_sweep_spec _ _ _ _ _ id _ _ _ (Hs rows Er) E) as [[_ K]|[Hb K]]; [injection K; congruence|].
  destruct (remembered ss ∅ !! id) as [t|] eqn:Et; [|injection K; congruence].
  case_decide as Hd; [injection K; congruence|]. split; [eauto|]. split; [tauto|].
  destruct (remembered_since ss id t Hok Et) as (ss1 & s1 & ss2 & -> & <- & ? & ?).
  exists ss1, s1, ss2. split_and!; [done|lia|done|done].
Qed.

(** A row that stays failed, owned and unmanaged, in sweeps that get an
    answer. *)
Definition bad_answered (id : string) (s : sweep_at) : Prop :=
  rows_ok s ∧ ∃ rows, a_rows s = Some rows ∧ bad rows (a_host s) id.

Definition reclaims (s : sweep_at) (fs : gmap string Z) (id : string) : Prop := id ∈ (do_sweep s fs).2.

Lemma still_remembered id t0 ss fs :
  (∀ t, fs !! id = Some t → t ≤ t0) → Forall (bad_answered id) ss → (∃ s ss', ss = s :: ss' ∧ a_now s ≤ t0) →
  (∃ ss1 s ss2, ss = ss1 ++ s :: ss2 ∧ reclaims s (remembered ss1 fs) id) ∨
  ∃ t, remembered ss fs !! id = Some t ∧ t ≤ t0.
Proof.
  intros Hfs Hall Hfirst. induction ss as [|s ss IH] using rev_ind; [by destruct Hfirst as (? & ? & ? & _)|].
  apply Forall_app in Hall as [Hall [[Hok (rows & Er & Hb)] _]%Forall_cons].
  destruct (do_sweep s (remembered ss fs)) as [[h' fs'] l] eqn:E. pose proof E as E0.
  unfold do_sweep in E. rewrite Er in E.
  assert (remembered (ss ++ [s]) fs = fs') as -> by (unfold remembered; rewrite foldl_app; cbn; fold (remembered ss fs); by rewrite E0).
  assert ((∃ ss1 s ss2, ss = ss1 ++ s :: ss2 ∧ reclaims s (remembered ss1 fs) id) ∨
          (remembered ss fs !! id = None ∧ ss = []) ∨ ∃ t, remembered ss fs !! id = Some t ∧ t ≤ t0) as [(ss1 & s1 & ss2 & -> & Hr)|Hcase].
  { destruct ss as [|s1 ss'].
    - right. cbn. destruct (fs !! id) eqn:Ef; [right; eauto|left; done].
    - destruct IH as [?|?]; [done| |by left|by right; right].
      destruct Hfirst as (s0 & ss0 & [= -> _] & ?). eauto. }
  { left. exists ss1, s1, (ss2 ++ [s]). by rewrite <- app_assoc. }
  destruct (janitor_sweep_spec _ _ _ _ _ id _ _ _ (Hok rows Er) E) as [[Hn _]|[_ K]]; [done|].
  destruct Hcase as [[Hn ->]|(t & Ht & Hle)].
  - right. exists (a_now s). rewrite Hn in K. injection K as K _ _. split; [done|].
    by destruct Hfirst as (s0 & ss0 & [= -> _] & ?).
  - rewrite Ht in K. case_decide; [right; exists t; by injection K as -> _ _|].
    destruct (a_del s id); [|right; exists t; by injection K as -> _ _].
    left. exists ss, s, []. split; [done|]. unfold reclaims. rewrite E0. injection K as _ K _. by apply bool_decide_eq_true in K.
Qed.

(** C12. Every dead row is reclaimed.  If the sweeps from [s1] to [s] all get an
    answer with the row failed, owned and unmanaged, a grace period lies
    between, and at [s] no driver and no socket is left and the delete works,
    then one of them has reclaimed it. *)
Theorem janitor_reclaims s1 ss s fs id :
  Forall (bad_answered id) (s1 :: (ss ++ [s])) → (∀ t, fs !! id = Some t → t ≤ a_now s1) →
  a_now s1 + grace ≤ a_now s → ¬ busy (a_host s) id → a_del s id = true →
  ∃ ss1 s' ss2, s1 :: (ss ++ [s]) = ss1 ++ s' :: ss2 ∧ reclaims s' (remembered ss1 fs) id.
Proof.
  intros Hall Hfs Hg Hb Hd. change (s1 :: (ss ++ [s])) with ((s1 :: ss) ++ [s]) in *.
  apply Forall_app in Hall as [Hall [[Hok (rows & Er & Hbad)] _]%Forall_cons].
  destruct (still_remembered id (a_now s1) (s1 :: ss) fs Hfs Hall) as [(ss1 & s' & ss2 & E & Hr)|(t & Ht & Hle)].
  { exists s1, ss. split; [done|lia]. }
  { exists ss1, s', (ss2 ++ [s]). rewrite E. by rewrite <- app_assoc. }
  exists (s1 :: ss), s, []. split; [done|]. unfold reclaims.
  destruct (do_sweep s (remembered (s1 :: ss) fs)) as [[h' fs'] l] eqn:E. unfold do_sweep in E. rewrite Er in E. cbn.
  destruct (janitor_sweep_spec _ _ _ _ _ id _ _ _ (Hok rows Er) E) as [[Hn _]|[_ K]]; [done|].
  rewrite Ht, Hd in K. rewrite decide_False in K by (intros [?|?]; [lia|done]).
  injection K as _ K _. by apply bool_decide_eq_true in K.
Qed.

(** A control socket left behind keeps the row for ever: no sweep removes it. *)
Lemma socket_blocks_the_janitor s fs h' fs' l id :
  rows_ok s → id ∈ socks (a_host s) → do_sweep s fs = (h', fs', l) → (id ∉ l) ∧ id ∈ socks h'.
Proof.
  intros Hok Hs E. unfold do_sweep in E. destruct (a_rows s) as [rows|] eqn:Er.
  2:{ injection E as <- <- <-. split; [apply not_elem_of_nil|done]. }
  split.
  - destruct (janitor_sweep_spec _ _ _ _ _ id _ _ _ (Hok rows Er) E) as [[_ K]|[_ K]].
    + injection K as _ K _. by apply bool_decide_eq_false in K.
    + destruct (fs !! id); [rewrite decide_True in K by (right; by right)|]; injection K as _ K _; by apply bool_decide_eq_false in K.
  - injection E as <- <- <-.
    destruct (fold_spared (a_now s) (a_del s) rows (mkSweep (a_host s) fs ∅ [])) as (_ & -> & _). done.
Qed.

End janitor.

(** ** A story *)

Definition lone_host : host := mkHost {["a"]} ∅ {["a"]} ∅ {["a"]}.
Definition failed_a : sbrow := mkRow "a" "failed" "base" "me" "" "".
Definition seen_failed (t : Z) : sweep_at := mkAt t (Some [failed_a; mkRow "b" "failed" "postgres-16" "me" "" ""]) (λ _, true) lone_host.

Lemma seen_failed_ok t : rows_ok (seen_failed t).
Proof.
  intros rows [= <-]. apply (bool_decide_eq_true_1 (NoDup ["a"; "b"])). vm_compute. reflexivity.
Qed.
Lemma seen_failed_bad t rows : a_rows (seen_failed t) = Some rows → bad "me" rows (a_host (seen_failed t)) "a".
Proof. intros [= <-]. exists failed_a. split_and!; [left|done|vm_compute; reflexivity]. Qed.

Example janitor_waits_witness :
  let '(h', _, l) := do_sweep "me" 10 (seen_failed 12) (remembered "me" 10 [seen_failed 1; seen_failed 5] ∅) in
  l = ["a"] ∧ vols h' = {["a"]} ∧
  ∃ ss1 s1 ss2, [seen_failed 1; seen_failed 5] = ss1 ++ s1 :: ss2 ∧ a_now s1 + 10 ≤ 12.
Proof.
  destruct (do_sweep "me" 10 (seen_failed 12) (remembered "me" 10 [seen_failed 1; seen_failed 5] ∅)) as [[h' fs'] l] eqn:E.
  assert (Forall rows_ok ([seen_failed 1; seen_failed 5] ++ [seen_failed 12])) as Hok.
  { apply Forall_cons; split; [apply seen_failed_ok|]. apply Forall_cons; split; [apply seen_failed_ok|].
    apply Forall_cons; split; [apply seen_failed_ok|]. apply Forall_nil. exact I. }
  destruct (janitor_waits "me" 10 [seen_failed 1; seen_failed 5] (seen_failed 12) "a" h' fs' l Hok E) as [(Hv & _) H].
  assert (l = ["a"]) as Hl.
  { assert ((do_sweep "me" 10 (seen_failed 12) (remembered "me" 10 [seen_failed 1; seen_failed 5] ∅)).2 = ["a"]) as K
      by (vm_compute; reflexivity). rewrite E in K. exact K. }
  split; [exact Hl|]. split; [exact Hv|].
  destruct H as (_ & _ & ss1 & s1 & ss2 & Es & Hg & _); [left; rewrite Hl; left|].
  exists ss1, s1, ss2. split; [exact Es|exact Hg].
Defined.

Example janitor_reclaims_witness :
  ∃ ss1 s' ss2, seen_failed 1 :: ([seen_failed 5] ++ [seen_failed 12]) = ss1 ++ s' :: ss2 ∧
    reclaims "me" 10 s' (remembered "me" 10 ss1 ∅) "a".
Proof.
  assert (∀ t, bad_answered "me" "a" (seen_failed t)) as Hb.
  { intros t. split; [apply seen_failed_ok|]. eexists. split; [reflexivity|]. by apply seen_failed_bad. }
  apply (janitor_reclaims "me" 10 (seen_failed 1) [seen_failed 5] (seen_failed 12) ∅ "a").
  - apply Forall_cons; split; [apply Hb|]. apply Forall_cons; split; [apply Hb|].
    apply Forall_cons; split; [apply Hb|]. apply Forall_nil. exact I.
  - intros t Ht. by apply lookup_empty_Some in Ht.
  - cbn. lia.
  - apply (bool_decide_eq_false_1 (busy (a_host (seen_failed 12)) "a")). vm_compute. reflexivity.
  - reflexivity.
Defined.

(** ** Orphan loop devices *)

Definition trim_suffix (suf s : string) : string :=
  if has_suffix suf s then String.substring 0 (String.length s - String.length suf) s else s.

(** From losetup's output, [None] when it fails. *)
Definition loopBacking (out : option string) : string :=
  match out with
  | None => ""
  | Some o => TrimSpace (trim_suffix " (deleted)" (TrimSpace o))
  end.

Definition listLoopDevices (lines : list string) : list string :=
  filter (λ n, has_prefix "/dev/loop" n = true) (TrimSpace <$> lines).

Definition sandboxIDFromVMPath (path vmsRoot : string) : string :=
  let prefix := vmsRoot +:+ "/" in
  if negb (has_prefix prefix path) then ""
  else
    let rest := str_drop (String.length prefix) path in
    match String.index 0 "/" rest with
    | Some i => String.substring 0 i rest
    | None => rest
    end.

Definition slash : Ascii.ascii := Eval cbv in Ascii.ascii_of_nat 47.

(** [filepath.Base] and [filepath.Dir] of the clean absolute paths the kernel
    reports. *)
Definition path_base (p : string) : string := after_last slash p.
Definition path_dir (p : string) : string :=
  String.substring 0 (String.length p - String.length (path_base p) - 1) p.

Section loops.
Context (backing : string → option string).     (* losetup, by device *)
Context (missing : string → bool).              (* os.Stat says IsNotExist *)
Context (resolve : string → option string).     (* filepath.EvalSymlinks *)
Context (detach : string → bool).
Context (vmsDir : string).

Definition vmsRoot : string := default vmsDir (resolve vmsDir).

Definition probe (back : string) : string :=
  match resolve (path_dir back) with Some d => d +:+ "/" +:+ path_base back | None => back end.

Definition is_orphan (live : gset string) (back : string) : bool :=
  let id := sandboxIDFromVMPath (probe back) vmsRoot in
  negb (String.eqb id "") && negb (bool_decide (id ∈ live)).

Definition detachable (live : gset string) (dev : string) : bool :=
  let back := loopBacking (backing dev) in
  negb (String.eqb back "") && (missing back || is_orphan live back).

(** The devices detached. *)
Definition sweepOrphanLoops (live : gset string) (devs : list string) : list string :=
  filter (λ dev, detachable live dev && detach dev = true) devs.

(** Only a device whose file is gone, or is below the directory of a sandbox
    that is not live. *)
Lemma orphan_loops_spec live devs dev :
  dev ∈ sweepOrphanLoops live devs →
  dev ∈ devs ∧ (missing (loopBacking (backing dev)) = true ∨
    ∃ id, id ≠ "" ∧ (id ∉ live) ∧ has_prefix (vmsRoot +:+ "/") (probe (loopBacking (backing dev))) = true ∧
          sandboxIDFromVMPath (probe (loopBacking (backing dev))) vmsRoot = id).
Proof.
  unfold sweepOrphanLoops, detachable, is_orphan. intros [Hd Hin]%list_elem_of_filter.
  set (back := loopBacking (backing dev)) in *. apply andb_true_iff in Hd as [[_ [Hm|[Hid Hl]%andb_true_iff]%orb_true_iff]%andb_true_iff _];
    (split; [done|]); [by left|right].
  eexists. split_and!; [| | |reflexivity].
  - intros E. rewrite E in Hid. done.
  - apply negb_true_iff in Hl. by apply bool_decide_eq_false in Hl.
  - unfold sandboxIDFromVMPath in Hid. destruct (has_prefix _ (probe back)); done.
Qed.

End loops.

Lemma sandbox_id_of_path root id rest :
  all_chars (λ x, negb (Ascii.eqb x slash)) id = true →
  sandboxIDFromVMPath (root +:+ "/" +:+ id +:+ "/" +:+ rest) root = id.
Proof.
  intros Hid. unfold sandboxIDFromVMPath. rewrite string_app_assoc.
  assert (has_prefix (root +:+ "/") ((root +:+ "/") +:+ id +:+ "/" +:+ rest) = true) as -> by (apply has_prefix_iff; eauto).
  cbn [negb]. rewrite str_drop_app.
  assert (String.index 0 "/" (id +:+ "/" +:+ rest) = Some (String.length id)) as -> by exact (index_app slash "" id rest Hid).
  apply substring_prefix.
Qed.

(** The file of a live loop device outside vms/ may be gone too (a mounted
    image that was unlinked); the sweep detaches it. *)
Lemma foreign_loop_detached :
  sweepOrphanLoops (λ _, Some "/opt/image.ext4 (deleted)") (λ p, String.eqb p "/opt/image.ext4") Some (λ _, true)
    "/var/lib/pandastack/vms" ∅ ["/dev/loop7"] = ["/dev/loop7"].
Proof. vm_compute. reflexivity. Qed.
