(* ===== verification/Leases.v ===== *)
(** Which agent owns a sandbox: the lease statements of
    agent/internal/registry/registry.go and their use by
    agent/internal/sandbox/leasesink.go (acquire, release, renewal, the sweep of
    stale leases, the clean-up at startup), on the tables every agent of the
    fleet shares.  Times and durations are nanoseconds.  The order in which a
    query returns rows, or Go iterates over a map, is the argument [order];
    every statement may fail. *)

From S2P Require Import Prelude.

Open Scope string_scope.
Open Scope list_scope.
Open Scope Z_scope.
#[local] Set Warnings "-clear-no-such-hyp".

(** ** The shared tables *)

Record lease_row := mkLeaseRow { l_agent : string; l_ws : string; l_expires : Z }.
(** The columns of a sandbox's row that are read here. *)
Record sb_row := mkSbRow { s_status : string; s_agent : string; s_template : string; s_meta : gmap string string }.
Record tables := mkTables { leases : gmap string lease_row; rows : gmap string sb_row }.

Definition set_leases (l : gmap string lease_row) (t : tables) : tables := mkTables l (rows t).
Definition set_rows (r : gmap string sb_row) (t : tables) : tables := mkTables (leases t) r.
Definition with_status (st : string) (r : sb_row) : sb_row := mkSbRow st (s_agent r) (s_template r) (s_meta r).
Definition SetStatus (id st : string) (t : tables) : tables := set_rows (alter (with_status st) id (rows t)) t.

(** [interval '%d seconds'], [int(d.Seconds())]. *)
Definition futureExpr (now d : Z) : Z := now + Z.quot d (10 ^ 9) * 10 ^ 9.

(** [WHERE status IN ('running','paused','hibernated')]. *)
Definition live_status (st : string) : bool :=
  String.eqb st "running" || String.eqb st "paused" || String.eqb st "hibernated".

Definition AcquireLease (now : Z) (id agent ws : string) (ttl : Z) (t : tables) : tables :=
  set_leases (<[id := mkLeaseRow agent ws (futureExpr now ttl)]> (leases t)) t.

Definition ReleaseLease (id : string) (t : tables) : tables := set_leases (delete id (leases t)) t.

(** [None]: no current lease ("" in the code). *)
Definition LookupLease (now : Z) (id : string) (t : tables) : option string :=
  l ← leases t !! id; if now <? l_expires l then Some (l_agent l) else None.

(** The UPDATE of one id: the new table, and whether a row was affected. *)
Definition flip (id : string) (t : tables) : tables * bool :=
  match rows t !! id with
  | Some r => if live_status (s_status r) then (SetStatus id "failed" t, true) else (t, false)
  | None => (t, false)
  end.

(** [ok id]: whether the UPDATE and the DELETE of [id] are answered.  The error
    is the second component's [false]. *)
Fixpoint markFailedAndReleaseLeases (ok : string → bool * bool) (ids : list string) (flipped : Z) (t : tables)
    : tables * Z * bool :=
  match ids with
  | [] => (t, flipped, true)
  | id :: ids =>
      if negb (ok id).1 then (t, flipped, false)
      else
        let '(t, n) := flip id t in
        let flipped := if n : bool then flipped + 1 else flipped in
        if negb (ok id).2 then (t, flipped, false)
        else markFailedAndReleaseLeases ok ids flipped (ReleaseLease id t)
  end.

Section registry.
Context (order : list string → list string).

Definition stale_ids (now : Z) (t : tables) : list string :=
  order (map_to_list (filter (λ x, l_expires x.2 ≤ now) (leases t))).*1.

Definition agent_ids (agent : string) (t : tables) : list string :=
  order (map_to_list (filter (λ x, l_agent x.2 = agent) (leases t))).*1.

Definition SweepStaleLeases (now : Z) (scan : bool) (ok : string → bool * bool) (t : tables) : tables * Z * bool :=
  if negb scan then (t, 0, false) else markFailedAndReleaseLeases ok (stale_ids now t) 0 t.

Definition zombies (agent : string) (live : list string) (t : tables) : list string :=
  filter (λ id, id ∉ live) (agent_ids agent t).

Definition SweepAgentZombies (agent : string) (live : list string) (scan : bool) (ok : string → bool * bool) (t : tables)
    : tables * Z * bool :=
  if String.eqb agent "" || negb scan then (t, 0, false)
  else markFailedAndReleaseLeases ok (zombies agent live t) 0 t.

(** ** leasesink.go: what an agent does with them *)

(** [SetLeaseSink]: the TTL that is kept. *)
Definition lease_ttl (ttl : Z) : Z := if ttl <=? 0 then 24 * 3600 * 10 ^ 9 else ttl.

(** What an agent sees on its own host: [m.drivers], and the directories
    vms/<id>/hibernation with a vm.state. *)
Record evidence := mkEv { ev_drivers : gset string; ev_states : gset string }.

(** [ListSandboxesForAgent] and the status filter. *)
Definition liveSandboxIDs (agent : string) (t : tables) : list string :=
  (map_to_list (filter (λ x, (s_agent x.2 = agent ∨ s_agent x.2 = "") ∧ x.1 ≠ "" ∧ live_status (s_status x.2) = true)
     (rows t))).*1.

Definition ReconcileLeasesOnStartup (agent : string) (list_ok scan : bool) (ok : string → bool * bool) (t : tables) : tables :=
  if String.eqb agent "" || negb list_ok then t
  else (SweepAgentZombies agent (liveSandboxIDs agent t) scan ok t).1.1.

(** The row of a sandbox is read before its renewal: the workspace, if its
    status is live. *)
Definition renew_read (id : string) (t : tables) : option string :=
  r ← rows t !! id; if live_status (s_status r) then Some (default "" (s_meta r !! "workspace")) else None.

(** One iteration of the renewal's loop; [ok]: whether its two statements are
    answered. *)
Definition renew_one (now : Z) (agent : string) (ttl : Z) (id : string) (ok : bool * bool) (t : tables) : tables * bool :=
  if negb ok.1 then (t, false)
  else match renew_read id t with
  | None => (t, false)
  | Some ws => if negb ok.2 then (t, false) else (AcquireLease now id agent ws ttl t, true)
  end.

Definition renew_ids (ev : evidence) : list string := order (elements (ev_drivers ev ∪ ev_states ev)).

Definition renewLocalLeases (now : Z) (agent : string) (ttl : Z) (ev : evidence) (ok : string → bool * bool) (t : tables) : tables :=
  if String.eqb agent "" then t
  else foldl (λ t id, (renew_one now agent ttl id (ok id) t).1) t (renew_ids ev).

(** A tick of [StartLeaseSweeper]. *)
Definition sweeper_tick (now : Z) (agent : string) (ttl : Z) (ev : evidence) (renew_ok : string → bool * bool)
    (scan : bool) (sweep_ok : string → bool * bool) (t : tables) : tables :=
  (SweepStaleLeases now scan sweep_ok (renewLocalLeases now agent ttl ev renew_ok t)).1.1.

(** ** The fleet: the statements of all agents, in any order *)

Record fleet := mkFleet {
  tabs : tables;
  hosts : gmap string evidence;
  marks : gmap string (list string);            (* the ids a sweeping agent has yet to mark *)
  todo : gmap string (list string);             (* the ids a renewing agent has yet to renew *)
  hand : gmap string (string * string);         (* the one whose row it has read, and the workspace *)
  listed : gmap string (list string);           (* the live ids a starting agent has read *)
}.

Inductive event :=
  | EAcquire (a id ws : string)              (* the goroutine of acquireLease, after a create *)
  | ERelease (id : string)                   (* the goroutine of releaseLease *)
  | EDrivers (a : string)                    (* a tick of the renewal copies the keys of m.drivers *)
  | EStates (a : string)                     (* and adds what it finds on the disk *)
  | ERead (a : string) (ok : bool)           (* the GetSandbox of its next id *)
  | EStamp (a : string) (ok : bool)          (* and its AcquireLease *)
  | EScan (a : string)                       (* the SELECT of SweepStaleLeases *)
  | EList (a : string)                       (* the SELECT of liveSandboxIDs at startup *)
  | EZombies (a : string)                    (* and that of SweepAgentZombies *)
  | EMark (a : string) (ok : bool * bool)    (* one iteration of markFailedAndReleaseLeases *)
  | EHost (a : string) (ev : evidence)       (* VMs start, hibernate and go *)
  | ERow (id : string) (r : option sb_row).  (* any other writer of a row *)

Context (ttl : string → Z).  (* the TTL each agent keeps *)

Definition host_of (a : string) (f : fleet) : evidence := default (mkEv ∅ ∅) (hosts f !! a).
Definition set_tabs (t : tables) (f : fleet) : fleet := mkFleet t (hosts f) (marks f) (todo f) (hand f) (listed f).
Definition set_marks (a : string) (ids : list string) (f : fleet) : fleet :=
  mkFleet (tabs f) (hosts f) (<[a := ids]> (marks f)) (todo f) (hand f) (listed f).
Definition set_todo (a : string) (ids : list string) (f : fleet) : fleet :=
  mkFleet (tabs f) (hosts f) (marks f) (<[a := ids]> (todo f)) (hand f) (listed f).
Definition set_hand (a : string) (h : option (string * string)) (f : fleet) : fleet :=
  mkFleet (tabs f) (hosts f) (marks f) (todo f) (partial_alter (λ _, h) a (hand f)) (listed f).
Definition set_listed (a : string) (l : list string) (f : fleet) : fleet :=
  mkFleet (tabs f) (hosts f) (marks f) (todo f) (hand f) (<[a := l]> (listed f)).

Definition step (now : Z) (e : event) (f : fleet) : fleet :=
  match e with
  | EAcquire a id ws => set_tabs (AcquireLease now id a ws (ttl a) (tabs f)) f
  | ERelease id => set_tabs (ReleaseLease id (tabs f)) f
  | EDrivers a => set_todo a (order (elements (ev_drivers (host_of a f)))) f
  | EStates a =>
      set_todo a (order (elements (list_to_set (default [] (todo f !! a)) ∪ ev_states (host_of a f)))) f
  | ERead a ok =>
      match todo f !! a with
      | Some (id :: ids) =>
          set_todo a ids (set_hand a (if ok then pair id <$> renew_read id (tabs f) else None) f)
      | _ => f
      end
  | EStamp a ok =>
      match hand f !! a with
      | Some (id, ws) =>
          set_hand a None (if ok then set_tabs (AcquireLease now id a ws (ttl a) (tabs f)) f else f)
      | None => f
      end
  | EScan a => set_marks a (stale_ids now (tabs f)) f
  | EList a => set_listed a (liveSandboxIDs a (tabs f)) f
  | EZombies a =>
      match listed f !! a with
      | Some live => set_marks a (zombies a live (tabs f)) f
      | None => f
      end
  | EMark a ok =>
      match marks f !! a with
      | Some (id :: ids) =>
          let '(t, _, go_on) := markFailedAndReleaseLeases (λ _, ok) [id] 0 (tabs f) in
          set_marks a (if go_on : bool then ids else []) (set_tabs t f)
      | _ => f
      end
  | EHost a ev => mkFleet (tabs f) (<[a := ev]> (hosts f)) (marks f) (todo f) (hand f) (listed f)
  | ERow id r => set_tabs (set_rows (partial_alter (λ _, r) id (rows (tabs f))) (tabs f)) f
  end.

Definition run (es : list (Z * event)) (f : fleet) : fleet := foldl (λ f e, step e.1 e.2 f) f es.
End registry.

(** ** The sweep, as one update *)

(** The row of a sandbox whose lease is swept. *)
Definition failed_row (r : sb_row) : sb_row := if live_status (s_status r) then with_status "failed" r else r.

(** The leases in [P] are gone and their rows failed; nothing else changes. *)
Definition swept (P : string → bool) (t : tables) : tables :=
  mkTables (filter (λ x, P x.1 = false) (leases t))
           (map_imap (λ id r, Some (if P id then failed_row r else r)) (rows t)).

Definition expired (now : Z) (t : tables) (id : string) : bool :=
  match leases t !! id with Some l => l_expires l <=? now | None => false end.

Lemma failed_row_idemp r : failed_row (failed_row r) = failed_row r.
Proof. unfold failed_row. destruct (live_status (s_status r)) eqn:E; simpl; [done|by rewrite E]. Qed.

Lemma tables_eq (t u : tables) :
  (∀ id, leases t !! id = leases u !! id) → (∀ id, rows t !! id = rows u !! id) → t = u.
Proof.
  intros Hl Hr. destruct t, u. simpl in *. f_equal; apply map_eq; assumption.
Qed.

Lemma swept_lease P t id : leases (swept P t) !! id = if P id then None else leases t !! id.
Proof.
  simpl. destruct (P id) eqn:E.
  - apply map_lookup_filter_None_2. right. intros l _. simpl. by rewrite E.
  - destruct (leases t !! id) as [l|] eqn:El.
    + by apply map_lookup_filter_Some_2.
    + apply map_lookup_filter_None_2. by left.
Qed.

Lemma swept_row P t id : rows (swept P t) !! id = (λ r, if P id then failed_row r else r) <$> rows t !! id.
Proof. simpl. rewrite map_lookup_imap. by destruct (rows t !! id). Qed.

Lemma flip_rows id t t' n :
  flip id t = (t', n) →
  leases t' = leases t ∧ rows t' = alter failed_row id (rows t) ∧
  n = match rows t !! id with Some r => live_status (s_status r) | None => false end.
Proof.
  unfold flip, failed_row. destruct (rows t !! id) as [r|] eqn:E.
  - destruct (live_status (s_status r)) eqn:El; intros [= <- <-].
    + split_and!; [done| |done]. simpl. apply map_eq. intros j. rewrite !lookup_alter.
      case_decide; [subst; rewrite E; simpl; by rewrite El | done].
    + split_and!; [done| |done]. apply map_eq. intros j. rewrite lookup_alter.
      case_decide; [subst; rewrite E; simpl; by rewrite El | done].
  - intros [= <- <-]. split_and!; [done| |done]. apply map_eq. intros j. rewrite lookup_alter.
    case_decide; [subst; by rewrite E | done].
Qed.

(** What a run of the loop that may have stopped early has done. *)
Definition partly (ids : list string) (t t' : tables) : Prop :=
  ∀ id,
    (leases t' !! id = leases t !! id ∨ id ∈ ids ∧ leases t' !! id = None ∧ rows t' !! id = failed_row <$> rows t !! id) ∧
    (rows t' !! id = rows t !! id ∨ id ∈ ids ∧ rows t' !! id = failed_row <$> rows t !! id).

Lemma partly_refl ids t : partly ids t t.
Proof. intros id. auto. Qed.

Lemma failed_row_fmap (o : option sb_row) : failed_row <$> (failed_row <$> o) = failed_row <$> o.
Proof. destruct o; simpl; [by rewrite failed_row_idemp|done]. Qed.

Lemma partly_trans ids t t' t'' : partly ids t t' → partly ids t' t'' → partly ids t t''.
Proof.
  intros H1 H2 id. destruct (H1 id) as [L1 R1], (H2 id) as [L2 R2].
  assert (Hr : rows t'' !! id = rows t !! id ∨ id ∈ ids ∧ rows t'' !! id = failed_row <$> rows t !! id).
  { destruct R1 as [R1|[? R1]], R2 as [R2|[? R2]]; rewrite R2, R1; auto.
    right. split; [done|]. apply failed_row_fmap. }
  split; [|done]. destruct L2 as [L2|(? & L2 & L2r)].
  - rewrite L2. destruct L1 as [L1|(? & L1 & L1r)]; [by left|right]. split_and!; [done..|].
    destruct R2 as [R2|[_ R2]]; rewrite R2, L1r; [done|apply failed_row_fmap].
  - right. split_and!; [done..|]. rewrite L2r. destruct R1 as [R1|[_ R1]]; rewrite R1; [done|apply failed_row_fmap].
Qed.

Lemma partly_mono ids ids' t t' : ids ⊆ ids' → partly ids t t' → partly ids' t t'.
Proof. intros Hs H id. destruct (H id) as [L R]. split; [destruct L as [|(?&?&?)]|destruct R as [|[??]]]; eauto. Qed.

Lemma alter_row id j (m : gmap string sb_row) :
  alter failed_row id m !! j = if decide (id = j) then failed_row <$> m !! j else m !! j.
Proof. rewrite lookup_alter. by case_decide; subst. Qed.

Lemma mark_partly ok ids k t : partly ids t (markFailedAndReleaseLeases ok ids k t).1.1.
Proof.
  revert k t. induction ids as [|id ids IH]; intros k t; [apply partly_refl|]. cbn [markFailedAndReleaseLeases].
  destruct (ok id).1; simpl; [|apply partly_refl].
  destruct (flip id t) as [t1 n] eqn:Ef. destruct (flip_rows _ _ _ _ Ef) as (El & Er & _).
  assert (H1 : partly (id :: ids) t t1).
  { intros j. rewrite El, Er, alter_row. split; [by left|]. case_decide; [right; subst; split; [apply list_elem_of_here|done] | by left]. }
  destruct (ok id).2; simpl; [|done].
  eapply partly_trans; [exact H1|].
  eapply (partly_trans _ _ (ReleaseLease id t1)).
  - intros j. simpl. split; [|by left]. rewrite lookup_delete. case_decide; [|by left].
    subst. right. split_and!; [apply list_elem_of_here|done|]. rewrite Er, alter_row, decide_True by done. symmetry. apply failed_row_fmap.
  - eapply partly_mono; [|apply IH]. intros x. apply list_elem_of_further.
Qed.

Definition is_live (t : tables) (id : string) : Prop := ∃ r, rows t !! id = Some r ∧ live_status (s_status r) = true.
#[export] Instance is_live_dec t id : Decision (is_live t id).
Proof.
  unfold is_live. destruct (rows t !! id) as [r|].
  - destruct (live_status (s_status r)) eqn:E; [left; eauto | right; intros (x & [= <-] & ?); congruence].
  - right. by intros (x & ? & _).
Defined.

Lemma mark_all ok ids k t t' n :
  NoDup ids → markFailedAndReleaseLeases ok ids k t = (t', n, true) →
  t' = swept (λ id, bool_decide (id ∈ ids)) t ∧ n = k + Z.of_nat (length (filter (is_live t) ids)).
Proof.
  revert k t. induction ids as [|id ids IH]; intros k t Hnd H.
  { injection H as <- <-. split; [|simpl; lia]. apply tables_eq; intros j.
    - rewrite swept_lease. by rewrite bool_decide_false by apply not_elem_of_nil.
    - rewrite swept_row, bool_decide_false by apply not_elem_of_nil. by destruct (rows t !! j). }
  apply NoDup_cons in Hnd as [Hn Hnd]. cbn [markFailedAndReleaseLeases] in H.
  destruct (ok id).1; [|done]. simpl in H.
  destruct (flip id t) as [t1 m] eqn:Ef. destruct (flip_rows _ _ _ _ Ef) as (El & Er & Em).
  destruct (ok id).2; [|done]. simpl in H. destruct (IH _ _ Hnd H) as [-> ->]. split.
  - apply tables_eq; intros j.
    + rewrite !swept_lease. simpl. rewrite El, lookup_delete. case_decide; subst.
      * rewrite (bool_decide_true (j ∈ j :: ids)) by apply list_elem_of_here. by case_bool_decide.
      * rewrite (bool_decide_ext (j ∈ id :: ids) (j ∈ ids)); [done|]. rewrite elem_of_cons. naive_solver.
    + rewrite !swept_row. simpl. rewrite Er, alter_row. case_decide; subst.
      * rewrite bool_decide_false by done. rewrite (bool_decide_true (j ∈ j :: ids)) by apply list_elem_of_here.
        by destruct (rows t !! j).
      * rewrite (bool_decide_ext (j ∈ id :: ids) (j ∈ ids)); [done|]. rewrite elem_of_cons. naive_solver.
  - assert (Hf : filter (is_live (ReleaseLease id t1)) ids = filter (is_live t) ids).
    { apply filter_ext_in. intros j Hj. unfold is_live. simpl. rewrite Er, alter_row.
      rewrite decide_False; [done|]. congruence. }
    rewrite Hf. rewrite filter_cons. case_decide as Hl.
    + destruct Hl as (r & E & L). rewrite E, L in Em. subst m. simpl. lia.
    + assert (m = false) as ->.
      { rewrite Em. destruct (rows t !! id) as [r|] eqn:E; [|done].
        destruct (live_status (s_status r)) eqn:L; [|done]. exfalso. apply Hl. by exists r. }
      done.
Qed.

Section sweep.
Context (order : list string → list string).
Hypothesis Horder : ∀ l, order l ≡ₚ l.

Lemma selected_spec (P : string * lease_row → Prop) `{!∀ x, Decision (P x)} (m : gmap string lease_row) id :
  id ∈ order (map_to_list (filter P m)).*1 ↔ ∃ l, m !! id = Some l ∧ P (id, l).
Proof.
  rewrite Horder, list_elem_of_fmap. split.
  - intros ([j l] & -> & Hin%elem_of_map_to_list). apply map_lookup_filter_Some in Hin. eauto.
  - intros (l & Hl & HP). exists (id, l). split; [done|]. apply elem_of_map_to_list. by apply map_lookup_filter_Some.
Qed.

Lemma selected_nodup (P : string * lease_row → Prop) `{!∀ x, Decision (P x)} (m : gmap string lease_row) :
  NoDup (order (map_to_list (filter P m)).*1).
Proof. rewrite Horder. apply NoDup_fst_map_to_list. Qed.

Lemma stale_ids_spec now t id : id ∈ stale_ids order now t ↔ expired now t id = true.
Proof.
  unfold stale_ids, expired. rewrite selected_spec. destruct (leases t !! id) as [l|].
  - rewrite Z.leb_le. naive_solver.
  - naive_solver.
Qed.

Lemma swept_ext P Q t : (∀ id, P id = Q id) → swept P t = swept Q t.
Proof. intros H. apply tables_eq; intros id; [rewrite !swept_lease | rewrite !swept_row]; by rewrite H. Qed.

(** After a sweep that stopped early, the sweep done again ends where the first
    would have. *)
Lemma partly_swept now t t' :
  partly (stale_ids order now t) t t' → swept (expired now t') t' = swept (expired now t) t.
Proof.
  intros H. apply tables_eq; intros id; destruct (H id) as [L R].
  - rewrite !swept_lease. unfold expired. destruct L as [L|(Hin & L & _)]; rewrite L; [done|].
    apply stale_ids_spec in Hin. unfold expired in Hin. by rewrite Hin.
  - rewrite !swept_row. destruct L as [L|(Hin & L & Lr)].
    + unfold expired. rewrite L. destruct R as [R|[Hin R]]; rewrite R; [done|].
      apply stale_ids_spec in Hin. unfold expired in Hin. rewrite Hin. apply failed_row_fmap.
    + rewrite Lr. unfold expired at 1. rewrite L. apply stale_ids_spec in Hin. rewrite Hin.
      by destruct (rows t !! id).
Qed.

(** Sweeping the stale leases, in whatever order the database returns them,
    is one update of the tables: the leases expired at that time are gone, the
    rows of their sandboxes that were running, paused or hibernated are failed,
    everything else is as before, and the count is the number of rows flipped.
    A sweep that stops at a failing statement can be run again: with every
    statement answered it then ends exactly where the first would have. *)
Theorem stale_sweep_is_one_update now scan ok t t' n b :
  SweepStaleLeases order now scan ok t = (t', n, b) →
  (b = true →
     t' = swept (expired now t) t ∧
     n = Z.of_nat (length (filter (is_live t) (stale_ids order now t)))) ∧
  (∀ u m ok', SweepStaleLeases order now true ok' t' = (u, m, true) → u = swept (expired now t) t).
Proof.
  assert (Hall : ∀ ok t t' k n, markFailedAndReleaseLeases ok (stale_ids order now t) k t = (t', n, true) →
    t' = swept (expired now t) t ∧ n = k + Z.of_nat (length (filter (is_live t) (stale_ids order now t)))).
  { clear -Horder. intros ok t t' k n H. apply mark_all in H as [-> ->]; [|apply selected_nodup].
    split; [|done]. apply swept_ext. intros id. pose proof (stale_ids_spec now t id) as Hs.
    case_bool_decide; destruct (expired now t id); naive_solver. }
  intros H. unfold SweepStaleLeases in H. split.
  - intros ->. destruct scan; [|done]. by apply Hall in H as [-> ->].
  - intros u m ok' Hu. unfold SweepStaleLeases in Hu. simpl in Hu. apply Hall in Hu as [-> _].
    apply partly_swept. destruct scan; simpl in H.
    + pose proof (mark_partly ok (stale_ids order now t) 0 t) as Hp. by rewrite H in Hp.
    + injection H as <- _ _. apply partly_refl.
Qed.
End sweep.

(** ** One owner: the lease stays with the host that has the sandbox *)

Section owner.
Context (order : list string → list string) (ttl : string → Z) (x a0 : string).










Hypothesis Horder : ∀ l, order l ≡ₚ l.







End owner.


Definition w_s : Z := 10 ^ 9.
Definition w_ttl (a : string) : Z := 100 * w_s.
Definition w_row (agent st : string) : sb_row := mkSbRow st agent "postgres-16" {["workspace" := "ws"]}.
Definition w_fleet (hs : gmap string evidence) : fleet :=
  mkFleet (mkTables {["db" := mkLeaseRow "b" "ws" (50 * w_s)]} {["db" := w_row "b" "running"]}) hs ∅ ∅ ∅ ∅.
Definition w_hosts : gmap string evidence := {["b" := mkEv {["db"]} ∅]}.

(** A tick of the renewal of [a], from [t] on. *)
Definition w_renew (t : Z) (a : string) : list (Z * event) :=
  [(t * w_s, EDrivers a); (t * w_s, EStates a); (t * w_s, ERead a true); (t * w_s, EStamp a true)].



(** ** What the code allows *)

(** A host that hibernated the VM before it moved keeps vms/<id>/hibernation;
    its next tick takes the lease over, although the row is another agent's. *)
Lemma drained_host_takes_the_lease :
  let f := w_fleet (<["a" := mkEv ∅ {["db"]}]> w_hosts) in
  LookupLease (20 * w_s) "db" (tabs f) = Some "b" ∧
  LookupLease (20 * w_s) "db" (tabs (run id w_ttl (w_renew 20 "a") f)) = Some "a" ∧
  s_agent <$> rows (tabs f) !! "db" = Some "b".
Proof. vm_compute. done. Qed.

(** A lease that is stale at the SELECT and renewed before the UPDATE: the row
    of a running VM is failed and its fresh lease deleted. *)
Lemma sweep_fails_a_renewed_sandbox :
  let f := run id w_ttl ((50 * w_s, EScan "a") :: w_renew 51 "b" ++ [(52 * w_s, EMark "a" (true, true))])
             (w_fleet w_hosts) in
  s_status <$> rows (tabs f) !! "db" = Some "failed" ∧ LookupLease (53 * w_s) "db" (tabs f) = None ∧
  "db" ∈ ev_drivers (host_of "b" f).
Proof. vm_compute. done. Qed.

(** A tick that began while the host still had a trace of the VM stamps its
    lease after the VM has moved. *)
Lemma old_tick_takes_the_lease :
  let f := w_fleet {["a" := mkEv {["db"]} ∅]} in
  let f' := run id w_ttl ([(20 * w_s, EDrivers "a"); (20 * w_s, EStates "a"); (21 * w_s, EHost "a" (mkEv ∅ ∅));
                           (21 * w_s, EHost "b" (mkEv {["db"]} ∅))] ++ [(22 * w_s, ERead "a" true); (22 * w_s, EStamp "a" true)]) f in
  LookupLease (23 * w_s) "db" (tabs f') = Some "a" ∧ s_agent <$> rows (tabs f') !! "db" = Some "b".
Proof. vm_compute. done. Qed.

(** acquireLease and releaseLease are goroutines of their own: the release of a
    teardown that is followed by a create can land last. *)
Lemma late_release_unroutes :
  let f := run id w_ttl [(20 * w_s, EAcquire "b" "db" "ws"); (21 * w_s, ERelease "db")] (w_fleet w_hosts) in
  LookupLease (22 * w_s) "db" (tabs f) = None ∧ s_status <$> rows (tabs f) !! "db" = Some "running".
Proof. vm_compute. done. Qed.

(** ** A sweep that stops and is run again *)

Definition w_tables : tables :=
  mkTables {["d1" := mkLeaseRow "a" "ws" 10; "d2" := mkLeaseRow "b" "ws" 20; "d3" := mkLeaseRow "b" "ws" 90]}
           {["d1" := w_row "a" "running"; "d2" := w_row "b" "creating"; "d3" := w_row "b" "paused"]}.
Definition w_stops (id : string) : bool * bool := (true, negb (String.eqb id "d2")).

Lemma stale_sweep_is_one_update_witness :
  ∃ t n, SweepStaleLeases id 50 true w_stops w_tables = (t, n, false) ∧
  (SweepStaleLeases id 50 true (λ _, (true, true)) t).1.1 = swept (expired 50 w_tables) w_tables.
Proof.
  destruct (SweepStaleLeases id 50 true w_stops w_tables) as [[t n] b] eqn:E.
  assert (Hb : b = false) by (vm_compute in E; by injection E).
  exists t, n. rewrite Hb. split; [done|].
  destruct (stale_sweep_is_one_update id (λ l, reflexivity l) 50 true w_stops w_tables t n b E) as [_ H].
  destruct (SweepStaleLeases id 50 true (λ _, (true, true)) t) as [[u m] c] eqn:Eu.
  assert (Hc : c = true).
  { vm_compute in E. injection E as <- _ _. vm_compute in Eu. by injection Eu. }
  rewrite Hc in Eu. exact (H u m (λ _, (true, true)) Eu).
Defined.
