(* ===== verification/Failover.v ===== *)
(** Failover of a managed database, api/cmd/api/databases_failover.go, with the
    agent's RestoreDatabase (agent/internal/sandbox/db_restore.go, the failover
    path) it calls: the preflights, the background pipeline of every API
    replica, the drain of the old host and the restore on the new one, with the
    archive generations of DbFencing and the leases and rows of Leases.

    Everything concerns one database id.  A VM is known by the archive
    generation its row carried when it was started, and a volume by its history:
    the generations of the VMs that have written it.  What an upload is stamped
    with is another matter: the relay of the host (wal_relay.go) reads the row at
    its first look, stores what it read, and forgets it when the agent ends or a
    restore invalidates it.  Times are nanoseconds. *)

From stdpp Require Import pretty.
From S2P Require Import Prelude GoStrings.
From S2P Require Leases Scheduler DbFencing WalRelay.

Open Scope string_scope.
Open Scope list_scope.
Open Scope Z_scope.
#[local] Set Warnings "-clear-no-such-hyp".

Abbreviation Agent := Scheduler.Agent (only parsing).
Abbreviation metadata := (gmap string string) (only parsing).

(** ** The preflights *)

Definition dbTemplate : string := "postgres-16".
Definition isDBTemplate (t : string) : bool := String.eqb t dbTemplate.

Definition heartbeat_window : Z := 30 * 10 ^ 9.

Definition agentHealthy (now : Z) (a : option Agent) : bool :=
  match a with
  | None => false
  | Some a => String.eqb (Scheduler.Status a) "active" && negb (String.eqb (Scheduler.Endpoint a) "") &&
              (now - Scheduler.LastHeartbeat a <=? heartbeat_window)
  end.

Definition same_agent (current : option Agent) (a : Agent) : bool :=
  match current with Some c => String.eqb (Scheduler.ID a) (Scheduler.ID c) | None => false end.

(** One iteration of the loop. *)
Definition consider (now : Z) (current : option Agent) (target : option Agent) (a : Agent) : option Agent :=
  if negb (String.eqb (Scheduler.Status a) "active") || String.eqb (Scheduler.Endpoint a) "" then target
  else if heartbeat_window <? now - Scheduler.LastHeartbeat a then target
  else if same_agent current a then target
  else match target with
  | None => Some a
  | Some b => if Scheduler.LastHeartbeat b <? Scheduler.LastHeartbeat a then Some a else target
  end.

(** [agents]: the answer of the scheduler's List. *)
Definition pickFailoverTarget (now : Z) (agents : option (list Agent)) (current : option Agent) : option Agent :=
  match agents with None => None | Some l => foldl (consider now current) None l end.

(** [row]: the answer of the query ([None]: it failed; [Some None]: no row). *)
Definition sandboxStatus (row : option (option Leases.sb_row)) : string :=
  match row with Some (Some r) => Leases.s_status r | _ => "" end.

Definition workspace_of (meta : metadata) : string := default "" (meta !! "workspace").

(** The error is the response's status code. *)
Definition failoverAuthorize (row : option (option Leases.sb_row)) (workspace : string) : res Z (metadata * string) :=
  match row with
  | None => Err 500
  | Some None => Err 404
  | Some (Some r) =>
      if negb (isDBTemplate (Leases.s_template r)) then Err 404
      else
        let meta := Leases.s_meta r in
        if negb (String.eqb workspace "admin") && negb (String.eqb workspace "default") &&
           negb (String.eqb (workspace_of meta) workspace)
        then Err 404
        else Ok (if String.eqb (workspace_of meta) "" then <["workspace" := workspace]> meta else meta,
                 Leases.s_template r)
  end.

Inductive gsutil_ls := LsFound | LsEmpty | LsFailed | LsTimedOut.

(** [bucket]: PANDASTACK_SNAPSHOT_BUCKET is set. *)
Definition dbArchiveExists (bucket : bool) (ls : gsutil_ls) : bool * string :=
  if negb bucket then (false, "GCS archive not configured")
  else match ls with
  | LsFound => (true, "")
  | LsTimedOut => (false, "archive check timed out")
  | LsEmpty | LsFailed => (false, "no archive available for restore")
  end.

(** What a POST is answered from. *)
Record post_env := mkPost {
  pe_workspace : string;
  pe_force : bool;
  pe_multinode : bool;                             (* a director and a database *)
  pe_row : option (option Leases.sb_row);          (* the query of failoverAuthorize *)
  pe_status : option (option Leases.sb_row);       (* the later query of sandboxStatus *)
  pe_lease : option (option Agent);                (* LookupLease *)
  pe_agents : option (list Agent);                 (* List *)
  pe_archive : bool * gsutil_ls;
}.

(** What the background half is started with. *)
Record accepted := mkAccepted { ac_template : string; ac_meta : metadata; ac_current : option Agent; ac_target : Agent }.

(** The handler up to the in-flight guard. *)
Definition failover (now : Z) (e : post_env) : res Z accepted :=
  if String.eqb (pe_workspace e) "" then Err 401
  else if negb (pe_multinode e) then Err 501
  else match failoverAuthorize (pe_row e) (pe_workspace e) with
  | Err code => Err code
  | Ok (meta, template) =>
      if negb (pe_force e) && negb (String.eqb (sandboxStatus (pe_status e)) "failed") then Err 409
      else
        let current := match pe_lease e with Some c => c | None => None end in
        match pickFailoverTarget now (pe_agents e) current with
        | None => Err 503
        | Some target =>
            if negb (dbArchiveExists (pe_archive e).1 (pe_archive e).2).1 then Err 412
            else Ok (mkAccepted template meta current target)
        end
  end.

(** The fields a GET of a failed database shows (checkFailoverAvailability):
    whether failover is offered; [single]: no director. *)
Definition checkFailoverAvailability (now : Z) (single : bool) (agents : option (list Agent)) (archive : bool * gsutil_ls) : bool :=
  if single then false
  else match agents with
  | None => false
  | Some l =>
      let healthy := filter (λ a, Scheduler.Status a = "active" ∧ now - Scheduler.LastHeartbeat a ≤ heartbeat_window) l in
      if (length healthy =? 0)%nat then false else (dbArchiveExists archive.1 archive.2).1
  end.

(** ** The state a failover works on *)

(** A host's view of the database: its VM, the snapshot under
    vms/<id>/hibernation, the volume, and whether RestoreDatabase holds the
    lifecycle lock. *)
Record host := mkHost { h_vm : option Z; h_snap : option Z; h_vol : option (list Z); h_locked : bool }.

Inductive pc := PGuard | PBump | PLease | PDrain | PRestore | PCreate | PRemember | PRelease.
#[export] Instance pc_eq_dec : EqDecision pc.
Proof. solve_decision. Defined.

(** A pipeline: the API replica that runs it ([None] once that was killed while
    the agent worked on), what it was accepted with, its generation. *)
Record pipe := mkPipe { p_edge : option string; p_ac : accepted; p_gen : Z; p_pc : pc }.

(** A host's relay: the generation it has pinned (its genCache), and those its
    look-ups have read, any of which may be stored at a later time. *)
Record relay := mkRelay { r_pin : option Z; r_reads : gset Z }.
(** A base backup in the bucket; the name of the object says its generation, not
    its host. *)
Record upload := mkUpload { u_gen : Z; u_host : string; u_hist : list Z }.

Record world := mkWorld {
  w_tabs : Leases.tables;
  w_gens : gmap string DbFencing.gen_row;
  w_leases : list DbFencing.lease;
  w_hosts : gmap string host;
  w_scheds : gmap string Scheduler.Scheduler;     (* each replica's lease cache *)
  w_inflight : gset string;                        (* the replicas whose failoverInFlight holds the id *)
  w_pipes : gmap nat pipe;
  w_archive : list upload;
  w_relays : gmap string relay;
}.

Definition set_tabs t w := mkWorld t (w_gens w) (w_leases w) (w_hosts w) (w_scheds w) (w_inflight w) (w_pipes w) (w_archive w) (w_relays w).
Definition set_gens g w := mkWorld (w_tabs w) g (w_leases w) (w_hosts w) (w_scheds w) (w_inflight w) (w_pipes w) (w_archive w) (w_relays w).
Definition set_leases l w := mkWorld (w_tabs w) (w_gens w) l (w_hosts w) (w_scheds w) (w_inflight w) (w_pipes w) (w_archive w) (w_relays w).
Definition set_hosts h w := mkWorld (w_tabs w) (w_gens w) (w_leases w) h (w_scheds w) (w_inflight w) (w_pipes w) (w_archive w) (w_relays w).
Definition set_scheds s w := mkWorld (w_tabs w) (w_gens w) (w_leases w) (w_hosts w) s (w_inflight w) (w_pipes w) (w_archive w) (w_relays w).
Definition set_inflight i w := mkWorld (w_tabs w) (w_gens w) (w_leases w) (w_hosts w) (w_scheds w) i (w_pipes w) (w_archive w) (w_relays w).
Definition set_pipes p w := mkWorld (w_tabs w) (w_gens w) (w_leases w) (w_hosts w) (w_scheds w) (w_inflight w) p (w_archive w) (w_relays w).
Definition set_archive a w := mkWorld (w_tabs w) (w_gens w) (w_leases w) (w_hosts w) (w_scheds w) (w_inflight w) (w_pipes w) a (w_relays w).
Definition set_relays r w := mkWorld (w_tabs w) (w_gens w) (w_leases w) (w_hosts w) (w_scheds w) (w_inflight w) (w_pipes w) (w_archive w) r.

Definition no_host : host := mkHost None None None false.
Definition host_at (a : string) (w : world) : host := default no_host (w_hosts w !! a).
Definition put_host (a : string) (h : host) (w : world) : world := set_hosts (<[a := h]> (w_hosts w)) w.
Definition with_vm v (h : host) := mkHost v (h_snap h) (h_vol h) (h_locked h).
Definition with_vol v (h : host) := mkHost (h_vm h) (h_snap h) v (h_locked h).
Definition with_lock b (h : host) := mkHost (h_vm h) (h_snap h) (h_vol h) b.

(** The generation of a row: what a VM started on it should stamp. *)
Definition row_gen (r : option Leases.sb_row) : Z :=
  (ParseInt (WalRelay.gen_of_row (r ≫= λ r, Leases.s_meta r !! "db.archive_gen"))).1.

(** archiveGenFor: what a look-up reads, [ok] that the row's query is answered; *)
Definition look (ok : bool) (r : option Leases.sb_row) : Z := if ok then row_gen r else 1.
Definition relay_at (a : string) (w : world) : relay := default (mkRelay None ∅) (w_relays w !! a).
Definition put_relay (a : string) (r : relay) (w : world) : world := set_relays (<[a := r]> (w_relays w)) w.
(** and that it is stored. *)
Definition pin (a : string) (g : Z) (w : world) : world := put_relay a (mkRelay (Some g) (r_reads (relay_at a w))) w.
Definition InvalidateGen (a : string) (w : world) : world := put_relay a (mkRelay None (r_reads (relay_at a w))) w.

(** A VM of generation [g] starts on the host and writes its volume. *)
Definition boot (g : Z) (v : list Z) (h : host) : host := mkHost (Some g) (h_snap h) (Some (v ++ [g])) (h_locked h).

(** The base a restore starts from: the highest generation, the newest of it
    (DbArchive.restore_picks_best). *)
Definition best_base (archive : list upload) : option (list Z) :=
  u_hist <$> foldr (λ x best, match best with Some b => if u_gen b <=? u_gen x then Some x else best | None => Some x end) None archive.

Section failover.
Context (id : string).

Definition row (w : world) : option Leases.sb_row := Leases.rows (w_tabs w) !! id.
Definition put_row (r : option Leases.sb_row) (w : world) : world :=
  set_tabs (Leases.set_rows (partial_alter (λ _, r) id (Leases.rows (w_tabs w))) (w_tabs w)) w.

(** ** The agent: RestoreDatabase on the failover path *)

Record restore_env := mkRestore {
  re_uuid : bool;     (* the id parses *)
  re_read : bool;     (* GetSandbox is answered *)
  re_build : bool;    (* buildDBVolumeFromSource succeeds *)
}.

Definition pgManagedTemplate : string := "postgres-16".
Definition isPGManagedTemplate (t : string) : bool := String.eqb t pgManagedTemplate.

(** The identity the caller left out. *)
Definition backfill (r : option Leases.sb_row) (template : string) (meta : metadata) : string * metadata :=
  match r with
  | None => (template, meta)
  | Some r =>
      (if String.eqb template "" && isPGManagedTemplate (Leases.s_template r) then Leases.s_template r else template,
       let ws := workspace_of (Leases.s_meta r) in
       if String.eqb (workspace_of meta) "" && negb (String.eqb ws "") then <["workspace" := ws]> meta else meta)
  end.

(** Up to the volume; nothing outside the host has changed when it fails. *)
Definition restore_prepare (e : restore_env) (template : string) (meta : metadata) (a : string) (w : world)
    : option (string * metadata * list Z) :=
  if negb (re_uuid e) then None
  else match h_vm (host_at a w) with
  | Some _ => None
  | None =>
      let '(template, meta) := backfill (if re_read e then row w else None) template meta in
      let template := if String.eqb template "" then pgManagedTemplate else template in
      if negb (isPGManagedTemplate template) then None
      else
        let meta := delete "db.recover_from" (delete "db.recovery_target_time" meta) in
        match h_vol (host_at a w) with
        | Some v => Some (template, meta, v)
        | None => if re_build e then v ← best_base (w_archive w); Some (template, meta, v) else None
        end
  end.

(** How Create ends: it fails, or the VM runs; the row is then inserted by a
    goroutine whose error is dropped. *)
Inductive create_out := CreateFails | Boots (inserted : bool).

Record swap_env := mkSwap {
  sw_delete : bool;        (* DeleteSandbox of the stale row *)
  sw_create : create_out;
  sw_insert : bool;        (* the insertion of the failed row; it uses the request's context *)
  sw_lease : bool;         (* the lease's goroutine *)
}.

(** A plain INSERT: a row of that id is a conflict. *)
Definition insert_row (ok : bool) (r : Leases.sb_row) (w : world) : world :=
  match row w with Some _ => w | None => if ok then put_row (Some r) w else w end.

(** From the deletion of the stale row on. *)
Definition restore_swap (now : Z) (e : swap_env) (template : string) (meta : metadata) (v : list Z) (a : string) (w : world)
    : world * bool :=
  let w := if sw_delete e then put_row None w else w in
  let w := InvalidateGen a w in
  match sw_create e with
  | Boots inserted =>
      let w := insert_row inserted (Leases.mkSbRow "running" a template meta) w in
      let w := put_host a (boot (row_gen (row w)) v (host_at a w)) w in
      (if sw_lease e then set_tabs (Leases.AcquireLease now id a (workspace_of meta) (24 * 3600 * 10 ^ 9) (w_tabs w)) w else w, true)
  | CreateFails =>
      let w := put_row None w in
      (insert_row (sw_insert e) (Leases.mkSbRow "failed" a template meta) w, false)
  end.

(** ** The API: one step of a pipeline *)

Definition leave (k : nat) (w : world) : world :=
  match w_pipes w !! k with
  | Some p =>
      set_inflight (match p_edge p with Some e => w_inflight w ∖ {[e]} | None => w_inflight w end)
        (set_pipes (delete k (w_pipes w)) w)
  | None => w
  end.

Definition goto (k : nat) (p : pipe) (c : pc) (w : world) : world :=
  set_pipes (<[k := mkPipe (p_edge p) (p_ac p) (p_gen p) c]> (w_pipes w)) w.

Definition holder (ac : accepted) : string := "failover:" +:+ Scheduler.ID (ac_target ac).

(** The answers of the calls of a step. *)
Record answers := mkAns {
  an_bump : list (option DbFencing.db_outcome);
  an_ok : bool;                                    (* the lease's statement; the drain's hibernate is carried out *)
  an_restore : restore_env;
  an_swap : swap_env;
}.

(** The hibernate of the drain: refused without a VM, waits behind the lock. *)
Definition drain (carried_out : bool) (current : option Agent) (w : world) : world :=
  match current with
  | None => w
  | Some c =>
      let a := Scheduler.ID c in
      let h := host_at a w in
      match h_vm h with
      | Some g =>
          if carried_out && negb (h_locked h) then
            set_tabs (Leases.SetStatus id "hibernated" (w_tabs w)) (put_host a (mkHost None (Some g) (h_vol h) false) w)
          else w
      | None => w
      end
  end.

Definition pipe_step (now : Z) (k : nat) (an : answers) (w : world) : world :=
  match w_pipes w !! k with
  | None => w
  | Some p =>
      let ac := p_ac p in
      let a := Scheduler.ID (ac_target ac) in
      match p_pc p with
      | PGuard =>
          match p_edge p with
          | Some e =>
              if bool_decide (e ∈ w_inflight w) then set_pipes (delete k (w_pipes w)) w
              else set_inflight ({[e]} ∪ w_inflight w) (goto k p PBump w)
          | None => w
          end
      | PBump =>
          let '(gens, g) := DbFencing.bumpArchiveGenerationRetry true (an_bump an) id (holder ac) (w_gens w) in
          let w := set_gens gens w in
          match g with
          | None => leave k w
          | Some g =>
              let ac := mkAccepted (ac_template ac) (<["db.archive_gen" := pretty g]> (ac_meta ac)) (ac_current ac) (ac_target ac) in
              set_pipes (<[k := mkPipe (p_edge p) ac g PLease]> (w_pipes w)) w
          end
      | PLease =>
          goto k p PDrain
            (if an_ok an then set_leases (DbFencing.acquireArchiveLease (now / 10 ^ 9) id (holder ac) "failover" 2700 (w_leases w)) w else w)
      | PDrain => goto k p PRestore (drain (an_ok an) (ac_current ac) w)
      | PRestore =>
          if h_locked (host_at a w) then w
          else match restore_prepare (an_restore an) (ac_template ac) (ac_meta ac) a w with
          | None => goto k p PRelease w
          | Some (template, meta, v) =>
              set_pipes (<[k := mkPipe (p_edge p) (mkAccepted template meta (ac_current ac) (ac_target ac)) (p_gen p) PCreate]> (w_pipes w))
                (put_host a (mkHost None (h_snap (host_at a w)) (Some v) true) w)
          end
      | PCreate =>
          let v := default [] (h_vol (host_at a w)) in
          let '(w, booted) := restore_swap now (an_swap an) (ac_template ac) (ac_meta ac) v a w in
          let w := put_host a (with_lock false (host_at a w)) w in
          match p_edge p with
          | None => set_pipes (delete k (w_pipes w)) w
          | Some _ => goto k p (if booted && an_ok an then PRemember else PRelease) w
          end
      | PRemember =>
          goto k p PRelease
            match p_edge p with
            | Some e => set_scheds (alter (Scheduler.RememberLeasePersistent now id (ac_target ac)) e (w_scheds w)) w
            | None => w
            end
      | PRelease =>
          leave k (set_leases (DbFencing.releaseArchiveLease id (holder ac) (w_leases w)) w)
      end
  end.

(** ** Everything that happens around it *)

(** What a POST meets: which queries are answered, the list of agents, the
    agents table, the archive's listing. *)
Record post_obs := mkObs {
  ob_workspace : string; ob_force : bool; ob_multinode : bool;
  ob_row : bool; ob_status : bool; ob_lease : bool;
  ob_agents : option (list Agent); ob_table : list Agent;
  ob_archive : bool * gsutil_ls;
}.

(** The scheduler's LookupLease: the replica's cache, then the lease joined with
    the agents. *)
Definition lookup_owner (now : Z) (e : string) (o : post_obs) (w : world) : option (option Agent) :=
  let answer : res unit (option Agent) :=
    if ob_lease o then
      Ok (match Leases.LookupLease now id (w_tabs w) with
          | Some a => List.find (λ x, String.eqb (Scheduler.ID x) a) (ob_table o)
          | None => None
          end)
    else Err tt in
  match Scheduler.LookupLease now answer id (default (Scheduler.New 0) (w_scheds w !! e)) with
  | Ok c => Some c
  | Err _ => None
  end.

Definition observe (now : Z) (e : string) (o : post_obs) (w : world) : post_env :=
  mkPost (ob_workspace o) (ob_force o) (ob_multinode o)
    (if ob_row o then Some (row w) else None) (if ob_status o then Some (row w) else None)
    (lookup_owner now e o w) (ob_agents o) (ob_archive o).

Inductive event :=
  | Post (e : string) (o : post_obs)         (* a request reaches a replica and passes or fails the preflights *)
  | Step (k : nat) (an : answers)            (* a pipeline's next call *)
  | Kill (e : string)                        (* a replica is killed *)
  | VMDies (a : string) (monitored : bool)   (* with its agent's crash teardown, or with the agent or the whole host *)
  | Connect (a : string)                     (* a request the host answers with EnsureRunning *)
  | Renew (a : string) (ok : bool * bool)    (* an iteration of the host's lease renewal *)
  | Status (st : string)                     (* any other writer of the status *)
  | Look (a : string) (ok : bool)            (* archiveGenFor, of the uploaders of a VM, reads the row *)
  | Pin (a : string) (g : Z)                 (* and stores what it read *)
  | Upload (a : string)                      (* the relay uploads a base backup of the host's VM *)
  | DiskLost (a : string).

Definition step (now : Z) (ev : event) (w : world) : world :=
  match ev with
  | Post e o =>
      match failover now (observe now e o w) with
      | Ok ac => set_pipes (<[fresh (dom (w_pipes w)) := mkPipe (Some e) ac 0 PGuard]> (w_pipes w)) w
      | Err _ => w
      end
  | Step k an => pipe_step now k an w
  | Kill e =>
      set_scheds (delete e (w_scheds w)) (set_inflight (w_inflight w ∖ {[e]})
        (set_pipes
           (omap (λ p, if bool_decide (p_edge p = Some e)
                       then if bool_decide (p_pc p = PCreate) then Some (mkPipe None (p_ac p) (p_gen p) PCreate) else None
                       else Some p) (w_pipes w)) w))
  | VMDies a monitored =>
      let w := put_host a (mkHost None (if monitored : bool then None else h_snap (host_at a w)) (h_vol (host_at a w)) (h_locked (host_at a w))) w in
      if monitored then set_tabs (Leases.ReleaseLease id (Leases.SetStatus id "failed" (w_tabs w))) w
      else put_relay a (mkRelay None ∅) w
  | Connect a =>
      let h := host_at a w in
      match h_vm h, h_snap h, h_vol h, h_locked h with
      | None, Some g, Some v, false => set_tabs (Leases.SetStatus id "running" (w_tabs w)) (put_host a (boot g v h) w)
      | _, _, _, _ => w
      end
  | Renew a ok =>
      match h_vm (host_at a w), h_snap (host_at a w) with
      | None, None => w
      | _, _ => set_tabs (Leases.renew_one now a (24 * 3600 * 10 ^ 9) id ok (w_tabs w)).1 w
      end
  | Status st => set_tabs (Leases.SetStatus id st (w_tabs w)) w
  | Look a ok =>
      let r := relay_at a w in
      match h_vm (host_at a w), r_pin r with
      | Some _, None => put_relay a (mkRelay None ({[look ok (row w)]} ∪ r_reads r)) w
      | _, _ => w
      end
  | Pin a g => if bool_decide (g ∈ r_reads (relay_at a w)) then pin a g w else w
  | Upload a =>
      match h_vm (host_at a w), h_vol (host_at a w), r_pin (relay_at a w) with
      | Some _, Some v, Some g => set_archive (mkUpload g a v :: w_archive w) w
      | _, _, _ => w
      end
  | DiskLost a => put_host a (mkHost None None None (h_locked (host_at a w))) w
  end.

Definition run (es : list (Z * event)) (w : world) : world := foldl (λ w e, step e.1 e.2 w) w es.
End failover.

(** ** The preflights *)

Lemma consider_spec now current l t0 :
  let good a := Scheduler.Status a = "active" ∧ Scheduler.Endpoint a ≠ "" ∧
                now - Scheduler.LastHeartbeat a ≤ heartbeat_window ∧ same_agent current a = false in
  match foldl (consider now current) t0 l with
  | Some t => (t0 = Some t ∨ t ∈ l ∧ good t) ∧
              ∀ a, (t0 = Some a ∨ a ∈ l ∧ good a) → Scheduler.LastHeartbeat a ≤ Scheduler.LastHeartbeat t
  | None => t0 = None ∧ ∀ a, a ∈ l → ¬ good a
  end.
Proof.
  intros good. revert t0. induction l as [|x l IH]; intros t0.
  { simpl. destruct t0 as [t|]; [|split; [done|]; intros a ?%not_elem_of_nil; done].
    split; [by left|]. intros a [[= ->]|[?%not_elem_of_nil _]]; done. }
  assert (Hc : (good x ∧ consider now current t0 x = match t0 with None => Some x
                  | Some b => if Scheduler.LastHeartbeat b <? Scheduler.LastHeartbeat x then Some x else t0 end) ∨
               (¬ good x ∧ consider now current t0 x = t0)).
  { unfold consider, good.
    destruct (String.eqb_spec (Scheduler.Status x) "active"); simpl; [|right; tauto].
    destruct (String.eqb_spec (Scheduler.Endpoint x) ""); simpl; [right; tauto|].
    destruct (Z.ltb_spec heartbeat_window (now - Scheduler.LastHeartbeat x)); [right; split; [lia|done]|].
    destruct (same_agent current x); [right; split; [naive_solver|done]|left]. split; [|done]. split_and!; try done. }
  cbn [foldl]. specialize (IH (consider now current t0 x)).
  destruct (foldl (consider now current) (consider now current t0 x) l) as [t|].
  - destruct IH as [Hin Hmax]. destruct Hc as [[Hg Hc]|[Hg Hc]]; rewrite Hc in Hin, Hmax.
    + destruct t0 as [b|]; [destruct (Z.ltb_spec (Scheduler.LastHeartbeat b) (Scheduler.LastHeartbeat x))|].
      * split.
        -- destruct Hin as [[= <-]|[? ?]]; [right; split; [left|done] | right; split; [by right|done]].
        -- assert (Hx := Hmax x (or_introl eq_refl)).
           intros a [[= ->]|[[->|Ha]%elem_of_cons Hga]]; [lia|done|]. apply Hmax. by right.
      * split.
        -- destruct Hin as [?|[? ?]]; [by left|right; split; [by right|done]].
        -- assert (Hb := Hmax b (or_introl eq_refl)).
           intros a [[= ->]|[[->|Ha]%elem_of_cons Hga]]; [done|lia|]. apply Hmax. by right.
      * split.
        -- destruct Hin as [[= <-]|[? ?]]; [right; split; [left|done] | right; split; [by right|done]].
        -- intros a [?|[[->|Ha]%elem_of_cons Hga]]; [done|by apply Hmax; left|]. apply Hmax. by right.
    + split.
      * destruct Hin as [?|[? ?]]; [by left|right; split; [by right|done]].
      * intros a [?|[[->|Ha]%elem_of_cons Hga]]; [apply Hmax; by left|done|]. apply Hmax. by right.
  - destruct IH as [Hn Hall]. destruct Hc as [[Hg Hc]|[Hg Hc]]; rewrite Hc in Hn.
    + destruct t0 as [b|]; [|done]. by destruct (Scheduler.LastHeartbeat b <? Scheduler.LastHeartbeat x).
    + split; [done|]. intros a [->|Ha]%elem_of_cons; [done|by apply Hall].
Qed.

(** The caller may see rows of its own workspace; admin and default all. *)
Definition may_see (workspace : string) (r : Leases.sb_row) : Prop :=
  workspace = "admin" ∨ workspace = "default" ∨ workspace_of (Leases.s_meta r) = workspace.

Definition candidate (now : Z) (e : post_env) (a : Agent) : Prop :=
  ∃ l, pe_agents e = Some l ∧ a ∈ l ∧ agentHealthy now (Some a) = true ∧
       same_agent (default None (pe_lease e)) a = false.

Lemma agentHealthy_spec now a :
  agentHealthy now (Some a) = true ↔
  Scheduler.Status a = "active" ∧ Scheduler.Endpoint a ≠ "" ∧ now - Scheduler.LastHeartbeat a ≤ heartbeat_window.
Proof.
  unfold agentHealthy. rewrite !andb_true_iff, String.eqb_eq, negb_true_iff, Z.leb_le, String.eqb_neq. tauto.
Qed.

Lemma pick_spec_failover now e :
  match pickFailoverTarget now (pe_agents e) (default None (pe_lease e)) with
  | Some t => candidate now e t ∧ ∀ a, candidate now e a → Scheduler.LastHeartbeat a ≤ Scheduler.LastHeartbeat t
  | None => ∀ a, ¬ candidate now e a
  end.
Proof.
  unfold pickFailoverTarget, candidate. destruct (pe_agents e) as [l|]; [|by intros a (l & ? & _)].
  pose proof (consider_spec now (default None (pe_lease e)) l None) as H. cbv zeta in H.
  destruct (foldl _ None l) as [t|].
  - destruct H as [[?|(Hin & Hg)] Hmax]; [done|]. split.
    + exists l. rewrite agentHealthy_spec. tauto.
    + intros a (l' & [= <-] & Ha & Hh%agentHealthy_spec & Hs). apply Hmax. right. tauto.
  - destruct H as [_ H]. intros a (l' & [= <-] & Ha & Hh%agentHealthy_spec & Hs). apply (H a Ha). tauto.
Qed.

(** The preflights of a failover.  It is accepted only for a row of a
    database template the caller may see, whose status was read as failed unless
    the caller forces it, with a listed archive, and for a target that is a
    healthy agent other than the owner it found, of the freshest heartbeat
    among those; the template is the row's, and the metadata names a workspace.
    Every refusal has its status code: 401 without a workspace, 501 on one node,
    500 when the row cannot be read, 404 when it is missing, no database or not
    the caller's, 409 when it does not read failed, 503 when no agent qualifies,
    412 without an archive. *)
Theorem failover_guards now e :
  let archived := (dbArchiveExists (pe_archive e).1 (pe_archive e).2).1 = true in
  let seen r := pe_row e = Some (Some r) ∧ isDBTemplate (Leases.s_template r) = true ∧ may_see (pe_workspace e) r in
  let wanted := pe_force e = true ∨ sandboxStatus (pe_status e) = "failed" in
  match failover now e with
  | Ok ac =>
      pe_multinode e = true ∧ archived ∧ wanted ∧
      (∃ r, seen r ∧ ac_template ac = Leases.s_template r ∧ workspace_of (ac_meta ac) ≠ "" ∧
            (workspace_of (Leases.s_meta r) ≠ "" → ac_meta ac = Leases.s_meta r)) ∧
      ac_current ac = default None (pe_lease e) ∧ candidate now e (ac_target ac) ∧
      (∀ a, candidate now e a → Scheduler.LastHeartbeat a ≤ Scheduler.LastHeartbeat (ac_target ac))
  | Err code =>
      code = 401 ∧ pe_workspace e = "" ∨ code = 501 ∧ pe_multinode e = false ∨
      code = 500 ∧ pe_row e = None ∨ code = 404 ∧ (∀ r, ¬ seen r) ∨ code = 409 ∧ ¬ wanted ∨
      code = 503 ∧ (∀ a, ¬ candidate now e a) ∨ code = 412 ∧ ¬ archived
  end.
Proof.
  intros archived seen wanted. unfold failover.
  destruct (String.eqb_spec (pe_workspace e) "") as [|Hws]; [by left|].
  destruct (pe_multinode e) eqn:Hm; simpl; [|right; by left].
  destruct (failoverAuthorize (pe_row e) (pe_workspace e)) as [[meta template]|code] eqn:Ha.
  - assert (Hr : ∃ r, seen r ∧ template = Leases.s_template r ∧ workspace_of meta ≠ "" ∧
                      (workspace_of (Leases.s_meta r) ≠ "" → meta = Leases.s_meta r)).
    { unfold failoverAuthorize in Ha. destruct (pe_row e) as [[r|]|] eqn:Er; [|done..].
      destruct (isDBTemplate (Leases.s_template r)) eqn:Et; [|done]. simpl in Ha.
      destruct (_ && _ && _) eqn:Hv; [done|]. injection Ha as <- <-. exists r. split_and!; try done.
      - unfold seen, may_see. split_and!; try done.
        destruct (String.eqb_spec (pe_workspace e) "admin"); [by left|].
        destruct (String.eqb_spec (pe_workspace e) "default"); [right; by left|].
        destruct (String.eqb_spec (workspace_of (Leases.s_meta r)) (pe_workspace e)); [right; by right|done].
      - destruct (String.eqb_spec (workspace_of (Leases.s_meta r)) ""); [|done].
        unfold workspace_of. by rewrite lookup_insert_eq.
      - intros Hne. by destruct (String.eqb_spec (workspace_of (Leases.s_meta r)) ""). }
    destruct (negb (pe_force e) && _) eqn:Hf.
    + do 4 right. left. split; [done|]. unfold wanted. apply andb_true_iff in Hf as [Hf1%negb_true_iff Hf2%negb_true_iff%String.eqb_neq].
      rewrite Hf1. naive_solver.
    + assert (Hw : wanted).
      { unfold wanted. destruct (pe_force e); [by left|]. simpl in Hf. apply negb_false_iff, String.eqb_eq in Hf. by right. }
      pose proof (pick_spec_failover now e) as Hp.
      replace (match pe_lease e with Some c => c | None => None end) with (default None (pe_lease e)) by (by destruct (pe_lease e)).
      destruct (pickFailoverTarget now (pe_agents e) _) as [t|].
      * destruct (dbArchiveExists _ _) as [[] reason] eqn:Hx; simpl.
        -- destruct Hp as [Hc Hmax]. split_and!; [done|done|exact Hw|exact Hr|done|exact Hc|exact Hmax].
        -- do 6 right. split; [done|]. unfold archived. try rewrite Hx. done.
      * do 5 right. left. done.
  - unfold failoverAuthorize in Ha. destruct (pe_row e) as [[r|]|] eqn:Er.
    + do 3 right. left. destruct (isDBTemplate (Leases.s_template r)) eqn:Et.
      * simpl in Ha. destruct (_ && _ && _) eqn:Hv; [|done]. injection Ha as <-. split; [done|].
        intros q ([= <-] & _ & Hsee). apply andb_true_iff in Hv as [[H1%negb_true_iff%String.eqb_neq H2%negb_true_iff%String.eqb_neq]%andb_true_iff H3%negb_true_iff%String.eqb_neq].
        unfold may_see in Hsee. naive_solver.
      * injection Ha as <-. split; [done|]. intros q ([= <-] & ? & _). congruence.
    + injection Ha as <-. do 3 right. left. split; [done|]. by intros r (? & _).
    + injection Ha as <-. right. right. by left.
Qed.

(** ** One pipeline per replica, one restore per host *)

(** [b] says whether some pipeline is in [Q], and at most one is. *)
Definition flagged (Q : pipe → Prop) (b : bool) (m : gmap nat pipe) : Prop :=
  (b = true ↔ ∃ k p, m !! k = Some p ∧ Q p) ∧
  (∀ k k' p p', m !! k = Some p → Q p → m !! k' = Some p' → Q p' → k = k').

Section flagged.
Context (Q : pipe → Prop) (m : gmap nat pipe) (k : nat).

Lemma flagged_same b p p' : m !! k = Some p → (Q p ↔ Q p') → flagged Q b m → flagged Q b (<[k := p']> m).
Proof.
  intros Hk Hq [Hb H1]. split.
  - rewrite Hb. split.
    + intros (j & q & Hj & ?). destruct (decide (j = k)) as [->|]; [|exists j, q; by rewrite lookup_insert_ne].
      exists k, p'. rewrite lookup_insert_eq. naive_solver.
    + intros (j & q & Hj & ?). destruct (decide (j = k)) as [->|]; [|rewrite lookup_insert_ne in Hj by done; eauto].
      rewrite lookup_insert_eq in Hj. injection Hj as <-. exists k, p. tauto.
  - intros j j' q q'. rewrite !lookup_insert. intros Hj Hqj Hj' Hqj'. do 2 case_decide; simplify_eq; try done; naive_solver.
Qed.

Lemma flagged_new b p : m !! k = None → ¬ Q p → flagged Q b m → flagged Q b (<[k := p]> m).
Proof.
  intros Hk Hq [Hb H1]. split.
  - rewrite Hb. split.
    + intros (j & q & Hj & ?). exists j, q. rewrite lookup_insert_ne; [done|congruence].
    + intros (j & q & Hj & ?). rewrite lookup_insert in Hj. case_decide; simplify_eq; [done|eauto].
  - intros j j' q q'. rewrite !lookup_insert. intros Hj Hqj Hj' Hqj'. do 2 case_decide; simplify_eq; try done; naive_solver.
Qed.

Lemma flagged_enter p : Q p → flagged Q false m → flagged Q true (<[k := p]> m).
Proof.
  intros Hq [Hb _]. assert (Hno : ∀ j q, m !! j = Some q → Q q → False).
  { intros j q ??. enough (false = true) by done. apply Hb. eauto. }
  split.
  - split; [|done]. intros _. exists k, p. by rewrite lookup_insert_eq.
  - intros j j' q q'. rewrite !lookup_insert. intros Hj Hqj Hj' Hqj'. do 2 case_decide; simplify_eq; try done; naive_solver.
Qed.

Lemma flagged_delete b p : m !! k = Some p → Q p → flagged Q b m → flagged Q false (delete k m).
Proof.
  intros Hk Hq [_ H1]. split.
  - split; [done|]. intros (j & q & Hj & ?). apply lookup_delete_Some in Hj as [? ?]. exfalso. naive_solver.
  - intros j j' q q' [? ?]%lookup_delete_Some ? [? ?]%lookup_delete_Some ?. eauto.
Qed.

Lemma flagged_delete_other b p : m !! k = Some p → ¬ Q p → flagged Q b m → flagged Q b (delete k m).
Proof.
  intros Hk Hq [Hb H1]. split.
  - rewrite Hb. split.
    + intros (j & q & Hj & ?). exists j, q. rewrite lookup_delete_ne; [done|]. intros <-. naive_solver.
    + intros (j & q & [? ?]%lookup_delete_Some & ?). eauto.
  - intros j j' q q' [? ?]%lookup_delete_Some ? [? ?]%lookup_delete_Some ?. eauto.
Qed.

Lemma flagged_exit b p p' : m !! k = Some p → Q p → ¬ Q p' → flagged Q b m → flagged Q false (<[k := p']> m).
Proof.
  intros Hk Hq Hq' H. rewrite <- insert_delete_eq. pose proof (flagged_delete b p Hk Hq H) as [Hb H1]. split.
  - rewrite Hb. split.
    + intros (j & q & Hj & ?). exists j, q. rewrite lookup_insert_ne; [done|]. intros <-. by rewrite lookup_delete_eq in Hj.
    + intros (j & q & Hj & ?). rewrite lookup_insert in Hj. case_decide; simplify_eq; [done|eauto].
  - intros j j' q q'. rewrite !(lookup_insert _ k). intros Hj Hqj Hj' Hqj'. do 2 case_decide; simplify_eq; try done. eauto.
Qed.

(** A change of every pipeline that keeps or drops it. *)
Lemma flagged_omap b b' (f : pipe → option pipe) :
  (∀ p p', f p = Some p' → Q p' → Q p) → (∀ p, Q p → b' = true → ∃ p', f p = Some p' ∧ Q p') →
  (b' = false → b = true → ∀ p p', f p = Some p' → ¬ Q p') → (b' = true → b = true) →
  flagged Q b m → flagged Q b' (omap f m).
Proof.
  intros Hf Hk Hd Hbb [Hb H1]. split.
  - split.
    + intros Ht. destruct (proj1 Hb (Hbb Ht)) as (j & q & Hj & Hq). destruct (Hk q Hq Ht) as (q' & ? & ?).
      exists j, q'. split; [|done]. apply lookup_omap_Some. eauto.
    + intros (j & q & (p & ? & ?)%lookup_omap_Some & Hq). destruct b'; [done|]. exfalso.
      eapply Hd; [done|apply Hb; eauto|done|done].
  - intros j j' q q' (p & ? & ?)%lookup_omap_Some ? (p' & ? & ?)%lookup_omap_Some ?. eauto.
Qed.
End flagged.

Definition active (e : string) (p : pipe) : Prop := p_edge p = Some e ∧ p_pc p ≠ PGuard.
Definition creating (a : string) (p : pipe) : Prop := p_pc p = PCreate ∧ Scheduler.ID (ac_target (p_ac p)) = a.

Record serial (w : world) : Prop := {
  s_flag : ∀ e, flagged (active e) (bool_decide (e ∈ w_inflight w)) (w_pipes w);
  s_lock : ∀ a, flagged (creating a) (h_locked (host_at a w)) (w_pipes w);
  s_orphan : ∀ k p, w_pipes w !! k = Some p → p_edge p = None → p_pc p = PCreate;
}.

Lemma serial_same w w' :
  w_pipes w' = w_pipes w → w_inflight w' = w_inflight w →
  (∀ a, h_locked (host_at a w') = h_locked (host_at a w)) → serial w → serial w'.
Proof. intros Hp Hi Hl [Hf Hc Ho]. split; rewrite Hp; [by rewrite Hi|intros a; by rewrite Hl|done]. Qed.

(** A pipeline past the guard goes on, not to or from Create. *)
Lemma serial_goto w w' k p p' :
  w_pipes w !! k = Some p → w_pipes w' = <[k := p']> (w_pipes w) → w_inflight w' = w_inflight w →
  (∀ a, h_locked (host_at a w') = h_locked (host_at a w)) →
  p_edge p' = p_edge p → p_pc p ≠ PGuard → p_pc p' ≠ PGuard → p_pc p ≠ PCreate → p_pc p' ≠ PCreate →
  serial w → serial w'.
Proof.
  intros Hk Hp Hi Hl He H1 H2 H3 H4 [Hf Hc Ho]. split; rewrite Hp.
  - intros e. rewrite Hi. eapply flagged_same; [exact Hk| |apply Hf]. unfold active. rewrite He. tauto.
  - intros a. rewrite Hl. eapply flagged_same; [exact Hk| |apply Hc]. unfold creating. tauto.
  - intros j q Hj Hq. rewrite lookup_insert in Hj. case_decide; simplify_eq; [|by eapply Ho].
    rewrite He in Hq. exfalso. apply H3. by eapply Ho.
Qed.

Lemma serial_leave w k p :
  w_pipes w !! k = Some p → p_pc p ≠ PGuard → p_pc p ≠ PCreate → serial w → serial (leave k w).
Proof.
  intros Hk H1 H3 [Hf Hc Ho]. unfold leave. rewrite Hk. split; simpl.
  - intros e. destruct (p_edge p) as [e'|] eqn:He; [|exfalso; apply H3; by eapply Ho].
    destruct (decide (e = e')) as [->|Hne].
    + rewrite bool_decide_false by set_solver. eapply flagged_delete; [exact Hk| |apply Hf]. done.
    + rewrite (bool_decide_ext _ (e ∈ w_inflight w)) by set_solver.
      eapply flagged_delete_other; [exact Hk| |apply Hf]. unfold active. rewrite He. naive_solver.
  - intros a. eapply flagged_delete_other; [exact Hk| |apply Hc]. by intros [? _].
  - intros j q [? ?]%lookup_delete_Some. by eapply Ho.
Qed.

Lemma host_at_put a h w b : host_at b (put_host a h w) = if decide (a = b) then h else host_at b w.
Proof. unfold host_at, put_host. simpl. rewrite lookup_insert. by case_decide. Qed.

Lemma host_at_hosts w w' b : w_hosts w = w_hosts w' → host_at b w = host_at b w'.
Proof. unfold host_at. by intros ->. Qed.

Section serial.
Context (id : string).

Lemma insert_row_frame ok r w :
  ∃ t, insert_row id ok r w = set_tabs t w.
Proof.
  unfold insert_row, put_row. destruct (row id w), ok; eauto; exists (w_tabs w); by destruct w.
Qed.

(** Outside the tables and the host's VM and volume, the swap changes nothing. *)
Lemma restore_swap_frame now e template meta v a w :
  let w' := (restore_swap id now e template meta v a w).1 in
  w_gens w' = w_gens w ∧ w_leases w' = w_leases w ∧ w_scheds w' = w_scheds w ∧ w_inflight w' = w_inflight w ∧
  w_pipes w' = w_pipes w ∧ w_archive w' = w_archive w ∧ w_relays w' = w_relays (InvalidateGen a w) ∧
  (w_hosts w' = w_hosts w ∨ ∃ g, w_hosts w' = <[a := boot g v (host_at a w)]> (w_hosts w)).
Proof.
  unfold restore_swap. set (w1 := if sw_delete e then put_row id None w else w).
  assert (H1 : ∃ t, w1 = set_tabs t w).
  { unfold w1, put_row. destruct (sw_delete e); eauto. exists (w_tabs w). by destruct w. }
  destruct H1 as [t ->]. set (w2 := InvalidateGen a (set_tabs t w)). destruct (sw_create e) as [|ins].
  - unfold put_row. destruct (insert_row_frame (sw_insert e) (Leases.mkSbRow "failed" a template meta) (set_tabs
      (Leases.set_rows (partial_alter (λ _, None) id (Leases.rows (w_tabs w2))) (w_tabs w2)) w2)) as [u Hu].
    simpl in Hu |- *. rewrite Hu. simpl. split_and!; try done. by left.
  - destruct (insert_row_frame ins (Leases.mkSbRow "running" a template meta) w2) as [u Hu]. rewrite Hu.
    destruct (sw_lease e); simpl; split_and!; try done; right; eexists; reflexivity.
Qed.

Lemma guard_serial now k an w p :
  w_pipes w !! k = Some p → p_pc p = PGuard → serial w → serial (pipe_step id now k an w).
Proof.
  intros Hk Hpc H. unfold pipe_step. rewrite Hk, Hpc. pose proof H as [Hf Hc Ho].
  destruct (p_edge p) as [e|] eqn:He; [|done]. case_bool_decide as Hin.
  - split; simpl.
    + intros e'. eapply flagged_delete_other; [exact Hk| |apply Hf]. by intros [_ ?].
    + intros a. eapply flagged_delete_other; [exact Hk| |apply Hc]. intros [? _]. congruence.
    + intros j q [? ?]%lookup_delete_Some. by eapply Ho.
  - split; simpl.
    + intros e'. destruct (decide (e' = e)) as [->|Hne].
      * rewrite bool_decide_true by set_solver. apply flagged_enter; [by split|].
         specialize (Hf e). by rewrite bool_decide_false in Hf.
      * rewrite (bool_decide_ext _ (e' ∈ w_inflight w)) by set_solver.
         eapply flagged_same; [exact Hk| |apply Hf]. unfold active. simpl. rewrite He. naive_solver.
    + intros a. eapply flagged_same; [exact Hk| |apply Hc]. unfold creating. simpl. rewrite Hpc. naive_solver.
    + intros j q Hj. rewrite lookup_insert in Hj. case_decide; simplify_eq; [simpl; congruence|by eapply Ho].
Qed.

Lemma drain_serial now k an w p :
  w_pipes w !! k = Some p → p_pc p = PDrain → serial w → serial (pipe_step id now k an w).
Proof.
  intros Hk Hpc H. unfold pipe_step. rewrite Hk, Hpc. pose proof H as [Hf Hc Ho].
  apply (serial_goto w _ k p (mkPipe (p_edge p) (p_ac p) (p_gen p) PRestore)); try done; simpl; try congruence.
  - unfold drain. destruct (ac_current _); [|done]. destruct (h_vm _); [|done]. by destruct (_ && _).
  - unfold drain. destruct (ac_current _); [|done]. destruct (h_vm _); [|done]. by destruct (_ && _).
  - intros a. unfold goto. simpl. change (h_locked (host_at a (drain id (an_ok an) (ac_current (p_ac p)) w)) = h_locked (host_at a w)).
    unfold drain. destruct (ac_current _) as [c|]; [|done]. destruct (h_vm _); [|done].
    destruct (an_ok an); simpl; [|done].
    destruct (h_locked (host_at (Scheduler.ID c) w)) eqn:El; simpl; [done|].
    change (h_locked (host_at a (put_host (Scheduler.ID c) (mkHost None (Some z) (h_vol (host_at (Scheduler.ID c) w)) false) w)) = h_locked (host_at a w)).
    rewrite host_at_put. case_decide; [by subst|done].
Qed.

Lemma restore_serial now k an w p :
  w_pipes w !! k = Some p → p_pc p = PRestore → serial w → serial (pipe_step id now k an w).
Proof.
  intros Hk Hpc H. unfold pipe_step. rewrite Hk, Hpc. pose proof H as [Hf Hc Ho].
  set (a := Scheduler.ID (ac_target (p_ac p))). destruct (h_locked (host_at a w)) eqn:El; [done|].
  destruct (restore_prepare _ _ _ _ _ _) as [[[template meta] v]|].
  - split; simpl.
    + intros e. eapply flagged_same; [exact Hk| |apply Hf]. unfold active. simpl. rewrite Hpc. naive_solver.
    + intros b. change (host_at b _) with (host_at b (put_host a (mkHost None (h_snap (host_at a w)) (Some v) true) w)).
      rewrite host_at_put. case_decide as Hab.
      * subst b. simpl. apply flagged_enter; [done|]. specialize (Hc a). by rewrite El in Hc.
      * eapply flagged_same; [exact Hk| |apply Hc]. unfold creating. simpl. rewrite Hpc. naive_solver.
    + intros j q Hj. rewrite lookup_insert in Hj. case_decide; simplify_eq; [done|by eapply Ho].
  - eapply (serial_goto w _ k p); try done; simpl; congruence.
Qed.

Lemma create_serial now k an w p :
  w_pipes w !! k = Some p → p_pc p = PCreate → serial w → serial (pipe_step id now k an w).
Proof.
  intros Hk Hpc H. unfold pipe_step. rewrite Hk, Hpc. pose proof H as [Hf Hc Ho].
  set (a := Scheduler.ID (ac_target (p_ac p))). set (v := default [] _).
  pose proof (restore_swap_frame now (an_swap an) (ac_template (p_ac p)) (ac_meta (p_ac p)) v a w) as Hfr.
  destruct (restore_swap _ _ _ _ _ _ _ _) as [w1 booted]. simpl in Hfr.
  destruct Hfr as (_ & _ & _ & Hi & Hp & _ & _ & Hh).
  assert (Hl : ∀ b, h_locked (host_at b (put_host a (with_lock false (host_at a w1)) w1)) =
                    if decide (a = b) then false else h_locked (host_at b w)).
  { intros b. rewrite host_at_put. case_decide; [done|]. unfold host_at.
    destruct Hh as [->|[g ->]]; [done|]. by rewrite lookup_insert_ne. }
  assert (Hcr : creating a p) by done.
  destruct (p_edge p) as [e|] eqn:He.
  - split; simpl; rewrite Hp.
    + intros e'. rewrite Hi. eapply flagged_same; [exact Hk| |apply Hf]. unfold active. simpl.
      rewrite Hpc, He. destruct (booted && an_ok an); naive_solver.
    + intros b. change (host_at b _) with (host_at b (put_host a (with_lock false (host_at a w1)) w1)). rewrite Hl.
      case_decide as Hab.
      * subst b. eapply flagged_exit; [exact Hk|exact Hcr| |apply Hc]. unfold creating. simpl.
         destruct (booted && an_ok an); naive_solver.
      * eapply flagged_same; [exact Hk| |apply Hc]. unfold creating. simpl. rewrite Hpc.
         destruct (booted && an_ok an); naive_solver.
    + intros j q Hj. rewrite lookup_insert in Hj. case_decide; simplify_eq; [simpl; congruence|by eapply Ho].
  - split; simpl; rewrite Hp.
    + intros e'. rewrite Hi. eapply flagged_delete_other; [exact Hk| |apply Hf]. unfold active. naive_solver.
    + intros b. change (host_at b _) with (host_at b (put_host a (with_lock false (host_at a w1)) w1)). rewrite Hl.
      case_decide as Hab.
      * subst b. eapply flagged_delete; [exact Hk|exact Hcr|apply Hc].
      * eapply flagged_delete_other; [exact Hk| |apply Hc]. unfold creating. naive_solver.
    + intros j q [? ?]%lookup_delete_Some. by eapply Ho.
Qed.

Lemma pipe_step_serial now k an w : serial w → serial (pipe_step id now k an w).
Proof.
  intros H. destruct (w_pipes w !! k) as [p|] eqn:Hk; [|unfold pipe_step; by rewrite Hk].
  destruct (p_pc p) eqn:Hpc;
    [by eapply guard_serial| | |by eapply drain_serial|by eapply restore_serial|by eapply create_serial| |];
    unfold pipe_step; rewrite Hk, Hpc.
  - (* PBump *)
    destruct (DbFencing.bumpArchiveGenerationRetry _ _ _ _ _) as [gens [g|]].
    + eapply (serial_goto w _ k p); try done; simpl; congruence.
    + apply (serial_leave _ k p); simpl; [done|congruence..|]. by apply (serial_same w).
  - (* PLease *)
    apply (serial_goto w _ k p (mkPipe (p_edge p) (p_ac p) (p_gen p) PDrain)); try done; simpl; try congruence; by destruct (an_ok an).
  - (* PRemember *)
    apply (serial_goto w _ k p (mkPipe (p_edge p) (p_ac p) (p_gen p) PRelease)); try done; simpl; try congruence; by destruct (p_edge p).
  - (* PRelease *)
    apply (serial_leave _ k p); simpl; [done|congruence..|]. by apply (serial_same w).
Qed.

Lemma post_serial e ac w :
  serial w → serial (set_pipes (<[fresh (dom (w_pipes w)) := mkPipe (Some e) ac 0 PGuard]> (w_pipes w)) w).
Proof.
  intros [Hf Hc Ho]. assert (Hn : w_pipes w !! fresh (dom (w_pipes w)) = None) by apply not_elem_of_dom, is_fresh.
  split; simpl.
  - intros e'. apply flagged_new; [done| |apply Hf]. by intros [_ ?].
  - intros a. apply flagged_new; [done| |apply Hc]. by intros [? _].
  - intros k p Hk. rewrite lookup_insert in Hk. case_decide; simplify_eq; [done|by eapply Ho].
Qed.

Lemma kill_serial now e w : serial w → serial (step id now (Kill e) w).
Proof.
  intros [Hf Hc Ho]. simpl. split; simpl.
  - intros e'. eapply flagged_omap; [..|apply (Hf e')].
    + intros p p' Hp [H1 H2]. repeat case_bool_decide; simplify_eq; done.
    + intros p [H1 H2] Hin%bool_decide_eq_true_1. rewrite bool_decide_false by (rewrite H1; set_solver). by exists p.
    + intros Hni%bool_decide_eq_false_1 Hin%bool_decide_eq_true_1 p p' Hp [H1 H2].
      case_bool_decide as He; [by case_bool_decide; simplify_eq|]. simplify_eq. apply Hni. set_solver.
    + rewrite !bool_decide_eq_true. set_solver.
  - intros a. apply flagged_omap with (h_locked (host_at a w)); [..|apply (Hc a)].
    + intros p p' Hp [H1 H2]. repeat case_bool_decide; simplify_eq; done.
    + intros p [H1 H2] _. rewrite (bool_decide_true (p_pc p = PCreate)) by done. case_bool_decide; eexists; split; done.
    + intros H1 H2. change (h_locked (host_at a w) = false) in H1. by rewrite H1 in H2.
    + done.
  - intros k p (q & Hq & Hp)%lookup_omap_Some He. repeat case_bool_decide; simplify_eq; [done|]. by eapply Ho.
Qed.
End serial.


(** How far a pipeline is from its end. *)
Definition rank (c : pc) : nat :=
  match c with
  | PGuard => 8 | PBump => 7 | PLease => 6 | PDrain => 5 | PRestore => 4 | PCreate => 3 | PRemember => 2 | PRelease => 1
  end%nat.

Lemma step_serial id now ev w : serial w → serial (step id now ev w).
Proof.
  intros H. destruct ev as [e o|k an|e|a monitored|a|a ok|st|a ok|a g|a|a].
  - simpl. destruct (failover now (observe id now e o w)); [by apply post_serial|done].
  - by apply pipe_step_serial.
  - by apply kill_serial.
  - apply (serial_same w); try done; simpl; [by destruct monitored..|].
    intros b. set (h := mkHost _ _ _ _).
    transitivity (h_locked (host_at b (put_host a h w))); [by destruct monitored|].
    rewrite host_at_put. case_decide; [by subst|done].
  - unfold step. cbv zeta. destruct (h_vm (host_at a w)), (h_snap (host_at a w)) as [g|], (h_vol (host_at a w)) as [v|];
      try done. destruct (h_locked (host_at a w)) eqn:El; [done|].
    apply (serial_same w); try done. intros b.
    transitivity (h_locked (host_at b (put_host a (boot g v (host_at a w)) w))); [f_equal; by apply host_at_hosts|].
    rewrite host_at_put. case_decide; [by subst|done].
  - simpl. destruct (h_vm (host_at a w)), (h_snap (host_at a w)); try done; by apply (serial_same w).
  - by apply (serial_same w).
  - simpl. destruct (h_vm (host_at a w)), (r_pin (relay_at a w)); try done; by apply (serial_same w).
  - simpl. case_bool_decide; [by apply (serial_same w)|done].
  - simpl. destruct (h_vm (host_at a w)), (h_vol (host_at a w)), (r_pin (relay_at a w)); try done; by apply (serial_same w).
  - apply (serial_same w); try done. intros b. simpl. rewrite host_at_put. case_decide; [by subst|done].
Qed.

Lemma pipe_progress id now k an w p :
  w_pipes w !! k = Some p →
  (∃ e, p_edge p = Some e) ∨ p_pc p = PCreate →
  match w_pipes (pipe_step id now k an w) !! k with
  | None => True
  | Some p' => (rank (p_pc p') < rank (p_pc p))%nat ∨
               p' = p ∧ p_pc p = PRestore ∧ h_locked (host_at (Scheduler.ID (ac_target (p_ac p))) w) = true
  end.
Proof.
  intros Hk He. unfold pipe_step. rewrite Hk. destruct (p_pc p) eqn:Hpc.
  - destruct He as [[e ->]|]; [|done]. case_bool_decide; simpl; [by rewrite lookup_delete_eq|].
    rewrite lookup_insert_eq. left. simpl. lia.
  - destruct (DbFencing.bumpArchiveGenerationRetry _ _ _ _ _) as [gens [g|]]; simpl.
    + rewrite lookup_insert_eq. left. simpl. lia.
    + unfold leave. simpl. rewrite Hk. simpl. by rewrite lookup_delete_eq.
  - simpl. rewrite lookup_insert_eq. left. simpl. lia.
  - simpl. rewrite lookup_insert_eq. left. simpl. lia.
  - destruct (h_locked _) eqn:El; [rewrite Hk; by right|].
    destruct (restore_prepare _ _ _ _ _ _) as [[[template meta] v]|]; simpl; rewrite lookup_insert_eq; left; simpl; lia.
  - destruct (restore_swap _ _ _ _ _ _ _ _) as [w1 booted]. destruct (p_edge p); simpl.
    + rewrite lookup_insert_eq. left. destruct (booted && an_ok an); simpl; lia.
    + by rewrite lookup_delete_eq.
  - simpl. rewrite lookup_insert_eq. left. simpl. lia.
  - unfold leave. simpl. rewrite Hk. simpl. by rewrite lookup_delete_eq.
Qed.

(** C29. Failovers of one database are serialized where the code can: in every
    reachable state, with any number of replicas posting, failing and being
    killed, each replica runs at most one pipeline past its in-flight guard and
    its flag is set exactly while it runs; a host's lifecycle lock is held
    exactly while one restore creates there; and every step of a pipeline ends
    it or brings it nearer to its end, unless it waits for a host's lock, whose
    holder is then a pipeline that can go on.  So the flag is always given
    back. *)
Theorem failover_serialized id es w0 :
  w_pipes w0 = ∅ → w_inflight w0 = ∅ → (∀ a, h_locked (host_at a w0) = false) →
  let w := run id es w0 in
  (∀ e, flagged (active e) (bool_decide (e ∈ w_inflight w)) (w_pipes w)) ∧
  (∀ a, flagged (creating a) (h_locked (host_at a w)) (w_pipes w)) ∧
  ∀ now k an p, w_pipes w !! k = Some p →
    match w_pipes (pipe_step id now k an w) !! k with
    | None => True
    | Some p' => (rank (p_pc p') < rank (p_pc p))%nat ∨
        p' = p ∧ ∃ j q, j ≠ k ∧ w_pipes w !! j = Some q ∧ creating (Scheduler.ID (ac_target (p_ac p))) q
    end.
Proof.
  intros Hp Hi Hl w.
  assert (H : serial w).
  { subst w. assert (H0 : serial w0).
    { split; rewrite Hp.
      - intros e. rewrite Hi, bool_decide_false by set_solver. split; [split; [done|]|]; naive_solver.
      - intros a. rewrite Hl. split; [split; [done|]|]; naive_solver.
      - done. }
    clear Hp Hi Hl. revert w0 H0. induction es as [|[now e] es IH]; intros w0 H0; [done|].
    simpl. apply IH. by apply step_serial. }
  split_and!; [apply H|apply H|]. intros now k an p Hk.
  assert (He : (∃ e, p_edge p = Some e) ∨ p_pc p = PCreate).
  { destruct (p_edge p) as [e|] eqn:E; [left; by exists e|right]. by eapply (s_orphan w H). }
  pose proof (pipe_progress id now k an w p Hk He) as Hpr.
  destruct (w_pipes (pipe_step id now k an w) !! k) as [p'|]; [|done].
  destruct Hpr as [?|(-> & Hpc & Hlk)]; [by left|right]. split; [done|].
  destruct (s_lock w H (Scheduler.ID (ac_target (p_ac p)))) as [Hb _].
  destruct (proj1 Hb Hlk) as (j & q & Hj & Hq). exists j, q. split_and!; [|done|done].
  intros ->. destruct Hq as [Hq _]. congruence.
Qed.

(** ** Generations: no two virtual machines share one *)



























(** *** A relay stamps the generation of the VM it serves *)

Definition own_pins (w : world) : Prop := ∀ a p, r_pin (relay_at a w) = Some p →
  (∀ g, h_vm (host_at a w) = Some g → g = p) ∧ (h_vm (host_at a w) = None → ∀ s, h_snap (host_at a w) = Some s → s = p).

Lemma own_same w w' : w_hosts w' = w_hosts w → w_relays w' = w_relays w → own_pins w → own_pins w'.
Proof. unfold own_pins, host_at, relay_at. by intros -> ->. Qed.









(** ** RestoreDatabase as one call *)

Definition RestoreDatabase (id : string) (now : Z) (e : restore_env) (s : swap_env) (template : string) (meta : metadata)
    (a : string) (w : world) : world * bool :=
  match restore_prepare id e template meta a w with
  | None => (w, false)
  | Some (template, meta, v) => restore_swap id now s template meta v a w
  end.

Lemma row_put id r w : row id (put_row id r w) = r.
Proof. unfold row, put_row. simpl. by rewrite lookup_partial_alter_eq. Qed.

Lemma row_insert id ok r w :
  row id (insert_row id ok r w) = match row id w with Some q => Some q | None => if ok then Some r else None end.
Proof.
  unfold insert_row. destruct (row id w) as [q|] eqn:E; [done|]. destruct ok; [by rewrite row_put|done].
Qed.

(** What a restore does, on every path.  It refuses, with nothing changed,
    when the database runs on the host, the template is not a managed one or no
    volume can be had; otherwise it takes the local volume if there is one and
    the best archived base if not.  When the VM starts it carries the generation
    its row says and has written that volume; when it does not, the hosts are as
    before, and the row is there again as failed unless its insertion fails
    too. *)
Theorem restore_database_spec id now e s template meta a w :
  let '(w', ok) := RestoreDatabase id now e s template meta a w in
  match restore_prepare id e template meta a w with
  | None => w' = w ∧ ok = false
  | Some (t, m, v) =>
      h_vm (host_at a w) = None ∧ isPGManagedTemplate t = true ∧ m !! "db.recover_from" = None ∧
      (h_vol (host_at a w) = Some v ∨ h_vol (host_at a w) = None ∧ best_base (w_archive w) = Some v) ∧
      match sw_create s with
      | Boots inserted =>
          ok = true ∧ host_at a w' = boot (row_gen (row id w')) v (host_at a w) ∧
          row id w' = match (if sw_delete s then None else row id w) with
                      | Some q => Some q
                      | None => if inserted then Some (Leases.mkSbRow "running" a t m) else None
                      end
      | CreateFails =>
          ok = false ∧ w_hosts w' = w_hosts w ∧
          row id w' = if sw_insert s then Some (Leases.mkSbRow "failed" a t m) else None
      end
  end.
Proof.
  unfold RestoreDatabase. destruct (restore_prepare id e template meta a w) as [[[t m] v]|] eqn:E; [|done].
  assert (Hp : h_vm (host_at a w) = None ∧ isPGManagedTemplate t = true ∧ m !! "db.recover_from" = None ∧
      (h_vol (host_at a w) = Some v ∨ h_vol (host_at a w) = None ∧ best_base (w_archive w) = Some v)).
  { unfold restore_prepare in E. destruct (negb (re_uuid e)); [done|]. destruct (h_vm (host_at a w)); [done|].
    destruct (backfill _ _ _) as [t0 m0].
    destruct (isPGManagedTemplate (if String.eqb t0 "" then pgManagedTemplate else t0)) eqn:Ht; [|done].
    destruct (h_vol (host_at a w)) as [u|].
    - injection E as <- <- <-. split_and!; [done|done|by rewrite lookup_delete_eq|by left].
    - destruct (re_build e); [|done]. destruct (best_base (w_archive w)) as [u|] eqn:Eb; [|done]. injection E as <- <- <-.
      split_and!; [done|done|by rewrite lookup_delete_eq|by right]. }
  unfold restore_swap. destruct Hp as (H1 & H2 & H3 & H4).
  set (w1 := InvalidateGen a (if sw_delete s then put_row id None w else w)).
  assert (Hr : row id w1 = if sw_delete s then None else row id w) by (unfold w1; destruct (sw_delete s); [apply (row_put id None w)|done]).
  assert (Hh : w_hosts w1 = w_hosts w) by (unfold w1; by destruct (sw_delete s)).
  destruct (sw_create s) as [|ins].
  - split_and!; try done.
    + destruct (insert_row_frame id (sw_insert s) (Leases.mkSbRow "failed" a t m) (put_row id None w1)) as [u ->]. exact Hh.
    + by rewrite row_insert, row_put.
  - set (w2 := insert_row id ins (Leases.mkSbRow "running" a t m) w1).
    assert (Hh2 : host_at a w2 = host_at a w).
    { apply host_at_hosts. unfold w2. destruct (insert_row_frame id ins (Leases.mkSbRow "running" a t m) w1) as [u ->]. exact Hh. }
    assert (Hr2 : row id w2 = match (if sw_delete s then None else row id w) with
                 | Some q => Some q | None => if ins then Some (Leases.mkSbRow "running" a t m) else None end).
    { unfold w2. by rewrite row_insert, Hr. }
    split_and!; try done.
    + transitivity (host_at a (put_host a (boot (row_gen (row id w2)) v (host_at a w2)) w2)).
      * destruct (sw_lease s); reflexivity.
      * rewrite host_at_put, decide_True, Hh2 by done. by destruct (sw_lease s).
    + rewrite <- Hr2. by destruct (sw_lease s).
Qed.

(** ** Concrete runs *)

Definition w_cap : Scheduler.Capacity := Scheduler.aCapacity (Scheduler.w_agent "x" 0).
Definition w_agent (a : string) (hb : Z) : Agent := Scheduler.mkAgent a ("http://" +:+ a) "" "" "" "active" w_cap hb.
Definition w_row : Leases.sb_row := Leases.mkSbRow "running" "A" "postgres-16" {["workspace" := "ws"]}.
Definition w_world : world :=
  mkWorld (Leases.mkTables {["db" := Leases.mkLeaseRow "A" "ws" (10 ^ 15)]} {["db" := w_row]})
    {["db" := DbFencing.mkGen 1 "create"]} [] {["A" := mkHost (Some 1) None (Some [1]) false]}
    {["r1" := Scheduler.New 0; "r2" := Scheduler.New 0]} ∅ ∅ [mkUpload 1 "A" [1]] {["A" := mkRelay (Some 1) {[1]}]}.

Definition w_obs (force : bool) (l : list Agent) : post_obs :=
  mkObs "ws" force true true true true (Some l) [w_agent "A" 0; w_agent "B" 0; w_agent "C" 0] (true, LsFound).
Definition w_good : answers :=
  mkAns [Some DbFencing.Answered] true (mkRestore true true true) (mkSwap true (Boots true) true true).
Definition w_AB : list Agent := [w_agent "A" 9; w_agent "B" 5].
Definition w_AC : list Agent := [w_agent "A" 9; w_agent "C" 5].

(** All the steps of pipeline [k]. *)
Definition w_all (k : nat) : list (Z * event) := replicate 8 (10, Step k w_good).
Definition at_time (now : Z) (es : list event) : list (Z * event) := map (λ e, (now, e)) es.
Definition w_vms (w : world) : list (option Z) := map (λ a, h_vm (host_at a w)) ["A"; "B"; "C"].

(** Two replicas, a crash, a retry: as the theorems say. *)
Definition w_events : list (Z * event) :=
  at_time 10 [Post "r1" (w_obs true w_AB); Post "r2" (w_obs false w_AB); Post "r1" (w_obs true w_AB); Step 0 w_good;
    Step 1 w_good; Step 0 (mkAns [Some DbFencing.Lost; Some DbFencing.Answered] true (mkRestore true true true) (mkSwap true (Boots true) true true));
    VMDies "A" true; Kill "r2"] ++ w_all 0 ++ at_time 20 [Look "B" true; Pin "B" 3; Upload "B"].

Lemma failover_serialized_witness :
  let w := run "db" w_events w_world in
  w_vms w = [None; Some 3; None] ∧ w_inflight w = ∅ ∧
  (∀ e, flagged (active e) (bool_decide (e ∈ w_inflight w)) (w_pipes w)).
Proof.
  intros w. split; [vm_compute; reflexivity|]. split; [vm_compute; reflexivity|].
  assert (Hl : ∀ a, h_locked (host_at a w_world) = false).
  { intros a. unfold host_at, w_world. simpl. destruct (decide (a = "A")) as [->|Hne]; [done|].
    by rewrite lookup_singleton_ne. }
  destruct (failover_serialized "db" w_events w_world eq_refl eq_refl Hl) as (H & _ & _). exact H.
Defined.


(** ** What the code allows *)

Definition w_failed_A : list (Z * event) := at_time 10 [VMDies "A" false; Status "failed"].

(** The in-flight guard is each replica's own: two replicas asked at once restore
    the database on two hosts. *)
Lemma two_replicas_two_primaries :
  w_vms (run "db" (w_failed_A ++ at_time 10 [Post "r1" (w_obs false w_AB); Post "r2" (w_obs false w_AC)] ++ w_all 0 ++ w_all 1) w_world)
    = [None; Some 2; Some 3].
Proof. vm_compute. reflexivity. Qed.

(** The preflights run before the guard: a request they passed before another
    failover ran is carried out after it, on what it had read. *)
Lemma stale_preflight_two_primaries :
  w_vms (run "db" (w_failed_A ++ at_time 10 [Post "r1" (w_obs false w_AB); Post "r1" (w_obs false w_AC)] ++ w_all 0 ++ w_all 1) w_world)
    = [None; Some 2; Some 3].
Proof. vm_compute. reflexivity. Qed.

(** A target that has a volume from an earlier time boots it as it is: back to A
    after a failover to B, what was written at B is not there, although the
    archive has it. *)
Lemma failback_boots_the_old_volume :
  let w := run "db" (at_time 10 [Post "r1" (w_obs true w_AB)] ++ w_all 0 ++
             at_time 20 [Look "B" true; Pin "B" 2; Upload "B"; VMDies "B" false; Status "failed"; Post "r1" (w_obs false [w_agent "A" 19; w_agent "B" 5])] ++ w_all 0) w_world in
  best_base (w_archive w) = Some [1; 2] ∧ h_vm (host_at "A" w) = Some 3 ∧ h_vol (host_at "A" w) = Some [1; 3].
Proof. vm_compute. done. Qed.

(** The drained host keeps the snapshot: its lease renewal takes the lease back
    and the next connection wakes the old database beside the new one. *)
Lemma drained_host_wakes_again :
  let w := run "db" (at_time 10 [Post "r1" (w_obs true w_AB)] ++ w_all 0 ++ at_time 20 [Renew "A" (true, true); Connect "A"]) w_world in
  w_vms w = [Some 1; Some 2; None] ∧ Leases.LookupLease 30 "db" (w_tabs w) = Some "A".
Proof. vm_compute. done. Qed.

(** A replica that remembers the owner from before a failover (for up to an
    hour) drains the wrong host. *)
Lemma cached_owner_drains_the_wrong_host :
  let w1 := set_scheds (alter (Scheduler.RememberLeasePersistent 5 "db" (w_agent "A" 5)) "r2" (w_scheds w_world)) w_world in
  w_vms (run "db" (at_time 10 [Post "r1" (w_obs true w_AB)] ++ w_all 0 ++ at_time 20 [Post "r2" (w_obs true w_AC)] ++ w_all 0) w1)
    = [None; Some 2; Some 3].
Proof. vm_compute. reflexivity. Qed.

(** The stale row is not deleted, the new row is a conflict nobody reads: the
    relay of the new VM reads the old generation. *)
Lemma failed_delete_unfences :
  w_vms (run "db" (at_time 10 [Post "r1" (w_obs true w_AB)] ++ replicate 3 (10, Step 0 w_good) ++
    at_time 10 [Step 0 (mkAns [] false (mkRestore true true true) (mkSwap true (Boots true) true true)); Step 0 w_good;
                Step 0 (mkAns [] true (mkRestore true true true) (mkSwap false (Boots true) true true))]) w_world)
    = [Some 1; Some 1; None].
Proof. vm_compute. reflexivity. Qed.

(** When the request has timed out, so has the context of the insertion of the
    failed row: the database has no row. *)
Lemma timed_out_restore_loses_the_row :
  row "db" (run "db" (at_time 10 [Post "r1" (w_obs true w_AB)] ++ replicate 5 (10, Step 0 w_good) ++
    at_time 10 [Step 0 (mkAns [] false (mkRestore true true true) (mkSwap true CreateFails false true))]) w_world) = None.
Proof. vm_compute. reflexivity. Qed.

(** GET offers a failover that POST refuses: it counts the current owner, and
    agents without an endpoint. *)
Lemma offered_failover_is_refused :
  let l := [w_agent "A" 9] in
  checkFailoverAvailability 10 false (Some l) (true, LsFound) = true ∧
  failover 10 (observe "db" 10 "r1" (w_obs true l) w_world) = Err 503.
Proof. vm_compute. done. Qed.

(** The pin is the process's, and is taken at the first look: the drained owner's
    agent starts again, wakes its snapshot, and its relay stamps the old timeline
    with the generation of the new owner. *)
Lemma late_look_stamps_anothers :
  let w := run "db" (at_time 10 [Post "r1" (w_obs true w_AB)] ++ w_all 0 ++
             at_time 20 [Look "B" true; Pin "B" 2; Upload "B"; VMDies "A" false; Connect "A"; Look "A" true; Pin "A" 2; Upload "A"]) w_world in
  w_vms w = [Some 1; Some 2; None] ∧
  map (λ u, (u_gen u, u_host u)) (w_archive w) = [(2, "A"); (2, "B"); (1, "A")] ∧ best_base (w_archive w) = Some [1; 1].
Proof. vm_compute. done. Qed.

(** A look whose row is not answered stamps the first generation, whatever the
    VM's. *)
Lemma unanswered_look_stamps_one :
  let w := run "db" (at_time 10 [Post "r1" (w_obs true w_AB)] ++ w_all 0 ++
             at_time 20 [Look "B" false; Pin "B" 1; Upload "B"]) w_world in
  map (λ u, (u_gen u, u_host u)) (w_archive w) = [(1, "B"); (1, "A")].
Proof. vm_compute. done. Qed.
