(* ===== verification/Slugs.v ===== *)
(** Organization slugs, api/cmd/api/orgs.go: what a slug may look like.  A slug
    becomes the workspace key the agents isolate tenants by, among which ""
    "admin" and "default" see everything and a user id is the key of a user
    without an organization. *)

From S2P Require Import Prelude GoStrings.

Open Scope string_scope.
Open Scope list_scope.
Open Scope Z_scope.

Definition is_lower (c : Ascii.ascii) : bool := (97 <=? code c) && (code c <=? 122).
Definition is_upper (c : Ascii.ascii) : bool := (65 <=? code c) && (code c <=? 90).
Definition is_alnum (c : Ascii.ascii) : bool := is_lower c || is_digit c.
Definition is_dash (c : Ascii.ascii) : bool := code c =? 45.
Definition slug_char (c : Ascii.ascii) : bool := is_alnum c || is_dash c.
Definition is_hex (c : Ascii.ascii) : bool := is_digit c || (97 <=? code c) && (code c <=? 102).

Definition reservedOrgSlugs : list string :=
  ["admin"; "default"; "system"; "internal"; "root"; "superuser"; "pandastack"; "api"; "agent"; "edge"; "app"; "apps";
   "www"; "dashboard"; "billing"; "stripe"; "webhook"; "webhooks"; "healthz"; "metrics"; "v1"; "me"; "orgs"; "public";
   "null"; "undefined"].

(** The loop over the bytes of the id from index [i]. *)
Fixpoint uuid_from (i : Z) (s : string) : bool :=
  match s with
  | EmptyString => true
  | String c s =>
      if (i =? 8) || (i =? 13) || (i =? 18) || (i =? 23) then is_dash c && uuid_from (i + 1) s
      else is_hex c && uuid_from (i + 1) s
  end.
Definition looksLikeUUID (s : string) : bool := (String.length s =? 36)%nat && uuid_from 0 s.

(** The loop of isValidOrgSlug. *)
Fixpoint slug_loop (prevHyphen : bool) (s : string) : bool :=
  match s with
  | EmptyString => true
  | String c s =>
      if is_alnum c then slug_loop false s
      else if is_dash c then if prevHyphen then false else slug_loop true s
      else false
  end.

Definition first_char (s : string) : option Ascii.ascii := String.get 0 s.
Definition last_char (s : string) : option Ascii.ascii := String.get (String.length s - 1) s.
Definition dash_at (c : option Ascii.ascii) : bool := match c with Some c => is_dash c | None => false end.

Definition isValidOrgSlug (slug : string) : bool :=
  let slug := TrimSpace slug in
  let n := Z.of_nat (String.length slug) in
  if (n <? 2) || (40 <? n) then false
  else if dash_at (first_char slug) || dash_at (last_char slug) then false
  else slug_loop false slug && negb (looksLikeUUID slug).

(** [c - 'A' + 'a'] *)
Definition lower_ascii (c : Ascii.ascii) : Ascii.ascii :=
  if is_upper c then Ascii.ascii_of_N (Ascii.N_of_ascii c + 32) else c.
Fixpoint lower_string (s : string) : string :=
  match s with EmptyString => "" | String c s => String (lower_ascii c) (lower_string s) end.

(** The loop of slugFromName; [last] says whether the last byte kept is '-'. *)
Fixpoint slug_bytes (last_dash : bool) (name : string) : string :=
  match name with
  | EmptyString => ""
  | String c name =>
      let c := lower_ascii c in
      if is_alnum c then String c (slug_bytes false name)
      else if (code c =? 32) || (code c =? 95) || is_dash c then
        if last_dash then slug_bytes true name else String dash (slug_bytes true name)
      else slug_bytes last_dash name
  end.

(** [strings.Trim(s, "-")] *)
Fixpoint trim_left_dash (s : string) : string :=
  match s with String c s' => if is_dash c then trim_left_dash s' else s | EmptyString => "" end.
Fixpoint trim_right_dash (s : string) : string :=
  match s with
  | EmptyString => ""
  | String c s => let r := trim_right_dash s in if String.eqb r "" && is_dash c then "" else String c r
  end.

(** [hex.EncodeToString] of random bytes is the argument [rnd]. *)
Definition slugFromName (rnd : string) (name : string) : string :=
  let out := trim_right_dash (trim_left_dash (slug_bytes true name)) in
  if String.eqb out "" then "org-" +:+ rnd else out.

Section reserved.
(** Unicode's lower-case mapping ([strings.ToLower]). *)
Context (ToLower : string → string).

Definition isReservedOrgSlug (slug : string) : bool :=
  existsb (String.eqb (ToLower (TrimSpace slug))) reservedOrgSlugs.
End reserved.

(** ** What every slug that is kept satisfies *)

Record safe_slug (s : string) : Prop := {
  ss_chars : all_chars slug_char s = true;
  ss_nonempty : s ≠ "";
  ss_free : s ∉ reservedOrgSlugs;
  ss_uuid : looksLikeUUID s = false;
}.

Lemma slug_char_range c : slug_char c = true → 33 <= code c <= 127.
Proof. unfold slug_char, is_alnum, is_lower, is_digit, is_dash. lia. Qed.

Lemma safe_slug_trim s : safe_slug s → TrimSpace s = s.
Proof. intros H. apply (TrimSpace_all slug_char); [apply slug_char_range|apply H]. Qed.

Lemma all_chars_get f s i c : all_chars f s = true → String.get i s = Some c → f c = true.
Proof.
  revert i. induction s as [|a s IH]; intros i; [by destruct i|]. cbn. intros [Ha Hs]%andb_true_iff.
  destruct i; [by intros [= <-]|by apply IH].
Qed.

Lemma slug_loop_chars h s : slug_loop h s = true → all_chars slug_char s = true.
Proof.
  revert h. induction s as [|c s IH]; intros h; [done|]. cbn [slug_loop all_chars]. unfold slug_char at 1.
  destruct (is_alnum c); [apply IH|]. destruct (is_dash c); [|done]. destruct h; [done|]. apply IH.
Qed.

Lemma slug_bytes_chars l n : all_chars slug_char (slug_bytes l n) = true.
Proof.
  revert l. induction n as [|c n IH]; intros l; [done|]. cbn [slug_bytes].
  destruct (is_alnum (lower_ascii c)) eqn:E; [cbn [all_chars]; unfold slug_char at 1; by rewrite E, IH|].
  destruct (_ || _); [|apply IH]. destruct l; [apply IH|]. cbn [all_chars]. by rewrite IH.
Qed.

Lemma trim_dash_chars f s : all_chars f s = true → all_chars f (trim_right_dash (trim_left_dash s)) = true.
Proof.
  intros H. assert (H' : all_chars f (trim_left_dash s) = true).
  { induction s as [|c s IH]; [done|]. cbn [trim_left_dash]. destruct (is_dash c); [|done].
    apply IH. cbn in H. by apply andb_true_iff in H as [_ ?]. }
  revert H'. generalize (trim_left_dash s) as t. intros t. induction t as [|c t IH]; [done|]. cbn [trim_right_dash all_chars].
  intros [Hc Ht]%andb_true_iff. destruct (_ && _); [done|]. cbn [all_chars]. by rewrite Hc, IH.
Qed.

Lemma slugFromName_chars rnd name : all_chars is_hex rnd = true →
  all_chars slug_char (slugFromName rnd name) = true ∧ slugFromName rnd name ≠ "".
Proof.
  intros Hr. unfold slugFromName. destruct (String.eqb_spec (trim_right_dash (trim_left_dash (slug_bytes true name))) "").
  - split; [|done]. rewrite all_chars_app. apply andb_true_iff. split; [done|].
    revert Hr. apply all_chars_mono. unfold is_hex, slug_char, is_alnum, is_lower. intros c. destruct (is_digit c), (is_dash c); simpl; lia.
  - split; [|done]. apply trim_dash_chars, slug_bytes_chars.
Qed.

(** A slug createOrg accepts. *)
Lemma valid_slug_safe ToLower s :
  (∀ t, all_chars slug_char t = true → ToLower t = t) →
  TrimSpace s = s → isValidOrgSlug s = true → isReservedOrgSlug ToLower s = false → safe_slug s.
Proof.
  intros Hlow Ht Hv Hr. unfold isValidOrgSlug in Hv. rewrite Ht in Hv. cbv zeta in Hv.
  destruct (_ || _) eqn:En; [done|]. apply orb_false_iff in En as [En _]. destruct (_ || _); [done|].
  apply andb_true_iff in Hv as [Hl Hu%negb_true_iff]. apply slug_loop_chars in Hl.
  split; [done| | |done].
  - intros ->. done.
  - intros Hin. unfold isReservedOrgSlug in Hr. rewrite Ht, Hlow in Hr by done.
    assert (existsb (String.eqb s) reservedOrgSlugs = true); [|congruence].
    apply existsb_exists. exists s. split; [by apply list_elem_of_In|apply String.eqb_refl].
Qed.

Lemma uuid_from_get i s j c :
  uuid_from i s = true → String.get j s = Some c →
  let k := i + Z.of_nat j in
  if (k =? 8) || (k =? 13) || (k =? 18) || (k =? 23) then is_dash c = true else is_hex c = true.
Proof.
  revert i j. induction s as [|a s IH]; intros i j; [by destruct j|]. cbn [uuid_from]. intros Hu Hg. cbv zeta.
  destruct j as [|j].
  - cbn in Hg. injection Hg as <-. rewrite Z.add_0_r. destruct (_ || _); by apply andb_true_iff in Hu as [? _].
  - cbn [String.get] in Hg. assert (Hs : uuid_from (i + 1) s = true) by (destruct (_ || _); by apply andb_true_iff in Hu as [_ ?]).
    specialize (IH (i + 1) j Hs Hg). cbv zeta in IH. by replace (i + Z.of_nat (S j)) with (i + 1 + Z.of_nat j) by lia.
Qed.

Lemma get_app (a b : string) i : String.get (String.length a + i) (a +:+ b) = String.get i b.
Proof. induction a as [|? ? IH]; [done|]. exact IH. Qed.

(** The slug of a personal organization. *)
Lemma personal_slug_safe a h :
  all_chars slug_char a = true → all_chars is_hex h = true → String.length h = 8%nat → safe_slug (a +:+ "-" +:+ h).
Proof.
  intros Ha Hh Hn. split.
  - rewrite !all_chars_app, Ha. cbn [all_chars andb]. revert Hh. apply all_chars_mono.
    unfold is_hex, slug_char, is_alnum, is_lower. intros c. destruct (is_digit c), (is_dash c); simpl; lia.
  - intros E. apply (f_equal String.length) in E. rewrite !string_length_app, Hn in E. change (String.length "") with 0%nat in E. lia.
  - intros Hin.
    assert (Hd : ∀ t, t ∈ reservedOrgSlugs → all_chars (λ c, negb (is_dash c)) t = true).
    { apply Forall_forall. vm_compute. repeat constructor. }
    apply Hd in Hin. rewrite !all_chars_app in Hin. cbn in Hin. by rewrite andb_false_r in Hin.
  - unfold looksLikeUUID. rewrite !string_length_app. cbn [String.length]. rewrite Hn.
    destruct (Nat.eqb_spec (String.length a + (1 + 8)) 36) as [Hl|]; [|done]. apply not_true_is_false. intros Hu.
    pose proof (uuid_from_get 0 _ (String.length a + 0) (dash) Hu) as H. rewrite get_app in H. specialize (H eq_refl).
    cbv zeta in H. replace (0 + Z.of_nat (String.length a + 0)) with 27 in H by lia. by cbn in H.
Qed.
