(* ===== verification/OrgDb.v ===== *)
(** The control plane's shared state for tenancy, and the statements its requests
    run on it: the tables of api/cmd/api/orgs.go (orgs, org_members, org_invites,
    user_current_org) and auth_pg.go (api_tokens), and every replica's cache of
    org_resolver.go.

    A request is a [prog]: a tree of statements, cut wherever another request of
    any replica can come in.  [safe] is a program logic for such trees: it asks
    for each statement's precondition, and hands on what its answer implies in
    every later state. *)

From S2P Require Import Prelude GoStrings Slugs.

Open Scope string_scope.
Open Scope list_scope.
Open Scope Z_scope.
#[local] Set Warnings "-clear-no-such-hyp".

(** ** The tables *)

Record org := mkOrg { o_slug : string; o_name : string; o_owner : string; o_created : Z }.
Record member := mkMember { m_email : string; m_role : string; m_joined : Z }.
Record invite := mkInvite { i_org : string; i_email : string; i_role : string; i_by : string; i_expires : Z; i_accepted : bool }.
Record token := mkToken { t_prefix : string; t_ws : string; t_label : string; t_created : Z }.
Record cacheEntry := mkEntry { e_val : string; e_exp : Z; e_ok : bool }.

(** What has been handed out, and to whom (not kept by the program). *)
Inductive grant :=
  | GCreated (u o : string)            (* createOrg *)
  | GPersonal (u o : string)           (* the personal organization getMe made for [u] *)
  | GBySlug (u o : string)             (* an organization getMe found under the personal slug of [u] *)
  | GSeen (u o role : string)          (* [u] was read to have [role] in [o] *)
  | GInvited (u o tok : string)
  | GAccepted (u o tok : string)
  | GMinted (u h ws : string).         (* an API token, by its hash *)

Record db := mkDb {
  orgs : gmap string org;
  members : gmap (string * string) member;      (* organization and user *)
  invites : gmap string invite;
  current : gmap string string;                 (* user_current_org *)
  tokens : gmap string token;                   (* by hash *)
  caches : gmap (string * string) cacheEntry;   (* replica and key *)
  log : list grant;
}.

Definition set_orgs x d := mkDb x (members d) (invites d) (current d) (tokens d) (caches d) (log d).
Definition set_members x d := mkDb (orgs d) x (invites d) (current d) (tokens d) (caches d) (log d).
Definition set_invites x d := mkDb (orgs d) (members d) x (current d) (tokens d) (caches d) (log d).
Definition set_current x d := mkDb (orgs d) (members d) (invites d) x (tokens d) (caches d) (log d).
Definition set_tokens x d := mkDb (orgs d) (members d) (invites d) (current d) x (caches d) (log d).
Definition set_caches x d := mkDb (orgs d) (members d) (invites d) (current d) (tokens d) x (log d).
Definition note g d := mkDb (orgs d) (members d) (invites d) (current d) (tokens d) (caches d) (g :: log d).
Definition empty_db : db := mkDb ∅ ∅ ∅ ∅ ∅ ∅ [].

(** ** Statements *)

Inductive stmt : Type → Type :=
  (* orgs.go *)
  | SelOrgs (u : string) : stmt (list (string * org * string))
  | SelOrg (u o : string) : stmt (option (org * string))
  | SelRole (o u : string) : stmt (option string)
  | SelMembers (o : string) : stmt (list (string * member))
  | SelOwner (o : string) : stmt (option string)
  | SelInvite (tok : string) : stmt (option invite)
  | SelCurrent (u : string) : stmt (option string)
  | CountMember (o u : string) : stmt Z
  | CreateTx (o slug name u email : string) : stmt bool          (* createOrg's transaction; [false]: 23505 *)
  | UpsertOrg (o slug name u : string) : stmt string
  | InsMember (o u email role : string) : stmt unit              (* ON CONFLICT DO NOTHING *)
  | InsCurrent (u o : string) : stmt unit                        (* ON CONFLICT DO NOTHING *)
  | SetCurrent (u o : string) : stmt unit                        (* ON CONFLICT DO UPDATE *)
  | InsInvite (tok : string) (i : invite) : stmt unit
  | DelMember (o u : string) : stmt unit
  | AcceptTx (o u email role tok : string) : stmt unit           (* acceptInvite's transaction *)
  (* org_resolver.go *)
  | SelCurrentSlug (u : string) : stmt (option (string * string))
  | SelOldestSlug (u : string) : stmt (option (string * string))
  | SelSlugFor (u o : string) : stmt (option string)
  (* auth_pg.go *)
  | SelToken (h : string) : stmt (option token)
  | SelTokens (ws : string) : stmt (list token)
  | InsToken (by_ h : string) (t : token) : stmt unit
  | DelTokens (ws prefix : string) : stmt Z
  (* in the process *)
  | Now : stmt Z
  | Load (edge key : string) : stmt (option cacheEntry)
  | Store (edge key : string) (e : cacheEntry) : stmt unit
  | Drop (edge key : string) : stmt unit.

(** [CHECK (role IN ...)] *)
Definition member_role (r : string) : bool := String.eqb r "owner" || String.eqb r "admin" || String.eqb r "member".
Definition invite_role (r : string) : bool := String.eqb r "admin" || String.eqb r "member".

Section statements.
(** The order in which the database lists rows (by time; ties as it likes). *)
Context (by_time : list (string * org * string) → list (string * org * string)).
Context (now : Z).

(** [orgs o JOIN org_members m ON m.org_id = o.id WHERE m.user_id = u] *)
Definition joined (u : string) (d : db) : list (string * org * string) :=
  by_time (omap (λ x : string * string * member,
    if String.eqb x.1.2 u then (λ r, (x.1.1, r, m_role x.2)) <$> orgs d !! x.1.1 else None) (map_to_list (members d))).

Definition slug_taken (slug : string) (d : db) : option string :=
  fst <$> List.find (λ x : string * org, String.eqb (o_slug x.2) slug) (map_to_list (orgs d)).

(** [None]: the database refuses (a constraint). *)
Definition apply {A} (s : stmt A) (d : db) : db * option A :=
  match s with
  | SelOrgs u => (d, Some (joined u d))
  | SelOrg u o => (d, Some (r ← orgs d !! o; m ← members d !! (o, u); Some (r, m_role m)))
  | SelRole o u =>
      match members d !! (o, u) with
      | Some m => (note (GSeen u o (m_role m)) d, Some (Some (m_role m)))
      | None => (d, Some None)
      end
  | SelMembers o =>
      (d, Some (omap (λ x : string * string * member, if String.eqb x.1.1 o then Some (x.1.2, x.2) else None)
                  (map_to_list (members d))))
  | SelOwner o => (d, Some (o_owner <$> orgs d !! o))
  | SelInvite tok => (d, Some (invites d !! tok))
  | SelCurrent u => (d, Some (current d !! u))
  | CountMember o u => (d, Some (match members d !! (o, u) with Some _ => 1 | None => 0 end))
  | CreateTx o slug name u email =>
      match slug_taken slug d, orgs d !! o with
      | None, None =>
          let d := set_orgs (<[o := mkOrg slug name u now]> (orgs d)) d in
          let d := set_members (<[(o, u) := mkMember email "owner" now]> (members d)) d in
          let d := match current d !! u with None => set_current (<[u := o]> (current d)) d | Some _ => d end in
          (note (GCreated u o) d, Some true)
      | _, _ => (d, Some false)
      end
  | UpsertOrg o slug name u =>
      match slug_taken slug d with
      | Some o' =>
          (note (GBySlug u o')
             (set_orgs (alter (λ r, mkOrg (o_slug r) name (o_owner r) (o_created r)) o' (orgs d)) d), Some o')
      | None =>
          match orgs d !! o with
          | Some _ => (d, None)
          | None => (note (GPersonal u o) (set_orgs (<[o := mkOrg slug name u now]> (orgs d)) d), Some o)
          end
      end
  | InsMember o u email role =>
      match orgs d !! o, members d !! (o, u) with
      | Some _, None =>
          if member_role role then (set_members (<[(o, u) := mkMember email role now]> (members d)) d, Some tt) else (d, None)
      | Some _, Some _ => (d, Some tt)
      | None, _ => (d, None)
      end
  | InsCurrent u o =>
      match orgs d !! o, current d !! u with
      | Some _, None => (set_current (<[u := o]> (current d)) d, Some tt)
      | Some _, Some _ => (d, Some tt)
      | None, _ => (d, None)
      end
  | SetCurrent u o =>
      match orgs d !! o with Some _ => (set_current (<[u := o]> (current d)) d, Some tt) | None => (d, None) end
  | InsInvite tok i =>
      match orgs d !! i_org i, invites d !! tok with
      | Some _, None =>
          if invite_role (i_role i)
          then (note (GInvited (i_by i) (i_org i) tok) (set_invites (<[tok := i]> (invites d)) d), Some tt)
          else (d, None)
      | _, _ => (d, None)
      end
  | DelMember o u => (set_members (delete (o, u) (members d)) d, Some tt)
  | AcceptTx o u email role tok =>
      match orgs d !! o with
      | Some _ =>
          if member_role role then
            let joined_at := match members d !! (o, u) with Some m => m_joined m | None => now end in
            let d := set_members (<[(o, u) := mkMember email role joined_at]> (members d)) d in
            let d := set_invites (alter (λ i, mkInvite (i_org i) (i_email i) (i_role i) (i_by i) (i_expires i) true) tok (invites d)) d in
            (note (GAccepted u o tok) d, Some tt)
          else (d, None)
      | None => (d, None)
      end
  | SelCurrentSlug u => (d, Some (o ← current d !! u; r ← orgs d !! o; Some (o_slug r, o)))
  | SelOldestSlug u => (d, Some ((λ x, (o_slug x.1.2, x.1.1)) <$> head (joined u d)))
  | SelSlugFor u o => (d, Some (r ← orgs d !! o; _ ← members d !! (o, u); Some (o_slug r)))
  | SelToken h => (d, Some (tokens d !! h))
  | SelTokens ws => (d, Some (filter (λ t, t_ws t = ws) (map_to_list (tokens d)).*2))
  | InsToken by_ h t =>
      match tokens d !! h with
      | None => (note (GMinted by_ h (t_ws t)) (set_tokens (<[h := t]> (tokens d)) d), Some tt)
      | Some _ => (d, None)
      end
  | DelTokens ws prefix =>
      let hit := filter (λ x : string * token, t_ws x.2 = ws ∧ t_prefix x.2 = prefix) (tokens d) in
      (set_tokens (tokens d ∖ hit) d, Some (Z.of_nat (size hit)))
  | Now => (d, Some now)
  | Load edge key => (d, Some (caches d !! (edge, key)))
  | Store edge key e => (set_caches (<[(edge, key) := e]> (caches d)) d, Some tt)
  | Drop edge key => (set_caches (delete (edge, key) (caches d)) d, Some tt)
  end.

Definition local {A} (s : stmt A) : bool :=
  match s with Now | Load _ _ | Store _ _ _ | Drop _ _ => true | _ => false end.

(** A statement is carried out and answered, is not carried out, or is carried
    out and its answer lost. *)
Inductive outcome := Done | Refused | Lost.

Definition exec {A} (out : outcome) (s : stmt A) (d : db) : db * option A :=
  if local s then apply s d
  else match out with
  | Done => apply s d
  | Refused => (d, None)
  | Lost => ((apply s d).1, None)
  end.
End statements.

(** ** Programs *)

Abbreviation headers := (gmap string string) (only parsing).

Inductive reply :=
  | Code (code : Z)
  | OrgsR (l : list (string * org * string))
  | OrgR (o : string) (r : org) (role : string)
  | MembersR (o : string) (l : list (string * member))
  | MeR (u : string) (cur : option string) (l : list string)
  | TokenR (tok prefix : string)
  | TokensR (l : list token)
  | Forward (h : headers).     (* the request goes on, to a handler that keys on these headers *)

Inductive prog : Type :=
  | Ret (r : reply)
  | Do {A : Type} (s : stmt A) (k : option A → prog).

Declare Scope prog_scope.
Delimit Scope prog_scope with prog.
Notation "x <- s ; k" := (Do s (λ x, k)) (at level 100, s at next level, k at level 200, right associativity) : prog_scope.
Open Scope prog_scope.

(** ** What stays true *)

(** [o] was made for [u]. *)
Definition founded (u o : string) (d : db) : Prop := GCreated u o ∈ log d ∨ GPersonal u o ∈ log d.
(** [u] was made a member of [o]: [o] was made for it, was there under its
    personal slug, or it accepted an invitation. *)
Definition given (u o : string) (d : db) : Prop :=
  founded u o d ∨ GBySlug u o ∈ log d ∨ ∃ tok, GAccepted u o tok ∈ log d.
(** The slugs getMe makes for [u]. *)
Definition personal_slug (s u : string) : Prop := ∃ b, s = b +:+ "-" +:+ String.substring 0 8 u.
Definition slug_of (o s : string) (d : db) : Prop := ∃ r, orgs d !! o = Some r ∧ o_slug r = s.

(** [u] is or was a member of [o], whose slug is [s]. *)
Definition seat (u o s : string) (d : db) : Prop := given u o d ∧ slug_of o s d ∧ safe_slug s ∧ looksLikeUUID u = true.

(** The workspaces of a user: its own id, and the slugs of its organizations. *)
Definition entitled (u ws : string) (d : db) : Prop := ws = u ∨ ∃ o, given u o d ∧ slug_of o ws d.

Definition invited (tok o email role by_ : string) (d : db) : Prop :=
  ∃ i, invites d !! tok = Some i ∧ i_org i = o ∧ i_email i = email ∧ i_role i = role ∧ i_by i = by_.

Definition roleRank (r : string) : Z :=
  if String.eqb r "owner" then 3 else if String.eqb r "admin" then 2 else if String.eqb r "member" then 1 else 0.
(** [roleAllows]: a role that is not in the map ranks 0. *)
Definition roleAllows (have min : string) : bool := roleRank min <=? roleRank have.

Definition seen_admin (u o : string) (d : db) : Prop := ∃ role, GSeen u o role ∈ log d ∧ roleAllows role "admin" = true.

Definition user_key (u : string) : string := "user:" +:+ u.
Definition mem_key (u o : string) : string := "memcheck:" +:+ u +:+ "|" +:+ o.

(** What a cache may say of users with ids of the identity provider's shape. *)
Definition entry_good (key : string) (e : cacheEntry) (d : db) : Prop :=
  e_ok e = true → ∀ u, looksLikeUUID u = true →
  (key = user_key u → ∃ o s, e_val e = s +:+ "|" +:+ o ∧ seat u o s d) ∧
  (∀ o, key = mem_key u o → seat u o (e_val e) d).

(** Later states: what was handed out stays so, organizations keep their slug and
    invitations their terms. *)
Record later (d d' : db) : Prop := {
  l_log : ∀ g, g ∈ log d → g ∈ log d';
  l_slug : ∀ o s, slug_of o s d → slug_of o s d';
  l_inv : ∀ tok o email role by_, invited tok o email role by_ d → invited tok o email role by_ d';
}.
#[export] Instance later_preorder : PreOrder later.
Proof.
  split; [by split|]. intros x y z [] []. split; eauto.
Qed.

Lemma later_given u o d d' : later d d' → given u o d → given u o d'.
Proof. intros [Hl _ _] [[?|?]|[?|[tok ?]]]; [left; left|left; right|right; left|right; right; exists tok]; auto. Qed.
Lemma later_owner u o d d' : later d d' → founded u o d ∨ GBySlug u o ∈ log d → founded u o d' ∨ GBySlug u o ∈ log d'.
Proof. intros [Hl _ _] [[?|?]|?]; [left; left|left; right|right]; auto. Qed.
Lemma later_entitled u ws d d' : later d d' → entitled u ws d → entitled u ws d'.
Proof.
  intros H [->|(o & Hg & Hs)]; [by left|right]. exists o. split; [by eapply later_given|by eapply l_slug].
Qed.
Lemma later_seen u o d d' : later d d' → seen_admin u o d → seen_admin u o d'.
Proof. intros H (r & ? & ?). exists r. split; [by eapply l_log|done]. Qed.
Lemma later_seat u o s d d' : later d d' → seat u o s d → seat u o s d'.
Proof. intros H (? & ? & ? & ?). split_and!; [by eapply later_given|by eapply l_slug|done|done]. Qed.
Lemma later_entry key e d d' : later d d' → entry_good key e d → entry_good key e d'.
Proof.
  intros H He Hok u Hu. destruct (He Hok u Hu) as [H1 H2]. split.
  - intros Hk. destruct (H1 Hk) as (o & s & ? & ?). exists o, s. split; [done|by eapply later_seat].
  - intros o Hk. by eapply later_seat, H2.
Qed.
Create HintDb tenancy.
#[export] Hint Resolve later_given later_seat later_entitled later_seen later_entry l_slug l_inv l_log : tenancy.

(** ** The invariant *)

Record tenancy (d : db) : Prop := {
  t_members : ∀ o u m, members d !! (o, u) = Some m →
    given u o d ∧ member_role (m_role m) = true ∧
    (m_role m = "owner" → founded u o d ∨ GBySlug u o ∈ log d);
  t_current : ∀ u o, current d !! u = Some o → given u o d;
  t_invites : ∀ tok i, invites d !! tok = Some i → GInvited (i_by i) (i_org i) tok ∈ log d ∧ invite_role (i_role i) = true;
  t_invited : ∀ u o tok, GInvited u o tok ∈ log d → seen_admin u o d;
  t_accepted : ∀ u o tok, GAccepted u o tok ∈ log d → ∃ v, GInvited v o tok ∈ log d;
  t_by_slug : ∀ u o, GBySlug u o ∈ log d → ∃ s, slug_of o s d ∧ personal_slug s u;
  t_seen : ∀ u o role, GSeen u o role ∈ log d → given u o d;
  t_given : ∀ u o, given u o d → is_Some (orgs d !! o) ∧ looksLikeUUID u = true;
  t_slugs : ∀ o r, orgs d !! o = Some r → safe_slug (o_slug r);
  t_unique : ∀ o o' s, slug_of o s d → slug_of o' s d → o = o';
  t_tokens : ∀ h t, tokens d !! h = Some t → ∃ u, GMinted u h (t_ws t) ∈ log d;
  t_minted : ∀ u h ws, GMinted u h ws ∈ log d → entitled u ws d ∧ looksLikeUUID u = true;
  t_caches : ∀ edge key e, caches d !! (edge, key) = Some e → entry_good key e d;
}.

(** What a statement asks for. *)
Definition pre {A} (s : stmt A) (d : db) : Prop :=
  match s with
  | CreateTx _ slug _ u _ => safe_slug slug ∧ looksLikeUUID u = true
  | UpsertOrg _ slug _ u => safe_slug slug ∧ looksLikeUUID u = true ∧ personal_slug slug u
  | InsMember o u _ role => role = "owner" ∧ (founded u o d ∨ GBySlug u o ∈ log d)
  | InsCurrent u o | SetCurrent u o => given u o d
  | InsInvite _ i => seen_admin (i_by i) (i_org i) d
  | AcceptTx o u email role tok => (∃ v, invited tok o email role v d) ∧ looksLikeUUID u = true
  | InsToken u _ t => entitled u (t_ws t) d ∧ looksLikeUUID u = true
  | Store _ key e => entry_good key e d
  | _ => True
  end.

(** What its answer says, from then on. *)
Definition post {A} (s : stmt A) : option A → db → Prop :=
  match s with
  | SelOrgs u => λ a d, ∀ l, a = Some l → ∀ x, x ∈ l → given u x.1.1 d
  | SelOrg u o => λ a d, ∀ x, a = Some (Some x) → given u o d
  | SelRole o u => λ a d, ∀ role, a = Some (Some role) → GSeen u o role ∈ log d ∧ given u o d
  | SelInvite tok => λ a d, ∀ i, a = Some (Some i) → invited tok (i_org i) (i_email i) (i_role i) (i_by i) d
  | SelCurrent u => λ a d, ∀ o, a = Some (Some o) → given u o d
  | CountMember o u => λ a d, ∀ n, a = Some n → n ≠ 0 → given u o d
  | UpsertOrg _ _ _ u => λ a d, ∀ o, a = Some o → founded u o d ∨ GBySlug u o ∈ log d
  | SelCurrentSlug u | SelOldestSlug u => λ a d, ∀ x, a = Some (Some x) → seat u x.2 x.1 d
  | SelSlugFor u o => λ a d, ∀ s, a = Some (Some s) → seat u o s d
  | SelToken h => λ a d, ∀ t, a = Some (Some t) → ∃ u, GMinted u h (t_ws t) ∈ log d ∧ entitled u (t_ws t) d ∧ looksLikeUUID u = true
  | Load _ key => λ a d, ∀ e, a = Some (Some e) → entry_good key e d
  | _ => λ _ _, True
  end.

(** [Q]: what the request's end must satisfy. *)
Fixpoint safe (Q : reply → db → Prop) (p : prog) (d : db) : Prop :=
  match p with
  | Ret r => Q r d
  | Do s k => pre s d ∧ ∀ a d', later d d' → post s a d' → safe Q (k a) d'
  end.

Lemma pre_later {A} (s : stmt A) d d' : later d d' → pre s d → pre s d'.
Proof.
  intros H. destruct s; simpl; eauto with tenancy.
  - intros [? Hm]. split; [done|]. by eapply later_owner.
  - intros [(v & ?) ?]. split; [exists v; by eapply l_inv|done].
  - intros [? ?]. eauto with tenancy.
Qed.

Lemma safe_later Q p d d' : (∀ r d d', later d d' → Q r d → Q r d') → later d d' → safe Q p d → safe Q p d'.
Proof.
  intros HQ Hl. destruct p as [r|A s k]; [by apply HQ|]. intros [Hp Hk]. split; [by eapply pre_later|].
  intros a d'' Hl'. apply Hk. by transitivity d'.
Qed.

(** ** Statements keep the invariant *)

Section preservation.
Context (by_time : list (string * org * string) → list (string * org * string)).
Hypothesis Hby_time : ∀ l, by_time l ≡ₚ l.
Context (now : Z).

Lemma joined_spec u d x : x ∈ joined by_time u d → ∃ m, members d !! (x.1.1, u) = Some m ∧ orgs d !! x.1.1 = Some x.1.2 ∧ x.2 = m_role m.
Proof.
  unfold joined. rewrite Hby_time. rewrite list_elem_of_omap. intros ([[o v] m] & Hin & H). cbn in H.
  apply elem_of_map_to_list in Hin. destruct (String.eqb_spec v u) as [->|]; [|done].
  destruct (orgs d !! o) as [r|] eqn:E; [|done]. injection H as <-. exists m. split_and!; done.
Qed.

Lemma slug_taken_Some slug d o : slug_taken slug d = Some o → ∃ r, orgs d !! o = Some r ∧ o_slug r = slug.
Proof.
  unfold slug_taken. destruct (List.find _ _) as [[o' r]|] eqn:E; [|done]. intros [= <-].
  apply List.find_some in E as [Hin%list_elem_of_In Hs]. cbn in Hs. apply String.eqb_eq in Hs.
  exists r. split; [|done]. by apply elem_of_map_to_list.
Qed.

Lemma slug_taken_None slug d o r : slug_taken slug d = None → orgs d !! o = Some r → o_slug r ≠ slug.
Proof.
  unfold slug_taken. destruct (List.find _ _) eqn:E; [done|]. intros _ Hr Hs.
  apply elem_of_map_to_list, list_elem_of_In in Hr. apply (List.find_none _ _ E) in Hr. cbn in Hr.
  by apply String.eqb_neq in Hr.
Qed.

Lemma later_log d d' : orgs d' = orgs d → invites d' = invites d → (∀ g, g ∈ log d → g ∈ log d') → later d d'.
Proof. intros Ho Hi Hl. split; [done|..]; unfold slug_of, invited; by rewrite ?Ho, ?Hi. Qed.

Lemma later_note g d : later d (note g d).
Proof. apply later_log; [done..|]. intros g' ?. by right. Qed.

Lemma slug_of_insert o r d s o' : orgs d !! o = None → slug_of o' s d → slug_of o' s (set_orgs (<[o := r]> (orgs d)) d).
Proof. intros Hn (q & Hq & Hs). exists q. split; [|done]. cbn. rewrite lookup_insert_ne; [done|congruence]. Qed.

Lemma later_orgs x d :
  (∀ o r, orgs d !! o = Some r → ∃ r', x !! o = Some r' ∧ o_slug r' = o_slug r) → later d (set_orgs x d).
Proof. intros H. split; [done| |done]. intros o s (r & Hr & <-). destruct (H o r Hr) as (r' & ? & ?). by exists r'. Qed.

Lemma later_invites x d :
  (∀ tok i, invites d !! tok = Some i → ∃ i', x !! tok = Some i' ∧ i_org i' = i_org i ∧ i_email i' = i_email i ∧
     i_role i' = i_role i ∧ i_by i' = i_by i) → later d (set_invites x d).
Proof.
  intros H. split; [done|done|]. intros tok o email role by_ (i & Hi & <- & <- & <- & <-).
  destruct (H tok i Hi) as (i' & ? & ? & ? & ? & ?). by exists i'.
Qed.

Lemma apply_later {A} (s : stmt A) d : later d (apply by_time now s d).1.
Proof.
  destruct s; cbn [apply]; try reflexivity; try (by apply later_log).
  - destruct (members d !! (o, u)); [apply later_note|reflexivity].
  - destruct (slug_taken slug d); [reflexivity|]. destruct (orgs d !! o) eqn:Eo; [reflexivity|]. cbn [fst].
    etransitivity; [|apply later_note].
    assert (Hl : later d (set_orgs (<[o := mkOrg slug name u now]> (orgs d)) d)).
    { apply later_orgs. intros o' r Hr. exists r. split; [|done]. rewrite lookup_insert_ne; [done|congruence]. }
    destruct (current _ !! u); (etransitivity; [exact Hl|by apply later_log]).
  - destruct (slug_taken slug d) as [o'|] eqn:Es; cbn [fst].
    + etransitivity; [|apply later_note]. apply later_orgs. intros o'' r Hr. rewrite lookup_alter.
      case_decide as Ho; [subst; rewrite Hr; by eexists|by exists r].
    + destruct (orgs d !! o) eqn:Eo; [reflexivity|]. cbn [fst]. etransitivity; [|apply later_note].
      apply later_orgs. intros o' r Hr. exists r. split; [|done]. rewrite lookup_insert_ne; [done|congruence].
  - destruct (orgs d !! o), (members d !! (o, u)); try reflexivity. destruct (member_role role); [by apply later_log|reflexivity].
  - destruct (orgs d !! o), (current d !! u); try reflexivity. by apply later_log.
  - destruct (orgs d !! o); [by apply later_log|reflexivity].
  - destruct (orgs d !! i_org i); [|reflexivity]. destruct (invites d !! tok) eqn:Ei; [reflexivity|].
    destruct (invite_role (i_role i)); [|reflexivity]. cbn [fst]. etransitivity; [|apply later_note].
    apply later_invites. intros t j Hj. exists j. split; [|done]. rewrite lookup_insert_ne; [done|congruence].
  - destruct (orgs d !! o); [|reflexivity]. destruct (member_role role); [|reflexivity]. cbn [fst].
    etransitivity; [|apply later_note]. set (d1 := set_members _ d). transitivity d1; [by apply later_log|].
    apply later_invites. intros t i Hi. rewrite lookup_alter. case_decide; [subst; rewrite Hi; eexists; split_and!; done|by exists i].
  - destruct (tokens d !! h); [reflexivity|]. cbn [fst]. etransitivity; [|apply later_note]. by apply later_log.
Qed.

(** What has to be shown of what a statement adds. *)
Definition grant_ok (g : grant) (d : db) : Prop :=
  match g with
  | GCreated u o | GPersonal u o => is_Some (orgs d !! o) ∧ looksLikeUUID u = true
  | GBySlug u o => (is_Some (orgs d !! o) ∧ looksLikeUUID u = true) ∧ ∃ s, slug_of o s d ∧ personal_slug s u
  | GSeen u o _ => given u o d
  | GInvited u o _ => seen_admin u o d
  | GAccepted u o tok => (is_Some (orgs d !! o) ∧ looksLikeUUID u = true) ∧ ∃ v, GInvited v o tok ∈ log d
  | GMinted u _ ws => entitled u ws d ∧ looksLikeUUID u = true
  end.
Definition member_ok (o u : string) (m : member) (d : db) : Prop :=
  given u o d ∧ member_role (m_role m) = true ∧ (m_role m = "owner" → founded u o d ∨ GBySlug u o ∈ log d).

Record change (d d' : db) : Prop := {
  c_members : ∀ o u m, members d' !! (o, u) = Some m → members d !! (o, u) = Some m ∨ member_ok o u m d';
  c_current : ∀ u o, current d' !! u = Some o → current d !! u = Some o ∨ given u o d';
  c_invites : ∀ tok i, invites d' !! tok = Some i →
    (∃ j, invites d !! tok = Some j ∧ i_by j = i_by i ∧ i_org j = i_org i ∧ i_role j = i_role i) ∨
    GInvited (i_by i) (i_org i) tok ∈ log d' ∧ invite_role (i_role i) = true;
  c_log : ∀ g, g ∈ log d' → g ∈ log d ∨ grant_ok g d';
  c_orgs : ∀ o r, orgs d' !! o = Some r →
    (∃ q, orgs d !! o = Some q ∧ o_slug q = o_slug r) ∨
    safe_slug (o_slug r) ∧ ∀ o', slug_of o' (o_slug r) d' → o' = o;
  c_tokens : ∀ h t, tokens d' !! h = Some t → tokens d !! h = Some t ∨ ∃ u, GMinted u h (t_ws t) ∈ log d';
  c_caches : ∀ edge key e, caches d' !! (edge, key) = Some e → caches d !! (edge, key) = Some e ∨ entry_good key e d';
}.

Lemma tenancy_change d d' : tenancy d → later d d' → change d d' → tenancy d'.
Proof.
  intros H Hl C. pose proof (l_log _ _ Hl) as HL.
  assert (Hsome : ∀ o, is_Some (orgs d !! o) → is_Some (orgs d' !! o)).
  { intros o [r Hr]. destruct (l_slug _ _ Hl o (o_slug r)) as (q & Hq & _); [by exists r|by exists q]. }
  assert (Hg : ∀ u o, given u o d' → is_Some (orgs d' !! o) ∧ looksLikeUUID u = true).
  { intros u o [[Hi|Hi]|[Hi|[tok Hi]]]; (destruct (c_log _ _ C _ Hi) as [Ho|Hok]; [destruct (t_given _ H u o); [|split; [by apply Hsome|done]]|]).
    - left; by left.
    - exact Hok.
    - left; by right.
    - exact Hok.
    - right; by left.
    - apply Hok.
    - right; right; by exists tok.
    - apply Hok. }
  split.
  - intros o u m Hm. destruct (c_members _ _ C _ _ _ Hm) as [Ho|Ho]; [|exact Ho].
    destruct (t_members _ H _ _ _ Ho) as (? & ? & Hown). split_and!; eauto with tenancy. intros E. by eapply later_owner, Hown.
  - intros u o Hc. destruct (c_current _ _ C _ _ Hc) as [Ho|Ho]; [|exact Ho]. apply (t_current _ H) in Ho. eauto with tenancy.
  - intros tok i Hi. destruct (c_invites _ _ C _ _ Hi) as [(j & Hj & E1 & E2 & E3)|Ho]; [|exact Ho].
    destruct (t_invites _ H _ _ Hj) as [? ?]. rewrite <- E1, <- E2, <- E3. eauto.
  - intros u o tok Hi. destruct (c_log _ _ C _ Hi) as [Ho|Ho]; [|exact Ho]. apply (t_invited _ H) in Ho. eauto with tenancy.
  - intros u o tok Hi. destruct (c_log _ _ C _ Hi) as [Ho|Ho]; [|apply Ho]. destruct (t_accepted _ H _ _ _ Ho) as [v ?]. exists v. auto.
  - intros u o Hi. destruct (c_log _ _ C _ Hi) as [Ho|Ho]; [|apply Ho]. destruct (t_by_slug _ H _ _ Ho) as (s & ? & ?). exists s. eauto with tenancy.
  - intros u o role Hi. destruct (c_log _ _ C _ Hi) as [Ho|Ho]; [|exact Ho]. apply (t_seen _ H) in Ho. eauto with tenancy.
  - exact Hg.
  - intros o r Hr. destruct (c_orgs _ _ C _ _ Hr) as [(q & Hq & <-)|[? _]]; [by apply (t_slugs _ H o q)|done].
  - intros o o' s (r & Hr & Hs) (r' & Hr' & Hs'). subst s.
    destruct (c_orgs _ _ C _ _ Hr) as [(q & Hq & E)|[_ Hu]]; [|symmetry; apply Hu; by exists r'].
    destruct (c_orgs _ _ C _ _ Hr') as [(q' & Hq' & E')|[_ Hu']]; [|apply Hu'; exists r; by rewrite Hs'].
    apply (t_unique _ H o o' (o_slug q)); [by exists q|exists q'; split; [done|congruence]].
  - intros h t Ht. destruct (c_tokens _ _ C _ _ Ht) as [Ho|Ho]; [|exact Ho]. destruct (t_tokens _ H _ _ Ho) as [u ?]. exists u. auto.
  - intros u h ws Hi. destruct (c_log _ _ C _ Hi) as [Ho|Ho]; [|exact Ho]. apply (t_minted _ H) in Ho as [? ?]. eauto with tenancy.
  - intros edge key e Hc. destruct (c_caches _ _ C _ _ _ Hc) as [Ho|Ho]; [|exact Ho]. apply (t_caches _ H) in Ho. eauto with tenancy.
Qed.

Lemma change_refl d : change d d.
Proof. split; try (by left). - intros tok i Hi. left. by exists i. - intros o r Hr. left. by exists r. Qed.

(** The cases where only the log grows. *)
Lemma change_note g d : grant_ok g (note g d) → change d (note g d).
Proof.
  intros Hg. split; try (by left).
  - intros tok i Hi. left. by exists i.
  - intros g' [->|?]%elem_of_cons; [by right|by left].
  - intros o r Hr. left. by exists r.
Qed.

Ltac same_parts :=
  lazymatch goal with
  | |- ∀ o u m, _ → _ ∨ member_ok _ _ _ _ => by left
  | |- ∀ u o, _ → _ ∨ given _ _ _ => by left
  | |- ∀ tok i, _ → _ ∨ GInvited _ _ _ ∈ _ ∧ _ => let Hi := fresh in intros ? i Hi; left; by exists i
  | |- ∀ g, _ → _ ∨ grant_ok _ _ => by left
  | |- ∀ o r, _ → _ ∨ safe_slug _ ∧ _ => let Hr := fresh in intros ? r Hr; left; by exists r
  | |- ∀ h t, _ → _ ∨ (∃ u, _) => by left
  | |- ∀ edge key e, _ → _ ∨ entry_good _ _ _ => by left
  end.

Lemma apply_create o slug name u email d :
  safe_slug slug → looksLikeUUID u = true → change d (apply by_time now (CreateTx o slug name u email) d).1.
Proof.
  intros Hs Hu. cbn [apply]. destruct (slug_taken slug d) eqn:Es; [apply change_refl|].
  destruct (orgs d !! o) eqn:Eo; [apply change_refl|]. cbn [fst].
  set (d1 := set_orgs _ d). set (d2 := set_members _ d1).
  set (d3 := match current d2 !! u with None => _ | Some _ => d2 end).
  assert (E3 : orgs d3 = orgs d1 ∧ members d3 = members d2 ∧ invites d3 = invites d ∧ log d3 = log d ∧ tokens d3 = tokens d ∧ caches d3 = caches d)
    by (unfold d3; by destruct (current d2 !! u)).
  destruct E3 as (E1 & E2 & E4 & E5 & E6 & E7).
  assert (Hg : given u o (note (GCreated u o) d3)) by (left; left; left).
  assert (Ho : orgs d1 !! o = Some (mkOrg slug name u now)) by (cbn; by rewrite lookup_insert_eq).
  split; cbn [orgs members invites current tokens caches log note].
  - intros o' u' m. rewrite E2. cbn. rewrite lookup_insert. case_decide as Hk; [|by left]. intros [= <-]. injection Hk as <- <-.
    right. split_and!; [exact Hg|done|]. intros _. left. left. left.
  - intros u' o'. unfold d3. destruct (current d2 !! u) eqn:Ec; [by left|]. cbn. rewrite lookup_insert. case_decide; [|by left].
    intros [= <-]. subst. by right.
  - rewrite E4. same_parts.
  - intros g. rewrite E5. intros [->|?]%elem_of_cons; [|by left]. right. split; [|done]. cbn. rewrite E1, Ho. by eexists.
  - intros o' r. rewrite E1. cbn. rewrite lookup_insert. case_decide as Hk; [|by left; exists r].
    intros [= <-]. subst o'. right. split; [done|]. intros o' (q & Hq & Hqs). cbn in Hq. rewrite E1 in Hq. cbn in Hq.
    rewrite lookup_insert in Hq. case_decide; [done|]. by destruct (slug_taken_None _ _ _ _ Es Hq).
  - rewrite E6. same_parts.
  - rewrite E7. same_parts.
Qed.

Lemma apply_upsert o slug name u d : safe_slug slug → looksLikeUUID u = true → personal_slug slug u → change d (apply by_time now (UpsertOrg o slug name u) d).1.
Proof.
  intros Hs Hu Hps. cbn [apply]. destruct (slug_taken slug d) as [o'|] eqn:Es; cbn [fst].
  - apply slug_taken_Some in Es as (q & Hq & Hqs).
    split; cbn [orgs members invites current tokens caches log note set_orgs]; try same_parts.
    + intros g [->|?]%elem_of_cons; [|by left]. right.
      assert (Ha : alter (λ r, mkOrg (o_slug r) name (o_owner r) (o_created r)) o' (orgs d) !! o' =
        Some (mkOrg (o_slug q) name (o_owner q) (o_created q))) by (by rewrite lookup_alter_eq, Hq).
      split; [split; [eexists; exact Ha|done]|]. exists slug. split; [eexists; split; [exact Ha|exact Hqs]|done].
    + intros o'' r. rewrite lookup_alter. case_decide as Hk; [|by left; exists r]. subst o''. rewrite Hq. intros [= <-].
      left. by exists q.
  - destruct (orgs d !! o) eqn:Eo; [apply change_refl|]. cbn [fst].
    split; cbn [orgs members invites current tokens caches log note set_orgs]; try same_parts.
    + intros g [->|?]%elem_of_cons; [|by left]. right. split; [|done]. cbn. rewrite lookup_insert_eq. by eexists.
    + intros o' r. rewrite lookup_insert. case_decide as Hk; [|by left; exists r]. intros [= <-]. subst o'. right.
      split; [done|]. intros o' (q & Hq & Hqs). cbn in Hq. rewrite lookup_insert in Hq. case_decide; [done|].
      by destruct (slug_taken_None _ _ _ _ Es Hq).
Qed.

Lemma apply_accept o u email role tok d :
  tenancy d → (∃ v, invited tok o email role v d) → looksLikeUUID u = true →
  change d (apply by_time now (AcceptTx o u email role tok) d).1.
Proof.
  intros H (v & i & Hi & <- & <- & <- & <-) Hu. cbn [apply]. destruct (orgs d !! i_org i) eqn:Eo; [|apply change_refl].
  destruct (member_role (i_role i)) eqn:Er; [|apply change_refl]. cbn [fst].
  destruct (t_invites _ H _ _ Hi) as [Hg Hr].
  split; cbn [orgs members invites current tokens caches log note set_members set_invites]; try same_parts.
  - intros o' u' m. rewrite lookup_insert. case_decide as Hk; [|by left]. intros [= <-]. injection Hk as <- <-. right.
    split_and!; [right; right; exists tok; left|done|]. cbn. intros E. rewrite E in Hr. done.
  - intros tok' j. rewrite lookup_alter. case_decide as Hk; [subst|left; by exists j]. rewrite Hi. intros [= <-].
    left. by exists i.
  - intros g [->|?]%elem_of_cons; [|by left]. right. cbn. split; [split; [by rewrite Eo|done]|]. exists (i_by i). by right.
Qed.

Lemma apply_tenancy {A} (s : stmt A) d : tenancy d → pre s d → tenancy (apply by_time now s d).1.
Proof.
  intros H Hp. apply (tenancy_change d); [done|apply apply_later|].
  destruct s; cbn [pre] in Hp; try (apply change_refl).
  - cbn [apply]. destruct (members d !! (o, u)) eqn:Em; [|apply change_refl]. apply change_note. cbn.
    apply (later_given u o d); [apply later_note|]. by apply (t_members _ H o u m).
  - destruct Hp. by apply apply_create.
  - destruct Hp as (? & ? & ?). by apply apply_upsert.
  - cbn [apply]. destruct (orgs d !! o), (members d !! (o, u)); try apply change_refl. destruct Hp as [-> Hg]. cbn.
    split; cbn [orgs members invites current tokens caches log set_members]; try same_parts.
    intros o' u' m. rewrite lookup_insert. case_decide as Hk; [|by left]. intros [= <-]. injection Hk as <- <-. right.
    split_and!; [destruct Hg; [by left|right; by left]|done|done].
  - cbn [apply]. destruct (orgs d !! o), (current d !! u); try apply change_refl.
    split; cbn [orgs members invites current tokens caches log set_current fst]; try same_parts.
    intros u' o'. rewrite lookup_insert. case_decide; [|by left]. intros [= <-]. subst. by right.
  - cbn [apply]. destruct (orgs d !! o); [|apply change_refl].
    split; cbn [orgs members invites current tokens caches log set_current fst]; try same_parts.
    intros u' o'. rewrite lookup_insert. case_decide; [|by left]. intros [= <-]. subst. by right.
  - cbn [apply]. destruct (orgs d !! i_org i); [|apply change_refl]. destruct (invites d !! tok); [apply change_refl|].
    destruct (invite_role (i_role i)) eqn:Er; [|apply change_refl].
    split; cbn [orgs members invites current tokens caches log set_invites note fst]; try same_parts.
    + intros tok' j. rewrite lookup_insert. case_decide; [|intros Hj; left; by exists j]. intros [= <-]. subst. right.
      split; [left|done].
    + intros g [->|?]%elem_of_cons; [|by left]. right. cbn. destruct Hp as (role & ? & ?). exists role. split; [by right|done].
  - split; cbn [apply orgs members invites current tokens caches log set_members fst]; try same_parts.
    intros o' u' m. rewrite lookup_delete_Some. intros [_ ?]. by left.
  - destruct Hp. by apply apply_accept.
  - cbn [apply]. destruct (tokens d !! h); [apply change_refl|].
    split; cbn [orgs members invites current tokens caches log set_tokens note fst]; try same_parts.
    + intros g [->|?]%elem_of_cons; [|by left]. right. cbn. destruct Hp as [Hp ?]. split; [|done]. revert Hp. apply later_entitled.
      etransitivity; [|apply later_note]. by apply later_log.
    + intros h' t'. rewrite lookup_insert. case_decide; [|by left]. intros [= <-]. subst. right. exists by_. left.
  - split; cbn [apply orgs members invites current tokens caches log set_tokens fst]; try same_parts.
    intros h t. rewrite lookup_difference_Some. intros [? _]. by left.
  - split; cbn [apply orgs members invites current tokens caches log set_caches fst]; try same_parts.
    intros edge' key' e'. rewrite lookup_insert. case_decide as Hk; [|by left]. intros [= <-]. injection Hk as <- <-. by right.
  - split; cbn [apply orgs members invites current tokens caches log set_caches fst]; try same_parts.
    intros edge' key' e'. rewrite lookup_delete_Some. intros [_ ?]. by left.
Qed.

Lemma apply_post {A} (s : stmt A) d : tenancy d → post s (apply by_time now s d).2 (apply by_time now s d).1.
Proof.
  intros H. destruct s; cbn [post]; try done.
  - intros l [= <-] x (m & Hm & _)%joined_spec. by apply (t_members _ H _ _ m).
  - intros x. cbn [apply snd fst]. destruct (orgs d !! o) as [r|]; [|done]. destruct (members d !! (o, u)) as [m|] eqn:Em; [|done].
    intros _. by apply (t_members _ H _ _ m).
  - cbn [apply]. destruct (members d !! (o, u)) as [m|] eqn:Em; [|done]. intros role [= <-]. split; [left|].
    apply (later_given u o d); [apply later_note|]. by apply (t_members _ H _ _ m).
  - intros i [= Hi]. by exists i.
  - intros o [= Hc]. by apply (t_current _ H).
  - intros n [= <-]. cbn [apply fst]. destruct (members d !! (o, u)) as [m|] eqn:Em; [|done]. intros _. by apply (t_members _ H _ _ m).
  - cbn [apply]. destruct (slug_taken slug d) as [o'|]; [intros ? [= <-]; right; left|].
    destruct (orgs d !! o); [done|]. intros ? [= <-]. left; right; left.
  - intros x. cbn [apply snd fst]. destruct (current d !! u) as [o|] eqn:Ec; [|done]. cbn. destruct (orgs d !! o) as [r|] eqn:Eo; [|done].
    intros [= <-]. apply (t_current _ H) in Ec. split_and!; [done|by exists r|by apply (t_slugs _ H o)|by eapply t_given].
  - intros x. cbn [apply snd fst]. destruct (joined by_time u d) as [|y l] eqn:Ej; [done|]. intros [= <-].
    assert (Hy : y ∈ joined by_time u d) by (rewrite Ej; left). apply joined_spec in Hy as (m & Hm & Ho & _).
    apply (t_members _ H _ _ m) in Hm as [Hm _]. split_and!; [done|by exists y.1.2|by apply (t_slugs _ H y.1.1)|by eapply t_given].
  - intros s. cbn [apply snd fst]. destruct (orgs d !! o) as [r|] eqn:Eo; [|done]. destruct (members d !! (o, u)) as [m|] eqn:Em; [|done].
    intros [= <-]. apply (t_members _ H _ _ m) in Em as [Em _]. split_and!; [done|by exists r|by apply (t_slugs _ H o)|by eapply t_given].
  - intros t [= Ht]. destruct (t_tokens _ H _ _ Ht) as [u Hu]. exists u. split; [done|]. by apply (t_minted _ H _ h).
  - intros e [= He]. by apply (t_caches _ H edge).
Qed.

(** A statement, however it ends. *)
Lemma stmt_sound {A} out (s : stmt A) d :
  tenancy d → pre s d →
  let '(d', a) := exec by_time now out s d in tenancy d' ∧ later d d' ∧ post s a d'.
Proof.
  intros H Hp.
  assert (Hn : ∀ d', post s None d') by (intros d'; destruct s; cbn [post]; done).
  assert (Ha : tenancy (apply by_time now s d).1 ∧ later d (apply by_time now s d).1 ∧
               post s (apply by_time now s d).2 (apply by_time now s d).1).
  { split_and!; [by apply apply_tenancy|apply apply_later|by apply apply_post]. }
  unfold exec. destruct (local s); [by destruct (apply by_time now s d)|].
  destruct out; [by destruct (apply by_time now s d)|done|]. split_and!; [apply Ha|apply Ha|apply Hn].
Qed.
End preservation.

Lemma empty_tenancy : tenancy empty_db.
Proof.
  split; cbn; try done.
  - intros u o tok ?%not_elem_of_nil. done.
  - intros u o tok ?%not_elem_of_nil. done.
  - intros u o ?%not_elem_of_nil. done.
  - intros u o role ?%not_elem_of_nil. done.
  - intros u o [[?%not_elem_of_nil|?%not_elem_of_nil]|[?%not_elem_of_nil|[tok ?%not_elem_of_nil]]]; done.
  - intros o o' s (r & ? & _). done.
  - intros u h ws ?%not_elem_of_nil. done.
Qed.
