(* ===== verification/Orgs.v ===== *)
(** The organization handlers of api/cmd/api/orgs.go, and the token handlers and
    store of auth.go and auth_pg.go, as programs over [OrgDb]'s statements. *)

From S2P Require Import Prelude GoStrings Slugs OrgDb.

Open Scope string_scope.
Open Scope list_scope.
Open Scope Z_scope.
Open Scope prog_scope.
#[local] Set Warnings "-clear-no-such-hyp".

(** [r.Header.Get]: "" when absent. *)
Definition hget (k : string) (h : gmap string string) : string := default "" (h !! k).

Definition WORKSPACE : string := "X-Fcs-Workspace".
Definition METHOD : string := "X-Pandastack-Auth-Method".
Definition USER_ID : string := "X-Pandastack-User-Id".
Definition EMAIL : string := "X-Pandastack-User-Email".
Definition ORG : string := "X-Pandastack-Org".
Definition ORG_ID : string := "X-Pandastack-Org-Id".
Definition STUB_WS : string := "X-Pandastack-Stub-Workspace".

Definition person (method : string) : bool := String.eqb method "jwt" || String.eqb method "stub".

Definition userIDFromReq (h : headers) : string :=
  if negb (person (hget METHOD h)) then "" else TrimSpace (hget USER_ID h).

(** The id of a listed organization. *)
Definition org_id (x : string * org * string) : string := x.1.1.

Section handlers.
Context (ToLower : string → string).

Definition listOrgs (h : headers) : prog :=
  let uid := userIDFromReq h in
  if String.eqb uid "" then Ret (Code 401)
  else a <- SelOrgs uid; match a with None => Ret (Code 500) | Some l => Ret (OrgsR l) end.

Definition getOrg (id : string) (h : headers) : prog :=
  let uid := userIDFromReq h in
  if String.eqb uid "" then Ret (Code 401)
  else a <- SelOrg uid id;
    match a with
    | None => Ret (Code 500)
    | Some None => Ret (Code 404)
    | Some (Some (r, role)) => Ret (OrgR id r role)
    end.

(** [body]: name and slug, or no JSON.  [id] and [rnd] are drawn at random. *)
Definition createOrg (id rnd : string) (body : option (string * string)) (h : headers) : prog :=
  let uid := userIDFromReq h in
  if String.eqb uid "" then Ret (Code 401)
  else match body with
  | None => Ret (Code 400)
  | Some (name, slug) =>
      let name := TrimSpace name in
      if String.eqb name "" then Ret (Code 400)
      else
        let slug := TrimSpace slug in
        let slug := if String.eqb slug "" then slugFromName rnd name else slug in
        if negb (isValidOrgSlug slug) || isReservedOrgSlug ToLower slug then Ret (Code 400)
        else a <- CreateTx id slug name uid (TrimSpace (hget EMAIL h));
          match a with
          | None => Ret (Code 500)
          | Some false => Ret (Code 409)
          | Some true => Ret (Code 201)
          end
  end.

Definition requireRole (orgID minRole : string) (h : headers) (k : string → prog) : prog :=
  let uid := userIDFromReq h in
  if String.eqb uid "" then Ret (Code 401)
  else a <- SelRole orgID uid;
    match a with
    | None => Ret (Code 500)
    | Some None => Ret (Code 404)
    | Some (Some role) => if negb (roleAllows role minRole) then Ret (Code 403) else k uid
    end.

Definition listMembers (orgID : string) (h : headers) : prog :=
  requireRole orgID "member" h (λ _,
    a <- SelMembers orgID; match a with None => Ret (Code 500) | Some l => Ret (MembersR orgID l) end).

Definition invite_life : Z := 7 * 24 * 3600 * 10 ^ 9.

(** [body]: e-mail and role.  [tok]: randomToken(24). *)
Definition inviteMember (orgID tok : string) (body : option (string * string)) (h : headers) : prog :=
  requireRole orgID "admin" h (λ uid,
    match body with
    | None => Ret (Code 400)
    | Some (email, role) =>
        let email := ToLower (TrimSpace email) in
        if String.eqb email "" then Ret (Code 400)
        else
          let role := if String.eqb role "" then "member" else role in
          if negb (String.eqb role "member") && negb (String.eqb role "admin") then Ret (Code 400)
          else t <- Now;
            a <- InsInvite tok (mkInvite orgID email role uid (default 0 t + invite_life) false);
            match a with None => Ret (Code 500) | Some _ => Ret (Code 201) end
    end).

(** A failed query leaves the variable it scans into as it was. *)
Definition scanned (a : option (option string)) : string := match a with Some (Some s) => s | _ => "" end.

Definition removeMember (orgID target : string) (h : headers) : prog :=
  requireRole orgID "admin" h (λ uid,
    if String.eqb target "" then Ret (Code 400)
    else a <- SelOwner orgID;
      if match a with Some (Some owner) => String.eqb target owner | _ => false end then Ret (Code 400)
      else t <- SelRole orgID target;
        r <- SelRole orgID uid;
        if String.eqb (scanned r) "admin" && (String.eqb (scanned t) "admin" || String.eqb (scanned t) "owner")
        then Ret (Code 403)
        else b <- DelMember orgID target; match b with None => Ret (Code 500) | Some _ => Ret (Code 204) end).

Definition acceptInvite (tok : string) (h : headers) : prog :=
  let uid := userIDFromReq h in
  if String.eqb uid "" then Ret (Code 401)
  else a <- SelInvite tok;
    match a with
    | None => Ret (Code 500)
    | Some None => Ret (Code 404)
    | Some (Some i) =>
        if i_accepted i then Ret (Code 410)
        else t <- Now;
          if i_expires i <? default 0 t then Ret (Code 410)
          else
            let caller := ToLower (TrimSpace (hget EMAIL h)) in
            if negb (String.eqb caller "") && negb (String.eqb caller (i_email i)) then Ret (Code 403)
            else b <- AcceptTx (i_org i) uid (i_email i) (i_role i) tok;
              match b with None => Ret (Code 500) | Some _ => Ret (Code 200) end
    end.

(** The end of getMe: [out] is the list of the caller's organizations. *)
Definition pick_current (uid : string) (out : list string) : prog :=
  a <- SelCurrent uid;
  let cur := scanned a in
  let answer (cur : string) := Ret (MeR uid (List.find (String.eqb cur) out) out) in
  match out with
  | o :: _ => if String.eqb cur "" then _ <- InsCurrent uid o; answer o else answer cur
  | [] => answer cur
  end.

Definition at_sign : Ascii.ascii := Ascii.ascii_of_nat 64.

(** The part of an e-mail address before its first '@', if that is not its start. *)
Definition personal_name (email : string) : string :=
  match String.index 0 "@" email with
  | Some (S n) => String.substring 0 (S n) email
  | _ => "Personal"
  end.

Definition getMe (id rnd : string) (h : headers) : prog :=
  let uid := userIDFromReq h in
  if String.eqb uid "" then Ret (MeR (TrimSpace (hget USER_ID h)) None [])
  else
    let email := TrimSpace (hget EMAIL h) in
    a <- SelOrgs uid;
    match a with
    | None => Ret (Code 500)
    | Some [] =>
        let name := personal_name email in
        if (String.length uid <? 8)%nat then Ret (Code 500)  (* uid[:8] panics *)
        else
          let slug := slugFromName rnd name +:+ "-" +:+ String.substring 0 8 uid in
          b <- UpsertOrg id slug name uid;
          match b with
          | None => pick_current uid []
          | Some o =>
              _ <- InsMember o uid email "owner";
              _ <- InsCurrent uid o;
              pick_current uid [o]
          end
    | Some l => pick_current uid (map org_id l)
    end.

Definition setCurrentOrg (body : option string) (h : headers) : prog :=
  let uid := userIDFromReq h in
  if String.eqb uid "" then Ret (Code 401)
  else match body with
  | None => Ret (Code 400)
  | Some o =>
      a <- CountMember o uid;
      if default 0 a =? 0 then Ret (Code 403)
      else b <- SetCurrent uid o; match b with None => Ret (Code 500) | Some _ => Ret (Code 200) end
  end.

(** ** API tokens: the handlers, over the Postgres store *)

(** What the middleware left in the request's context. *)
Record context := mkCtx { ctxUserID : string; ctxAuthMethod : string }.

Definition Prefix (tok : string) : string :=
  if has_prefix "pds_" tok then "pds_" +:+ String.substring 0 8 (str_drop 4 tok) else String.substring 0 8 tok.

(** [hashToken] *)
Context (hashToken : string → string).

Definition jwtOnly (c : context) (k : prog) : prog := if person (ctxAuthMethod c) then k else Ret (Code 401).

Definition tokenWorkspace (c : context) (h : headers) : string :=
  let ws := TrimSpace (hget WORKSPACE h) in if String.eqb ws "" then ctxUserID c else ws.

(** [rnd]: 16 random bytes in hexadecimal. *)
Definition createToken (rnd label : string) (c : context) (h : headers) : prog :=
  jwtOnly c
    (let ws := tokenWorkspace c h in
     if String.eqb (TrimSpace ws) "" then Ret (Code 500)
     else
       let tok := "pds_" +:+ rnd in
       t <- Now;
       a <- InsToken (ctxUserID c) (hashToken tok) (mkToken (Prefix tok) ws (TrimSpace label) (default 0 t));
       match a with None => Ret (Code 500) | Some _ => Ret (TokenR tok (Prefix tok)) end).

Definition listTokens (c : context) (h : headers) : prog :=
  jwtOnly c (a <- SelTokens (tokenWorkspace c h); Ret (TokensR (default [] a))).

Definition revokeToken (prefix : string) (c : context) (h : headers) : prog :=
  jwtOnly c
    (a <- DelTokens (tokenWorkspace c h) prefix;
     match a with Some n => if 0 <? n then Ret (Code 204) else Ret (Code 404) | None => Ret (Code 404) end).

Definition LookupByToken (tok : string) (k : option token → prog) : prog :=
  if String.eqb (TrimSpace tok) "" then k None
  else a <- SelToken (hashToken tok); k match a with Some t => t | None => None end.

(** ** The routes *)

Inductive op :=
  | OListOrgs | OGetOrg (id : string) | OCreateOrg (id rnd : string) (body : option (string * string))
  | OListMembers (org : string) | OInvite (org tok : string) (body : option (string * string))
  | ORemove (org target : string) | OAccept (tok : string) | OMe (id rnd : string) | OSetCurrent (body : option string)
  | OCreateToken (rnd label : string) | OListTokens | ORevokeToken (prefix : string)
  | OForward.    (* every other route *)

Definition handle (o : op) (c : context) (h : headers) : prog :=
  match o with
  | OListOrgs => listOrgs h
  | OGetOrg id => getOrg id h
  | OCreateOrg id rnd body => createOrg id rnd body h
  | OListMembers org => listMembers org h
  | OInvite org tok body => inviteMember org tok body h
  | ORemove org target => removeMember org target h
  | OAccept tok => acceptInvite tok h
  | OMe id rnd => getMe id rnd h
  | OSetCurrent body => setCurrentOrg body h
  | OCreateToken rnd label => createToken rnd label c h
  | OListTokens => listTokens c h
  | ORevokeToken prefix => revokeToken prefix c h
  | OForward => Ret (Forward h)
  end.
End handlers.

(** ** The handlers are safe *)

(** What a reply may show to the user [u]. *)
Definition shows (u : string) (r : reply) (d : db) : Prop :=
  match r with
  | OrgsR l => ∀ x, x ∈ l → given u (org_id x) d
  | OrgR o _ _ => given u o d
  | MembersR o _ => given u o d
  | MeR v _ l => v = u ∧ ∀ o, o ∈ l → given u o d
  | _ => True
  end.

Lemma shows_later u r d d' : later d d' → shows u r d → shows u r d'.
Proof. intros H. destruct r; simpl; eauto with tenancy. intros [-> ?]. eauto with tenancy. Qed.

Lemma uuid_from_hex n i s :
  uuid_from i s = true → 0 ≤ i → i + Z.of_nat n ≤ 8 → all_chars is_hex (String.substring 0 n s) = true.
Proof.
  revert i s. induction n as [|n IH]; intros i s Hu Hi Hn; [by destruct s|]. destruct s as [|c s]; [done|].
  cbn [uuid_from] in Hu. replace ((i =? 8) || (i =? 13) || (i =? 18) || (i =? 23)) with false in Hu by lia.
  apply andb_true_iff in Hu as [Hc Hu]. cbn [String.substring all_chars]. rewrite Hc. apply (IH (i + 1)); [done|lia..].
Qed.

Lemma personal_name_slug rnd email uid :
  all_chars is_hex rnd = true → looksLikeUUID uid = true →
  safe_slug (slugFromName rnd (personal_name email) +:+ "-" +:+ String.substring 0 8 uid).
Proof.
  intros Hr Hu. apply personal_slug_safe; [by apply slugFromName_chars|..].
  - unfold looksLikeUUID in Hu. apply andb_true_iff in Hu as [_ Hu]. by apply (uuid_from_hex 8 0).
  - unfold looksLikeUUID in Hu. apply andb_true_iff in Hu as [Hl _].
    do 8 (destruct uid as [|? uid]; [done|]). by destruct uid.
Qed.

Section safety.
Context (ToLower : string → string) (hashToken : string → string).
Hypothesis HLower : ∀ s, all_chars slug_char s = true → ToLower s = s.
Context (Q : reply → db → Prop).
Context (h : headers) (u : string).

(** The request is [u]'s: its user id header is [u], of the identity provider's
    shape. *)
Hypothesis Hmethod : person (hget METHOD h) = true.
Hypothesis Huser : hget USER_ID h = u.
Hypothesis Huuid : looksLikeUUID u = true.
Hypothesis HQ : ∀ r d, shows u r d → (∀ h', r ≠ Forward h') → Q r d.

Lemma uuid_chars s i : uuid_from i s = true → all_chars slug_char s = true.
Proof.
  revert i. induction s as [|c s IH]; intros i; [done|]. cbn [uuid_from all_chars]. unfold slug_char at 1, is_hex, is_alnum, is_lower.
  destruct (_ || _); intros [Hc Hs]%andb_true_iff; rewrite (IH _ Hs), andb_true_r; destruct (is_digit c), (is_dash c); simpl in *; lia.
Qed.

Lemma uuid_trim s : looksLikeUUID s = true → TrimSpace s = s.
Proof.
  intros [_ Hs]%andb_true_iff. apply (TrimSpace_all slug_char); [apply slug_char_range|by eapply uuid_chars].
Qed.

Lemma uuid_nonempty s : looksLikeUUID s = true → String.eqb s "" = false.
Proof. by destruct s. Qed.

Lemma user_is_u : userIDFromReq h = u.
Proof. unfold userIDFromReq. rewrite Hmethod, Huser. by apply uuid_trim. Qed.

Ltac enter := rewrite user_is_u, uuid_nonempty by done.
Ltac finish := apply HQ; [|done].
Ltac statement := split; [try exact I|intros ans e He1 Hans1].

Lemma requireRole_safe o minRole k d :
  (∀ d', (∃ role, GSeen u o role ∈ log d' ∧ roleAllows role minRole = true) → given u o d' → safe Q (k u) d') →
  safe Q (requireRole o minRole h k) d.
Proof.
  intros Hk. unfold requireRole. cbv zeta. enter. statement. destruct ans as [[role|]|]; [|finish; exact I..].
  destruct (roleAllows role minRole) eqn:E; [|finish; exact I]. destruct (Hans1 role eq_refl). apply Hk; [by exists role|done].
Qed.

Lemma pick_current_safe out d : (∀ o, o ∈ out → given u o d) → safe Q (pick_current u out) d.
Proof.
  intros Ho.
  assert (Hans : ∀ cur d', later d d' → Q (MeR u cur out) d').
  { intros cur d' Hl. finish. split; [done|]. intros o Hi. eapply later_given; [exact Hl|by apply Ho]. }
  unfold pick_current. statement. destruct out as [|o out]; [by apply Hans|].
  destruct (String.eqb _ _); [|by apply Hans]. split.
  - cbn. eapply later_given; [eassumption|]. apply Ho. left.
  - intros ? d'' ? _. apply Hans. by transitivity e.
Qed.

Lemma getMe_safe id rnd d : all_chars is_hex rnd = true → safe Q (getMe id rnd h) d.
Proof.
  intros Hr. unfold getMe. cbv zeta. enter. statement. destruct ans as [[|x l]|]; [| |finish; exact I].
  - destruct (Nat.ltb_spec (String.length u) 8); [finish; exact I|]. split; [split_and!; [by apply personal_name_slug|done|by eexists]|].
    intros a d1 H1 Hp. destruct a as [o|]; [|apply pick_current_safe; intros ? ?%not_elem_of_nil; done].
    specialize (Hp o eq_refl). cbn [safe]. split; [by cbn|]. intros ? d2 H2 _. split.
    + cbn. destruct (later_owner _ _ _ _ H2 Hp); [by left|right; by left].
    + intros ? d3 H3 _. apply pick_current_safe. intros ? ->%list_elem_of_singleton.
      destruct (later_owner _ _ _ _ H3 (later_owner _ _ _ _ H2 Hp)); [by left|right; by left].
  - apply pick_current_safe. intros o Ho%(list_elem_of_fmap org_id (x :: l)). destruct Ho as (y & -> & Hy).
    by apply (Hans1 _ eq_refl).
Qed.

Lemma createOrg_safe id rnd body d : all_chars is_hex rnd = true → safe Q (createOrg ToLower id rnd body h) d.
Proof.
  intros Hr. unfold createOrg. cbv zeta. enter. destruct body as [[name slug]|]; [|finish; exact I].
  destruct (String.eqb _ _); [finish; exact I|]. set (s := if String.eqb (TrimSpace slug) "" then _ else _).
  destruct (negb (isValidOrgSlug s) || isReservedOrgSlug ToLower s) eqn:E; [finish; exact I|].
  apply orb_false_iff in E as [E1%negb_false_iff E2]. split.
  - split; [|done]. apply (valid_slug_safe ToLower); [done| |done..]. unfold s. destruct (String.eqb _ _); [|apply TrimSpace_idemp].
    apply (TrimSpace_all slug_char); [apply slug_char_range|]. by apply slugFromName_chars.
  - intros a d' _ _. destruct a as [[]|]; finish; exact I.
Qed.

Lemma inviteMember_safe o tok body d : safe Q (inviteMember ToLower o tok body h) d.
Proof.
  unfold inviteMember. apply requireRole_safe. intros d1 Hs Hg. destruct body as [[email role]|]; [|finish; exact I].
  cbv zeta. destruct (String.eqb _ ""); [finish; exact I|]. destruct (_ && _); [finish; exact I|].
  statement. split; [|intros a' d3 _ _; destruct a'; finish; exact I]. cbn. eapply later_seen; [eassumption|exact Hs].
Qed.

Lemma acceptInvite_safe tok d : safe Q (acceptInvite ToLower tok h) d.
Proof.
  unfold acceptInvite. cbv zeta. enter. statement. destruct ans as [[i|]|]; [|finish; exact I..].
  specialize (Hans1 i eq_refl). destruct (i_accepted i); [finish; exact I|].
  split; [exact I|]. intros t d2 H2 _. destruct (_ <? _); [finish; exact I|]. destruct (_ && _); [finish; exact I|].
  split; [|intros a' d3 _ _; destruct a'; finish; exact I]. split; [exists (i_by i); by eapply l_inv|done].
Qed.

Lemma removeMember_safe o target d : safe Q (removeMember o target h) d.
Proof.
  unfold removeMember. apply requireRole_safe. intros d1 _ _. destruct (String.eqb target ""); [finish; exact I|].
  statement. destruct (match ans with Some (Some owner) => _ | _ => _ end); [finish; exact I|].
  split; [exact I|]. intros t d2 _ _. split; [exact I|]. intros r d3 _ _. destruct (_ && _); [finish; exact I|].
  split; [exact I|]. intros b d4 _ _. destruct b; finish; exact I.
Qed.

Lemma setCurrentOrg_safe body d : safe Q (setCurrentOrg body h) d.
Proof.
  unfold setCurrentOrg. cbv zeta. enter. destruct body as [o|]; [|finish; exact I]. statement.
  destruct (Z.eqb_spec (default 0 ans) 0) as [|Hn]; [finish; exact I|]. destruct ans as [n|]; [|done].
  split; [by apply (Hans1 n)|]. intros b d2 _ _. destruct b; finish; exact I.
Qed.

Context (c : context).
Hypothesis Hctx : ctxUserID c = u.

Lemma createToken_safe rnd label d : entitled u (hget WORKSPACE h) d → TrimSpace (hget WORKSPACE h) = hget WORKSPACE h →
  safe Q (createToken hashToken rnd label c h) d.
Proof.
  intros He Ht. unfold createToken, jwtOnly. destruct (person (ctxAuthMethod c)); [|finish; exact I]. cbv zeta.
  destruct (String.eqb _ ""); [finish; exact I|]. statement. split.
  - split; [|by rewrite Hctx]. eapply later_entitled; [eassumption|]. rewrite Hctx. unfold tokenWorkspace. cbv zeta. cbn [t_ws]. rewrite Ht, Hctx.
    destruct (String.eqb _ ""); [by left|exact He].
  - intros a' d2 _ _. destruct a'; finish; exact I.
Qed.

Lemma handle_safe o d :
  (∀ rnd id body, o = OCreateOrg id rnd body → all_chars is_hex rnd = true) →
  (∀ rnd id, o = OMe id rnd → all_chars is_hex rnd = true) →
  (∀ d', later d d' → Q (Forward h) d') →
  entitled u (hget WORKSPACE h) d → TrimSpace (hget WORKSPACE h) = hget WORKSPACE h →
  safe Q (handle ToLower hashToken o c h) d.
Proof.
  intros Hr1 Hr2 Hf He Ht. destruct o; cbn [handle].
  - unfold listOrgs. cbv zeta. enter. statement. destruct ans; finish; [|exact I]. cbn. intros x Hx. by apply (Hans1 _ eq_refl).
  - unfold getOrg. cbv zeta. enter. statement. destruct ans as [[[r role]|]|]; finish; [|exact I..]. by apply (Hans1 _ eq_refl).
  - apply createOrg_safe. by eapply Hr1.
  - unfold listMembers. apply requireRole_safe. intros d1 _ Hg. statement. destruct ans; finish; [|exact I].
    cbn. by eapply later_given.
  - apply inviteMember_safe.
  - apply removeMember_safe.
  - apply acceptInvite_safe.
  - apply getMe_safe. by eapply Hr2.
  - apply setCurrentOrg_safe.
  - by apply createToken_safe.
  - unfold listTokens, jwtOnly. destruct (person (ctxAuthMethod c)); [|finish; exact I]. statement. finish. exact I.
  - unfold revokeToken, jwtOnly. destruct (person (ctxAuthMethod c)); [|finish; exact I]. statement.
    destruct ans as [n|]; [destruct (0 <? n)|]; finish; exact I.
  - by apply Hf.
Qed.
End safety.
