(* ===== verification/Edge.v ===== *)
(** The front of the control plane: unifiedAuth (api/cmd/api/auth.go, jwks.go),
    the org resolver with its cache (org_resolver.go) and the routes behind them
    (Orgs), as one program per request; and all requests of all replicas,
    interleaved statement by statement. *)

From S2P Require Import Prelude GoStrings Slugs OrgDb Orgs.

Open Scope string_scope.
Open Scope list_scope.
Open Scope Z_scope.
Open Scope prog_scope.
#[local] Set Warnings "-clear-no-such-hyp".

(** ** A request *)

Record request := mkReq {
  rq_path : string;            (* r.URL.Path *)
  rq_headers : headers;
  rq_access_token : string;    (* the query parameter *)
  rq_op : op;                  (* what the mux serves it with *)
}.

Record claims := mkClaims { cl_sub : string; cl_email : string; cl_iat : bool }.

(** How the replicas are configured: stub mode and its identity, the validator
    ([None]: jwt auth disabled; the library's verification of a compact token),
    the prefixes that skip authentication. *)
Record config := mkConfig {
  cf_stub : bool;
  cf_stub_id : string; cf_stub_email : string; cf_stub_org : string; cf_stub_ws : string;
  cf_jwt : option (string → option claims);
  cf_skip : list string;
  cf_orgs : bool;              (* the resolver has a database *)
}.

(** [strings.EqualFold(s, "Bearer")]: only ASCII letters fold to its letters. *)
Definition is_bearer (s : string) : bool := String.eqb (lower_string s) "bearer".

(** [strings.SplitN(s, "|", 2)], when it has two parts. *)
Definition split_bar (s : string) : option (string * string) :=
  match String.index 0 "|" s with
  | Some n => Some (String.substring 0 n s, str_drop (S n) s)
  | None => None
  end.

Definition dbBrokerProxyPath (path : string) : bool :=
  let pre := "/v1/databases/" in
  if negb (has_prefix pre path) then false
  else
    let rest := str_drop (String.length pre) path in
    match String.index 0 "/" rest with
    | Some (S i) => let rest := str_drop (S i) rest in String.eqb rest "/proxy" || has_prefix "/proxy/" rest
    | _ => false
    end.

(** The headers the bypass of the broker path deletes. *)
Definition identity_headers : list string := [WORKSPACE; USER_ID; METHOD; ORG_ID; STUB_WS; EMAIL].
Definition strip (h : headers) : headers := foldr delete h identity_headers.

Section edge.
Context (cf : config) (ToLower hashToken : string → string).

Definition skip (path : string) : bool :=
  existsb (λ p, let p := TrimSpace p in
             if String.eqb p "" then false else String.eqb path p || has_prefix p path) (cf_skip cf).

Definition VerifyBearer (parse : string → option claims) (authz : string) : option claims :=
  match Fields authz with
  | [b; t] =>
      if negb (is_bearer b) then None
      else match parse t with
      | Some c => if negb (cl_iat c) then None else if String.eqb (cl_sub c) "" then None else Some c
      | None => None
      end
  | _ => None
  end.

(** ** Authentication *)

(** What the request authenticates with, before an API token is looked up. *)
Inductive credential := CToken (tok : string) | CStub (email : string) | CUser (sub email : string) | CNone.

Definition stub_credential (rq : request) : credential :=
  let e := TrimSpace (hget "X-Stub-User" (rq_headers rq)) in
  CStub (if String.eqb e "" then cf_stub_email cf else e).

(** From "tok := strings.TrimSpace(parts[1])" on. *)
Definition bearer_credential (rq : request) (authz part : string) : credential :=
  let tok := TrimSpace part in
  if has_prefix "pds_" tok then CToken tok
  else if cf_stub cf then stub_credential rq
  else match cf_jwt cf with
  | None => CNone
  | Some parse => match VerifyBearer parse authz with Some c => CUser (cl_sub c) (cl_email c) | None => CNone end
  end.

Definition credential_of (rq : request) : credential :=
  let authz := TrimSpace (hget "Authorization" (rq_headers rq)) in
  let qt := TrimSpace (rq_access_token rq) in
  let without_header :=
    if negb (String.eqb qt "") then bearer_credential rq ("Bearer " +:+ qt) qt
    else if cf_stub cf then stub_credential rq else CNone in
  match Fields authz with
  | [b; t] => if is_bearer b then bearer_credential rq authz t else without_header
  | _ => without_header
  end.

Definition authenticate (rq : request) (k : option (string * string * string) → prog) : prog :=
  match credential_of rq with
  | CToken tok =>
      LookupByToken hashToken tok (λ r,
        match r with
        | Some t => if String.eqb (t_ws t) "" then k None else k (Some (t_ws t, "", "token"))
        | None => k None
        end)
  | CStub email => k (Some (cf_stub_id cf, email, "stub"))
  | CUser sub email => k (Some (sub, email, "jwt"))
  | CNone => k None
  end.

Definition identify (uid email method : string) (h : headers) : headers :=
  let h := <[USER_ID := uid]> (<[METHOD := method]> (<[WORKSPACE := uid]> (delete "Authorization" h))) in
  let h := if String.eqb method "stub" then
             let h := if String.eqb (cf_stub_org cf) "" then h else <[ORG_ID := cf_stub_org cf]> h in
             if String.eqb (cf_stub_ws cf) "" then h else <[STUB_WS := cf_stub_ws cf]> h
           else h in
  if String.eqb email "" then h else <[EMAIL := email]> h.

Definition unifiedAuth (rq : request) (next : context → headers → prog) : prog :=
  if skip (rq_path rq) then next (mkCtx "" "") (rq_headers rq)
  else if dbBrokerProxyPath (rq_path rq) then next (mkCtx "" "") (strip (rq_headers rq))
  else authenticate rq (λ r,
    match r with
    | None => Ret (Code 401)
    | Some (uid, email, method) => next (mkCtx uid method) (identify uid email method (rq_headers rq))
    end).

(** ** The org resolver *)

Definition cache_ttl : Z := 30 * 10 ^ 9.

Section resolver.
Context (edge : string).

Definition keep (key val : string) (ok : bool) (k : prog) : prog :=
  t <- Now;
  _ <- Store edge key (mkEntry val (default 0 t + cache_ttl) ok);
  k.

(** A cached entry that has not expired, as [fresh e]; anything else, [miss]. *)
Definition cached (key : string) (fresh : cacheEntry → prog) (miss : prog) : prog :=
  c <- Load edge key;
  match c with
  | Some (Some e) => t <- Now; if default 0 t <? e_exp e then fresh e else miss
  | _ => miss
  end.

Definition currentSlug (uid : string) (k : option (string * string) → prog) : prog :=
  let key := user_key uid in
  let found (x : string * string) := keep key (x.1 +:+ "|" +:+ x.2) true (k (Some x)) in
  let fail := keep key "" false (k None) in
  let miss :=
    a <- SelCurrentSlug uid;
    match a with
    | Some (Some x) => found x
    | Some None => b <- SelOldestSlug uid; match b with Some (Some x) => found x | _ => fail end
    | None => fail
    end in
  cached key (λ e, if negb (e_ok e) then k None else match split_bar (e_val e) with Some x => k (Some x) | None => miss end)
    miss.

Definition slugForMember (uid orgID : string) (k : option string → prog) : prog :=
  let key := mem_key uid orgID in
  cached key (λ e, k (if e_ok e then Some (e_val e) else None))
    (a <- SelSlugFor uid orgID;
     match a with
     | Some (Some slug) => keep key slug true (k (Some slug))
     | _ => keep key "" false (k None)
     end).

Definition with_org (slug orgID : string) (h : headers) : headers := <[ORG_ID := orgID]> (<[WORKSPACE := slug]> h).

Definition orgResolver (h : headers) (next : headers → prog) : prog :=
  if negb (cf_orgs cf) then next h
  else if negb (person (hget METHOD h)) then next h
  else
    let uid := hget USER_ID h in
    if String.eqb uid "" then next h
    else
      let orgID := TrimSpace (hget ORG h) in
      if negb (String.eqb orgID "") then
        slugForMember uid orgID (λ r,
          match r with None => Ret (Code 403) | Some slug => next (with_org slug orgID h) end)
      else currentSlug uid (λ r,
          match r with None => next h | Some (slug, orgID) => next (with_org slug orgID h) end).

(** The whole chain in front of the handlers, and the handler. *)
Definition serve (rq : request) : prog :=
  unifiedAuth rq (λ c h, orgResolver h (handle ToLower hashToken (rq_op rq) c)).
End resolver.

(** ** Every request of every replica *)

Record world := mkWorld { w_db : db; w_threads : gmap nat (request * prog) }.

Inductive event :=
  | Arrive (k : nat) (edge : string) (rq : request)
  | Exec (k : nat) (now : Z) (out : outcome).

Context (by_time : list (string * org * string) → list (string * org * string)).

Definition step (ev : event) (w : world) : world :=
  match ev with
  | Arrive k edge rq =>
      match w_threads w !! k with
      | None => mkWorld (w_db w) (<[k := (rq, serve edge rq)]> (w_threads w))
      | Some _ => w
      end
  | Exec k now out =>
      match w_threads w !! k with
      | Some (rq, Do s f) =>
          let '(d, a) := exec by_time now out s (w_db w) in mkWorld d (<[k := (rq, f a)]> (w_threads w))
      | _ => w
      end
  end.

Definition run (es : list event) (w : world) : world := foldl (λ w e, step e w) w es.
Definition idle : world := mkWorld empty_db ∅.
End edge.

(** ** The front is safe *)

Lemma split_bar_app a b : all_chars slug_char a = true → split_bar (a +:+ "|" +:+ b) = Some (a, b).
Proof.
  intros Ha. unfold split_bar. rewrite (index_app (Ascii.Ascii false false true true true true true false) "" a b).
  - f_equal. f_equal; [apply substring_prefix|].
    replace (a +:+ "|" +:+ b) with ((a +:+ "|") +:+ b) by (symmetry; apply string_app_assoc).
    replace (S (String.length a)) with (String.length (a +:+ "|")) by (rewrite string_length_app; cbn; lia). apply str_drop_app.
  - revert Ha. apply all_chars_mono. intros c Hc. apply negb_true_iff, Ascii.eqb_neq. intros ->. done.
Qed.

Lemma string_app_inj (a b c d : string) : String.length a = String.length c → a +:+ b = c +:+ d → a = c ∧ b = d.
Proof.
  revert c. induction a as [|x a IH]; intros [|y c] Hl; try done. intros E. injection E as -> E.
  destruct (IH c ltac:(cbn in Hl; lia) E) as [-> ->]. done.
Qed.

Lemma string_app_cancel (p a b : string) : p +:+ a = p +:+ b → a = b.
Proof. induction p as [|x p IH]; [done|]. intros E. injection E as E. by apply IH. Qed.

Lemma uuid_length u : looksLikeUUID u = true → String.length u = 36%nat.
Proof. intros [Hl _]%andb_true_iff. by apply Nat.eqb_eq. Qed.

Lemma mem_key_inj u o v p : looksLikeUUID u = true → looksLikeUUID v = true → mem_key u o = mem_key v p → u = v ∧ o = p.
Proof.
  intros Hu Hv E. unfold mem_key in E. apply string_app_cancel in E.
  apply string_app_inj in E as [-> E]; [|by rewrite !uuid_length]. by apply string_app_cancel in E.
Qed.

Lemma user_key_inj u v : user_key u = user_key v → u = v.
Proof. apply string_app_cancel. Qed.

Lemma user_mem_key u v o : user_key u ≠ mem_key v o.
Proof. done. Qed.

Section front.
Context (cf : config) (ToLower hashToken : string → string) (edge : string).
Context (Q : reply → db → Prop).

Lemma keep_safe key val ok k d :
  (∀ t, entry_good key (mkEntry val t ok) d) → (∀ d', later d d' → safe Q k d') → safe Q (keep edge key val ok k) d.
Proof.
  intros He Hk. split; [exact I|]. intros t d1 H1 _. split; [eapply later_entry; [exact H1|apply He]|].
  intros ? d2 H2 _. apply Hk. by transitivity d1.
Qed.

Lemma cached_safe key fresh miss d :
  (∀ e d', later d d' → entry_good key e d' → safe Q (fresh e) d') → (∀ d', later d d' → safe Q miss d') →
  safe Q (cached edge key fresh miss) d.
Proof.
  intros Hf Hm. split; [exact I|]. intros c d1 H1 Hc. destruct c as [[e|]|]; [|by apply Hm..].
  specialize (Hc e eq_refl). split; [exact I|]. intros t d2 H2 _. destruct (_ <? _).
  - apply Hf; [by transitivity d1|]. by eapply later_entry.
  - apply Hm. by transitivity d1.
Qed.

Context (u : string).

Lemma bad_entry_good key val t d : entry_good key (mkEntry val t false) d.
Proof. by intros ?. Qed.

Lemma user_entry_good o s t d : seat u o s d → entry_good (user_key u) (mkEntry (s +:+ "|" +:+ o) t true) d.
Proof. intros Hs _ v Hv. split; [intros <-%user_key_inj; by exists o, s|by intros p ?%user_mem_key]. Qed.

Lemma mem_entry_good o s t d : seat u o s d → entry_good (mem_key u o) (mkEntry s t true) d.
Proof.
  intros Hs _ v Hv. split; [intros H; by apply eq_sym, user_mem_key in H|].
  intros p [<- <-]%mem_key_inj; [done|apply Hs|done].
Qed.

(** What the look-ups hand on; nothing of a user id that is not the identity
    provider's. *)
Definition found_seat (x : option (string * string)) (d : db) : Prop :=
  looksLikeUUID u = true → ∀ s o, x = Some (s, o) → seat u o s d.

Lemma currentSlug_safe k d :
  (∀ x d', later d d' → found_seat x d' → safe Q (k x) d') → safe Q (currentSlug edge u k) d.
Proof.
  intros Hk. unfold currentSlug. cbv zeta.
  assert (Hfail : ∀ d', later d d' → safe Q (keep edge (user_key u) "" false (k None)) d').
  { intros d1 H1. apply keep_safe; [intros; apply bad_entry_good|]. intros d2 H2. by apply Hk; [transitivity d1|]. }
  assert (Hfound : ∀ x d', later d d' → seat u x.2 x.1 d' →
    safe Q (keep edge (user_key u) (x.1 +:+ "|" +:+ x.2) true (k (Some x))) d').
  { intros [s o] d1 H1 Hs. apply keep_safe; [intros; by apply user_entry_good|].
    intros d2 H2. apply Hk; [by transitivity d1|]. intros _ ? ? [= <- <-]. by eapply later_seat. }
  match goal with |- safe _ (cached _ _ _ ?m) _ => set (miss := m) end.
  assert (Hmiss : ∀ d', later d d' → safe Q miss d').
  { intros d0 H0. split; [exact I|]. intros a d1 H1 Ha. assert (H01 : later d d1) by (by transitivity d0).
    destruct a as [[x|]|]; [by apply Hfound; [|apply (Ha x)]| |by apply Hfail].
    split; [exact I|]. intros b d2 H2 Hb. assert (H02 : later d d2) by (by transitivity d1).
    destruct b as [[x|]|]; [by apply Hfound; [|apply (Hb x)]|by apply Hfail..]. }
  apply cached_safe; [|done]. intros e d' H' He. destruct (e_ok e) eqn:Eok; simpl; [|by apply Hk].
  destruct (split_bar (e_val e)) as [[s o]|] eqn:Ex; [|by apply Hmiss]. apply Hk; [done|]. intros Hu ? ? [= <- <-].
  destruct (He Eok u Hu) as [He1 _]. destruct (He1 eq_refl) as (o' & s' & Ev & Hs).
  rewrite Ev, split_bar_app in Ex by apply Hs. by injection Ex as <- <-.
Qed.

Lemma slugForMember_safe orgID k d :
  (∀ x d', later d d' → found_seat ((λ s, (s, orgID)) <$> x) d' → safe Q (k x) d') → safe Q (slugForMember edge u orgID k) d.
Proof.
  intros Hk. unfold slugForMember. cbv zeta. apply cached_safe.
  - intros e d' H' He. apply Hk; [done|]. intros Hu s o E. destruct (e_ok e) eqn:Eok; [|done]. injection E as <- <-.
    destruct (He Eok u Hu) as [_ He2]. by apply He2.
  - intros d0 H0. split; [exact I|]. intros a d1 H1 Ha. assert (H01 : later d d1) by (by transitivity d0).
    assert (Hno : safe Q (keep edge (mem_key u orgID) "" false (k None)) d1).
    { apply keep_safe; [intros; apply bad_entry_good|]. intros d2 H2. by apply Hk; [transitivity d1|]. }
    destruct a as [[s|]|]; [|exact Hno..]. apply keep_safe; [intros; by apply mem_entry_good, Ha|].
    intros d2 H2. apply Hk; [by transitivity d1|]. intros _ ? ? [= <- <-]. eapply later_seat; [exact H2|by apply Ha].
Qed.

(** The resolver in front of anything that does not mind the workspace. *)
Lemma orgResolver_any h next d :
  hget USER_ID h = u → (∀ d', later d d' → Q (Code 403) d') → (∀ h' d', later d d' → safe Q (next h') d') →
  safe Q (orgResolver cf edge h next) d.
Proof.
  intros Hid Hq Hn. unfold orgResolver. cbv zeta. rewrite Hid. destruct (negb (cf_orgs cf)); [by apply Hn|].
  destruct (negb (person _)); [by apply Hn|]. destruct (String.eqb _ ""); [by apply Hn|]. destruct (negb _).
  - apply slugForMember_safe. intros [s|] d' Hl _; [by apply Hn|by apply Hq].
  - apply currentSlug_safe. intros [[s o]|] d' Hl _; by apply Hn.
Qed.

Hypothesis Hu : looksLikeUUID u = true.

(** Behind the resolver, the workspace is one of the user's. *)
Lemma orgResolver_safe h next d :
  hget USER_ID h = u → person (hget METHOD h) = true →
  (∀ d', later d d' → Q (Code 403) d') →
  (∀ h' d', later d d' → hget USER_ID h' = u → hget METHOD h' = hget METHOD h →
     (hget WORKSPACE h' = hget WORKSPACE h ∨ ∃ o, seat u o (hget WORKSPACE h') d') → safe Q (next h') d') →
  safe Q (orgResolver cf edge h next) d.
Proof.
  intros Huid Hm Hq Hn. unfold orgResolver. cbv zeta. rewrite Hm, Huid.
  destruct (cf_orgs cf); simpl; [|apply Hn; [done..|by left]].
  rewrite uuid_nonempty by done.
  assert (Hw : ∀ s o d', later d d' → seat u o s d' → safe Q (next (with_org s o h)) d').
  { intros s o d' Hl Hs. apply Hn; [done|by unfold hget, with_org; rewrite !lookup_insert_ne|
      by unfold hget, with_org; rewrite !lookup_insert_ne|].
    right. exists o. unfold hget, with_org. rewrite lookup_insert_ne by done. by rewrite lookup_insert_eq. }
  destruct (negb _).
  - apply slugForMember_safe. intros [s|] d' Hl Hs; [|by apply Hq]. apply Hw; [done|by apply Hs].
  - apply currentSlug_safe. intros [[s o]|] d' Hl Hs; [|by apply Hn; [..|left]]. apply Hw; [done|by apply Hs].
Qed.
End front.

(** ** What every answered request may carry and show *)

(** The user a request speaks for, when it does not present an API token. *)
Definition principal (cf : config) (rq : request) : option string :=
  match credential_of cf rq with CUser s _ => Some s | CStub _ => Some (cf_stub_id cf) | _ => None end.

(** A reply that shows no table. *)
Definition blank (r : reply) : Prop := match r with Code _ | MeR _ None [] => True | _ => False end.

Definition end_ok (cf : config) (hashToken : string → string) (rq : request) (r : reply) (d : db) : Prop :=
  if skip cf (rq_path rq) then True
  else if dbBrokerProxyPath (rq_path rq) then
    match r with Forward h => ∀ k, k ∈ identity_headers → h !! k = None | _ => True end
  else match r with
  | Forward h =>
      ∃ u, looksLikeUUID u = true ∧ entitled u (hget WORKSPACE h) d ∧
        match credential_of cf rq with
        | CToken tok => GMinted u (hashToken tok) (hget WORKSPACE h) ∈ log d ∧ hget METHOD h = "token"
        | _ => principal cf rq = Some u ∧ hget USER_ID h = u
        end
  | _ => match principal cf rq with Some u => shows u r d | None => blank r end
  end.

(** A request the mux can make: the paths that skip authentication are no path
    of an organization or token handler; random bytes are in hexadecimal. *)
Definition admissible (cf : config) (rq : request) : bool :=
  (negb (skip cf (rq_path rq) || dbBrokerProxyPath (rq_path rq)) || match rq_op rq with OForward => true | _ => false end) &&
  match rq_op rq with OCreateOrg _ rnd _ | OMe _ rnd => all_chars is_hex rnd | _ => true end.

Lemma admissible_spec cf rq : admissible cf rq = true →
  (skip cf (rq_path rq) = true ∨ dbBrokerProxyPath (rq_path rq) = true → rq_op rq = OForward) ∧
  (∀ id rnd body, rq_op rq = OCreateOrg id rnd body → all_chars is_hex rnd = true) ∧
  (∀ id rnd, rq_op rq = OMe id rnd → all_chars is_hex rnd = true).
Proof.
  unfold admissible. intros [H1 H2]%andb_true_iff. split_and!.
  - intros H. destruct (rq_op rq); try done; exfalso; destruct (skip cf _), (dbBrokerProxyPath _); simpl in *; naive_solver.
  - intros id rnd body E. by rewrite E in H2.
  - intros id rnd E. by rewrite E in H2.
Qed.

Lemma end_ok_later cf hashToken rq r d d' : later d d' → end_ok cf hashToken rq r d → end_ok cf hashToken rq r d'.
Proof.
  intros Hl. unfold end_ok. destruct (skip _ _); [done|]. destruct (dbBrokerProxyPath _); [done|].
  assert (Hs : match principal cf rq with Some u => shows u r d | None => blank r end →
               match principal cf rq with Some u => shows u r d' | None => blank r end)
    by (destruct (principal cf rq); [by apply shows_later|done]).
  destruct r; try exact Hs. intros (u & Hu & He & Hc). exists u. split_and!; [done|by eapply later_entitled|].
  destruct (credential_of cf rq); try done. destruct Hc as [Hc ?]. split; [by eapply l_log|done].
Qed.

Lemma hget_insert k v h : hget k (<[k := v]> h) = v.
Proof. unfold hget. by rewrite lookup_insert_eq. Qed.
Lemma hget_insert_ne k j v h : j ≠ k → hget k (<[j := v]> h) = hget k h.
Proof. intros. unfold hget. by rewrite lookup_insert_ne. Qed.

Lemma identify_spec cf uid email method h :
  let h' := identify cf uid email method h in
  hget USER_ID h' = uid ∧ hget METHOD h' = method ∧ hget WORKSPACE h' = uid.
Proof.
  unfold identify. cbv zeta. set (b := <[USER_ID := uid]> _). 
  set (c := if String.eqb method "stub" then _ else b).
  assert (Hc : ∀ k, k ≠ ORG_ID → k ≠ STUB_WS → hget k c = hget k b).
  { intros k H1 H2. unfold c. destruct (String.eqb method "stub"); [|done].
    destruct (String.eqb (cf_stub_org cf) ""), (String.eqb (cf_stub_ws cf) ""); rewrite ?hget_insert_ne; done. }
  assert (He : ∀ k, k ≠ EMAIL → hget k (if String.eqb email "" then c else <[EMAIL := email]> c) = hget k c).
  { intros k Hk. destruct (String.eqb email ""); [done|]. by apply hget_insert_ne. }
  rewrite !He, !Hc by done. unfold b. split_and!.
  - apply hget_insert.
  - rewrite hget_insert_ne by done. apply hget_insert.
  - rewrite !hget_insert_ne by done. apply hget_insert.
Qed.

Lemma strip_spec h k : k ∈ identity_headers → strip h !! k = None.
Proof.
  unfold strip. generalize identity_headers as l. intros l. induction l as [|j l IH]; [by intros ?%not_elem_of_nil|].
  cbn [foldr]. intros [->|Hk]%elem_of_cons; [by rewrite lookup_delete_eq|]. rewrite lookup_delete. case_decide; [done|]. by apply IH.
Qed.

(** Without a person's method, the handlers show nothing. *)
Lemma handle_stranger ToLower hashToken o c h :
  person (hget METHOD h) = false → person (ctxAuthMethod c) = false →
  ∃ r, handle ToLower hashToken o c h = Ret r ∧ (r = Forward h ∧ o = OForward ∨ blank r).
Proof.
  intros Hm Hc. assert (Hu : userIDFromReq h = "") by (unfold userIDFromReq; by rewrite Hm).
  destruct o; cbn [handle];
    unfold listOrgs, getOrg, createOrg, listMembers, inviteMember, removeMember, requireRole, acceptInvite, getMe, setCurrentOrg,
      createToken, listTokens, revokeToken, jwtOnly; cbv zeta; rewrite ?Hu, ?Hc; cbn [String.eqb]; eexists; (split; [reflexivity|]);
    try (right; exact I); by left.
Qed.

Section serving.
Context (cf : config) (ToLower hashToken : string → string) (edge : string).
Hypothesis HLower : ∀ s, all_chars slug_char s = true → ToLower s = s.
(** The subjects of the identity provider's tokens, and the stub's, are UUIDs. *)
Hypothesis Hjwt : ∀ parse t c, cf_jwt cf = Some parse → parse t = Some c → looksLikeUUID (cl_sub c) = true.
Hypothesis Hstub : cf_stub cf = true → looksLikeUUID (cf_stub_id cf) = true.

Lemma credential_uuid rq u : principal cf rq = Some u → looksLikeUUID u = true.
Proof.
  unfold principal, credential_of. cbv zeta.
  set (ok c := match c with CUser s _ => Some s | CStub _ => Some (cf_stub_id cf) | _ => None end = Some u → looksLikeUUID u = true).
  assert (Hs : cf_stub cf = true → ok (stub_credential cf rq)) by (by intros ? [= <-]; apply Hstub).
  assert (Hb : ∀ a b, ok (bearer_credential cf rq a b)).
  { intros a b. unfold bearer_credential. cbv zeta. destruct (has_prefix _ _); [done|].
    destruct (cf_stub cf); [by apply Hs|]. destruct (cf_jwt cf) as [parse|] eqn:Ej; [|done].
    destruct (VerifyBearer parse a) as [cl|] eqn:Ev; [|done]. intros [= <-]. unfold VerifyBearer in Ev.
    destruct (Fields a) as [|x [|y [|? ?]]]; try done. destruct (negb _); [done|].
    destruct (parse y) as [cl'|] eqn:Ep; [|done]. destruct (negb _); [done|].
    destruct (String.eqb _ _); [done|]. injection Ev as <-. by eapply Hjwt. }
  assert (Hn : ok (if negb (String.eqb (TrimSpace (rq_access_token rq)) "") then
                     bearer_credential cf rq ("Bearer " +:+ TrimSpace (rq_access_token rq)) (TrimSpace (rq_access_token rq))
                   else if cf_stub cf then stub_credential cf rq else CNone)).
  { destruct (negb _); [apply Hb|]. destruct (cf_stub cf); [by apply Hs|done]. }
  destruct (Fields _) as [|x [|y [|? ?]]]; try exact Hn. destruct (is_bearer x); [apply Hb|exact Hn].
Qed.

(** A person's request, from the middleware on. *)
Lemma person_safe rq u email method d :
  principal cf rq = Some u → person method = true → admissible cf rq = true →
  skip cf (rq_path rq) = false → dbBrokerProxyPath (rq_path rq) = false →
  (∀ tok, credential_of cf rq ≠ CToken tok) →
  safe (end_ok cf hashToken rq)
    (orgResolver cf edge (identify cf u email method (rq_headers rq)) (handle ToLower hashToken (rq_op rq) (mkCtx u method))) d.
Proof.
  intros Hp Hm (_ & Ha1 & Ha2)%admissible_spec Hs Hbr Hc. pose proof (credential_uuid rq u Hp) as Hu.
  destruct (identify_spec cf u email method (rq_headers rq)) as (H1 & H2 & H3).
  assert (HQ : ∀ r d, shows u r d → (∀ h', r ≠ Forward h') → end_ok cf hashToken rq r d).
  { intros r d0 Hsh Hf. unfold end_ok. rewrite Hs, Hbr, Hp. destruct r; try exact Hsh. by destruct (Hf h). }
  apply (orgResolver_safe cf edge _ u Hu); [done|by rewrite H2|intros; by apply HQ|].
  intros h' d1 Hl Hu' Hm' Hw.
  assert (Hent : entitled u (hget WORKSPACE h') d1 ∧ TrimSpace (hget WORKSPACE h') = hget WORKSPACE h').
  { destruct Hw as [->|(o & Hg & Ho & Hsafe)].
    - rewrite H3. split; [by left|by apply uuid_trim].
    - split; [right; by exists o|apply safe_slug_trim, Hsafe]. }
  destruct Hent as [Hent Htrim].
  apply (handle_safe ToLower hashToken HLower (end_ok cf hashToken rq) h' u); try done.
  - by rewrite Hm', H2.
  - intros rnd id body E. by eapply Ha1.
  - intros rnd id E. by eapply Ha2.
  - intros d2 Hl2. unfold end_ok. rewrite Hs, Hbr. exists u. split_and!; [done|by eapply later_entitled|].
    destruct (credential_of cf rq) eqn:Ec; [by destruct (Hc tok)|done..].
Qed.

Lemma serve_safe rq d : admissible cf rq = true → safe (end_ok cf hashToken rq) (serve cf ToLower hashToken edge rq) d.
Proof.
  intros Hadm. pose proof (admissible_spec _ _ Hadm) as (Hop & _ & _). unfold serve, unifiedAuth.
  assert (Htrivial : ∀ h c d, person (hget METHOD h) = false → person (ctxAuthMethod c) = false →
    (∀ r, r = Forward h ∧ rq_op rq = OForward ∨ blank r → end_ok cf hashToken rq r d) →
    safe (end_ok cf hashToken rq) (orgResolver cf edge h (handle ToLower hashToken (rq_op rq) c)) d).
  { clear d. intros h c d Hm Hc HQ. destruct (handle_stranger ToLower hashToken (rq_op rq) c h Hm Hc) as (r & Hr & Hor).
    unfold orgResolver. rewrite Hm. destruct (negb (cf_orgs cf)); simpl; rewrite Hr; by apply HQ. }
  destruct (skip cf (rq_path rq)) eqn:Es.
  - assert (HQ : ∀ r d, end_ok cf hashToken rq r d) by (intros; unfold end_ok; by rewrite Es).
    rewrite (Hop (or_introl eq_refl)). by eapply orgResolver_any; [done|intros; apply HQ|intros; apply HQ].
  - destruct (dbBrokerProxyPath (rq_path rq)) eqn:Eb.
    + apply Htrivial; [unfold hget; by rewrite strip_spec by (do 2 right; left)|done|].
      intros r Hr. unfold end_ok. rewrite Es, Eb. destruct Hr as [[-> _]|Hr]; [intros k; apply strip_spec|by destruct r].
    + unfold authenticate. destruct (credential_of cf rq) as [tok|email|sub email|] eqn:Ec.
      * unfold LookupByToken.
        assert (H401 : ∀ d, end_ok cf hashToken rq (Code 401) d) by (intros; unfold end_ok, principal; by rewrite Es, Eb, Ec).
        destruct (String.eqb (TrimSpace tok) ""); [apply H401|]. split; [exact I|]. intros a d1 H1 Ha.
        destruct a as [[t|]|]; [|apply H401..]. destruct (String.eqb (t_ws t) ""); [apply H401|].
        destruct (Ha t eq_refl) as (u & Hu1 & Hu2 & Hu3).
        destruct (identify_spec cf (t_ws t) "" "token" (rq_headers rq)) as (I1 & I2 & I3).
        apply Htrivial; [by rewrite I2|done|]. intros r Hr. unfold end_ok, principal. rewrite Es, Eb, Ec.
        destruct Hr as [[-> _]|Hr]; [|by destruct r]. exists u. by rewrite I2, I3.
      * apply person_safe; try done; [by unfold principal; rewrite Ec|intros ?; congruence].
      * apply person_safe; try done; [by unfold principal; rewrite Ec|intros ?; congruence].
      * unfold end_ok, principal. by rewrite Es, Eb, Ec.
Qed.
End serving.

(** ** All of them together *)

Definition arrivals_ok (cf : config) (es : list event) : bool :=
  forallb (λ ev, match ev with Arrive _ _ rq => admissible cf rq | Exec _ _ _ => true end) es.

Section world.
Context (cf : config) (ToLower hashToken : string → string) (by_time : list (string * org * string) → list (string * org * string)).

(** Assumed of the environment: Unicode's lower case of a slug is the slug, the
    identity provider's subjects (and the stub's) are UUIDs, a listing lists what
    there is. *)
Record environment : Prop := {
  env_lower : ∀ s, all_chars slug_char s = true → ToLower s = s;
  env_jwt : ∀ parse t c, cf_jwt cf = Some parse → parse t = Some c → looksLikeUUID (cl_sub c) = true;
  env_stub : cf_stub cf = true → looksLikeUUID (cf_stub_id cf) = true;
  env_order : ∀ l, by_time l ≡ₚ l;
}.

Record world_ok (w : world) : Prop := {
  wo_db : tenancy (w_db w);
  wo_threads : ∀ k rq p, w_threads w !! k = Some (rq, p) → safe (end_ok cf hashToken rq) p (w_db w);
}.

Hypothesis Henv : environment.

Lemma step_ok ev w : arrivals_ok cf [ev] = true → world_ok w → world_ok (step cf ToLower hashToken by_time ev w).
Proof.
  intros Hev [Hd Ht]. destruct ev as [k edge rq|k now out]; cbn [step].
  - destruct (w_threads w !! k) eqn:Ek; [by split|]. split; [done|]. cbn. intros j rq' p. rewrite lookup_insert.
    case_decide; [|apply Ht]. intros [= <- <-]. apply serve_safe; try apply Henv. cbn in Hev. by rewrite andb_true_r in Hev.
  - destruct (w_threads w !! k) as [[rq [r|A s f]]|] eqn:Ek; [by split| |by split].
    destruct (Ht _ _ _ Ek) as [Hp Hk]. pose proof (stmt_sound by_time (env_order Henv) now out s (w_db w) Hd Hp) as Hx.
    destruct (exec by_time now out s (w_db w)) as [d' a]. destruct Hx as (Hd' & Hl & Hpost). split; [done|]. cbn.
    intros j rq' p. rewrite lookup_insert. case_decide.
    + intros [= <- <-]. by apply Hk.
    + intros Hj. eapply safe_later; [intros r d1 d2; apply end_ok_later|exact Hl|by eapply Ht].
Qed.

Lemma run_ok es w : arrivals_ok cf es = true → world_ok w → world_ok (run cf ToLower hashToken by_time es w).
Proof.
  revert w. induction es as [|ev es IH]; intros w; [done|]. cbn. intros [Hev Hes]%andb_true_iff Hw. apply IH; [done|].
  apply step_ok; [cbn; by rewrite Hev|done].
Qed.

Lemma idle_ok : world_ok idle.
Proof. split; [apply empty_tenancy|done]. Qed.

(** No workspace a request carries is one of the agents' see-everything values. *)
Lemma entitled_scope u ws d : tenancy d → looksLikeUUID u = true → entitled u ws d → ws ∉ ["" ; "admin"; "default"].
Proof.
  intros H Hu [->|(o & _ & r & Hr & <-)] Hin; rewrite !elem_of_cons, elem_of_nil in Hin.
  - destruct Hin as [->|[->|[->|[]]]]; done.
  - destruct (t_slugs _ H o r Hr) as [_ Hne Hfree _]. destruct Hin as [E|[E|[E|[]]]]; [done|..];
      apply Hfree; rewrite E; vm_compute; [left|right; left].
Qed.
End world.

(** C16. A request is served under a workspace its sender was given.  In every
    interleaving of the statements and cache accesses of all requests of all
    replicas, with failing and unanswered statements, whatever identity headers
    the clients send: a request that passed the authentication carries a
    workspace that is the user's own id or the slug of an organization that user
    created, was given, or was invited to and joined, where the user is the
    subject of the verified token, the stub's, or the one who minted the API
    token for that very workspace; and it is never one of the workspaces the
    agents let see everything. *)
Theorem workspace_is_earned cf ToLower hashToken by_time es k rq h :
  environment cf ToLower by_time → arrivals_ok cf es = true →
  let w := run cf ToLower hashToken by_time es idle in
  w_threads w !! k = Some (rq, Ret (Forward h)) → skip cf (rq_path rq) = false → dbBrokerProxyPath (rq_path rq) = false →
  ∃ u, entitled u (hget WORKSPACE h) (w_db w) ∧ (hget WORKSPACE h ∉ [""; "admin"; "default"]) ∧
    match credential_of cf rq with
    | CToken tok => GMinted u (hashToken tok) (hget WORKSPACE h) ∈ log (w_db w) ∧ hget METHOD h = "token"
    | _ => principal cf rq = Some u ∧ hget USER_ID h = u
    end.
Proof.
  intros Henv Hes w Hk Hs Hb. destruct (run_ok cf ToLower hashToken by_time Henv es idle Hes (idle_ok cf hashToken)) as [Hd Ht].
  specialize (Ht _ _ _ Hk). cbn in Ht. unfold end_ok in Ht. rewrite Hs, Hb in Ht. destruct Ht as (u & Hu & He & Hc).
  exists u. split_and!; [done|by eapply entitled_scope|done].
Qed.

(** Tenants do not meet: two requests served under one workspace are the same
    user's, or their users are or were members of the one organization that has
    this slug.  A user's own id is never an organization's slug. *)
Theorem tenants_do_not_meet cf ToLower hashToken by_time es u v ws :
  environment cf ToLower by_time → arrivals_ok cf es = true →
  let d := w_db (run cf ToLower hashToken by_time es idle) in
  looksLikeUUID u = true → looksLikeUUID v = true → entitled u ws d → entitled v ws d →
  u = v ∨ ∃ o, given u o d ∧ given v o d ∧ slug_of o ws d ∧ ∀ o', slug_of o' ws d → o' = o.
Proof.
  intros Henv Hes d Hu Hv H1 H2. destruct (run_ok cf ToLower hashToken by_time Henv es idle Hes (idle_ok cf hashToken)) as [Hd _].
  fold d in Hd.
  assert (Hno : ∀ x o, looksLikeUUID x = true → slug_of o x d → False).
  { intros x o Hx (r & Hr & <-). destruct (t_slugs _ Hd o r Hr) as [_ _ _ Hn]. congruence. }
  destruct H1 as [->|(o & Hg & Ho)], H2 as [<-|(o' & Hg' & Ho')].
  - by left.
  - by destruct (Hno u o').
  - by destruct (Hno ws o).
  - right. exists o. assert (o' = o) as -> by (by eapply t_unique). split_and!; [done..|]. intros o'' ?. by eapply t_unique.
Qed.


(** What a request is shown of the organizations: with the token of a user,
    the lists and records are of organizations of which that user is or was a
    member; with an API token, or none, nothing of them. *)
Theorem replies_show_own_orgs cf ToLower hashToken by_time es k rq r :
  environment cf ToLower by_time → arrivals_ok cf es = true →
  let w := run cf ToLower hashToken by_time es idle in
  w_threads w !! k = Some (rq, Ret r) → (∀ h, r ≠ Forward h) → skip cf (rq_path rq) = false → dbBrokerProxyPath (rq_path rq) = false →
  match principal cf rq with Some u => shows u r (w_db w) | None => blank r end.
Proof.
  intros Henv Hes w Hk Hf Hs Hb. destruct (run_ok cf ToLower hashToken by_time Henv es idle Hes (idle_ok cf hashToken)) as [_ Ht].
  specialize (Ht _ _ _ Hk). cbn in Ht. unfold end_ok in Ht. rewrite Hs, Hb in Ht. destruct r; try exact Ht. by destruct (Hf h).
Qed.

(** ** Concrete requests *)

Definition w_a : string := "aaaaaaaa-0000-4000-8000-00000000000a".
Definition w_b : string := "bbbbbbbb-0000-4000-8000-00000000000b".
Definition w_c : string := "cccccccc-0000-4000-8000-00000000000c".

(** The identity provider of the examples: three tokens. *)
Definition w_parse (t : string) : option claims :=
  if String.eqb t "A" then Some (mkClaims w_a "ann@x.io" true)
  else if String.eqb t "B" then Some (mkClaims w_b "bob@x.io" true)
  else if String.eqb t "C" then Some (mkClaims w_c "" true)
  else None.
Definition w_cf : config :=
  mkConfig false "" "" "" "" (Some w_parse) ["/healthz"; "/readyz"; "/version"; "/metrics"; "/openapi.json"; "/v1/openapi.json"; "/v1/internal/natid"] true.

Definition w_req (tok : string) (extra : headers) (o : op) : request :=
  mkReq "/v1/x" (<["Authorization" := "Bearer " +:+ tok]> extra) "" o.
Abbreviation w_run := (run w_cf lower_string (λ t, t) (λ l, l)) (only parsing).

(** Request [k], alone, at [t] seconds. *)
Definition w_alone (k : nat) (t : Z) (rq : request) : list event :=
  Arrive k "edge" rq :: replicate 14 (Exec k (t * 10 ^ 9) Done).
Definition w_reply (k : nat) (w : world) : option reply :=
  match w_threads w !! k with Some (_, Ret r) => Some r | _ => None end.
Definition w_ws (k : nat) (w : world) : option string :=
  match w_reply k w with Some (Forward h) => Some (hget WORKSPACE h) | _ => None end.
Definition w_role (o u : string) (w : world) : option string := m_role <$> members (w_db w) !! (o, u).

(** Ann founds acme, mints a token and invites Bob, who joins. *)
Definition w_story : list event :=
  w_alone 0 1 (w_req "A" ∅ (OCreateOrg "o1" "00000000" (Some ("Acme", "")))) ++
  w_alone 1 100 (w_req "A" ∅ (OCreateToken "0123456789abcdef0123456789abcdef" "ci")) ++
  w_alone 2 101 (w_req "A" ∅ (OInvite "o1" "i1" (Some ("bob@x.io", "member")))) ++
  w_alone 3 102 (w_req "B" ∅ (OAccept "i1")) ++
  w_alone 4 103 (w_req "B" {[ORG := "o1"; WORKSPACE := "admin"]} OForward) ++
  w_alone 5 104 (w_req "pds_0123456789abcdef0123456789abcdef" {[METHOD := "jwt"; USER_ID := w_b]} OForward) ++
  w_alone 6 105 (w_req "C" {[ORG := "o1"]} OForward).

Lemma w_env : environment w_cf lower_string (λ l, l).
Proof.
  split.
  - induction s as [|c s IH]; [done|]. cbn. intros [Hc Hs]%andb_true_iff. rewrite IH by done. f_equal.
    unfold lower_ascii. replace (is_upper c) with false; [done|]. unfold slug_char, is_alnum, is_lower, is_digit, is_dash in Hc.
    unfold is_upper. lia.
  - intros parse t c [= <-]. unfold w_parse. repeat destruct (String.eqb _ _); intros [= <-]; done.
  - done.
  - done.
Qed.

Lemma workspace_is_earned_witness :
  let w := w_run w_story idle in
  w_ws 4 w = Some "acme" ∧ w_ws 5 w = Some "acme" ∧ w_reply 6 w = Some (Code 403) ∧
  ∃ u, entitled u "acme" (w_db w) ∧ u = w_b.
Proof.
  intros w. split_and!; [vm_compute; reflexivity..|].
  assert (Hk : ∃ h, w_threads (w_run w_story idle) !! 4%nat = Some (w_req "B" {[ORG := "o1"; WORKSPACE := "admin"]} OForward, Ret (Forward h)) ∧
                    hget WORKSPACE h = "acme").
  { eexists. split; [vm_compute; reflexivity|vm_compute; reflexivity]. }
  destruct Hk as (h & Hk & Hw).
  assert (Hes : arrivals_ok w_cf w_story = true) by (vm_compute; reflexivity).
  destruct (workspace_is_earned w_cf lower_string (λ t, t) (λ l, l) w_story 4 (w_req "B" {[ORG := "o1"; WORKSPACE := "admin"]} OForward) h w_env Hes Hk) as (u & He & _ & Hp);
    [vm_compute; reflexivity..|].
  exists u. rewrite Hw in He. split; [exact He|]. destruct Hp as [Hp _]. vm_compute in Hp. by injection Hp.
Defined.

Lemma tenants_do_not_meet_witness :
  let d := w_db (w_run w_story idle) in
  entitled w_a "acme" d ∧ entitled w_b "acme" d ∧
  (w_a = w_b ∨ ∃ o, given w_a o d ∧ given w_b o d ∧ slug_of o "acme" d ∧ ∀ o', slug_of o' "acme" d → o' = o).
Proof.
  assert (Hes : arrivals_ok w_cf w_story = true) by (vm_compute; reflexivity).
  assert (Hs : slug_of "o1" "acme" (w_db (w_run w_story idle))).
  { exists (mkOrg "acme" "Acme" w_a (10 ^ 9)). split; vm_compute; reflexivity. }
  assert (Hlog : log (w_db (w_run w_story idle)) = 
    [GAccepted w_b "o1" "i1"; GInvited w_a "o1" "i1"; GSeen w_a "o1" "owner";
     GMinted w_a "pds_0123456789abcdef0123456789abcdef" "acme"; GCreated w_a "o1"]) by (vm_compute; reflexivity).
  assert (Ha : entitled w_a "acme" (w_db (w_run w_story idle))).
  { right. exists "o1". split; [left; left; rewrite Hlog; do 4 right; left|exact Hs]. }
  assert (Hb : entitled w_b "acme" (w_db (w_run w_story idle))).
  { right. exists "o1". split; [right; right; exists "i1"; rewrite Hlog; left|exact Hs]. }
  cbv zeta. split_and!; [exact Ha|exact Hb|].
  apply (tenants_do_not_meet w_cf lower_string (λ t, t) (λ l, l) w_story w_a w_b "acme" w_env Hes); [vm_compute; reflexivity..|exact Ha|exact Hb].
Defined.


Definition w_list : list event := w_story ++ w_alone 7 106 (w_req "B" ∅ OListOrgs).

Lemma replies_show_own_orgs_witness :
  ∃ l, w_reply 7 (w_run w_list idle) = Some (OrgsR l) ∧ map org_id l = ["o1"] ∧ shows w_b (OrgsR l) (w_db (w_run w_list idle)).
Proof.
  assert (Hes : arrivals_ok w_cf w_list = true) by (vm_compute; reflexivity).
  assert (Hk : ∃ l, w_threads (w_run w_list idle) !! 7%nat = Some (w_req "B" ∅ OListOrgs, Ret (OrgsR l)) ∧
    w_reply 7 (w_run w_list idle) = Some (OrgsR l) ∧ map org_id l = ["o1"]).
  { eexists. split_and!; [vm_compute; reflexivity..|]. vm_compute. reflexivity. }
  destruct Hk as (l & Hk & Hr & Hm). exists l. split; [exact Hr|]. split; [exact Hm|].
  pose proof (replies_show_own_orgs w_cf lower_string (λ t, t) (λ l, l) w_list 7 (w_req "B" ∅ OListOrgs) (OrgsR l) w_env Hes Hk) as H.
  assert (Hp : principal w_cf (w_req "B" ∅ OListOrgs) = Some w_b) by (vm_compute; reflexivity).
  rewrite Hp in H. apply H; [done|vm_compute; reflexivity..].
Defined.

(** ** What the code allows *)

(** Ann removes Bob, for whom acme is the current organization: he goes on being
    served under it, for ever. *)
Lemma removed_member_keeps_workspace :
  let w := w_run (w_story ++ w_alone 7 200 (w_req "B" ∅ (OSetCurrent (Some "o1"))) ++
                  w_alone 8 300 (w_req "A" ∅ (ORemove "o1" w_b)) ++ w_alone 9 900000 (w_req "B" ∅ OForward)) idle in
  w_reply 8 w = Some (Code 204) ∧ w_role "o1" w_b w = None ∧ w_ws 9 w = Some "acme".
Proof. vm_compute. done. Qed.

(** The slug of Bob's personal organization can be known beforehand.  Carol takes
    it; Bob's first visit makes him a member of her organization, and what he
    creates is in her workspace. *)
Lemma personal_slug_is_taken_over :
  let w := w_run (w_alone 0 1 (w_req "C" ∅ (OCreateOrg "o9" "00000000" (Some ("Bob", "bob-bbbbbbbb")))) ++
                  w_alone 1 2 (w_req "B" ∅ (OMe "o1" "00000000")) ++
                  w_alone 2 100 (w_req "B" ∅ OForward) ++ w_alone 3 101 (w_req "C" ∅ OForward)) idle in
  w_reply 1 w = Some (MeR w_b (Some "o9") ["o9"]) ∧ w_role "o9" w_b w = Some "owner" ∧ w_role "o9" w_c w = Some "owner" ∧
  w_ws 2 w = Some "bob-bbbbbbbb" ∧ w_ws 3 w = Some "bob-bbbbbbbb".
Proof. vm_compute. done. Qed.

(** InvalidateUser is called by nothing: after a switch the old organization is
    served until the cached entry expires. *)
Lemma switch_is_stale :
  let two := w_alone 0 1 (w_req "A" ∅ (OCreateOrg "o1" "00000000" (Some ("One", "")))) ++
             w_alone 1 100 (w_req "A" ∅ (OCreateOrg "o2" "00000000" (Some ("Two", "")))) ++
             w_alone 2 101 (w_req "A" ∅ (OSetCurrent (Some "o2"))) in
  let w := w_run (two ++ w_alone 3 102 (w_req "A" ∅ OForward) ++ w_alone 4 132 (w_req "A" ∅ OForward)) idle in
  w_reply 2 w = Some (Code 200) ∧ w_ws 3 w = Some "one" ∧ w_ws 4 w = Some "two".
Proof. vm_compute. done. Qed.

(** The guards of removeMember read with errors ignored: when two queries fail an
    admin removes the owner. *)
Lemma failed_queries_remove_the_owner :
  let w := w_run (w_alone 0 1 (w_req "A" ∅ (OCreateOrg "o1" "00000000" (Some ("Acme", "")))) ++
                  w_alone 1 100 (w_req "A" ∅ (OInvite "o1" "i1" (Some ("bob@x.io", "admin")))) ++
                  w_alone 2 101 (w_req "B" ∅ (OAccept "i1")) ++
                  (* the resolver: cache, clock, current organization, oldest, clock, cache; then the role *)
                  Arrive 3 "edge" (w_req "B" ∅ (ORemove "o1" w_a)) :: replicate 7 (Exec 3 (200 * 10 ^ 9) Done) ++
                  [Exec 3 (200 * 10 ^ 9) Refused; Exec 3 (200 * 10 ^ 9) Done; Exec 3 (200 * 10 ^ 9) Refused; Exec 3 (200 * 10 ^ 9) Done]) idle in
  w_reply 3 w = Some (Code 204) ∧ w_role "o1" w_a w = None ∧ w_role "o1" w_b w = Some "admin".
Proof. vm_compute. done. Qed.

(** Whether an invitation was used is read outside the transaction that uses it,
    and the e-mail is compared only when the token has one: two users join by one
    invitation to a third. *)
Lemma invitation_used_twice :
  let w := w_run (w_alone 0 1 (w_req "A" ∅ (OCreateOrg "o1" "00000000" (Some ("Acme", "")))) ++
                  w_alone 1 100 (w_req "A" ∅ (OInvite "o1" "i1" (Some ("bob@x.io", "admin")))) ++
                  [Arrive 2 "edge" (w_req "C" ∅ (OAccept "i1"))] ++ replicate 6 (Exec 2 (200 * 10 ^ 9) Done) ++
                  w_alone 3 200 (w_req "B" ∅ (OAccept "i1")) ++ replicate 3 (Exec 2 (200 * 10 ^ 9) Done)) idle in
  w_role "o1" w_b w = Some "admin" ∧ w_role "o1" w_c w = Some "admin".
Proof. vm_compute. done. Qed.

(** An owner who accepts an invitation of its organization is no owner any more. *)
Lemma accepting_demotes_the_owner :
  let w := w_run (w_alone 0 1 (w_req "C" ∅ (OCreateOrg "o1" "00000000" (Some ("Acme", "")))) ++
                  w_alone 1 100 (w_req "C" ∅ (OInvite "o1" "i1" (Some ("new@x.io", "")))) ++
                  w_alone 2 101 (w_req "C" ∅ (OAccept "i1"))) idle in
  w_role "o1" w_c w = Some "member" ∧ (o_owner <$> orgs (w_db w) !! "o1") = Some w_c.
Proof. vm_compute. done. Qed.

(** The e-mail header is overwritten only when the credential has an e-mail. *)
Lemma email_is_the_clients :
  let w := w_run (w_alone 0 1 (w_req "C" {[EMAIL := "ann@x.io"]} OForward)) idle in
  match w_reply 0 w with Some (Forward h) => hget USER_ID h = w_c ∧ hget EMAIL h = "ann@x.io" | _ => False end.
Proof. vm_compute. done. Qed.

(** The paths that skip authentication are prefixes. *)
Lemma skip_is_a_prefix :
  skip w_cf "/metrics-of-all" = true ∧
  w_ws 0 (w_run (w_alone 0 1 (mkReq "/v1/internal/natid-of-all" {[WORKSPACE := "admin"]} "" OForward)) idle) = Some "admin".
Proof. vm_compute. done. Qed.
