(* ===== verification/Tokens.v ===== *)
(** The two implementations of the tokenStore interface of api/cmd/api/auth.go:
    the JSON file (fileTokenStore) and the shared table (pgTokenStore, auth_pg.go,
    over [OrgDb]'s statements).  [TokenStoreLaws] says what the interface promises
    in terms of the set of live tokens; both implementations keep it, and the
    migration at boot carries the one over to the other. *)

From S2P Require Import Prelude GoStrings OrgDb Orgs.

Open Scope string_scope.
Open Scope list_scope.
Open Scope Z_scope.
#[local] Set Warnings "-clear-no-such-hyp".

(** Times are in nanoseconds, as time.Now gives them and the file's JSON keeps
    them. *)
Record tokenRec := mkRec { Token : string; Workspace : string; Label : string; CreatedAt : Z }.
#[export] Instance tokenRec_eq_dec : EqDecision tokenRec.
Proof. solve_decision. Defined.

(** The record as it is listed. *)
Definition masked (r : tokenRec) : tokenRec := mkRec (Prefix (Token r)) (Workspace r) (Label r) (CreatedAt r).

(** The record both implementations of Create make of their random bytes (in
    hexadecimal) and the clock; [None]: "workspace required". *)
Definition mint (rnd : string) (now : Z) (ws label : string) : option tokenRec :=
  if String.eqb (TrimSpace ws) "" then None else Some (mkRec ("pds_" +:+ rnd) ws (TrimSpace label) now).

(** ** The interface *)

Class TokenStore (S : Type) := {
  ts_lookup : string → S → option tokenRec;
  ts_list : string → S → list tokenRec;
  ts_create : string → Z → string → string → S → S * option tokenRec;
  ts_revoke : string → string → S → S * bool;
}.

(** The tokens that are valid, by their text. *)
Abbreviation live := (gmap string tokenRec) (only parsing).
Definition hit (ws prefix : string) (r : tokenRec) : Prop := Workspace r = ws ∧ Prefix (Token r) = prefix.
#[export] Instance hit_dec ws prefix r : Decision (hit ws prefix r).
Proof. unfold hit. apply _. Defined.
Definition kept (ws prefix : string) (m : live) : live := filter (λ x, ¬ hit ws prefix x.2) m.

(** [column t] is what a TIMESTAMPTZ column reads back for the time [t]: whole
    microseconds.  A record with its time so rounded. *)
Definition rounded (column : Z → Z) (r : tokenRec) : tokenRec := mkRec (Token r) (Workspace r) (Label r) (column (CreatedAt r)).

(** What is read back is promised up to that rounding, and lists up to their
    order; what Create answers is exact. *)
Class TokenStoreLaws (S : Type) `{!TokenStore S} (column : Z → Z) (U : string → Prop) (holds : S → live → Prop) := {
  law_lookup s m tok : holds s m → U tok → rounded column <$> ts_lookup tok s = rounded column <$> m !! tok;
  law_list s m ws : holds s m →
    rounded column <$> ts_list ws s ≡ₚ rounded column ∘ masked <$> filter (λ r, Workspace r = ws) (map_to_list m).*2;
  law_create s m rnd now ws label : holds s m → U ("pds_" +:+ rnd) → m !! ("pds_" +:+ rnd) = None →
    (ts_create rnd now ws label s).2 = mint rnd now ws label ∧
    holds (ts_create rnd now ws label s).1
      match mint rnd now ws label with Some r => <[Token r := r]> m | None => m end;
  law_revoke s m ws prefix : holds s m →
    holds (ts_revoke ws prefix s).1 (kept ws prefix m) ∧
    (ts_revoke ws prefix s).2 = bool_decide (∃ tok r, m !! tok = Some r ∧ hit ws prefix r);
}.

(** ** The file *)

Module File.
(** What is in memory and what is on disk. *)
Record store := mkStore { recs : list tokenRec; disk : list tokenRec }.

(** [saveLocked]: a temporary file and a rename, or an error. *)
Definition saveLocked (ok : bool) (s : store) : store := if ok then mkStore (recs s) (recs s) else s.

Definition LookupByToken (tok : string) (s : store) : option tokenRec :=
  List.find (λ r, String.eqb (Token r) tok) (recs s).

Definition ListByWorkspace (ws : string) (s : store) : list tokenRec :=
  masked <$> filter (λ r, Workspace r = ws) (recs s).

(** The record is returned with the error of the save; the caller answers 500. *)
Definition Create (ok : bool) (rnd : string) (now : Z) (ws label : string) (s : store) : store * option tokenRec :=
  match mint rnd now ws label with
  | None => (s, None)
  | Some r => (saveLocked ok (mkStore (recs s ++ [r]) (disk s)), if ok then Some r else None)
  end.

Definition RevokeByPrefix (ok : bool) (ws prefix : string) (s : store) : store * bool :=
  if bool_decide (Exists (hit ws prefix) (recs s))
  then (saveLocked ok (mkStore (filter (λ r, ¬ hit ws prefix r) (recs s)) (disk s)), ok)
  else (s, false).

Definition Snapshot (s : store) : list tokenRec := recs s.

(** A restart reads the file. *)
Definition reopen (s : store) : store := mkStore (disk s) (disk s).
End File.

#[export] Instance file_store : TokenStore File.store := {|
  ts_lookup := File.LookupByToken;
  ts_list := File.ListByWorkspace;
  ts_create := File.Create true;
  ts_revoke := File.RevokeByPrefix true;
|}.

(** The records are the live tokens, one each; memory and disk agree. *)
Definition file_holds (s : File.store) (m : live) : Prop :=
  File.disk s = File.recs s ∧ NoDup (Token <$> File.recs s) ∧
  ∀ tok r, m !! tok = Some r ↔ r ∈ File.recs s ∧ Token r = tok.

(** ** The table *)

Section column.
Context (column : Z → Z).
Definition row_of (r : tokenRec) : token := mkToken (Prefix (Token r)) (Workspace r) (Label r) (column (CreatedAt r)).
End column.

Module Pg.
(** The statements of pgTokenStore, answered. *)
Definition do {A} (s : stmt A) (d : db) : db * option A := apply (λ l, l) 0 s d.

Section pg.
Context (column : Z → Z) (hashToken : string → string).

Definition LookupByToken (tok : string) (d : db) : option tokenRec :=
  if String.eqb (TrimSpace tok) "" then None
  else match (do (SelToken (hashToken tok)) d).2 with
  | Some (Some t) => Some (mkRec tok (t_ws t) (t_label t) (t_created t))
  | _ => None
  end.

Definition ListByWorkspace (ws : string) (d : db) : list tokenRec :=
  (λ t, mkRec (t_prefix t) ws (t_label t) (t_created t)) <$> default [] (do (SelTokens ws) d).2.

Definition insert (r : tokenRec) (d : db) : db * option unit := do (InsToken "" (hashToken (Token r)) (row_of column r)) d.

Definition Create (rnd : string) (now : Z) (ws label : string) (d : db) : db * option tokenRec :=
  match mint rnd now ws label with
  | None => (d, None)
  | Some r => let '(d, a) := insert r d in (d, (λ _, r) <$> a)
  end.

Definition RevokeByPrefix (ws prefix : string) (d : db) : db * bool :=
  let '(d, a) := do (DelTokens ws prefix) d in (d, match a with Some n => 0 <? n | None => false end).

(** One row of migrateFromFile; [ok]: whether its statement is answered.  On a
    conflict it does nothing. *)
Definition migrate_one (ok : tokenRec → bool) (x : db * Z) (r : tokenRec) : db * Z :=
  if String.eqb (Token r) "" || String.eqb (Workspace r) "" then x
  else if ok r then ((insert r x.1).1, x.2 + 1) else x.
Definition migrateFromFile (ok : tokenRec → bool) (s : File.store) (d : db) : db * Z :=
  foldl (migrate_one ok) (d, 0) (File.Snapshot s).
End pg.
End Pg.

#[export] Instance pg_store (column : Z → Z) (hashToken : string → string) : TokenStore db := {|
  ts_lookup := Pg.LookupByToken hashToken;
  ts_list := Pg.ListByWorkspace;
  ts_create := Pg.Create column hashToken;
  ts_revoke := Pg.RevokeByPrefix;
|}.

(** The rows are those of the live tokens, none of which is blank. *)
Definition pg_holds (column : Z → Z) (hashToken : string → string) (U : string → Prop) (d : db) (m : live) : Prop :=
  (∀ tok r, m !! tok = Some r → Token r = tok ∧ U tok ∧ TrimSpace tok ≠ "") ∧
  (∀ h t, tokens d !! h = Some t ↔ ∃ tok r, m !! tok = Some r ∧ hashToken tok = h ∧ row_of column r = t).

(** ** The file keeps the promises *)

Lemma find_spec tok l r : NoDup (Token <$> l) → List.find (λ r, String.eqb (Token r) tok) l = Some r ↔ r ∈ l ∧ Token r = tok.
Proof.
  induction l as [|x l IH]; intros Hnd; cbn.
  - split; [done|]. by intros [?%not_elem_of_nil _].
  - apply NoDup_cons in Hnd as [Hx Hnd]. destruct (String.eqb_spec (Token x) tok) as [E|E].
    + rewrite elem_of_cons. split; [intros [= <-]; auto|]. intros [[->|Hr] Et]; [done|]. exfalso. apply Hx.
      rewrite E, <- Et. by apply list_elem_of_fmap_2.
    + rewrite (IH Hnd), elem_of_cons. naive_solver.
Qed.

Lemma file_same_list s m : file_holds s m → File.recs s ≡ₚ (map_to_list m).*2.
Proof.
  intros (_ & Hnd & Hm). apply NoDup_Permutation.
  - by eapply NoDup_fmap_1.
  - apply NoDup_fmap_2_strong; [|apply NoDup_map_to_list]. intros [k1 r1] [k2 r2] H1 H2 E. cbn in E. subst r2.
    apply elem_of_map_to_list, Hm in H1 as [_ <-]. by apply elem_of_map_to_list, Hm in H2 as [_ <-].
  - intros r. rewrite list_elem_of_fmap. split.
    + intros Hr. exists (Token r, r). split; [done|]. by apply elem_of_map_to_list, Hm.
    + intros ([k r'] & -> & Hk). by apply elem_of_map_to_list, Hm in Hk as [? _].
Qed.

#[export] Instance file_laws column U : TokenStoreLaws File.store column U file_holds.
Proof.
  split.
  - intros s m tok (_ & Hnd & Hm) _. f_equal. apply option_eq. intros r. by rewrite Hm, <- (find_spec _ _ _ Hnd).
  - intros s m ws H. cbn. unfold File.ListByWorkspace. by rewrite (file_same_list s m H), list_fmap_compose.
  - intros s m rnd now ws label (Hd & Hnd & Hm) _ Hn. cbn. unfold File.Create, mint.
    destruct (String.eqb (TrimSpace ws) ""); [done|]. split; [done|]. cbn [fst Token].
    remember (mkRec ("pds_" +:+ rnd) ws (TrimSpace label) now) as r eqn:Er.
    assert (Et : "pds_" +:+ rnd = Token r) by (by rewrite Er). rewrite Et in *. clear Er Et. split_and!; [done| |].
    + cbn. rewrite fmap_app. apply NoDup_app. split_and!; [done| |apply NoDup_singleton].
      intros tok Ht ->%list_elem_of_singleton. apply list_elem_of_fmap in Ht as (q & E & Hq).
      assert (m !! Token r = Some q); [by apply Hm|congruence].
    + intros tok q. cbn [File.recs File.saveLocked]. rewrite elem_of_app, list_elem_of_singleton, lookup_insert. case_decide as E.
      * subst tok. split; [intros [= <-]; auto|]. intros [[Hq| ->] Et]; [|done].
        assert (m !! Token r = Some q); [by apply Hm|congruence].
      * rewrite Hm. naive_solver.
  - intros s m ws prefix (Hd & Hnd & Hm). cbn. unfold File.RevokeByPrefix.
    assert (Hex : Exists (hit ws prefix) (File.recs s) ↔ ∃ tok r, m !! tok = Some r ∧ hit ws prefix r).
    { rewrite Exists_exists. split; [intros (r & Hr & Hh); exists (Token r), r; split; [by apply Hm|done]|].
      intros (tok & r & Hr & Hh). exists r. split; [by apply Hm in Hr as [? _]|done]. }
    destruct (decide (Exists (hit ws prefix) (File.recs s))) as [He|He].
    + rewrite !bool_decide_true by tauto. split; [|done]. split_and!; [done|..]; cbn.
      * assert (Hsub : (Token <$> filter (λ r, ¬ hit ws prefix r) (File.recs s)) `sublist_of` (Token <$> File.recs s))
          by apply fmap_sublist, sublist_filter. by eapply sublist_NoDup.
      * intros tok r. unfold kept. rewrite map_lookup_filter_Some, list_elem_of_filter, Hm. cbn. tauto.
    + rewrite !bool_decide_false by tauto. split; [|done]. split_and!; [done..|]. intros tok r. unfold kept.
      rewrite map_lookup_filter_Some, <- Hm. split; [tauto|]. intros Hr. split; [done|]. cbn. intros Hh. apply He, Hex. by exists tok, r.
Qed.

(** ** The table keeps the promises *)

(** A minted token is not blank. *)
Lemma minted_token rnd : TrimSpace ("pds_" +:+ rnd) ≠ "".
Proof. unfold TrimSpace. rewrite rtrim_empty. done. Qed.

Section table.
Context (column : Z → Z) (hashToken : string → string) (U : string → Prop).
(** A time read from the column is written back as it is. *)
Context (column_idem : ∀ t, column (column t) = column t).
(** No two tokens that are minted or presented collide. *)
Context (hash_inj : ∀ x y, U x → U y → hashToken x = hashToken y → x = y).

Lemma pg_row d m tok : pg_holds column hashToken U d m → U tok → tokens d !! hashToken tok = row_of column <$> m !! tok.
Proof.
  intros [H1 H2] Hu. apply option_eq. intros t. rewrite H2, fmap_Some. split.
  - intros (tok' & r & Hm & E & <-). apply hash_inj in E; [|by apply (H1 tok' r)|done]. subst tok'. by exists r.
  - intros (r & Hm & ->). by exists tok, r.
Qed.

Lemma pg_rows d m : pg_holds column hashToken U d m → (map_to_list (tokens d)).*2 ≡ₚ row_of column <$> (map_to_list m).*2.
Proof.
  intros H. pose proof H as [H1 H2].
  assert (E : tokens d = list_to_map ((λ x : string * tokenRec, (hashToken x.1, row_of column x.2)) <$> map_to_list m)).
  { apply map_eq. intros h. apply option_eq. intros t. rewrite H2, <- elem_of_list_to_map.
    - rewrite list_elem_of_fmap. split.
      + intros (tok & r & Hm & <- & <-). exists (tok, r). split; [done|]. by apply elem_of_map_to_list.
      + intros ([tok r] & [= -> ->] & Hm%elem_of_map_to_list). by exists tok, r.
    - rewrite <- list_fmap_compose. apply NoDup_fmap_2_strong; [|apply NoDup_map_to_list].
      intros [k1 r1] [k2 r2] Hk1%elem_of_map_to_list Hk2%elem_of_map_to_list E. cbn in E.
      assert (k1 = k2) as -> by (apply hash_inj; [by apply (H1 k1 r1)|by apply (H1 k2 r2)|done]). congruence. }
  rewrite E, map_to_list_to_map; [by rewrite <- !list_fmap_compose|].
  rewrite <- list_fmap_compose. apply NoDup_fmap_2_strong; [|apply NoDup_map_to_list].
  intros [k1 r1] [k2 r2] Hk1%elem_of_map_to_list Hk2%elem_of_map_to_list E'. cbn in E'.
  assert (k1 = k2) as -> by (apply hash_inj; [by apply (H1 k1 r1)|by apply (H1 k2 r2)|done]). congruence.
Qed.

Lemma pg_insert d m r : pg_holds column hashToken U d m → U (Token r) → TrimSpace (Token r) ≠ "" → m !! Token r = None →
  pg_holds column hashToken U (Pg.insert column hashToken r d).1 (<[Token r := r]> m) ∧ (Pg.insert column hashToken r d).2 = Some ().
Proof.
  intros H Hu Hb Hn. unfold Pg.insert, Pg.do. cbn [apply]. rewrite (pg_row d m _ H Hu), Hn. cbn [fmap option_fmap option_map].
  split; [|done]. destruct H as [H1 H2]. split.
  - intros tok q. rewrite lookup_insert. case_decide as E; [|apply H1]. by intros [= <-]; subst.
  - intros h t. cbn [fst tokens note set_tokens]. rewrite lookup_insert. case_decide as E.
    + subst h. split; [intros [= <-]; exists (Token r), r; by rewrite lookup_insert_eq|].
      intros (tok & q & Hq & E & <-). rewrite lookup_insert in Hq. case_decide as Et; [by injection Hq as <-|].
      destruct Et. apply hash_inj; [done|by apply (H1 tok q)|done].
    + rewrite H2. split; intros (tok & q & Hq & Eh & Er); exists tok, q; rewrite lookup_insert in *; case_decide as Et; by subst.
Qed.

Lemma pg_insert_taken d m r q : pg_holds column hashToken U d m → U (Token r) → m !! Token r = Some q → Pg.insert column hashToken r d = (d, None).
Proof. intros H Hu Hq. unfold Pg.insert, Pg.do. cbn [apply]. by rewrite (pg_row d m _ H Hu), Hq. Qed.

#[export] Instance pg_laws : TokenStoreLaws (TokenStore0 := pg_store column hashToken) db column U (pg_holds column hashToken U).
Proof.
  split.
  - intros d m tok H Hu. cbn. unfold Pg.LookupByToken, Pg.do. destruct (String.eqb_spec (TrimSpace tok) "") as [E|_].
    { destruct (m !! tok) eqn:Em; [|done]. by apply (proj1 H) in Em as (_ & _ & ?). }
    cbn [apply snd]. rewrite (pg_row d m _ H Hu). destruct (m !! tok) as [[? ? ? ?]|] eqn:Em; [|done]. apply (proj1 H) in Em as [<- _].
    unfold rounded. cbn. by rewrite column_idem.
  - intros d m ws H. cbn. unfold Pg.ListByWorkspace. cbn [apply Pg.do snd default from_option].
    rewrite (pg_rows d m H). generalize ((map_to_list m).*2). clear - column_idem. intros l. induction l as [|r l IH]; [done|].
    cbn [fmap list_fmap]. rewrite !filter_cons. cbn [row_of t_ws]. case_decide as E; [|done].
    cbn [fmap list_fmap]. f_equiv; [|done]. unfold masked, rounded. cbn. by rewrite E, column_idem.
  - intros d m rnd now ws label H Hu Hn. cbn. unfold Pg.Create, mint. destruct (String.eqb _ ""); [done|].
    destruct (pg_insert d m (mkRec ("pds_" +:+ rnd) ws (TrimSpace label) now)) as [H1 H2]; [done..|apply minted_token|done|].
    destruct (Pg.insert _ _ _) as [d' a]. cbn in *. by subst a.
  - intros d m ws prefix H. cbn. unfold Pg.RevokeByPrefix. cbn [apply Pg.do fst snd]. set (f := filter _ (tokens d)). split.
    + destruct H as [H1 H2]. split; [intros tok r [Hr _]%map_lookup_filter_Some; by apply H1|].
      intros h t. cbn [tokens set_tokens]. unfold f. rewrite lookup_difference_Some, map_lookup_filter_None, H2. split.
      * intros [(tok & r & Hm & Eh & <-) Hf]. exists tok, r. split_and!; [|done..]. apply map_lookup_filter_Some. split; [done|].
        cbn. intros [Ew Ep]. destruct Hf as [Hf|Hf].
        { assert (tokens d !! h = Some (row_of column r)); [apply H2; by exists tok, r|by rewrite Hf in *]. }
        apply (Hf (row_of column r)); [apply H2; by exists tok, r|]. done.
      * intros (tok & r & [Hm Hk]%map_lookup_filter_Some & Eh & <-). split; [by exists tok, r|]. right. intros t Ht. cbn in *.
        apply H2 in Ht as (tok' & r' & Hm' & Eh' & <-). cbn. intros [Ew Ep]. apply Hk.
        assert (tok' = tok) as -> by (apply hash_inj; [by apply (H1 tok' r')|by apply (H1 tok r)|congruence]).
        rewrite Hm in Hm'. by injection Hm' as <-.
    + case_bool_decide as E.
      * destruct E as (tok & r & Hm & Ew & Ep). apply Z.ltb_lt. assert (size f ≠ 0%nat); [|lia]. intros Hs%map_size_empty_iff.
        assert (Hf : f !! hashToken tok = Some (row_of column r)); [|by rewrite Hs in Hf].
        apply map_lookup_filter_Some. split; [|done]. apply (proj2 H). by exists tok, r.
      * apply Z.ltb_ge. destruct (decide (f = ∅)) as [Hf|(h & t & Ht)%map_choose]; [by rewrite Hf|].
        destruct E. apply map_lookup_filter_Some in Ht as [Ht [Ew Ep]]. apply (proj2 H) in Ht as (tok & r & Hm & _ & <-). by exists tok, r.
Qed.
End table.

(** ** Clients of the interface *)

Inductive call :=
  | Lookup (tok : string)
  | List_ (ws : string)
  | Mint (rnd : string) (now : Z) (ws label : string)
  | Revoke (ws pfx : string).
Inductive answer :=
  | ARec (r : option tokenRec)
  | AList (l : list tokenRec)
  | ANew (r : option tokenRec)
  | ARevoked (b : bool).

(** The table lists by creation time, latest first, the file in its order; a
    time that is read back may be rounded. *)
Section alike.
Context (column : Z → Z).
Definition alike (a b : answer) : Prop :=
  match a, b with
  | ARec r, ARec q => rounded column <$> r = rounded column <$> q
  | AList l, AList k => rounded column <$> l ≡ₚ rounded column <$> k
  | _, _ => a = b
  end.
#[export] Instance alike_equiv : Equivalence alike.
Proof.
  split.
  - intros []; cbn; reflexivity.
  - intros [] []; cbn; intros E; first [congruence|by rewrite E].
  - intros [] [] []; cbn; intros E1 E2; first [congruence|by rewrite E1].
Qed.
End alike.

Definition do_call {S} `{!TokenStore S} (c : call) (s : S) : S * answer :=
  match c with
  | Lookup tok => (s, ARec (ts_lookup tok s))
  | List_ ws => (s, AList (ts_list ws s))
  | Mint rnd now ws label => let '(s, r) := ts_create rnd now ws label s in (s, ANew r)
  | Revoke ws pfx => let '(s, b) := ts_revoke ws pfx s in (s, ARevoked b)
  end.
Fixpoint answers {S} `{!TokenStore S} (cs : list call) (s : S) : list answer :=
  match cs with [] => [] | c :: cs => (do_call c s).2 :: answers cs (do_call c s).1 end.

(** What a call does to the live tokens. *)
Definition after (c : call) (m : live) : live :=
  match c with
  | Mint rnd now ws label => match mint rnd now ws label with Some r => <[Token r := r]> m | None => m end
  | Revoke ws pfx => kept ws pfx m
  | _ => m
  end.
(** Minted tokens are new. *)
Fixpoint calls_ok (U : string → Prop) (cs : list call) (m : live) : Prop :=
  match cs with
  | [] => True
  | c :: cs =>
      match c with
      | Lookup tok => U tok
      | Mint rnd _ _ _ => U ("pds_" +:+ rnd) ∧ m !! ("pds_" +:+ rnd) = None
      | _ => True
      end ∧ calls_ok U cs (after c m)
  end.

(** Two implementations of the interface that hold the same tokens cannot be told apart. *)
Lemma laws_alike {S1 S2} `{T1 : !TokenStore S1, T2 : !TokenStore S2} column U h1 h2
    `{L1 : !TokenStoreLaws S1 column U h1, L2 : !TokenStoreLaws S2 column U h2} cs s1 s2 m :
  h1 s1 m → h2 s2 m → calls_ok U cs m → Forall2 (alike column) (answers cs s1) (answers cs s2).
Proof.
  revert s1 s2 m. induction cs as [|c cs IH]; intros s1 s2 m H1 H2 Hok; [constructor|]. destruct Hok as [Hc Hcs]. cbn [answers]. destruct c; cbn [do_call fst snd after] in *.
  - constructor; [|by eapply IH]. cbn. by rewrite (law_lookup s1 m), (law_lookup s2 m).
  - constructor; [|by eapply IH]. cbn. by rewrite (law_list s1 m ws H1), (law_list s2 m ws H2).
  - destruct Hc as [Hu Hn]. destruct (law_create s1 m rnd now ws label H1 Hu Hn) as [E1 G1].
    destruct (law_create s2 m rnd now ws label H2 Hu Hn) as [E2 G2].
    destruct (ts_create _ _ _ _ s1), (ts_create _ _ _ _ s2). cbn in *. constructor; [cbn; congruence|by eapply IH].
  - destruct (law_revoke s1 m ws pfx H1) as [G1 E1]. destruct (law_revoke s2 m ws pfx H2) as [G2 E2].
    destruct (ts_revoke _ _ s1), (ts_revoke _ _ s2). cbn in *. constructor; [cbn; congruence|by eapply IH].
Qed.

Section migration.
Context (column : Z → Z) (hashToken : string → string) (U : string → Prop).
Context (hash_inj : ∀ x y, U x → U y → hashToken x = hashToken y → x = y).

Definition importable (r : tokenRec) : Prop := U (Token r) ∧ TrimSpace (Token r) ≠ "" ∧ Workspace r ≠ "".

Lemma migrate_rows ok m l : ∀ x m0, pg_holds column hashToken U x.1 m0 → m0 ⊆ m →
  (∀ r, r ∈ l → m !! Token r = Some r ∧ importable r) →
  ∃ m1, pg_holds column hashToken U (foldl (Pg.migrate_one column hashToken ok) x l).1 m1 ∧ m0 ⊆ m1 ∧ m1 ⊆ m ∧
    ∀ r, r ∈ l → ok r = true → m1 !! Token r = Some r.
Proof.
  induction l as [|r l IH]; intros x m0 H Hm Hl.
  { exists m0. split_and!; [done..|]. by intros r ?%not_elem_of_nil. }
  destruct (Hl r ltac:(left)) as [Er (Hu & Hb & Hw)].
  assert (Hx : ∃ m1, pg_holds column hashToken U (Pg.migrate_one column hashToken ok x r).1 m1 ∧ m0 ⊆ m1 ∧ m1 ⊆ m ∧ (ok r = true → m1 !! Token r = Some r)).
  { unfold Pg.migrate_one. destruct (String.eqb_spec (Token r) "") as [E|_]; [by rewrite E in Hb|].
    destruct (String.eqb_spec (Workspace r) "") as [E|_]; [done|]. cbn [orb]. destruct (ok r); [|by exists m0].
    destruct (m0 !! Token r) as [q|] eqn:Eq.
    - assert (q = r) as -> by (eapply lookup_weaken in Hm; [|exact Eq]; congruence).
      exists m0. rewrite (pg_insert_taken column hashToken U hash_inj _ m0 r r) by done. done.
    - exists (<[Token r := r]> m0). split_and!; [by apply pg_insert|by apply insert_subseteq|by apply insert_subseteq_l|].
      intros _. by rewrite lookup_insert_eq. }
  destruct Hx as (m1 & H1 & Hs1 & Hs1' & Hr). destruct (IH _ m1 H1 Hs1') as (m2 & H2 & Hs2 & Hs2' & Hr2); [intros q Hq; apply Hl; by right|].
  exists m2. split_and!; [done|by etransitivity|done|]. intros q [->|Hq]%elem_of_cons Hok; [|by apply Hr2].
  eapply lookup_weaken; [by apply Hr|done].
Qed.
End migration.

(** C38. However many boots' attempts at migrating the token file into the empty
    table were cut short (any rows of each may fail; nobody calls the store in
    between), once one goes through the table, as long as its statements are
    answered, answers every sequence of calls of the interface as the file would
    have: the same tokens are accepted, for the same workspaces, the same are
    listed, minted and revoked.  Lists are compared up to their order, creation
    times that are read back up to the column's resolution. *)
Theorem migrated_store_answers_alike column hashToken U fs m attempts d cs :
  (∀ t, column (column t) = column t) →
  (∀ x y, U x → U y → hashToken x = hashToken y → x = y) →
  file_holds fs m → (∀ r, r ∈ File.recs fs → importable U r) → tokens d = ∅ → calls_ok U cs m →
  let d1 := foldl (λ d ok, (Pg.migrateFromFile column hashToken ok fs d).1) d attempts in
  let d2 := (Pg.migrateFromFile column hashToken (λ _, true) fs d1).1 in
  Forall2 (alike column) (answers (S := File.store) cs fs)
    (answers (S := db) (TokenStore0 := pg_store column hashToken) cs d2).
Proof.
  intros Hcol Hinj Hf Himp Hd Hcs d1 d2.
  assert (Hrecs : ∀ r, r ∈ File.recs fs → m !! Token r = Some r ∧ importable U r).
  { intros r Hr. split; [by apply Hf|by apply Himp]. }
  assert (H1 : ∃ m1, pg_holds column hashToken U d1 m1 ∧ m1 ⊆ m).
  { assert (Ha : ∃ m0, pg_holds column hashToken U d m0 ∧ m0 ⊆ m).
    { exists ∅. split; [|apply map_empty_subseteq]. split; [by intros ? ? ?|]. intros h t. rewrite Hd. naive_solver. }
    clear Hd d2. subst d1. revert d Ha. induction attempts as [|ok l IH]; intros d Ha; [done|]. cbn [foldl]. apply IH.
    destruct Ha as (m0 & H0 & Hs). destruct (migrate_rows column hashToken U Hinj ok m (File.recs fs) (d, 0) m0 H0 Hs Hrecs) as (m1 & ? & _ & ? & _).
    by exists m1. }
  destruct H1 as (m1 & H1 & Hs1).
  destruct (migrate_rows column hashToken U Hinj (λ _, true) m (File.recs fs) (d1, 0) m1 H1 Hs1 Hrecs) as (m2 & H2 & _ & Hs2 & Hall).
  assert (m2 = m) as ->.
  { apply map_subseteq_po; [done|]. apply map_subseteq_spec. intros tok r Hr. apply Hf in Hr as [Hr <-]. by apply Hall. }
  by eapply (laws_alike (T2 := pg_store column hashToken) column U file_holds (pg_holds column hashToken U) (L2 := pg_laws column hashToken U Hcol Hinj)).
Qed.

Definition by_token (l : list tokenRec) : live := list_to_map ((λ r, (Token r, r)) <$> l).

Lemma file_holds_list l : NoDup (Token <$> l) → file_holds (File.mkStore l l) (by_token l).
Proof.
  intros Hnd. split_and!; [done..|]. intros tok r. unfold by_token. cbn [File.recs]. rewrite <- elem_of_list_to_map.
  - rewrite list_elem_of_fmap. split; [by intros (q & [= -> ->] & ?)|]. intros [? <-]. by exists r.
  - rewrite <- list_fmap_compose. exact Hnd.
Qed.

(** Microseconds of a time in nanoseconds. *)
Abbreviation micros := (λ t : Z, t / 1000 * 1000).
Abbreviation two_recs := [mkRec "pds_aaaaaaaa1" "acme" "ci" 5004; mkRec "pds_bbbbbbbb2" "beta" "" 7000].
Abbreviation some_calls :=
  [Lookup "pds_aaaaaaaa1"; Mint "ccccccccdd" 9009 "acme" " laptop "; List_ "acme"; Revoke "acme" "pds_aaaaaaaa"; Lookup "pds_aaaaaaaa1";
   Lookup "pds_ccccccccdd"; Lookup " "; Mint "e" 9009 " " "x"].

Lemma migrated_store_answers_alike_witness :
  let fs := File.mkStore two_recs two_recs in
  let attempts := [λ r, String.eqb (Workspace r) "acme"; λ _, false] in
  let migrate := λ ok d, (Pg.migrateFromFile micros (λ t, "h" +:+ t) ok fs d).1 in
  let d := migrate (λ _, true) (foldl (λ d ok, migrate ok d) empty_db attempts) in
  answers some_calls fs =
    [ARec (Some (mkRec "pds_aaaaaaaa1" "acme" "ci" 5004)); ANew (Some (mkRec "pds_ccccccccdd" "acme" "laptop" 9009));
     AList [mkRec "pds_aaaaaaaa" "acme" "ci" 5004; mkRec "pds_cccccccc" "acme" "laptop" 9009]; ARevoked true; ARec None;
     ARec (Some (mkRec "pds_ccccccccdd" "acme" "laptop" 9009)); ARec None; ANew None] ∧
  (Pg.LookupByToken (λ t, "h" +:+ t) "pds_aaaaaaaa1" d) = Some (mkRec "pds_aaaaaaaa1" "acme" "ci" 5000) ∧
  Forall2 (alike micros) (answers some_calls fs) (answers (TokenStore0 := pg_store micros (λ t, "h" +:+ t)) some_calls d).
Proof.
  intros fs attempts migrate d. split; [vm_compute; reflexivity|]. split; [vm_compute; reflexivity|].
  apply (migrated_store_answers_alike micros (λ t, "h" +:+ t) (λ _, True) fs (by_token two_recs) attempts empty_db some_calls).
  - intros t. by rewrite Z.div_mul.
  - by intros x y _ _ [= E].
  - apply file_holds_list. apply (bool_decide_unpack _). vm_compute. exact I.
  - intros r. cbn [File.recs fs]. rewrite !elem_of_cons. intros [->|[->|?%not_elem_of_nil]]; [..|done];
      (split; [done|split; [|done]]; vm_compute; discriminate).
  - reflexivity.
  - cbn [calls_ok]. split_and!; try exact I; vm_compute; reflexivity.
Defined.

(** ** What the migration does at the next boot *)

(** The file stays where it is and is imported at every boot (main.go): a token
    that was revoked in between is accepted again. *)
Lemma revoked_token_is_migrated_again :
  let r := mkRec "pds_ab" "acme" "" 1000 in
  let fs := File.mkStore [r] [r] in
  let boot := λ d, (Pg.migrateFromFile micros (λ t, "h" +:+ t) (λ _, true) fs d).1 in
  let '(d, a) := Pg.RevokeByPrefix "acme" "pds_ab" (boot empty_db) in
  a = true ∧ Pg.LookupByToken (λ t, "h" +:+ t) "pds_ab" d = None ∧
  Pg.LookupByToken (λ t, "h" +:+ t) "pds_ab" (boot d) = Some r.
Proof. by vm_compute. Qed.

(** ** When the file cannot be written *)

(** The creator is answered 500 and not shown the token; it is valid until the
    process ends, and gone after. *)
Lemma unsaved_token_is_valid :
  let '(s, a) := File.Create false "ab" 1 "acme" "" (File.mkStore [] []) in
  a = None ∧ is_Some (File.LookupByToken "pds_ab" s) ∧ File.LookupByToken "pds_ab" (File.reopen s) = None.
Proof. vm_compute. split_and!; [reflexivity|by eexists|reflexivity]. Qed.

(** The revocation is answered 404; the token is refused until the process
    ends, and valid again after. *)
Lemma unsaved_revocation_is_undone :
  let r := mkRec "pds_ab" "acme" "" 1 in
  let '(s, a) := File.RevokeByPrefix false "acme" "pds_ab" (File.mkStore [r] [r]) in
  a = false ∧ File.LookupByToken "pds_ab" s = None ∧ File.LookupByToken "pds_ab" (File.reopen s) = Some r.
Proof. by vm_compute. Qed.
