(* ===== verification/Scope.v ===== *)
(** The agents' side of tenancy: workspaceScope and what it calls
    (agent/internal/api/router.go, hygiene.go, sandbox/template_meta.go), on the
    routes under /sandboxes; and the decoding of a create's body, twice: once by
    the check, and once by the handler behind it. *)

From stdpp Require Import sorting.
From S2P Require Import Prelude GoStrings.

Open Scope string_scope.
Open Scope list_scope.
Open Scope Z_scope.
#[local] Set Warnings "-clear-no-such-hyp,-register-all".

(** ** JSON, as encoding/json has it *)

(** How a number is written: as an integer, as an integer with a fraction of
    zeros or an exponent, or not an integer. *)
Inductive spelling := Plain | Padded | Fraction.

(** A document: an object keeps its members in their order, with repetitions.  A
    number is its integer part, and how it is written. *)
Inductive json :=
  | JNull
  | JBool (b : bool)
  | JNum (n : Z) (s : spelling)
  | JStr (s : string)
  | JArr (l : list json)
  | JObj (l : list (string * json)).

(** What a request carries: the first value, if there is one, and whether
    something other than space follows it.  [json.Unmarshal] refuses what
    follows; a Decoder reads one value and leaves the rest. *)
Record body := mkBody { b_value : option json; b_trailing : bool }.
Definition Unmarshal (b : body) : option json := if b_trailing b then None else b_value b.
Definition Decode (b : body) : option json := b_value b.

(** *** map[string]any: sorted by key, as Marshal writes it; the last of equal keys wins *)

Abbreviation object := (list (string * json)) (only parsing).

Section objects.
Context {A : Type}.
Fixpoint put (k : string) (v : A) (m : list (string * A)) : list (string * A) :=
  match m with
  | [] => [(k, v)]
  | (k', v') :: m' =>
      if String.eqb k k' then (k, v) :: m'
      else if string_ltb k k' then (k, v) :: m else (k', v') :: put k v m'
  end.
Fixpoint get (k : string) (m : list (string * A)) : option A :=
  match m with [] => None | (k', v) :: m => if String.eqb k k' then Some v else get k m end.
Definition del (k : string) (m : list (string * A)) : list (string * A) :=
  filter (λ x, x.1 ≠ k) m.
Definition of_members (l : list (string * A)) : list (string * A) := foldl (λ m x, put x.1 x.2 m) [] l.
End objects.

(** What an [any] holds after decoding, written out again (a number passes
    through float64, which keeps the integers below 2^53). *)
Fixpoint norm (j : json) : json :=
  match j with
  | JNum n Padded => JNum n Plain
  | JArr l => JArr (map norm l)
  | JObj l => JObj (of_members (map (λ x, (x.1, norm x.2)) l))
  | _ => j
  end.

(** [var m map[string]any; json.Unmarshal(b, &m)]: [None] is an error, [Some
    None] the nil map of the document null. *)
Definition as_map (j : json) : option (option object) :=
  match norm j with
  | JObj l => Some (Some l)
  | JNull => Some None
  | _ => None
  end.

(** *** Structs *)

(** encoding/json folds keys: ASCII case, the long s and the Kelvin sign. *)
Fixpoint fold_key (s : string) : string :=
  match s with
  | EmptyString => ""
  | String a r =>
      let plain := String (if (65 <=? code a) && (code a <=? 90) then Ascii.ascii_of_N (Ascii.N_of_ascii a + 32) else a) (fold_key r) in
      match r with
      | String b r' =>
          if (code a =? 0xC5) && (code b =? 0xBF) then String (Ascii.ascii_of_nat 115) (fold_key r')
          else match r' with
          | String c r'' =>
              if (code a =? 0xE2) && (code b =? 0x84) && (code c =? 0xAA) then String (Ascii.ascii_of_nat 107) (fold_key r'') else plain
          | EmptyString => plain
          end
      | EmptyString => plain
      end
  end.
(** The member is of the field of this (lower-case) name. *)
Definition is_field (name key : string) : bool := String.eqb (fold_key key) name.

Arguments is_field : simpl never.

Definition dec_string (old : string) (j : json) : option string :=
  match j with JStr s => Some s | JNull => Some old | _ => None end.
Definition is_int64 (n : Z) : bool := (- 2 ^ 63 <=? n) && (n <? 2 ^ 63).
Definition dec_int (old : Z) (j : json) : option Z :=
  match j with JNum n Plain => if is_int64 n then Some n else None | JNull => Some old | _ => None end.
Definition dec_bool (old : bool) (j : json) : option bool :=
  match j with JBool b => Some b | JNull => Some old | _ => None end.

(** Members in order, each decoded into the field it names, over what is there
    already; an error of one makes the whole fail. *)
Definition dec_struct {A} (field : string → json → A → option A) (zero : A) (j : json) : option A :=
  match j with
  | JObj l => foldl (λ acc x, match acc with Some a => field x.1 x.2 a | None => None end) (Some zero) l
  | JNull => Some zero
  | _ => None
  end.

(** [map[string]string]: merged into the map that is there; null makes it nil. *)
Definition dec_strings (old : gmap string string) (j : json) : option (gmap string string) :=
  match j with
  | JObj l => foldl (λ acc x, match acc with
                              | Some m => v ← dec_string "" x.2; Some (<[x.1 := v]> m)
                              | None => None end) (Some old) l
  | JNull => Some ∅
  | _ => None
  end.

Record volumeMount := mkVolume { v_name : string; v_read_only : bool }.
Definition volume_field (k : string) (j : json) (v : volumeMount) : option volumeMount :=
  if is_field "name" k then s ← dec_string (v_name v) j; Some (mkVolume s (v_read_only v))
  else if is_field "read_only" k then b ← dec_bool (v_read_only v) j; Some (mkVolume (v_name v) b)
  else Some v.
Definition dec_volumes (j : json) : option (list volumeMount) :=
  match j with
  | JArr l => mapM (dec_struct volume_field (mkVolume "" false)) l
  | JNull => Some []
  | _ => None
  end.

Record CreateRequest := mkCreate {
  Template : string;
  CPU : Z; MemoryMB : Z; DiskGB : Z;
  FromSnapshot : string;
  Metadata : gmap string string;
  Volumes : list volumeMount;
  TTLSeconds : option Z;
  Persistent : bool;
}.
Definition empty_create : CreateRequest := mkCreate "" 0 0 0 "" ∅ [] None false.

Definition create_field (k : string) (j : json) (r : CreateRequest) : option CreateRequest :=
  let '(mkCreate t c mm d f md vs ttl p) := r in
  if is_field "template" k then x ← dec_string t j; Some (mkCreate x c mm d f md vs ttl p)
  else if is_field "cpu" k then x ← dec_int c j; Some (mkCreate t x mm d f md vs ttl p)
  else if is_field "memory_mb" k then x ← dec_int mm j; Some (mkCreate t c x d f md vs ttl p)
  else if is_field "disk_gb" k then x ← dec_int d j; Some (mkCreate t c mm x f md vs ttl p)
  else if is_field "from_snapshot" k then x ← dec_string f j; Some (mkCreate t c mm d x md vs ttl p)
  else if is_field "metadata" k then x ← dec_strings md j; Some (mkCreate t c mm d f x vs ttl p)
  else if is_field "volumes" k then x ← dec_volumes j; Some (mkCreate t c mm d f md x ttl p)
  else if is_field "ttl_seconds" k then
    match j with JNull => Some (mkCreate t c mm d f md vs None p)
    | _ => x ← dec_int 0 j; Some (mkCreate t c mm d f md vs (Some x) p) end
  else if is_field "persistent" k then x ← dec_bool p j; Some (mkCreate t c mm d f md vs ttl x)
  else Some r.
Definition dec_create : json → option CreateRequest := dec_struct create_field empty_create.

(** The struct of checkCreateOwnership. *)
Definition check_field (k : string) (j : json) (r : string * string) : option (string * string) :=
  if is_field "template" k then x ← dec_string r.1 j; Some (x, r.2)
  else if is_field "from_snapshot" k then x ← dec_string r.2 j; Some (r.1, x)
  else Some r.
Definition dec_check : json → option (string * string) := dec_struct check_field ("", "").

(** ** Templates *)

Definition template_char (c : Ascii.ascii) : bool :=
  let n := code c in
  (97 <=? n) && (n <=? 122) || (65 <=? n) && (n <=? 90) || (48 <=? n) && (n <=? 57) || (n =? 46) || (n =? 95) || (n =? 45).
Definition validTemplateName (n : string) : bool :=
  negb (String.eqb n "") && (Z.of_nat (String.length n) <=? 64) && all_chars template_char n.

(** templates/<name>/meta.json: not there, not readable, or its bytes. *)
Inductive metaFile := NoMeta | BadMeta | Meta (b : body).

(** The owner, and whether the file could be read ([false]: fail closed). *)
Definition TemplateOwner (files : string → metaFile) (template : string) : string * bool :=
  if String.eqb template "" then ("", true)
  else match files template with
  | NoMeta => ("", true)
  | BadMeta => ("", false)
  | Meta b =>
      match Unmarshal b with
      | None => ("", false)
      | Some j =>
          match as_map j with
          | None => ("", false)
          | Some None => ("", true)
          | Some (Some m) => match get "owner_workspace" m with Some (JStr s) => (s, true) | _ => ("", true) end
          end
      end
  end.

(** ** Creating *)

(** [workspaceScope] lets these pass unchanged. *)
Definition unscoped (ws : string) : bool := String.eqb ws "" || String.eqb ws "admin" || String.eqb ws "default".

Definition reservedMeta : list string := ["workspace"; "kind"; "app.id"].
Definition platformAuthMethods : list string := ["apps-api"; "templates-api"].
Definition platformOrigin (method : string) : bool := bool_decide (TrimSpace method ∈ platformAuthMethods).

Section create.
Context (files : string → metaFile).

(** [None]: the create may proceed. *)
Definition checkCreateOwnership (b : body) (ws : string) : option Z :=
  match Unmarshal b ≫= dec_check with
  | None => None
  | Some (template, fromSnapshot) =>
      if String.eqb template "" || negb (String.eqb fromSnapshot "") then None
      else if negb (validTemplateName template) then Some 400
      else
        let '(owner, readable) := TemplateOwner files template in
        if negb readable then Some 403
        else if negb (String.eqb owner "") && negb (String.eqb owner ws) then Some 403
        else None
  end.

(** [None]: the assignment to the nil map panics. *)
Definition stampWorkspaceMeta (b : body) (ws : string) (platform : bool) : option body :=
  match Unmarshal b ≫= as_map with
  | None => Some b
  | Some None => None
  | Some (Some m) =>
      let md := match get "metadata" m with Some (JObj md) => md | _ => [] end in
      let md := if platform then md else foldr del md reservedMeta in
      Some (mkBody (Some (JObj (put "metadata" (JObj (put "workspace" (JStr ws) md)) m))) false)
  end.

Inductive answer := Status (code : Z) | Panics | Creates (r : CreateRequest).

(** POST /sandboxes: the scope, then the handler's decoding. *)
Definition handler (b : body) : answer :=
  match Decode b ≫= dec_create with Some r => Creates r | None => Status 400 end.
Definition post_sandboxes (ws auth_method : string) (b : body) : answer :=
  if unscoped ws then handler b
  else match checkCreateOwnership b ws with
  | Some c => Status c
  | None =>
      match stampWorkspaceMeta b ws (platformOrigin auth_method) with
      | None => Panics
      | Some b => handler b
      end
  end.
End create.

(** ** Reaching *)

Record row := mkRow { r_status : string; r_meta : gmap string string }.
Definition Workspace (r : row) : string := default "" (r_meta r !! "workspace").

(** The rows as the store lists them; [None]: the query fails. *)
Definition GetTyped (rows : option (list (string * row))) (id : string) : option row :=
  l ← rows; snd <$> List.find (λ x, String.eqb x.1 id) l.

Definition RedactMetadata (m : gmap string string) : gmap string string :=
  filter (λ x, has_prefix "secret." x.1 = false) m.

(** GET /sandboxes behind the scope; [None]: 500. *)
Definition hidden (st : string) : bool := String.eqb st "pooled" || String.eqb st "deleted".
Definition RedactSandboxRow (x : string * row) : string * row := (x.1, mkRow (r_status x.2) (RedactMetadata (r_meta x.2))).
Definition list_handler (rows : option (list (string * row))) : option (list (string * row)) :=
  option_map (λ l, map RedactSandboxRow (filter (λ x : string * row, hidden (r_status x.2) = false) l)) rows.

(** The rewriting of a listing on its way out; what does not parse as a list (an
    error) goes through. *)
Definition flushFiltered (ws : string) (l : option (list (string * row))) : option (list (string * row)) :=
  option_map (filter (λ x : string * row, hidden (r_status x.2) = false ∧ Workspace x.2 = ws)) l.

Inductive verdict :=
  | NotFound
  | Create (a : answer)
  | Listing (l : option (list (string * row)))
  | Pass.               (* to the other handlers *)

(** The id and the rest of a path under /sandboxes/. *)
Definition split_path (path : string) : option (string * string) :=
  if has_prefix "/sandboxes/" path then
    let rest := str_drop (String.length "/sandboxes/") path in
    match String.index 0 "/" rest with
    | Some i => Some (String.substring 0 i rest, str_drop i rest)
    | None => Some (rest, "")
    end
  else None.

Definition workspaceScope (files : string → metaFile) (rows : option (list (string * row)))
    (ws auth_method method path : string) (b : body) : verdict :=
  let next :=
    if String.eqb method "POST" && String.eqb path "/sandboxes" then Create (post_sandboxes files ws auth_method b)
    else if String.eqb method "GET" && String.eqb path "/sandboxes" then
      Listing (if unscoped ws then list_handler rows else flushFiltered ws (list_handler rows))
    else Pass in
  if unscoped ws then next
  else match split_path path with
  | Some (id, _) =>
      if String.eqb id "" then next
      else match GetTyped rows id with
      | None => NotFound
      | Some r => if String.eqb (Workspace r) ws then next else NotFound
      end
  | None => next
  end.

(** *** Waking *)

Definition readOnlyInspectionGETs : list string :=
  [""; "/lifecycle"; "/metrics"; "/logs"; "/events"; "/ports"; "/fs/stat"; "/fs/dir"; "/postgres-info"; "/repl/sessions"].
Definition shouldAutoWake (method tail : string) : bool :=
  if bool_decide (tail ∈ ["/hibernate"; "/wake"; "/stop"; "/start"]) then false
  else if String.eqb method "DELETE" then false
  else if String.eqb method "GET" && bool_decide (tail ∈ readOnlyInspectionGETs) then false
  else true.

(** The sandbox activityTracker marks active and has running before the handler. *)
Definition activityTracker (method path : string) : option string :=
  match split_path path with
  | Some (id, tail) => if negb (String.eqb id "") && shouldAutoWake method tail then Some id else None
  | None => None
  end.

(** ** Objects *)

Lemma string_ltb_irrefl s : string_ltb s s = false.
Proof. induction s as [|c s IH]; [done|]. cbn. rewrite Z.ltb_irrefl, Z.eqb_refl. done. Qed.

Lemma code_inj a b : code a = code b → a = b.
Proof. unfold code. intros H. rewrite <- (Ascii.ascii_N_embedding a), <- (Ascii.ascii_N_embedding b). f_equal. lia. Qed.

Lemma string_ltb_trans a b c : string_ltb a b = true → string_ltb b c = true → string_ltb a c = true.
Proof.
  revert b c. induction a as [|x a IH]; intros [|y b] [|z c]; cbn; try done.
  destruct (Z.eqb_spec (code x) (code y)) as [E1|], (Z.eqb_spec (code y) (code z)) as [E2|];
    try (apply code_inj in E1; subst y); try (apply code_inj in E2; subst z).
  - rewrite Z.eqb_refl. apply IH.
  - intros _ Hy. destruct (Z.eqb_spec (code x) (code z)); [done|exact Hy].
  - intros Hx _. destruct (Z.eqb_spec (code x) (code y)); [done|exact Hx].
  - intros Hx%Z.ltb_lt Hy%Z.ltb_lt. destruct (Z.eqb_spec (code x) (code z)); lia.
Qed.

Lemma string_ltb_total a b : a ≠ b → string_ltb a b = false → string_ltb b a = true.
Proof.
  revert b. induction a as [|x a IH]; intros [|y b]; cbn; try done. intros Hne.
  destruct (Z.eqb_spec (code x) (code y)) as [E|E].
  - apply code_inj in E. subst y. rewrite Z.eqb_refl. apply IH. congruence.
  - destruct (Z.eqb_spec (code y) (code x)); lia.
Qed.

Section sorted.
Context {A : Type}.
Implicit Types m : list (string * A).

Lemma get_put k k' v m : get k (put k' v m) = if String.eqb k k' then Some v else get k m.
Proof.
  induction m as [|[k1 v1] m IH]; cbn; [done|].
  destruct (String.eqb_spec k' k1) as [->|E1]; cbn; [by destruct (String.eqb k k1)|].
  destruct (string_ltb k' k1); cbn; [done|]. rewrite IH. destruct (String.eqb_spec k k1) as [->|]; [|done].
  by destruct (String.eqb_spec k1 k').
Qed.

Lemma get_del k k' m : get k (del k' m) = if String.eqb k k' then None else get k m.
Proof.
  induction m as [|[k1 v1] m IH]; [cbn; by destruct (String.eqb k k')|]. unfold del in *. rewrite filter_cons. cbn [fst].
  case_decide as E; cbn; rewrite IH; destruct (String.eqb_spec k k1), (String.eqb_spec k k'); congruence.
Qed.

(** Keys strictly increase. *)
Definition ordered m : Prop := StronglySorted (λ x y, string_ltb x.1 y.1 = true) m.

Lemma ordered_put k v m : ordered m → ordered (put k v m).
Proof.
  unfold ordered. induction m as [|[k1 v1] m IH]; cbn; intros H; [repeat constructor|].
  apply StronglySorted_inv in H as [Hm Hall].
  destruct (String.eqb_spec k k1) as [->|Hne]; [by constructor|].
  destruct (string_ltb k k1) eqn:Hlt.
  - constructor; [by constructor|]. constructor; [done|]. eapply Forall_impl; [exact Hall|]. intros x. by apply string_ltb_trans.
  - constructor; [by apply IH|]. apply Forall_forall. intros x Hx.
    assert (Hx' : x.1 = k ∨ x ∈ m).
    { clear -Hx. induction m as [|[k2 v2] m IH]; cbn in Hx.
      - apply list_elem_of_singleton in Hx as ->. by left.
      - destruct (String.eqb k k2); [|destruct (string_ltb k k2)]; rewrite !elem_of_cons in *; naive_solver. }
    destruct Hx' as [->|Hx']; [by apply string_ltb_total|]. by eapply (proj1 (Forall_forall _ _) Hall).
Qed.

Lemma ordered_of_members (l : list (string * A)) : ordered (of_members l).
Proof.
  unfold of_members. assert (H : ordered []) by constructor. revert H. generalize (@nil (string * A)).
  induction l as [|x l IH]; intros m Hm; [done|]. by apply IH, ordered_put.
Qed.

Lemma ordered_del k m : ordered m → ordered (del k m).
Proof.
  unfold ordered, del. induction m as [|x m IH]; intros H; [constructor|]. apply StronglySorted_inv in H as [Hm Hall].
  rewrite filter_cons. case_decide; [|by apply IH]. constructor; [by apply IH|]. apply Forall_forall.
  intros y [_ Hy]%list_elem_of_filter. by eapply (proj1 (Forall_forall _ _) Hall).
Qed.

Lemma ordered_get m k v : ordered m → get k m = Some v ↔ (k, v) ∈ m.
Proof.
  induction m as [|[k1 v1] m IH]; intros H; cbn; [split; [done|by intros ?%not_elem_of_nil]|].
  apply StronglySorted_inv in H as [Hm Hall]. rewrite elem_of_cons, <- (IH Hm).
  destruct (String.eqb_spec k k1) as [->|Hne]; [|naive_solver]. split; [intros [= ->]; by left|].
  intros [[= ->]|Hg]; [done|]. apply (IH Hm) in Hg. apply (proj1 (Forall_forall _ _) Hall) in Hg. cbn in Hg. by rewrite string_ltb_irrefl in Hg.
Qed.

(** The last of equal keys wins. *)
Lemma get_of_members (l : list (string * A)) k v : get k (of_members l) = Some v → (k, v) ∈ l.
Proof.
  unfold of_members. assert (H : ∀ m, get k (foldl (λ m x, put x.1 x.2 m) m l) = Some v → (k, v) ∈ l ∨ get k m = Some v).
  { induction l as [|[k1 v1] l IH]; intros m; cbn; [auto|]. intros [?|Hg]%IH; [by left; right|].
    rewrite get_put in Hg. destruct (String.eqb_spec k k1) as [->|]; [|by right]. injection Hg as ->. left. left. }
  intros [?|?]%H; [done|]. done.
Qed.
Lemma get_of_members_None (l : list (string * A)) k : get k (of_members l) = None → k ∉ (l.*1).
Proof.
  unfold of_members. assert (H : ∀ m, get k (foldl (λ m x, put x.1 x.2 m) m l) = None → (k ∉ (l.*1)) ∧ get k m = None).
  { induction l as [|[k1 v1] l IH]; intros m; cbn; [split; [apply not_elem_of_nil|done]|]. intros [Hl Hg]%IH.
    rewrite get_put in Hg. destruct (String.eqb_spec k k1); [done|]. split; [|done]. apply not_elem_of_cons. split; [done|exact Hl]. }
  intros Hn. apply (H [] Hn).
Qed.
End sorted.

(** ** Decoding *)

(** The struct of the check sees what the create sees, on one document. *)
Lemma check_follows j r : dec_create j = Some r → dec_check j = Some (Template r, FromSnapshot r).
Proof.
  unfold dec_create, dec_check, dec_struct. destruct j; try done; [by intros [= <-]|].
  assert (H : ∀ a b, b = Some (Template a, FromSnapshot a) → ∀ r,
    foldl (λ acc x, match acc with Some a => create_field x.1 x.2 a | None => None end) (Some a) l = Some r →
    foldl (λ acc x, match acc with Some a => check_field x.1 x.2 a | None => None end) b l = Some (Template r, FromSnapshot r)).
  { assert (Hnone : foldl (λ (acc : option CreateRequest) (x : string * json), match acc with Some a => create_field x.1 x.2 a | None => None end) None l = None)
      by (clear; induction l; [done|exact IHl]).
    clear r. revert Hnone. induction l as [|[k v] l IH]; intros Hnone a b -> r; cbn [foldl fst snd]; [by intros [= ->]|].
    intros Hr. cbn [foldl] in Hnone.
    destruct (create_field k v a) as [a'|] eqn:Ea; [|by rewrite Hnone in Hr]. revert Hr. apply (IH Hnone).
    revert Ea. unfold create_field, check_field. destruct a. cbn [Template FromSnapshot fst snd].
    assert (Hx : ∀ n m, is_field n k = true → is_field m k = true → n = m)
      by (unfold is_field; intros n m ->%String.eqb_eq E%String.eqb_eq; congruence).
    destruct (is_field "template" k) eqn:E1; [destruct (dec_string _ v); [by intros [= <-]|done]|].
    destruct (is_field "from_snapshot" k) eqn:E2.
    - assert (Hno : ∀ n, n ≠ "from_snapshot" → is_field n k = false).
      { intros n Hn. destruct (is_field n k) eqn:E; [|done]. destruct Hn. by apply Hx. }
      rewrite !Hno by done. destruct (dec_string _ v); [by intros [= <-]|done].
    - repeat match goal with |- context [is_field ?n k] => destruct (is_field n k) end;
        intros Ea; repeat (case_match; simplify_option_eq); simplify_option_eq; done. }
  by apply (H empty_create).
Qed.

(** A spelling of a name of plain lower-case letters is the name or sorts before it. *)
Definition plain_name (s : string) : bool :=
  all_chars (λ c, (97 <=? code c) && (code c <=? 122) && negb (code c =? 115) && negb (code c =? 107)) s.

Lemma fold_key_cons a r c n :
  fold_key (String a r) = String c n → plain_name (String c n) = true →
  fold_key r = n ∧ (a = c ∨ code a < code c).
Proof.
  intros Hf Hp. unfold plain_name in Hp. cbn in Hp. apply andb_true_iff in Hp as [Hc _].
  assert (Hs : c ≠ Ascii.ascii_of_nat 115 ∧ c ≠ Ascii.ascii_of_nat 107) by (split; intros ->; done).
  cbn [fold_key] in Hf.
  assert (Hplain : String (if (65 <=? code a) && (code a <=? 90) then Ascii.ascii_of_N (Ascii.N_of_ascii a + 32) else a) (fold_key r) = String c n).
  { destruct r as [|b r]; [exact Hf|]. destruct (_ && _) in Hf; [injection Hf as E _; by destruct Hs|].
    destruct r as [|d r]; [exact Hf|]. destruct (_ && _) in Hf; [injection Hf as E _; by destruct Hs|exact Hf]. }
  injection Hplain as Ha Hr. split; [done|]. destruct (_ && _) eqn:E; [|by left]. right. rewrite <- Ha.
  unfold code in *. rewrite Ascii.N_ascii_embedding; lia.
Qed.

Lemma spelling_before name k : plain_name name = true → is_field name k = true → k = name ∨ string_ltb k name = true.
Proof.
  unfold is_field. rewrite String.eqb_eq. revert k. induction name as [|c n IH]; intros k Hp Hf.
  - left. destruct k as [|a r]; [done|]. exfalso. cbn in Hf. destruct r as [|b r]; [done|]. destruct (_ && _); [done|].
    destruct r as [|d r]; [done|]. by destruct (_ && _).
  - destruct k as [|a r]; [done|]. destruct (fold_key_cons a r c n Hf Hp) as [Hr Ha].
    assert (Hn : plain_name n = true) by (unfold plain_name in *; cbn in Hp; by apply andb_true_iff in Hp as [_ ?]).
    cbn [string_ltb]. destruct Ha as [->|Hlt].
    + rewrite Z.eqb_refl. destruct (IH r Hn Hr) as [->|?]; auto.
    + right. destruct (Z.eqb_spec (code a) (code c)); [lia|]. by apply Z.ltb_lt.
Qed.

(** ** What a stamped create has *)

Lemma dec_strings_get (l : list (string * json)) old m k :
  dec_strings old (JObj l) = Some m →
  (k ∉ l.*1 → m !! k = old !! k) ∧ (∀ v, ordered l → (k, JStr v) ∈ l → m !! k = Some v).
Proof.
  cbn [dec_strings]. revert old. induction l as [|[k1 v1] l IH]; intros old; cbn [foldl fst snd].
  - intros [= ->]. split; [done|]. by intros v _ ?%not_elem_of_nil.
  - destruct (dec_string "" v1) as [s|] eqn:Es; cbn [mbind option_bind].
    2: { intros H. exfalso. revert H. clear. induction l; [done|exact IHl]. }
    intros H. destruct (IH _ H) as [H1 H2]. split.
    + intros Hk. apply not_elem_of_cons in Hk as [Hk Hl]. rewrite (H1 Hl). by rewrite lookup_insert_ne by done.
    + intros v Ho [[= <- <-]|Hin]%elem_of_cons.
      * cbn in Es. injection Es as ->. rewrite H1; [by rewrite lookup_insert_eq|].
        intros Hin. apply list_elem_of_fmap in Hin as ([k2 v2] & E & Hin). cbn in E. subst k2.
        apply StronglySorted_inv in Ho as [_ Hall]. apply (proj1 (Forall_forall _ _) Hall) in Hin. cbn in Hin.
        by rewrite string_ltb_irrefl in Hin.
      * apply H2; [by apply StronglySorted_inv in Ho as [? _]|done].
Qed.

(** In a sorted document the member "metadata" comes last of its spellings. *)
Lemma metadata_last l md r :
  ordered l → get "metadata" l = Some (JObj md) → dec_create (JObj l) = Some r →
  ∃ old, dec_strings old (JObj md) = Some (Metadata r) ∧
    ((∀ k, k ∈ l.*1 → is_field "metadata" k = true → k = "metadata") → old = ∅).
Proof.
  unfold dec_create, dec_struct. intros Ho Hg.
  set (step := λ (acc : option CreateRequest) (x : string * json), _).
  assert (Hnone : ∀ l, foldl step None l = None) by (intros l'; induction l'; [done|exact IHl']).
  assert (Hkeep : ∀ k v a a', is_field "metadata" k = false → create_field k v a = Some a' → Metadata a' = Metadata a).
  { intros k v [] a' Hf. unfold create_field. rewrite Hf.
    repeat match goal with |- context [is_field ?n k] => destruct (is_field n k) end;
      intros Ea; repeat (case_match; simplify_option_eq); simplify_option_eq; done. }
  assert (Hmeta : ∀ v a a', create_field "metadata" v a = Some a' → dec_strings (Metadata a) v = Some (Metadata a')).
  { intros v [] a'. unfold create_field. cbn [is_field fold_key]. change (is_field "template" "metadata") with false.
    destruct (dec_strings _ v) eqn:E; intros Ea; cbn in Ea; rewrite ?E in Ea; cbn in Ea; [by injection Ea as <-|done]. }
  assert (Hafter : ∀ l a r, foldl step (Some a) l = Some r → (∀ x, x ∈ l → string_ltb "metadata" x.1 = true) → Metadata r = Metadata a).
  { clear l Ho Hg r. intros l. induction l as [|[k v] l IH]; intros a r; [by intros [= ->]|]. cbn [foldl]. intros Hr Hl.
    unfold step at 2 in Hr. cbn [fst snd] in Hr. destruct (create_field k v a) as [a'|] eqn:Ea; [|by rewrite Hnone in Hr].
    rewrite (IH a' r Hr); [|intros x Hx; apply Hl; by right]. eapply Hkeep; [|exact Ea].
    specialize (Hl (k, v) ltac:(left)). cbn [fst] in Hl. destruct (is_field "metadata" k) eqn:Ef; [|done].
    destruct (spelling_before "metadata" k) as [->|Hb]; [done|done|by rewrite string_ltb_irrefl in Hl|].
    pose proof (string_ltb_trans _ _ _ Hl Hb) as Hx. by rewrite string_ltb_irrefl in Hx. }
  assert (Ha0 : Metadata empty_create = ∅) by done. revert Ha0. generalize empty_create. intros a0 Ha0 Hr.
  enough (∃ old, dec_strings old (JObj md) = Some (Metadata r) ∧
    ((∀ k, k ∈ l.*1 → is_field "metadata" k = true → k = "metadata") → old = Metadata a0)) as (old & H1 & H2).
  { exists old. split; [done|]. by rewrite <- Ha0. }
  clear Ha0. revert a0 Hr. induction l as [|[k v] l IH]; intros a Hr; [done|]. apply StronglySorted_inv in Ho as [Ho Hall].
  cbn [foldl] in Hr. unfold step at 2 in Hr. cbn [fst snd] in Hr. destruct (create_field k v a) as [a'|] eqn:Ea; [|by rewrite Hnone in Hr].
  cbn [get] in Hg. destruct (String.eqb_spec "metadata" k) as [<-|Hne].
  - injection Hg as ->. exists (Metadata a). split; [|done]. rewrite (Hmeta _ _ _ Ea). f_equal. symmetry. eapply Hafter; [exact Hr|].
    intros x Hx. by apply (proj1 (Forall_forall _ _) Hall) in Hx.
  - destruct (IH Ho Hg a' Hr) as (old & H1 & H2). exists old. split; [done|]. intros Hk. rewrite H2.
    + eapply Hkeep; [|exact Ea]. destruct (is_field "metadata" k) eqn:Ef; [|done]. destruct Hne. symmetry. apply Hk; [left|done].
    + intros k' Hk' Hf. apply Hk; [by right|done].
Qed.

(** *** The document the handler gets *)

Definition members (b : body) : list (string * json) := match b_value b with Some (JObj l) => l | _ => [] end.

(** No two members are for one field. *)
Definition single (name : string) (l : list (string * json)) : Prop :=
  ∀ x y, x ∈ l → y ∈ l → is_field name x.1 = true → is_field name y.1 = true → x = y.

Definition look (name : string) (l : list (string * json)) : option string :=
  match List.find (λ x, is_field name x.1) l with None => Some "" | Some x => dec_string "" x.2 end.

Lemma get_None {A} k (m : list (string * A)) : get k m = None → k ∉ m.*1.
Proof.
  induction m as [|[k1 v1] m IH]; cbn; [intros _; apply not_elem_of_nil|].
  destruct (String.eqb_spec k k1); [done|]. intros H. apply not_elem_of_cons. split; [done|by apply IH].
Qed.

Lemma is_field_inj n m k : is_field n k = true → is_field m k = true → n = m.
Proof. unfold is_field. intros ->%String.eqb_eq E%String.eqb_eq. congruence. Qed.

(** One field of the check alone. *)
Lemma look_fold name l old :
  single name l → (∀ x, x ∈ l → is_field name x.1 = true → dec_string "" x.2 = Some old ∨ old = "") →
  foldl (λ acc x, match acc with Some s => if is_field name x.1 then dec_string s x.2 else Some s | None => None end) (Some old) l =
  match List.find (λ x, is_field name x.1) l with None => Some old | Some x => dec_string "" x.2 end.
Proof.
  set (step := λ (acc : option string) (x : string * json), _).
  assert (Hnone : ∀ l, foldl step None l = None) by (intros l'; induction l'; [done|exact IHl']).
  revert old. induction l as [|x l IH]; intros old Hs Hold; [done|]. cbn [foldl List.find]. unfold step at 2.
  assert (Hsl : single name l) by (intros y z Hy Hz; apply Hs; by right).
  destruct (is_field name x.1) eqn:Ef.
  - assert (Hd : dec_string old x.2 = dec_string "" x.2).
    { destruct (Hold x ltac:(left) Ef) as [E| ->]; [|done]. destruct x.2; cbn in *; congruence. }
    rewrite Hd. destruct (dec_string "" x.2) as [s|] eqn:Es; [|apply Hnone].
    rewrite IH; [|done|].
    + destruct (List.find _ l) as [y|] eqn:Ey; [|done]. apply List.find_some in Ey as [Hy Hfy].
      assert (x = y) as <-; [|done]. apply Hs; [left|right; by apply list_elem_of_In|done|done].
    + intros y Hy Hfy. left. assert (x = y) as <-; [|done]. apply Hs; [left|by right|done|done].
  - apply IH; [done|]. intros y Hy. apply Hold. by right.
Qed.

Lemma check_look l :
  single "template" l → single "from_snapshot" l →
  dec_check (JObj l) = (t ← look "template" l; f ← look "from_snapshot" l; Some (t, f)).
Proof.
  intros Ht Hf. unfold look. rewrite <- (look_fold _ l "" Ht) by auto. rewrite <- (look_fold _ l "" Hf) by auto.
  set (one := λ (n : string) (acc : option string) (x : string * json),
    match acc with Some s => if is_field n x.1 then dec_string s x.2 else Some s | None => None end).
  set (both := λ (acc : option (string * string)) (x : string * json), match acc with Some a => check_field x.1 x.2 a | None => None end).
  assert (Hn : ∀ l, foldl both None l = None) by (intros l'; induction l'; [done|exact IHl']).
  assert (Hn2 : ∀ n l, foldl (one n) None l = None) by (intros n l'; induction l'; [done|exact IHl']).
  assert (H : ∀ t0 f0, foldl both (Some (t0, f0)) l =
    (t ← foldl (one "template") (Some t0) l; f ← foldl (one "from_snapshot") (Some f0) l; Some (t, f))); [|exact (H "" "")].
  clear Ht Hf. induction l as [|[k v] l IH]; intros t0 f0; [done|]. cbn [foldl]. unfold both at 2, one at 2 4, check_field. cbn [fst snd].
  destruct (is_field "template" k) eqn:Et.
  - assert (is_field "from_snapshot" k = false) as ->.
    { destruct (is_field "from_snapshot" k) eqn:E; [|done]. by pose proof (is_field_inj _ _ _ Et E). }
    destruct (dec_string t0 v); cbn [mbind option_bind]; [apply IH|by rewrite Hn, Hn2].
  - destruct (is_field "from_snapshot" k); [|apply IH].
    destruct (dec_string f0 v); cbn [mbind option_bind]; [apply IH|]. rewrite Hn, Hn2. by destruct (foldl _ (Some t0) l).
Qed.

(** What Unmarshal and Marshal make of the members. *)
Definition remade (l : list (string * json)) : list (string * json) := of_members (map (λ x, (x.1, norm x.2)) l).

Lemma remade_in l k v : get k (remade l) = Some v → ∃ j, (k, j) ∈ l ∧ v = norm j.
Proof.
  intros H%get_of_members. change (map ?f l) with (f <$> l) in H. apply list_elem_of_fmap in H as ([k' j] & [= -> ->] & Hj). by exists j.
Qed.
Lemma remade_has l k j : (k, j) ∈ l → ∃ j', get k (remade l) = Some (norm j') ∧ (k, j') ∈ l.
Proof.
  intros H. destruct (get k (remade l)) as [v|] eqn:E.
  - pose proof E as E'. apply remade_in in E as (j' & Hj & ->). by exists j'.
  - exfalso. apply (get_of_members_None _ _ E). apply list_elem_of_fmap. exists (k, norm j). split; [done|].
    change (map ?f l) with (f <$> l). apply list_elem_of_fmap. by exists (k, j).
Qed.
Lemma dec_string_norm s j : dec_string s (norm j) = dec_string s j.
Proof. destruct j as [| |? []| | |]; done. Qed.

Lemma look_stamped name l x :
  single name l → is_field name "metadata" = false →
  single name (put "metadata" x (remade l)) ∧ look name (put "metadata" x (remade l)) = look name l.
Proof.
  intros Hs Hn. set (m := put "metadata" x (remade l)).
  assert (Ho : ordered m) by apply ordered_put, ordered_of_members.
  assert (Hin : ∀ y, y ∈ m → is_field name y.1 = true → ∃ j, (y.1, j) ∈ l ∧ y.2 = norm j).
  { intros [k v] Hy Hf. apply (ordered_get _ _ _ Ho) in Hy. unfold m in Hy. rewrite get_put in Hy.
    destruct (String.eqb_spec k "metadata") as [->|]; [cbn in Hf; congruence|]. by apply remade_in. }
  assert (Hsm : single name m).
  { intros [k v] [k' v'] Hx Hy Hfx Hfy. destruct (Hin _ Hx Hfx) as (j & Hj & Ej), (Hin _ Hy Hfy) as (j' & Hj' & Ej'). cbn in *.
    pose proof (Hs _ _ Hj Hj' Hfx Hfy) as [= -> ->]. congruence. }
  split; [done|]. unfold look. destruct (List.find _ m) as [[k v]|] eqn:E1.
  - apply List.find_some in E1 as [Hy Hf]. apply list_elem_of_In in Hy. destruct (Hin _ Hy Hf) as (j & Hj & Ej). cbn in Ej, Hj, Hf. subst v.
    destruct (List.find _ l) as [z|] eqn:E2.
    + apply List.find_some in E2 as [Hz Hfz]. apply list_elem_of_In in Hz. rewrite (Hs _ _ Hz Hj Hfz Hf). cbn. apply dec_string_norm.
    + exfalso. apply list_elem_of_In in Hj. pose proof (List.find_none _ _ E2 _ Hj) as Hc. cbn in Hc. congruence.
  - destruct (List.find _ l) as [[k j]|] eqn:E2; [|done]. exfalso.
    apply List.find_some in E2 as [Hz Hfz]. apply list_elem_of_In in Hz. cbn in Hfz. destruct (remade_has _ _ _ Hz) as (j' & Hg & _).
    assert (Hm : (k, norm j') ∈ m).
    { apply (ordered_get _ _ _ Ho). unfold m. rewrite get_put. destruct (String.eqb_spec k "metadata") as [->|]; [congruence|done]. }
    apply list_elem_of_In in Hm. pose proof (List.find_none _ _ E1 _ Hm) as Hc. cbn in Hc. congruence.
Qed.

Lemma stamp_members l ws platform b' :
  stampWorkspaceMeta (mkBody (Some (JObj l)) false) ws platform = Some b' →
  ∃ md0, b' = mkBody (Some (JObj (put "metadata" (JObj (put "workspace" (JStr ws) md0)) (remade l)))) false ∧
    ordered md0 ∧ (platform = false → ∀ k, k ∈ reservedMeta → get k md0 = None).
Proof.
  unfold stampWorkspaceMeta, Unmarshal. cbn [b_trailing b_value mbind option_bind as_map norm]. fold (remade l). intros [= <-].
  eexists. split; [reflexivity|].
  assert (Ho : ordered match get "metadata" (remade l) with Some (JObj md) => md | _ => [] end).
  { destruct (get "metadata" (remade l)) as [v|] eqn:E; [|constructor]. apply remade_in in E as (j & _ & ->).
    destruct j as [| |? []| | |]; try constructor. apply ordered_of_members. }
  destruct platform; [done|]. split; [by apply ordered_del, ordered_del, ordered_del|]. intros _ k Hk. unfold reservedMeta in *. cbn [foldr].
  rewrite !get_del. rewrite !elem_of_cons in Hk. destruct Hk as [->|[->|[->|?%not_elem_of_nil]]]; done.
Qed.

(** C30. What a tenant can create.  A body that is one JSON document either does
    not reach the manager or is created in the tenant's own workspace, whatever
    metadata it carries and however its members are spelt.  If every spelling of
    "metadata" in it is the plain one (not even a single "Metadata"), no key the
    platform owns survives in it unless the platform sent it.  And if no two of
    its members are for the field template or for from_snapshot, the template is
    public or the tenant's own, or none is named, or there is a snapshot to
    restore: then neither the template nor the snapshot is checked. *)
Theorem create_is_stamped files ws method b r :
  unscoped ws = false → b_trailing b = false → post_sandboxes files ws method b = Creates r →
  Metadata r !! "workspace" = Some ws ∧
  ((∀ k, k ∈ (members b).*1 → is_field "metadata" k = true → k = "metadata") → platformOrigin method = false →
   Metadata r !! "kind" = None ∧ Metadata r !! "app.id" = None) ∧
  (single "template" (members b) → single "from_snapshot" (members b) →
   Template r = "" ∨ FromSnapshot r ≠ "" ∨
   (validTemplateName (Template r) = true ∧ ∃ owner, TemplateOwner files (Template r) = (owner, true) ∧ (owner = "" ∨ owner = ws))).
Proof.
  intros Hws Ht. unfold post_sandboxes. rewrite Hws. destruct b as [v tr]. cbn in Ht. subst tr.
  destruct (checkCreateOwnership _ _ _) eqn:Ec; [done|]. destruct (stampWorkspaceMeta _ _ _) as [b'|] eqn:Es; [|done].
  unfold handler. intros Hh. destruct (Decode b' ≫= dec_create) as [r'|] eqn:Ed; [|done]. injection Hh as ->.
  destruct v as [[| |? []| | |l]|]; try (by injection Es as <-); try done.
  apply stamp_members in Es as (md0 & -> & Ho0 & Hres). cbn [Decode b_value mbind option_bind] in Ed.
  set (md := put "workspace" (JStr ws) md0) in *. set (m := put "metadata" (JObj md) (remade l)) in *.
  assert (Homd : ordered md) by by apply ordered_put. assert (Hom : ordered m) by apply ordered_put, ordered_of_members.
  destruct (metadata_last m md r Hom) as (old & Hdec & Hold); [unfold m; by rewrite get_put|done|].
  apply dec_strings_get with (k := "workspace") in Hdec as Hw. split_and!.
  - apply Hw; [done|]. apply (ordered_get _ _ _ Homd). unfold md. by rewrite get_put.
  - intros Hsp Hp. rewrite Hold in Hdec.
    + assert (Hk : ∀ k, k ∈ reservedMeta → k ≠ "workspace" → Metadata r !! k = None).
      { intros k Hk Hne. apply dec_strings_get with (k := k) in Hdec as [Hk' _]. rewrite Hk'; [apply lookup_empty|].
        apply get_None. unfold md. rewrite get_put. destruct (String.eqb_spec k "workspace"); [done|]. by apply Hres. }
      split; apply Hk; try done; unfold reservedMeta; rewrite !elem_of_cons; auto.
    + intros k Hk Hf. apply list_elem_of_fmap in Hk as ([k1 v1] & -> & Hk). cbn [fst] in *.
      apply (ordered_get _ _ _ Hom) in Hk. unfold m in Hk. rewrite get_put in Hk.
      destruct (String.eqb_spec k1 "metadata") as [|]; [done|]. apply remade_in in Hk as (j & Hj & _).
      apply Hsp; [|done]. apply list_elem_of_fmap. by exists (k1, j).
  - intros Ht Hs. cbn [members b_value] in Ht, Hs. apply check_follows in Ed as Ed'.
    destruct (look_stamped "template" l (JObj md) Ht) as [Ht' El]; [done|].
    destruct (look_stamped "from_snapshot" l (JObj md) Hs) as [Hs' El']; [done|]. fold m in Ht', Hs', El, El'.
    rewrite check_look, El, El', <- check_look in Ed' by done.
    unfold checkCreateOwnership, Unmarshal in Ec. cbn [b_trailing b_value mbind option_bind] in Ec. rewrite Ed' in Ec.
    destruct (String.eqb_spec (Template r) "") as [E|_]; [by left|]. right.
    destruct (String.eqb_spec (FromSnapshot r) "") as [_|E]; [|by left]. right. cbn [orb negb] in Ec.
    destruct (validTemplateName (Template r)); [|done]. split; [done|]. cbn [negb] in Ec.
    destruct (TemplateOwner files (Template r)) as [owner readable]. exists owner. destruct readable; [|done]. cbn [negb] in Ec.
    split; [done|]. destruct (String.eqb_spec owner ""); [by left|]. destruct (String.eqb_spec owner ws); [by right|done].
Qed.

Abbreviation a_body := (mkBody (Some (JObj
  [("cpu", JNum 2 Plain); ("metadata", JObj [("workspace", JStr "victim"); ("kind", JStr "app"); ("team", JStr "x")]);
   ("template", JStr "mine"); ("METADATA", JNull)])) false).
Abbreviation a_store := (λ n : string, if String.eqb n "mine" then Meta (mkBody (Some (JObj [("owner_workspace", JStr "acme")])) false)
  else if String.eqb n "theirs" then Meta (mkBody (Some (JObj [("owner_workspace", JStr "victim")])) false) else NoMeta).

Lemma create_is_stamped_witness :
  ∃ r, post_sandboxes a_store "acme" "jwt" a_body = Creates r ∧ Template r = "mine" ∧
    Metadata r !! "workspace" = Some "acme" ∧ Metadata r !! "team" = Some "x" ∧
    TemplateOwner a_store (Template r) = ("acme", true).
Proof.
  assert (H : ∃ r, post_sandboxes a_store "acme" "jwt" a_body = Creates r ∧ Template r = "mine" ∧ Metadata r !! "team" = Some "x")
    by (eexists; split_and!; vm_compute; reflexivity).
  destruct H as (r & Hr & Ht & Hm). exists r. split_and!; try done.
  - by apply (create_is_stamped a_store "acme" "jwt" a_body r).
  - rewrite Ht. vm_compute. reflexivity.
Defined.

(** C31. What a tenant can reach.  A request under /sandboxes/{id} passes only if
    the row is the workspace's own, so nobody else's sandbox is kept awake or
    woken either, and reading its state does neither; a listing has exactly the
    workspace's own rows that are not pooled or deleted, with their secrets
    left out. *)
Theorem reach_is_own files rows ws method auth path b :
  unscoped ws = false →
  (∀ id tail, split_path path = Some (id, tail) → id ≠ "" → workspaceScope files rows ws auth method path b ≠ NotFound →
     ∃ r, GetTyped rows id = Some r ∧ Workspace r = ws) ∧
  (∀ id, activityTracker method path = Some id →
     ∃ tail, split_path path = Some (id, tail) ∧ id ≠ "" ∧ method ≠ "DELETE" ∧ (method = "GET" → tail ∉ readOnlyInspectionGETs)) ∧
  (∀ l, workspaceScope files rows ws auth method path b = Listing (Some l) →
     ∃ all, rows = Some all ∧ ∀ x, x ∈ l ↔ ∃ y, y ∈ all ∧ hidden (r_status y.2) = false ∧ Workspace y.2 = ws ∧ x = RedactSandboxRow y).
Proof.
  intros Hws. unfold workspaceScope. rewrite Hws. split_and!.
  - intros id tail Hp Hid. rewrite Hp. destruct (String.eqb_spec id ""); [done|]. destruct (GetTyped rows id) as [r|]; [|done].
    destruct (String.eqb_spec (Workspace r) ws); [by exists r|done].
  - intros id. unfold activityTracker, shouldAutoWake. destruct (split_path path) as [[id' tail]|]; [|done].
    destruct (String.eqb_spec id' ""); [done|]. cbn [negb andb]. case_bool_decide; [done|].
    destruct (String.eqb_spec method "DELETE"); [done|]. destruct (String.eqb_spec method "GET") as [->|]; cbn [andb].
    + case_bool_decide; [done|]. intros [= <-]. by exists tail.
    + intros [= <-]. by exists tail.
  - intros l Hl.
    assert (Hl' : flushFiltered ws (list_handler rows) = Some l).
    { destruct (split_path path) as [[id tail]|]; repeat case_match; simplify_eq; done. }
    unfold flushFiltered, list_handler in Hl'. destruct rows as [all|]; [|done]. exists all. split; [done|].
    injection Hl' as <-. intros x. rewrite list_elem_of_filter. change (map ?f ?k) with (f <$> k). rewrite list_elem_of_fmap.
    assert (Hw : ∀ y, Workspace (RedactSandboxRow y).2 = Workspace y.2).
    { intros y. unfold Workspace, RedactSandboxRow, RedactMetadata. cbn [snd r_meta]. f_equal.
      destruct (r_meta y.2 !! "workspace") eqn:E; [by apply map_lookup_filter_Some|apply map_lookup_filter_None; by left]. }
    split.
    + intros [[H1 H2] (y & -> & [H3 H4]%list_elem_of_filter)]. exists y. rewrite Hw in H2. done.
    + intros (y & Hy & H1 & H2 & ->). split; [by rewrite Hw|]. exists y. split; [done|]. by apply list_elem_of_filter.
Qed.

Lemma reach_is_own_witness :
  let rows := Some [("a", mkRow "running" {["workspace" := "acme"; "secret.k" := "1"]}); ("b", mkRow "running" {["workspace" := "other"]});
                    ("c", mkRow "deleted" {["workspace" := "acme"]})] in
  workspaceScope (λ _, NoMeta) rows "acme" "jwt" "POST" "/sandboxes/b/exec" (mkBody None false) = NotFound ∧
  workspaceScope (λ _, NoMeta) rows "acme" "jwt" "POST" "/sandboxes/a/exec" (mkBody None false) = Pass ∧
  activityTracker "POST" "/sandboxes/a/exec" = Some "a" ∧ activityTracker "GET" "/sandboxes/a/logs" = None ∧
  workspaceScope (λ _, NoMeta) rows "acme" "jwt" "GET" "/sandboxes" (mkBody None false) =
    Listing (Some [("a", mkRow "running" {["workspace" := "acme"]})]) ∧
  ∃ r, GetTyped rows "a" = Some r ∧ Workspace r = "acme".
Proof.
  intros rows. split_and!; try (vm_compute; reflexivity).
  assert (Hp : split_path "/sandboxes/a/exec" = Some ("a", "/exec")) by (vm_compute; reflexivity).
  apply (proj1 (reach_is_own (λ _, NoMeta) rows "acme" "POST" "jwt" "/sandboxes/a/exec" (mkBody None false) eq_refl) "a" "/exec" Hp); [done|].
  vm_compute. discriminate.
Defined.

(** ** Where the two decodings part *)

(** Anything after the document: the check and the stamp, which Unmarshal, let
    it through as it is, and the handler's Decoder reads the document only.  A
    tenant creates in any workspace, from anybody's template, with any of the
    platform's keys. *)
Lemma trailing_byte_escapes_the_scope :
  ∃ r, post_sandboxes a_store "acme" "jwt"
         (mkBody (Some (JObj [("template", JStr "theirs"); ("metadata", JObj [("workspace", JStr "acme"); ("kind", JStr "app")])])) true) = Creates r ∧
    Template r = "theirs" ∧ Metadata r !! "kind" = Some "app" ∧ TemplateOwner a_store (Template r) = ("victim", true).
Proof. eexists. split_and!; vm_compute; reflexivity. Qed.

(** The document null unmarshals into a nil map, to which the stamp assigns. *)
Lemma null_panics files ws method : unscoped ws = false → post_sandboxes files ws method (mkBody (Some JNull) false) = Panics.
Proof. intros H. unfold post_sandboxes. by rewrite H. Qed.

(** A second spelling of a member: the check takes the last of the request, the
    create the last in sorted order. *)
Lemma second_spelling_passes_the_check :
  ∃ r, post_sandboxes a_store "acme" "jwt" (mkBody (Some (JObj [("template", JStr "theirs"); ("Template", JStr "mine")])) false) = Creates r ∧
    Template r = "theirs".
Proof. eexists. split; vm_compute; reflexivity. Qed.

(** A member of the wrong type makes the check give up, and is overwritten in the
    map before anybody else sees it. *)
Lemma wrong_type_passes_the_check :
  ∃ r, post_sandboxes a_store "acme" "jwt" (mkBody (Some (JObj [("template", JNum 1 Plain); ("template", JStr "theirs")])) false) = Creates r ∧
    Template r = "theirs".
Proof. eexists. split; vm_compute; reflexivity. Qed.

(** The platform's keys under another spelling of "metadata". *)
Lemma second_spelling_keeps_the_kind :
  ∃ r, post_sandboxes a_store "acme" "jwt" (mkBody (Some (JObj [("Metadata", JObj [("kind", JStr "app")])])) false) = Creates r ∧
    Metadata r !! "kind" = Some "app" ∧ Metadata r !! "workspace" = Some "acme".
Proof. eexists. split_and!; vm_compute; reflexivity. Qed.

(** A snapshot to restore is not compared with anybody's workspace. *)
Lemma any_snapshot_is_restored files id :
  id ≠ "" → checkCreateOwnership files (mkBody (Some (JObj [("from_snapshot", JStr id)])) false) "acme" = None.
Proof. reflexivity. Qed.

(** Nor are the routes outside /sandboxes, which the control plane's catch-all
    forwards too: another tenant's database is restored, and its password
    rotated. *)
Lemma databases_are_not_scoped files rows id :
  workspaceScope files rows "acme" "jwt" "POST" ("/db/" +:+ id +:+ "/rotate-creds") (mkBody None false) = Pass.
Proof. reflexivity. Qed.
