(* ===== verification/Templates.v ===== *)
(** Templates and their snapshots on an agent: the size of a template
    (agent/internal/sandbox/template_meta.go), the directory
    template-snaps/<name> as the bake writes it (ensureTemplateSnapshot of
    template_snap.go) and as a published seed is installed into it
    (agent/internal/seed), and what a restore takes from it.

    An image is named by the bake it is of; the directory is a map from file
    names to contents, absent or present.  Calls end as [at_] says, and a kill
    can come between any two writes (Crash). *)

From S2P Require Import Prelude GoStrings Crash Scope.

Open Scope string_scope.
Open Scope list_scope.
Open Scope Z_scope.
#[local] Set Warnings "-clear-no-such-hyp".

(** ** Sizes *)

Definition DefaultTemplateCPU : Z := 8.
Definition DefaultTemplateMemoryMB : Z := 1024.
Definition DefaultTemplateDiskGB : Z := 10.
Definition LegacySnapDiskGB : Z := 2.

Record TemplateSize := mkSize { sz_cpu : Z; sz_mem : Z; sz_disk : Z }.
#[export] Instance TemplateSize_eq_dec : EqDecision TemplateSize.
Proof. solve_decision. Defined.

Definition numField (m : list (string * json)) (k : string) : option Z :=
  match get k m with Some (JNum n _) => Some n | _ => None end.

(** *** snap-meta.json *)

Record snapManifest := mkManifest { mf_cpu : Z; mf_mem : Z; mf_disk : Z; mf_key : string }.

(** [omitempty] on disk_gb and ssh_key_fp. *)
Definition WriteSnapManifest (m : snapManifest) : body :=
  mkBody (Some (JObj ([("cpu", JNum (mf_cpu m) Plain); ("memory_mb", JNum (mf_mem m) Plain)]
    ++ (if mf_disk m =? 0 then [] else [("disk_gb", JNum (mf_disk m) Plain)])
    ++ (if String.eqb (mf_key m) "" then [] else [("ssh_key_fp", JStr (mf_key m))])))) false.

Definition manifest_field (k : string) (j : json) (m : snapManifest) : option snapManifest :=
  let '(mkManifest c mm d fp) := m in
  if is_field "cpu" k then x ← dec_int c j; Some (mkManifest x mm d fp)
  else if is_field "memory_mb" k then x ← dec_int mm j; Some (mkManifest c x d fp)
  else if is_field "disk_gb" k then x ← dec_int d j; Some (mkManifest c mm x fp)
  else if is_field "ssh_key_fp" k then x ← dec_string fp j; Some (mkManifest c mm d x)
  else Some m.

Definition ReadSnapManifest (file : option body) : option snapManifest :=
  b ← file;
  j ← Unmarshal b;
  m ← dec_struct manifest_field (mkManifest 0 0 0 "") j;
  if (mf_cpu m <=? 0) || (mf_mem m <=? 0) then None
  else Some (mkManifest (mf_cpu m) (mf_mem m) (if mf_disk m <=? 0 then LegacySnapDiskGB else mf_disk m) (mf_key m)).

(** *** templates/<name>/meta.json *)

Definition clip (lo hi def : Z) (v : option Z) : Z :=
  match v with Some v => if (lo <=? v) && (v <=? hi) then v else def | None => def end.

Definition ReadTemplateSize (files : string → metaFile) (template : string) (snapmeta : option body) : TemplateSize :=
  let def := mkSize DefaultTemplateCPU DefaultTemplateMemoryMB DefaultTemplateDiskGB in
  let clipped c m d := mkSize (clip 1 64 DefaultTemplateCPU c) (clip 128 65536 DefaultTemplateMemoryMB m)
                         (clip 1 1024 DefaultTemplateDiskGB d) in
  if String.eqb template "" then def
  else match files template with
  | Meta b =>
      match Unmarshal b ≫= as_map with
      | None => def
      | Some m => let m := default [] m in clipped (numField m "cpu") (numField m "memory_mb") (numField m "disk_gb")
      end
  | _ =>
      match ReadSnapManifest snapmeta with
      | Some m => clipped (Some (mf_cpu m)) (Some (mf_mem m)) (Some (mf_disk m))
      | None => def
      end
  end.

Definition IsPublicTemplate (files : string → metaFile) (template : string) : bool :=
  let '(owner, readable) := TemplateOwner files template in readable && String.eqb owner "".

Lemma clip_bounds lo hi def v : lo ≤ def ≤ hi → lo ≤ clip lo hi def v ≤ hi.
Proof. intros H. destruct v as [v|]; [|done]. cbn. destruct (Z.leb_spec lo v), (Z.leb_spec v hi); cbn; lia. Qed.
Lemma clip_id lo hi def v : lo ≤ v ≤ hi → clip lo hi def (Some v) = v.
Proof. intros H. cbn. destruct (Z.leb_spec lo v), (Z.leb_spec v hi); cbn; lia. Qed.

Lemma template_size_bounds files template snapmeta :
  let s := ReadTemplateSize files template snapmeta in
  1 ≤ sz_cpu s ≤ 64 ∧ 128 ≤ sz_mem s ≤ 65536 ∧ 1 ≤ sz_disk s ≤ 1024.
Proof.
  unfold ReadTemplateSize, DefaultTemplateCPU, DefaultTemplateMemoryMB, DefaultTemplateDiskGB.
  cbv zeta. repeat case_match; cbn [sz_cpu sz_mem sz_disk]; try lia.
  all: split; [|split]; apply clip_bounds; lia.
Qed.

Lemma is_int64_of n : 0 ≤ n < 2 ^ 63 → is_int64 n = true.
Proof. intros H. unfold is_int64. destruct (Z.leb_spec (- 2 ^ 63) n), (Z.ltb_spec n (2 ^ 63)); cbn; lia. Qed.

Lemma cpu_member v c m d f : manifest_field "cpu" (JNum v Plain) (mkManifest c m d f) = if is_int64 v then Some (mkManifest v m d f) else None.
Proof. unfold manifest_field. replace (is_field "cpu" "cpu") with true by (vm_compute; reflexivity). cbn. by destruct (is_int64 v). Qed.
Lemma mem_member v c m d f : manifest_field "memory_mb" (JNum v Plain) (mkManifest c m d f) = if is_int64 v then Some (mkManifest c v d f) else None.
Proof.
  unfold manifest_field. replace (is_field "cpu" "memory_mb") with false by (vm_compute; reflexivity).
  replace (is_field "memory_mb" "memory_mb") with true by (vm_compute; reflexivity). cbn. by destruct (is_int64 v).
Qed.
Lemma disk_member v c m d f : manifest_field "disk_gb" (JNum v Plain) (mkManifest c m d f) = if is_int64 v then Some (mkManifest c m v f) else None.
Proof.
  unfold manifest_field. replace (is_field "cpu" "disk_gb") with false by (vm_compute; reflexivity).
  replace (is_field "memory_mb" "disk_gb") with false by (vm_compute; reflexivity).
  replace (is_field "disk_gb" "disk_gb") with true by (vm_compute; reflexivity). cbn. by destruct (is_int64 v).
Qed.
Lemma key_member v c m d f : manifest_field "ssh_key_fp" (JStr v) (mkManifest c m d f) = Some (mkManifest c m d v).
Proof.
  unfold manifest_field. replace (is_field "cpu" "ssh_key_fp") with false by (vm_compute; reflexivity).
  replace (is_field "memory_mb" "ssh_key_fp") with false by (vm_compute; reflexivity).
  replace (is_field "disk_gb" "ssh_key_fp") with false by (vm_compute; reflexivity).
  replace (is_field "ssh_key_fp" "ssh_key_fp") with true by (vm_compute; reflexivity). reflexivity.
Qed.

Lemma manifest_reads_back m :
  0 < mf_cpu m < 2 ^ 63 → 0 < mf_mem m < 2 ^ 63 → 0 < mf_disk m < 2 ^ 63 →
  ReadSnapManifest (Some (WriteSnapManifest m)) = Some m.
Proof.
  destruct m as [c mm d fp]. cbn [mf_cpu mf_mem mf_disk]. intros Hc Hm Hd.
  unfold WriteSnapManifest, ReadSnapManifest. cbn [mf_cpu mf_mem mf_disk mf_key].
  destruct (Z.eqb_spec d 0); [lia|].
  assert (H : ∀ l, dec_struct manifest_field (mkManifest 0 0 0 "")
      (JObj ([("cpu", JNum c Plain); ("memory_mb", JNum mm Plain)] ++ [("disk_gb", JNum d Plain)] ++ l)) =
    foldl (λ acc x, match acc with Some a => manifest_field x.1 x.2 a | None => None end) (Some (mkManifest c mm d "")) l).
  { intros l. unfold dec_struct. cbn [foldl app fst snd]. rewrite cpu_member, is_int64_of by lia.
    rewrite mem_member, is_int64_of by lia. by rewrite disk_member, is_int64_of by lia. }
  cbn [mbind option_bind Unmarshal b_trailing b_value]. rewrite H.
  assert (Hf : foldl (λ acc x, match acc with Some a => manifest_field x.1 x.2 a | None => None end) (Some (mkManifest c mm d ""))
      (if String.eqb fp "" then [] else [("ssh_key_fp", JStr fp)]) = Some (mkManifest c mm d fp)).
  { destruct (String.eqb_spec fp "") as [->|]; [done|]. cbn [foldl fst snd]. apply key_member. }
  rewrite Hf. cbn [mbind option_bind mf_cpu mf_mem mf_disk mf_key].
  destruct (Z.leb_spec c 0), (Z.leb_spec mm 0), (Z.leb_spec d 0); cbn; try lia. done.
Qed.

Lemma size_is_fixed files template old key :
  let s := ReadTemplateSize files template old in
  ReadTemplateSize files template (Some (WriteSnapManifest (mkManifest (sz_cpu s) (sz_mem s) (sz_disk s) key))) = s.
Proof.
  intros s. pose proof (template_size_bounds files template old) as (Hc & Hm & Hd). fold s in Hc, Hm, Hd.
  pose proof (manifest_reads_back (mkManifest (sz_cpu s) (sz_mem s) (sz_disk s) key) ltac:(cbn; lia) ltac:(cbn; lia) ltac:(cbn; lia)) as Hr.
  unfold ReadTemplateSize at 1. rewrite Hr. cbn [mf_cpu mf_mem mf_disk]. rewrite !clip_id by lia.
  unfold s in *. unfold ReadTemplateSize in *. destruct (String.eqb template ""); [done|].
  destruct (files template); [by destruct (match ReadSnapManifest old with Some _ => _ | None => _ end)
    |by destruct (match ReadSnapManifest old with Some _ => _ | None => _ end)|done].
Qed.

(** A template has one size.  Whatever its meta.json and an old manifest say,
    the size read is in bounds; the manifest of a bake at it reads back as that
    size and key; and with that manifest in the place of the old one the size
    read is still the same, so the bake is of the size that is asked for. *)
Theorem size_is_the_bakes files template old key :
  let s := ReadTemplateSize files template old in
  let m := WriteSnapManifest (mkManifest (sz_cpu s) (sz_mem s) (sz_disk s) key) in
  (1 ≤ sz_cpu s ≤ 64 ∧ 128 ≤ sz_mem s ≤ 65536 ∧ 1 ≤ sz_disk s ≤ 1024) ∧
  ReadSnapManifest (Some m) = Some (mkManifest (sz_cpu s) (sz_mem s) (sz_disk s) key) ∧
  ReadTemplateSize files template (Some m) = s.
Proof.
  intros s m. pose proof (template_size_bounds files template old) as (Hc & Hm & Hd). fold s in Hc, Hm, Hd.
  split_and!; try lia; [|apply size_is_fixed]. apply manifest_reads_back; cbn; lia.
Qed.

(** ** The directory of a snapshot *)

(** [Img b]: the file as bake [b] made it, or, of a sidecar, the published
    object it names; [Part]: written in part; [Zeros]: a sparse file that stands
    for an image that is elsewhere. *)
Inductive content := Img (b : nat) | Part | Zeros | Text (s : string) | Doc (b : body).
Abbreviation files := (gmap string content).
Abbreviation D := (option (gmap string content)).

Definition text_of (d : files) (f : string) : string := match d !! f with Some (Text s) => s | _ => "" end.
Definition doc_of (d : files) (f : string) : option body := match d !! f with Some (Doc b) => Some b | _ => None end.

(** The agent, and the template. *)
Record env := mkEnv { e_files : string → metaFile; e_template : string; e_natid : bool; e_key : string; e_phased : bool }.

Definition want (e : env) (d : files) : TemplateSize := ReadTemplateSize (e_files e) (e_template e) (doc_of d "snap-meta.json").
Definition is_natid (d : files) : bool := String.eqb (TrimSpace (text_of d "flavor")) "natid".

Definition templateSnapReady (e : env) (d : D) : bool :=
  match d with
  | None => false
  | Some d =>
      if negb (bool_decide (is_Some (d !! "ready"))) then false
      else if negb (Bool.eqb (e_natid e) (is_natid d)) then false
      else
        let '(have, key) :=
          match ReadSnapManifest (doc_of d "snap-meta.json") with
          | Some m => (mkSize (mf_cpu m) (mf_mem m) (mf_disk m), mf_key m)
          | None => (mkSize DefaultTemplateCPU DefaultTemplateMemoryMB LegacySnapDiskGB, "")
          end in
        if negb (bool_decide (have = want e d)) then false
        else negb (String.eqb key "") && String.eqb key (e_key e)
  end.

(** *** What a restore takes from it *)

(** startFromTemplateSnapNATID, and EnsureBase behind CreateSnap: the sidecar's
    object, else the clone, else the build VM's disk. *)
Definition disk_of (d : files) : option content :=
  match d !! "rootfs.gcs" with
  | Some c => Some c
  | None => match d !! "clone.ext4" with Some c => Some c | None => d !! "build-vm/rootfs.ext4" end
  end.
(** uffdSource, or the file itself; a header cut off does not decode. *)
Definition header_of (d : files) : option content :=
  match d !! "vm.mem.header" with Some Part => None | h => h end.
Definition mem_of (uffd : bool) (d : files) : option (list content) :=
  if uffd then
    match d !! "vm.mem" with
    | Some c => Some (c :: match header_of d with Some h => [h] | None => [] end)
    | None => c ← d !! "vm.mem.gcs"; h ← header_of d; Some [c; h]
    end
  else c ← d !! "vm.mem"; Some [c].
(** Firecracker opens the build VM's disk at its path before the drive is
    replaced, and its state; [None]: the restore fails. *)
Definition restored (uffd : bool) (d : files) : option (list content) :=
  s ← d !! "vm.state"; _ ← d !! "build-vm/rootfs.ext4"; k ← disk_of d; m ← mem_of uffd d; Some (s :: k :: m).

(** ** Writing it *)

(** How a call ends; [Half]: it fails after it began to write. *)
Inductive outcome := Done | Fails | Half.
#[export] Instance outcome_eq_dec : EqDecision outcome.
Proof. solve_decision. Defined.
Inductive site :=
  | Mkdir | Allocate | MkdirBuild | BakeKey | CopyRootfs | Kernel | Placeholder | VsockDir | StartVM | WaitSSH | WaitInit
  | SnapshotVM | MemHeader | WriteMemHeader | Clone | DiskHeader | WriteDiskHeader | Identity | Flavor | WriteManifest | Ready
  | Staging | Download | Extract | MemRef | DownloadMem | DiskRef | Sparse | DownloadClone | Link | WriteGen | CleanStaging | Remove
  | Tar | CopyTar | CopyMem | CopyClone | CopyManifest | CopyCurrent.

Notation "'must' c ;; k" := (mbind (M := C _) (λ ok : bool, if ok then k else mret false) c)
  (at level 100, c at next level, k at level 200, right associativity).
Notation "c ,, k" := (mbind (M := C _) (λ _ : bool, k) c) (at level 100, k at level 200, right associativity).

Definition nl : string := String (Ascii.ascii_of_nat 10) "".

Section bake.
Context (at_ : site → outcome).

Definition get_dir : C D D := pure_step (λ d, (d, d)).
Definition call (s : site) : C D bool := pure_step (λ d, (bool_decide (at_ s = Done), d)).
Definition write (f : string) (c : content) : C D bool :=
  effect (λ d, match d with Some m => (true, Some (<[f := c]> m)) | None => (false, None) end).
(** Create or truncate, then fill. *)
Definition produce (s : site) (f : string) (c : content) : C D bool :=
  match at_ s with
  | Fails => mret false
  | Half => write f Part ,, mret false
  | Done => must write f Part ;; write f c
  end.
Definition mkdir_all (s : site) : C D bool :=
  match at_ s with Done => effect (λ d, (true, Some (default ∅ d))) | _ => mret false end.
Definition remove (f : string) : C D bool := effect (λ d, (true, delete f <$> d)).
(** os.RemoveAll takes the files in some order; [Half]: it stops among them. *)
Definition RemoveAll (order : list string) : C D bool :=
  match at_ Remove with
  | Fails => mret false
  | Half => _ ← each remove order; mret false
  | Done => _ ← each remove order; effect (λ _, (true, None))
  end.

(** Firecracker creates both files, and has filled them when it answers. *)
Definition PauseAndSnapshot (b : nat) : C D bool :=
  match at_ SnapshotVM with
  | Fails => mret false
  | Half => write "vm.state" Part ,, write "vm.mem" Part ,, mret false
  | Done => must write "vm.state" Part ;; must write "vm.mem" Part ;;
            must write "vm.state" (Img b) ;; write "vm.mem" (Img b)
  end.

(** What does not fail the bake: headers, the clone, identity.json. *)
Definition write_mem_header (b : nat) : C D bool :=
  must call MemHeader ;; produce WriteMemHeader "vm.mem.header" (Img b).
(** The header is of the clone that is there. *)
Definition write_disk_header : C D bool :=
  must call DiskHeader ;;
  d ← get_dir;
  match d ≫= (λ m, m !! "clone.ext4") with
  | Some c => produce WriteDiskHeader "clone.ext4.header" c
  | None => mret false
  end.
Definition finish_bake (e : env) (b : nat) (size : TemplateSize) : C D bool :=
  write_mem_header b ,,
  produce Clone "clone.ext4" (Img b) ,,
  write_disk_header ,,
  produce Identity "identity.json" (Img b) ,,
  must produce Flavor "flavor" (Text (if e_natid e then "natid" +:+ nl else "legacy" +:+ nl)) ;;
  must produce WriteManifest "snap-meta.json" (Doc (WriteSnapManifest (mkManifest (sz_cpu size) (sz_mem size) (sz_disk size) (e_key e)))) ;;
  produce Ready "ready" (Text "").

Definition bake (e : env) (b : nat) : C D bool :=
  must mkdir_all Mkdir ;;
  must call Allocate ;;
  must call MkdirBuild ;;
  must call BakeKey ;;
  must produce CopyRootfs "build-vm/rootfs.ext4" (Img b) ;;
  must call Kernel ;;
  remove "restore.sock" ,,
  (d ← get_dir;
   let size := want e (default ∅ d) in
   must (if e_phased e then produce Placeholder "build-vm/data-placeholder.img" Zeros else mret true) ;;
   must (if e_natid e then call VsockDir else mret true) ;;
   must call StartVM ;;
   must call WaitSSH ;;
   must (if e_natid e then mret true else call WaitInit) ;;
   must PauseAndSnapshot b ;;
   finish_bake e b size).

Definition ensureTemplateSnapshot (e : env) (b : nat) (order : list string) : C D bool :=
  d ← get_dir;
  early ← (if templateSnapReady e d then
             if Bool.eqb (e_natid e) (is_natid (default ∅ d)) then mret true else RemoveAll order ,, mret false
           else mret false);
  if early : bool then mret true
  else
    d ← get_dir;
    if templateSnapReady e d then mret true else bake e b.
End bake.

(** ** Publishing it, and installing what was published *)

Definition SchemaVersion : Z := 4.
Record Manifest := mkSeed {
  Schema : Z; Generation : string; TarSHA256 : string;
  m_size : TemplateSize; DataPlaceholderGB : Z; MemBytes : Z; CloneBytes : Z;
  SSHKeyFP : string; m_flavor : string; RootfsGeneration : string; FCVersion : string;
}.
(** The objects of one generation. *)
Record seed := mkObjects { o_tar : option files; o_mem : option content; o_clone : option content; o_man : option Manifest }.

Record world := mkWorld { snap : D; incoming : D; bucket : gmap string seed; current : option string }.
Definition set_snap d w := mkWorld d (incoming w) (bucket w) (current w).
Definition set_incoming d w := mkWorld (snap w) d (bucket w) (current w).
Definition set_bucket x w := mkWorld (snap w) (incoming w) x (current w).
Definition set_current x w := mkWorld (snap w) (incoming w) (bucket w) x.

Definition essentialFiles : list string := ["vm.state"; "identity.json"; "snap-meta.json"; "flavor"; "ready"].
Definition optionalFiles : list string := ["vm.mem.header"; "hugepages"; "clone.ext4.header"; "clone.ext4.prefetch"].

Section seeds.
(** The digest of a tarball, the size of a file, Firecracker's version ("" where
    the command fails), the generation of the template's rootfs in the bucket. *)
Context (sha : files → string) (bytes : content → Z) (fcVersion : string) (objectGeneration : string).
Context (at_ : site → outcome).

Definition copy (s : site) (g : string) (f : seed → seed) : C world bool :=
  match at_ s with
  | Done => effect (λ w, (true, set_bucket (<[g := f (default (mkObjects None None None None) (bucket w !! g))]> (bucket w)) w))
  | _ => mret false
  end.
Definition tarball (d : files) : files := filter (λ x, x.1 ∈ essentialFiles ++ optionalFiles) d.

Definition Upload (e : env) (size : TemplateSize) (placeholderGB : Z) (g : string) : C world bool :=
  d ← pure_step (λ w, (default ∅ (snap w), w));
  if negb (bool_decide (Forall (λ f, is_Some (d !! f)) essentialFiles)) then mret false
  else match d !! "vm.mem", d !! "clone.ext4" with
  | Some mem, Some clone =>
      if negb (bool_decide (at_ Tar = Done)) then mret false
      else
        let tar := tarball d in
        let man := mkSeed SchemaVersion g (sha tar) size placeholderGB (bytes mem) (bytes clone) (e_key e)
                     (if e_natid e then "natid" else "legacy") objectGeneration fcVersion in
        must copy CopyTar g (λ s, mkObjects (Some tar) (o_mem s) (o_clone s) (o_man s)) ;;
        must copy CopyMem g (λ s, mkObjects (o_tar s) (Some mem) (o_clone s) (o_man s)) ;;
        must copy CopyClone g (λ s, mkObjects (o_tar s) (o_mem s) (Some clone) (o_man s)) ;;
        must copy CopyManifest g (λ s, mkObjects (o_tar s) (o_mem s) (o_clone s) (Some man)) ;;
        match at_ CopyCurrent with
        | Done => effect (λ w, (true, set_current (Some g) w))
        | _ => mret false
        end
  | _, _ => mret false
  end.

Definition currentManifest (w : world) : option (Manifest * seed) :=
  g ← current w; s ← bucket w !! g; m ← o_man s; Some (m, s).

(** The size the gate compares; [None]: no (readable) meta.json. *)
Definition readTemplateSize (e : env) : option TemplateSize :=
  match e_files e (e_template e) with
  | Meta b =>
      m ← Unmarshal b ≫= as_map;
      let m := default [] m in
      let num k := match numField m k with Some n => n | None => 0 end in
      let or0 n d := if n =? 0 then d else n in
      Some (mkSize (or0 (num "cpu") 1) (or0 (num "memory_mb") 1024) (or0 (num "disk_gb") 10))
  | _ => None
  end.

Definition compatible (e : env) (m : Manifest) : bool :=
  (Schema m =? SchemaVersion) && String.eqb (SSHKeyFP m) (e_key e) &&
  String.eqb (m_flavor m) (if e_natid e then "natid" else "legacy") &&
  match readTemplateSize e with Some s => bool_decide (m_size m = s) | None => true end &&
  (String.eqb objectGeneration "" || String.eqb (RootfsGeneration m) "" || String.eqb objectGeneration (RootfsGeneration m)) &&
  (String.eqb fcVersion "" || String.eqb (FCVersion m) "" || String.eqb fcVersion (FCVersion m)).

(** Without what ends it of newlines and spaces. *)
Fixpoint trimNL (s : string) : string :=
  match s with
  | EmptyString => ""
  | String c r =>
      match trimNL r with
      | EmptyString => if (code c =? 10) || (code c =? 13) || (code c =? 32) then "" else String c ""
      | r' => String c r'
      end
  end.

(** The staging directory, filled from the objects. *)
Definition stage (e : env) (m : Manifest) (s : seed) (streamMem streamDisk : bool) : C D bool :=
  must mkdir_all at_ Staging ;;
  must produce at_ Download "seed.tar.gz" (Text (TarSHA256 m)) ;;
  match o_tar s with
  | None => mret false
  | Some tar =>
      if negb (String.eqb (sha tar) (TarSHA256 m)) then mret false
      else
        must (match at_ Extract with
              | Done => effect (λ d, (true, union tar <$> d))
              | _ => mret false
              end) ;;
        remove "seed.tar.gz" ,,
        (let header f := match tar !! f with Some _ => true | None => false end in
         must (if streamMem && header "vm.mem.header" && (0 <? MemBytes m) then
                 match o_mem s with Some c => produce at_ MemRef "vm.mem.gcs" c | None => mret false end
               else match o_mem s with Some c => produce at_ DownloadMem "vm.mem" c | None => mret false end) ;;
         must (if streamDisk && header "clone.ext4.header" && (0 <? CloneBytes m) then
                 match o_clone s with
                 | Some c => must produce at_ DiskRef "rootfs.gcs" c ;; produce at_ Sparse "clone.ext4" Zeros
                 | None => mret false
                 end
               else match o_clone s with Some c => produce at_ DownloadClone "clone.ext4" c | None => mret false end) ;;
         must call at_ MkdirBuild ;;
         d ← get_dir;
         must (match at_ Link, d ≫= (λ x, x !! "clone.ext4") with
               | Done, Some c => write "build-vm/rootfs.ext4" c
               | _, _ => mret false
               end) ;;
         must (if 0 <? DataPlaceholderGB m then produce at_ Placeholder "build-vm/data-placeholder.img" Zeros else mret true) ;;
         produce at_ WriteGen ".seedgen" (Text (Generation m +:+ nl)))
  end.

(** os.Rename puts a directory in the place of none, or of an empty one. *)
Definition install : C world bool :=
  effect (λ w, match snap w with
               | Some d => if bool_decide (d = ∅) then (true, set_incoming None (set_snap (incoming w) w)) else (false, w)
               | None => (true, set_incoming None (set_snap (incoming w) w))
               end).

Definition syncOne (e : env) (streamMem streamDisk : bool) (order : list string) : C world bool :=
  mw ← pure_step (λ w, (currentManifest w, w));
  match mw with
  | None => mret true
  | Some (m, s) =>
      if negb (compatible e m) then mret false
      else
        d ← pure_step (λ w, (default ∅ (snap w), w));
        if match d !! ".seedgen" with Some (Text g) => String.eqb (trimNL g) (Generation m) | _ => false end then mret true
        else
          match at_ CleanStaging with Done => effect (λ w, (true, set_incoming None w)) | _ => mret false end ,,
          (ok ← (must zoom incoming set_incoming (stage e m s streamMem streamDisk) ;;
                 zoom snap set_snap (RemoveAll at_ order) ,, install);
           effect (λ w, (ok, set_incoming None w)))          (* the deferred RemoveAll *)
  end.
End seeds.

(** ** Whole snapshots *)

(** What a restore may take from the directory is of bake [b]. *)
Definition is_of (b : nat) (x : option content) : Prop := x = None ∨ x = Some (Img b).
Record of_bake (b : nat) (d : files) : Prop := {
  ob_state : is_of b (d !! "vm.state");
  ob_mem : is_of b (d !! "vm.mem");
  ob_memref : is_of b (d !! "vm.mem.gcs");
  ob_header : is_of b (d !! "vm.mem.header") ∨ d !! "vm.mem.header" = Some Part;
  ob_diskref : is_of b (d !! "rootfs.gcs");
  ob_disk : d !! "rootfs.gcs" = None → is_of b (d !! "clone.ext4") ∧ is_of b (d !! "build-vm/rootfs.ext4");
}.
Definition thin (d : D) : Prop := ∃ m, d = Some m ∧ (is_Some (m !! "rootfs.gcs") ∨ is_Some (m !! "vm.mem.gcs")).
Definition whole (d : D) : Prop :=
  match d with None => True | Some m => m !! "ready" = None ∨ ∃ b, of_bake b m end.

Lemma restored_of_bake b uffd d l : of_bake b d → restored uffd d = Some l → Forall (λ c, c = Img b) l.
Proof.
  intros [Hs Hm Hr Hh Hd Hk] H. unfold restored in H.
  assert (Hof : ∀ f c, is_of b (d !! f) → d !! f = Some c → c = Img b) by (intros f c [E|E] E'; congruence).
  destruct (d !! "vm.state") as [s|] eqn:Es; [|done]. destruct (d !! "build-vm/rootfs.ext4") eqn:Eb; [|done].
  cbn [mbind option_bind] in H.
  assert (Hdisk : ∀ c', disk_of d = Some c' → c' = Img b).
  { unfold disk_of. intros c'. destruct (d !! "rootfs.gcs") as [r|] eqn:Er.
    - intros [= <-]. destruct Hd; congruence.
    - destruct (Hk eq_refl) as [H1 H2]. destruct (d !! "clone.ext4") as [k|] eqn:Ek.
      + intros [= <-]. destruct H1; congruence.
      + rewrite Eb. intros [= <-]. destruct H2; congruence. }
  destruct (disk_of d) as [k|]; [|done]. cbn [mbind option_bind] in H.
  assert (Hhead : ∀ h, header_of d = Some h → h = Img b).
  { unfold header_of. intros h. destruct (d !! "vm.mem.header") as [[]|] eqn:Eh; intros [= <-]; destruct Hh as [[E|E]|E]; congruence. }
  assert (Hmem : ∀ m, mem_of uffd d = Some m → Forall (λ c, c = Img b) m).
  { unfold mem_of. intros m. destruct (d !! "vm.mem") as [v|] eqn:Ev.
    - assert (v = Img b) as -> by (destruct Hm; congruence). destruct uffd; intros [= <-]; [|by repeat constructor].
      destruct (header_of d); repeat constructor. by apply Hhead.
    - destruct uffd; [|done]. destruct (d !! "vm.mem.gcs") as [v|] eqn:Eg; [|done]. destruct (header_of d); [|done].
      intros [= <-]. repeat constructor; [|by apply Hhead]. destruct Hr; congruence. }
  destruct (mem_of uffd d) as [m|]; [|done]. injection H as <-.
  repeat constructor; [destruct Hs; congruence|by apply Hdisk|by apply Hmem].
Qed.

Lemma ready_has e m : templateSnapReady e (Some m) = true → is_Some (m !! "ready").
Proof. unfold templateSnapReady. case_bool_decide; done. Qed.

(** *** Running a writer *)

Lemma triple_true {W A} P (c : C W A) : triple P c (λ _ _, True) (λ _, True).
Proof. intros n w _. by destruct (c n w) as [[[]|]]. Qed.


(** The directory is there, has [K], and each file of it [F]. *)
Definition holds (K : files → Prop) (F : string → option content → Prop) (d : D) : Prop :=
  ∃ m, d = Some m ∧ K m ∧ ∀ g, F g (m !! g).
Definition upd (f : string) (P : option content → Prop) (F : string → option content → Prop) :=
  λ g x, if String.eqb g f then P x else F g x.
Definition keeps (K : files → Prop) (f : string) : Prop := ∀ m c, K m → K (<[f := c]> m).

Section writing.
Context (at_ : site → outcome) (K : files → Prop) (R : D → Prop).
Hypothesis KR : ∀ m, K m → R (Some m).
Implicit Types F : string → option content → Prop.

Lemma holds_R F d : holds K F d → R d.
Proof. intros (m & -> & Hm & _). by apply KR. Qed.

Lemma t_write F f c : keeps K f →
  triple (holds K F) (write f c) (λ ok d, ok = true ∧ holds K (upd f (λ x, x = Some c) F) d) R.
Proof.
  intros HK. apply triple_effect; [apply holds_R|]. intros d (m & -> & Hm & HF). cbn. split; [done|].
  exists (<[f := c]> m). split_and!; [done|by apply HK|]. intros g. unfold upd.
  destruct (String.eqb_spec g f) as [->|]; [apply lookup_insert_eq|]. by rewrite lookup_insert_ne.
Qed.
Lemma t_remove F f : (∀ m, K m → K (delete f m)) →
  triple (holds K F) (remove f) (λ _, holds K (upd f (λ x, x = None) F)) R.
Proof.
  intros HK. apply triple_effect; [apply holds_R|]. intros d (m & -> & Hm & HF). cbn.
  exists (delete f m). split_and!; [done|by apply HK|]. intros g. unfold upd.
  destruct (String.eqb_spec g f) as [->|]; [apply lookup_delete_eq|]. by rewrite lookup_delete_ne.
Qed.
Lemma t_call P s : triple P (call at_ s) (λ ok d, ok = bool_decide (at_ s = Done) ∧ P d) R.
Proof. apply triple_pure_step. done. Qed.

(** What is in the file when the call has ended as it does. *)
Definition produced (s : site) (f : string) (c : content) F : option content → Prop :=
  match at_ s with Done => λ x, x = Some c | Half => λ x, x = Some Part | Fails => F f end.
Lemma t_produce F s f c : keeps K f →
  triple (holds K F) (produce at_ s f c) (λ ok d, ok = bool_decide (at_ s = Done) ∧ holds K (upd f (produced s f c F) F) d) R.
Proof.
  intros HK. unfold produce, produced. destruct (at_ s).
  - eapply triple_bind; [by apply t_write|]. intros []; [|intros n w [? _]; done].
    eapply triple_conseq; [by apply (t_write (upd f (λ x, x = Some Part) F))|by intros d [_ ?]| |done].
    intros ok d [-> (m & -> & Hm & HF)]. split; [done|]. exists m. split_and!; try done.
    intros g. specialize (HF g). unfold upd in *. by destruct (String.eqb g f).
  - apply triple_ret. intros d (m & -> & Hm & HF). split; [done|]. exists m. split_and!; try done.
    intros g. unfold upd. destruct (String.eqb_spec g f) as [->|]; apply HF.
  - eapply triple_bind; [by apply t_write|]. intros ok. apply triple_ret. by intros d [_ ?].
Qed.
End writing.

Ltac keeping := intros m c; repeat (rewrite lookup_insert_ne by done); done.

Lemma triple_framed {W A} (φ : Prop) P (c : C W A) Q R : triple P c Q R → triple (λ w, φ ∧ P w) c Q R.
Proof. intros H. eapply triple_conseq; [exact H|by intros w [_ ?]|done|done]. Qed.

Lemma must_assoc {W} P (c c' k : C W bool) Q R :
  triple P (must c ;; must c' ;; k) Q R → triple P (must (must c ;; c') ;; k) Q R.
Proof.
  intros H n w Hw. specialize (H n w Hw). unfold mbind, C_bind in *.
  destruct (c n w) as [[[[] m]|] w']; [|exact H|exact H].
  destruct (c' m w') as [[[[] m']|] w'']; exact H.
Qed.

(** *** The bake *)

(** Before it ends: nothing marks the directory, and no sidecar is in it. *)
Definition unmarked (m : files) : Prop := m !! "ready" = None ∧ m !! "rootfs.gcs" = None ∧ m !! "vm.mem.gcs" = None.
Definition careful (at_ : site → outcome) (m : files) : Prop :=
  (at_ Clone = Done ∨ at_ Clone = Fails ∧ m !! "clone.ext4" = None) ∧
  (m !! "vm.mem.header" = None ∨ at_ MemHeader = Done ∧ at_ WriteMemHeader ≠ Fails).

Lemma unmarked_whole m : unmarked m → whole (Some m).
Proof. intros [H _]. by left. Qed.
Lemma unmarked_keeps f : f ∉ ["ready"; "rootfs.gcs"; "vm.mem.gcs"] → keeps unmarked f.
Proof.
  intros Hf m c (H1 & H2 & H3). rewrite !not_elem_of_cons in Hf. destruct Hf as (F1 & F2 & F3 & _).
  unfold unmarked. rewrite !lookup_insert_ne by done. done.
Qed.
Definition image_files : list string :=
  ["vm.state"; "vm.mem"; "vm.mem.gcs"; "vm.mem.header"; "rootfs.gcs"; "clone.ext4"; "build-vm/rootfs.ext4"].
Lemma of_bake_keeps b f : f ∉ image_files → keeps (of_bake b) f.
Proof.
  intros Hf m c [H1 H2 H3 H4 H5 H6]. unfold image_files in Hf. rewrite !not_elem_of_cons in Hf. destruct_and! Hf.
  split; rewrite ?lookup_insert_ne by done; done.
Qed.
Lemma of_bake_whole b m : of_bake b m → whole (Some m).
Proof. intros H. right. by exists b. Qed.

Ltac not_in := rewrite ?not_elem_of_cons; split_and?; (done || apply not_elem_of_nil).

Section baking.
Context (at_ : site → outcome) (e : env) (b : nat).

Lemma t_snapshot F :
  triple (holds unmarked F) (PauseAndSnapshot at_ b)
    (λ ok d, if ok : bool then holds unmarked (upd "vm.mem" (λ x, x = Some (Img b)) (upd "vm.state" (λ x, x = Some (Img b)) F)) d else whole d) whole.
Proof.
  unfold PauseAndSnapshot.
  assert (Hw : ∀ F f c, f ∉ ["ready"; "rootfs.gcs"; "vm.mem.gcs"] →
    triple (holds unmarked F) (write f c) (λ ok d, ok = true ∧ holds unmarked (upd f (λ x, x = Some c) F) d) whole).
  { intros F' f c Hf. apply t_write; [apply unmarked_whole|by apply unmarked_keeps]. }
  assert (Hr : ∀ F d, holds unmarked F d → whole d) by (intros F' d; apply holds_R, unmarked_whole).
  destruct (at_ SnapshotVM).
  - eapply triple_bind; [apply Hw; not_in|]. intros []; [|intros n w [? _]; done].
    eapply triple_conseq; [|by intros d [_ H]; exact H|exact (λ a w H, H)|done].
    eapply triple_bind; [apply Hw; not_in|]. intros []; [|intros n w [? _]; done].
    eapply triple_conseq; [|by intros d [_ H]; exact H|exact (λ a w H, H)|done].
    eapply triple_bind; [apply Hw; not_in|]. intros []; [|intros n w [? _]; done].
    eapply triple_conseq; [|by intros d [_ H]; exact H| |done].
    + apply Hw; not_in.
    + intros ok d [-> (m & -> & Hm & HF)]. exists m. split_and!; try done.
      intros g. specialize (HF g). unfold upd in *. repeat case_match; done.
  - apply triple_ret. apply Hr.
  - eapply triple_bind; [apply Hw; not_in|]. intros ?.
    eapply triple_conseq; [|by intros d [_ H]; exact H|exact (λ a w H, H)|done].
    eapply triple_bind; [apply Hw; not_in|]. intros ?. apply triple_ret. intros d [_ H]. by eapply Hr.
Qed.

(** The files that hold the images when the marks are about to be written. *)
Definition imaged (m0 : files) (g : string) (x : option content) : Prop :=
  (g = "vm.state" ∨ g = "vm.mem" ∨ g = "build-vm/rootfs.ext4" → x = Some (Img b)) ∧
  (g = "vm.mem.header" → x = Some (Img b) ∨ x = Some Part ∨ x = m0 !! g ∧ (at_ MemHeader = Done → at_ WriteMemHeader = Fails)) ∧
  (g = "clone.ext4" → match at_ Clone with Done => x = Some (Img b) | Half => x = Some Part | Fails => x = m0 !! g end).
(** Before the header and the clone. *)
Definition snapped (m0 : files) (g : string) (x : option content) : Prop :=
  (g = "vm.state" ∨ g = "vm.mem" ∨ g = "build-vm/rootfs.ext4" → x = Some (Img b)) ∧
  (g = "vm.mem.header" ∨ g = "clone.ext4" → x = m0 !! g).

Definition snapped0 (m0 : files) (g : string) (x : option content) : Prop :=
  (g = "build-vm/rootfs.ext4" → x = Some (Img b)) ∧ (g = "vm.mem.header" ∨ g = "clone.ext4" → x = m0 !! g).

Lemma images_whole m m0 : careful at_ m0 → unmarked m → (∀ g, imaged m0 g (m !! g)) → of_bake b m.
Proof.
  intros [Hc Hh] (_ & Hd & Hg) HF. split.
  - right. by apply (HF "vm.state"); left.
  - right. apply (HF "vm.mem"). by right; left.
  - by left.
  - destruct (HF "vm.mem.header") as (_ & [H|[H|[H Ha]]] & _); [done|by left; right|by right|].
    destruct Hh as [Hh|[Hh1 Hh2]]; [left; left; congruence|]. by specialize (Ha Hh1).
  - by left.
  - intros _. split; [|right; apply (HF "build-vm/rootfs.ext4"); by right; right].
    destruct (HF "clone.ext4") as (_ & _ & Hk). specialize (Hk eq_refl). destruct Hc as [Hc|[Hc Hm]]; rewrite Hc in Hk; [by right|left; congruence].
Qed.

Lemma t_plain K R F s f c : (∀ m, K m → R (Some m)) → keeps K f →
  triple (holds K F) (produce at_ s f c) (λ ok, holds K (upd f (produced at_ s f c F) F)) R.
Proof. intros HR HK. eapply triple_conseq; [by apply (t_produce at_ K R)|done| |done]. by intros ok d [_ ?]. Qed.

Lemma holds_weaken (K K' : files → Prop) (F F' : string → option content → Prop) d :
  (∀ m, K m → (∀ g, F g (m !! g)) → K' m ∧ ∀ g, F' g (m !! g)) → holds K F d → holds K' F' d.
Proof. intros H (m & -> & Hm & HF). exists m. split; [done|]. by apply H. Qed.

Lemma t_mem_header m0 :
  triple (holds unmarked (snapped m0)) (write_mem_header at_ b)
    (λ _, holds unmarked (upd "vm.mem.header" (λ x, x = Some (Img b) ∨ x = Some Part ∨
        x = m0 !! "vm.mem.header" ∧ (at_ MemHeader = Done → at_ WriteMemHeader = Fails)) (snapped m0))) whole.
Proof.
  eapply triple_bind; [apply t_call|]. intros ok. destruct ok.
  - eapply triple_conseq; [|by intros d [_ H]; exact H| |done].
    + apply t_plain; [apply unmarked_whole|apply unmarked_keeps; not_in].
    + intros ok d. apply holds_weaken. intros m Hm HF. split; [done|]. intros g. specialize (HF g). unfold upd, produced in *.
      destruct (String.eqb_spec g "vm.mem.header") as [E|]; [|done]. subst g.
      destruct (at_ WriteMemHeader); [by left| |by right; left].
      right; right. split; [|done]. apply HF. by left.
  - apply triple_ret. intros d [Hs H]. revert H. apply holds_weaken. intros m Hm HF. split; [done|]. intros g. specialize (HF g). unfold upd.
    destruct (String.eqb_spec g "vm.mem.header") as [E|]; [|done]. subst g. right; right.
    split; [apply HF; by left|]. intros E. rewrite E in Hs. by rewrite bool_decide_eq_true_2 in Hs.
Qed.

Lemma t_disk_header F :
  triple (holds unmarked F) (write_disk_header at_) (λ _, holds unmarked (upd "clone.ext4.header" (λ _, True) F)) whole.
Proof.
  assert (Hw : ∀ d, holds unmarked F d → holds unmarked (upd "clone.ext4.header" (λ _, True) F) d).
  { intros d. apply holds_weaken. intros m Hm HF. split; [done|]. intros g. unfold upd. by destruct (String.eqb g "clone.ext4.header"). }
  eapply triple_bind; [apply t_call|]. intros []; [|apply triple_ret; intros d [_ ?]; by apply Hw].
  eapply triple_bind; [eapply triple_pure_step with (Q := λ d w, w = d ∧ holds unmarked F w); by intros d [_ ?]|].
  intros d. destruct (d ≫= _) as [c|]; [|apply triple_ret; intros w [_ ?]; by apply Hw].
  eapply triple_conseq; [|by intros w [_ H]; exact H| |done].
  - apply t_plain; [apply unmarked_whole|apply unmarked_keeps; not_in].
  - intros ok w. apply holds_weaken. intros m Hm HF. split; [done|]. intros g. specialize (HF g). unfold upd in *. by destruct (String.eqb g _).
Qed.

Lemma baked_ready m old :
  let s := ReadTemplateSize (e_files e) (e_template e) old in
  e_key e ≠ "" → is_Some (m !! "ready") →
  m !! "flavor" = Some (Text (if e_natid e then "natid" +:+ nl else "legacy" +:+ nl)) →
  m !! "snap-meta.json" = Some (Doc (WriteSnapManifest (mkManifest (sz_cpu s) (sz_mem s) (sz_disk s) (e_key e)))) →
  templateSnapReady e (Some m) = true.
Proof.
  intros s Hk Hr Hf Hm. pose proof (template_size_bounds (e_files e) (e_template e) old) as (Hc & Hmm & Hd). fold s in Hc, Hmm, Hd.
  unfold templateSnapReady, want, is_natid, text_of, doc_of. rewrite Hf, Hm, bool_decide_eq_true_2 by done.
  assert (Bool.eqb (e_natid e) (String.eqb (TrimSpace (if e_natid e then "natid" +:+ nl else "legacy" +:+ nl)) "natid") = true) as ->.
  { destruct (e_natid e); vm_compute; reflexivity. }
  rewrite manifest_reads_back by (cbn; lia). cbn [negb mf_cpu mf_mem mf_disk mf_key].
  rewrite bool_decide_eq_true_2.
  - rewrite String.eqb_refl. by destruct (String.eqb_spec (e_key e) "").
  - unfold s. rewrite size_is_fixed. by destruct (ReadTemplateSize (e_files e) (e_template e) old).
Qed.

Lemma is_done s : true = bool_decide (at_ s = Done) → at_ s = Done.
Proof. intros H. symmetry in H. by apply bool_decide_eq_true in H. Qed.

(** How a bake that is in order ends. *)
Definition ends (ok : bool) (d : D) : Prop := whole d ∧ (ok = true → e_key e ≠ "" → templateSnapReady e d = true).

(** The end of a bake: whole at every step, and ready when it goes through. *)
Lemma t_finish m0 old :
  careful at_ m0 →
  triple (holds unmarked (snapped m0)) (finish_bake at_ e b (ReadTemplateSize (e_files e) (e_template e) old)) ends whole.
Proof.
  intros Hcare. unfold finish_bake. set (s := ReadTemplateSize _ _ _).
  eapply triple_bind; [apply t_mem_header|]. intros ?.
  eapply triple_bind; [apply t_plain; [apply unmarked_whole|apply unmarked_keeps; not_in]|]. intros ?.
  eapply triple_bind; [apply t_disk_header|]. intros ?.
  eapply triple_bind; [apply t_plain; [apply unmarked_whole|apply unmarked_keeps; not_in]|]. intros ?.
  eapply (triple_conseq _ (holds (of_bake b) (λ _ _, True))); [| |exact (λ a w H, H)|done].
  2:{ intros d. apply holds_weaken. intros m Hm HF. split; [|done]. apply (images_whole m m0 Hcare Hm). intros g. specialize (HF g).
      unfold imaged, upd, produced, snapped in *. split_and!.
      - intros [E|[E|E]]; subst g; cbn in HF; apply HF; tauto.
      - intros E; subst g. exact HF.
      - intros E; subst g. cbn in HF. destruct (at_ Clone); [done| |done]. apply HF. by right. }
  assert (HB : ∀ m, of_bake b m → whole (Some m)) by apply of_bake_whole.
  assert (Hk : ∀ F d, holds (of_bake b) F d → whole d) by (intros F d; by apply holds_R).
  eapply triple_bind; [apply t_produce; [exact HB|apply of_bake_keeps; unfold image_files; not_in]|].
  intros [|]; [|apply triple_ret; intros d [_ ?]; split; [by eapply Hk|done]].
  apply (triple_pre _ (at_ Flavor = Done)); [by intros d [H _]; apply is_done|intros EF].
  eapply triple_bind; [apply triple_framed, t_produce; [exact HB|apply of_bake_keeps; unfold image_files; not_in]|].
  intros [|]; [|apply triple_ret; intros d [_ ?]; split; [by eapply Hk|done]].
  apply (triple_pre _ (at_ WriteManifest = Done)); [by intros d [H _]; apply is_done|intros EM].
  eapply triple_conseq; [apply triple_framed, t_produce; [exact HB|apply of_bake_keeps; unfold image_files; not_in]|exact (λ w H, H)| |done].
  intros ok d [Hok H]. split; [by eapply Hk|]. intros -> Hkey. destruct H as (m & -> & Hm & HF).
  assert (ER : at_ Ready = Done) by by apply is_done.
  unfold upd, produced in HF. rewrite EF, EM, ER in HF. apply (baked_ready m old Hkey).
  - exists (Text ""). apply (HF "ready").
  - apply (HF "flavor").
  - apply (HF "snap-meta.json").
Qed.

Lemma t_stop (P : D → Prop) : (∀ d, P d → whole d) → triple P (mret false) ends whole.
Proof. intros HP. apply triple_ret. intros d Hd. split; [by apply HP|done]. Qed.
Lemma unmarked_R F d : holds unmarked F d → whole d.
Proof. apply holds_R, unmarked_whole. Qed.
Lemma t_check F s k : triple (holds unmarked F) k ends whole → triple (holds unmarked F) (must call at_ s ;; k) ends whole.
Proof.
  intros H. eapply triple_bind; [apply t_call|]. intros []; [by apply triple_framed|].
  apply t_stop. intros d [_ ?]. by eapply unmarked_R.
Qed.
Lemma t_check_if F (c : bool) s k :
  triple (holds unmarked F) k ends whole → triple (holds unmarked F) (must (if c then call at_ s else mret true) ;; k) ends whole.
Proof. intros H. destruct c; [by apply t_check|]. exact H. Qed.
Lemma t_must F s f c k :
  f ∉ ["ready"; "rootfs.gcs"; "vm.mem.gcs"] →
  (at_ s = Done → triple (holds unmarked (upd f (λ x, x = Some c) F)) k ends whole) →
  triple (holds unmarked F) (must produce at_ s f c ;; k) ends whole.
Proof.
  intros Hf H. eapply triple_bind; [apply t_produce; [apply unmarked_whole|by apply unmarked_keeps]|].
  intros []; [|apply t_stop; intros d [_ ?]; by eapply unmarked_R].
  apply (triple_pre _ (at_ s = Done)); [by intros d [Hd _]; apply is_done|]. intros E. apply triple_framed.
  unfold produced. rewrite E. by apply H.
Qed.

(** The whole bake, over a directory with no mark and no sidecar in it. *)
Lemma t_bake d0 :
  unmarked (default ∅ d0) → careful at_ (default ∅ d0) → triple (λ d, d = d0) (bake at_ e b) ends whole.
Proof.
  intros Hu Hcare. set (m0 := default ∅ d0) in *.
  assert (Hw0 : whole d0) by (destruct d0; [by apply unmarked_whole|done]).
  unfold bake, mkdir_all.
  eapply triple_bind with (Q := λ ok d, if ok : bool then holds unmarked (λ g x, x = m0 !! g) d else whole d).
  { destruct (at_ Mkdir); [|by apply triple_ret; intros ? ->..].
    apply triple_effect; [by intros ? ->|]. intros d ->. exists m0. by split_and!. }
  intros []; [|by apply t_stop]. do 3 apply t_check. apply t_must; [not_in|]. intros _. apply t_check.
  eapply triple_bind; [apply t_remove; [apply unmarked_whole|intros m (H1 & H2 & H3); unfold unmarked; by rewrite !lookup_delete_ne]|]. intros ?.
  eapply triple_bind with (Q := λ d w, w = d ∧ holds unmarked (snapped0 m0) w).
  { apply triple_pure_step. intros w Hw. split; [done|]. revert Hw. apply holds_weaken. intros m Hm HF. split; [done|].
    intros g. specialize (HF g). unfold upd, snapped0 in *. split.
    - intros E; subst g. exact HF.
    - intros [E|E]; subst g; exact HF. }
  intros d. eapply triple_conseq; [|by intros w [_ H]; exact H|exact (λ a w H, H)|done]. cbv zeta.
  set (rest := mbind _ (if e_natid e then call at_ VsockDir else mret true)).
  assert (Hrest : triple (holds unmarked (snapped0 m0)) rest ends whole).
  { apply t_check_if. do 2 apply t_check.
    eapply triple_bind with (Q := λ ok w, holds unmarked (snapped0 m0) w).
    { destruct (e_natid e); [by apply triple_ret|]. eapply triple_conseq; [apply t_call|done|by intros ok w [_ H]|done]. }
    intros []; [|apply t_stop; by apply unmarked_R].
    eapply triple_bind; [apply t_snapshot|]. intros []; [|by apply t_stop].
    eapply triple_conseq; [apply (t_finish m0 (doc_of (default ∅ d) "snap-meta.json") Hcare)| |done|done].
    intros w. apply holds_weaken. intros m Hm HF. split; [done|]. intros g. specialize (HF g). unfold upd, snapped, snapped0 in *. split.
    - intros [E|[E|E]]; subst g; [exact HF..|]. by apply HF.
    - intros [E|E]; subst g; apply HF; tauto. }
  destruct (e_phased e); [|exact Hrest].
  apply t_must; [not_in|]. intros _. eapply triple_conseq; [exact Hrest| |done|done].
  intros w. apply holds_weaken. intros m Hm HF. split; [done|]. intros g. specialize (HF g). unfold upd, snapped0 in *. split.
  - intros E; subst g. by apply HF.
  - intros [E|E]; subst g; apply HF; tauto.
Qed.

(** What ensureTemplateSnapshot needs of the directory it finds. *)
Definition clear (d : D) : Prop :=
  templateSnapReady e d = true ∨ (unmarked (default ∅ d) ∧ careful at_ (default ∅ d)).

Lemma ready_flavor d : templateSnapReady e d = true → Bool.eqb (e_natid e) (is_natid (default ∅ d)) = true.
Proof. destruct d as [m|]; [|done]. cbn. case_bool_decide; [|done]. by destruct (Bool.eqb (e_natid e) (is_natid m)). Qed.

Lemma t_ensure d0 order : whole d0 → clear d0 → triple (λ d, d = d0) (ensureTemplateSnapshot at_ e b order) ends whole.
Proof.
  intros Hw Hc. unfold ensureTemplateSnapshot.
  assert (Hget : triple (λ d, d = d0) get_dir (λ d w, d = d0 ∧ w = d0) whole) by (apply triple_pure_step; by intros ? ->).
  assert (Hend : ∀ ok : bool, (ok = true → templateSnapReady e d0 = true) → triple (λ d, d = d0) (mret ok) ends whole).
  { intros ok H. apply triple_ret. intros ? ->. split; [done|]. intros E _. by apply H. }
  eapply triple_bind; [exact Hget|]. intros d. apply (triple_pre _ (d = d0)); [by intros ? []|]. intros ->.
  eapply triple_conseq; [|by intros w [_ H]; exact H|exact (λ a w H, H)|done].
  destruct (templateSnapReady e d0) eqn:Er.
  - rewrite (ready_flavor _ Er). exact (Hend true (λ _, eq_refl)).
  - change (triple (λ d, d = d0) (get_dir ≫= λ d, if templateSnapReady e d then mret true else bake at_ e b) ends whole).
    eapply triple_bind; [exact Hget|]. intros d. apply (triple_pre _ (d = d0)); [by intros ? []|]. intros ->.
    eapply triple_conseq; [|by intros w [_ H]; exact H|exact (λ a w H, H)|done].
    rewrite Er. destruct Hc as [Hc|[Hu Hcare]]; [congruence|]. by apply t_bake.
Qed.
End baking.

(** *** Removing it *)

Lemma whole_delete m f : ¬ thin (Some m) → whole (Some m) → whole (Some (delete f m)).
Proof.
  intros Ht [H|(b & [H1 H2 H3 H4 H5 H6])]; [left; rewrite lookup_delete_None; by right|right; exists b].
  assert (Hd : ∀ g, delete f m !! g = m !! g ∨ delete f m !! g = None).
  { intros g. destruct (decide (f = g)) as [->|]; [right; apply lookup_delete_eq|left; by rewrite lookup_delete_ne]. }
  assert (Hof : ∀ g, is_of b (m !! g) → is_of b (delete f m !! g)) by (intros g Hg; destruct (Hd g) as [->| ->]; [done|by left]).
  assert (Hr : m !! "rootfs.gcs" = None).
  { destruct (m !! "rootfs.gcs") eqn:E; [|done]. exfalso. apply Ht. exists m. split; [done|]. left. by rewrite E. }
  split; auto.
  - destruct (Hd "vm.mem.header") as [->| ->]; [done|by left; left].
  - intros _. destruct (H6 Hr). auto.
Qed.
Lemma thin_delete m f : ¬ thin (Some m) → ¬ thin (Some (delete f m)).
Proof.
  intros Ht (m' & [= <-] & H). apply Ht. exists m. split; [done|].
  destruct H as [[c H]|[c H]]; [left|right]; exists c; by apply lookup_delete_Some in H as [_ ?].
Qed.

(** Some files of it gone: still whole if it is not thin; gone altogether in any case. *)
Lemma t_RemoveAll at_ order d0 :
  whole d0 → (thin d0 → at_ Remove ≠ Half) →
  triple (λ d, d = d0) (RemoveAll at_ order) (λ ok d, whole d ∧ (ok = true → d = None)) (λ d, whole d ∨ thin d0).
Proof.
  intros Hw Ht. unfold RemoveAll.
  assert (Hdec : thin d0 ∨ ¬ thin d0).
  { destruct d0 as [m|]; [|right; by intros (? & ? & _)].
    destruct (m !! "rootfs.gcs") as [c|] eqn:E1; [left; exists m; split; [done|]; left; by rewrite E1|].
    destruct (m !! "vm.mem.gcs") as [c|] eqn:E2; [left; exists m; split; [done|]; right; by rewrite E2|].
    right. intros (m' & [= <-] & [[c H]|[c H]]); congruence. }
  destruct Hdec as [Hd|Hd].
  - eapply triple_conseq; [|by intros d H; exact H|exact (λ a w H, H)|intros d _; by right; exact Hd].
    specialize (Ht Hd). destruct (at_ Remove); [|by apply triple_ret; intros ? ->|done].
    eapply triple_bind with (Q := λ _ _, True); [apply triple_true|]. intros ?. by apply triple_effect.
  - assert (Hloop : triple (λ d, d = d0) (each remove order) (λ _ d, whole d) whole).
    { eapply triple_conseq; [apply (triple_each remove (λ _ d, whole d ∧ ¬ thin d) whole order)|by intros ? ->|by intros ? ? []|done].
      intros f l. apply triple_effect; [by intros ? []|]. intros [m|] [H1 H2]; [|done]. split; [by apply whole_delete|by apply thin_delete]. }
    eapply triple_conseq with (R' := whole); [|by intros d H; exact H|exact (λ a w H, H)|by left].
    destruct (at_ Remove).
    + eapply triple_bind; [exact Hloop|]. intros ?. by apply triple_effect.
    + by apply triple_ret; intros ? ->.
    + eapply triple_bind; [exact Hloop|]. intros ?. by apply triple_ret.
Qed.

(** *** Installing a seed *)

(** What is published under a generation is of one bake. *)
Definition tar_of (b : nat) (t : files) : Prop :=
  is_of b (t !! "vm.state") ∧ (is_of b (t !! "vm.mem.header") ∨ t !! "vm.mem.header" = Some Part) ∧
  ∀ f, f ∈ ["vm.mem"; "vm.mem.gcs"; "rootfs.gcs"; "clone.ext4"; "build-vm/rootfs.ext4"] → t !! f = None.
Definition seed_of (b : nat) (s : seed) : Prop :=
  (∀ t, o_tar s = Some t → tar_of b t) ∧ is_of b (o_mem s) ∧ is_of b (o_clone s).
Definition seeds_whole (w : world) : Prop := ∀ g s, bucket w !! g = Some s → ∃ b, seed_of b s.

Section staging.
Context (sha : files → string) (at_ : site → outcome).

Definition anything : files → Prop := λ _, True.
Lemma t_step F s f c k Q :
  (∀ d, Q false d) →
  (at_ s = Done → triple (holds anything (upd f (λ x, x = Some c) F)) k Q (λ _, True)) →
  triple (holds anything F) (must produce at_ s f c ;; k) Q (λ _, True).
Proof.
  intros HQ H. eapply triple_bind; [by apply t_produce|].
  intros []; [|by apply triple_ret; intros].
  apply (triple_pre _ (at_ s = Done)); [by intros d [Hd _]; apply is_done|]. intros E.
  eapply triple_conseq; [by apply H| |done|done]. intros d [_ Hd]. unfold produced in Hd. by rewrite E in Hd.
Qed.

Ltac not_there := repeat match goal with H : _ ∈ _ :: _ |- _ => apply elem_of_cons in H as [H|H]; [done|] | H : _ ∈ [] |- _ => by apply not_elem_of_nil in H end; done.

(** What is staged so far, of the files a restore takes. *)
Definition staged (b : nat) (g : string) (x : option content) : Prop :=
  (g = "vm.state" → is_of b x) ∧ (g = "vm.mem.header" → is_of b x ∨ x = Some Part) ∧
  (g ∈ ["vm.mem"; "vm.mem.gcs"; "rootfs.gcs"; "clone.ext4"; "build-vm/rootfs.ext4"] → x = None).
Definition with_mem (b : nat) (g : string) (x : option content) : Prop :=
  (g = "vm.state" → is_of b x) ∧ (g = "vm.mem.header" → is_of b x ∨ x = Some Part) ∧
  (g ∈ ["vm.mem"; "vm.mem.gcs"] → is_of b x) ∧
  (g ∈ ["rootfs.gcs"; "clone.ext4"; "build-vm/rootfs.ext4"] → x = None).

(** With the disk: a sidecar, or the clone itself. *)
Definition with_disk (sidecar : bool) (b : nat) (g : string) (x : option content) : Prop :=
  (g = "vm.state" → is_of b x) ∧ (g = "vm.mem.header" → is_of b x ∨ x = Some Part) ∧
  (g ∈ ["vm.mem"; "vm.mem.gcs"] → is_of b x) ∧
  (g = "rootfs.gcs" → if sidecar then x = Some (Img b) else x = None) ∧
  (sidecar = false → g = "clone.ext4" → x = Some (Img b)) ∧
  (sidecar = false → g = "build-vm/rootfs.ext4" → is_of b x).
Definition complete (b : nat) (d : D) : Prop := ∃ m, d = Some m ∧ of_bake b m.

Lemma with_disk_complete sidecar b d : holds anything (with_disk sidecar b) d → complete b d.
Proof.
  intros (m & -> & _ & HF). exists m. split; [done|].
  pose proof (HF "vm.state") as (H1 & _). pose proof (HF "vm.mem.header") as (_ & H2 & _).
  pose proof (HF "vm.mem") as (_ & _ & H3 & _). pose proof (HF "vm.mem.gcs") as (_ & _ & H4 & _).
  pose proof (HF "rootfs.gcs") as (_ & _ & _ & H5 & _). pose proof (HF "clone.ext4") as (_ & _ & _ & _ & H6 & _).
  pose proof (HF "build-vm/rootfs.ext4") as (_ & _ & _ & _ & _ & H7). specialize (H5 eq_refl).
  split; auto.
  - apply H3. by left.
  - apply H4. by right; left.
  - destruct sidecar; [by right|by left].
  - intros E. destruct sidecar; [congruence|]. split; [right; auto|auto].
Qed.

Lemma upd_weaken (F F' : string → option content → Prop) f c (m : files) :
  (∀ g x, g ≠ f → F g x → F' g x) → F' f (Some c) →
  (∀ g, upd f (λ x, x = Some c) F g (m !! g)) → ∀ g, F' g (m !! g).
Proof.
  intros H1 H2 HF g. specialize (HF g). unfold upd in HF. destruct (String.eqb_spec g f) as [E|]; [subst g; by rewrite HF|auto].
Qed.

(** The build VM's disk, the placeholder, the generation. *)
Lemma t_link (phased : bool) (gen : string) sidecar b :
  triple (holds anything (with_disk sidecar b))
    (must call at_ MkdirBuild ;;
     d ← get_dir;
     must (match at_ Link, d ≫= (λ x, x !! "clone.ext4") with
           | Done, Some c => write "build-vm/rootfs.ext4" c
           | _, _ => mret false
           end) ;;
     must (if phased then produce at_ Placeholder "build-vm/data-placeholder.img" Zeros else mret true) ;;
     produce at_ WriteGen ".seedgen" (Text gen))
    (λ ok d, ok = true → complete b d) (λ _, True).
Proof.
  assert (Hkeep : ∀ F f c, f ∉ image_files → (∀ g x, F g x → with_disk sidecar b g x) →
    ∀ m : files, (∀ g, upd f (λ x, x = Some c) F g (m !! g)) → ∀ g, with_disk sidecar b g (m !! g)).
  { intros F f c Hf HF m. apply upd_weaken; [auto|]. unfold image_files in Hf. rewrite !not_elem_of_cons in Hf. destruct_and! Hf.
    unfold with_disk. split_and!; intros; subst; try done. not_there. }
  eapply triple_bind; [apply t_call|]. intros []; [|by apply triple_ret].
  eapply triple_bind with (Q := λ d w, w = d ∧ holds anything (with_disk sidecar b) w); [by apply triple_pure_step; intros w [_ ?]|].
  intros d. eapply triple_bind with (Q := λ ok w, ok = true → holds anything (with_disk sidecar b) w).
  { destruct (at_ Link); [|by apply triple_ret..]. destruct (d ≫= _) as [c|] eqn:Ec; [|by apply triple_ret].
    eapply triple_conseq with (P' := holds anything (λ g x, with_disk sidecar b g x ∧ (sidecar = false → c = Img b))) (R' := λ _, True);
      [by apply t_write| | |done].
    - intros w [-> (m & -> & _ & HF)]. exists m. split_and!; try done. intros g. split; [apply HF|]. intros Hs.
      cbn in Ec. destruct (HF "clone.ext4") as (_ & _ & _ & _ & H & _). specialize (H Hs eq_refl). congruence.
    - intros ok w [_ Hw] _. revert Hw. apply holds_weaken. intros m _ HF. split; [done|].
      assert (Hc : sidecar = false → c = Img b) by (destruct (HF "vm.state") as [_ H]; exact H).
      revert HF. apply upd_weaken; [by intros g x _ []|]. unfold with_disk. split_and!; intros; try done.
      + not_there.
      + right. by rewrite Hc. }
  intros []; [|by apply triple_ret].
  eapply triple_conseq with (P' := holds anything (with_disk sidecar b)) (R' := λ _, True); [|intros w H; by apply H|exact (λ a w H, H)|done].
  eapply triple_bind with (Q := λ ok w, ok = true → holds anything (with_disk sidecar b) w).
  { destruct phased; [|by apply triple_ret].
    eapply triple_conseq with (P' := holds anything (with_disk sidecar b)) (R' := λ _, True); [by apply t_plain|exact (λ w H, H)| |done]. intros ok w Hw _. revert Hw. apply holds_weaken. intros m _ HF. split; [done|].
    unfold produced in HF. revert HF. destruct (at_ Placeholder).
    - apply Hkeep; [unfold image_files; not_in|done].
    - intros HF g. specialize (HF g). unfold upd in HF. by destruct (String.eqb_spec g "build-vm/data-placeholder.img") as [E|]; [subst g|].
    - apply Hkeep; [unfold image_files; not_in|done]. }
  intros []; [|by apply triple_ret].
  eapply triple_conseq with (P' := holds anything (with_disk sidecar b)) (R' := λ _, True); [|intros w H; by apply H|exact (λ a w H, H)|done].
  eapply triple_conseq with (P' := holds anything (with_disk sidecar b)) (R' := λ _, True); [by apply t_plain|exact (λ w H, H)| |done]. intros ok w Hw _. apply (with_disk_complete sidecar). revert Hw.
  apply holds_weaken. intros m _ HF. split; [done|]. unfold produced in HF. revert HF. destruct (at_ WriteGen).
  - apply Hkeep; [unfold image_files; not_in|done].
  - intros HF g. specialize (HF g). unfold upd in HF. by destruct (String.eqb_spec g ".seedgen") as [E|]; [subst g|].
  - apply Hkeep; [unfold image_files; not_in|done].
Qed.

Lemma is_of_some b c : is_of b (Some c) → c = Img b.
Proof. intros [H|H]; congruence. Qed.

Lemma t_stage_mem (c : bool) x b :
  is_of b x →
  triple (holds anything (staged b))
    (if c then match x with Some c => produce at_ MemRef "vm.mem.gcs" c | None => mret false end
     else match x with Some c => produce at_ DownloadMem "vm.mem" c | None => mret false end)
    (λ ok d, ok = true → holds anything (with_mem b) d) (λ _, True).
Proof.
  intros Hx. assert (Hm : ∀ s f y, f ∈ ["vm.mem"; "vm.mem.gcs"] → y = Img b →
      triple (holds anything (staged b)) (produce at_ s f y) (λ ok d, ok = true → holds anything (with_mem b) d) (λ _, True)).
  { intros s f y Hf ->. eapply triple_conseq; [by apply (t_produce at_ anything (λ _, True))|exact (λ w H, H)| |done].
    intros ok d [-> Hd] Hok. apply bool_decide_eq_true in Hok. unfold produced in Hd. rewrite Hok in Hd. revert Hd. apply holds_weaken.
    intros z _ HF. split; [done|]. revert HF. apply upd_weaken.
    - intros g y Hg (S1 & S2 & S3). split_and!; [done..| |]; intros Hin; [left|]; apply S3; rewrite !elem_of_cons in *; tauto.
    - split_and!; [by right|by left; right|by right|]. intros Hin. exfalso. revert Hf Hin. clear. intros Hf Hin.
      repeat (apply elem_of_cons in Hf as [->|Hf]; [not_there|]). not_there. }
  destruct c, x; try (by apply triple_ret); apply Hm; rewrite ?elem_of_cons; auto using is_of_some.
Qed.

Lemma t_stage_disk (c : bool) x b Q k :
  is_of b x → (∀ d, Q false d) →
  (∀ sidecar, triple (holds anything (with_disk sidecar b)) k Q (λ _, True)) →
  triple (holds anything (with_mem b))
    (must (if c then match x with
                     | Some c => must produce at_ DiskRef "rootfs.gcs" c ;; produce at_ Sparse "clone.ext4" Zeros
                     | None => mret false
                     end
           else match x with Some c => produce at_ DownloadClone "clone.ext4" c | None => mret false end) ;; k)
    Q (λ _, True).
Proof.
  intros Hx HQ Hk.
  assert (Hdisk : ∀ sidecar F f y, (∀ m : files, (∀ g, upd f (λ x, x = Some y) F g (m !! g)) → ∀ g, with_disk sidecar b g (m !! g)) →
    ∀ s, triple (holds anything F) (must produce at_ s f y ;; k) Q (λ _, True)).
  { intros sidecar F f y HF s. apply t_step; [done|]. intros _. eapply triple_conseq; [apply (Hk sidecar)| |done|done].
    intros d. apply holds_weaken. intros m _ H. split; [done|]. by apply HF. }
  destruct x as [y|]; [|by destruct c; (eapply triple_bind; [by apply (triple_ret _ _ (λ ok _, ok = false))|]; intros ok;
    apply (triple_pre _ (ok = false)); [done|intros ->]; by apply triple_ret)].
  apply is_of_some in Hx as ->. destruct c.
  - apply must_assoc, t_step; [done|]. intros _. apply (Hdisk true).
    intros m HF g. specialize (HF g). unfold upd, with_mem, with_disk in *.
    destruct (String.eqb_spec g "clone.ext4") as [E|]; [subst g; split_and!; intros; try done; not_there|].
    destruct (String.eqb_spec g "rootfs.gcs") as [E|]; [subst g; split_and!; intros; try done; not_there|].
    destruct HF as (H1 & H2 & H3 & H4). split_and!; try done.
  - apply (Hdisk false). intros m HF g. specialize (HF g). unfold upd, with_mem, with_disk in *.
    destruct (String.eqb_spec g "clone.ext4") as [E|]; [subst g; split_and!; intros; try done; not_there|].
    destruct HF as (H1 & H2 & H3 & H4). split_and!; try done.
    + intros E. apply H4. rewrite E, !elem_of_cons. auto.
    + intros _ E. left. apply H4. rewrite E, !elem_of_cons. auto.
Qed.

Lemma t_stage e m s b streamMem streamDisk :
  seed_of b s →
  triple (λ d, d = None) (stage sha at_ e m s streamMem streamDisk) (λ ok d, ok = true → complete b d) (λ _, True).
Proof.
  intros (Htar & Hmem & Hclone). unfold stage, mkdir_all.
  assert (Hstop : ∀ P : D → Prop, triple P (mret false) (λ ok d, ok = true → complete b d) (λ _, True)) by (intros P; by apply triple_ret).
  eapply triple_bind with (Q := λ ok d, ok = true → holds anything (λ _ x, x = None) d).
  { destruct (at_ Staging); [|by apply triple_ret..]. apply triple_effect; [done|]. intros d -> _. exists ∅. by split_and!. }
  intros []; [|done]. eapply triple_conseq with (P' := holds anything (λ _ x, x = None)) (R' := λ _, True); [|intros w H; by apply H|exact (λ a w H, H)|done].
  apply t_step; [done|]. intros _. destruct (o_tar s) as [tar|] eqn:Et; [|done]. destruct (negb _); [done|].
  destruct (Htar tar eq_refl) as (T1 & T2 & T3).
  eapply triple_bind with (Q := λ ok d, ok = true → holds anything (λ g x, g ≠ "seed.tar.gz" → x = tar !! g) d).
  { destruct (at_ Extract); [|by apply triple_ret..]. apply triple_effect; [done|]. intros d (x & -> & _ & HF) _. cbn.
    exists (tar ∪ x). split_and!; try done. intros g Hg. specialize (HF g). unfold upd in HF. destruct (String.eqb_spec g "seed.tar.gz"); [done|].
    destruct (tar !! g) eqn:E; [by apply lookup_union_Some_l|by rewrite lookup_union_None]. }
  intros []; [|done]. eapply triple_conseq with (P' := holds anything (λ g x, g ≠ "seed.tar.gz" → x = tar !! g)) (R' := λ _, True); [|intros w H; by apply H|exact (λ a w H, H)|done].
  eapply triple_bind; [by apply (t_remove anything (λ _, True))|]. intros ?.
  eapply triple_conseq with (P' := holds anything (staged b)) (R' := λ _, True); [| |exact (λ a w H, H)|done].
  2:{ intros d. apply holds_weaken. intros x _ HF. split; [done|]. intros g. specialize (HF g). unfold upd, staged in *.
      destruct (String.eqb_spec g "seed.tar.gz") as [E|Hg]; [subst g; split_and!; intros; [done|done|not_there]|]. specialize (HF Hg).
      rewrite HF. split_and!; [by intros ->|by intros ->|apply T3]. }
  cbv zeta. eapply triple_bind; [by apply (t_stage_mem _ _ b)|].
  intros []; [|done]. eapply triple_conseq with (P' := holds anything (with_mem b)) (R' := λ _, True); [|intros w H; by apply H|exact (λ a w H, H)|done].
  apply t_stage_disk; [done|done|]. intros sidecar. apply t_link.
Qed.
End staging.

(** ** Agents, the bucket, and time *)

Section fleet.
Context (sha : files → string) (bytes : content → Z).

Definition sound (w : world) : Prop := whole (snap w) ∧ seeds_whole w.

(** What is uploaded is of the bake the directory is of. *)
Lemma tarball_of b d : of_bake b d → tar_of b (tarball d).
Proof.
  intros [H1 H2 H3 H4 H5 H6].
  assert (Hl : ∀ f, tarball d !! f = if bool_decide (f ∈ essentialFiles ++ optionalFiles) then d !! f else None).
  { intros f. unfold tarball. rewrite map_lookup_filter. destruct (d !! f) as [c|]; [|by case_bool_decide]. cbn.
    case_guard; case_bool_decide; done. }
  unfold tar_of. rewrite !Hl. split_and!; [done|done|]. intros f Hf. rewrite Hl. revert Hf. rewrite !elem_of_cons.
  intros [->|[->|[->|[->|[->|?%not_elem_of_nil]]]]]; done.
Qed.

Lemma t_Upload fcv gen at_ e size gb g b d0 :
  of_bake b d0 → d0 !! "rootfs.gcs" = None →
  triple (λ w, snap w = Some d0 ∧ seeds_whole w ∧ bucket w !! g = None) (Upload sha bytes fcv gen at_ e size gb g)
    (λ _ w, snap w = Some d0 ∧ seeds_whole w) (λ w, snap w = Some d0 ∧ seeds_whole w).
Proof.
  intros Hb Hr. pose (I := λ w, snap w = Some d0 ∧ seeds_whole w ∧ ∀ s, bucket w !! g = Some s → seed_of b s).
  assert (HI : ∀ w, I w → snap w = Some d0 ∧ seeds_whole w) by by intros w (? & ? & _).
  eapply triple_conseq with (P' := I) (R' := λ w, snap w = Some d0 ∧ seeds_whole w); [|intros w (? & ? & E); split_and!; try done; congruence|exact (λ a w H, H)|done].
  unfold Upload. eapply triple_bind with (Q := λ d w, d = d0 ∧ I w).
  { apply triple_pure_step. intros w HI'. split; [|done]. by destruct HI' as [-> _]. }
  intros d. apply (triple_pre _ (d = d0)); [by intros ? []|]. intros ->.
  eapply triple_conseq with (P' := I) (R' := λ w, snap w = Some d0 ∧ seeds_whole w); [|by intros w [_ ?]|exact (λ a w H, H)|done].
  assert (Hstop : triple I (mret false) (λ _ w, snap w = Some d0 ∧ seeds_whole w) (λ w, snap w = Some d0 ∧ seeds_whole w)) by by apply triple_ret.
  destruct (negb _); [done|]. destruct (d0 !! "vm.mem") as [mem|] eqn:Em; [|done]. destruct (d0 !! "clone.ext4") as [clone|] eqn:Ec; [|done].
  destruct (negb _); [done|]. cbv zeta.
  assert (Hcopy : ∀ s f k, (∀ o, seed_of b o → seed_of b (f o)) →
    triple I k (λ _ w, snap w = Some d0 ∧ seeds_whole w) (λ w, snap w = Some d0 ∧ seeds_whole w) →
    triple I (must copy at_ s g f ;; k) (λ _ w, snap w = Some d0 ∧ seeds_whole w) (λ w, snap w = Some d0 ∧ seeds_whole w)).
  { intros s f k Hf Hk. eapply triple_bind with (Q := λ _, I); [|by intros []].
    unfold copy. destruct (at_ s); [|by apply triple_ret..]. apply triple_effect; [done|]. intros w (H1 & H2 & H3). cbn.
    assert (Ho : seed_of b (f (default (mkObjects None None None None) (bucket w !! g)))).
    { apply Hf. destruct (bucket w !! g) as [o|] eqn:E; [by apply H3|]. split_and!; [done|by left|by left]. }
    split_and!; [done| |].
    - intros g' o. cbn. destruct (decide (g' = g)) as [->|Hg]; [rewrite lookup_insert_eq; intros [= <-]; by exists b|].
      rewrite lookup_insert_ne by done. apply H2.
    - intros o. cbn. rewrite lookup_insert_eq. by intros [= <-]. }
  apply Hcopy; [intros o (_ & ? & ?); split_and!; try done; intros t [= <-]; by apply tarball_of|].
  apply Hcopy; [intros o (? & _ & ?); split_and!; try done; cbn; rewrite <- Em; by destruct Hb|].
  apply Hcopy; [intros o (? & ? & _); split_and!; try done; cbn; rewrite <- Ec; by apply (ob_disk b d0 Hb)|].
  apply Hcopy; [by intros o (? & ? & ?)|].
  destruct (at_ CopyCurrent); [|done..]. apply triple_effect; [done|]. by intros w (? & ? & _).
Qed.

Lemma t_sync fcv gen at_ e streamMem streamDisk order w0 :
  sound w0 → (thin (snap w0) → at_ Remove ≠ Half) → at_ CleanStaging = Done →
  triple (λ w, w = w0) (syncOne sha fcv gen at_ e streamMem streamDisk order) (λ _ w, sound w) (λ w, sound w ∨ thin (snap w0)).
Proof.
  intros Hw0 Ht Hclean. pose (same := λ w, snap w = snap w0 ∧ bucket w = bucket w0).
  assert (Hsame : ∀ w, same w → sound w) by (intros w [H1 H2]; destruct Hw0 as [W1 W2]; split; [by rewrite H1|intros g s; rewrite H2; apply W2]).
  assert (Hstop : ∀ ok : bool, triple (λ w, w = w0) (mret ok) (λ _ w, sound w) (λ w, sound w ∨ thin (snap w0))) by (intros ok; by apply triple_ret; intros ? ->).
  unfold syncOne.
  eapply triple_bind with (Q := λ mw w, mw = currentManifest w0 ∧ w = w0); [by apply triple_pure_step; intros ? ->|].
  intros mw. apply (triple_pre _ (mw = currentManifest w0)); [by intros ? []|]. intros ->.
  eapply triple_conseq with (P' := λ w, w = w0) (R' := λ w, sound w ∨ thin (snap w0)); [|by intros ? []|exact (λ a w H, H)|done].
  destruct (currentManifest w0) as [[m s]|] eqn:Em; [|apply Hstop].
  assert (Hb : ∃ b, seed_of b s).
  { unfold currentManifest in Em. destruct (current w0) as [g|]; [|done]. cbn [mbind option_bind] in Em.
    destruct (bucket w0 !! g) as [s'|] eqn:Eg; [|done]. cbn [mbind option_bind] in Em. destruct (o_man s'); [|done]. injection Em as _ <-. by apply (proj2 Hw0 g). }
  destruct Hb as [b Hb]. destruct (negb _); [apply Hstop|].
  eapply triple_bind with (Q := λ d w, w = w0); [by apply triple_pure_step; intros ? ->|]. intros d.
  destruct (match d !! ".seedgen" with Some _ => _ | None => _ end); [apply Hstop|]. rewrite Hclean.
  eapply triple_bind with (Q := λ _ w, same w ∧ incoming w = None); [apply triple_effect; [intros ? ->; by left|by intros ? ->]|]. intros ?.
  eapply triple_bind with (Q := λ _ w, sound w); [|intros ok; apply triple_effect; [by left|by intros w [? ?]]].
  eapply triple_bind with (Q := λ ok w, same w ∧ (ok = true → complete b (incoming w))).
  { eapply triple_zoom; [by apply (t_stage sha at_ e m s b)|by intros w []|by intros ? ? ? [] ?|by intros ? ? [] _; left; apply Hsame]. }
  intros []; [|apply triple_ret; intros w [? _]; by apply Hsame].
  eapply triple_bind with (Q := λ ok w, bucket w = bucket w0 ∧ whole (snap w) ∧ complete b (incoming w)).
  { eapply triple_conseq with (P' := λ w, same w ∧ complete b (incoming w)) (R' := λ w, sound w ∨ thin (snap w0)); [|by intros w [? H]; split; [|apply H]|exact (λ a w H, H)|done].
    eapply triple_zoom; [apply (t_RemoveAll at_ order (snap w0) (proj1 Hw0) Ht)|by intros ? [[] _]|by intros ? ? ? [[] ?] []|].
    intros w v [[_ Hbk] _] [Hv|Hv]; [left|by right]. split; [done|]. intros g s'. cbn. rewrite Hbk. apply (proj2 Hw0). }
  intros ok. apply triple_effect.
  - intros w (Hbk & Hv & _). left. split; [done|]. intros g s'. rewrite Hbk. apply (proj2 Hw0).
  - intros w (Hbk & Hv & d' & Hd & Hof). assert (Hs : ∀ x, whole x → sound (set_incoming None (set_snap x w))).
    { intros x Hx. split; [done|]. intros g s'. cbn. rewrite Hbk. apply (proj2 Hw0). }
    assert (Hi : whole (incoming w)) by (rewrite Hd; by apply (of_bake_whole b)).
    destruct (snap w) as [x|] eqn:Ex; [|by apply Hs]. destruct (bool_decide _); [by apply Hs|]. split; [by cbn [fst snd]; rewrite ?Ex|].
    intros g s'. cbn. rewrite Hbk. apply (proj2 Hw0).
Qed.

(** What happens to one template on one agent, and to its published seed: a
    bake, an upload, the upload of another agent, an installation, the removal of
    the directory by a rebuild or a deletion.  Each is killed after [n] writes. *)
Inductive event :=
  | EBake (e : env) (b : nat) (at_ : site → outcome) (order : list string) (n : nat)
  | EUpload (fcv gen : string) (at_ : site → outcome) (e : env) (size : TemplateSize) (gb : Z) (g : string) (n : nat)
  | EPublished (g : string) (s : seed)
  | ESync (fcv gen : string) (at_ : site → outcome) (e : env) (streamMem streamDisk : bool) (order : list string) (n : nat)
  | ERemove (at_ : site → outcome) (order : list string) (n : nat).

Definition step (ev : event) (w : world) : world :=
  match ev with
  | EBake e b at_ order n => set_snap (ensureTemplateSnapshot at_ e b order n (snap w)).2 w
  | EUpload fcv gen at_ e size gb g n => (Upload sha bytes fcv gen at_ e size gb g n w).2
  | EPublished g s => set_current (Some g) (set_bucket (<[g := s]> (bucket w)) w)
  | ESync fcv gen at_ e streamMem streamDisk order n => (syncOne sha fcv gen at_ e streamMem streamDisk order n w).2
  | ERemove at_ order n => set_snap (RemoveAll at_ order n (snap w)).2 w
  end.

(** Where nothing of an earlier bake can be taken for part of a later one: a
    bake finds no ready mark of another configuration, no sidecar, and, where its
    own clone or header fails, no older one, and its clone does not fail half
    way; an upload is not of a streaming seed and has a generation of its own,
    and what others publish is of one bake; the staging directory is emptied;
    and the removal of a streaming seed is not cut short.  What happens
    otherwise is at the end of this file. *)
Definition orderly (ev : event) (w : world) : Prop :=
  match ev with
  | EBake e b at_ order n => clear at_ e (snap w)
  | EUpload fcv gen at_ e size gb g n => default ∅ (snap w) !! "rootfs.gcs" = None ∧ bucket w !! g = None
  | EPublished g s => ∃ b, seed_of b s
  | ESync fcv gen at_ e streamMem streamDisk order n =>
      at_ CleanStaging = Done ∧
      (thin (snap w) → at_ Remove ≠ Half ∧ is_Some (syncOne sha fcv gen at_ e streamMem streamDisk order n w).1)
  | ERemove at_ order n => thin (snap w) → at_ Remove ≠ Half ∧ is_Some (RemoveAll at_ order n (snap w)).1
  end.

Fixpoint run (es : list event) (w : world) : world := match es with [] => w | ev :: es => run es (step ev w) end.
Fixpoint orderly_run (es : list event) (w : world) : Prop :=
  match es with [] => True | ev :: es => orderly ev w ∧ orderly_run es (step ev w) end.

(** A directory without its marks is not uploaded. *)
Lemma unready_upload fcv gen at_ e size gb g n w :
  default ∅ (snap w) !! "ready" = None → (Upload sha bytes fcv gen at_ e size gb g n w).2 = w.
Proof.
  intros Hr. unfold Upload, mbind, C_bind, pure_step. rewrite bool_decide_false; [done|].
  intros H. rewrite Forall_forall in H. destruct (H "ready") as [c Hc]; [unfold essentialFiles; rewrite !elem_of_cons; auto 10|congruence].
Qed.

Lemma step_sound ev w : orderly ev w → sound w → sound (step ev w).
Proof.
  intros Ho Hw. pose proof Hw as [W1 W2].
  destruct ev as [e b at_ order n|fcv gen at_ e size gb g n|g s|fcv gen at_ e sm sd order n|at_ order n]; cbn [orderly step] in *.
  - split; [|done].
    destruct (triple_run _ _ _ _ n (snap w) (t_ensure at_ e b (snap w) order W1 Ho) eq_refl) as [(? & ? & _ & [H _])|[_ H]]; exact H.
  - destruct Ho as [Hk Hg].
    destruct (default ∅ (snap w) !! "ready") eqn:Er; [|by rewrite unready_upload].
    destruct (snap w) as [d|] eqn:Hd; [|done]. cbn in Hk, Er. destruct W1 as [W1|[b W1]]; [congruence|].
    assert (H : snap (Upload sha bytes fcv gen at_ e size gb g n w).2 = Some d ∧ seeds_whole (Upload sha bytes fcv gen at_ e size gb g n w).2).
    { destruct (triple_run _ _ _ _ n w (t_Upload fcv gen at_ e size gb g b d W1 Hk)) as [(? & ? & _ & H)|[_ H]]; done. }
    destruct H as [H1 H2]. split; [rewrite H1; by apply (of_bake_whole b)|done].
  - destruct Ho as [b Hs]. split; [done|]. intros g' s'. cbn.
    destruct (decide (g' = g)) as [->|]; [rewrite lookup_insert_eq; intros [= <-]; by exists b|rewrite lookup_insert_ne by done; apply W2].
  - destruct Ho as [Hcl Ht].
    destruct (triple_run _ _ _ _ n w (t_sync fcv gen at_ e sm sd order w Hw (λ H, proj1 (Ht H)) Hcl) eq_refl) as [(? & ? & _ & H)|[E [H|H]]]; try done.
    destruct (Ht H) as [_ [? ?]]. congruence.
  - split; [|done].
    destruct (triple_run _ _ _ _ n (snap w) (t_RemoveAll at_ order (snap w) W1 (λ H, proj1 (Ho H))) eq_refl) as [(? & ? & _ & H & _)|[E [H|H]]]; try done.
    destruct (Ho H) as [_ [? ?]]. congruence.
Qed.

Lemma orderly_sound es w : orderly_run es w → sound w → sound (run es w).
Proof. revert w. induction es as [|ev es IH]; intros w; [done|]. intros [H1 H2] Hw. cbn. auto using step_sound. Qed.

(** C36. Where nothing of an earlier bake is left to be mixed in, no torn snapshot
    is restored.  Let bakes, uploads, installations of published seeds and
    removals happen to a template on an agent, one after the other, killed at
    any write, with calls that fail.  A directory that any configuration finds ready says in its
    manifest the size and the key that are asked for; and if the run was orderly
    (see [orderly]: above all, no bake over the marks of another configuration or
    over a streaming seed's sidecar, no clone that fails half way or over an older
    one, no header that fails over an older one, no removal of a streaming seed
    cut short), what a restore takes from it (state, disk, memory and its header,
    from files or from the objects of a streaming seed) is all of one bake. *)
Theorem restores_are_of_one_bake es w e d uffd l :
  snap w = None → bucket w = ∅ →
  snap (run es w) = Some d → templateSnapReady e (Some d) = true → restored uffd d = Some l →
  (orderly_run es w → ∃ b, Forall (λ c, c = Img b) l) ∧
  ∃ m, ReadSnapManifest (doc_of d "snap-meta.json") = Some m ∧ mf_key m = e_key e ∧ mkSize (mf_cpu m) (mf_mem m) (mf_disk m) = want e d.
Proof.
  intros Hs Hb Hd Hr Hl. split.
  - intros Ho. assert (Hw : sound w) by (split; [by rewrite Hs|intros g s; by rewrite Hb]). apply (orderly_sound es _ Ho) in Hw as [Hw _].
    rewrite Hd in Hw. destruct Hw as [Hw|[b Hw]]; [apply ready_has in Hr as [? ?]; congruence|]. exists b. by eapply restored_of_bake.
  - revert Hr. unfold templateSnapReady. case_bool_decide; [|done]. cbn [negb]. destruct (negb (Bool.eqb _ _)); [done|].
    destruct (ReadSnapManifest _) as [m|]; [|case_bool_decide; cbn; done].
    case_bool_decide as Esz; [|done]. cbn. intros [_ Ek]%andb_prop. exists m. split_and!; [done| |done].
    by apply String.eqb_eq in Ek.
Qed.
End fleet.

(** *** On concrete directories *)

Abbreviation all_done := (λ _ : site, Done).
Abbreviation an_agent := (mkEnv (λ _, NoMeta) "base" true "fp" false).
Abbreviation sized k d := (mkEnv (λ _, Meta (mkBody (Some (JObj [("disk_gb", JNum d Plain)])) false)) "base" true k false).
Abbreviation no_world := (mkWorld None None ∅ None).
Abbreviation bake_to e at_ b n d := ((ensureTemplateSnapshot at_ e b [] n d).2).
Abbreviation two_bakes := [EBake an_agent 1%nat all_done [] 12%nat; EBake an_agent 2%nat all_done [] 60%nat].
Abbreviation baked_world := (run (λ _, "") (λ _, 0) two_bakes no_world).

Lemma restores_are_of_one_bake_witness :
  ∃ d l, snap baked_world = Some d ∧ templateSnapReady an_agent (Some d) = true ∧ restored true d = Some l ∧
    l = [Img 2; Img 2; Img 2; Img 2] ∧ ∃ b, Forall (λ c, c = Img b) l.
Proof.
  assert (Hrun : ∃ d, snap baked_world = Some d ∧ templateSnapReady an_agent (Some d) = true ∧ restored true d = Some [Img 2; Img 2; Img 2; Img 2]).
  { assert (Hr : templateSnapReady an_agent (snap baked_world) = true ∧ (restored true <$> snap baked_world) = Some (Some [Img 2; Img 2; Img 2; Img 2]))
      by (split; vm_compute; reflexivity).
    destruct Hr as [Hr Hl]. destruct (snap baked_world) as [d|]; [|done]. exists d. split_and!; [done|done|]. by injection Hl. }
  destruct Hrun as (d & Hd & Hr & Hl). exists d, [Img 2; Img 2; Img 2; Img 2]. split_and!; try done.
  destruct (restores_are_of_one_bake (λ _, "") (λ _, 0) two_bakes no_world an_agent d true [Img 2; Img 2; Img 2; Img 2] eq_refl eq_refl Hd Hr Hl) as [H _].
  apply H. split; [|split; [|exact I]].
  - right. split; [by split_and!|]. split; [by left|left; apply lookup_empty].
  - right. split; [by split_and!; vm_compute|]. split; [by left|right; by split].
Defined.

(** ** Where snapshots are torn *)

Abbreviation nearly_baked := (bake_to an_agent all_done 1%nat 16%nat None).

(** The copy to clone.ext4 "falls back to full copy on restore" when it fails;
    but the restore takes the file that is there: what an earlier bake left, or
    the part that was copied. *)
Lemma failed_clone_serves_another_disk :
  (let d := bake_to an_agent (λ s, match s with Clone => Fails | _ => Done end) 2%nat 60%nat nearly_baked in
  templateSnapReady an_agent d = true ∧ restored false (default ∅ d) = Some [Img 2; Img 1; Img 2]) ∧
  (let d := bake_to an_agent (λ s, match s with Clone => Half | _ => Done end) 2%nat 60%nat None in
  templateSnapReady an_agent d = true ∧ restored false (default ∅ d) = Some [Img 2; Part; Img 2]).
Proof. cbv zeta. split_and!; vm_compute; reflexivity. Qed.

(** So with the header of the memory: "streaming disabled for this bake", and
    streamed with the header of an earlier one. *)
Lemma failed_header_serves_another_index :
  let d := bake_to an_agent (λ s, match s with MemHeader => Fails | _ => Done end) 2%nat 60%nat nearly_baked in
  templateSnapReady an_agent d = true ∧ restored true (default ∅ d) = Some [Img 2; Img 2; Img 2; Img 1].
Proof. cbv zeta. split_and!; vm_compute; reflexivity. Qed.

(** A bake in the place of a streaming seed leaves its sidecar: the disk is the
    seed's, under the memory of the bake. *)
Abbreviation a_thin_seed := (<["rootfs.gcs" := Img 1]> (<["clone.ext4" := Zeros]> (<["build-vm/rootfs.ext4" := Zeros]>
  (<["vm.mem.gcs" := Img 1]> (<["vm.mem.header" := Img 1]> (<["vm.state" := Img 1]> (<["flavor" := Text ("natid" +:+ nl)]>
  (<["snap-meta.json" := Doc (WriteSnapManifest (mkManifest 8 1024 10 "fp"))]> (<["ready" := Text ""]> (∅ : files)))))))))).
Lemma rebake_keeps_the_sidecar :
  let e := mkEnv (λ _, NoMeta) "base" true "another" false in
  restored true a_thin_seed = Some [Img 1; Img 1; Img 1; Img 1] ∧
  let d := bake_to e all_done 2%nat 60%nat (Some a_thin_seed) in
  templateSnapReady e d = true ∧ restored true (default ∅ d) = Some [Img 2; Img 1; Img 2; Img 2].
Proof. cbv zeta. split_and!; vm_compute; reflexivity. Qed.

(** A bake killed in the place of a ready snapshot of another size leaves the old
    marks: with the size set back, the mixture is ready. *)
Lemma killed_rebake_is_ready_again :
  let d := bake_to (sized "fp" 20) all_done 2%nat 8%nat (bake_to (sized "fp" 10) all_done 1%nat 60%nat None) in
  templateSnapReady (sized "fp" 10) d = true ∧ restored false (default ∅ d) = Some [Img 2; Img 1; Img 2].
Proof. cbv zeta. split_and!; vm_compute; reflexivity. Qed.

(** A streaming seed of which the sidecar was removed first is a disk of zeros. *)
Lemma half_removed_seed_is_zeros :
  let d := (RemoveAll all_done ["rootfs.gcs"] 1%nat (Some a_thin_seed)).2 in
  templateSnapReady an_agent d = true ∧ restored true (default ∅ d) = Some [Img 1; Zeros; Img 1; Img 1].
Proof. cbv zeta. split_and!; vm_compute; reflexivity. Qed.

(** "Mirror sandbox defaults": the gate takes one vCPU for a template that names
    none, the bake eight; so an agent refuses the seed of its own bake. *)
Lemma gate_refuses_its_own_bake :
  let s := want (sized "fp" 20) ∅ in
  sz_cpu s = 8 ∧
  compatible "" "" (sized "fp" 20) (mkSeed SchemaVersion "g" "" s 0 0 0 "fp" "natid" "" "") = false.
Proof. vm_compute. split; reflexivity. Qed.

(** A snapshot without manifest is said to be honoured at the default size; it
    has no key, and is never ready. *)
Lemma no_manifest_is_never_ready e d : ReadSnapManifest (doc_of d "snap-meta.json") = None → templateSnapReady e (Some d) = false.
Proof.
  intros H. unfold templateSnapReady. rewrite H. destruct (negb (bool_decide _)); [done|]. destruct (negb (Bool.eqb _ _)); [done|].
  by destruct (negb _).
Qed.
