(* ===== verification/Create.v ===== *)
(** Creating a sandbox: Manager.Create of agent/internal/sandbox/manager.go, with
    the two restores of a template's snapshot (template_snap.go), the restore of
    a user's snapshot (restoreFromSnapshotNATID) and the cold boot; and the child
    of a fork (spawnChildFromRootfs).  The host is what one sandbox id has on it.

    [o] says how each call ends; a kill can come between any two effects
    (Crash).  What the code finds on the host and does not change is [facts]. *)

From S2P Require Import Prelude GoStrings Crash Scope Templates.

Open Scope string_scope.
Open Scope list_scope.
Open Scope Z_scope.
#[local] Set Warnings "-clear-no-such-hyp".

(** ** What a create leaves on the host *)

Inductive netkind := Legacy | NATID.
(** What a root disk was made of; [Mixed]: two copies wrote it at once; [Shared]:
    the disk of the sandbox a snapshot was taken of. *)
Inductive base := OfTemplate | OfBake | OfSnapshot | Mixed | Shared.
(** What is on the drive vol1: nothing, the sandbox's own durable volume, or the
    one of the sandbox a snapshot was taken of. *)
Inductive data := NoData | OwnVolume | OriginVolume.

(** A Firecracker process: the network it was given ([None]: an empty
    configuration), its root disk ([None]: the baked one), its data, running. *)
Record vm := mkVm { v_net : option netkind; v_root : option base; v_data : data; v_running : bool }.

Inductive rowst := RCreating | RRunning | RFailed.

Record host := mkHost {
  slot : option netkind;                   (* what the network pool holds for the id *)
  row : option (rowst * option netkind);   (* its row: status, address *)
  vmdir : bool;
  disk : option base;                      (* vms/<id>/rootfs.ext4, or the dm-snapshot *)
  copying : bool;                          (* a copy to it that nobody has waited for *)
  dm : bool;                               (* a dm-snapshot *)
  proc : option vm;
  driver : bool;                           (* Manager.drivers *)
  vol : bool;                              (* its durable volume *)
  locked : bool;                           (* the template's lock, held for it *)
  settings : bool;                         (* its lifecycle settings *)
  lease : bool;
}.

Definition set_slot x h := mkHost x (row h) (vmdir h) (disk h) (copying h) (dm h) (proc h) (driver h) (vol h) (locked h) (settings h) (lease h).
Definition set_row x h := mkHost (slot h) x (vmdir h) (disk h) (copying h) (dm h) (proc h) (driver h) (vol h) (locked h) (settings h) (lease h).
Definition set_vmdir x h := mkHost (slot h) (row h) x (disk h) (copying h) (dm h) (proc h) (driver h) (vol h) (locked h) (settings h) (lease h).
Definition set_disk x h := mkHost (slot h) (row h) (vmdir h) x (copying h) (dm h) (proc h) (driver h) (vol h) (locked h) (settings h) (lease h).
Definition set_copying x h := mkHost (slot h) (row h) (vmdir h) (disk h) x (dm h) (proc h) (driver h) (vol h) (locked h) (settings h) (lease h).
Definition set_dm x h := mkHost (slot h) (row h) (vmdir h) (disk h) (copying h) x (proc h) (driver h) (vol h) (locked h) (settings h) (lease h).
Definition set_proc x h := mkHost (slot h) (row h) (vmdir h) (disk h) (copying h) (dm h) x (driver h) (vol h) (locked h) (settings h) (lease h).
Definition set_driver x h := mkHost (slot h) (row h) (vmdir h) (disk h) (copying h) (dm h) (proc h) x (vol h) (locked h) (settings h) (lease h).
Definition set_vol x h := mkHost (slot h) (row h) (vmdir h) (disk h) (copying h) (dm h) (proc h) (driver h) x (locked h) (settings h) (lease h).
Definition set_locked x h := mkHost (slot h) (row h) (vmdir h) (disk h) (copying h) (dm h) (proc h) (driver h) (vol h) x (settings h) (lease h).
Definition set_settings x h := mkHost (slot h) (row h) (vmdir h) (disk h) (copying h) (dm h) (proc h) (driver h) (vol h) (locked h) x (lease h).
Definition set_lease x h := mkHost (slot h) (row h) (vmdir h) (disk h) (copying h) (dm h) (proc h) (driver h) (vol h) (locked h) (settings h) x.

(** ** What it finds *)

(** A snapshot's meta.json. *)
Record Meta := mkMeta {
  mt_template : string;
  mt_natid : bool;
  mt_identity : bool;      (* the baked identity, in it or with the template *)
  mt_disk : bool;          (* DiskCaptured *)
  mt_link : bool;          (* RootfsHostPath is absent or a symlink, and not this id's own path *)
}.

Record facts := mkFacts {
  f_natid : bool;                          (* PANDASTACK_NATID *)
  f_seeds : bool;                          (* seedStore.Enabled *)
  f_here : bool;                           (* templates/<name>/rootfs.ext4 *)
  f_size : TemplateSize;                   (* ReadTemplateSize, after the pull *)
  f_admits : Z → bool;                     (* admitMemory *)
  f_ready : bool;                          (* templateSnapReady *)
  f_identity : bool;                       (* loadTemplateIdentity *)
  f_stream : bool;                         (* a streaming seed: rootfs.gcs *)
  f_dm : bool;                             (* dmsnap.Enabled *)
  f_mirror : bool;                         (* snapStore.Enabled *)
  f_complete : bool;                       (* the snapshot's files are here, as its meta promises *)
  f_meta : option Meta;
  f_snap_disk : bool;                      (* its rootfs.ext4 *)
  f_volume : string → string → bool;       (* resolveVolume: workspace, name *)
}.

Definition phasedBootTemplates : list string := ["postgres-16"].
Definition phased (t : string) : bool := bool_decide (t ∈ phasedBootTemplates).

Inductive site :=
  | Pull | Alloc | InsertRow | MkVmDir | DownloadSnap | ReleaseCold | AllocAgain | AllocNATID | Volume | ReleaseNATID
  | MkVsock | Kernel | LoadNATID | Reflink | CreateSnap | CopyRootfs | PatchRootfs | PatchData | ResumeNATID
  | LoadV1 | CopyV1 | PatchV1 | ResumeV1 | Identity
  | CloneSnap | BakeKey | CopyTemplate | KernelCold | Link | AllocSnap | MkVsockSnap | KernelSnap | LoadSnap | PatchSnap | ResumeSnap | ProbeSnap
  | Start | RowInsert | RowUpdate | CleanSlot | CleanRow | CleanDir | Lease
  | Inject.

(** How a sandbox came up ([Snapshot] and [SnapshotV1] are both reported as
    "snapshot"), and what Create answers. *)
Inductive mode := Cold | ColdPull | Snapshot | SnapshotV1 | SnapshotNATID.
#[export] Instance mode_eq_dec : EqDecision mode.
Proof. solve_decision. Defined.
Inductive err := BadRequest | NotPulled | InsufficientMemory | Failed.
Inductive answer := Up (m : mode) | Down (e : err).

Section create.
Context (o : site → outcome).

Definition call (s : site) (f : host → host) : C host bool :=
  effect (λ h, match o s with Done => (true, f h) | _ => (false, h) end).
(** Starting a process; [Half]: it reports a failure and leaves the process: the
    SDK's after a resume that failed, the raw one killed and not waited for. *)
Definition start (s : site) (v : host → vm) : C host bool :=
  effect (λ h, match o s with Done => (true, set_proc (Some (v h)) h) | Fails => (false, h) | Half => (false, set_proc (Some (v h)) h) end).
Definition act (f : host → host) : C host bool := effect (λ h, (true, f h)).
Definition on_vm (f : vm → host → vm) (h : host) : host := set_proc ((λ v, f v h) <$> proc h) h.

Notation "'ask' c 'otherwise' e ;; k" := (mbind (M := C host) (λ ok : bool, if ok then k else e) c)
  (at level 100, c at next level, e at next level, k at level 200, right associativity).

(** netPool.Release, and the other ends.  The drivers that are stopped here are
    of raw processes, which Driver.Stop kills and waits for. *)
Definition Stop : C host bool := act (set_proc None).
Definition release (s : site) : C host bool := call s (set_slot None).
Definition ensureDBVolume : C host bool :=
  effect (λ h, if vol h then (true, h) else match o Volume with Done => (true, set_vol true h) | _ => (false, h) end).

(** *** startFromTemplateSnapNATID *)

(** The goroutine: reflink, dm-snapshot or copy; a streaming seed has the
    dm-snapshot only. *)
Definition made (b : base) (h : host) : host := set_disk (Some (if copying h then Mixed else b)) h.
Definition prepare (F : facts) : C host bool :=
  if f_stream F then
    if f_dm F then call CreateSnap (λ h, set_dm true (set_disk (Some OfBake) h)) else mret false
  else
    r ← call Reflink (set_disk (Some OfBake));
    if r : bool then mret true
    else
      d ← (if f_dm F then call CreateSnap (λ h, set_dm true (set_disk (Some OfBake) h)) else mret false);
      if d : bool then mret true else call CopyRootfs (set_disk (Some OfBake)).
Definition RemoveSnap : C host bool := act (set_dm false).

Definition startFromTemplateSnapNATID (F : facts) (data : bool) : C host bool :=
  ask call MkVsock (λ h, h) otherwise mret false ;;
  act (set_copying true) ,,
  ask call Kernel (λ h, h) otherwise mret false ;;
  ask start LoadNATID (λ h, mkVm (slot h) None NoData false) otherwise (Stop ,, mret false) ;;
  act (set_copying false) ,,
  ask prepare F otherwise (Stop ,, mret false) ;;
  ask call PatchRootfs (on_vm (λ v h, mkVm (v_net v) (disk h) (v_data v) (v_running v)))
    otherwise (RemoveSnap ,, Stop ,, mret false) ;;
  ask (if data then call PatchData (on_vm (λ v h, mkVm (v_net v) (v_root v) OwnVolume (v_running v))) else mret true)
    otherwise (Stop ,, mret false) ;;
  ask call ResumeNATID (on_vm (λ v h, mkVm (v_net v) (v_root v) (v_data v) true))
    otherwise (RemoveSnap ,, Stop ,, mret false) ;;
  mret true.

(** *** startFromTemplateSnap *)

(** The lock is the VM's once it is up. *)
Definition startFromTemplateSnap (alloc : option netkind) : C host bool :=
  act (set_locked true) ,,
  ask call Kernel (λ h, h) otherwise (call CopyV1 (made OfBake) ,, act (set_locked false) ,, mret false) ;;
  ask start LoadV1 (λ h, mkVm alloc None NoData false)
    otherwise (call CopyV1 (made OfBake) ,, Stop ,, act (set_locked false) ,, mret false) ;;
  ask call CopyV1 (made OfBake) otherwise (Stop ,, act (set_locked false) ,, mret false) ;;
  ask call PatchV1 (on_vm (λ v h, mkVm (v_net v) (disk h) (v_data v) (v_running v)))
    otherwise (Stop ,, act (set_locked false) ,, mret false) ;;
  ask call ResumeV1 (on_vm (λ v h, mkVm (v_net v) (v_root v) (v_data v) true))
    otherwise (Stop ,, act (set_locked false) ,, mret false) ;;
  ask call Identity (λ h, h) otherwise (Stop ,, act (set_locked false) ,, mret false) ;;
  mret true.

(** *** restoreFromSnapshotNATID *)

(** A snapshot's devices are those of the sandbox it was taken of. *)
Definition origin_data (m : option Meta) : data :=
  match m with Some m => if phased (mt_template m) then OriginVolume else NoData | None => NoData end.

Definition restoreFromSnapshotNATID (F : facts) : C host bool :=
  release ReleaseCold ,,
  ask call AllocSnap (set_slot (Some NATID)) otherwise mret false ;;
  ask call MkVsockSnap (λ h, h) otherwise (release ReleaseNATID ,, mret false) ;;
  ask call KernelSnap (λ h, h) otherwise (release ReleaseNATID ,, mret false) ;;
  ask start LoadSnap (λ h, mkVm (slot h) None (origin_data (f_meta F)) false) otherwise (release ReleaseNATID ,, mret false) ;;
  ask call PatchSnap (on_vm (λ v h, mkVm (v_net v) (disk h) (v_data v) (v_running v)))
    otherwise (Stop ,, release ReleaseNATID ,, mret false) ;;
  ask call ResumeSnap (on_vm (λ v h, mkVm (v_net v) (v_root v) (v_data v) true))
    otherwise (Stop ,, release ReleaseNATID ,, mret false) ;;
  ask call ProbeSnap (λ h, h) otherwise (Stop ,, release ReleaseNATID ,, mret false) ;;
  call RowUpdate (λ h, set_row ((λ _, (RRunning, Some NATID)) <$> row h) h) ,,
  act (set_driver true) ,,
  mret true.

(** *** The cold boot, and a snapshot restored without NATID *)

Section request.
Context (F : facts) (r : CreateRequest).
Definition fromSnapshot : bool := negb (String.eqb (FromSnapshot r) "").
Definition workspace : string := default "" (Metadata r !! "workspace").
(** [natidFast]: no address is allocated and no row inserted at first. *)
Definition natidFast : bool :=
  negb fromSnapshot && bool_decide (Volumes r = []) && f_natid F && f_ready F.
Definition effectiveTemplate : string :=
  if fromSnapshot && String.eqb (Template r) "" then match f_meta F with Some m => mt_template m | None => "" end
  else Template r.

(** The root disk: the snapshot's own, or the template's. *)
Definition cold_disk : C host bool :=
  if fromSnapshot && f_snap_disk F then call CloneSnap (made OfSnapshot)
  else if fromSnapshot && match f_meta F with Some m => mt_disk m | None => false end then mret false
  else if String.eqb effectiveTemplate "" then mret false
  else
    ask call BakeKey (λ h, h) otherwise mret false ;;
    call CopyTemplate (made OfTemplate).

(** The restore of a NATID snapshot; [None]: it is none. *)
Definition snapshot_natid (up : mode) : C host (option answer) :=
  match f_meta F with
  | Some m =>
      if fromSnapshot && mt_natid m && negb (String.eqb (mt_template m) "") && mt_identity m then
        ok ← restoreFromSnapshotNATID F;
        if ok : bool then mret (Some (Up up))
        else
          _ ← release ReleaseNATID;
          _ ← call CleanRow (set_row None);
          mret (Some (Down Failed))
      else mret None
  | None => mret None
  end.

Definition links : bool := match f_meta F with Some m => mt_link m | None => false end.
Definition has_db : bool := negb fromSnapshot && phased (Template r).
Definition cold_vm (alloc : option netkind) (h : host) : vm :=
  mkVm alloc (if fromSnapshot && negb links then Some Shared else disk h)
    (if has_db then OwnVolume else if fromSnapshot then origin_data (f_meta F) else NoData) true.

Definition remove_dir (s : site) : C host bool := call s (λ h, set_disk None (set_vmdir false h)).
Definition cold_start (alloc : option netkind) (up : mode) : C host answer :=
  ok ← start Start (cold_vm alloc);
  if ok : bool then
    _ ← act (set_driver true);
    _ ← call RowUpdate (λ h, set_row ((λ x, (RRunning, snd x)) <$> row h) h);
    mret (Up up)
  else
    _ ← call RowUpdate (λ h, set_row ((λ x, (RFailed, snd x)) <$> row h) h);
    _ ← release CleanSlot;
    _ ← remove_dir CleanDir;
    _ ← (if has_db then act (set_vol false) else mret true);
    mret (Down Failed).

Definition cold_boot (alloc : option netkind) (up : mode) : C host answer :=
  let no := mret (Down Failed) in
  ask cold_disk otherwise no ;;
  ask call KernelCold (λ h, h) otherwise no ;;
  ask (if fromSnapshot && links then call Link (λ h, h) else mret true) otherwise no ;;
  ask mret (forallb (λ v, f_volume F workspace (v_name v)) (Volumes r)) otherwise no ;;
  ask (if has_db then ensureDBVolume else mret true)
    otherwise (_ ← release CleanSlot; _ ← remove_dir CleanDir; no) ;;
  a ← snapshot_natid up;
  match a with Some a => mret a | None => cold_start alloc up end.

(** *** Create *)

Definition effective_memory : Z :=
  if negb (String.eqb (Template r) "") && negb fromSnapshot then sz_mem (f_size F)
  else if MemoryMB r =? 0 then 256 else MemoryMB r.

(** The answer to what is refused before anything is touched. *)
Definition refused : option err :=
  if String.eqb (Template r) "" && negb fromSnapshot then Some BadRequest
  else if match TTLSeconds r with Some t => t <? 0 | None => false end then Some BadRequest
  else if fromSnapshot && negb (bool_decide (Volumes r = [])) then Some BadRequest
  else if negb (String.eqb (Template r) "") && negb fromSnapshot && f_seeds F && negb (f_here F) && negb (String.eqb workspace "")
          && negb (bool_decide (o Pull = Done)) then Some NotPulled
  else if negb (f_admits F effective_memory) then Some InsufficientMemory
  else None.
Definition pulled : bool :=
  negb (String.eqb (Template r) "") && negb fromSnapshot && f_seeds F && negb (f_here F) && negb (String.eqb workspace "").
Definition boot_mode : mode := if fromSnapshot then Snapshot else if pulled then ColdPull else Cold.

(** The allocation to boot with, or the answer. *)
Definition try_natid : C host (option netkind + answer) :=
  _ ← release ReleaseCold;
  if negb (f_identity F) then
    ok ← call AllocAgain (set_slot (Some Legacy));
    mret (if ok : bool then inl (Some Legacy) else inr (Down Failed))
  else
    ok ← call AllocNATID (set_slot (Some NATID));
    if negb ok then
      ok ← call AllocAgain (set_slot (Some Legacy));
      mret (if ok : bool then inl (Some Legacy) else inr (Down Failed))
    else
      v ← (if phased (Template r) then ensureDBVolume else mret true);
      if negb v then _ ← release ReleaseNATID; mret (inr (Down Failed))
      else
        up ← startFromTemplateSnapNATID F (phased (Template r));
        if up : bool then
          _ ← act (set_driver true);
          _ ← call RowInsert (set_row (Some (RRunning, Some NATID)));
          mret (inr (Up SnapshotNATID))
        else
          _ ← release ReleaseNATID;
          ok ← call AllocAgain (set_slot (Some Legacy));
          mret (inl (if ok : bool then Some Legacy else None)).

(** The restore of the template's snapshot, in one way or the other, and then
    the cold boot. *)
Definition boot (alloc : option netkind) : C host answer :=
  if negb fromSnapshot && bool_decide (Volumes r = []) && f_ready F then
    a ← (if f_natid F then try_natid else mret (inl alloc));
    match a with
    | inr a => mret a
    | inl alloc =>
        up ← startFromTemplateSnap alloc;
        if up : bool then
          _ ← act (set_driver true);
          _ ← call RowUpdate (λ h, set_row ((λ x, (RRunning, snd x)) <$> row h) h);
          mret (Up SnapshotV1)
        else cold_boot alloc boot_mode
    end
  else cold_boot alloc boot_mode.

Definition body : C host answer :=
  let no := mret (Down Failed) in
  ask (if natidFast then mret true else call Alloc (set_slot (Some Legacy))) otherwise no ;;
  ask (if natidFast then mret true else call InsertRow (set_row (Some (RCreating, Some Legacy))))
    otherwise (_ ← release CleanSlot; no) ;;
  ask call MkVmDir (set_vmdir true) otherwise no ;;
  ask (if fromSnapshot && f_mirror F && negb (f_complete F) then call DownloadSnap (λ h, h) else mret true) otherwise no ;;
  boot (if natidFast then None else Some Legacy).

Definition Create : C host answer :=
  match refused with
  | Some e => mret (Down e)
  | None =>
      a ← body;
      match a with
      | Up _ =>
          _ ← act (set_settings true);
          _ ← call Lease (set_lease true);
          mret a
      | Down _ =>
          _ ← release CleanSlot;
          _ ← call CleanRow (set_row None);
          _ ← remove_dir CleanDir;
          mret a
      end
  end.

(** ** The child of a fork *)

Definition spawnChildFromRootfs : C host answer :=
  let no := mret (Down Failed) in
  ask call Alloc (set_slot (Some Legacy)) otherwise no ;;
  ask call InsertRow (set_row (Some (RCreating, Some Legacy))) otherwise (_ ← release CleanSlot; no) ;;
  ask call MkVmDir (set_vmdir true) otherwise no ;;
  ask call CopyRootfs (set_disk (Some OfSnapshot)) otherwise no ;;
  ask call Inject (λ h, h) otherwise no ;;
  ask call KernelCold (λ h, h) otherwise no ;;
  ok ← start Start (λ h, mkVm (Some Legacy) (disk h) NoData true);
  if ok : bool then
    _ ← act (set_driver true);
    _ ← call RowUpdate (λ h, set_row ((λ x, (RRunning, snd x)) <$> row h) h);
    _ ← call Lease (set_lease true);
    mret (Up Cold)
  else
    _ ← call RowUpdate (λ h, set_row ((λ x, (RFailed, snd x)) <$> row h) h);
    no.
End request.
End create.

(** ** Runs *)

(** A start that is not stopped when it fails has failed half way. *)
Definition stray (o : site → outcome) : Prop := o LoadSnap = Half ∨ o Start = Half.
(** The network a process is on is held for it; one that has none was started
    after the pool refused an address; or it is what such a start has left. *)
Definition tidy (o : site → outcome) (h : host) : Prop :=
  ∀ v, proc h = Some v → v_net v = slot h ∨ v_net v = None ∧ o AllocAgain ≠ Done ∨ driver h = false ∧ stray o.

Lemma tidy_no_proc o h : proc h = None → tidy o h.
Proof. unfold tidy. congruence. Qed.

Section rules.
Context (o : site → outcome).
Implicit Types (R : host → Prop).

Lemma x_ret {A} h0 (a : A) (Q : A → host → Prop) R : Q a h0 → triple (λ h, h = h0) (mret a) Q R.
Proof. intros H. by apply triple_ret; intros ? ->. Qed.
Lemma x_mret {A B} h0 (a : A) (k : A → C host B) Q R : triple (λ h, h = h0) (k a) Q R → triple (λ h, h = h0) (mret a ≫= k) Q R.
Proof. intros H. exact H. Qed.
Lemma x_act {A} h0 f (k : bool → C host A) Q R :
  R h0 → triple (λ h, h = f h0) (k true) Q R → triple (λ h, h = h0) (act f ≫= k) Q R.
Proof.
  intros HR H. eapply triple_bind with (Q := λ a h, a = true ∧ h = f h0); [by apply triple_effect; intros ? ->|].
  intros a. apply (triple_pre _ (a = true)); [by intros ? []|]. intros ->. eapply triple_conseq; [exact H|by intros ? []|done|done].
Qed.
Lemma x_call {A} h0 s f (k : bool → C host A) Q R :
  R h0 → (o s = Done → triple (λ h, h = f h0) (k true) Q R) → (o s ≠ Done → triple (λ h, h = h0) (k false) Q R) →
  triple (λ h, h = h0) (call o s f ≫= k) Q R.
Proof.
  intros HR H1 H2. destruct (decide (o s = Done)) as [E|E].
  - eapply triple_bind with (Q := λ a h, a = true ∧ h = f h0); [by apply triple_effect; intros ? ->; rewrite ?E|].
    intros a. apply (triple_pre _ (a = true)); [by intros ? []|]. intros ->. eapply triple_conseq; [exact (H1 E)|by intros ? []|done|done].
  - eapply triple_bind with (Q := λ a h, a = false ∧ h = h0); [by apply triple_effect; intros ? ->; destruct (o s)|].
    intros a. apply (triple_pre _ (a = false)); [by intros ? []|]. intros ->. eapply triple_conseq; [exact (H2 E)|by intros ? []|done|done].
Qed.
Lemma x_start {A} h0 s v (k : bool → C host A) Q R :
  R h0 → (o s = Done → triple (λ h, h = set_proc (Some (v h0)) h0) (k true) Q R) →
  (o s = Fails → triple (λ h, h = h0) (k false) Q R) →
  (o s = Half → triple (λ h, h = set_proc (Some (v h0)) h0) (k false) Q R) →
  triple (λ h, h = h0) (start o s v ≫= k) Q R.
Proof.
  intros HR H1 H2 H3. unfold start. destruct (o s) eqn:E.
  - eapply triple_bind with (Q := λ a h, a = true ∧ h = set_proc (Some (v h0)) h0); [by apply triple_effect; intros ? ->|].
    intros a. apply (triple_pre _ (a = true)); [by intros ? []|]. intros ->. eapply triple_conseq; [exact (H1 eq_refl)|by intros ? []|done|done].
  - eapply triple_bind with (Q := λ a h, a = false ∧ h = h0); [by apply triple_effect; intros ? ->|].
    intros a. apply (triple_pre _ (a = false)); [by intros ? []|]. intros ->. eapply triple_conseq; [exact (H2 eq_refl)|by intros ? []|done|done].
  - eapply triple_bind with (Q := λ a h, a = false ∧ h = set_proc (Some (v h0)) h0); [by apply triple_effect; intros ? ->|].
    intros a. apply (triple_pre _ (a = false)); [by intros ? []|]. intros ->. eapply triple_conseq; [exact (H3 eq_refl)|by intros ? []|done|done].
Qed.
Lemma x_volume {A} h0 (k : bool → C host A) Q R :
  R h0 → (vol h0 = true ∨ o Volume = Done → triple (λ h, h = set_vol true h0) (k true) Q R) →
  (vol h0 = false → o Volume ≠ Done → triple (λ h, h = h0) (k false) Q R) →
  triple (λ h, h = h0) (ensureDBVolume o ≫= k) Q R.
Proof.
  intros HR H1 H2. assert (Hs : vol h0 = true → set_vol true h0 = h0) by (intros E; destruct h0; cbn in *; by subst).
  destruct (vol h0) eqn:Ev.
  - eapply triple_bind with (Q := λ a h, a = true ∧ h = h0); [apply triple_effect; intros ? ->; by rewrite ?Ev|].
    intros a. apply (triple_pre _ (a = true)); [by intros ? []|]. intros ->.
    eapply triple_conseq; [apply H1; by left|intros ? [_ ->]; by rewrite Hs|done|done].
  - destruct (decide (o Volume = Done)) as [E|E].
    + eapply triple_bind with (Q := λ a h, a = true ∧ h = set_vol true h0); [apply triple_effect; intros ? ->; by rewrite ?Ev, ?E|].
      intros a. apply (triple_pre _ (a = true)); [by intros ? []|]. intros ->. eapply triple_conseq; [apply H1; by right|by intros ? []|done|done].
    + eapply triple_bind with (Q := λ a h, a = false ∧ h = h0); [apply triple_effect; intros ? ->; rewrite ?Ev; by destruct (o Volume)|].
      intros a. apply (triple_pre _ (a = false)); [by intros ? []|]. intros ->. eapply triple_conseq; [exact (H2 eq_refl E)|by intros ? []|done|done].
Qed.
Lemma x_bind {A B} h0 (c : C host A) (k : A → C host B) S Q R :
  triple (λ h, h = h0) c S R → (∀ a h, S a h → triple (λ x, x = h) (k a) Q R) → triple (λ h, h = h0) (c ≫= k) Q R.
Proof. intros Hc Hk. eapply triple_bind; [exact Hc|]. intros a. apply triple_start. auto. Qed.
End rules.

(** One step of a run from a known state; the side condition of a kill, and the
    end, are left. *)
Ltac run1 :=
  first [ apply x_act; [|]
        | apply x_call; [|intros ?|intros ?]
        | apply x_start; [|intros ?|intros ?|intros ?]
        | apply x_volume; [|intros ?|intros ? ?]
        | apply x_mret
        | apply x_ret ];
  cbv beta; cbn [negb].
Ltac tidies := first [ assumption | apply tidy_no_proc; cbn; (assumption || reflexivity)
  | let v := fresh "v" in intros v; cbn; intros [= <-]; cbn; (by left) || (left; congruence) || (right; by left) || (right; right; split; [(assumption || reflexivity)|by left]) ].
Ltac if_case := match goal with |- triple _ (if ?b then _ else _) _ _ => destruct b eqn:? end.
Ltac runs := repeat (run1; try tidies).

(** What the restores leave alone. *)
Definition same (h0 h : host) : Prop :=
  slot h = slot h0 ∧ row h = row h0 ∧ vmdir h = vmdir h0 ∧ driver h = driver h0 ∧ vol h = vol h0 ∧
  settings h = settings h0 ∧ lease h = lease h0.

Section restores.
Context (o : site → outcome) (F : facts).

Definition prepared (h0 : host) (ok : bool) (h : host) : Prop :=
  (tidy o) h ∧ same h0 h ∧ proc h = proc h0 ∧ locked h = locked h0 ∧ copying h = copying h0 ∧ (ok = true → disk h = Some OfBake).
Lemma t_prepare h0 : (tidy o) h0 → triple (λ h, h = h0) (prepare o F) (prepared h0) (tidy o).
Proof.
  intros Ht. unfold prepare.
  assert (Hlast : ∀ s f, (∀ h, f h = set_dm true (set_disk (Some OfBake) h) ∨ f h = set_disk (Some OfBake) h) →
    triple (λ h, h = h0) (call o s f) (prepared h0) (tidy o)).
  { intros s f Hf. apply triple_effect; [by intros ? ->|]. intros ? ->. destruct (o s); [|by split..].
    destruct (Hf h0) as [-> | ->]; by split. }
  assert (Hno : triple (λ h, h = h0) (mret false) (prepared h0) (tidy o)) by by apply x_ret.
  destruct (f_stream F), (f_dm F); [apply Hlast; auto|exact Hno|..]; (run1; [done|by apply x_ret|]).
  - run1; [done|by apply x_ret|]. apply Hlast; auto.
  - run1. apply Hlast; auto.
Qed.

(** The process of a restore that went through, and what one that did not leaves. *)
Definition restored_vm (net : option netkind) (d : data) (h : host) : Prop :=
  proc h = Some (mkVm net (disk h) d true) ∧ is_Some (disk h).

Lemma t_natid h0 data :
  proc h0 = None → slot h0 = Some NATID →
  triple (λ h, h = h0) (startFromTemplateSnapNATID o F data)
    (λ ok h, same h0 h ∧ locked h = locked h0 ∧
      if ok : bool then restored_vm (Some NATID) (if data then OwnVolume else NoData) h else proc h = None) (tidy o).
Proof.
  intros Hp Hs. unfold startFromTemplateSnapNATID.
  runs; try (split_and!; done).
  eapply x_bind; [apply t_prepare; tidies|]. intros ok h (Ht & (S1 & S2 & S3 & S4 & S5 & S6 & S7) & Hpr & Hl & Hc & Hd). cbn in *.
  destruct ok; [specialize (Hd eq_refl)|by runs; split_and!]. destruct h, h0. cbn in *. subst. unfold on_vm.
  runs; try (split_and!; done). cbn. destruct data; runs; split_and!; try done; by eexists.
Qed.

Lemma t_v1 h0 alloc :
  proc h0 = None → locked h0 = false → alloc = slot h0 ∨ alloc = None ∧ o AllocAgain ≠ Done →
  triple (λ h, h = h0) (startFromTemplateSnap o alloc)
    (λ ok h, same h0 h ∧ locked h = ok ∧ if ok : bool then restored_vm alloc NoData h else proc h = None) (tidy o).
Proof.
  intros Hp Hl Ha. destruct h0. cbn in *. subst. unfold startFromTemplateSnap, on_vm, made.
  assert (Htd : ∀ h v, proc h = Some v → v_net v = alloc → slot h = slot0 → (tidy o) h).
  { intros h v Hv Hn Hs v' Hv'. rewrite Hv in Hv'. injection Hv' as <-. rewrite Hn, Hs. destruct Ha; auto. }
  runs; try (split_and!; done); try (eapply Htd; [reflexivity..]); cbn; runs; split_and!; try done; try (eapply Htd; [reflexivity..]); by eexists.
Qed.

(** The network of a snapshot's restore, and the rest as it was. *)
Definition rest (h0 h : host) : Prop :=
  vmdir h = vmdir h0 ∧ vol h = vol h0 ∧ locked h = locked h0 ∧ settings h = settings h0 ∧ lease h = lease h0 ∧ disk h = disk h0.

Lemma t_snap h0 :
  proc h0 = None → driver h0 = false →
  triple (λ h, h = h0) (restoreFromSnapshotNATID o F)
    (λ ok h, rest h0 h ∧
      if ok : bool then
        driver h = true ∧ slot h = Some NATID ∧ proc h = Some (mkVm (Some NATID) (disk h) (origin_data (f_meta F)) true) ∧
        (o RowUpdate = Done → row h = (λ _, (RRunning, Some NATID)) <$> row h0)
      else (proc h = None ∨ stray o) ∧ driver h = false ∧ row h = row h0) (tidy o).
Proof.
  intros Hp Hd. destruct h0. cbn in *. subst. unfold restoreFromSnapshotNATID, on_vm, release.
  assert (Hst : o LoadSnap = Half → stray o) by (by left).
  runs; try done; try (split_and!; auto; done); try tidies; cbn; runs; split_and!; try done; try (by left); try (by right; auto); by eexists.
Qed.
End restores.

(** *** How a create ends *)

Section outcome.
Context (o : site → outcome) (F : facts) (r : CreateRequest).

(** Nothing of a virtual machine, and nothing of a sandbox. *)
Definition empty (h : host) : Prop :=
  proc h = None ∧ driver h = false ∧ locked h = false ∧ settings h = false ∧ lease h = false.
(** The same, but for what a start has left. *)
Definition down (h : host) : Prop :=
  (proc h = None ∨ stray o) ∧ driver h = false ∧ locked h = false ∧ settings h = false ∧ lease h = false.
(** Ready to boot on an address. *)
Definition await (alloc : option netkind) (h : host) : Prop :=
  empty h ∧ (alloc = slot h ∨ alloc = None ∧ o AllocAgain ≠ Done) ∧
  (natidFast F r = false → alloc = Some Legacy ∧ slot h = Some Legacy ∧ row h = Some (RCreating, Some Legacy)).

(** The running machine: on its root disk, with its address and its volume, and
    the row that shows it. *)
Definition machine (m : mode) (h : host) : Prop := ∃ v,
  proc h = Some v ∧ v_running v = true ∧ is_Some (v_root v) ∧
  (v_net v = slot h ∨ v_net v = None ∧ o AllocAgain ≠ Done) ∧
  (has_db r = true → m ≠ SnapshotV1 → v_data v = OwnVolume ∧ vol h = true).
Definition shown (m : mode) (h : host) : Prop :=
  match m with SnapshotNATID => o RowInsert = Done | _ => natidFast F r = false ∧ o RowUpdate = Done end →
  row h = Some (RRunning, slot h).
Definition came_up (m : mode) (h : host) : Prop :=
  driver h = true ∧ locked h = bool_decide (m = SnapshotV1) ∧ machine m h ∧ shown m h.
Definition ended (a : answer) (h : host) : Prop :=
  (tidy o) h ∧ settings h = false ∧ lease h = false ∧
  match a with Up m => came_up m h | Down _ => down h end.

Lemma came_up_tidy m h : came_up m h → (tidy o) h.
Proof. intros (_ & _ & (v & Hv & _ & _ & Hn & _) & _) v' Hv'. simplify_eq. destruct Hn; auto. Qed.
Lemma empty_down h : empty h → down h.
Proof. intros (? & ? & ? & ? & ?). split_and!; auto. Qed.
Lemma down_tidy h : down h → (tidy o) h.
Proof. intros ([?|?] & ? & _); [by apply tidy_no_proc|]. intros v _. auto. Qed.
Lemma downs e h : down h → ended (Down e) h.
Proof. intros H. pose proof H as (? & ? & ? & ? & ?). split; [by apply down_tidy|done]. Qed.
Lemma down_ended e h : empty h → ended (Down e) h.
Proof. intros H. by apply downs, empty_down. Qed.
Lemma await_empty alloc h : await alloc h → empty h.
Proof. by intros []. Qed.
Lemma empty_tidy h : empty h → (tidy o) h.
Proof. intros []. by apply tidy_no_proc. Qed.

(** A step that keeps what is known, whatever becomes of it. *)
Lemma x_keep {A} (P : host → Prop) s f (k : bool → C host A) Q :
  (∀ h, P h → (tidy o) h) → (∀ h, P h → P (f h)) → (∀ b, triple P (k b) Q (tidy o)) → triple P (call o s f ≫= k) Q (tidy o).
Proof.
  intros HR Hf Hk. apply triple_start. intros h Hh.
  apply x_call; [by apply HR|..]; intros _; (eapply triple_conseq; [apply Hk|intros ? ->; auto|done..]).
Qed.
Lemma x_end {A} (P : host → Prop) (a : A) (Q : A → host → Prop) R : (∀ h, P h → Q a h) → triple P (mret a) Q R.
Proof. apply triple_ret. Qed.

Lemma await_tidy alloc h : await alloc h → (tidy o) h.
Proof. intros [? _]. by apply empty_tidy. Qed.
Lemma await_disk alloc x h : await alloc h → await alloc (set_disk x h).
Proof. done. Qed.

Lemma t_cold_disk alloc :
  triple (await alloc) (cold_disk o F r) (λ ok h, await alloc h ∧ (ok = true → is_Some (disk h))) (tidy o).
Proof.
  assert (Hc : ∀ s b, triple (await alloc) (call o s (made b)) (λ ok h, await alloc h ∧ (ok = true → is_Some (disk h))) (tidy o)).
  { intros s b. apply triple_effect; [apply await_tidy|]. intros h Hh. destruct (o s); by split. }
  unfold cold_disk. if_case; [apply Hc|]. if_case; [by apply x_end|]. if_case; [by apply x_end|].
  apply x_keep; [apply await_tidy|done|]. intros []; [apply Hc|by apply x_end].
Qed.

(** Ready for the machine itself. *)
Definition bootable (alloc : option netkind) (h : host) : Prop :=
  await alloc h ∧ is_Some (disk h) ∧ (has_db r = true → vol h = true).

(** The restore of a NATID snapshot. *)
Lemma t_snapshot_natid alloc up :
  up = boot_mode F r →
  triple (bootable alloc) (snapshot_natid o F r up)
    (λ a h, match a with Some a => ended a h | None => bootable alloc h end) (tidy o).
Proof.
  intros ->. apply triple_start. intros h0 Hb0. pose proof Hb0 as [Hw [[b Hb] _]]. pose proof Hw as [(Hp & Hd & Hl & Hs & He) [_ Hrow]].
  unfold snapshot_natid.
  assert (Hno : triple (λ h, h = h0) (mret None)
    (λ a h, match a with Some a => ended a h | None => bootable alloc h end) (tidy o)) by by apply x_ret.
  destruct (f_meta F) as [mt|] eqn:EM; [|exact Hno]. if_case; [|exact Hno].
  match goal with H : _ && _ = true |- _ => apply andb_true_iff in H as [[[Efs _]%andb_true_iff _]%andb_true_iff _] end.
  eapply x_bind; [by apply t_snap|]. intros ok h ((Hvm & Hv & Hlk & Hset & Hle & Hdk) & Hok). cbn beta.
  destruct ok.
  - destruct Hok as (Hdr & Hsl & Hpr & Hro). apply x_ret. unfold ended, came_up, machine, shown.
    assert (Ht : (tidy o) h) by (intros v Ev; rewrite Hpr in Ev; injection Ev as <-; left; by rewrite Hsl).
    unfold boot_mode, has_db. rewrite Efs, Hlk, Hl, Hdr. split_and!; [done|congruence|congruence|done|done|..].
    + eexists. split; [exact Hpr|]. cbn. rewrite Hsl, Hdk, Hb. split_and!; [done|by eexists|by left|done].
    + intros [En Eu]. destruct (Hrow En) as (_ & _ & Er). by rewrite Hsl, (Hro Eu), Er.
  - destruct Hok as (Hpr & Hdr & _). assert (Hem : down h) by (split_and!; try done; congruence).
    apply triple_conseq with (P' := down) (Q' := λ a h, match a with Some a => ended a h | None => bootable alloc h end)
      (R' := (tidy o)); [|by intros ? ->|done|done].
    do 2 (apply x_keep; [apply down_tidy|done|]; intros ?). apply x_end. intros h' He'. by apply downs.
Qed.

Lemma t_cold_start alloc :
  triple (bootable alloc)
    (cold_start o F r alloc (boot_mode F r)) ended (tidy o).
Proof.
  apply triple_start. intros h0 (Hw & [b Hb] & Hv). pose proof Hw as [(Hp & Hd & Hl & Hs & He) [Hn Hrow]].
  pose proof Hn as Hnet.
  assert (Hm : boot_mode F r ≠ SnapshotV1 ∧ boot_mode F r ≠ SnapshotNATID) by (unfold boot_mode; repeat case_match; done).
  unfold cold_start. set (v := cold_vm F r alloc).
  assert (Hvn : ∀ h, v_net (v h) = alloc) by done.
  assert (Hvr : is_Some (v_root (v h0))) by (cbn; case_match; [by eexists|rewrite Hb; by eexists]).
  assert (Hvd : has_db r = true → v_data (v h0) = OwnVolume) by (cbn; by intros ->).
  assert (Hrun : v_running (v h0) = true) by done. clearbody v.
  assert (Hclean : triple down
    (_ ← call o RowUpdate (λ h, set_row ((λ x, (RFailed, snd x)) <$> row h) h); _ ← release o CleanSlot; _ ← remove_dir o CleanDir;
     _ ← (if has_db r then act (set_vol false) else mret true); mret (Down Failed)) ended (tidy o)).
  { do 3 (apply x_keep; [apply down_tidy|done|]; intros ?).
    destruct (has_db r).
    - apply triple_start. intros h Hh. apply x_act; [by apply down_tidy|]. apply x_ret. by apply downs.
    - apply x_end. intros h Hh. by apply downs. }
  apply x_start; [by apply tidy_no_proc|..].
  - intros _. cbn beta. apply x_act; [intros v' [= <-]; cbn; rewrite Hvn; destruct Hn; auto|].
    apply x_call; [intros v' [= <-]; cbn; rewrite Hvn; destruct Hn; auto|..]; intros Eu; apply x_ret;
      (split; [intros v' [= <-]; cbn; rewrite Hvn; destruct Hn; auto|]); cbn; split_and!; try done;
      unfold came_up, machine, shown; cbn; rewrite bool_decide_eq_false_2 by (by destruct Hm); split_and!; try done.
    + eexists. split; [reflexivity|]. cbn. rewrite Hvn. split_and!; try done. intros Edb _. auto.
    + destruct Hm as [_ Hm]. destruct (boot_mode F r); try done; intros [En _];
        destruct (Hrow En) as (_ & Esl & ->); by rewrite Esl.
    + eexists. split; [reflexivity|]. cbn. rewrite Hvn. split_and!; try done. intros Edb _. auto.
    + destruct Hm as [_ Hm]. destruct (boot_mode F r); try done; by intros [].
  - intros _. apply triple_conseq with (P' := down) (Q' := ended) (R' := (tidy o)); [exact Hclean|intros ? ->; by apply empty_down|done|done].
  - intros E. apply triple_conseq with (P' := down) (Q' := ended) (R' := (tidy o)); [exact Hclean|intros ? ->|done|done].
    split_and!; try done. right. by right.
Qed.

Lemma t_cold alloc : triple (await alloc) (cold_boot o F r alloc (boot_mode F r)) ended (tidy o).
Proof.
  assert (Hno : ∀ P : host → Prop, (∀ h, P h → await alloc h) → triple P (mret (Down Failed)) ended (tidy o)).
  { intros P HP. apply x_end. intros h Hh. apply down_ended, (HP _ Hh). }
  unfold cold_boot. eapply triple_bind; [apply t_cold_disk|]. intros ok. cbn beta. destruct ok; [|apply Hno; by intros ? []].
  set (D := λ h, await alloc h ∧ is_Some (disk h)).
  assert (HD : ∀ h, D h → (tidy o) h ∧ await alloc h) by (intros h [Hh _]; split; [by eapply await_tidy|done]).
  apply triple_conseq with (P' := D) (Q' := ended) (R' := (tidy o)); [|intros h [H1 H2]; split; [exact H1|by apply H2]|done|done].
  apply x_keep; [apply HD|done|]. intros []; [|apply Hno, HD].
  eapply triple_bind with (Q := λ _, D).
  { if_case; [|by apply x_end]. apply triple_effect; [apply HD|]. intros h Hh. by destruct (o Link). }
  intros []; [|apply Hno, HD].
  eapply triple_bind with (Q := λ _, D); [by apply x_end|]. intros []; [|apply Hno, HD].
  eapply triple_bind with (Q := λ ok h, D h ∧ (ok = true → has_db r = true → vol h = true)).
  { if_case; [|by apply x_end]. apply triple_effect; [apply HD|].
    intros h Hh. destruct (vol h) eqn:Ev; [done|]. destruct (o Volume); split; try done; apply Hh. }
  intros ok. cbn beta. destruct ok.
  - eapply triple_bind; [eapply triple_conseq; [by apply (t_snapshot_natid alloc)|intros h [[H1 H2] H3]; split_and!; auto|done|done]|].
    intros [a|]; [|apply t_cold_start]. apply x_end. done.
  - apply triple_conseq with (P' := empty) (Q' := ended) (R' := (tidy o)); [|intros h [[[? _] _] _]; done|done|done].
    do 2 (apply x_keep; [apply empty_tidy|done|]; intros ?). apply x_end. intros h Hh. by apply down_ended.
Qed.

(** On the way to an address. *)
Definition addressed (a : option netkind + answer) (h : host) : Prop :=
  match a with inl alloc => await alloc h | inr a => ended a h end.

Lemma t_again h0 :
  empty h0 → natidFast F r = true →
  ∀ (k : bool → C host (option netkind + answer)),
  (∀ h, empty h → slot h = Some Legacy → triple (λ x, x = h) (k true) addressed (tidy o)) →
  (o AllocAgain ≠ Done → triple (λ h, h = h0) (k false) addressed (tidy o)) →
  triple (λ h, h = h0) (call o AllocAgain (set_slot (Some Legacy)) ≫= k) addressed (tidy o).
Proof. intros H0 Hn k H1 H2. apply x_call; [by apply empty_tidy|intros _; by apply H1|exact H2]. Qed.

Lemma t_try_natid :
  natidFast F r = true → triple empty (try_natid o F r) addressed (tidy o).
Proof.
  intros Hn. unfold try_natid.
  assert (Hl : ∀ h, empty h → slot h = Some Legacy → addressed (inl (Some Legacy)) h).
  { intros h H0 Hs. split; [exact H0|]. split; [by left|congruence]. }
  assert (Hd : ∀ h, empty h → addressed (inr (Down Failed)) h) by (intros; by apply down_ended).
  assert (Hag : triple empty (ok ← call o AllocAgain (set_slot (Some Legacy)); mret (if ok : bool then inl (Some Legacy) else inr (Down Failed))) addressed (tidy o)).
  { apply triple_start. intros h Hh. apply t_again; [done..| |]; intros; apply x_ret; auto. }
  apply x_keep; [apply empty_tidy|done|]. intros _. if_case; [exact Hag|].
  apply triple_start. intros h0 H0. apply x_call; [by apply empty_tidy| |]; intros Ea.
  2: { cbn [negb]. eapply triple_conseq; [exact Hag|by intros ? ->|done|done]. }
  cbn [negb].
  eapply x_bind with (S := λ ok h, empty h ∧ slot h = Some NATID ∧ (ok = true → phased (Template r) = true → vol h = true)).
  { destruct (phased (Template r)); [|by apply x_ret]. apply triple_effect; [intros ? ->; by apply empty_tidy|].
    intros ? ->. cbn. destruct (vol h0) eqn:Ev; [done|]. by destruct (o Volume). }
  intros v h1 (H1 & Hs1 & Hv1). destruct v; cbn [negb].
  2: { apply x_call; [by apply empty_tidy| |]; intros _; apply x_ret, Hd; done. }
  specialize (Hv1 eq_refl). eapply x_bind; [apply t_natid; [apply H1|done]|].
  intros up h2 ((S1 & S2 & S3 & S4 & S5 & S6 & S7) & Hlk & Hup). cbn in Hup. pose proof H1 as (E1 & E2 & E3 & E4 & E5).
  destruct up.
  - destruct Hup as [Hpr [b Hb]].
    assert (Ht : ∀ h, proc h = proc h2 → slot h = slot h2 → (tidy o) h).
    { intros h Ep Es v. rewrite Ep, Hpr. intros [= <-]. left. by rewrite Es, S1, Hs1. }
    assert (Hm : ∀ h, proc h = proc h2 → slot h = slot h2 → disk h = disk h2 → vol h = vol h2 → machine SnapshotNATID h).
    { intros h Ep Es Ed Ev. eexists. rewrite Ep, Es. split; [exact Hpr|]. cbn. rewrite Hb, S1, Hs1. split_and!; [done|by eexists|by left|].
      unfold has_db. intros [_ Eph]%andb_true_iff _. rewrite Eph. split; [done|]. rewrite Ev, S5. auto. }
    apply x_act; [by apply Ht|]. cbn beta.
    apply x_call; [by apply Ht|..]; intros Er; apply x_ret; (split; [by apply Ht|]); cbn; split_and!; try congruence; split_and!;
      rewrite ?bool_decide_eq_false_2 by done; try (by apply Hm); try done; cbn; try congruence; unfold shown; cbn; intros; congruence.
  - assert (H2 : empty h2) by (split_and!; congruence).
    apply x_call; [by apply empty_tidy| |]; intros _; cbn beta; apply t_again; try done; intros; apply x_ret; auto;
      (split; [done|]); (split; [by right|congruence]).
Qed.

Lemma t_boot alloc :
  (natidFast F r = true → alloc = None) →
  triple (λ h, empty h ∧ (natidFast F r = false → await alloc h)) (boot o F r alloc) ended (tidy o).
Proof.
  intros Hal. unfold boot. if_case.
  2: { apply triple_conseq with (P' := await alloc) (Q' := ended) (R' := (tidy o)); [|intros h [_ Hh]; apply Hh|done|done]; [apply t_cold|].
       unfold natidFast. apply andb_false_iff in Heqb as [Heqb| ->]; [|by rewrite andb_false_r].
       apply andb_false_iff in Heqb as [-> | ->]; [done|by rewrite andb_false_r]. }
  apply andb_true_iff in Heqb as [Ec Er].
  eapply triple_bind with (Q := addressed).
  - destruct (f_natid F) eqn:En.
    + eapply triple_conseq; [apply t_try_natid|by intros h []|done|done]. unfold natidFast. by rewrite Ec, En, Er.
    + apply x_end. intros h [_ Hh]. apply Hh. unfold natidFast. by rewrite En, andb_false_r.
  - intros [al|a]; [|by apply x_end]. apply triple_start. intros h0 H0. pose proof H0 as [(E1 & E2 & E3 & E4 & E5) [Hn Hrow]].
    pose proof Hn as Hnet.
    eapply x_bind; [by apply t_v1|]. intros up h1 ((S1 & S2 & S3 & S4 & S5 & S6 & S7) & Hlk & Hup). cbn in Hup.
    assert (Haw : proc h1 = None → locked h1 = false → await al h1).
    { intros. split; [split_and!; congruence|]. by rewrite S1, S2. }
    destruct up; [|eapply triple_conseq; [apply (t_cold al)|intros ? ->; auto|done|done]].
    destruct Hup as [Hpr [b Hb]].
    assert (Ht : ∀ h, proc h = proc h1 → slot h = slot h1 → (tidy o) h).
    { intros h Ep Es v. rewrite Ep, Hpr. intros [= <-]. cbn; rewrite Es, S1; destruct Hnet; auto. }
    assert (Hm : ∀ h, proc h = proc h1 → slot h = slot h1 → machine SnapshotV1 h).
    { intros h Ep Es. eexists. rewrite Ep, Es. split; [exact Hpr|]. cbn. rewrite Hb, S1. split_and!; done. }
    apply x_act; [by apply Ht|]. cbn beta.
    apply x_call; [by apply Ht|..]; intros Eu; apply x_ret; (split; [by apply Ht|]); cbn; split_and!; try congruence; split_and!;
      rewrite ?bool_decide_eq_true_2 by done; try (by apply Hm); try done; unfold shown; cbn; intros [En Eu']; [|congruence].
    destruct (Hrow En) as (_ & Es & Ero). by rewrite S2, Ero, S1, Es.
Qed.

Lemma t_body : triple empty (body o F r) ended (tidy o).
Proof.
  unfold body. set (al := if natidFast F r then None else Some Legacy).
  assert (Hno : ∀ P : host → Prop, (∀ h, P h → empty h) → triple P (mret (Down Failed)) ended (tidy o)).
  { intros P HP. apply x_end. intros h Hh. apply down_ended, HP, Hh. }
  set (D := λ h, empty h ∧ (natidFast F r = false → slot h = Some Legacy)).
  eapply triple_bind with (Q := λ ok h, if ok : bool then D h else empty h).
  { unfold D. destruct (natidFast F r); [by apply x_end|]. apply triple_effect; [apply empty_tidy|]. intros h Hh. by destruct (o Alloc). }
  intros ok. cbn beta. destruct ok; [|by apply Hno].
  set (E := λ h, empty h ∧ (natidFast F r = false → await al h)).
  assert (HE : ∀ h, E h → (tidy o) h) by (intros h [Hh _]; by apply empty_tidy).
  eapply triple_bind with (Q := λ ok h, if ok : bool then E h else empty h).
  { unfold D, E, al, await. destruct (natidFast F r); [apply x_end; intros h [Hh _]; by split|].
    apply triple_effect; [intros h [Hh _]; by apply empty_tidy|]. intros h [Hh Hs]. specialize (Hs eq_refl).
    destruct (o InsertRow); cbn; rewrite ?Hs; [|done..]. split; [done|]. intros _. split; [done|]. split; [by left|done]. }
  intros ok. cbn beta. destruct ok.
  2: { apply x_keep; [apply empty_tidy|done|]. intros _. by apply Hno. }
  apply x_keep; [exact HE|done|]. intros ok. destruct ok; [|apply Hno; by intros ? []].
  eapply triple_bind with (Q := λ _, E).
  { if_case; [|by apply x_end]. apply triple_effect; [exact HE|]. intros h Hh. by destruct (o DownloadSnap). }
  intros ok. destruct ok; [|apply Hno; by intros ? []]. apply t_boot. unfold al. by intros ->.
Qed.

(** The whole: what the sandbox has, or that nothing of it is left. *)
Definition outcome_ok (a : answer) (h : host) : Prop :=
  (tidy o) h ∧
  match a with
  | Up m => came_up m h ∧ settings h = true ∧ (o Lease = Done → lease h = true)
  | Down _ => down h ∧ (refused o F r = None →
      (o CleanSlot = Done → slot h = None) ∧ (o CleanRow = Done → row h = None) ∧
      (o CleanDir = Done → vmdir h = false ∧ disk h = None))
  end.

Lemma t_Create : triple empty (Create o F r) outcome_ok (tidy o).
Proof.
  unfold Create, outcome_ok. destruct (refused o F r).
  { apply x_end. intros h Hh. split; [by apply empty_tidy|]. split; [by apply empty_down|done]. }
  eapply triple_bind; [apply t_body|]. intros [m|e]; cbn beta.
  - apply triple_start. intros h (Ht & _ & _ & Hup). apply x_act; [done|]. cbn beta.
    apply x_call; [done|..]; intros El; apply x_ret; by split_and!.
  - apply triple_conseq with (P' := down) (Q' := λ a h, (tidy o) h ∧ match a with Up _ => False | Down _ => down h ∧ (o CleanSlot = Done → slot h = None) ∧ (o CleanRow = Done → row h = None) ∧
      (o CleanDir = Done → vmdir h = false ∧ disk h = None) end) (R' := (tidy o)); [|by intros ? (_ & _ & _ & ?)| |done].
    2: { intros [m|e'] h [Ht Hh]; [done|]. split; [done|]. naive_solver. }
    apply triple_start. intros h Hh. pose proof (down_tidy _ Hh).
    assert (Hem : ∀ h', proc h' = proc h → driver h' = driver h → (tidy o) h').
    { intros h' E Ed. apply down_tidy in Hh as Hh'. destruct Hh as ([Hp|Hst] & Hdr & _); [apply tidy_no_proc; congruence|].
      intros v _. right; right. split; [congruence|done]. }
    apply x_call; [done|..]; intros E1; cbn beta.
    all: apply x_call; [by apply Hem|..]; intros E2; cbn beta.
    all: apply x_call; [by apply Hem|..]; intros E3; cbn beta.
    all: apply x_ret; split; [by apply Hem|].
    all: by split_and!.
Qed.
End outcome.

(** ** How many effects a create has *)


Section takes.
Context {A : Type}.
Implicit Types (c : C host A).
End takes.


Section counts.
Context (o : site → outcome) (F : facts) (r : CreateRequest).
End counts.

(** ** What a create does *)

(** A host with nothing of the sandbox, its volume aside. *)
Definition fresh (v : bool) : host := mkHost None None false None false false None false v false false false.
Lemma fresh_empty v : empty (fresh v).
Proof. done. Qed.

(** What a run leaves, whether it is killed or not. *)
Lemma run_ends o F r n v :
  let '(x, h) := Create o F r n (fresh v) in
  tidy o h ∧ match x with Some (a, _) => outcome_ok o F r a h | None => True end.
Proof.
  pose proof (t_Create o F r n (fresh v) (fresh_empty v)) as H.
  destruct (Create o F r n (fresh v)) as [[[a m]|] h]; [|done]. split; [apply H|exact H].
Qed.

(** An agent with NATID and a baked template, and a host without either. *)
Definition natid_host : facts :=
  mkFacts true true true (mkSize 2 2048 8) (λ _, true) true true false true false true None false (λ _ _, true).
Definition plain_host : facts :=
  mkFacts false true true (mkSize 2 2048 8) (λ _, true) false false false true false true None false (λ _ _, true).
Definition of_template (t : string) : CreateRequest := mkCreate t 0 0 0 "" {["workspace" := "w"]} [] None false.
Definition of_snapshot : CreateRequest := mkCreate "" 0 0 0 "s" {["workspace" := "w"]} [] None false.
Definition all_done : site → outcome := λ _, Done.

(** C33. Whenever the agent is killed in a create, and when the create is over,
    the network of a Firecracker process it started is the one the pool holds
    for that sandbox, or none where the pool refused an address after the NATID
    one was given back, so that no other sandbox can be given the addresses of a
    running machine; unless the process is what a start has left that failed
    half way and that the code does not stop (the cold boot's, or the load of a
    snapshot with NATID), for which no driver is registered. *)
Theorem vm_keeps_its_slot o F r n v x h :
  Create o F r n (fresh v) = (x, h) →
  ∀ p, proc h = Some p →
    v_net p = slot h ∨ v_net p = None ∧ o AllocAgain ≠ Done ∨ driver h = false ∧ (o LoadSnap = Half ∨ o Start = Half).
Proof. intros E. pose proof (run_ends o F r n v) as H. rewrite E in H. apply H. Qed.
Lemma vm_keeps_its_slot_witness :
  let h := (Create all_done natid_host (of_template "base") 12%nat (fresh false)).2 in
  proc h = Some (mkVm (Some NATID) (Some OfBake) NoData true) ∧ slot h = Some NATID ∧
  (v_net (mkVm (Some NATID) (Some OfBake) NoData true) = slot h ∨
   v_net (mkVm (Some NATID) (Some OfBake) NoData true) = None ∧ all_done AllocAgain ≠ Done ∨
   driver h = false ∧ (all_done LoadSnap = Half ∨ all_done Start = Half)).
Proof.
  cbv zeta. split; [vm_compute; reflexivity|]. split; [vm_compute; reflexivity|].
  apply (vm_keeps_its_slot all_done natid_host (of_template "base") 12%nat false
    (Create all_done natid_host (of_template "base") 12%nat (fresh false)).1); vm_compute; reflexivity.
Defined.


(** ** What the code does that it does not mean to *)

Definition ends (o : site → outcome) (F : facts) (r : CreateRequest) (v : bool) : option answer * host :=
  let '(x, h) := Create o F r 61%nat (fresh v) in (fst <$> x, h).
Definition fails (l : site → bool) : site → outcome := λ s, if l s then Fails else Done.
Definition halves (l : site → bool) : site → outcome := λ s, if l s then Half else Done.

(** The NATID path inserts no row at first, and what it falls back to only
    updates one: the sandbox runs without a row. *)
Lemma fallback_has_no_row :
  let d := ends (fails (λ s, match s with LoadNATID => true | _ => false end)) natid_host (of_template "base") false in
  d.1 = Some (Up SnapshotV1) ∧ driver d.2 = true ∧ row d.2 = None.
Proof. cbv zeta. split_and!; vm_compute; reflexivity. Qed.
(** So does one whose row could not be inserted. *)
Lemma unseen_row_failure :
  let d := ends (fails (λ s, match s with RowInsert => true | _ => false end)) natid_host (of_template "base") false in
  d.1 = Some (Up SnapshotNATID) ∧ driver d.2 = true ∧ row d.2 = None.
Proof. cbv zeta. split_and!; vm_compute; reflexivity. Qed.
(** [alloc, _ = m.netPool.Allocate(ctx, id)]: an address refused goes unseen, and
    the machine is started on an empty network. *)
Lemma boots_without_network :
  let d := ends (fails (λ s, match s with LoadNATID | AllocAgain => true | _ => false end)) natid_host (of_template "base") false in
  d.1 = Some (Up SnapshotV1) ∧ (v_net <$> proc d.2) = Some None ∧ slot d.2 = None.
Proof. cbv zeta. split_and!; vm_compute; reflexivity. Qed.
(** A database whose NATID restore fails is restored without its durable volume,
    what the refusal a few lines above is there to prevent. *)
Lemma database_without_volume :
  let d := ends (fails (λ s, match s with LoadNATID => true | _ => false end)) natid_host (of_template "postgres-16") false in
  d.1 = Some (Up SnapshotV1) ∧ (v_data <$> proc d.2) = Some NoData ∧ vol d.2 = true.
Proof. cbv zeta. split_and!; vm_compute; reflexivity. Qed.
(** startFromTemplateSnapNATID does not wait for its copy when the load fails:
    the fallback writes the same file. *)
Lemma two_copies_one_disk :
  let d := ends (fails (λ s, match s with LoadNATID => true | _ => false end)) natid_host (of_template "base") false in
  d.1 = Some (Up SnapshotV1) ∧ (v_root <$> proc d.2) = Some (Some Mixed).
Proof. cbv zeta. split_and!; vm_compute; reflexivity. Qed.
(** A volume that could not be attached leaves its dm-snapshot. *)
Lemma dm_snapshot_left :
  let d := ends (fails (λ s, match s with Reflink | PatchData => true | _ => false end))
    (mkFacts true true true (mkSize 2 2048 8) (λ _, true) true true false true false true None false (λ _ _, true)) (of_template "postgres-16") false in
  d.1 = Some (Up SnapshotV1) ∧ dm d.2 = true ∧ (v_root <$> proc d.2) = Some (Some OfBake).
Proof. cbv zeta. split_and!; vm_compute; reflexivity. Qed.
(** A cold boot that fails deletes the durable volume, one that was there before
    included. *)
Lemma failed_boot_deletes_the_volume :
  let d := ends (fails (λ s, match s with Start => true | _ => false end)) plain_host (of_template "postgres-16") true in
  d.1 = Some (Down Failed) ∧ vol d.2 = false.
Proof. cbv zeta. split_and!; vm_compute; reflexivity. Qed.
(** A driver whose start fails half way leaves its process; the address is given
    back under it. *)
Lemma half_start_keeps_running :
  let d := ends (halves (λ s, match s with Start => true | _ => false end)) plain_host (of_template "base") false in
  d.1 = Some (Down Failed) ∧ (v_net <$> proc d.2) = Some (Some Legacy) ∧ slot d.2 = None.
Proof. cbv zeta. split_and!; vm_compute; reflexivity. Qed.

(** A snapshot's host: the metadata, and whether it is NATID. *)
Definition snapshot_host (m : Meta) (disk_here : bool) : facts :=
  mkFacts true true true (mkSize 2 2048 8) (λ _, true) true true false true true true (Some m) disk_here (λ _ _, true).
(** The restore of a NATID snapshot gives the network back under a process whose
    load failed: it has been killed, but nobody has waited for its end. *)
Lemma half_load_keeps_running :
  let d := ends (halves (λ s, match s with LoadSnap => true | _ => false end)) (snapshot_host (mkMeta "base" true true true true) true) of_snapshot false in
  d.1 = Some (Down Failed) ∧ (v_net <$> proc d.2) = Some (Some NATID) ∧ slot d.2 = None.
Proof. cbv zeta. split_and!; vm_compute; reflexivity. Qed.
(** A snapshot restored where its origin's disk is a file: the two share it. *)
Lemma restore_shares_the_disk :
  let d := ends all_done (snapshot_host (mkMeta "base" false true true false) true) of_snapshot false in
  d.1 = Some (Up Snapshot) ∧ (v_root <$> proc d.2) = Some (Some Shared) ∧ disk d.2 = Some OfSnapshot.
Proof. cbv zeta. split_and!; vm_compute; reflexivity. Qed.
(** The copy of a database has the data of the database it was made of on vol1. *)
Lemma restored_database_shares_the_volume :
  let d := ends all_done (snapshot_host (mkMeta "postgres-16" true true true true) true) of_snapshot false in
  d.1 = Some (Up Snapshot) ∧ (v_data <$> proc d.2) = Some OriginVolume.
Proof. cbv zeta. split_and!; vm_compute; reflexivity. Qed.
(** The child of a fork that does not come up keeps its address and its row. *)
Lemma failed_child_keeps_its_slot :
  let d := (spawnChildFromRootfs (fails (λ s, match s with CopyRootfs => true | _ => false end)) 10%nat (fresh false)) in
  (fst <$> d.1) = Some (Down Failed) ∧ slot d.2 = Some Legacy ∧ row d.2 = Some (RCreating, Some Legacy) ∧ vmdir d.2 = true.
Proof. cbv zeta. split_and!; vm_compute; reflexivity. Qed.
(** Whatever a snapshot is of, it is admitted with the memory of the request. *)
Lemma snapshot_admitted_with_256 F r :
  FromSnapshot r ≠ "" → MemoryMB r = 0 → effective_memory F r = 256.
Proof.
  intros Hs Hm. unfold effective_memory, fromSnapshot. rewrite Hm.
  destruct (String.eqb_spec (FromSnapshot r) ""); [done|]. by destruct (negb (String.eqb (Template r) "")).
Qed.
