(* ===== verification/DmSnap.v ===== *)
(** Copy-on-write root disks: DMSnapManager of agent/internal/sandbox/dmsnap.go.
    The manager's maps and the kernel's devices are one state; every operation is
    a thread that goes on by one critical section or one call at a time, so that
    creates, removals, (re-)initialisations of a base and the watchdog interleave
    as they do in the agent.  A loop or NBD device is named by the attach that
    made it. *)

From S2P Require Import Prelude.
From stdpp Require Import gmap sets strings.

Open Scope string_scope.
Open Scope list_scope.
Open Scope Z_scope.
#[local] Set Warnings "-clear-no-such-hyp".

(** ** The state *)

(** [path]: the file of a loop, the generation of a streamed base. *)
Record baseRef := mkBase { loopDev : nat; path : string; mtime : Z; refs : Z; nbdOrigin : bool }.
Record snapEntry := mkSnap { template : string; dmName : string; cowLoop : nat; cowPath : string }.

(** *** longID *)
Fixpoint no_dashes (s : string) : string :=
  match s with
  | EmptyString => EmptyString
  | String c s => if Ascii.eqb c (Ascii.ascii_of_nat 45) then no_dashes s else String c (no_dashes s)
  end.
Definition longID (id : string) : string := String.substring 0 16 (no_dashes id).
Definition dmNamePrefix : string := "pdssnap-".
Definition dm_name (id : string) : string := dmNamePrefix +:+ longID id.
#[global] Arguments dm_name : simpl never.

(** What an operation is about to do. *)
Inductive thread :=
  (* EnsureBase and its two ways; [fb] is the local file to fall back to *)
  | InitStreamingBase (tpl gen fb : string)
  | StreamDetach (tpl gen fb : string) (old : baseRef)
  | StreamOpen (tpl gen fb : string)
  | StreamAdd (tpl gen : string) (dev : nat)
  | InitBase (tpl file : string)
  | LoopDetach (tpl file : string) (mt : Z) (old : nat)
  | LoopAttach (tpl file : string) (mt : Z)
  | LoopAdd (tpl file : string) (mt : Z) (dev : nat)
  (* CreateSnap: [b] is the pointer to the base *)
  | CreateSnap (tpl id : string)
  | SnapFile (tpl id : string) (b dev : nat)
  | SnapLoop (tpl id : string) (b dev : nat)
  | SnapSize (tpl id : string) (b dev cow : nat)
  | SnapDm (tpl id : string) (b dev cow : nat)
  | SnapAdd (tpl id : string) (b dev cow : nat)
  | SnapUndo (tpl id : string) (b : nat) (cow : option nat)
  | SnapDecr (tpl : string) (b : nat)
  (* RemoveSnap *)
  | RemoveSnap (id : string)
  | RemoveDm (e : snapEntry)
  | RemoveLoop (e : snapEntry)
  | RemoveFile (e : snapEntry)
  (* reapStalledBases, after its critical section *)
  | Reap (l : list baseRef).

Record world := mkWorld {
  bases : gmap string nat;            (* template -> pointer *)
  heap : gmap nat baseRef;
  snaps : gmap string snapEntry;      (* sandbox -> entry *)
  threads : gmap nat thread;
  devs : gset nat;                    (* base devices attached: loops and NBD *)
  cows : gset nat;                    (* loops over copy-on-write files *)
  dms : gmap string (nat * nat);      (* dm name -> origin, copy-on-write loop *)
  files : gset string;                (* copy-on-write files *)
  next : nat;
}.
Definition set_bases x w := mkWorld x (heap w) (snaps w) (threads w) (devs w) (cows w) (dms w) (files w) (next w).
Definition set_heap x w := mkWorld (bases w) x (snaps w) (threads w) (devs w) (cows w) (dms w) (files w) (next w).
Definition set_snaps x w := mkWorld (bases w) (heap w) x (threads w) (devs w) (cows w) (dms w) (files w) (next w).
Definition set_threads x w := mkWorld (bases w) (heap w) (snaps w) x (devs w) (cows w) (dms w) (files w) (next w).
Definition set_devs x w := mkWorld (bases w) (heap w) (snaps w) (threads w) x (cows w) (dms w) (files w) (next w).
Definition set_cows x w := mkWorld (bases w) (heap w) (snaps w) (threads w) (devs w) x (dms w) (files w) (next w).
Definition set_dms x w := mkWorld (bases w) (heap w) (snaps w) (threads w) (devs w) (cows w) x (files w) (next w).
Definition set_files x w := mkWorld (bases w) (heap w) (snaps w) (threads w) (devs w) (cows w) (dms w) x (next w).
Definition set_next x w := mkWorld (bases w) (heap w) (snaps w) (threads w) (devs w) (cows w) (dms w) (files w) x.
Definition w0 : world := mkWorld ∅ ∅ ∅ ∅ ∅ ∅ ∅ ∅ 0.

(** [base.refs++], [base.refs--] through the pointer. *)
Definition add_refs (b : nat) (n : Z) (w : world) : world :=
  set_heap (alter (λ r, mkBase (loopDev r) (path r) (mtime r) (refs r + n) (nbdOrigin r)) b (heap w)) w.
Definition base_of (tpl : string) (w : world) : option baseRef := b ← bases w !! tpl; heap w !! b.
Definition drop_base (tpl : string) (w : world) : world := set_bases (delete tpl (bases w)) w.
(** [d.bases[template] = &baseRef{...}] *)
Definition put_base (tpl : string) (r : baseRef) (w : world) : world :=
  set_next (S (next w)) (set_bases (<[tpl := next w]> (bases w)) (set_heap (<[next w := r]> (heap w)) w)).
Definition attach (w : world) : world := set_next (S (next w)) (set_devs ({[next w]} ∪ devs w) w).
Definition detach (d : nat) (w : world) : world := set_devs (devs w ∖ {[d]}) w.

(** ** The operations *)

(** EnsureBase: the thread it starts. *)
Definition EnsureBase (stream sidecar : bool) (tpl file gen : string) : thread :=
  if stream && sidecar then InitStreamingBase tpl gen file else InitBase tpl file.

(** The critical sections: InitStreamingBase finds a base, *)
Definition stream_init (tpl gen fb : string) (w : world) : world * option thread :=
  match base_of tpl w with
  | Some r =>
      if nbdOrigin r && String.eqb (path r) gen then (w, None)
      else if 0 <? refs r then (w, None)
      else (drop_base tpl w, Some (StreamDetach tpl gen fb r))
  | None => (w, Some (StreamOpen tpl gen fb))
  end.
(** InitBase, once the file is there, *)
Definition loop_init (tpl file : string) (mt : Z) (w : world) : world * option thread :=
  match base_of tpl w with
  | Some r =>
      if String.eqb (path r) file && (mtime r =? mt) then (w, None)
      else if 0 <? refs r then (w, None)
      else (drop_base tpl w, Some (LoopDetach tpl file mt (loopDev r)))
  | None => (w, Some (LoopAttach tpl file mt))
  end.
(** CreateSnap claims it, and RemoveSnap lets it go. *)
Definition snap_claim (tpl id : string) (w : world) : world * option thread :=
  match bases w !! tpl with
  | Some b =>
      match heap w !! b with
      | Some r => (add_refs b 1 w, Some (SnapFile tpl id b (loopDev r)))
      | None => (w, None)
      end
  | None => (w, None)
  end.
Definition snap_release (id : string) (w : world) : world * option thread :=
  match snaps w !! id with
  | Some e =>
      let w := set_snaps (delete id (snaps w)) w in
      (match bases w !! template e with Some b => add_refs b (-1) w | None => w end, Some (RemoveDm e))
  | None => (w, None)
  end.

(** One step of a thread; [ok] and [mt] are what the call it makes answers: that
    it worked, and the modification time of the file it is about, 0 when there is
    none.  createSparseFile may fail with the file made (its Truncate), and the
    removal of a file may fail: [mt] is that of the file that stays. *)
Definition go (ok : bool) (mt : Z) (t : thread) (w : world) : world * option thread :=
  match t with
  | InitStreamingBase tpl gen fb => stream_init tpl gen fb w
  | StreamDetach tpl gen fb r => (if ok then detach (loopDev r) w else w, Some (StreamOpen tpl gen fb))
  | StreamOpen tpl gen fb =>
      if ok then (attach w, Some (StreamAdd tpl gen (next w)))
      else (w, if String.eqb fb "" then None else Some (InitBase tpl fb))
  | StreamAdd tpl gen d => (put_base tpl (mkBase d gen mt 0 true) w, None)
  | InitBase tpl file => if ok then loop_init tpl file mt w else (w, None)
  | LoopDetach tpl file m d => (if ok then detach d w else w, Some (LoopAttach tpl file m))
  | LoopAttach tpl file m => if ok then (attach w, Some (LoopAdd tpl file m (next w))) else (w, None)
  | LoopAdd tpl file m d => (put_base tpl (mkBase d file m 0 false) w, None)
  | CreateSnap tpl id => snap_claim tpl id w
  | SnapFile tpl id b d =>
      if ok then (set_files ({[id]} ∪ files w) w, Some (SnapLoop tpl id b d))
      else (if mt =? 0 then w else set_files ({[id]} ∪ files w) w, Some (SnapDecr tpl b))
  | SnapLoop tpl id b d =>
      if ok then (set_next (S (next w)) (set_cows ({[next w]} ∪ cows w) w), Some (SnapSize tpl id b d (next w)))
      else (w, Some (SnapUndo tpl id b None))
  | SnapSize tpl id b d c => (w, Some (if ok then SnapDm tpl id b d c else SnapUndo tpl id b (Some c)))
  | SnapDm tpl id b d c =>
      if ok && bool_decide (dms w !! dm_name id = None)
      then (set_dms (<[dm_name id := (d, c)]> (dms w)) w, Some (SnapAdd tpl id b d c))
      else (w, Some (SnapUndo tpl id b (Some c)))
  | SnapAdd tpl id b d c => (set_snaps (<[id := mkSnap tpl (dm_name id) c id]> (snaps w)) w, None)
  | SnapUndo tpl id b c =>
      let w := if ok then match c with Some c => set_cows (cows w ∖ {[c]}) w | None => w end else w in
      (if mt =? 0 then set_files (files w ∖ {[id]}) w else w, Some (SnapDecr tpl b))
  | SnapDecr tpl b => (add_refs b (-1) w, None)
  | RemoveSnap id => snap_release id w
  | RemoveDm e => (if ok then set_dms (delete (dmName e) (dms w)) w else w, Some (RemoveLoop e))
  | RemoveLoop e => (if ok then set_cows (cows w ∖ {[cowLoop e]}) w else w, Some (RemoveFile e))
  | RemoveFile e => (if ok then set_files (files w ∖ {[cowPath e]}) w else w, None)
  | Reap l =>
      match l with
      | [] => (w, None)
      | r :: l => (if ok then detach (loopDev r) w else w, Some (Reap l))
      end
  end.

(** reapStalledBases: the critical section; [stalled] says which origins are
    wedged. *)
Definition stalled_bases (stalled : string → bool) (w : world) : list (string * baseRef) :=
  omap (λ '(tpl, b), r ← heap w !! b; if nbdOrigin r && stalled tpl then Some (tpl, r) else None) (map_to_list (bases w)).
Definition reapStalledBases (stalled : string → bool) (w : world) : world * thread :=
  (foldr (λ v, drop_base v.1) w (stalled_bases stalled w), Reap (map snd (stalled_bases stalled w))).

(** CleanupStale: the devices of an earlier agent; [removed] says which let go. *)
Definition CleanupStale (removed : string → bool) (w : world) : world :=
  set_dms (filter (λ '(n, _), ¬ (String.prefix dmNamePrefix n = true ∧ removed n = true)) (dms w)) w.
(** An agent that starts: nothing of the maps is left. *)
Definition restart (removed : string → bool) (w : world) : world :=
  CleanupStale removed (mkWorld ∅ ∅ ∅ ∅ (devs w) (cows w) (dms w) (files w) (next w)).

(** Shutdown, under the lock. *)
Definition Shutdown (ok : bool) (w : world) : world :=
  set_bases ∅ (if ok then set_devs (devs w ∖ list_to_set (omap (λ b, loopDev <$> heap w !! b) (map snd (map_to_list (bases w))))) w else w).

(** ** Runs *)

Inductive event :=
  | Spawn (i : nat) (t : thread)
  | Go (i : nat) (ok : bool) (mt : Z)
  | Watchdog (i : nat) (stalled : string → bool)
  | Restart (removed : string → bool).

(** How an operation starts. *)
Definition starts (t : thread) : bool :=
  match t with InitStreamingBase _ _ _ | InitBase _ _ | CreateSnap _ _ | RemoveSnap _ => true | _ => false end.

Definition put (i : nat) (p : world * option thread) : world :=
  set_threads (match p.2 with Some t => <[i := t]> (threads p.1) | None => delete i (threads p.1) end) p.1.
Definition step (e : event) (w : world) : world :=
  match e with
  | Spawn i t => if bool_decide (threads w !! i = None) && starts t then set_threads (<[i := t]> (threads w)) w else w
  | Go i ok mt => match threads w !! i with Some t => put i (go ok mt t w) | None => w end
  | Watchdog i stalled =>
      if bool_decide (threads w !! i = None)
      then let '(w', t) := reapStalledBases stalled w in set_threads (<[i := t]> (threads w')) w'
      else w
  | Restart removed => restart removed w
  end.
Definition run (l : list event) (w : world) : world := foldl (λ w e, step e w) w l.

(** The template an initialisation is of. *)
Definition init_of (t : thread) : option string :=
  match t with
  | InitStreamingBase tpl _ _ | StreamDetach tpl _ _ _ | StreamOpen tpl _ _ | StreamAdd tpl _ _
  | InitBase tpl _ | LoopDetach tpl _ _ _ | LoopAttach tpl _ _ | LoopAdd tpl _ _ _ => Some tpl
  | _ => None
  end.
(** Runs without watchdog recoveries, in which a template is initialised by one
    thread at a time. *)
Definition calm (w : world) (e : event) : Prop :=
  match e with
  | Watchdog _ _ => False
  | Spawn _ t => ∀ tpl i' t', init_of t = Some tpl → threads w !! i' = Some t' → init_of t' ≠ Some tpl
  | _ => True
  end.
Inductive reachable : world → Prop :=
  | reach_0 : reachable w0
  | reach_step w e : reachable w → calm w e → reachable (step e w).

(** ** The invariant *)

Definition owner : Type := nat + string.
(** No two of them have the same. *)
Definition uniq {O A} (f : O → option A) : Prop := ∀ o o' x, f o = Some x → f o' = Some x → o = o'.

(** The template whose base a create holds. *)
Definition hold_t (t : thread) : option string :=
  match t with
  | SnapFile tpl _ _ _ | SnapLoop tpl _ _ _ | SnapSize tpl _ _ _ _ | SnapDm tpl _ _ _ _ | SnapAdd tpl _ _ _ _
  | SnapUndo tpl _ _ _ | SnapDecr tpl _ => Some tpl
  | _ => None
  end.
Definition hold (w : world) (o : owner) : option string :=
  match o with inl i => threads w !! i ≫= hold_t | inr s => template <$> snaps w !! s end.
(** The dm device an operation has made and not registered, or not yet removed. *)
Definition name_t (t : thread) : option string :=
  match t with SnapAdd _ id _ _ _ => Some (dm_name id) | RemoveDm e => Some (dmName e) | _ => None end.
Definition names (w : world) (o : owner) : option string :=
  match o with inl i => threads w !! i ≫= name_t | inr s => dmName <$> snaps w !! s end.
(** The base device an initialisation has in hand, and those of the bases. *)
Definition dev_t (t : thread) : option nat :=
  match t with
  | StreamDetach _ _ _ r => Some (loopDev r)
  | StreamAdd _ _ d | LoopDetach _ _ _ d | LoopAdd _ _ _ d => Some d
  | _ => None
  end.
Definition devices (w : world) (o : owner) : option nat :=
  match o with inl i => threads w !! i ≫= dev_t | inr tpl => loopDev <$> base_of tpl w end.

(** The base a create holds is the template's, and has the device it read. *)
Definition holds (w : world) (tpl : string) (b : nat) (d : option nat) : Prop :=
  bases w !! tpl = Some b ∧ ∃ r, heap w !! b = Some r ∧ (∀ x, d = Some x → loopDev r = x).
Definition thread_ok (w : world) (t : thread) : Prop :=
  match t with
  | StreamDetach tpl _ _ _ | StreamOpen tpl _ _ | LoopDetach tpl _ _ _ | LoopAttach tpl _ _ => bases w !! tpl = None
  | StreamAdd tpl _ d | LoopAdd tpl _ _ d => bases w !! tpl = None ∧ d ∈ devs w
  | SnapFile tpl _ b d | SnapLoop tpl _ b d | SnapSize tpl _ b d _ | SnapDm tpl _ b d _ => holds w tpl b (Some d)
  | SnapAdd tpl id b d c => holds w tpl b (Some d) ∧ dms w !! dm_name id = Some (d, c)
  | SnapUndo tpl _ b _ | SnapDecr tpl b => holds w tpl b None
  | RemoveDm e => is_Some (dms w !! dmName e)
  | Reap _ => False
  | _ => True
  end.
Definition snap_ok (w : world) (s : string) (e : snapEntry) : Prop :=
  dmName e = dm_name s ∧ ∃ r, base_of (template e) w = Some r ∧ dms w !! dmName e = Some (loopDev r, cowLoop e).

Definition counts (w : world) : Prop := ∃ G : gmap owner string,
  (∀ o, G !! o = hold w o) ∧
  ∀ tpl r, base_of tpl w = Some r → refs r = Z.of_nat (size (filter (λ x, x.2 = tpl) G)).

Record Inv (w : world) : Prop := {
  v_counts : counts w;
  v_base : ∀ tpl b, bases w !! tpl = Some b → ∃ r, heap w !! b = Some r ∧ loopDev r ∈ devs w;
  v_ptr : uniq (λ tpl, bases w !! tpl);
  v_heap : ∀ b, (next w ≤ b)%nat → heap w !! b = None;
  v_next : ∀ o d, devices w o = Some d → (d < next w)%nat;
  v_devs : uniq (devices w);
  v_names : uniq (names w);
  v_inits : uniq (λ i, threads w !! i ≫= init_of);
  v_threads : ∀ i t, threads w !! i = Some t → thread_ok w t;
  v_snaps : ∀ s e, snaps w !! s = Some e → snap_ok w s e;
}.

Section uniq.
Context {O A : Type} `{EqDecision O}.
Implicit Types (f g : O → option A).
(** One owner changes what it has. *)
Lemma uniq_upd f g o : uniq f → (∀ o', o' ≠ o → g o' = f o') → (∀ x, g o = Some x → ∀ o', o' ≠ o → f o' ≠ Some x) → uniq g.
Proof.
  intros Hf Hg Ho o1 o2 x H1 H2. destruct (decide (o1 = o)) as [->|N1], (decide (o2 = o)) as [->|N2]; [done|..].
  - rewrite (Hg _ N2) in H2. by destruct (Ho _ H1 _ N2).
  - rewrite (Hg _ N1) in H1. by destruct (Ho _ H2 _ N1).
  - rewrite (Hg _ N1) in H1. rewrite (Hg _ N2) in H2. eauto.
Qed.
(** What one had goes to another. *)
Lemma uniq_move f g o o' : uniq f → g o = None → g o' = f o → (∀ p, p ≠ o → p ≠ o' → g p = f p) → uniq g.
Proof.
  intros Hf Ho Ho' Hg. assert (Hx : ∀ p x, g p = Some x → ∃ q, f q = Some x ∧ (p = o' ∧ q = o ∨ p ≠ o' ∧ q = p ∧ p ≠ o)).
  { intros p x Hp. destruct (decide (p = o')) as [->|]; [exists o; rewrite <- Ho'; auto|].
    destruct (decide (p = o)) as [->|]; [congruence|]. exists p. rewrite <- Hg by done. auto. }
  intros p1 p2 x H1 H2. destruct (Hx _ _ H1) as (q1 & E1 & C1), (Hx _ _ H2) as (q2 & E2 & C2).
  pose proof (Hf _ _ _ E1 E2). naive_solver.
Qed.
Lemma uniq_sub f g : uniq f → (∀ o x, g o = Some x → f o = Some x) → uniq g.
Proof. intros Hf Hg o o' x H1 H2. eauto. Qed.
End uniq.

(** *** The holders of a base *)

Definition count (G : gmap owner string) (tpl : string) : nat := size (filter (λ x, x.2 = tpl) G).
Lemma holders_insert G o t tpl : G !! o = None → count (<[o := t]> G) tpl = (count G tpl + if decide (t = tpl) then 1 else 0)%nat.
Proof.
  intros H. unfold count. destruct (decide (t = tpl)) as [<-|N].
  - rewrite map_filter_insert_True by done. rewrite map_size_insert_None; [lia|]. apply map_lookup_filter_None. by left.
  - rewrite map_filter_insert_False by done. rewrite delete_id by done. lia.
Qed.
Lemma holders_delete G o t tpl : G !! o = Some t → count G tpl = (count (delete o G) tpl + if decide (t = tpl) then 1 else 0)%nat.
Proof. intros H. rewrite <- (insert_delete_id G o t H) at 1. apply holders_insert, lookup_delete_eq. Qed.
Lemma holders_none G tpl : count G tpl = 0%nat → ∀ o, G !! o ≠ Some tpl.
Proof.
  intros H o Ho. apply map_size_empty_inv in H. assert (E : filter (λ x : owner * string, x.2 = tpl) G !! o = Some tpl) by by apply map_lookup_filter_Some.
  by rewrite H in E.
Qed.

Section counts.
Context (w w' : world).
Lemma counts_same :
  (∀ o, hold w' o = hold w o) →
  (∀ tpl r, base_of tpl w' = Some r → (∃ r0, base_of tpl w = Some r0 ∧ refs r = refs r0) ∨ refs r = 0 ∧ ∀ o, hold w o ≠ Some tpl) →
  counts w → counts w'.
Proof.
  intros Hh Hr (G & HG & Hc). exists G. split; [intros o; by rewrite Hh|]. intros tpl r E.
  destruct (Hr tpl r E) as [(r0 & E0 & ->)|[-> Hn]]; [auto|]. fold (count G tpl).
  assert (count G tpl = 0%nat) as ->; [|done]. unfold count. apply map_size_empty_iff, map_empty. intros o.
  apply map_lookup_filter_None. right. intros t Ht Et. simpl in Et. subst t. apply (Hn o). by rewrite <- HG.
Qed.
Lemma counts_add o t :
  hold w o = None → hold w' o = Some t → (∀ p, p ≠ o → hold w' p = hold w p) →
  (∀ tpl r, base_of tpl w' = Some r → ∃ r0, base_of tpl w = Some r0 ∧ refs r = refs r0 + if decide (t = tpl) then 1 else 0) →
  counts w → counts w'.
Proof.
  intros H0 H1 Hh Hr (G & HG & Hc). exists (<[o := t]> G). split.
  - intros p. destruct (decide (p = o)) as [->|]; [by rewrite lookup_insert_eq|]. rewrite lookup_insert_ne by done. by rewrite Hh.
  - intros tpl r E. destruct (Hr tpl r E) as (r0 & E0 & ->). rewrite (Hc _ _ E0). fold (count G tpl) (count (<[o := t]> G) tpl).
    rewrite holders_insert by by rewrite HG. case_decide; lia.
Qed.
Lemma counts_del o t :
  hold w o = Some t → hold w' o = None → (∀ p, p ≠ o → hold w' p = hold w p) →
  (∀ tpl r, base_of tpl w' = Some r → ∃ r0, base_of tpl w = Some r0 ∧ refs r = refs r0 - if decide (t = tpl) then 1 else 0) →
  counts w → counts w'.
Proof.
  intros H0 H1 Hh Hr (G & HG & Hc). exists (delete o G). split.
  - intros p. destruct (decide (p = o)) as [->|]; [by rewrite lookup_delete_eq|]. rewrite lookup_delete_ne by done. by rewrite Hh.
  - intros tpl r E. destruct (Hr tpl r E) as (r0 & E0 & ->). rewrite (Hc _ _ E0). fold (count G tpl) (count (delete o G) tpl).
    rewrite (holders_delete G o t) by by rewrite HG. case_decide; lia.
Qed.
Lemma counts_move o o' t :
  o ≠ o' → hold w o = Some t → hold w o' = None → hold w' o = None → hold w' o' = Some t → (∀ p, p ≠ o → p ≠ o' → hold w' p = hold w p) →
  (∀ tpl r, base_of tpl w' = Some r → base_of tpl w = Some r) →
  counts w → counts w'.
Proof.
  intros Ho H0 H1 H2 H3 Hh Hr (G & HG & Hc). exists (<[o' := t]> (delete o G)). split.
  - intros p. destruct (decide (p = o')) as [->|]; [by rewrite lookup_insert_eq|]. rewrite lookup_insert_ne by done.
    destruct (decide (p = o)) as [->|]; [by rewrite lookup_delete_eq|]. rewrite lookup_delete_ne by done. by rewrite Hh.
  - intros tpl r E. rewrite (Hc _ _ (Hr _ _ E)). fold (count G tpl) (count (<[o' := t]> (delete o G)) tpl).
    rewrite holders_insert by (rewrite lookup_delete_ne by done; by rewrite HG). rewrite (holders_delete G o t) by by rewrite HG. done.
Qed.
End counts.

(** *** Steps that keep the bases *)

Definition same_bases (w w' : world) : Prop :=
  bases w' = bases w ∧ (∀ b, loopDev <$> heap w' !! b = loopDev <$> heap w !! b) ∧ devs w ⊆ devs w' ∧ (next w ≤ next w')%nat.
Definition others (i : nat) (w w' : world) : Prop := ∀ j, j ≠ i → threads w' !! j = threads w !! j.

Lemma same_bases_heap w w' b r : same_bases w w' → heap w' !! b = Some r → ∃ r0, heap w !! b = Some r0 ∧ loopDev r0 = loopDev r.
Proof. intros (_ & H & _) E. specialize (H b). rewrite E in H. destruct (heap w !! b); [|done]. injection H as H. eauto. Qed.
Lemma same_bases_heap' w w' b r : same_bases w w' → heap w !! b = Some r → ∃ r0, heap w' !! b = Some r0 ∧ loopDev r0 = loopDev r.
Proof. intros (_ & H & _) E. specialize (H b). rewrite E in H. destruct (heap w' !! b); [|done]. injection H as H. eauto. Qed.
Lemma same_bases_base w w' tpl r : same_bases w w' → base_of tpl w = Some r → ∃ r0, base_of tpl w' = Some r0 ∧ loopDev r0 = loopDev r.
Proof.
  intros Hs. unfold base_of. rewrite (proj1 Hs). destruct (bases w !! tpl) as [b|]; [|done].
  simpl. by apply same_bases_heap'.
Qed.
Lemma same_bases_dev w w' tpl : same_bases w w' → loopDev <$> base_of tpl w' = loopDev <$> base_of tpl w.
Proof. intros (Eb & Hh & _). unfold base_of. rewrite Eb. destruct (bases w !! tpl); simpl; auto. Qed.
Lemma same_bases_holds w w' tpl b d : same_bases w w' → holds w tpl b d → holds w' tpl b d.
Proof.
  intros Hs (Eb & r & Er & Hd). destruct (same_bases_heap' _ _ _ _ Hs Er) as (r0 & E0 & El). destruct Hs as (E & _).
  split; [by rewrite E|]. exists r0. split; [done|]. intros x Hx. rewrite El. auto.
Qed.
Lemma same_bases_thread w w' t :
  same_bases w w' → (∀ n, name_t t = Some n → dms w' !! n = dms w !! n) → thread_ok w t → thread_ok w' t.
Proof.
  intros Hs Hn H. pose proof Hs as (Eb & _ & Hd & _).
  destruct t; simpl in *; rewrite ?Eb; try done; try (by eapply same_bases_holds);
    try (destruct H as [H1 H2]; split; [|by apply Hd]; exact H1).
  - destruct H as [H1 H2]. split; [by eapply same_bases_holds|]. by rewrite Hn.
  - by rewrite Hn.
Qed.
Lemma same_bases_snap w w' s e : same_bases w w' → dms w' !! dmName e = dms w !! dmName e → snap_ok w s e → snap_ok w' s e.
Proof.
  intros Hs Hd (E & r & Er & Hr). split; [done|]. destruct (same_bases_base _ _ _ _ Hs Er) as (r0 & E0 & El).
  exists r0. by rewrite Hd, El.
Qed.

Lemma inv_keep i w w' :
  Inv w → same_bases w w' → (∀ b, (next w' ≤ b)%nat → heap w' !! b = None) → others i w w' →
  (∀ o n, o ≠ inl i → names w o = Some n → dms w' !! n = dms w !! n) →
  counts w' → uniq (names w') →
  (∀ d, threads w' !! i ≫= dev_t = Some d → threads w !! i ≫= dev_t = Some d ∨ (next w ≤ d < next w')%nat) →
  (∀ tpl, threads w' !! i ≫= init_of = Some tpl → ∀ j, j ≠ i → threads w !! j ≫= init_of ≠ Some tpl) →
  (∀ t, threads w' !! i = Some t → thread_ok w' t) →
  (∀ s e, snaps w' !! s = Some e → snaps w !! s = Some e ∨ snap_ok w' s e) → Inv w'.
Proof.
  intros HI Hs Hh Ho Hd Hc Hn Hdev Hini Ht Hsn. pose proof Hs as (Eb & El & Esub & En).
  assert (Edev : ∀ o, o ≠ inl i → devices w' o = devices w o).
  { intros [j|tpl] N; simpl; [rewrite Ho by congruence; done|by apply same_bases_dev]. }
  assert (Enew : ∀ d, devices w' (inl i) = Some d → devices w (inl i) = Some d ∨ (next w ≤ d < next w')%nat) by exact Hdev.
  split; try done.
  - intros tpl b E. rewrite Eb in E. destruct (v_base _ HI _ _ E) as (r & Er & Hr).
    destruct (same_bases_heap' _ _ _ _ Hs Er) as (r0 & E0 & Ed). exists r0. split; [done|]. rewrite Ed. by apply Esub.
  - rewrite Eb. apply (v_ptr _ HI).
  - intros o d E. destruct (decide (o = inl i)) as [->|N].
    + destruct (Enew _ E) as [E'|]; [|lia]. pose proof (v_next _ HI _ _ E'). lia.
    + rewrite Edev in E by done. pose proof (v_next _ HI _ _ E). lia.
  - apply (uniq_upd (devices w) _ (inl i)); [apply (v_devs _ HI)|exact Edev|].
    intros d E o N E'. destruct (Enew _ E) as [E0|E0]; [by destruct (N (v_devs _ HI _ _ _ E' E0))|].
    pose proof (v_next _ HI _ _ E'). lia.
  - apply (uniq_upd (λ j, threads w !! j ≫= init_of) _ i); [apply (v_inits _ HI)|intros j N; by rewrite Ho|exact Hini].
  - intros j t E. destruct (decide (j = i)) as [->|N]; [auto|]. rewrite Ho in E by done.
    eapply same_bases_thread; [exact Hs| |by apply (v_threads _ HI j)]. intros n En'. apply (Hd (inl j)); [congruence|]. simpl. by rewrite E.
  - intros s e E. destruct (Hsn _ _ E) as [E0|]; [|done]. eapply same_bases_snap; [exact Hs| |by apply (v_snaps _ HI)].
    apply (Hd (inr s)); [done|]. simpl. by rewrite E0.
Qed.

(** A thread that goes on, or ends, with files and loops of its own. *)
Lemma inv_move i w w' x :
  Inv w → bases w' = bases w → heap w' = heap w → devs w' = devs w → dms w' = dms w → snaps w' = snaps w → (next w ≤ next w')%nat →
  threads w' !! i = x → others i w w' →
  x ≫= hold_t = threads w !! i ≫= hold_t →
  (∀ n, x ≫= name_t = Some n → threads w !! i ≫= name_t = Some n) →
  (∀ d, x ≫= dev_t = Some d → threads w !! i ≫= dev_t = Some d) →
  (∀ tpl, x ≫= init_of = Some tpl → ∀ j, j ≠ i → threads w !! j ≫= init_of ≠ Some tpl) →
  (∀ t, x = Some t → thread_ok w t) → Inv w'.
Proof.
  intros HI Eb Eh Ed Em Es En <- Ho Hho Hna Hde Hin Hok.
  assert (Hs : same_bases w w') by (split_and!; [done|by rewrite Eh|by rewrite Ed|done]).
  assert (Eho : ∀ o, hold w' o = hold w o).
  { intros [j|s]; simpl; [|by rewrite Es]. destruct (decide (j = i)) as [->|]; [done|by rewrite Ho]. }
  assert (Ebo : ∀ tpl, base_of tpl w' = base_of tpl w) by (intros tpl; unfold base_of; by rewrite Eb, Eh).
  apply (inv_keep i w); try done.
  - intros b Hb. rewrite Eh. apply (v_heap _ HI). lia.
  - intros; by rewrite Em.
  - eapply counts_same; [exact Eho| |apply (v_counts _ HI)]. intros tpl r. rewrite Ebo. eauto.
  - eapply uniq_sub; [apply (v_names _ HI)|]. intros [j|s] n; simpl; [|by rewrite Es].
    destruct (decide (j = i)) as [->|]; [apply Hna|by rewrite Ho].
  - intros d Hd'. left. by apply Hde.
  - intros t Et. eapply same_bases_thread; [exact Hs|by intros; rewrite Em|]. by apply Hok.
  - intros s e. rewrite Es. auto.
Qed.

(** *** The other steps *)

Lemma base_none w tpl : Inv w → base_of tpl w = None → bases w !! tpl = None.
Proof.
  intros HI E. destruct (bases w !! tpl) as [b|] eqn:Eb; [|done]. destruct (v_base _ HI _ _ Eb) as (r & Er & _).
  unfold base_of in E. rewrite Eb in E. simpl in E. congruence.
Qed.
Lemma base_some w tpl r : base_of tpl w = Some r → ∃ b, bases w !! tpl = Some b ∧ heap w !! b = Some r.
Proof. unfold base_of. destruct (bases w !! tpl) as [b|]; [|done]. simpl. eauto. Qed.
Lemma only_init i w t tpl : Inv w → threads w !! i = Some t → init_of t = Some tpl → ∀ j, j ≠ i → threads w !! j ≫= init_of ≠ Some tpl.
Proof. intros HI E Ei j N E'. apply N. apply (v_inits _ HI _ _ _ E'). simpl. by rewrite E. Qed.
(** An initialisation past its check has the only hand on its device. *)
Lemma only_dev i w t d o : Inv w → threads w !! i = Some t → dev_t t = Some d → o ≠ inl i → devices w o ≠ Some d.
Proof. intros HI E Ed N E'. apply N. apply (v_devs _ HI _ _ _ E'). simpl. by rewrite E. Qed.

(** What a step leaves as it was, but for the thread [i], the bases and their devices. *)
Definition same_rest (i : nat) (w w' : world) : Prop :=
  snaps w' = snaps w ∧ dms w' = dms w ∧ (next w ≤ next w')%nat ∧ others i w w'.

(** A base nobody holds is dropped. *)
Lemma inv_drop i w w' t t' tpl r :
  Inv w → same_rest i w w' → bases w' = delete tpl (bases w) → heap w' = heap w → devs w' = devs w → threads w' !! i = Some t' →
  threads w !! i = Some t → init_of t = Some tpl → hold_t t = None → base_of tpl w = Some r → refs r ≤ 0 →
  init_of t' = Some tpl → hold_t t' = None → name_t t' = None → dev_t t' = Some (loopDev r) →
  (bases w' !! tpl = None → thread_ok w' t') → Inv w'.
Proof.
  intros HI (Es & Em & En & Eth) Eba Eh Ed Eti Et Ei Eho Eb Hr Ei' Eh' En' Ed' Hok.
  destruct (v_counts _ HI) as (G & HG & Hc). pose proof (Hc _ _ Eb) as Hz. fold (count G tpl) in Hz.
  assert (Hno : ∀ o, hold w o ≠ Some tpl) by (intros o; rewrite <- HG; apply holders_none; lia).
  assert (Enone : bases w' !! tpl = None) by by rewrite Eba, lookup_delete_eq.
  assert (Edel : ∀ tpl', tpl' ≠ tpl → bases w' !! tpl' = bases w !! tpl') by (intros; by rewrite Eba, lookup_delete_ne).
  assert (Ebase : ∀ tpl', tpl' ≠ tpl → base_of tpl' w' = base_of tpl' w).
  { intros tpl' N. unfold base_of. by rewrite Edel, Eh. }
  assert (Enb : base_of tpl w' = None) by (unfold base_of; by rewrite Enone).
  assert (Ehold : ∀ o, hold w' o = hold w o).
  { intros [j|s]; simpl; [|by rewrite Es]. destruct (decide (j = i)) as [->|]; [by rewrite Eti, Et; simpl; rewrite Eh', Eho|by rewrite Eth]. }
  split.
  - eapply counts_same; [exact Ehold| |apply (v_counts _ HI)]. intros tpl' r' E'. left.
    destruct (decide (tpl' = tpl)) as [->|]; [congruence|]. rewrite Ebase in E' by done. eauto.
  - intros tpl' b' E'. rewrite Eh, Ed. rewrite Eba in E'. apply lookup_delete_Some in E' as [_ E']. apply (v_base _ HI _ _ E').
  - eapply uniq_sub; [apply (v_ptr _ HI)|]. intros tpl' b' E'. rewrite Eba in E'. by apply lookup_delete_Some in E' as [_ E'].
  - intros b Hb. rewrite Eh. apply (v_heap _ HI). lia.
  - intros o d E. assert (∃ o', devices w o' = Some d) as [o' E'].
    { destruct o as [j|tpl']; simpl in E.
      - destruct (decide (j = i)) as [->|]; [|rewrite Eth in E by done; by exists (inl j)].
        rewrite Eti in E. simpl in E. rewrite Ed' in E. exists (inr tpl). simpl. by rewrite Eb.
      - destruct (decide (tpl' = tpl)) as [->|]; [by rewrite Enb in E|]. rewrite Ebase in E by done. by exists (inr tpl'). }
    pose proof (v_next _ HI _ _ E'). lia.
  - assert (H0 : uniq (λ o : nat + string, if decide (o = inl i) then None else devices w o)).
    { eapply uniq_sub; [apply (v_devs _ HI)|]. intros o d. by case_decide. }
    eapply (uniq_move _ (devices w') (inr tpl) (inl i) H0).
    + simpl. by rewrite Enb.
    + cbv beta. rewrite decide_False by done. simpl. rewrite Eti, Eb. simpl. exact Ed'.
    + intros [j|tpl'] N1 N2; cbv beta; rewrite decide_False by done; simpl; [by rewrite Eth by congruence|by rewrite Ebase by congruence].
  - eapply uniq_sub; [apply (v_names _ HI)|]. intros [j|s] n; simpl; [|by rewrite Es].
    destruct (decide (j = i)) as [->|]; [rewrite Eti; simpl; by rewrite En'|by rewrite Eth].
  - eapply uniq_sub; [apply (v_inits _ HI)|]. intros j x. destruct (decide (j = i)) as [->|]; [rewrite Eti, Et; simpl; congruence|by rewrite Eth].
  - intros j u E. destruct (decide (j = i)) as [->|N]; [rewrite Eti in E; injection E as <-; auto|].
    rewrite Eth in E by done. pose proof (v_threads _ HI _ _ E) as Hu. pose proof (only_init _ _ _ _ HI Et Ei _ N) as Hi. rewrite E in Hi. simpl in Hi.
    assert (Hh : ∀ tpl' b' d, hold_t u = Some tpl' → holds w tpl' b' d → holds w' tpl' b' d).
    { intros tpl' b' d Hu' [E1 E2]. split; [|by rewrite Eh]. rewrite Edel; [done|]. intros ->. apply (Hno (inl j)). simpl. by rewrite E. }
    destruct u; simpl in *; try done; try (by eapply Hh); try (rewrite ?Edel, ?Ed by congruence; done);
      [|by rewrite Em]. rewrite Em. split; [|apply Hu]. eapply Hh; [done|apply Hu].
  - intros s e E. rewrite Es in E. destruct (v_snaps _ HI _ _ E) as (E1 & r' & E2 & E3). split; [done|]. rewrite Em. exists r'. split; [|exact E3].
    rewrite Ebase; [done|]. intros Ee. apply (Hno (inr s)). simpl. rewrite E. simpl. by rewrite Ee.
Qed.

Lemma holder_has_base w o tpl : Inv w → hold w o = Some tpl → is_Some (bases w !! tpl).
Proof.
  intros HI E. destruct o as [j|s]; simpl in E.
  - destruct (threads w !! j) as [t|] eqn:Et; [|done]. simpl in E. pose proof (v_threads _ HI _ _ Et) as Ht.
    destruct t; simpl in *; simplify_eq; first [destruct Ht as [Hb _]; by eexists|destruct Ht as [[Hb _] _]; by eexists].
  - destruct (snaps w !! s) as [e|] eqn:Ee; [|done]. simpl in E. injection E as <-. destruct (v_snaps _ HI _ _ Ee) as (_ & r & Hr & _).
    destruct (base_some _ _ _ Hr) as (b & Hb & _). by eexists.
Qed.

(** A base is registered. *)
Lemma inv_put i w w' t tpl r :
  Inv w → same_rest i w w' → bases w' = <[tpl := next w]> (bases w) → heap w' = <[next w := r]> (heap w) → devs w' = devs w →
  next w' = S (next w) → threads w' !! i = None →
  threads w !! i = Some t → init_of t = Some tpl → hold_t t = None → name_t t = None → dev_t t = Some (loopDev r) →
  bases w !! tpl = None → loopDev r ∈ devs w → refs r = 0 → Inv w'.
Proof.
  intros HI (Es & Em & _ & Eth) Eba Eh Ed En Eti Et Ei Eho Ena Edt Hnone Hdev Hr.
  assert (Hno : ∀ o, hold w o ≠ Some tpl) by (intros o Ho; destruct (holder_has_base _ _ _ HI Ho); congruence).
  assert (Hlt : ∀ tpl' b, bases w !! tpl' = Some b → b ≠ next w).
  { intros tpl' b Hb ->. destruct (v_base _ HI _ _ Hb) as (r' & Hr' & _). rewrite (v_heap _ HI (next w)) in Hr'; [done|lia]. }
  assert (Ebase : ∀ tpl', tpl' ≠ tpl → base_of tpl' w' = base_of tpl' w).
  { intros tpl' N. unfold base_of. rewrite Eba, Eh, lookup_insert_ne by done. destruct (bases w !! tpl') as [b|] eqn:Eb; [|done].
    simpl. rewrite lookup_insert_ne; [done|]. intros <-. by apply (Hlt tpl' (next w)). }
  assert (Ethis : base_of tpl w' = Some r) by (unfold base_of; rewrite Eba, Eh, lookup_insert_eq; simpl; by rewrite lookup_insert_eq).
  assert (Ehold : ∀ o, hold w' o = hold w o).
  { intros [j|s]; simpl; [|by rewrite Es]. destruct (decide (j = i)) as [->|]; [by rewrite Eti, Et; simpl|by rewrite Eth]. }
  assert (Hholds : ∀ tpl' b d, holds w tpl' b d → holds w' tpl' b d).
  { intros tpl' b d (E1 & r' & E2 & E3). split; [rewrite Eba, lookup_insert_ne; [done|congruence]|]. exists r'. split; [|done].
    rewrite Eh, lookup_insert_ne; [done|]. intros <-. by apply (Hlt tpl' (next w)). }
  split.
  - eapply counts_same; [exact Ehold| |apply (v_counts _ HI)]. intros tpl' r' E'.
    destruct (decide (tpl' = tpl)) as [->|]; [right; split; [congruence|done]|left]. rewrite Ebase in E' by done. eauto.
  - intros tpl' b' E'. rewrite Ed, Eh. rewrite Eba in E'. apply lookup_insert_Some in E' as [[<- <-]|[N E']].
    + exists r. by rewrite lookup_insert_eq.
    + rewrite lookup_insert_ne by (intros E; subst b'; by apply (Hlt tpl' (next w))). apply (v_base _ HI _ _ E').
  - intros t1 t2 b. rewrite Eba. intros E1%lookup_insert_Some E2%lookup_insert_Some.
    destruct E1 as [[<- <-]|[N1 E1]], E2 as [[<- E2]|[N2 E2]]; [done|by destruct (Hlt _ _ E2)|by subst b; destruct (Hlt _ _ E1)|by eapply (v_ptr _ HI)].
  - intros b Hb. rewrite Eh, lookup_insert_ne by lia. apply (v_heap _ HI). lia.
  - intros o d E. assert (∃ o', devices w o' = Some d) as [o' E'].
    { destruct o as [j|tpl']; simpl in E.
      - destruct (decide (j = i)) as [->|]; [by rewrite Eti in E|]. rewrite Eth in E by done. by exists (inl j).
      - destruct (decide (tpl' = tpl)) as [->|]; [|rewrite Ebase in E by done; by exists (inr tpl')].
        rewrite Ethis in E. simpl in E. exists (inl i). simpl. rewrite Et. simpl. congruence. }
    pose proof (v_next _ HI _ _ E'). lia.
  - eapply (uniq_move (devices w) _ (inl i) (inr tpl)); [apply (v_devs _ HI)|..]; simpl.
    + by rewrite Eti.
    + by rewrite Ethis, Et.
    + intros [j|tpl'] N1 N2; simpl; [by rewrite Eth by congruence|by rewrite Ebase by congruence].
  - eapply uniq_sub; [apply (v_names _ HI)|]. intros [j|s] n; simpl; [|by rewrite Es].
    destruct (decide (j = i)) as [->|]; [by rewrite Eti|by rewrite Eth].
  - eapply uniq_sub; [apply (v_inits _ HI)|]. intros j x. destruct (decide (j = i)) as [->|]; [by rewrite Eti|by rewrite Eth].
  - intros j u E. destruct (decide (j = i)) as [->|N]; [by rewrite Eti in E|]. rewrite Eth in E by done.
    pose proof (v_threads _ HI _ _ E) as Hu. pose proof (only_init _ _ _ _ HI Et Ei _ N) as Hi. rewrite E in Hi. simpl in Hi.
    destruct u; simpl in *; rewrite ?Eba, ?Ed, ?Em; try rewrite lookup_insert_ne by congruence; try done; try (by apply Hholds).
    split; [apply Hholds|]; apply Hu.
  - intros s e E. rewrite Es in E. destruct (v_snaps _ HI _ _ E) as (E1 & r' & E2 & E3). split; [done|]. rewrite Em. exists r'. split; [|exact E3].
    rewrite Ebase; [done|]. intros Ee. apply (Hno (inr s)). simpl. rewrite E. simpl. by rewrite Ee.
Qed.

(** A device that was taken from its base is detached. *)
Lemma inv_detach i w w' t t' d :
  Inv w → same_rest i w w' → bases w' = bases w → heap w' = heap w → devs w' = devs w ∖ {[d]} → threads w' !! i = Some t' →
  threads w !! i = Some t → hold_t t = None → dev_t t = Some d → init_of t' = init_of t → hold_t t' = None → name_t t' = None → dev_t t' = None →
  thread_ok w' t' → Inv w'.
Proof.
  intros HI (Es & Em & En & Eth) Eba Eh Ed Eti Et Eho Edt Ei Eh' En' Ed' Hok.
  assert (Hd : ∀ o x, o ≠ inl i → devices w o = Some x → x ≠ d) by (intros o x N Ex ->; by apply (only_dev _ _ _ _ _ HI Et Edt N)).
  assert (Ebase : ∀ tpl, base_of tpl w' = base_of tpl w) by (intros tpl; unfold base_of; by rewrite Eba, Eh).
  assert (Hholds : ∀ tpl b x, holds w tpl b x → holds w' tpl b x) by (intros tpl b x; unfold holds; by rewrite Eba, Eh).
  split.
  - eapply counts_same; [| |apply (v_counts _ HI)]; [|intros tpl r; rewrite Ebase; eauto].
    intros [j|s]; simpl; [|by rewrite Es]. destruct (decide (j = i)) as [->|]; [by rewrite Eti, Et; simpl; rewrite Eh', Eho|by rewrite Eth].
  - intros tpl b E. rewrite Eba in E. destruct (v_base _ HI _ _ E) as (r & Er & Hr). exists r. rewrite Eh, Ed. split; [done|].
    apply elem_of_difference. split; [done|]. apply not_elem_of_singleton. apply (Hd (inr tpl)); [done|]. simpl. unfold base_of. by rewrite E; simpl; rewrite Er.
  - rewrite Eba. apply (v_ptr _ HI).
  - intros b Hb. rewrite Eh. apply (v_heap _ HI). lia.
  - intros o x E. assert (devices w o = Some x).
    { destruct o as [j|tpl]; simpl in *; [|by rewrite Ebase in E]. destruct (decide (j = i)) as [->|]; [rewrite Eti in E; simpl in E; congruence|by rewrite Eth in E]. }
    pose proof (v_next _ HI _ _ H). lia.
  - eapply uniq_sub; [apply (v_devs _ HI)|]. intros [j|tpl] x; simpl; [|by rewrite Ebase].
    destruct (decide (j = i)) as [->|]; [rewrite Eti; simpl; by rewrite Ed'|by rewrite Eth].
  - eapply uniq_sub; [apply (v_names _ HI)|]. intros [j|s] n; simpl; [|by rewrite Es].
    destruct (decide (j = i)) as [->|]; [rewrite Eti; simpl; by rewrite En'|by rewrite Eth].
  - eapply uniq_sub; [apply (v_inits _ HI)|]. intros j x. destruct (decide (j = i)) as [->|]; [rewrite Eti, Et; simpl; congruence|by rewrite Eth].
  - intros j u E. destruct (decide (j = i)) as [->|N]; [rewrite Eti in E; injection E as <-; auto|]. rewrite Eth in E by done.
    pose proof (v_threads _ HI _ _ E) as Hu. assert (Hj : ∀ x, dev_t u = Some x → x ≠ d).
    { intros x Hx. apply (Hd (inl j)); [congruence|]. simpl. by rewrite E. }
    destruct u; simpl in *; rewrite ?Eba, ?Em; try done; try (by apply Hholds);
      try (split; [apply Hu|]; rewrite Ed; apply elem_of_difference; split; [apply Hu|]; apply not_elem_of_singleton; auto).
    split; [apply Hholds|]; apply Hu.
  - intros s e E. rewrite Es in E. destruct (v_snaps _ HI _ _ E) as (E1 & r' & E2 & E3). split; [done|]. rewrite Em. exists r'. by rewrite Ebase.
Qed.

(** *** Every step *)

Lemma put_at i p : threads (put i p) !! i = p.2.
Proof. unfold put. simpl. destruct p as [w [t|]]; simpl; [apply lookup_insert_eq|apply lookup_delete_eq]. Qed.
Lemma put_others i p w : threads p.1 = threads w → others i w (put i p).
Proof. intros E j N. unfold put. simpl. destruct p as [w' [t|]]; simpl in *; rewrite E; [by apply lookup_insert_ne|by apply lookup_delete_ne]. Qed.

Lemma base_of_alter w w' b f tpl r :
  bases w' = bases w → heap w' = alter f b (heap w) → base_of tpl w' = Some r →
  ∃ r0, base_of tpl w = Some r0 ∧ (bases w !! tpl = Some b ∧ r = f r0 ∨ bases w !! tpl ≠ Some b ∧ r = r0).
Proof.
  unfold base_of. intros -> ->. destruct (bases w !! tpl) as [b'|]; [|done]. simpl. intros E.
  apply lookup_alter_Some in E as [(<- & r0 & E & ->)|[N E]]; [eauto|]. exists r. split; [done|]. right. split; [congruence|done].
Qed.
Definition more (n : Z) (r : baseRef) : baseRef := mkBase (loopDev r) (path r) (mtime r) (refs r + n) (nbdOrigin r).
(** The count of the base of [tpl] goes by [n]. *)
Lemma base_of_more w w' b n tpl0 :
  Inv w → bases w' = bases w → heap w' = alter (more n) b (heap w) → bases w !! tpl0 = Some b →
  ∀ tpl r, base_of tpl w' = Some r → ∃ r0, base_of tpl w = Some r0 ∧ refs r = refs r0 + if decide (tpl0 = tpl) then n else 0.
Proof.
  intros HI Eb Eh E0 tpl r E. destruct (base_of_alter _ _ _ _ _ _ Eb Eh E) as (r0 & E1 & [[E2 ->]|[E2 ->]]); exists r0; (split; [done|]).
  - rewrite decide_True by exact (v_ptr _ HI _ _ _ E0 E2). done.
  - rewrite decide_False by congruence. lia.
Qed.
Lemma same_bases_more w w' b n :
  bases w' = bases w → heap w' = alter (more n) b (heap w) → devs w' = devs w → (next w ≤ next w')%nat → same_bases w w'.
Proof.
  intros Eb Eh Ed En. split_and!; [done| |by rewrite Ed|done]. intros b'. rewrite Eh. destruct (decide (b' = b)) as [->|].
  - rewrite lookup_alter_eq. by destruct (heap w !! b).
  - by rewrite lookup_alter_ne.
Qed.
Lemma heap_more w b n k : (∀ b, (next w ≤ b)%nat → heap w !! b = None) → (next w ≤ k)%nat → alter (more n) b (heap w) !! k = None.
Proof. intros H Hk. apply lookup_alter_None, H, Hk. Qed.

Section go.
Context (i : nat) (ok : bool) (mt : Z) (t : thread) (w : world).
Hypothesis HI : Inv w.
Hypothesis Et : threads w !! i = Some t.

(** The thread goes on, or ends, without touching what is shared. *)
Lemma go_move w1 x :
  go ok mt t w = (w1, x) →
  bases w1 = bases w → heap w1 = heap w → devs w1 = devs w → dms w1 = dms w → snaps w1 = snaps w → (next w ≤ next w1)%nat → threads w1 = threads w →
  x ≫= hold_t = hold_t t →
  (∀ n, x ≫= name_t = Some n → name_t t = Some n) → (∀ d, x ≫= dev_t = Some d → dev_t t = Some d) →
  (∀ tpl, x ≫= init_of = Some tpl → init_of t = Some tpl) →
  (∀ u, x = Some u → thread_ok w u) → Inv (put i (go ok mt t w)).
Proof.
  intros -> Eb Eh Ed Em Es En Eth Hh Hn Hd Hi Hok.
  eapply (inv_move i w _ x); [exact HI|exact Eb|exact Eh|exact Ed|exact Em|exact Es|exact En|apply put_at|by apply put_others|..].
  - by rewrite Et.
  - rewrite Et. exact Hn.
  - rewrite Et. exact Hd.
  - intros tpl Ex. eapply only_init; [exact HI|exact Et|by apply Hi].
  - exact Hok.
Qed.
End go.

(** The state after the step, known by what it has. *)
Ltac outcome w' :=
  match goal with |- Inv ?x => set (w' := x) end;
  match goal with w' := put ?i ?p |- _ => assert (threads w' !! i = p.2) by apply put_at end.

Lemma go_create i ok mt w tpl id :
  Inv w → threads w !! i = Some (CreateSnap tpl id) → Inv (put i (go ok mt (CreateSnap tpl id) w)).
Proof.
  intros HI Et. pose proof (go_move i ok mt _ w HI Et w None) as Hm. cbn [go] in *. unfold snap_claim in *.
  destruct (bases w !! tpl) as [b|] eqn:Eb; [|by apply Hm]. destruct (heap w !! b) as [r|] eqn:Er; [|by apply Hm]. clear Hm.
  outcome w'. rename H into Ex. cbn [snd] in Ex.
  assert (Ho : others i w w') by by apply put_others.
  assert (Eh : heap w' = alter (more 1) b (heap w)) by done.
  assert (Hs : same_bases w w') by by eapply same_bases_more.
  assert (Esn : snaps w' = snaps w) by done. assert (Em : dms w' = dms w) by done. assert (En : next w' = next w) by done. clearbody w'.
  eapply (inv_keep i w); [exact HI|exact Hs|intros k Hk; rewrite Eh; apply heap_more; [apply HI|lia]|exact Ho|by intros; rewrite Em|..].
  - eapply (counts_add w _ (inl i) tpl); [simpl; by rewrite Et|simpl; by rewrite Ex| |by eapply base_of_more; [|apply Hs| |]|by apply HI].
    intros [j|s] N; simpl; [by rewrite Ho by congruence|by rewrite Esn].
  - eapply uniq_sub; [apply (v_names _ HI)|]. intros [j|s] n; simpl; [|by rewrite Esn]. destruct (decide (j = i)) as [->|]; [by rewrite Ex|by rewrite Ho].
  - by rewrite Ex.
  - by rewrite Ex.
  - rewrite Ex. intros u [= <-]. simpl. split; [by rewrite (proj1 Hs)|]. exists (more 1 r). rewrite Eh, lookup_alter_eq, Er. split; [done|]. by intros x [= <-].
  - rewrite Esn. auto.
Qed.

Lemma go_decr i ok mt w tpl b :
  Inv w → threads w !! i = Some (SnapDecr tpl b) → Inv (put i (go ok mt (SnapDecr tpl b) w)).
Proof.
  intros HI Et. pose proof (v_threads _ HI _ _ Et) as [Eb (r & Er & _)]. simpl.
  outcome w'. rename H into Ex. cbn [snd] in Ex.
  assert (Ho : others i w w') by by apply put_others.
  assert (Eh : heap w' = alter (more (-1)) b (heap w)) by done.
  assert (Hs : same_bases w w') by by eapply same_bases_more.
  assert (Esn : snaps w' = snaps w) by done. assert (Em : dms w' = dms w) by done. assert (En : next w' = next w) by done. clearbody w'.
  eapply (inv_keep i w); [exact HI|exact Hs|intros k Hk; rewrite Eh; apply heap_more; [apply HI|lia]|exact Ho|by intros; rewrite Em|..].
  - eapply (counts_del w _ (inl i) tpl); [simpl; by rewrite Et|simpl; by rewrite Ex| | |by apply HI].
    + intros [j|s] N; simpl; [by rewrite Ho by congruence|by rewrite Esn].
    + intros tpl' r' E'. destruct (base_of_more w w' b (-1) tpl HI (proj1 Hs) Eh Eb _ _ E') as (r0 & E0 & ->). exists r0. split; [done|]. case_decide; lia.
  - eapply uniq_sub; [apply (v_names _ HI)|]. intros [j|s] n; simpl; [|by rewrite Esn]. destruct (decide (j = i)) as [->|]; [by rewrite Ex|by rewrite Ho].
  - by rewrite Ex.
  - by rewrite Ex.
  - by rewrite Ex.
  - rewrite Esn. auto.
Qed.

Lemma go_dm i ok mt w tpl id b d c :
  Inv w → threads w !! i = Some (SnapDm tpl id b d c) → Inv (put i (go ok mt (SnapDm tpl id b d c) w)).
Proof.
  intros HI Et. pose proof (go_move i ok mt _ w HI Et w (Some (SnapUndo tpl id b (Some c)))) as Hm.
  pose proof (v_threads _ HI _ _ Et) as Hh. simpl in *.
  assert (Hh' : holds w tpl b None) by (destruct Hh as (? & r & ? & _); split; [done|]; by exists r).
  destruct (ok && bool_decide (dms w !! dm_name id = None)) eqn:Eok; [|apply Hm; try done; by intros u [= <-]]. clear Hm.
  apply andb_true_iff in Eok as [_ Enone%bool_decide_eq_true].
  outcome w'. rename H into Ex. cbn [snd] in Ex.
  assert (Ho : others i w w') by by apply put_others.
  assert (Hs : same_bases w w') by by split_and!.
  assert (Eh : heap w' = heap w) by done. assert (Em : dms w' = <[dm_name id := (d, c)]> (dms w)) by done.
  assert (Esn : snaps w' = snaps w) by done. assert (En : next w' = next w) by done. clearbody w'.
  assert (Hfree : ∀ o, names w o ≠ Some (dm_name id)).
  { intros [j|s] E; simpl in E.
    - destruct (threads w !! j) as [u|] eqn:Eu; [|done]. simpl in E. pose proof (v_threads _ HI _ _ Eu) as Hu.
      destruct u; simpl in *; try done; apply (inj Some) in E; rewrite E in Hu; [destruct Hu as [_ Hu]|destruct Hu as [x Hu]]; congruence.
    - destruct (snaps w !! s) as [e|] eqn:Ee; [|done]. simpl in E. apply (inj Some) in E. destruct (v_snaps _ HI _ _ Ee) as (_ & r & _ & Hr). congruence. }
  eapply (inv_keep i w); [exact HI|exact Hs|intros k Hk; rewrite Eh; apply HI; lia|exact Ho|..].
  - intros o n _ E. rewrite Em. apply lookup_insert_ne. intros <-. by apply (Hfree o).
  - eapply counts_same; [|intros tpl' r'; unfold base_of; rewrite (proj1 Hs), Eh; eauto|apply (v_counts _ HI)].
    intros [j|s]; simpl; [|by rewrite Esn]. destruct (decide (j = i)) as [->|]; [by rewrite Ex, Et|by rewrite Ho].
  - eapply (uniq_upd (names w) _ (inl i)); [apply (v_names _ HI)|..].
    + intros [j|s] N; simpl; [by rewrite Ho by congruence|by rewrite Esn].
    + simpl. rewrite Ex. simpl. intros x [= <-] o _. apply Hfree.
  - by rewrite Ex.
  - by rewrite Ex.
  - rewrite Ex. intros u [= <-]. simpl. split; [by eapply same_bases_holds|]. by rewrite Em, lookup_insert_eq.
  - rewrite Esn. auto.
Qed.

Lemma go_add i ok mt w tpl id b d c :
  Inv w → threads w !! i = Some (SnapAdd tpl id b d c) → Inv (put i (go ok mt (SnapAdd tpl id b d c) w)).
Proof.
  intros HI Et. pose proof (v_threads _ HI _ _ Et) as [[Eb (r & Er & Ed)] Hdm]. specialize (Ed _ eq_refl). simpl.
  assert (Hno : snaps w !! id = None).
  { destruct (snaps w !! id) as [e|] eqn:Ee; [|done]. pose proof (v_snaps _ HI _ _ Ee) as [E _].
    pose proof (v_names _ HI (inl i) (inr id) (dm_name id)) as Hu. simpl in Hu. rewrite Et, Ee in Hu. simpl in Hu. rewrite E in Hu. by specialize (Hu eq_refl eq_refl). }
  outcome w'. rename H into Ex. cbn [snd] in Ex.
  assert (Ho : others i w w') by by apply put_others.
  assert (Hs : same_bases w w') by by split_and!.
  assert (Eh : heap w' = heap w) by done. assert (Em : dms w' = dms w) by done.
  assert (Esn : snaps w' = <[id := mkSnap tpl (dm_name id) c id]> (snaps w)) by done. assert (En : next w' = next w) by done. clearbody w'.
  assert (Ebo : ∀ tpl, base_of tpl w' = base_of tpl w) by (intros tpl'; unfold base_of; by rewrite (proj1 Hs), Eh).
  assert (Esi : ∀ s, s ≠ id → snaps w' !! s = snaps w !! s) by (intros; by rewrite Esn, lookup_insert_ne).
  assert (Eid : snaps w' !! id = Some (mkSnap tpl (dm_name id) c id)) by by rewrite Esn, lookup_insert_eq. clear Esn.
  eapply (inv_keep i w); [exact HI|exact Hs|intros k Hk; rewrite Eh; apply HI; lia|exact Ho|by intros; rewrite Em|..].
  - eapply (counts_move w _ (inl i) (inr id) tpl); [done|..]; simpl; rewrite ?Ex, ?Et, ?Eid, ?Hno; try done; [|by intros ??; rewrite Ebo|by apply HI].
    intros [j|s] N1 N2; simpl; [by rewrite Ho by congruence|by rewrite Esi by congruence].
  - eapply (uniq_move (names w) _ (inl i) (inr id)); [apply (v_names _ HI)|..]; simpl; rewrite ?Ex, ?Et, ?Eid; try done.
    intros [j|s] N1 N2; simpl; [by rewrite Ho by congruence|by rewrite Esi by congruence].
  - by rewrite Ex.
  - by rewrite Ex.
  - by rewrite Ex.
  - intros s e E. destruct (decide (s = id)) as [->|N]; [|left; by rewrite Esi in E]. right. rewrite Eid in E. injection E as <-.
    split; [done|]. exists r. simpl. rewrite Ebo, Em, Hdm, <- Ed. split; [|done]. unfold base_of. by rewrite Eb; simpl.
Qed.

Lemma go_remove i ok mt w id :
  Inv w → threads w !! i = Some (RemoveSnap id) → Inv (put i (go ok mt (RemoveSnap id) w)).
Proof.
  intros HI Et. pose proof (go_move i ok mt _ w HI Et w None) as Hm. cbn [go] in *. unfold snap_release in *.
  destruct (snaps w !! id) as [e|] eqn:Ee; [|by apply Hm]. clear Hm.
  destruct (v_snaps _ HI _ _ Ee) as (Ena & r & Er & Hdm). destruct (base_some _ _ _ Er) as (b & Eb & Erb). cbv zeta. cbn [bases set_snaps]. rewrite Eb.
  outcome w'. rename H into Ex. cbn [snd] in Ex.
  assert (Ho : others i w w') by by apply put_others.
  assert (Eh : heap w' = alter (more (-1)) b (heap w)) by done.
  assert (Hs : same_bases w w') by by eapply same_bases_more.
  assert (Em : dms w' = dms w) by done. assert (Esn : snaps w' = delete id (snaps w)) by done. assert (En : next w' = next w) by done. clearbody w'.
  assert (Esi : ∀ s, s ≠ id → snaps w' !! s = snaps w !! s) by (intros; by rewrite Esn, lookup_delete_ne).
  assert (Eid : snaps w' !! id = None) by by rewrite Esn, lookup_delete_eq.
  eapply (inv_keep i w); [exact HI|exact Hs|intros k Hk; rewrite Eh; apply heap_more; [apply HI|lia]|exact Ho|by intros; rewrite Em|..].
  - eapply (counts_del w _ (inr id) (template e)); [simpl; by rewrite Ee|simpl; by rewrite Eid| | |by apply HI].
    + intros [j|s] N; simpl; [|by rewrite Esi by congruence]. destruct (decide (j = i)) as [->|]; [by rewrite Ex, Et|by rewrite Ho].
    + intros tpl' r' E'. destruct (base_of_more w w' b (-1) _ HI (proj1 Hs) Eh Eb _ _ E') as (r0 & E0 & ->). exists r0. split; [done|]. case_decide; lia.
  - eapply (uniq_move (names w) _ (inr id) (inl i)); [apply (v_names _ HI)|..]; simpl; rewrite ?Ex, ?Ee, ?Eid; try done.
    intros [j|s] N1 N2; simpl; [by rewrite Ho by congruence|by rewrite Esi by congruence].
  - by rewrite Ex.
  - by rewrite Ex.
  - rewrite Ex. intros u [= <-]. simpl. rewrite Em, Hdm. by eexists.
  - intros s e' E. destruct (decide (s = id)) as [->|N]; [congruence|left; by rewrite Esi in E].
Qed.

Lemma go_remove_dm i ok mt w e :
  Inv w → threads w !! i = Some (RemoveDm e) → Inv (put i (go ok mt (RemoveDm e) w)).
Proof.
  intros HI Et. pose proof (go_move i ok mt _ w HI Et w (Some (RemoveLoop e))) as Hm. simpl in *.
  destruct ok; [|apply Hm; try done; by intros u [= <-]]. clear Hm.
  outcome w'. rename H into Ex. cbn [snd] in Ex.
  assert (Ho : others i w w') by by apply put_others.
  assert (Hs : same_bases w w') by by split_and!.
  assert (Eh : heap w' = heap w) by done. assert (Em : dms w' = delete (dmName e) (dms w)) by done.
  assert (Esn : snaps w' = snaps w) by done. assert (En : next w' = next w) by done. clearbody w'.
  eapply (inv_keep i w); [exact HI|exact Hs|intros k Hk; rewrite Eh; apply HI; lia|exact Ho|..].
  - intros o n N E. rewrite Em. apply lookup_delete_ne. intros <-. apply N. apply (v_names _ HI _ _ _ E). simpl. by rewrite Et.
  - eapply counts_same; [|intros tpl' r'; unfold base_of; rewrite (proj1 Hs), Eh; eauto|apply (v_counts _ HI)].
    intros [j|s]; simpl; [|by rewrite Esn]. destruct (decide (j = i)) as [->|]; [by rewrite Ex, Et|by rewrite Ho].
  - eapply uniq_sub; [apply (v_names _ HI)|]. intros [j|s] n; simpl; [|by rewrite Esn]. destruct (decide (j = i)) as [->|]; [by rewrite Ex|by rewrite Ho].
  - by rewrite Ex.
  - by rewrite Ex.
  - rewrite Ex. by intros u [= <-].
  - rewrite Esn. auto.
Qed.

(** The attach of a device; [add]: the thread that will register it. *)
Lemma go_attach i w w' t u tpl :
  Inv w → threads w !! i = Some t → others i w w' → threads w' !! i = Some u →
  bases w' = bases w → heap w' = heap w → devs w' = {[next w]} ∪ devs w → dms w' = dms w → snaps w' = snaps w → next w' = S (next w) →
  init_of t = Some tpl → init_of u = Some tpl → hold_t t = None → hold_t u = None → name_t u = None → dev_t u = Some (next w) →
  thread_ok w' u → Inv w'.
Proof.
  intros HI Et Ho Ex Eb Eh Ed Em Esn En Ei Eu Hht Hhu Hnu Hdu Hok.
  assert (Hs : same_bases w w') by (split_and!; [done|by rewrite Eh|set_solver|lia]).
  eapply (inv_keep i w); [exact HI|exact Hs|intros k Hk; rewrite Eh; apply HI; lia|exact Ho|by intros; rewrite Em|..].
  - eapply counts_same; [|intros tpl' r'; unfold base_of; rewrite Eb, Eh; eauto|apply (v_counts _ HI)].
    intros [j|s]; simpl; [|by rewrite Esn]. destruct (decide (j = i)) as [->|]; [rewrite Ex, Et; simpl; by rewrite Hhu|by rewrite Ho].
  - eapply uniq_sub; [apply (v_names _ HI)|]. intros [j|s] n; simpl; [|by rewrite Esn]. destruct (decide (j = i)) as [->|]; [rewrite Ex; simpl; by rewrite Hnu|by rewrite Ho].
  - rewrite Ex. simpl. rewrite Hdu. intros d [= <-]. right. lia.
  - rewrite Ex. simpl. intros tpl' E. rewrite Eu in E. eapply only_init; [done|done|congruence].
  - rewrite Ex. by intros ? [= <-].
  - rewrite Esn. auto.
Qed.

Ltac env w' := outcome w'; match goal with H : threads w' !! _ = _ |- _ => cbn [snd] in H end.
Ltac goes HI Et := (eapply go_move; [exact HI|exact Et|reflexivity|..]; try done; try lia; try (by intros ? [= <-])).

Lemma inv_go i ok mt t w : Inv w → threads w !! i = Some t → Inv (put i (go ok mt t w)).
Proof.
  intros HI Et. pose proof (v_threads _ HI _ _ Et) as Hok.
  assert (Hrest : ∀ p, threads p.1 = threads w → snaps p.1 = snaps w → dms p.1 = dms w → (next w ≤ next p.1)%nat → same_rest i w (put i p)).
  { intros p H1 H2 H3 H4. split_and!; [done|done|done|by apply put_others]. }
  destruct t as [tpl gen fb|tpl gen fb r|tpl gen fb|tpl gen d|tpl file|tpl file m d|tpl file m|tpl file m d|tpl id|tpl id b d|tpl id b d
    |tpl id b d c|tpl id b d c|tpl id b d c|tpl id b c|tpl b|id|e|e|e|l]; cbn [thread_ok] in Hok.
  - destruct (base_of tpl w) as [r|] eqn:Er.
    + destruct (nbdOrigin r && String.eqb (path r) gen) eqn:E1; [|destruct (0 <? refs r) eqn:E2].
      * eapply (go_move _ _ _ _ _ HI Et w None); try done. cbn; unfold stream_init, loop_init; by rewrite Er, E1.
      * eapply (go_move _ _ _ _ _ HI Et w None); try done. cbn; unfold stream_init, loop_init; by rewrite Er, E1, E2.
      * cbn [go]. unfold stream_init. rewrite Er, E1, E2. env w'. eapply (inv_drop i w); try done; [by apply Hrest|lia].
    + eapply (go_move _ _ _ _ _ HI Et w (Some (StreamOpen tpl gen fb))); try done; [cbn; unfold stream_init, loop_init; by rewrite Er|].
      intros u [= <-]. by apply base_none.
  - cbn [go]. destruct ok; [env w'; eapply (inv_detach i w); try done; by apply Hrest|]. eapply (go_move _ false mt _ _ HI Et w (Some (StreamOpen tpl gen fb))); try done. by intros u [= <-].
  - destruct ok; [cbn [go]|].
    + env w'. eapply (go_attach i w); try done; [by apply put_others|]. split; [done|]. cbn. set_solver.
    + destruct (String.eqb fb "") eqn:E; 
      [eapply (go_move _ false mt _ _ HI Et w None)|eapply (go_move _ false mt _ _ HI Et w (Some (InitBase tpl fb)))]; try done;
        try (cbn; by rewrite E); by intros u [= <-].
  - cbn [go]. env w'. destruct Hok. eapply (inv_put i w); try done. apply Hrest; cbn; (done || lia).
  - destruct ok; [|by eapply (go_move _ false mt _ _ HI Et w None)].
    destruct (base_of tpl w) as [r|] eqn:Er.
    + destruct (String.eqb (path r) file && (mtime r =? mt)) eqn:E1; [|destruct (0 <? refs r) eqn:E2].
      * eapply (go_move _ true mt _ _ HI Et w None); try done. cbn; unfold stream_init, loop_init; by rewrite Er, E1.
      * eapply (go_move _ true mt _ _ HI Et w None); try done. cbn; unfold stream_init, loop_init; by rewrite Er, E1, E2.
      * cbn [go]. unfold loop_init. rewrite Er, E1, E2. env w'. eapply (inv_drop i w); try done; [by apply Hrest|lia].
    + eapply (go_move _ true mt _ _ HI Et w (Some (LoopAttach tpl file mt))); try done; [cbn; unfold stream_init, loop_init; by rewrite Er|].
      intros u [= <-]. by apply base_none.
  - cbn [go]. destruct ok; [env w'; eapply (inv_detach i w); try done; by apply Hrest|]. eapply (go_move _ false mt _ _ HI Et w (Some (LoopAttach tpl file m))); try done. by intros u [= <-].
  - destruct ok; [cbn [go]|].
    + env w'. eapply (go_attach i w); try done; [by apply put_others|]. split; [done|]. cbn. set_solver.
    + by eapply (go_move _ false mt _ _ HI Et w None).
  - cbn [go]. env w'. destruct Hok. eapply (inv_put i w); try done. apply Hrest; cbn; (done || lia).
  - by apply go_create.
  - assert (Hn : holds w tpl b None) by (destruct Hok as (? & r & ? & _); split; [done|]; by exists r).
    destruct ok, (mt =? 0) eqn:E0; eapply (go_move _ _ _ _ _ HI Et); try (cbn [go]; rewrite E0); try reflexivity; try done; by intros u [= <-].
  - assert (Hn : holds w tpl b None) by (destruct Hok as (? & r & ? & _); split; [done|]; by exists r).
    destruct ok; eapply (go_move _ _ _ _ _ HI Et); try reflexivity; try done; cbn; try lia; by intros u [= <-].
  - assert (Hn : holds w tpl b None) by (destruct Hok as (? & r & ? & _); split; [done|]; by exists r).
    destruct ok; eapply (go_move _ _ _ _ _ HI Et); try reflexivity; try done; by intros u [= <-].
  - by apply go_dm.
  - by apply go_add.
  - destruct ok, c, (mt =? 0) eqn:E0; eapply (go_move _ _ _ _ _ HI Et); try (cbn [go]; rewrite E0); try reflexivity; try done; by intros u [= <-].
  - by apply go_decr.
  - by apply go_remove.
  - by apply go_remove_dm.
  - destruct ok; eapply (go_move _ _ _ _ _ HI Et); try reflexivity; try done; by intros u [= <-].
  - destruct ok; eapply (go_move _ _ _ _ _ HI Et); try reflexivity; done.
  - done.
Qed.

Lemma disks_inv w : reachable w → Inv w.
Proof.
  assert (Hempty : ∀ dv cw dm fl n, Inv (mkWorld ∅ ∅ ∅ ∅ dv cw dm fl n)).
  { intros. split; try done; try (by intros ???; rewrite ?lookup_empty).
    - exists ∅. split; [intros [|]; cbn; by rewrite !lookup_empty|]. intros tpl r. unfold base_of. cbn. by rewrite lookup_empty.
    - intros [|] ?; cbn; [by rewrite lookup_empty|]. unfold base_of. cbn. by rewrite lookup_empty.
    - intros [|] o x; cbn; [by rewrite lookup_empty|]. unfold base_of. cbn. by rewrite lookup_empty.
    - intros [|] o x; cbn; by rewrite lookup_empty. }
  induction 1 as [|w e _ HI Hc]; [apply Hempty|]. destruct e as [i t|i ok mt|i st|rm]; cbn [step].
  - destruct (bool_decide (threads w !! i = None) && starts t) eqn:E; [|done]. apply andb_true_iff in E as [E%bool_decide_eq_true Hs].
    eapply (inv_move i w _ (Some t)); [exact HI|done|done|done|done|done|done|apply lookup_insert_eq|intros j N; by apply lookup_insert_ne|..]; rewrite ?E.
    + by destruct t.
    + by destruct t.
    + by destruct t.
    + intros tpl Et j N Ej. destruct (threads w !! j) as [u|] eqn:Eu; [|done]. by apply (Hc tpl j u Et Eu).
    + intros u [= <-]. by destruct t.
  - destruct (threads w !! i) as [t|] eqn:Et; [by apply inv_go|done].
  - done.
  - apply Hempty.
Qed.

(** ** What the manager promises *)

(** A check of [calm] for concrete runs. *)
Definition quiet (w : world) (e : event) : bool :=
  match e with
  | Watchdog _ _ => false
  | Spawn _ t => match init_of t with None => true | Some _ => bool_decide (threads w = ∅) end
  | _ => true
  end.
Fixpoint quiet_run (l : list event) (w : world) : bool :=
  match l with [] => true | e :: l => quiet w e && quiet_run l (step e w) end.
Lemma reachable_run l w : reachable w → quiet_run l w = true → reachable (run l w).
Proof.
  revert w. induction l as [|e l IH]; intros w Hw H; [done|]. apply andb_true_iff in H as [Hq H]. apply IH; [|done].
  constructor; [done|]. destruct e as [i t|i ok mt|i st|rm]; try done. simpl in *. intros tpl i' t' Et Ei'. rewrite Et in Hq.
  apply bool_decide_eq_true in Hq. by rewrite Hq in Ei'.
Qed.

Definition goes (i n : nat) : list event := repeat (Go i true 1) n.
Definition base_up : list event := Spawn 0 (InitBase "t" "clone.ext4") :: goes 0 3.
Definition snap_up (id : string) : list event := Spawn 1 (CreateSnap "t" id) :: goes 1 6.

(** C34. While the watchdog has nothing to recover and one thread at a time
    initialises a template, in every interleaving of creates, removals, rebakes
    and restarts a registered sandbox's device is over the base of its template,
    whose loop or NBD device is attached; and the count of a base is that of the
    registered sandboxes and the creates under way of its template, so that it is
    zero exactly when there is none. *)
Theorem snap_keeps_its_base w :
  reachable w →
  (∀ s e, snaps w !! s = Some e → ∃ r, base_of (template e) w = Some r ∧
    dms w !! dmName e = Some (loopDev r, cowLoop e) ∧ loopDev r ∈ devs w ∧ 0 < refs r) ∧
  (∀ tpl r, base_of tpl w = Some r → 0 ≤ refs r ∧
    (refs r = 0 ↔ (∀ s e, snaps w !! s = Some e → template e ≠ tpl) ∧ ∀ i t, threads w !! i = Some t → hold_t t ≠ Some tpl)).
Proof.
  intros HI%disks_inv. destruct (v_counts _ HI) as (G & HG & Hc).
  assert (Hz : ∀ tpl r, base_of tpl w = Some r → 0 ≤ refs r ∧ (refs r = 0 ↔ ∀ o, hold w o ≠ Some tpl)).
  { intros tpl r Er. rewrite (Hc _ _ Er). fold (count G tpl). split; [lia|]. split.
    - intros E o. rewrite <- HG. apply holders_none. lia.
    - intros Hn. assert (count G tpl = 0%nat) as ->; [|done]. apply map_size_empty_iff, map_empty. intros o.
      apply map_lookup_filter_None. right. intros t Ht Et. simpl in Et. subst t. apply (Hn o). by rewrite <- HG. }
  split.
  - intros s e Es. destruct (v_snaps _ HI _ _ Es) as (_ & r & Er & Hd). exists r. split_and!; [done|done|..].
    + destruct (base_some _ _ _ Er) as (b & Eb & Erb). destruct (v_base _ HI _ _ Eb) as (r' & Er' & Hr). congruence.
    + destruct (Hz _ _ Er) as [H0 H1]. destruct (decide (refs r = 0)) as [E|]; [|lia].
      destruct (proj1 H1 E (inr s)). simpl. by rewrite Es.
  - intros tpl r Er. destruct (Hz _ _ Er) as [H0 H1]. split; [done|]. rewrite H1. split.
    + intros Hn. split; [intros s e Es Ee|intros i t Et Ee].
      * apply (Hn (inr s)). simpl. rewrite Es. simpl. by rewrite Ee.
      * apply (Hn (inl i)). simpl. by rewrite Et.
    + intros [Hs Ht] [i|s] E; simpl in E.
      * destruct (threads w !! i) as [t|] eqn:Et; [|done]. by apply (Ht i t).
      * destruct (snaps w !! s) as [e|] eqn:Es; [|done]. injection E as E. by apply (Hs s e).
Qed.
Lemma snap_keeps_its_base_witness :
  let w := run (base_up ++ snap_up "a" ++ snap_up "b") w0 in
  snaps w !! "a" = Some (mkSnap "t" (dm_name "a") 2 "a") ∧ ∃ r, base_of "t" w = Some r ∧ 0 < refs r.
Proof.
  cbv zeta. assert (Hs : snaps (run (base_up ++ snap_up "a" ++ snap_up "b") w0) !! "a" = Some (mkSnap "t" (dm_name "a") 2 "a")) by (vm_compute; reflexivity).
  split; [exact Hs|].
  destruct (proj1 (snap_keeps_its_base (run (base_up ++ snap_up "a" ++ snap_up "b") w0)
    (reachable_run (base_up ++ snap_up "a" ++ snap_up "b") w0 reach_0 ltac:(vm_compute; reflexivity))) _ _ Hs) as (r & Hr & _ & _ & H).
  exists r. split; [exact Hr|exact H].
Defined.

(** *** A create and its removal, alone *)






(** ** What it does that it does not mean to *)

Definition lives (s : string) (w : world) : bool := match snaps w !! s with Some _ => true | None => false end.
(** The device a sandbox's disk is over, and whether it is attached. *)
Definition origin (s : string) (w : world) : option (nat * bool) :=
  e ← snaps w !! s; d ← dms w !! dmName e; Some (d.1, bool_decide (d.1 ∈ devs w)).

Definition stream_up (gen : string) : list event := Spawn 0 (InitStreamingBase "t" gen "") :: goes 0 4.
(** The watchdog drops a base that sandboxes count on; their removals then count
    on the next one, whose device is detached under a running sandbox. *)
Lemma recovery_miscounts :
  let w := run (stream_up "1" ++ snap_up "a" ++ [Watchdog 2 (λ _, true)] ++ goes 2 2 ++ stream_up "1" ++ snap_up "b" ++
    [Spawn 3 (RemoveSnap "a")] ++ goes 3 4 ++ stream_up "2") w0 in
  lives "b" w = true ∧ snd <$> origin "b" w = Some false.
Proof. cbv zeta. split; vm_compute; reflexivity. Qed.
(** And no create brings a base back: CreateSnap is all a create calls. *)
Lemma recovery_leaves_no_base :
  let w := run (stream_up "1" ++ [Watchdog 2 (λ _, true)] ++ goes 2 2 ++ snap_up "b") w0 in
  bases w !! "t" = None ∧ snaps w !! "b" = None.
Proof. cbv zeta. split; vm_compute; reflexivity. Qed.
(** Two initialisations at once (the start-up sweep and the start-up bake) attach
    twice; the count of the first base is lost, and its loop with it. *)
Lemma two_inits_lose_a_count :
  let w := run ([Spawn 0 (InitBase "t" "f"); Spawn 2 (InitBase "t" "f")] ++ goes 0 1 ++ goes 2 1 ++ goes 0 2 ++ snap_up "a" ++ goes 2 2 ++
    [Spawn 3 (RemoveSnap "a")] ++ goes 3 4 ++ snap_up "b" ++
    [Spawn 0 (InitBase "t" "f"); Go 0 true 2; Go 0 true 2; Go 0 true 2; Go 0 true 2]) w0 in
  lives "b" w = true ∧ snd <$> origin "b" w = Some false.
Proof. cbv zeta. split; vm_compute; reflexivity. Qed.
(** A rebake under running sandboxes keeps the base of the old disk, and says
    nothing: a create gives the new memory the old disk. *)
Lemma rebake_serves_the_old_disk :
  let w := run (base_up ++ snap_up "a" ++ [Spawn 0 (InitBase "t" "clone.ext4"); Go 0 true 2] ++ snap_up "b") w0 in
  mtime <$> base_of "t" w = Some 1 ∧ origin "b" w = origin "a" w.
Proof. cbv zeta. split; vm_compute; reflexivity. Qed.
(** InitBase in the place of a streamed base detaches a loop it is not: the NBD
    device, and its server, stay without owner. *)
Lemma local_base_leaves_the_stream :
  let w := run (stream_up "1" ++ [Spawn 0 (InitBase "t" "f"); Go 0 true 1; Go 0 false 1; Go 0 true 1; Go 0 true 1]) w0 in
  nbdOrigin <$> base_of "t" w = Some false ∧ devs w = {[0%nat; 2%nat]}.
Proof. cbv zeta. split; vm_compute; reflexivity. Qed.
(** A removal whose device is busy is forgotten: the device stays, with the base
    detached under it, and another removal does nothing. *)
Lemma busy_removal_is_forgotten :
  let w := run (base_up ++ snap_up "a" ++ [Spawn 1 (RemoveSnap "a"); Go 1 true 1; Go 1 false 1; Go 1 false 1; Go 1 true 1] ++
    [Spawn 0 (InitBase "t" "clone.ext4"); Go 0 true 2; Go 0 true 2] ++ [Spawn 1 (RemoveSnap "a"); Go 1 true 1]) w0 in
  is_Some (dms w !! dm_name "a") ∧ devs w = ∅.
Proof. cbv zeta. split; [eexists|]; vm_compute; reflexivity. Qed.
(** An agent that starts again does not know the devices of the machines that
    outlived it: their removal does nothing. *)
Lemma restart_forgets_snaps :
  let w := run (base_up ++ snap_up "a" ++ [Restart (λ _, false); Spawn 1 (RemoveSnap "a"); Go 1 true 1]) w0 in
  is_Some (dms w !! dm_name "a") ∧ cows w = {[2%nat]} ∧ threads w = ∅.
Proof. cbv zeta. split; [eexists|]; [|split]; vm_compute; reflexivity. Qed.
