(* ===== verification/Databases.v ===== *)
(** Managed databases: the handlers of api/cmd/api/databases.go, databases_metrics.go
    and databases_failover.go (as far as its 202) and the reset of credentials of
    db_credentials.go.  A handler is the tree of the calls it makes
    (Calls.v): to the agent through the director, to the shared tables, to the
    archive.  The JSON of an answer is what the
    decoder leaves in the handler's struct. *)

From S2P Require Import Prelude GoStrings Slugs GoTime Calls Edge Failover.
From stdpp Require Import strings pretty.

Open Scope string_scope.
Open Scope list_scope.
Open Scope Z_scope.
#[local] Set Warnings "-clear-no-such-hyp".

(** ** Data *)

(** *** Helpers *)

Definition dbTemplateBySize (size : string) : option string := if String.eqb size "1g" then Some dbTemplate else None.
Definition dbSizeOfTemplate (t : string) : string := if isDBTemplate t then "1g" else "".
Definition dbMetaTrue (v : string) : bool :=
  let v := lower_string (TrimSpace v) in String.eqb v "true" || String.eqb v "1" || String.eqb v "yes".
Definition agentCreatedAtEpoch (s : string) : Z :=
  let s := TrimSpace s in
  if String.eqb s "" then 0 else match parse_rfc3339 s with Some t => t / Second | None => 0 end.
Definition dbPublicStatus (s : string) : string := if String.eqb s "creating" then "provisioning" else s.
Definition isAgentTransient (st : Z) : bool := (st =? 502) || (st =? 503) || (st =? 504).

Record DatabaseInfo := mkInfo {
  ID : string; Status : string; Template : string; Label : string; CreatedAt : Z;
  Host : string; Port : Z; Database : string; Username : string; Password : string; ConnectionURL : string;
  BrokerToken : string; BrokerURL : string; Error : string;
  FailoverAvailable : bool; SandboxID : string; Size : string; AlwaysOn : bool;
}.
Record pgInfoResponse := mkPg { pg_database : string; pg_user : string; pg_password : string; pg_token : string }.

(** A sandbox as the agent shows it; [meta]: no metadata is an empty one. *)
Record sandbox := mkSb { sb_id : string; sb_template : string; sb_status : string; sb_created : string; sb_meta : gmap string string }.
Definition no_sandbox : sandbox := mkSb "" "" "" "" ∅.

(** The integers of a snapshot; its hit ratio as it is read, and no derived
    percentage. *)
Record DatabaseStats := mkStats {
  PostgresVersion : string; DBSizeBytes : Z; Connections : Z; MaxConnections : Z; UptimeSeconds : Z; CacheHitRatio : string;
  DiskSizeBytes : Z; DiskUsedBytes : Z; DiskAvailBytes : Z;
}.

(** *** Calls *)

Inductive body :=
  | NoBody
  | CreateBody (template : string) (cpu mem : Z) (meta : gmap string string) (persistent : bool)
  | ConfigBody (always_on : bool)
  | ExecBody (cmd : string)
  | Forwarded (bytes : string).
Record areq := mkReq { q_method : string; q_path : string; q_ws : string; q_body : body }.
(** [x_ok]: the decoder has no error; [x_sb], [x_list], [x_pg], [x_out]: what it
    leaves, for each of the structs an answer is decoded into. *)
Record aresp := mkResp {
  x_status : Z; x_text : string; x_ok : bool;
  x_sb : sandbox; x_list : list sandbox; x_pg : pgInfoResponse; x_out : string;
}.
(** The shared table's row: template, status, metadata, created_at. *)
Record shared_row := mkShared { sh_template : string; sh_status : string; sh_meta : gmap string string; sh_created : Z }.

Inductive call :=
  | CAgent (q : areq)                   (* agentCall, in this process *)
  | CDirect (endpoint path : string)    (* directAgentCall *)
  | CShared (id : string)               (* SELECT … FROM sandboxes WHERE id *)
  | CReader (id : string)               (* the query of recoveringFrom *)
  | CSeed (id : string)                 (* seedArchiveGeneration *)
  | CLease (id : string)                (* LookupLease *)
  | CAgents                             (* the scheduler's List *)
  | CArchive (id : string)              (* dbArchiveExists' listing *)
  | CPurge (id : string)                (* one gsutil rm -r of the archive *)
  | CRow (id : string)                  (* the query of failoverAuthorize *)
  | CStatus (id : string)               (* the query of sandboxStatus *)
  | CClaim (id : string)                (* failoverInFlight[id], tested and set under its lock *)
  | CFailover (workspace id : string) (ac : Failover.accepted)   (* go runFailover *)
  | CCached (key : string * string * string * string)            (* dbMetricsCache *)
  | CSeries (workspace id interval : string).                    (* the query to ClickHouse *)

(** [None]: the call has an error. *)
Definition ans (c : call) : Type :=
  match c with
  | CAgent _ => option aresp
  | CDirect _ _ => option Z
  | CShared _ => option shared_row
  | CReader _ => option (option string)
  | CSeed _ => bool
  | CLease _ => option (option Agent)
  | CAgents => option (list Agent)
  | CArchive _ => gsutil_ls
  | CPurge _ => bool
  | CRow _ | CStatus _ => option (option Leases.sb_row)
  | CClaim _ => bool
  | CFailover _ _ _ => unit
  | CCached _ => option (list string)
  | CSeries _ _ _ => option (list string)
  end.

Inductive reply :=
  | Err (code : Z) (retry_after : bool) (msg : string)
  | Info (code : Z) (i : DatabaseInfo)
  | Items (l : list DatabaseInfo)
  | Waking
  | Connection (connection_url broker_url broker_token : string)
  | Rotated
  | Logs (text : string)
  | NoContent
  | Stats (st : DatabaseStats)
  | Metrics (range bucket : string) (seconds from to_ : Z) (points : list string)
  | Relay (st : Z) (text : string).     (* the broker's own answer *)

Abbreviation prog := (Calls.prog ans reply).
Abbreviation event := (Calls.event ans).
Abbreviation did := (Calls.did (ans := ans)).
Open Scope call_scope.

(** Where the service runs. *)
Record config := mkConfig {
  suffix : string;         (* PANDASTACK_DB_SNI_SUFFIX *)
  base : string;           (* PANDASTACK_API_BASE_URL *)
  shared : bool;           (* a control-plane database *)
  multi : bool;            (* a director *)
  bucket : bool;           (* PANDASTACK_SNAPSHOT_BUCKET *)
}.

Section handlers.
Context (cf : config) (is_uuid : string → bool) (now : Z).

(** ** Handlers *)

Definition agentCall (method path workspace : string) (b : body) : call := CAgent (mkReq method path workspace b).
Definition sandbox_path (id : string) : string := "/v1/sandboxes/" +:+ id.
Definition broker_url (id : string) : string := base cf +:+ "/v1/databases/" +:+ id +:+ "/proxy".
Definition connection_url (pg : pgInfoResponse) (host : string) : string :=
  "postgres://" +:+ pg_user pg +:+ ":" +:+ pg_password pg +:+ "@" +:+ host +:+ ":5432/" +:+ pg_database pg.

(** fetchPGInfo, and what the handler does with it ([None]: an error). *)
Definition fetchPGInfo (workspace id : string) (k : option pgInfoResponse → prog) : prog :=
  x <<- agentCall "GET" (sandbox_path id +:+ "/postgres-info") workspace NoBody;
  k (match x with Some x => if (x_status x =? 200) && x_ok x then Some (x_pg x) else None | None => None end).

Definition mergeInfo (i : DatabaseInfo) (pg : pgInfoResponse) (id : string) : DatabaseInfo :=
  let host := id +:+ suffix cf in
  mkInfo (ID i) (Status i) (Template i) (Label i) (CreatedAt i) host 5432 (pg_database pg) (pg_user pg) (pg_password pg)
    (connection_url pg host) (pg_token pg) (broker_url id) (Error i) (FailoverAvailable i) (SandboxID i) (Size i) (AlwaysOn i).

(** The record of a sandbox; [sid]: its SandboxID field. *)
Definition info_of (sid : string) (sb : sandbox) : DatabaseInfo :=
  mkInfo (sb_id sb) (dbPublicStatus (sb_status sb)) (sb_template sb) (default "" (sb_meta sb !! "db.label"))
    (agentCreatedAtEpoch (sb_created sb)) "" 0 "" "" "" "" "" "" "" false sid (dbSizeOfTemplate (sb_template sb))
    (dbMetaTrue (default "" (sb_meta sb !! "db.always_on"))).
Definition with_status (st err : string) (i : DatabaseInfo) : DatabaseInfo :=
  mkInfo (ID i) st (Template i) (Label i) (CreatedAt i) (Host i) (Port i) (Database i) (Username i) (Password i)
    (ConnectionURL i) (BrokerToken i) (BrokerURL i) err (FailoverAvailable i) (SandboxID i) (Size i) (AlwaysOn i).
Definition with_failover (b : bool) (i : DatabaseInfo) : DatabaseInfo :=
  mkInfo (ID i) (Status i) (Template i) (Label i) (CreatedAt i) (Host i) (Port i) (Database i) (Username i) (Password i)
    (ConnectionURL i) (BrokerToken i) (BrokerURL i) (Error i) b (SandboxID i) (Size i) (AlwaysOn i).

(** *** POST /v1/databases *)

Record create_opts := mkOpts { o_cpu : Z; o_mem : Z; o_label : string; o_size : string; o_always_on : bool }.

Definition create (workspace : string) (o : create_opts) : prog :=
  if String.eqb workspace "" then Ret (Err 401 false "workspace not set")
  else
    let cpu := if o_cpu o =? 0 then 2 else o_cpu o in
    let mem := if o_mem o =? 0 then 1024 else o_mem o in
    let size := if String.eqb (o_size o) "" then "1g" else o_size o in
    match dbTemplateBySize (lower_string size) with
    | None => Ret (Err 400 false "invalid size")
    | Some template =>
        let meta := if String.eqb (o_label o) "" then ∅ else {["db.label" := o_label o]} in
        let meta := if o_always_on o then <["db.always_on" := "true"]> meta else meta in
        x <<- agentCall "POST" "/v1/sandboxes" workspace (CreateBody template cpu mem meta true);
        match x with
        | None => Ret (Err 502 false "could not create database sandbox")
        | Some x =>
            if negb ((x_status x =? 200) || (x_status x =? 201)) then Ret (Err 502 false ("agent error: " +:+ x_text x))
            else if negb (x_ok x) then Ret (Err 500 false "decode sandbox response")
            else
              let id := sb_id (x_sb x) in
              _ <<- CSeed id;
              Ret (Info 202 (mkInfo id "provisioning" template (o_label o) (agentCreatedAtEpoch (sb_created (x_sb x)))
                (id +:+ suffix cf) 5432 "" "" "" "" "" (broker_url id) "" false "" (dbSizeOfTemplate template) (o_always_on o)))
        end
    end.

(** *** GET /v1/databases, GET /v1/databases/{id} *)

Definition list_ (workspace : string) : prog :=
  if String.eqb workspace "" then Ret (Err 401 false "workspace not set")
  else
    x <<- agentCall "GET" "/v1/sandboxes" workspace NoBody;
    match x with
    | None => Ret (Err 502 false "")
    | Some x => Ret (Items (info_of "" <$> filter (λ sb, isDBTemplate (sb_template sb) = true) (x_list x)))
    end.

Definition checkFailover (id : string) (i : DatabaseInfo) : prog :=
  if negb (multi cf) then Ret (Info 200 (with_failover false i))
  else
    ags <<- CAgents;
    if checkFailoverAvailability now false ags (true, LsFound) then
      if negb (bucket cf) then Ret (Info 200 (with_failover false i))
      else
        a <<- CArchive id;
        Ret (Info 200 (with_failover (checkFailoverAvailability now false ags (true, a)) i))
    else Ret (Info 200 (with_failover false i)).

(** getFromSharedTable: what it makes of the row, *)
Definition shared_info (workspace id : string) (row : option shared_row) : option DatabaseInfo :=
  match row with
  | None => None
  | Some r =>
      if negb (isDBTemplate (sh_template r)) then None
      else if negb (String.eqb workspace "admin") && negb (String.eqb workspace "default") &&
              negb (String.eqb (workspace_of (sh_meta r)) workspace) then None
      else Some (mkInfo id (dbPublicStatus (sh_status r)) (sh_template r) (default "" (sh_meta r !! "db.label")) (sh_created r)
             "" 0 "" "" "" "" "" "" "" false id (dbSizeOfTemplate (sh_template r)) (dbMetaTrue (default "" (sh_meta r !! "db.always_on"))))
  end.
(** and the query. *)
Definition getFromSharedTable (workspace id : string) (k : option DatabaseInfo → prog) : prog :=
  if negb (shared cf) then k None else x <<- CShared id; k (shared_info workspace id x).

Definition get (workspace id : string) : prog :=
  x <<- agentCall "GET" (sandbox_path id) workspace NoBody;
  match x with
  | None => Ret (Err 502 false "")
  | Some x =>
      if x_status x =? 404 then
        getFromSharedTable workspace id (λ i, match i with Some i => Ret (Info 200 i) | None => Ret (Err 404 false "database not found") end)
      else
        let sb := x_sb x in
        if negb (isDBTemplate (sb_template sb)) then Ret (Err 404 false "database not found (template mismatch)")
        else
          let i := info_of (sb_id sb) sb in
          if String.eqb (sb_status sb) "running" then
            fetchPGInfo workspace id (λ pg, match pg with
              | Some pg => Ret (Info 200 (mergeInfo i pg id))
              | None => Ret (Info 200 (with_status "provisioning" "Launching…" i))
              end)
          else if String.eqb (sb_status sb) "failed" then checkFailover id i
          else Ret (Info 200 i)
  end.

(** *** DELETE /v1/databases/{id} *)

Definition recoveringFrom (id : string) (k : option string → prog) : prog :=
  if negb (shared cf) then k None
  else if negb (is_uuid id) then k None
  else
    x <<- CReader id;
    k (match x with None => Some "unknown (lookup failed — retry)" | Some None => None | Some (Some r) => Some r end).

(** cleanupArchive: [n] attempts are left. *)
Fixpoint purge (n : nat) (id : string) : prog :=
  match n with
  | O => Ret NoContent
  | S n => ok <<- CPurge id; if (ok : bool) then Ret NoContent else purge n id
  end.
Definition cleanupArchive (id : string) : prog := if bucket cf then purge 3 id else Ret NoContent.

Definition unreachable : prog := Ret (Err 503 true "database host is transiently unreachable").
Definition not_found : prog := Ret (Err 404 false "database not found").

Definition delete (workspace id : string) : prog :=
  x <<- agentCall "GET" (sandbox_path id) workspace NoBody;
  match x with
  | None => unreachable
  | Some x =>
      if isAgentTransient (x_status x) then unreachable
      else if x_status x =? 404 then not_found
      else if negb (isDBTemplate (sb_template (x_sb x))) then not_found
      else
        recoveringFrom id (λ reader, match reader with
        | Some r => Ret (Err 409 false r)
        | None =>
            y <<- agentCall "DELETE" (sandbox_path id) workspace NoBody;
            match y with
            | None => unreachable
            | Some y =>
                if isAgentTransient (x_status y) then unreachable
                else if x_status y =? 404 then not_found
                else if 300 <=? x_status y then Ret (Err 502 false (x_text y))
                else cleanupArchive id
            end
        end)
  end.

(** *** PATCH, POST …/wake, GET …/connection, GET …/logs *)

Definition verifyDB (workspace id : string) (k : string → prog) : prog :=
  x <<- agentCall "GET" (sandbox_path id) workspace NoBody;
  match x with
  | None => Ret (Err 502 false "")
  | Some x =>
      if x_status x =? 404 then not_found
      else if negb (isDBTemplate (sb_template (x_sb x))) then not_found
      else k (sb_status (x_sb x))
  end.

(** [always_on]: what the body has ([None]: no field; [Some None]: it is not JSON). *)
Definition patch (workspace id : string) (always_on : option (option bool)) : prog :=
  verifyDB workspace id (λ _, match always_on with
  | Some None => Ret (Err 400 false "invalid request body")
  | None => Ret (Err 400 false "no updatable fields provided")
  | Some (Some b) =>
      x <<- agentCall "PATCH" ("/db/" +:+ id +:+ "/config") workspace (ConfigBody b);
      match x with
      | None => Ret (Err 502 false "could not update database config")
      | Some x => if negb (x_status x =? 200) then Ret (Err 502 false (x_text x)) else get workspace id
      end
  end).






(** *** GET …/stats *)


(** *** GET …/metrics *)



(** *** POST …/failover, as far as the 202 *)


(** *** POST …/reset-credentials *)


(** *** The query broker: /v1/databases/{id}/proxy *)

Definition wrong_credential (authz : string) : bool :=
  has_prefix "Bearer pds_" authz && negb (has_prefix "Bearer pds_pg_" authz).

(** proxyWorkspace: "" where there is none. *)
Definition proxyWorkspace (id : string) (k : string → prog) : prog :=
  if negb (shared cf) || String.eqb id "" then k ""
  else
    x <<- CShared id;
    k (match x with Some r => if isDBTemplate (sh_template r) then workspace_of (sh_meta r) else "" | None => "" end).

Definition broker_path (id : string) : string := sandbox_path id +:+ "/proxy/5544".
(** The polls of 15 s, every 750 ms; [late]: the deadline passes after the poll. *)
Fixpoint waitBrokerReady (late : nat → bool) (n : nat) (workspace id : string) (k : bool → prog) : prog :=
  match n with
  | O => k false
  | S n =>
      x <<- agentCall "GET" (broker_path id +:+ "/v1/health") workspace NoBody;
      if match x with Some x => x_status x =? 200 | None => false end then k true
      else if late n then k false
      else waitBrokerReady late n workspace id k
  end.
Definition polls : nat := 21.

(** [tail]: the path after /proxy; [query]: the raw query; [small]: the body fits the
    buffer; [gone]: the client is, after the first answer.  An error of the call
    is a request that cannot be made: 500. *)
Definition relay (x : option aresp) : reply := match x with Some x => Relay (x_status x) (x_text x) | None => Relay 500 "proxy" end.
Definition proxy (late : nat → bool) (authz id method tail query bytes : string) (small gone : bool) : prog :=
  if wrong_credential authz then Ret (Err 401 false "the query broker requires the per-database broker_token")
  else
    proxyWorkspace id (λ ws,
      if String.eqb ws "" && shared cf then not_found
      else
        let ws := if String.eqb ws "" then "default" else ws in
        let tail := if String.eqb tail "" then "/" else tail in
        let query := if String.eqb query "" then "" else "?" +:+ query in
        let forward := agentCall method (broker_path id +:+ tail +:+ query) ws (Forwarded bytes) in
        x <<- forward;
        if small && match x with Some x => x_status x =? 502 | None => false end && negb gone then
          waitBrokerReady late polls ws id (λ up, if up : bool then y <<- forward; Ret (relay y) else Ret (relay x))
        else Ret (relay x)).
End handlers.

(** *** The routes *)


(** ** Tenancy *)

(** *** Whose credentials *)




Section tenancy.
Context (cf : config) (is_uuid : string → bool) (now : Z) (ws : string).


End tenancy.


Section discreet.
Context (cf : config) (is_uuid : string → bool) (now : Z) (ws : string).
End discreet.

(** ** Deleting *)

(** What must have been seen before an archive goes: a database of the caller's,
    no reader of it, and the agent's success. *)
Definition licence (cf : config) (is_uuid : string → bool) (ws id : string) (h : list event) : Prop :=
  (∃ x, did (agentCall "GET" (sandbox_path id) ws NoBody) (Some x) ∈ h ∧ isDBTemplate (sb_template (x_sb x)) = true ∧
     x_status x ≠ 404 ∧ isAgentTransient (x_status x) = false) ∧
  (shared cf = true → is_uuid id = true → did (CReader id) (Some None) ∈ h) ∧
  ∃ y, did (agentCall "DELETE" (sandbox_path id) ws NoBody) (Some y) ∈ h ∧ x_status y < 300.
Lemma licence_weaken cf is_uuid ws id h h' : h ⊆ h' → licence cf is_uuid ws id h → licence cf is_uuid ws id h'.
Proof.
  intros Hh ((x & Hx & Hx') & Hr & y & Hy & Hy'). split; [|split].
  - exists x. split; [by apply Hh|done].
  - intros Hs Hu. by apply Hh, Hr.
  - exists y. split; [by apply Hh|done].
Qed.
Definition licensed (cf : config) (is_uuid : string → bool) (ws id : string) (h : list event) (c : call) : Prop :=
  match c with CPurge i => i = id ∧ bucket cf = true ∧ licence cf is_uuid ws id h | _ => True end.
Definition no_content (cf : config) (is_uuid : string → bool) (ws id : string) (h : list event) (r : reply) : Prop :=
  (r = NoContent → licence cf is_uuid ws id h) ∧ (∀ i ok, did (CPurge i) ok ∈ h → r = NoContent).

Section deleting.
Context (cf : config) (is_uuid : string → bool) (ws id : string).
Lemma purge_licensed n h :
  bucket cf = true → licence cf is_uuid ws id h → before (licensed cf is_uuid ws id) h (purge n id).
Proof.
  intros Hb. revert h. induction n as [|n IH]; intros h Hl; [done|]. split; [done|].
  intros []; [done|]. apply IH. eapply licence_weaken; [|done]. set_solver.
Qed.
Lemma purge_no_content n h : licence cf is_uuid ws id h → leads (no_content cf is_uuid ws id) h (purge n id).
Proof.
  revert h. induction n as [|n IH]; intros h Hl; [done|].
  assert (Hl' : ∀ ok, licence cf is_uuid ws id (did (CPurge id) ok :: h)) by (intros ok; eapply licence_weaken; [|done]; set_solver).
  intros []; [by split|apply IH, Hl'].
Qed.
Definition same_purges (e : event) : bool := match e with existT (CPurge _) _ => false | _ => true end.
Lemma refused h code ra msg : forallb same_purges h = true → no_content cf is_uuid ws id h (Err code ra msg).
Proof.
  intros Hh. split; [done|]. intros i ok Hin%list_elem_of_In. rewrite forallb_forall in Hh. by specialize (Hh _ Hin).
Qed.
Lemma deleted_licence x h y :
  isAgentTransient (x_status x) = false → (x_status x =? 404) = false → isDBTemplate (sb_template (x_sb x)) = true →
  did (agentCall "GET" (sandbox_path id) ws NoBody) (Some x) ∈ h → (shared cf = true → is_uuid id = true → did (CReader id) (Some None) ∈ h) →
  (300 <=? x_status y) = false →
  licence cf is_uuid ws id (did (agentCall "DELETE" (sandbox_path id) ws NoBody) (Some y) :: h).
Proof.
  intros H1 H2 H3 Hx Hr H4. split; [|split].
  - exists x. split_and!; [by apply elem_of_cons; right|done|lia|done].
  - intros Hs Hu. apply elem_of_cons. right. by apply Hr.
  - exists y. split; [apply elem_of_cons; by left|lia].
Qed.
End deleting.

(** Every branch of a deletion. *)
Ltac deleting := repeat first
  [ done | match goal with |- before _ _ (Do _ _) => split; [done|] | |- leads _ _ (Do _ _) => intro end
  | progress intros | apply refused; done | apply purge_licensed; [done|] | apply purge_no_content | branch ].
Ltac licence_seen :=
  repeat match goal with
  | H : negb _ = false |- _ => apply negb_false_iff in H
  | H : negb _ = true |- _ => apply negb_true_iff in H
  | H : (match ?x with _ => _ end) = None |- _ => destruct x as [[]|]; try discriminate H
  end; subst;
  match goal with |- context [did (agentCall "GET" _ _ _) (Some ?z)] => apply (deleted_licence _ _ _ _ z); try eassumption end;
  [by rewrite !elem_of_cons; auto|intros; first [congruence|by rewrite !elem_of_cons; auto]].
Lemma delete_before cf is_uuid ws id : before (licensed cf is_uuid ws id) [] (delete cf is_uuid ws id).
Proof. unfold delete, unreachable, not_found, recoveringFrom, cleanupArchive. deleting; licence_seen. Qed.
Lemma delete_leads cf is_uuid ws id : leads (no_content cf is_uuid ws id) [] (delete cf is_uuid ws id).
Proof.
  unfold delete, unreachable, not_found, recoveringFrom, cleanupArchive. deleting; try licence_seen.
  all: split; [intros _; licence_seen|done].
Qed.

(** C17. The archive of a database, its only backup, is purged by a DELETE only
    after the agent has shown a database to the caller, the shared table has named
    no database still recovering from it, and the agent has answered the deletion
    with success.  The answer is 204 exactly in those runs, whether the purge works
    or not, and a run that purges answers 204. *)
Theorem archive_outlives_the_sandbox cf is_uuid ws id tr r :
  runs (delete cf is_uuid ws id) tr r →
  (∀ tr1 i ok tr2, tr = tr1 ++ did (CPurge i) ok :: tr2 →
     i = id ∧ bucket cf = true ∧ r = NoContent ∧ licence cf is_uuid ws id tr1) ∧
  (r = NoContent → licence cf is_uuid ws id tr).
Proof.
  intros Hr. pose proof (leads_runs _ _ _ _ _ (delete_leads cf is_uuid ws id) Hr) as [H1 H2]. split.
  - intros tr1 i ok tr2 ->. destruct (before_runs _ _ _ _ _ _ _ _ (delete_before cf is_uuid ws id) Hr) as (-> & Hb & Hl).
    split_and!; [done|done| |eapply licence_weaken; [|exact Hl]; intros e; apply rev_elem].
    apply (H2 id ok). rewrite app_nil_r, list_elem_of_In, <- in_rev, <- list_elem_of_In. set_solver.
  - intros E. eapply licence_weaken; [|by apply H1]. intros e. apply rev_elem.
Qed.
Definition a_config : config := mkConfig ".db.example" "https://api.example" true true true.
Definition a_db : sandbox := mkSb "d1" "postgres-16" "running" "" ∅.
Definition pg_1 : pgInfoResponse := mkPg "postgres" "postgres" "s3cret" "pds_pg_1".
Definition answer (st : Z) : aresp := mkResp st "" true a_db [] pg_1 "".
Lemma archive_outlives_the_sandbox_witness :
  let tr := [did (agentCall "GET" (sandbox_path "d1") "w" NoBody) (Some (answer 200)); did (CReader "d1") (Some None);
             did (agentCall "DELETE" (sandbox_path "d1") "w" NoBody) (Some (answer 204)); did (CPurge "d1") false; did (CPurge "d1") true] in
  runs (delete a_config (λ _, true) "w" "d1") tr NoContent ∧ licence a_config (λ _, true) "w" "d1" tr.
Proof.
  intros tr.
  assert (H : runs (delete a_config (λ _, true) "w" "d1") tr NoContent) by (repeat (eexists; eexists; split; [reflexivity|]); by split).
  split; [exact H|]. exact (proj2 (archive_outlives_the_sandbox a_config (λ _, true) "w" "d1" tr NoContent H) eq_refl).
Defined.

(** ** Credentials *)




(** ** The query broker *)

Definition sent (e : event) : bool :=
  match e with existT (CAgent q) _ => match q_body q with Forwarded _ => true | _ => false end | _ => false end.
(** A poll of the broker's health. *)
Definition health (ws id : string) : call := agentCall "GET" (broker_path id +:+ "/v1/health") ws NoBody.
Lemma waitBrokerReady_runs late n ws id k tr r :
  runs (waitBrokerReady late n ws id k) tr r →
  ∃ hs up tr', tr = hs ++ tr' ∧ Forall (λ e, ∃ a, e = did (health ws id) a) hs ∧ (length hs ≤ n)%nat ∧ runs (k up) tr' r ∧
    (up = true → ∃ hs' x, hs = hs' ++ [did (health ws id) (Some x)] ∧ x_status x = 200).
Proof.
  revert tr. induction n as [|n IH]; intros tr; simpl; [intros H; by exists [], false, tr|].
  intros (a & l & -> & Hl). destruct (match a with Some x => x_status x =? 200 | None => false end) eqn:E.
  - exists [did (health ws id) a], true, l. split_and!; [done|by constructor; [exists a|]|simpl; lia|done|].
    intros _. destruct a as [x|]; [|done]. exists [], x. split; [done|lia].
  - destruct (late n).
    + exists [did (health ws id) a], false, l. split_and!; [done|by constructor; [exists a|]|simpl; lia|done|done].
    + destruct (IH _ Hl) as (hs & up & tr' & -> & Hhs & Hn & Hk & Hup).
      exists (did (health ws id) a :: hs), up, tr'. split_and!; [done|constructor; [by exists a|done]|simpl; lia|done|].
      intros Hu. destruct (Hup Hu) as (hs' & x & -> & Hx). by exists (did (health ws id) a :: hs'), x.
Qed.

(** The workspace a query is sent under. *)
Definition broker_workspace (cf : config) (id ws : string) (pre : list event) : Prop :=
  (shared cf = false ∧ pre = [] ∧ ws = "default") ∨
  (shared cf = true ∧ ∃ row, pre = [did (CShared id) (Some row)] ∧ isDBTemplate (sh_template row) = true ∧ ws = workspace_of (sh_meta row) ∧ ws ≠ "").
Lemma proxyWorkspace_runs cf id k tr r :
  runs (proxyWorkspace cf id k) tr r →
  (∃ pre ws tr', tr = pre ++ tr' ∧ runs (k ws) tr' r ∧ ws ≠ "" ∧ broker_workspace cf id ws pre) ∨
  (∃ pre tr', tr = pre ++ tr' ∧ runs (k "") tr' r ∧ filter (λ e, sent e = true) pre = [] ∧ (shared cf = false → pre = [])).
Proof.
  unfold proxyWorkspace. destruct (shared cf) eqn:Es; simpl.
  2: { intros H. right. by exists [], tr. }
  destruct (String.eqb id ""); [intros H; right; by exists [], tr|].
  intros ([row|] & l & -> & Hl); [|right; by exists [did (CShared id) None], l].
  destruct (isDBTemplate (sh_template row)) eqn:E; [|right; by exists [did (CShared id) (Some row)], l].
  destruct (String.eqb_spec (workspace_of (sh_meta row)) "") as [Ew|Ew].
  - right. rewrite Ew in Hl. by exists [did (CShared id) (Some row)], l.
  - left. exists [did (CShared id) (Some row)], (workspace_of (sh_meta row)), l. split_and!; [done|done|done|].
    right. split; [done|]. exists row. done.
Qed.

(** The query as it is sent, *)
Definition query (id method tail query bytes ws : string) : areq :=
  mkReq method (broker_path id +:+ (if String.eqb tail "" then "/" else tail) +:+ (if String.eqb query "" then "" else "?" +:+ query)) ws (Forwarded bytes).
(** and how often: once, or again after a 502 and a healthy poll. *)
Definition sent_once (ws id : string) (q : areq) (tr : list event) (r : reply) : Prop :=
  ∃ x hs, tr = did (CAgent q) x :: hs ∧ Forall (λ e, ∃ a, e = did (health ws id) a) hs ∧ (length hs ≤ polls)%nat ∧ r = relay x.
Definition sent_again (ws id : string) (q : areq) (tr : list event) (r : reply) : Prop :=
  ∃ x hs ok y, tr = did (CAgent q) (Some x) :: hs ++ [did (health ws id) (Some ok); did (CAgent q) y] ∧ x_status x = 502 ∧
    Forall (λ e, ∃ a, e = did (health ws id) a) hs ∧ (length hs < polls)%nat ∧ x_status ok = 200 ∧ r = relay y.
Lemma send_runs late ws id q small gone tr r :
  runs (x <<- CAgent q;
    if small && match x with Some x => x_status x =? 502 | None => false end && negb gone
    then waitBrokerReady late polls ws id (λ up, if up : bool then y <<- CAgent q; Ret (relay y) else Ret (relay x))
    else Ret (relay x)) tr r →
  sent_once ws id q tr r ∨ small = true ∧ gone = false ∧ sent_again ws id q tr r.
Proof.
  intros (x & l & -> & Hl).
  destruct (small && match x with Some x => x_status x =? 502 | None => false end && negb gone) eqn:E.
  - destruct small, gone, x as [x|]; try discriminate E; simpl in E; rewrite ?andb_false_r in E; try discriminate E. rewrite andb_true_r in E.
    destruct (waitBrokerReady_runs _ _ _ _ _ _ _ Hl) as (hs & up & tr' & -> & Hhs & Hn & Hk & Hup). destruct up.
    + right. split; [done|]. split; [done|]. destruct Hk as (y & l & -> & -> & ->).
      destruct (Hup eq_refl) as (hs' & ok & -> & Hok). apply Forall_app in Hhs as [Hhs _].
      exists x, hs', ok, y. rewrite <- app_assoc. rewrite length_app in Hn. simpl in Hn. split_and!; [done|lia|done|lia|done|done].
    + left. destruct Hk as [-> ->]. exists (Some x), hs. by rewrite app_nil_r.
  - left. destruct Hl as [-> ->]. exists x, []. by split_and!; simpl; try lia; try done.
Qed.

(** A query reaches the broker under the workspace of the database's row, and
    without it (no such database, or an account's key in place of the broker's
    token) nothing is sent.  It is sent once, or twice where the first answer was a
    502, its body fits the buffer, the client is still there, and the last of at
    most 21 polls of the broker's health answered 200; the reply is the answer to
    the last one sent, whatever it is. *)
Theorem query_sent_once_or_again cf late authz id method tail qs bytes small gone tr r :
  runs (proxy cf late authz id method tail qs bytes small gone) tr r →
  (filter (λ e, sent e = true) tr = [] ∧ ∃ code msg, r = Err code false msg) ∨
  wrong_credential authz = false ∧ ∃ pre ws tr', tr = pre ++ tr' ∧ broker_workspace cf id ws pre ∧
    (sent_once ws id (query id method tail qs bytes ws) tr' r ∨
     small = true ∧ gone = false ∧ sent_again ws id (query id method tail qs bytes ws) tr' r).
Proof.
  unfold proxy. destruct (wrong_credential authz) eqn:Ec; [intros [-> ->]; left; by eauto|].
  intros [(pre & ws & tr' & -> & Hk & Hws & Hb)|(pre & tr' & -> & Hk & Hpre & Hs)]%proxyWorkspace_runs.
  - right. split; [done|]. exists pre, ws, tr'. split; [done|]. split; [done|].
    destruct (String.eqb_spec ws ""); [done|]. exact (send_runs _ _ _ _ _ _ _ _ Hk).
  - simpl in Hk. destruct (shared cf) eqn:Es.
    + destruct Hk as [-> ->]. left. rewrite app_nil_r. split; [done|]. by eexists _, _.
    + right. split; [done|]. exists pre, "default", tr'. split; [done|]. split; [left; auto|]. exact (send_runs _ _ _ _ _ _ _ _ Hk).
Qed.

Definition a_row : shared_row := mkShared "postgres-16" "running" {["workspace" := "w"]} 0.
Lemma query_sent_once_or_again_witness :
  let q := query "d1" "POST" "/v1/query" "" "INSERT" "w" in
  let tr := [did (CShared "d1") (Some a_row); did (CAgent q) (Some (answer 502)); did (health "w" "d1") None;
             did (health "w" "d1") (Some (answer 200)); did (CAgent q) (Some (answer 200))] in
  runs (proxy a_config (λ _, false) "Bearer pds_pg_1" "d1" "POST" "/v1/query" "" "INSERT" true false) tr (Relay 200 "") ∧
  ∃ pre ws tr', tr = pre ++ tr' ∧ broker_workspace a_config "d1" ws pre.
Proof.
  intros q tr.
  assert (H : runs (proxy a_config (λ _, false) "Bearer pds_pg_1" "d1" "POST" "/v1/query" "" "INSERT" true false) tr (Relay 200 "")).
  { repeat (eexists; eexists; split; [reflexivity|]). by split. }
  split; [exact H|].
  destruct (query_sent_once_or_again _ _ _ _ _ _ _ _ _ _ _ _ H) as [[E _]|(_ & pre & ws & tr' & E & Hb & _)]; [discriminate E|].
  exists pre, ws, tr'. split; [exact E|exact Hb].
Defined.

(** ** What the code does and its comments do not say *)

Definition failing (st : Z) : aresp := mkResp st "" false no_sandbox [] pg_1 "".

(** A host that does not answer makes a database "not found" for GET, PATCH, the
    logs and the reset of credentials, not for DELETE and the wake. *)
Lemma unreachable_shows_not_found cf is_uuid now id st :
  st ∈ [502; 503; 504] →
  let tr := [did (agentCall "GET" (sandbox_path id) "w" NoBody) (Some (failing st))] in
  (∃ msg, runs (get cf now "w" id) tr (Err 404 false msg)) ∧ runs (patch cf now "w" id (Some (Some true))) tr (Err 404 false "database not found") ∧
  runs (delete cf is_uuid "w" id) tr (Err 503 true "database host is transiently unreachable").
Proof.
  intros Hst tr. rewrite !elem_of_cons in Hst.
  destruct Hst as [->|[->|[->|H]]]; [| | |by apply not_elem_of_nil in H]; (split; [eexists; a_run|split; a_run]).
Qed.
(** An agent's error while DELETE looks makes it one there too. *)
Lemma delete_hides_agent_error cf is_uuid id :
  runs (delete cf is_uuid "w" id) [did (agentCall "GET" (sandbox_path id) "w" NoBody) (Some (failing 500))] (Err 404 false "database not found").
Proof. a_run. Qed.
(** The list of a failing agent is an empty list, with 200. *)
Lemma list_hides_failure st : runs (list_ "w") [did (agentCall "GET" "/v1/sandboxes" "w" NoBody) (Some (failing st))] (Items []).
Proof. a_run. Qed.
(** An answer without an id makes a database without one. *)
Lemma create_accepts_no_id :
  let no_id := mkResp 201 "{}" true no_sandbox [] pg_1 "" in
  ∃ tr i, runs (create a_config "w" (mkOpts 0 0 "" "" false)) tr (Info 202 i) ∧ ID i = "" ∧ BrokerURL i = "https://api.example/v1/databases//proxy" ∧
    Host i = ".db.example".
Proof.
  intros no_id. exists [did (agentCall "POST" "/v1/sandboxes" "w" (CreateBody "postgres-16" 2 1024 ∅ true)) (Some no_id); did (CSeed "") true].
  eexists. split; [a_run|]. split; [reflexivity|]. split; reflexivity.
Qed.
(** The shared table's record says "running" and has no credentials. *)
Lemma shared_record_running_without_credentials :
  ∃ tr i, runs (get a_config 0 "w" "d1") tr (Info 200 i) ∧ Status i = "running" ∧ ConnectionURL i = "" ∧ Password i = "".
Proof.
  exists [did (agentCall "GET" (sandbox_path "d1") "w" NoBody) (Some (failing 404)); did (CShared "d1") (Some a_row)].
  eexists. split; [a_run|]. split; [reflexivity|]. split; reflexivity.
Qed.
(** An id that is not a UUID skips the look for readers and still deletes: the
    agent is asked at a path the id is pasted into, so the id of a database with
    "?x" behind it reaches that database. *)
Lemma delete_unchecked_readers cf is_uuid id :
  is_uuid id = false → bucket cf = false →
  runs (delete cf is_uuid "w" id)
    [did (agentCall "GET" (sandbox_path id) "w" NoBody) (Some (answer 200)); did (agentCall "DELETE" (sandbox_path id) "w" NoBody) (Some (answer 204))] NoContent.
Proof.
  intros Hu Hb. unfold delete, recoveringFrom, cleanupArchive. eexists _, _. split; [reflexivity|]. cbn. rewrite Hu.
  destruct (shared cf); cbn; (eexists _, _; split; [reflexivity|]; cbn; rewrite Hb; split; reflexivity).
Qed.
(** A purge that fails three times is reported as done. *)
Lemma delete_reports_failed_purge :
  runs (delete a_config (λ _, true) "w" "d1")
    [did (agentCall "GET" (sandbox_path "d1") "w" NoBody) (Some (answer 200)); did (CReader "d1") (Some None);
     did (agentCall "DELETE" (sandbox_path "d1") "w" NoBody) (Some (answer 204)); did (CPurge "d1") false; did (CPurge "d1") false; did (CPurge "d1") false] NoContent.
Proof. a_run. Qed.
