(* ===== verification/Broker.v ===== *)
(** The query broker inside a database's machine
    (templates/postgres-16/query-broker/main.go): its routes behind the token, the
    validation of a request, queries, statements, transactions and the creation and
    removal of databases, as trees of the calls made to the connection pools and to
    PostgreSQL (Calls.v).  A body is what the JSON decoder leaves of it, [None]
    where it fails (not JSON, or longer than the reader allows); parameters and the
    values of rows are opaque. *)

From S2P Require Import Prelude GoStrings GoTime Calls.
From stdpp Require Import strings pretty.

Open Scope string_scope.
Open Scope list_scope.
Open Scope Z_scope.
Open Scope call_scope.

(** ** Data *)

Definition defaultMaxRows : nat := Z.to_nat 10000.
Definition defaultQueryTimeout : Z := 30 * Second.
Definition defaultTxTimeout : Z := 60 * Second.
Definition maxStatementSize : Z := Z.shiftl 1 20.
Definition maxParamsPerQuery : nat := 1000.
Definition maxStatementsPerTx : nat := 100.

Record pgConfig := mkPg { pg_host : string; pg_port : string; pg_user : string; pg_password : string; pg_sslMode : string }.

(** A value of a row: bytes, shown as text, or anything else. *)
Inductive value := Bytes (s : string) | Text (s : string) | Other (json : string).
Definition shown (v : value) : value := match v with Bytes s => Text s | v => v end.
Definition row : Type := list value.
Record columnMeta := mkCol { col_name : string; col_type : string }.

Record queryReq := mkQuery { q_db : string; q_sql : string; q_params : list string; q_timeout : option Z; q_max : option Z }.
Record execReq := mkExec { e_db : string; e_sql : string; e_params : list string; e_timeout : option Z }.
Record statement := mkStmt { s_sql : string; s_params : list string }.
Record txReq := mkTx { t_db : string; t_stmts : list statement; t_timeout : option Z }.
Record createDBReq := mkCreate { c_name : string; c_owner : string }.
Record txResult := mkRes { Index : nat; RowsAffected : Z; Columns : list columnMeta; Rows : list row; Count : nat }.

(** An error: of PostgreSQL, of the context, or another. *)
Inductive pgerr := PgError (code message detail hint where_ : string) | TimedOut | OtherError (msg : string).

(** The answer to a query: an error, or columns (or an error) and rows, each of
    which may fail to scan, and the error [rows.Err] has when the loop is left. *)
Record rowset := mkRows { r_cols : pgerr + list columnMeta; r_rows : list (pgerr + row); r_err : option pgerr }.

Inductive call :=
  | CPool (name : string)                                            (* pool.get *)
  | CForget (name : string)                                          (* closed and deleted from the pools *)
  | CPing (name : string)
  | CQuery (db sql : string) (params : list string) (timeout : Z)
  | CExec (db sql : string) (params : list string) (timeout : Z)
  | CBegin (db : string) (timeout : Z)
  | CStmt (st : statement)                                           (* tx.QueryContext *)
  | CCommit
  | CRollback
  | CVersion | CExtensions | CListDBs                                (* in "postgres", as are *)
  | CCreateDB (name owner : string)                                  (* CREATE DATABASE *)
  | CTerminate (name : string)                                       (* pg_terminate_backend *)
  | CDropDB (name : string).                                         (* DROP DATABASE IF EXISTS *)

(** [false] and [None]: an error, where no value of it is looked at. *)
Definition ans (c : call) : Type :=
  match c with
  | CPool _ | CPing _ => bool
  | CQuery _ _ _ _ | CStmt _ => pgerr + rowset
  | CExec _ _ _ _ => pgerr + Z
  | CBegin _ _ | CCommit | CCreateDB _ _ | CDropDB _ => option pgerr
  | CVersion => option string
  | CExtensions => option (list (option string))
  | CListDBs => pgerr + list (option string)
  | CForget _ | CRollback | CTerminate _ => unit
  end.

Inductive reply :=
  | Err (code : Z) (msg pgcode : string)
  | Health (code : Z) (status : string)
  | InfoReply (version : string) (extensions : list string)
  | QueryResp (cols : list columnMeta) (rows : list row) (count : nat)
  | ExecResp (affected : Z)
  | TxResp (results : list txResult)
  | Databases (l : list string)
  | Created (name owner : string)
  | NoContent.

Abbreviation prog := (Calls.prog ans reply).
Abbreviation event := (Calls.event ans).
Abbreviation did := (Calls.did (ans := ans)).

(** ** Validation *)

Definition name_char (c : Ascii.ascii) : bool :=
  let n := code c in
  ((97 <=? n) && (n <=? 122)) || ((65 <=? n) && (n <=? 90)) || ((48 <=? n) && (n <=? 57)) || (n =? 95) || (n =? 45).
(** A byte of a character outside ASCII is no [name_char], so bytes do for runes. *)
Definition validateDBName (name : string) : option string :=
  if (63 <? String.length name)%nat then Some "database name too long"
  else if negb (all_chars name_char name) then Some "invalid character in database name"
  else None.
Definition validateDB (name : string) : option string :=
  if String.eqb name "" then Some "database required" else validateDBName name.
Definition validateSQL (s : string) : option string :=
  if String.eqb s "" then Some "sql required"
  else if maxStatementSize <? Z.of_nat (String.length s) then Some "sql too large (max 1048576 bytes)"
  else None.

(** [int(ms)] milliseconds as a [time.Duration], on 64 bits. *)
Definition timeout_of (default : Z) (ms : option Z) : Z :=
  match ms with Some n => if 0 <? n then i64 (n * 10 ^ 6) else default | None => default end.
Definition max_rows (m : option Z) : nat :=
  match m with
  | Some n => if (0 <? n) && (n <? Z.of_nat defaultMaxRows) then Z.to_nat n else defaultMaxRows
  | None => defaultMaxRows
  end.

Definition pg_class (code : string) : string := String.substring 0 2 code.
Definition writePGError (e : pgerr) : prog :=
  match e with
  | PgError code msg _ _ _ => Ret (Err (if String.eqb (pg_class code) "57" then 408 else 400) msg code)
  | TimedOut => Ret (Err 408 "query timed out" "57014")
  | OtherError msg => Ret (Err 500 msg "")
  end.
Definition fail (code : Z) (msg : string) : prog := Ret (Err code msg "").

(** ** Rows *)

(** The loop over the rows: at most [n] of them, or the error of one that does not scan. *)
Fixpoint scan (n : nat) (rows : list (pgerr + row)) : pgerr + list row :=
  match n, rows with
  | O, _ | _, [] => inr []
  | S n, inl e :: _ => inl e
  | S n, inr r :: rows => match scan n rows with inl e => inl e | inr l => inr (map shown r :: l) end
  end.

(** ** Handlers *)

Section handlers.
Context (cfg : pgConfig) (token : string).

Definition handleHealth : prog :=
  ok <<- CPool "postgres";
  if (ok : bool) then ok <<- CPing "postgres"; Ret (if (ok : bool) then Health 200 "ok" else Health 503 "degraded")
  else Ret (Health 503 "degraded").

Definition handleInfo : prog :=
  ok <<- CPool "postgres";
  if negb ok then fail 503 "postgres unavailable"
  else
    v <<- CVersion;
    match v with
    | None => fail 500 "version query failed"
    | Some v =>
        x <<- CExtensions;
        match x with None => fail 500 "extensions query failed" | Some l => Ret (InfoReply v (omap id l)) end
    end.

Definition handleQuery (body : option queryReq) : prog :=
  match body with
  | None => fail 400 "invalid JSON"
  | Some q =>
      match validateDB (q_db q), validateSQL (q_sql q) with
      | Some e, _ | None, Some e => fail 400 e
      | None, None =>
          if (maxParamsPerQuery <? length (q_params q))%nat then fail 400 "too many params"
          else
            ok <<- CPool (q_db q);
            if negb ok then fail 400 "unknown database"
            else
              a <<- CQuery (q_db q) (q_sql q) (q_params q) (timeout_of defaultQueryTimeout (q_timeout q));
              match a with
              | inl e => writePGError e
              | inr rs =>
                  match r_cols rs with
                  | inl _ => fail 500 "column type error"
                  | inr cols =>
                      match scan (max_rows (q_max q)) (r_rows rs) with
                      | inl _ => fail 500 "row scan error"
                      | inr rows =>
                          match r_err rs with Some e => writePGError e | None => Ret (QueryResp cols rows (length rows)) end
                      end
                  end
              end
      end
  end.

Definition handleExec (body : option execReq) : prog :=
  match body with
  | None => fail 400 "invalid JSON"
  | Some q =>
      match validateDB (e_db q), validateSQL (e_sql q) with
      | Some e, _ | None, Some e => fail 400 e
      | None, None =>
          if (maxParamsPerQuery <? length (e_params q))%nat then fail 400 "too many params"
          else
            ok <<- CPool (e_db q);
            if negb ok then fail 400 "unknown database"
            else
              a <<- CExec (e_db q) (e_sql q) (e_params q) (timeout_of defaultQueryTimeout (e_timeout q));
              match a with inl e => writePGError e | inr n => Ret (ExecResp n) end
      end
  end.

(** executeTxStatement, of what the statement answered. *)
Definition executeTxStatement (idx : nat) (a : pgerr + rowset) : pgerr + txResult :=
  match a with
  | inl e => inl e
  | inr rs =>
      match r_cols rs with
      | inl e => inl e
      | inr [] => inr (mkRes idx 0 [] [] 0)
      | inr cols =>
          match scan defaultMaxRows (r_rows rs) with
          | inl e => inl e
          | inr rows => match r_err rs with Some e => inl e | None => inr (mkRes idx 0 cols rows (length rows)) end
          end
      end
  end.

(** The statements from [idx] on; [results]: those before, the last first. *)
Fixpoint statements (idx : nat) (sts : list statement) (results : list txResult) : prog :=
  match sts with
  | [] =>
      e <<- CCommit;
      match e with None => Ret (TxResp (rev results)) | Some e => _ <<- CRollback; writePGError e end
  | st :: sts =>
      a <<- CStmt st;
      match executeTxStatement idx a with
      | inl e => _ <<- CRollback; writePGError e
      | inr r => statements (S idx) sts (r :: results)
      end
  end.

Fixpoint validate_all (sts : list statement) : option string :=
  match sts with [] => None | st :: sts => match validateSQL (s_sql st) with Some e => Some e | None => validate_all sts end end.

Definition handleTransaction (body : option txReq) : prog :=
  match body with
  | None => fail 400 "invalid JSON"
  | Some q =>
      match validateDB (t_db q) with
      | Some e => fail 400 e
      | None =>
          if (length (t_stmts q) =? 0)%nat then fail 400 "no statements"
          else if (maxStatementsPerTx <? length (t_stmts q))%nat then fail 400 "too many statements"
          else match validate_all (t_stmts q) with
          | Some e => fail 400 e
          | None =>
              ok <<- CPool (t_db q);
              if negb ok then fail 400 "unknown database"
              else
                e <<- CBegin (t_db q) (timeout_of defaultTxTimeout (t_timeout q));
                match e with Some e => writePGError e | None => statements 0 (t_stmts q) [] end
          end
      end
  end.

Definition handleListDBs : prog :=
  ok <<- CPool "postgres";
  if negb ok then fail 503 "postgres unavailable"
  else a <<- CListDBs; match a with inl e => writePGError e | inr l => Ret (Databases (omap id l)) end.

Definition handleCreateDB (body : option createDBReq) : prog :=
  match body with
  | None => fail 400 "invalid JSON"
  | Some q =>
      if String.eqb (c_name q) "" then fail 400 "name required"
      else match validateDBName (c_name q) with
      | Some e => fail 400 e
      | None =>
          let owner := if String.eqb (c_owner q) "" then pg_user cfg else c_owner q in
          ok <<- CPool "postgres";
          if negb ok then fail 503 "postgres unavailable"
          else
            e <<- CCreateDB (c_name q) owner;
            match e with
            | Some e => writePGError e
            | None =>
                ok <<- CPool (c_name q);
                if (ok : bool) then _ <<- CPing (c_name q); Ret (Created (c_name q) owner) else Ret (Created (c_name q) owner)
            end
      end
  end.

Definition protected : list string := ["postgres"; "template0"; "template1"].
Definition handleDropDB (name : string) : prog :=
  match validateDBName name with
  | Some e => fail 400 e
  | None =>
      if bool_decide (name ∈ protected) then fail 403 "cannot drop system database"
      else
        ok <<- CPool "postgres";
        if negb ok then fail 503 "postgres unavailable"
        else
          _ <<- CTerminate name;
          e <<- CDropDB name;
          match e with Some e => writePGError e | None => _ <<- CForget name; Ret NoContent end
  end.

(** *** The routes *)

Definition bearer (authz : string) : string := if has_prefix "Bearer " authz then str_drop 7 authz else authz.
Definition auth (authz : string) (next : prog) : prog :=
  let tok := bearer authz in
  if String.eqb tok "" || negb (String.eqb tok token) then fail 401 "unauthorized" else next.

Inductive request :=
  | RHealth | RInfo | RQuery (b : option queryReq) | RExec (b : option execReq) | RTransaction (b : option txReq)
  | RListDBs | RCreateDB (b : option createDBReq) | RDropDB (name : string).
Definition routes (authz : string) (rq : request) : prog :=
  match rq with
  | RHealth => handleHealth
  | RInfo => auth authz handleInfo
  | RQuery b => auth authz (handleQuery b)
  | RExec b => auth authz (handleExec b)
  | RTransaction b => auth authz (handleTransaction b)
  | RListDBs => auth authz handleListDBs
  | RCreateDB b => auth authz (handleCreateDB b)
  | RDropDB name => auth authz (handleDropDB name)
  end.
End handlers.

(** ** The pools *)

(** The connection string of a pool, *)
Definition dsn (cfg : pgConfig) (name : string) : string :=
  "host=" +:+ pg_host cfg +:+ " port=" +:+ pg_port cfg +:+ " user=" +:+ pg_user cfg +:+ " password=" +:+ pg_password cfg +:+
  " dbname=" +:+ name +:+ " sslmode=" +:+ pg_sslMode cfg.
(** and the names that have one, after the calls of any requests: a look-up and the
    opening of a pool are one step under the write lock, and a pool found under the
    read lock changes nothing. *)
Definition pool_step (pools : gset string) (e : event) : gset string :=
  match e with
  | existT (CPool name) ok => if (ok : bool) then {[name]} ∪ pools else pools
  | existT (CForget name) _ => pools ∖ {[name]}
  | _ => pools
  end.
Definition pool_after (tr : list event) : gset string := foldl pool_step ∅ tr.

(** ** Transactions, as PostgreSQL has them *)

(** A session: the statements committed, those of the open transaction, and those
    that ran outside a transaction. *)
Record session := mkSession { committed : list statement; open : option (list statement); alone : list statement }.

Section sessions.
(** What PostgreSQL makes of a statement that is (or has among its commands) one of
    COMMIT, ROLLBACK, BEGIN and the like: the sessions that are possible after it,
    with whether it succeeded.  [None]: no such command in it. *)
Context (control : statement → option (session → bool → list session)).

Definition succeeded {E A} (a : E + A) : bool := match a with inr _ => true | inl _ => false end.
(** What an answer says of a session, as the sessions that are possible after it: a
    COMMIT that fails may have been carried out; a statement that fails leaves the
    transaction open; a BEGIN inside a transaction and a COMMIT outside one are only
    warned of. *)
Definition session_step (s : session) (e : event) : list session :=
  match e with
  | existT (CBegin _ _) None => match open s with None => [mkSession (committed s) (Some []) (alone s)] | Some _ => [s] end
  | existT (CStmt st) a =>
      match control st, open s with
      | Some f, _ => f s (succeeded a)
      | None, Some l => if succeeded a then [mkSession (committed s) (Some (l ++ [st])) (alone s)] else [s]
      | None, None => [mkSession (if succeeded a then committed s ++ [st] else committed s) None (alone s ++ [st])]
      end
  | existT CCommit None => match open s with Some l => [mkSession (committed s ++ l) None (alone s)] | None => [s] end
  | existT CCommit (Some _) =>
      match open s with
      | Some l => [mkSession (committed s) None (alone s); mkSession (committed s ++ l) None (alone s)]
      | None => [s]
      end
  | existT CRollback _ => [mkSession (committed s) None (alone s)]
  | _ => [s]
  end.
Fixpoint sessions (s : session) (tr : list event) : list session :=
  match tr with [] => [s] | e :: tr => s' ← session_step s e; sessions s' tr end.
End sessions.

(** ** Transactions *)

Section transactions.
Context (control : statement → option (session → bool → list session)).
Abbreviation sessions := (sessions control).
(** A statement without transaction commands. *)
Definition plain (st : statement) : Prop := control st = None.
Definition fresh (c : list statement) : session := mkSession c None [].

(** What a transaction may end in, [l] being already in it. *)
Definition ended (c l : list statement) (idx : nat) (sts : list statement) (done : list txResult) (tr : list event) (r : reply) (s : session) : Prop :=
  (open s = None ∧ alone s = []) ∧
  ((∃ results, r = TxResp (done ++ results) ∧ committed s = c ++ l ++ sts ∧ Index <$> results = seq idx (length sts)) ∨
   (∃ code msg pg, r = Err code msg pg ∧
      (committed s = c ∨ committed s = c ++ l ++ sts ∧ ∃ e, did CCommit (Some e) ∈ tr))).
Lemma writePGError_runs e tr r : runs (writePGError e) tr r → tr = [] ∧ ∃ code msg pg, r = Err code msg pg.
Proof. destruct e; intros [-> ->]; (split; [done|by eexists _, _, _]). Qed.
Lemma executeTxStatement_index idx a x : executeTxStatement idx a = inr x → Index x = idx ∧ ∃ rs, a = inr rs.
Proof.
  unfold executeTxStatement. destruct a as [|rs]; [done|].
  destruct (r_cols rs) as [|[|c cols]]; [done|intros [= <-]; by eauto|].
  destruct (scan _ _); [done|]. destruct (r_err rs); [done|]. intros [= <-]. by eauto.
Qed.
Lemma statements_sessions c l idx sts done tr r :
  Forall plain sts → runs (statements idx sts done) tr r →
  sessions (mkSession c (Some l) []) tr ≠ [] ∧ ∀ s, s ∈ sessions (mkSession c (Some l) []) tr → ended c l idx sts (rev done) tr r s.
Proof.
  intros Hp. revert l idx done tr. induction Hp as [|st sts Hst _ IH]; intros l idx done tr; simpl.
  - intros ([e|] & tr' & -> & H).
    + destruct H as (u & tr'' & -> & [-> (code & msg & pg & ->)]%writePGError_runs). simpl. split; [done|].
      intros s Hs. apply elem_of_cons in Hs as [->|Hs%list_elem_of_singleton]; subst; (split; [done|]); right; exists code, msg, pg; (split; [done|]).
      * by left.
      * right. rewrite app_nil_r. split; [done|]. exists e. apply elem_of_cons. by left.
    + destruct H as [-> ->]. simpl. split; [done|]. intros s ->%list_elem_of_singleton. split; [done|].
      left. exists []. rewrite !app_nil_r. done.
  - intros (a & tr' & -> & H). destruct (executeTxStatement idx a) as [e|x] eqn:Ex.
    + destruct H as (u & tr'' & -> & [-> (code & msg & pg & ->)]%writePGError_runs).
      assert (Hs : sessions (mkSession c (Some l) []) [did (CStmt st) a; did CRollback u] = [mkSession c None []])
        by (simpl; rewrite Hst; by destruct a).
      rewrite Hs. split; [done|]. intros s ->%list_elem_of_singleton. split; [done|]. right. exists code, msg, pg. split; [done|by left].
    + destruct (executeTxStatement_index _ _ _ Ex) as [Hi (rs & ->)].
      destruct (IH (l ++ [st]) _ _ _ H) as [Hne Hend]. simpl. rewrite Hst. simpl. rewrite ?app_nil_r. split; [done|].
      intros s Hs. destruct (Hend s Hs) as [Ho Hr]. split; [done|]. destruct Hr as [(results & -> & Hc & Hx)|(code & msg & pg & -> & Hc)].
      * left. exists (x :: results). rewrite <- app_assoc in Hc. simpl rev. rewrite <- app_assoc. split; [done|]. split; [done|]. by rewrite fmap_cons, Hi, Hx.
      * right. exists code, msg, pg. split; [done|]. rewrite <- app_assoc in Hc. destruct Hc as [Hc|(Hc & e & He)]; [by left|].
        right. split; [done|]. exists e. apply elem_of_cons. by right.
Qed.
(** C19. A transaction whose statements hold no transaction command of their own
    (COMMIT, ROLLBACK, BEGIN, ...) is one block: it commits every statement of the
    request, in order, and answers with one result for each; or it answers with an
    error and commits none, unless the COMMIT itself failed, when PostgreSQL may have
    carried it out.  Whatever the calls answer, no statement runs outside the
    transaction and none is left open. *)
Theorem transaction_is_one_block q tr r c :
  Forall plain (t_stmts q) → runs (handleTransaction (Some q)) tr r →
  sessions (fresh c) tr ≠ [] ∧
  ∀ s, s ∈ sessions (fresh c) tr → (open s = None ∧ alone s = []) ∧
    ((∃ results, r = TxResp results ∧ committed s = c ++ t_stmts q ∧ Index <$> results = seq 0 (length (t_stmts q))) ∨
     (∃ code msg pg, r = Err code msg pg ∧
        (committed s = c ∨ committed s = c ++ t_stmts q ∧ ∃ e, did CCommit (Some e) ∈ tr))).
Proof.
  intros Hp. assert (Hno : ∀ code msg pg tr', tr' = [] ∨ tr' = [did (CPool (t_db q)) false] →
    sessions (fresh c) tr' ≠ [] ∧ ∀ s, s ∈ sessions (fresh c) tr' → (open s = None ∧ alone s = []) ∧
      ((∃ results, Err code msg pg = TxResp results ∧ committed s = c ++ t_stmts q ∧ Index <$> results = seq 0 (length (t_stmts q))) ∨
       (∃ code' msg' pg', Err code msg pg = Err code' msg' pg' ∧ (committed s = c ∨ committed s = c ++ t_stmts q ∧ ∃ e, did CCommit (Some e) ∈ tr')))).
  { intros code msg pg t Ht. assert (sessions (fresh c) t = [fresh c]) as -> by (by destruct Ht as [->| ->]).
    split; [done|]. intros s ->%list_elem_of_singleton. split; [done|]. right. by eexists _, _, _; split; [done|left]. }
  unfold handleTransaction, fail. destruct (validateDB _); [intros [-> ->]; apply Hno; by left|].
  destruct (_ =? 0)%nat; [intros [-> ->]; apply Hno; by left|]. destruct (_ <? _)%nat; [intros [-> ->]; apply Hno; by left|].
  destruct (validate_all _); [intros [-> ->]; apply Hno; by left|].
  intros (ok & tr1 & -> & H). destruct ok; simpl in H; [|destruct H as [-> ->]; apply Hno; by right].
  change (sessions (fresh c) (did (CPool (t_db q)) true :: tr1)) with (s' ← [fresh c]; sessions s' tr1). simpl. rewrite app_nil_r.
  destruct H as ([e|] & tr2 & -> & H).
  - apply writePGError_runs in H as [-> (code & msg & pg & ->)]. split; [done|].
    intros s ->%list_elem_of_singleton. split; [done|]. right. exists code, msg, pg. split; [done|by left].
  - destruct (statements_sessions c [] _ _ _ _ _ Hp H) as [Hne Hend]. simpl. rewrite app_nil_r. split; [done|].
    intros s Hs. destruct (Hend s Hs) as [Ho [(results & -> & Hc & Hi)|(code & msg & pg & -> & Hc)]]; (split; [done|]).
    + left. by exists results.
    + right. exists code, msg, pg. split; [done|]. destruct Hc as [Hc|(Hc & e & He)]; [by left|]. right. split; [done|].
      exists e. apply elem_of_cons. right. apply elem_of_cons. by right.
Qed.
End transactions.

(** ** Bounds *)

Definition name_ok (n : string) : Prop := (String.length n ≤ 63)%nat ∧ all_chars name_char n = true.
Definition db_ok (n : string) : Prop := n ≠ "" ∧ name_ok n.
Definition sql_ok (s : string) : Prop := s ≠ "" ∧ Z.of_nat (String.length s) ≤ maxStatementSize.
(** What may be asked of the pools and of PostgreSQL. *)
Definition allowed (c : call) : Prop :=
  match c with
  | CPool n | CPing n => n = "postgres" ∨ db_ok n
  | CQuery db sql ps _ | CExec db sql ps _ => db_ok db ∧ sql_ok sql ∧ (length ps ≤ maxParamsPerQuery)%nat
  | CBegin db _ => db_ok db
  | CStmt st => sql_ok (s_sql st)
  | CCreateDB n owner => db_ok n
  | CTerminate n | CDropDB n | CForget n => name_ok n ∧ n ∉ protected
  | _ => True
  end.

Lemma validateDBName_ok n : validateDBName n = None → name_ok n.
Proof.
  unfold validateDBName, name_ok. destruct (63 <? String.length n)%nat eqn:E; [done|]. destruct (all_chars name_char n); [|done].
  intros _. split; [|done]. apply Nat.ltb_ge in E. lia.
Qed.
Lemma validateDB_ok n : validateDB n = None → db_ok n.
Proof. unfold validateDB. destruct (String.eqb_spec n ""); [done|]. intros. split; [done|by apply validateDBName_ok]. Qed.
Lemma validateSQL_ok s : validateSQL s = None → sql_ok s.
Proof.
  unfold validateSQL, sql_ok. destruct (String.eqb_spec s ""); [done|]. destruct (maxStatementSize <? _) eqn:E; [done|].
  intros _. split; [done|lia].
Qed.
Lemma validate_all_ok sts : validate_all sts = None → Forall (λ st, sql_ok (s_sql st)) sts.
Proof.
  induction sts as [|st sts IH]; [by constructor|]. simpl. destruct (validateSQL (s_sql st)) eqn:E; [done|].
  intros H. constructor; [by apply validateSQL_ok|by apply IH].
Qed.
Lemma params_ok {A} (l : list A) : (maxParamsPerQuery <? length l)%nat = false → (length l ≤ maxParamsPerQuery)%nat.
Proof. apply Nat.ltb_ge. Qed.
Lemma new_name_ok n : String.eqb n "" = false → validateDBName n = None → db_ok n.
Proof. intros Hn H. split; [by apply String.eqb_neq|by apply validateDBName_ok]. Qed.
Lemma droppable_ok n : validateDBName n = None → bool_decide (n ∈ protected) = false → name_ok n ∧ n ∉ protected.
Proof. intros H Hp. split; [by apply validateDBName_ok|by apply bool_decide_eq_false in Hp]. Qed.
Create HintDb broker.
#[export] Hint Resolve validateDBName_ok validateDB_ok validateSQL_ok params_ok new_name_ok droppable_ok : broker.

Lemma only_pgerror e : only allowed (writePGError e).
Proof. by destruct e. Qed.
Lemma only_statements idx sts results : Forall (λ st, sql_ok (s_sql st)) sts → only allowed (statements idx sts results).
Proof.
  intros H. revert idx results. induction H as [|st sts Hst _ IH]; intros idx results; simpl.
  - split; [done|]. intros [e|]; [|done]. split; [done|]. intros _. apply only_pgerror.
  - split; [done|]. intros a. destruct (executeTxStatement idx a) as [e|x]; [|apply IH].
    split; [done|]. intros _. apply only_pgerror.
Qed.
Ltac allowing := repeat first
  [ done | progress intros | apply only_pgerror
  | match goal with |- only _ (Do _ _) => split; [first [done | by left | by right; auto with broker | by split_and!; auto with broker | by simpl; auto with broker]|] end
  | branch ].
Lemma routes_allowed cfg token authz rq : only allowed (routes cfg token authz rq).
Proof.
  destruct rq as [| |q|q|q| |q|name]; cbn [routes]; unfold auth; try (destruct (_ || _); [done|]);
    unfold handleHealth, handleInfo, handleQuery, handleExec, handleTransaction, handleListDBs, handleCreateDB, handleDropDB, fail.
  all: allowing; by apply only_statements, validate_all_ok.
Qed.

(** *** Rows *)

Lemma scan_spec n rows out :
  scan n rows = inr out →
  (length out ≤ n)%nat ∧ (length out < n → length out = length rows)%nat ∧
  ∃ raw : list row, take (length out) rows = inr <$> raw ∧ out = map (map shown) raw.
Proof.
  revert rows out. induction n as [|n IH]; intros rows out; simpl; [intros [= <-]; split; [done|]; split; [simpl; lia|by exists []]|].
  destruct rows as [|[e|r] rows]; [intros [= <-]; split; [simpl; lia|]; split; [done|by exists []]|done|].
  destruct (scan n rows) as [|out'] eqn:E; [done|]. intros [= <-]. destruct (IH _ _ E) as (Hl & Hall & raw & Ht & ->).
  rewrite length_map in *. split; [simpl; rewrite ?length_map; lia|]. split.
  - simpl. rewrite ?length_map. intros Hn. f_equal. apply Hall. lia.
  - exists (r :: raw). simpl. rewrite ?length_map. by rewrite Ht.
Qed.
Lemma max_rows_bound m : (max_rows m ≤ defaultMaxRows)%nat.
Proof.
  unfold max_rows. destruct m as [n|]; [|done]. destruct (0 <? n) eqn:E1; [|done]. destruct (n <? Z.of_nat defaultMaxRows) eqn:E2; [|done].
  simpl. lia.
Qed.

(** A reply with rows is the beginning of what PostgreSQL answered. *)
Definition rows_of (rq : request) (h : list event) (r : reply) : Prop :=
  match r with
  | QueryResp cols rows n =>
      ∃ q rs (raw : list row), rq = RQuery (Some q) ∧
        did (CQuery (q_db q) (q_sql q) (q_params q) (timeout_of defaultQueryTimeout (q_timeout q))) (inr rs) ∈ h ∧
        n = length rows ∧ (n ≤ max_rows (q_max q))%nat ∧ (n < max_rows (q_max q) → n = length (r_rows rs))%nat ∧
        take n (r_rows rs) = inr <$> raw ∧ rows = map (map shown) raw ∧ r_cols rs = inr cols
  | _ => True
  end.
Lemma leads_pgerror rq h e : leads (rows_of rq) h (writePGError e).
Proof. by destruct e. Qed.
Lemma leads_statements rq h idx sts results : leads (rows_of rq) h (statements idx sts results).
Proof.
  revert h idx results. induction sts as [|st sts IH]; intros h idx results; simpl.
  - intros [e|]; [|done]. intros u. apply leads_pgerror.
  - intros a. destruct (executeTxStatement idx a) as [e|x]; [|apply IH]. intros u. apply leads_pgerror.
Qed.
Lemma query_rows q h ok rs cols rows :
  r_cols rs = inr cols → scan (max_rows (q_max q)) (r_rows rs) = inr rows →
  rows_of (RQuery (Some q)) (did (CQuery (q_db q) (q_sql q) (q_params q) (timeout_of defaultQueryTimeout (q_timeout q))) (inr rs) :: did (CPool (q_db q)) ok :: h)
    (QueryResp cols rows (length rows)).
Proof.
  intros Hc (Hl & Hall & raw & Ht & Hr)%scan_spec. exists q, rs, raw. split; [done|]. split; [apply elem_of_cons; by left|]. done.
Qed.
Ltac leading := repeat first
  [ done | apply leads_pgerror | apply leads_statements | apply query_rows; assumption
  | match goal with |- leads _ _ (Do _ _) => intro end | progress intros | progress subst | branch ].
Lemma routes_rows cfg token authz rq : leads (rows_of rq) [] (routes cfg token authz rq).
Proof.
  destruct rq as [| |q|q|q| |q|name]; cbn [routes]; unfold auth; try (destruct (_ || _); [done|]);
    unfold handleHealth, handleInfo, handleQuery, handleExec, handleTransaction, handleListDBs, handleCreateDB, handleDropDB, fail.
  all: leading; by cbn; case_match.
Qed.

(** The health probe, which needs no token, only pings. *)
Lemma health_pings tr r : runs handleHealth tr r → ∀ c a, did c a ∈ tr → c = CPool "postgres" ∨ c = CPing "postgres".
Proof.
  intros H. refine (only_runs _ _ _ _ _ H). unfold handleHealth. split; [by left|]. intros []; [|done]. split; [by right|]. by intros [].
Qed.

(** C20. Whatever a caller sends, nothing is asked of PostgreSQL without the token but
    the ping of the health probe; it is asked only in databases whose names are at most
    63 letters, digits, underscores and hyphens, with statements of 1 byte to 1 MiB, at
    most 1000 parameters for the one of /v1/query or /v1/exec (those of a transaction
    have no limit), and the route that removes databases never names a system one; the
    rows of an answer are the first rows PostgreSQL gave, all of them
    unless the limit of the request was reached, which is at most 10000. *)
Theorem broker_within_bounds cfg token authz rq tr r :
  runs (routes cfg token authz rq) tr r →
  (∀ c a, did c a ∈ tr → allowed c) ∧
  (tr ≠ [] → token ≠ "" ∧ bearer authz = token ∨
     rq = RHealth ∧ ∀ c a, did c a ∈ tr → c = CPool "postgres" ∨ c = CPing "postgres") ∧
  rows_of rq tr r.
Proof.
  intros H. split; [exact (only_runs _ _ _ _ (routes_allowed cfg token authz rq) H)|]. split.
  - intros Htr.
    assert (Ha : ∀ p, runs (auth token authz p) tr r → token ≠ "" ∧ bearer authz = token).
    { intros p. unfold auth. destruct (String.eqb_spec (bearer authz) ""); [by intros [-> _]|].
      destruct (String.eqb_spec (bearer authz) token) as [<-|]; [done|by intros [-> _]]. }
    destruct rq; first [left; by apply (Ha _ H)|right; split; [done|exact (health_pings _ _ H)]].
  - pose proof (leads_runs _ _ _ _ _ (routes_rows cfg token authz rq) H) as Hr.
    destruct r; try done. destruct Hr as (q & rs & raw & Hq & Hin & Hrest). exists q, rs, raw. split; [done|]. split; [by apply rev_elem|done].
Qed.

(** *** The pools *)

Lemma pools_ok tr pools n :
  (∀ c a, did c a ∈ tr → allowed c) → n ∈ foldl pool_step pools tr → n ∈ pools ∨ n = "postgres" ∨ db_ok n.
Proof.
  revert pools. induction tr as [|[c a] tr IH]; intros pools H; simpl; [auto|].
  intros Hn. destruct (IH _ (λ c' a' Hin, H c' a' (list_elem_of_further _ _ _ Hin)) Hn) as [Hp|Hp]; [|by right].
  pose proof (H c a (list_elem_of_here _ _)) as Hc. destruct c; simpl in Hp; try (by left).
  - destruct a; [|by left]. apply elem_of_union in Hp as [->%elem_of_singleton|Hp]; [by right|by left].
  - apply elem_of_difference in Hp as [Hp _]. by left.
Qed.
(** A name adds no field to its connection string. *)
Definition space : Ascii.ascii := Ascii.ascii_of_nat 32.
Definition no_space (s : string) : Prop := all_chars (λ c, negb (Ascii.eqb c space)) s = true.
Lemma split_space a b : no_space a → GoStrings.split space (a +:+ String space b) = a :: GoStrings.split space b.
Proof. intros H. by rewrite split_app_sep, split_no_sep. Qed.
Lemma name_no_space n : all_chars name_char n = true → no_space n.
Proof. apply all_chars_mono. intros c H. destruct (Ascii.eqb_spec c space) as [->|]; [discriminate H|done]. Qed.
Lemma dsn_fields cfg n :
  no_space (pg_host cfg) → no_space (pg_port cfg) → no_space (pg_user cfg) → no_space (pg_password cfg) → no_space (pg_sslMode cfg) → db_ok n →
  GoStrings.split space (dsn cfg n) = ["host=" +:+ pg_host cfg; "port=" +:+ pg_port cfg; "user=" +:+ pg_user cfg;
    "password=" +:+ pg_password cfg; "dbname=" +:+ n; "sslmode=" +:+ pg_sslMode cfg].
Proof.
  intros H1 H2 H3 H4 H5 (_ & _ & Hn%name_no_space). unfold dsn.
  assert (Hk : ∀ k v rest, no_space k → no_space v → GoStrings.split space (k +:+ v +:+ String space rest) = (k +:+ v) :: GoStrings.split space rest).
  { intros k v rest Hk Hv. rewrite string_app_assoc. apply split_space. unfold no_space. rewrite all_chars_app. by apply andb_true_intro. }
  etransitivity; [apply (Hk "host=" (pg_host cfg)); done|]. f_equal. etransitivity; [apply (Hk "port=" (pg_port cfg)); done|]. f_equal.
  etransitivity; [apply (Hk "user=" (pg_user cfg)); done|]. f_equal. etransitivity; [apply (Hk "password=" (pg_password cfg)); done|]. f_equal.
  etransitivity; [apply (Hk "dbname=" n); done|]. f_equal. apply split_no_sep. by rewrite all_chars_app, H5.
Qed.

(** ** Witnesses, and what the code does and its documents do not say *)

Definition a_stmt : statement := mkStmt "INSERT INTO t VALUES ($1)" ["1"].
Definition a_tx : txReq := mkTx "app" [a_stmt; a_stmt] None.
Definition no_rows : rowset := mkRows (inr []) [] None.
(** PostgreSQL, as far as it knows COMMIT. *)
Definition pg_control (st : statement) : option (session → bool → list session) :=
  if String.eqb (s_sql st) "COMMIT" then
    Some (λ s _, match open s with Some l => [mkSession (committed s ++ l) None (alone s)] | None => [s] end)
  else None.
Definition a_tx_run : list event :=
  [did (CPool "app") true; did (CBegin "app" (60 * Second)) None; did (CStmt a_stmt) (inr no_rows); did (CStmt a_stmt) (inr no_rows); did CCommit None].
Definition tx_done : reply := TxResp [mkRes 0 0 [] [] 0; mkRes 1 0 [] [] 0].
Lemma transaction_is_one_block_witness :
  runs (handleTransaction (Some a_tx)) a_tx_run tx_done ∧
  ∀ s, s ∈ sessions pg_control (fresh []) a_tx_run → committed s = [a_stmt; a_stmt].
Proof.
  assert (H : runs (handleTransaction (Some a_tx)) a_tx_run tx_done) by a_run.
  assert (Hp : Forall (plain pg_control) (t_stmts a_tx)) by (repeat constructor).
  split; [exact H|]. intros s Hs.
  destruct (proj2 (transaction_is_one_block pg_control a_tx a_tx_run tx_done [] Hp H) s Hs) as [_ [(results & _ & Hc & _)|(code & msg & pg & Hr & _)]];
    [exact Hc|discriminate Hr].
Defined.

(** A client's own COMMIT ends the block: an error is answered although what came
    before it is committed, and what came after it ran by itself. *)
Definition commit_stmt : statement := mkStmt "COMMIT" [].
Definition bogus_stmt : statement := mkStmt "bogus" [].
Lemma client_commit_breaks_the_block :
  let e := PgError "42601" "syntax error" "" "" "" in
  let tr := [did (CPool "app") true; did (CBegin "app" (60 * Second)) None; did (CStmt a_stmt) (inr no_rows);
             did (CStmt commit_stmt) (inr no_rows); did (CStmt bogus_stmt) (inl e); did CRollback tt] in
  runs (handleTransaction (Some (mkTx "app" [a_stmt; commit_stmt; bogus_stmt] None))) tr (Err 400 "syntax error" "42601") ∧
  sessions pg_control (fresh []) tr = [mkSession [a_stmt] None [bogus_stmt]].
Proof. split; [a_run|reflexivity]. Qed.

Definition a_cfg : pgConfig := mkPg "127.0.0.1" "5432" "pandastack" "s3cret" "disable".
Definition a_query : queryReq := mkQuery "app" "SELECT x FROM t" [] (Some 5000) (Some 1).
Definition a_col : columnMeta := mkCol "x" "TEXT".
Definition a_query_run : list event :=
  [did (CPool "app") true;
   did (CQuery "app" "SELECT x FROM t" [] (5 * Second)) (inr (mkRows (inr [a_col]) [inr [Bytes "a"]; inr [Bytes "b"]] None))].
Lemma broker_within_bounds_witness :
  let r := QueryResp [a_col] [[Text "a"]] 1 in
  runs (routes a_cfg "pds_pg_1" "Bearer pds_pg_1" (RQuery (Some a_query))) a_query_run r ∧ rows_of (RQuery (Some a_query)) a_query_run r.
Proof.
  intros r. assert (H : runs (routes a_cfg "pds_pg_1" "Bearer pds_pg_1" (RQuery (Some a_query))) a_query_run r) by a_run.
  split; [exact H|]. exact (proj2 (proj2 (broker_within_bounds _ _ _ _ _ _ H))).
Defined.

(** A statement of a transaction never reports the rows it changed. *)
Lemma tx_rows_affected_zero idx a x : executeTxStatement idx a = inr x → RowsAffected x = 0.
Proof.
  unfold executeTxStatement. destruct a as [|rs]; [done|]. destruct (r_cols rs) as [|[|c cols]]; [done|by intros [= <-]|].
  destruct (scan _ _); [done|]. destruct (r_err rs); [done|]. by intros [= <-].
Qed.
(** The limit on parameters does not hold in a transaction. *)
Lemma tx_params_unlimited ps :
  let st := mkStmt "SELECT 1" ps in
  runs (handleTransaction (Some (mkTx "app" [st] None)))
    [did (CPool "app") true; did (CBegin "app" (60 * Second)) None; did (CStmt st) (inr no_rows); did CCommit None] (TxResp [mkRes 0 0 [] [] 0]).
Proof. a_run. Qed.
(** The token is accepted without "Bearer ". *)
Lemma auth_without_bearer next : auth "pds_pg_1" "pds_pg_1" next = next.
Proof. reflexivity. Qed.
(** A long time-out is one in the past. *)
Lemma timeout_overflows : timeout_of defaultQueryTimeout (Some 9223372036855) < 0.
Proof. vm_compute. done. Qed.
(** [max_rows] cannot raise the limit, and an answer that was cut does not say so. *)
Lemma max_rows_only_lowers n : 10000 ≤ n → max_rows (Some n) = defaultMaxRows.
Proof. intros Hn. unfold max_rows. replace (n <? Z.of_nat defaultMaxRows) with false; [by rewrite andb_false_r|]. change (Z.of_nat defaultMaxRows) with 10000. lia. Qed.
(** Pools of names that are no database stay. *)
Lemma pools_keep_wrong_names name e :
  name ∈ pool_after [did (CPool name) true; did (CQuery name "SELECT 1" [] 0) (inl e)].
Proof. change (name ∈ ({[name]} ∪ ∅ : gset string)). set_solver. Qed.
