(* ===== verification/DbProxy.v ===== *)
(** The proxy for native PostgreSQL connections: db-proxy/main.go, wake.go and
    pgerror.go, and the agent's end of its tunnel, agent/internal/api/pg_tunnel.go.
    A connection is the tree of its calls (Calls.v): the client's socket, the
    control plane's tables, the wake of a sleeping database, the tunnel.  The wake
    gate is a state machine over any number of connections. *)

From S2P Require Import Prelude GoStrings Slugs GoTime Calls Edge Failover.
From stdpp Require Import strings.

Open Scope string_scope.
Open Scope list_scope.
Open Scope Z_scope.
Open Scope call_scope.
#[local] Set Warnings "-clear-no-such-hyp".

(** ** Error packets *)

Definition sqlstateUnknownDB : string := "3D000".
Definition sqlstateCannotConnect : string := "08001".
Definition sqlstateCannotConnectNow : string := "57P03".

(** The bytes of a Go string. *)
Definition bytes_of (s : string) : list byte := String.list_byte_of_string s.
Definition field (code : byte) (val : string) : list byte := code :: bytes_of val ++ [x00].
Definition letter_E : byte := x45.
Definition error_fields (sqlstate msg : string) : list (byte * string) :=
  [(x53, "FATAL"); (x56, "FATAL"); (x43, sqlstate); (x4d, msg)].
(** writePGError: E, the length without E, the fields, a zero. *)
Definition writePGError (sqlstate msg : string) : list byte :=
  let payload := concat ((λ '(c, v), field c v) <$> error_fields sqlstate msg) ++ [x00] in
  letter_E :: be_bytes 4 (u32 (4 + Z.of_nat (length payload))) ++ payload.

(** What a client reads: one packet and what follows it. *)
Fixpoint cstring (bs : list byte) : option (list byte * list byte) :=
  match bs with
  | [] => None
  | b :: rest =>
      if Byte.eqb b x00 then Some ([], rest)
      else match cstring rest with Some (s, r) => Some (b :: s, r) | None => None end
  end.
Fixpoint read_fields (fuel : nat) (bs : list byte) : option (list (byte * string)) :=
  match fuel, bs with
  | S fuel, c :: rest =>
      if Byte.eqb c x00 then match rest with [] => Some [] | _ => None end
      else match cstring rest with
      | Some (v, r) => cons (c, String.string_of_list_byte v) <$> read_fields fuel r
      | None => None
      end
  | _, _ => None
  end.
Definition read_error (bs : list byte) : option (list (byte * string) * list byte) :=
  match bs with
  | b :: rest =>
      let n := Z.to_nat (be_val (take 4 rest)) in
      if negb (Byte.eqb b letter_E) || (length rest <? n)%nat || (n <? 4)%nat then None
      else match read_fields n (take (n - 4) (drop 4 rest)) with Some l => Some (l, drop n rest) | None => None end
  | [] => None
  end.

(** ** Host names *)

Definition dot : Ascii.ascii := Ascii.ascii_of_nat 46.
Definition no_dot (s : string) : bool := all_chars (λ c, negb (Ascii.eqb c dot)) s.
Definition sandboxIDFromSNI (sniSuffix sni : string) : string :=
  let sni := lower_string (TrimSpace sni) in
  if negb (has_suffix sniSuffix sni) then ""
  else
    let id := String.substring 0 (String.length sni - String.length sniSuffix) sni in
    if String.eqb id "" || negb (no_dot id) then "" else id.

(** ** Connections *)

Inductive call :=
  | CRead                                  (* the first 8 bytes of the client *)
  | CReply                                 (* 'S' *)
  | CHandshake                             (* TLS, with the name the client asked for *)
  | CEndpoint (id : string)                (* SELECT a.endpoint FROM leases JOIN agents *)
  | CStatus (id : string)                  (* SELECT status, template FROM sandboxes *)
  | CWake (endpoint id : string)           (* wakeGate.wake *)
  | CTunnel (i : nat) (endpoint id : string)  (* openAgentTunnel *)
  | CSleep (i : nat)                       (* 200 ms × 2^i, or the end of the 25 s *)
  | CCopy                                  (* both directions, to the end *)
  | CError (packet : list byte)
  | CDrain.
Definition ans (c : call) : Type :=
  match c with
  | CRead => option (list byte)
  | CReply | CTunnel _ _ _ | CSleep _ => bool
  | CHandshake => option string
  | CEndpoint _ => option (option string)
  | CStatus _ => option (string * string)
  | CWake _ _ | CCopy | CError _ | CDrain => unit
  end.
Inductive reply := Dropped | Refused | Served.
Abbreviation prog := (Calls.prog ans reply).
Abbreviation event := (Calls.event ans).
Abbreviation did := (Calls.did (ans := ans)).

Definition pgSSLRequestLen : Z := 8.
Definition pgSSLRequestCode : Z := 80877103.
Definition readSSLRequest (k : prog) : prog :=
  hdr <<- CRead;
  match hdr with
  | None => Ret Dropped
  | Some hdr =>
      if negb (be_val (take 4 hdr) =? pgSSLRequestLen) || negb (be_val (take 4 (drop 4 hdr)) =? pgSSLRequestCode) then Ret Dropped
      else ok <<- CReply; if (ok : bool) then k else Ret Dropped
  end.

Definition agentEndpoint (id : string) (k : option string → prog) : prog :=
  row <<- CEndpoint id;
  k (match row with Some (Some ep) => if String.eqb ep "" then None else Some ep | _ => None end).
Definition isDBTemplate (t : string) : bool := has_prefix "postgres-16" t.

Definition refuse (sqlstate msg : string) : prog :=
  _ <<- CError (writePGError sqlstate msg); _ <<- CDrain; Ret Refused.
(** What a client is told of a database without a live lease. *)
Definition refusal (id : string) (row : option (string * string)) : string * string :=
  match row with
  | None => (sqlstateUnknownDB, "database not found: " +:+ id)
  | Some (status, template) =>
      if negb (isDBTemplate template) then (sqlstateUnknownDB, "database not found: " +:+ id)
      else if String.eqb status "failed" then (sqlstateCannotConnect, "database is in a failed state — restore it from the dashboard (failover)")
      else (sqlstateCannotConnectNow, "database is asleep and its host is currently unavailable — wake it from the dashboard or retry shortly")
  end.

Definition attempts : nat := 5.
(** The attempts from [i] on, [n] of them left. *)
Fixpoint tunnel (endpoint id : string) (i n : nat) (k : bool → prog) : prog :=
  match n with
  | O => k false
  | S n =>
      ok <<- CTunnel i endpoint id;
      if (ok : bool) then k true
      else match n with
      | O => k false
      | S _ => more <<- CSleep i; if (more : bool) then tunnel endpoint id (S i) n k else k false
      end
  end.

Definition asleep (status : string) : bool :=
  String.eqb status "hibernated" || String.eqb status "paused" || String.eqb status "hibernating".
Definition connect (endpoint id : string) : prog :=
  tunnel endpoint id 0 attempts (λ ok,
    if (ok : bool) then _ <<- CCopy; Ret Served
    else refuse sqlstateCannotConnectNow "database is still starting — retry in a few seconds").
Definition handleConn (sniSuffix : string) : prog :=
  readSSLRequest (
    sni <<- CHandshake;
    match sni with
    | None => Ret Dropped
    | Some sni =>
        let id := sandboxIDFromSNI sniSuffix sni in
        if String.eqb id "" then refuse sqlstateUnknownDB "unknown database endpoint (bad hostname)"
        else
          agentEndpoint id (λ ep, match ep with
          | None => row <<- CStatus id; refuse (refusal id row).1 (refusal id row).2
          | Some endpoint =>
              row <<- CStatus id;
              if match row with Some (status, _) => asleep status | None => false end
              then _ <<- CWake endpoint id; connect endpoint id
              else connect endpoint id
          end)
    end).

(** ** Error packets are read back *)

Definition no_nul (s : string) : Prop := x00 ∉ bytes_of s.
Lemma byte_eqb_ne b c : b ≠ c → Byte.eqb b c = false.
Proof. intros H. destruct (Byte.eqb b c) eqn:E; [|done]. by apply Byte.byte_dec_bl in E. Qed.
Lemma cstring_field v rest : x00 ∉ v → cstring (v ++ [x00] ++ rest) = Some (v, rest).
Proof.
  induction v as [|b v IH]; intros H; [done|]. rewrite not_elem_of_cons in H. destruct H as [Hb Hv].
  specialize (IH Hv). simpl in *. by rewrite IH, byte_eqb_ne.
Qed.
Lemma no_nul_fatal : no_nul "FATAL".
Proof. unfold no_nul. cbn. rewrite !not_elem_of_cons. repeat split; try done. apply not_elem_of_nil. Qed.
Lemma string_bytes s : String.string_of_list_byte (bytes_of s) = s.
Proof. apply String.string_of_list_byte_of_string. Qed.
Lemma read_fields_app fuel l :
  Forall (λ '(c, v), c ≠ x00 ∧ no_nul v) l → (length (concat ((λ '(c, v), field c v) <$> l)) < fuel)%nat →
  read_fields fuel (concat ((λ '(c, v), field c v) <$> l) ++ [x00]) = Some l.
Proof.
  revert fuel. induction l as [|[c v] l IH]; intros fuel Hl Hf; [by destruct fuel; [simpl in Hf; lia|]|].
  apply Forall_cons in Hl as [[Hc Hv] Hl]. destruct fuel as [|fuel]; [lia|].
  rewrite fmap_cons in *. cbn [concat] in *. rewrite length_app in Hf. unfold field at 1. unfold field at 1 in Hf.
  cbn [app read_fields]. rewrite byte_eqb_ne by done. rewrite <- !app_assoc. rewrite (cstring_field _ _ Hv), string_bytes, IH; [done|done|].
  simpl in Hf. lia.
Qed.
Lemma length_payload sqlstate msg :
  length (concat ((λ '(c, v), field c v) <$> error_fields sqlstate msg)) = (18 + length (bytes_of sqlstate) + length (bytes_of msg))%nat.
Proof. simpl. rewrite !length_app. simpl. rewrite !length_app. simpl. lia. Qed.

(** A client reads back the error that was written, whole and with nothing after
    it. *)
Lemma error_read_back sqlstate msg rest :
  no_nul sqlstate → no_nul msg → Z.of_nat (length (bytes_of sqlstate) + length (bytes_of msg)) < 2 ^ 31 →
  read_error (writePGError sqlstate msg ++ rest) = Some (error_fields sqlstate msg, rest).
Proof.
  intros Hs Hm Hl. unfold writePGError. set (body := concat _). cbn [app read_error].
  assert (Hb : length body = (18 + length (bytes_of sqlstate) + length (bytes_of msg))%nat) by apply length_payload.
  assert (Hlen : 4 + Z.of_nat (length (body ++ [x00])) < 2 ^ 32) by (rewrite length_app, Hb; simpl; lia).
  rewrite <- app_assoc. rewrite take_app_length' by by rewrite length_be_bytes.
  rewrite be_val_bytes; [|change (256 ^ Z.of_nat 4) with (2 ^ 32); rewrite u32_small; lia]. rewrite u32_small by lia.
  replace (Z.to_nat (4 + Z.of_nat (length (body ++ [x00])))) with (4 + length (body ++ [x00]))%nat by lia.
  rewrite !length_app, length_be_bytes. set (n := (length body + length [x00])%nat).
  destruct (_ || _ || _) eqn:E; [exfalso; revert E|].
  { rewrite !orb_true_iff, !Nat.ltb_lt. unfold letter_E. simpl negb. intros [[|]|]; [done|lia|lia]. }
  replace (4 + n - 4)%nat with n by lia. rewrite !drop_app_length' by by rewrite length_be_bytes.
  rewrite app_assoc, take_app_length' by by rewrite length_app.
  assert (read_fields (4 + n) (body ++ [x00]) = Some (error_fields sqlstate msg)) as ->.
  { apply read_fields_app; [|unfold n; fold body; simpl length; lia].
    repeat (apply Forall_cons; split; [split; [done|first [done | apply no_nul_fatal]]|]). by constructor. }
  do 2 f_equal. rewrite drop_app_length'; [done|]. by rewrite !length_app, length_be_bytes.
Qed.

(** ** How a connection ends *)

Definition is_error (e : event) : bool := match e with existT (CError _) _ => true | _ => false end.
Definition is_dial (e : event) : bool := match e with existT (CTunnel _ _ _) _ => true | _ => false end.
Definition is_reached (e : event) : bool := match e with existT (CTunnel _ _ _) ok => ok | _ => false end.
Definition count (f : event → bool) (h : list event) : nat := length (filter (λ e, f e = true) h).
Lemma count_cons f e h : count f (e :: h) = (if f e then S (count f h) else count f h).
Proof. unfold count. rewrite filter_cons. destruct (f e) eqn:E; by case_decide. Qed.
Lemma count_rev f tr : count f (rev tr ++ []) = count f tr.
Proof. unfold count. rewrite app_nil_r. apply Permutation_length. by rewrite <- Permutation_rev. Qed.

(** One error packet, or a tunnel, or neither where the client is no client. *)
Definition outcome (h : list event) (r : reply) : Prop :=
  match r with
  | Dropped => count is_error h = 0%nat ∧ count is_dial h = 0%nat
  | Refused => count is_error h = 1%nat ∧ count is_reached h = 0%nat ∧ (count is_dial h ≤ attempts)%nat
  | Served => count is_error h = 0%nat ∧ count is_reached h = 1%nat ∧ (count is_dial h ≤ attempts)%nat
  end.
(** Whom a call is about, and what was seen before it. *)
Definition routed (sniSuffix : string) (h : list event) (c : call) : Prop :=
  let own ep id := ∃ sni, did CHandshake (Some sni) ∈ h ∧ id = sandboxIDFromSNI sniSuffix sni ∧ id ≠ "" ∧
                          did (CEndpoint id) (Some (Some ep)) ∈ h ∧ ep ≠ "" in
  match c with
  | CTunnel i ep id => (i < attempts)%nat ∧ own ep id
  | CWake ep id => own ep id ∧ ∃ status template, did (CStatus id) (Some (status, template)) ∈ h ∧ asleep status = true
  | CCopy => ∃ i ep id, did (CTunnel i ep id) true ∈ h
  | CError p => ∃ st msg, p = writePGError st msg ∧ st ∈ [sqlstateUnknownDB; sqlstateCannotConnect; sqlstateCannotConnectNow]
  | _ => True
  end.

Section connections.
Context (sniSuffix : string).
Lemma tunnel_leads Q ep id i n k h :
  (∀ h' ok, count is_error h' = count is_error h → (count is_dial h' ≤ count is_dial h + n)%nat →
     count is_reached h' = ((if ok : bool then 1 else 0) + count is_reached h)%nat → leads Q h' (k ok)) →
  leads Q h (tunnel ep id i n k).
Proof.
  revert i h. induction n as [|n IH]; intros i h Hk; simpl; [apply Hk; [done|lia|done]|].
  intros [|]; [apply Hk; rewrite !count_cons; simpl; [done|lia|done]|].
  destruct n as [|n]; [apply Hk; rewrite !count_cons; simpl; [done|lia|done]|].
  intros [|]; [|apply Hk; rewrite !count_cons; simpl; [done|lia|done]].
  apply IH. intros h' ok. rewrite !count_cons. simpl. intros H1 H2 H3. apply Hk; [done|lia|done].
Qed.
Lemma refuse_leads st msg h :
  count is_error h = 0%nat → count is_reached h = 0%nat → (count is_dial h ≤ attempts)%nat → leads outcome h (refuse st msg).
Proof.
  intros H1 H2 H3 u u'. change (outcome (did CDrain u' :: did (CError (writePGError st msg)) u :: h) Refused).
  unfold outcome. rewrite !count_cons. cbn [is_error is_reached is_dial Calls.did]. by rewrite H1, H2.
Qed.
Lemma connect_leads ep id h :
  count is_error h = 0%nat → count is_reached h = 0%nat → count is_dial h = 0%nat → leads outcome h (connect ep id).
Proof.
  intros H1 H2 H3. apply tunnel_leads. intros h' [] He Hd Hr.
  - intros u. change (outcome (did CCopy u :: h') Served). unfold outcome. rewrite !count_cons. cbn [is_error is_reached is_dial Calls.did].
    rewrite He, Hr, H2. split; [done|]. split; [done|]. lia.
  - apply refuse_leads; [by rewrite He|by rewrite Hr, H2|lia].
Qed.
Lemma conn_leads : leads outcome [] (handleConn sniSuffix).
Proof.
  unfold handleConn, readSSLRequest, agentEndpoint. cbn [leads]. intros [hdr|]; [|done].
  destruct (_ || _); [done|]. intros []; [|done]. intros [sni|]; [|done].
  destruct (String.eqb _ _); [by apply refuse_leads; [| |exact (Nat.le_0_l attempts)]|]. intros row.
  destruct (match row with Some (Some ep) => _ | _ => None end) as [ep|]; intros st; [|by apply refuse_leads; [| |exact (Nat.le_0_l attempts)]].
  destruct (match st with Some (_, _) => _ | None => false end); [intros u|]; by apply connect_leads.
Qed.
End connections.

Section routing.
Context (sniSuffix : string).
Lemma routed_weaken h h' c : h ⊆ h' → routed sniSuffix h c → routed sniSuffix h' c.
Proof.
  intros Hh. destruct c; simpl; try done.
  - intros [(sni & H1 & H2 & H3 & H4 & H5) (st & t & H6 & H7)]. split; [exists sni; split_and!; auto|exists st, t; auto].
  - intros [Hi (sni & H1 & H2 & H3 & H4 & H5)]. split; [done|]. exists sni. split_and!; auto.
  - intros (i & ep & id & H). exists i, ep, id. auto.
Qed.
Lemma before_weaken h h' (p : prog) : h ⊆ h' → before (routed sniSuffix) h p → before (routed sniSuffix) h' p.
Proof.
  revert h h'. induction p as [r|c k IH]; intros h h' Hh; [done|]. intros [Hc Hk]. split; [by eapply routed_weaken|].
  intros a. eapply IH; [|apply Hk]. intros e. rewrite !elem_of_cons. intros [->|He]; [by left|right; by apply Hh].
Qed.
Lemma refuse_before st msg h :
  st ∈ [sqlstateUnknownDB; sqlstateCannotConnect; sqlstateCannotConnectNow] → before (routed sniSuffix) h (refuse st msg).
Proof. intros Hst. split; [by exists st, msg|]. done. Qed.
Lemma refusal_state id row : (refusal id row).1 ∈ [sqlstateUnknownDB; sqlstateCannotConnect; sqlstateCannotConnectNow].
Proof. unfold refusal. destruct row as [[st t]|]; [|set_solver]. destruct (negb _); [set_solver|]. destruct (String.eqb _ _); set_solver. Qed.
Lemma tunnel_before ep id i n k h :
  (∀ j, (j < attempts)%nat → routed sniSuffix h (CTunnel j ep id)) → (i + n ≤ attempts)%nat →
  (∀ h' ok, h ⊆ h' → (ok = true → ∃ j, did (CTunnel j ep id) true ∈ h') → before (routed sniSuffix) h' (k ok)) →
  before (routed sniSuffix) h (tunnel ep id i n k).
Proof.
  revert i h. induction n as [|n IH]; intros i h Hr Hn Hk; simpl; [by apply Hk|].
  split; [apply Hr; lia|]. intros ok. assert (Hs : h ⊆ did (CTunnel i ep id) ok :: h) by set_solver. destruct ok.
  { apply Hk; [done|]. intros _. exists i. apply elem_of_cons. by left. }
  destruct n as [|n]; [by apply Hk|]. split; [done|]. intros more. destruct more; [|apply Hk; [set_solver|done]].
  apply IH; [|lia|].
  - intros j Hj. eapply routed_weaken; [|by apply Hr]. set_solver.
  - intros h' ok Hh'. apply Hk. set_solver.
Qed.
Lemma connect_before ep id h :
  (∀ j, (j < attempts)%nat → routed sniSuffix h (CTunnel j ep id)) → before (routed sniSuffix) h (connect ep id).
Proof.
  intros Hr. apply tunnel_before; [done|unfold attempts; lia|]. intros h' [] Hh Hok.
  - split; [|done]. destruct (Hok eq_refl) as [j Hj]. by exists j, ep, id.
  - apply refuse_before. set_solver.
Qed.
Lemma conn_before : before (routed sniSuffix) [] (handleConn sniSuffix).
Proof.
  unfold handleConn, readSSLRequest, agentEndpoint. split; [done|]. intros [hdr|]; [|done].
  destruct (_ || _); [done|]. split; [done|]. intros []; [|done]. split; [done|]. intros [sni|]; [|done].
  destruct (String.eqb_spec (sandboxIDFromSNI sniSuffix sni) ""); [apply refuse_before; set_solver|].
  split; [done|]. intros row. destruct row as [[ep|]|]; try (split; [done|]; intros st; apply refuse_before, refusal_state).
  destruct (String.eqb_spec ep ""); (split; [done|]; intros st); [apply refuse_before, refusal_state|].
  assert (Hr : ∀ j h, (j < attempts)%nat → did (CEndpoint (sandboxIDFromSNI sniSuffix sni)) (Some (Some ep)) ∈ h →
    did CHandshake (Some sni) ∈ h → routed sniSuffix h (CTunnel j ep (sandboxIDFromSNI sniSuffix sni))).
  { intros j h Hj He Hh. split; [done|]. exists sni. done. }
  destruct st as [[status t]|]; [|apply connect_before; intros j Hj; apply Hr; set_solver].
  destruct (asleep status) eqn:Ea; [|apply connect_before; intros j Hj; apply Hr; set_solver].
  split; [|intros u; apply connect_before; intros j Hj; apply Hr; set_solver].
  split; [exists sni; split_and!; try done; set_solver|]. exists status, t. split; [set_solver|done].
Qed.
End routing.

(** C21. Every connection ends in one way: dropped without a word, before TLS is up
    and with nothing dialled; refused with exactly one error packet, which carries
    one of three codes; or served through the one tunnel that was made, with no
    error.  At most five tunnels are dialled.  Wakes and tunnels go to the agent that the live lease
    of the sandbox in the host name is on, and a sandbox is woken only when its row
    says that it sleeps. *)
Theorem connection_ends_well sniSuffix tr r :
  runs (handleConn sniSuffix) tr r →
  outcome tr r ∧ ∀ tr1 c a tr2, tr = tr1 ++ did c a :: tr2 → routed sniSuffix tr1 c.
Proof.
  intros H. split.
  - pose proof (leads_runs _ _ _ _ _ (conn_leads sniSuffix) H) as Ho. unfold outcome in *. by rewrite !count_rev in Ho.
  - intros tr1 c a tr2 ->. eapply routed_weaken; [|exact (before_runs _ _ _ _ _ _ _ _ (conn_before sniSuffix) H)].
    intros e. apply rev_elem.
Qed.

Definition a_hello : list byte := be_bytes 4 8 ++ be_bytes 4 80877103.
Definition a_connection : list event :=
  [did CRead (Some a_hello); did CReply true; did CHandshake (Some "D1.DB.example"); did (CEndpoint "d1") (Some (Some "http://agent"));
   did (CStatus "d1") (Some ("hibernated", "postgres-16")); did (CWake "http://agent" "d1") (); did (CTunnel 0 "http://agent" "d1") false;
   did (CSleep 0) true; did (CTunnel 1 "http://agent" "d1") true; did CCopy ()].
Lemma connection_ends_well_witness :
  runs (handleConn ".db.example") a_connection Served ∧ outcome a_connection Served.
Proof.
  assert (H : runs (handleConn ".db.example") a_connection Served).
  { repeat (eexists; eexists; split; [reflexivity|]). by split. }
  split; [exact H|]. exact (proj1 (connection_ends_well _ _ _ H)).
Defined.

(** An accepted name is one label in front of the suffix. *)
Lemma substring_split n s : (n ≤ String.length s)%nat → s = String.substring 0 n s +:+ String.substring n (String.length s - n) s.
Proof.
  revert s. induction n as [|n IH]; intros s Hn.
  - rewrite Nat.sub_0_r, (substring_full s (String.length s)) by lia. by destruct s.
  - destruct s as [|c s]; simpl in Hn; [lia|]. simpl.
    change (String c s = String c (String.substring 0 n s +:+ String.substring n (String.length s - n) s)). f_equal. apply IH. lia.
Qed.
Lemma sni_one_label suf sni :
  sandboxIDFromSNI suf sni ≠ "" →
  lower_string (TrimSpace sni) = sandboxIDFromSNI suf sni +:+ suf ∧ no_dot (sandboxIDFromSNI suf sni) = true.
Proof.
  unfold sandboxIDFromSNI. set (s := lower_string (TrimSpace sni)). unfold has_suffix.
  destruct (String.length suf <=? String.length s)%nat eqn:El; [|done]. apply Nat.leb_le in El.
  destruct (String.eqb_spec (String.substring (String.length s - String.length suf) (String.length suf) s) suf) as [Es|]; [|done].
  cbn [andb negb]. destruct (String.eqb _ ""); [done|]. cbn [orb]. destruct (no_dot _) eqn:Ed; [|done]. intros _. split; [|done].
  pose proof (substring_split (String.length s - String.length suf) s ltac:(lia)) as H.
  replace (String.length s - (String.length s - String.length suf))%nat with (String.length suf) in H by lia. by rewrite Es in H.
Qed.
Lemma sni_accepts suf id :
  TrimSpace (id +:+ suf) = id +:+ suf → lower_string (id +:+ suf) = id +:+ suf → id ≠ "" → no_dot id = true →
  sandboxIDFromSNI suf (id +:+ suf) = id.
Proof.
  intros Ht Hl Hid Hd. unfold sandboxIDFromSNI. rewrite Ht, Hl. unfold has_suffix. rewrite string_length_app.
  replace (String.length suf <=? String.length id + String.length suf)%nat with true by (symmetry; apply Nat.leb_le; lia).
  replace (String.length id + String.length suf - String.length suf)%nat with (String.length id) by lia.
  rewrite substring_prefix. assert (String.substring (String.length id) (String.length suf) (id +:+ suf) = suf) as ->.
  { pose proof (substring_app id suf "") as H. by rewrite string_app_nil in H. }
  rewrite String.eqb_refl, Hd. by destruct (String.eqb_spec id "").
Qed.

(** ** The time a client is held *)

(** The loop with its clock, in milliseconds from its start: an attempt dials for
    [d] and then waits for the agent's answer for [w].  The context bounds the dial
    (10 s, what is left of the attempt's budget and of the 25 s); only the deadline
    of the connection, 30 s, bounds the answer. *)
Definition overall : Z := 25000.
Definition tunnelUpgradeTimeout : Z := 30000.
Definition budget (i : nat) : Z := if (i =? 0)%nat then tunnelUpgradeTimeout + 5000 else 5000.
Definition attempt_ok (now : Z) (i : nat) (d w : Z) : Prop :=
  0 ≤ d ≤ Z.max 0 (Z.min (Z.min 10000 (budget i)) (overall - now)) ∧ 0 ≤ w ≤ tunnelUpgradeTimeout ∧
  (overall ≤ now → w = 0).
Definition pause (now : Z) (i : nat) : Z := Z.max 0 (Z.min (200 * 2 ^ Z.of_nat i) (overall - now)).
(** The clock after the attempts of [l], all of them failures. *)
Fixpoint clock (now : Z) (i : nat) (l : list (Z * Z)) : Z :=
  match l with
  | [] => now
  | (d, w) :: l =>
      let now := now + d + w in
      match l with
      | [] => now
      | _ => if overall <=? now then now else clock (now + pause now i) (S i) l
      end
  end.
Fixpoint attempts_ok (now : Z) (i : nat) (l : list (Z * Z)) : Prop :=
  match l with
  | [] => True
  | (d, w) :: l => attempt_ok now i d w ∧ let now := now + d + w in attempts_ok (now + pause now i) (S i) l
  end.
Lemma held_at_most now i l : now ≤ overall → attempts_ok now i l → clock now i l ≤ overall + tunnelUpgradeTimeout.
Proof.
  revert now i. induction l as [|[d w] l IH]; intros now i Hn H; simpl; [unfold overall, tunnelUpgradeTimeout in *; lia|].
  destruct H as [(Hd & Hw & _) Hl]. assert (Hb : now + d + w ≤ overall + tunnelUpgradeTimeout) by lia.
  destruct l as [|p l]; [done|]. destruct (overall <=? now + d + w) eqn:E; [done|].
  apply IH; [|exact Hl]. unfold pause. lia.
Qed.
(** The 25 s are no bound on the whole. *)
Lemma held_for_54_seconds : ∃ l, attempts_ok 0 0 l ∧ (length l ≤ attempts)%nat ∧ clock 0 0 l = 54000.
Proof.
  exists [(0, 23800); (0, 30000)]. split_and!; [|unfold attempts; simpl; lia|reflexivity].
  repeat split; vm_compute; congruence.
Qed.

(** ** The wake gate *)

(** A connection in the gate: it posts the wake, has taken its entry out, waits for
    the channel of another, or has returned. *)
Inductive wstate := Posting (ch : nat) | Removed (ch : nat) | Waiting (ch : nat) | Returned.
Record gate := mkGate { inflight : gmap string nat; closed : gset nat; next : nat; conns : gmap nat (string * wstate) }.
Definition set_conn (t : nat) (id : string) (st : wstate) (g : gate) : gmap nat (string * wstate) := <[t := (id, st)]> (conns g).
Inductive gate_step : gate → gate → Prop :=
  | g_join g t id ch : conns g !! t = None → inflight g !! id = Some ch →
      gate_step g (mkGate (inflight g) (closed g) (next g) (set_conn t id (Waiting ch) g))
  | g_lead g t id : conns g !! t = None → inflight g !! id = None →
      gate_step g (mkGate (<[id := next g]> (inflight g)) (closed g) (S (next g)) (set_conn t id (Posting (next g)) g))
  | g_remove g t id ch : conns g !! t = Some (id, Posting ch) →     (* the POST has ended, somehow *)
      gate_step g (mkGate (delete id (inflight g)) (closed g) (next g) (set_conn t id (Removed ch) g))
  | g_close g t id ch : conns g !! t = Some (id, Removed ch) →
      gate_step g (mkGate (inflight g) ({[ch]} ∪ closed g) (next g) (set_conn t id Returned g))
  | g_wake g t id ch : conns g !! t = Some (id, Waiting ch) → ch ∈ closed g →
      gate_step g (mkGate (inflight g) (closed g) (next g) (set_conn t id Returned g)).
Definition no_gate : gate := mkGate ∅ ∅ 0 ∅.
Definition gate_reachable : gate → Prop := rtc gate_step no_gate.

Record gate_ok (g : gate) : Prop := mkGateOk {
  posting_listed : ∀ t id ch, conns g !! t = Some (id, Posting ch) → inflight g !! id = Some ch;
  listed_posting : ∀ id ch, inflight g !! id = Some ch → ∃ t, conns g !! t = Some (id, Posting ch);
  owners_old : ∀ t id ch, conns g !! t = Some (id, Posting ch) ∨ conns g !! t = Some (id, Removed ch) → (ch < next g)%nat;
  owners_apart : ∀ t t' id id' ch, conns g !! t = Some (id, Posting ch) → conns g !! t' = Some (id', Posting ch) → t = t';
  waiting_held : ∀ t id ch, conns g !! t = Some (id, Waiting ch) →
    ch ∈ closed g ∨ ∃ t', conns g !! t' = Some (id, Posting ch) ∨ conns g !! t' = Some (id, Removed ch);
}.
(** An owner of a channel: it posts, or has yet to close it. *)
Definition owner (g : gate) (t : nat) (id : string) (ch : nat) : Prop := conns g !! t = Some (id, Posting ch) ∨ conns g !! t = Some (id, Removed ch).
Lemma set_conn_Some t id st g t' x : set_conn t id st g !! t' = Some x ↔ (t' = t ∧ x = (id, st)) ∨ (t' ≠ t ∧ conns g !! t' = Some x).
Proof. unfold set_conn. rewrite lookup_insert_Some. split; [intros [[-> <-]|[H1 H2]]|intros [[-> ->]|[H1 H2]]]; auto. Qed.
Ltac gate_cases := repeat match goal with
  | H : set_conn _ _ _ _ !! _ = Some _ |- _ => apply set_conn_Some in H as [[? H]|[? H]]; [first [discriminate H | injection H as ?; try subst]|]
  | H : _ ∨ _ |- _ => destruct H as [H|H]
  end.
Section gate.
Context (g : gate) (G : gate_ok g).
Lemma gate_join t id ch : conns g !! t = None → inflight g !! id = Some ch →
  gate_ok (mkGate (inflight g) (closed g) (next g) (set_conn t id (Waiting ch) g)).
Proof.
  intros Ht Hi. destruct G as [H1 H2 H3 H4 H5].
  assert (Hkeep : ∀ t0 x, conns g !! t0 = Some x → set_conn t id (Waiting ch) g !! t0 = Some x)
    by (intros t0 x Hx; apply set_conn_Some; right; split; [congruence|done]).
  split; cbn; intros.
  - gate_cases. eauto.
  - destruct (H2 _ _ H) as [u H0]. eauto.
  - gate_cases; eauto.
  - gate_cases. eauto.
  - apply set_conn_Some in H as [[-> [= -> ->]]|[_ H]].
    + right. destruct (H2 _ _ Hi) as [u H0]. eauto.
    + destruct (H5 _ _ _ H) as [Hc|[u [Ho|Ho]]]; eauto.
Qed.
Lemma gate_lead t id : conns g !! t = None → inflight g !! id = None →
  gate_ok (mkGate (<[id := next g]> (inflight g)) (closed g) (S (next g)) (set_conn t id (Posting (next g)) g)).
Proof.
  intros Ht Hi. destruct G as [H1 H2 H3 H4 H5].
  assert (Hkeep : ∀ t0 x, conns g !! t0 = Some x → set_conn t id (Posting (next g)) g !! t0 = Some x)
    by (intros t0 x Hx; apply set_conn_Some; right; split; [congruence|done]).
  assert (Hold : ∀ t0 id0, conns g !! t0 ≠ Some (id0, Posting (next g))) by (intros t0 id0 Hx; specialize (H3 t0 id0 (next g) (or_introl Hx)); lia).
  split; cbn; intros.
  - apply set_conn_Some in H as [[-> [= -> ->]]|[_ H]]; [by rewrite lookup_insert_eq|].
    rewrite lookup_insert_ne; [by eauto|]. intros <-. rewrite (H1 _ _ _ H) in Hi. done.
  - apply lookup_insert_Some in H as [[<- <-]|[_ H]]; [exists t; apply set_conn_Some; by left|]. destruct (H2 _ _ H) as [u H0]. eauto.
  - destruct H as [H|H]; apply set_conn_Some in H as [[-> [= -> ->]]|[_ H]]; try lia; (assert (ch < next g)%nat by eauto; lia).
  - apply set_conn_Some in H as [[-> [= -> ->]]|[_ H]]; apply set_conn_Some in H0 as [[-> E]|[_ H0]]; [done| | |by eauto].
    + by destruct (Hold _ _ H0).
    + injection E as -> ->. by destruct (Hold _ _ H).
  - apply set_conn_Some in H as [[-> [= ]]|[_ H]]. destruct (H5 _ _ _ H) as [Hc|[u [Ho|Ho]]]; eauto.
Qed.
Lemma gate_remove t id ch : conns g !! t = Some (id, Posting ch) →
  gate_ok (mkGate (delete id (inflight g)) (closed g) (next g) (set_conn t id (Removed ch) g)).
Proof.
  intros Ht. destruct G as [H1 H2 H3 H4 H5]. split; cbn; intros.
  - apply set_conn_Some in H as [[-> [= ]]|[Hn H]]. pose proof (H1 _ _ _ H) as Hl. rewrite lookup_delete_ne; [done|].
    intros <-. rewrite (H1 _ _ _ Ht) in Hl. injection Hl as <-. by destruct Hn, (H4 _ _ _ _ _ H Ht).
  - apply lookup_delete_Some in H as [Hn H]. destruct (H2 _ _ H) as [u H0]. exists u. apply set_conn_Some. right. split; [|done].
    intros ->. rewrite Ht in H0. by injection H0.
  - destruct H as [H|H]; apply set_conn_Some in H as [[-> [= ]]|[_ H]]; subst; eauto.
  - apply set_conn_Some in H as [[-> [= ]]|[_ H]]. apply set_conn_Some in H0 as [[-> [= ]]|[_ H0]]. eauto.
  - apply set_conn_Some in H as [[-> [= ]]|[_ H]]. destruct (H5 _ _ _ H) as [Hc|[u Ho]]; [by left|right].
    destruct (decide (u = t)) as [->|Hne].
    + exists t. right. apply set_conn_Some. left. split; [done|]. rewrite Ht in Ho. by destruct Ho as [[= -> ->]|[= ]].
    + exists u. rewrite !set_conn_Some. destruct Ho; [left|right]; by right.
Qed.
Lemma gate_close t id ch : conns g !! t = Some (id, Removed ch) →
  gate_ok (mkGate (inflight g) ({[ch]} ∪ closed g) (next g) (set_conn t id Returned g)).
Proof.
  intros Ht. destruct G as [H1 H2 H3 H4 H5]. split; cbn; intros.
  - apply set_conn_Some in H as [[-> [= ]]|[_ H]]. eauto.
  - destruct (H2 _ _ H) as [u H0]. exists u. apply set_conn_Some. right. split; [congruence|done].
  - destruct H as [H|H]; apply set_conn_Some in H as [[-> [= ]]|[_ H]]; eauto.
  - apply set_conn_Some in H as [[-> [= ]]|[_ H]]. apply set_conn_Some in H0 as [[-> [= ]]|[_ H0]]. eauto.
  - apply set_conn_Some in H as [[-> [= ]]|[_ H]]. destruct (H5 _ _ _ H) as [Hc|[u Ho]]; [set_solver|].
    destruct (decide (u = t)) as [->|Hne].
    + left. rewrite Ht in Ho. destruct Ho as [[= ]|[= -> ->]]. set_solver.
    + right. exists u. rewrite !set_conn_Some. destruct Ho; [left|right]; by right.
Qed.
Lemma gate_wake t id ch : conns g !! t = Some (id, Waiting ch) →
  gate_ok (mkGate (inflight g) (closed g) (next g) (set_conn t id Returned g)).
Proof.
  intros Ht. destruct G as [H1 H2 H3 H4 H5]. split; cbn; intros.
  - apply set_conn_Some in H as [[-> [= ]]|[_ H]]. eauto.
  - destruct (H2 _ _ H) as [u H0]. exists u. apply set_conn_Some. right. split; [congruence|done].
  - destruct H as [H|H]; apply set_conn_Some in H as [[-> [= ]]|[_ H]]; eauto.
  - apply set_conn_Some in H as [[-> [= ]]|[_ H]]. apply set_conn_Some in H0 as [[-> [= ]]|[_ H0]]. eauto.
  - apply set_conn_Some in H as [[-> [= ]]|[_ H]]. destruct (H5 _ _ _ H) as [Hc|[u Ho]]; [by left|right].
    exists u. rewrite !set_conn_Some. assert (u ≠ t) by (intros ->; rewrite Ht in Ho; by destruct Ho). destruct Ho; [left|right]; by right.
Qed.
End gate.
Lemma gate_reachable_ok g : gate_reachable g → gate_ok g.
Proof.
  intros H. refine (rtc_ind_r gate_ok no_gate _ _ g H); [by split; cbn; try done; intros ??? []|].
  intros g1 g2 _ Hs G. destruct Hs; [by apply gate_join|by apply gate_lead|by apply gate_remove|by apply gate_close|by eapply gate_wake].
Qed.

(** However many connections ask, one wake of a database is posted at a time, and
    nobody waits for a channel that is closed already or that nobody will close. *)
Theorem one_wake_at_a_time g :
  gate_reachable g →
  (∀ t t' id ch ch', conns g !! t = Some (id, Posting ch) → conns g !! t' = Some (id, Posting ch') → t = t') ∧
  (∀ t id ch, conns g !! t = Some (id, Waiting ch) → ch ∈ closed g ∨ ∃ t', owner g t' id ch).
Proof.
  intros [H1 H2 H3 H4 H5]%gate_reachable_ok. split; [|exact H5].
  intros t t' id ch ch' Ht Ht'. assert (ch = ch') as -> by (pose proof (H1 _ _ _ Ht); pose proof (H1 _ _ _ Ht'); congruence).
  by eapply H4.
Qed.

(** ** The agent's end of the tunnel *)

Definition pgTunnelPort : Z := 5432.
(** resolveTunnelPort: the only port there is. *)
Definition resolveTunnelPort (raw : string) : option Z := if String.eqb raw "" || String.eqb raw "5432" then Some pgTunnelPort else None.
Record tunnel_box := mkBox { b_template : string; b_status : string; b_guest_ip : string }.
(** registerPGTunnel: the status of a refusal, or where it dials and stays; [box]:
    the look-up; [dialled], [hijacked]: the calls that come after. *)
Definition registerPGTunnel (upgrade port : string) (box : option tunnel_box) (dialled hijacked : bool) : Z + (string * Z) :=
  if negb (String.eqb upgrade "pg-tunnel") then inl 400
  else match box with
  | None => inl 404
  | Some b =>
      if negb (isPGManagedTemplate (b_template b)) then inl 403
      else if negb (String.eqb (b_status b) "running") then inl 503
      else if String.eqb (b_guest_ip b) "" then inl 503
      else match resolveTunnelPort port with
      | None => inl 400
      | Some p => if negb dialled then inl 502 else if negb hijacked then inl 500 else inr (b_guest_ip b, p)
      end
  end.
(** The tunnel reaches the database port of a running managed database, and nothing
    else. *)
Lemma tunnel_reaches_databases upgrade port box dialled hijacked ip p :
  registerPGTunnel upgrade port box dialled hijacked = inr (ip, p) →
  p = 5432 ∧ ∃ b, box = Some b ∧ isPGManagedTemplate (b_template b) = true ∧ b_status b = "running" ∧ ip = b_guest_ip b ∧ ip ≠ "".
Proof.
  unfold registerPGTunnel, resolveTunnelPort. destruct (negb (String.eqb upgrade "pg-tunnel")); [done|]. destruct box as [b|]; [|done].
  destruct (isPGManagedTemplate (b_template b)) eqn:Em; [|done]. destruct (String.eqb_spec (b_status b) "running") as [Es|]; [|done].
  destruct (String.eqb_spec (b_guest_ip b) ""); [done|]. destruct (_ || _); [|done]. destruct dialled, hijacked; try done.
  intros [= <- <-]. split; [done|]. by exists b.
Qed.

(** ** What the code does and its comments do not say *)

(** A client without a password wakes any sleeping sandbox, a database or not. *)
Lemma wakes_any_sandbox :
  runs (handleConn ".db.example")
    [did CRead (Some a_hello); did CReply true; did CHandshake (Some "s1.db.example"); did (CEndpoint "s1") (Some (Some "http://agent"));
     did (CStatus "s1") (Some ("hibernated", "base")); did (CWake "http://agent" "s1") (); did (CTunnel 0 "http://agent" "s1") false;
     did (CSleep 0) false; did (CError (writePGError "57P03" "database is still starting — retry in a few seconds")) (); did CDrain ()] Refused.
Proof. repeat (eexists; eexists; split; [reflexivity|]). by split. Qed.
(** A suffix with a capital letter in the environment accepts no name. *)
Lemma capital_suffix_matches_nothing : sandboxIDFromSNI ".DB.example" "d1.DB.example" = "" ∧ sandboxIDFromSNI ".DB.example" "d1.db.example" = "".
Proof. split; reflexivity. Qed.
(** The proxy takes any template with the name in front for a database's, the agent
    only the one. *)
Lemma proxy_knows_more_templates : isDBTemplate "postgres-16-mine" = true ∧ isPGManagedTemplate "postgres-16-mine" = false.
Proof. split; reflexivity. Qed.
