(* ===== verification/Director.v ===== *)
(** The routing of requests to agents (api/cmd/api/multinode.go): the agent of a
    sandbox's lease or a placement by the scheduler, the size a create or a volume
    asks for as it is read off the body, the forwarded request, and the lease cache
    kept warm by the answers.  The state is the scheduler's (Scheduler.v); JSON is
    decoded as encoding/json does it (Scope.v). *)

From S2P Require Import Prelude GoStrings Slugs Float64 GoSort Scheduler Scope Edge.
From stdpp Require Import strings.

Open Scope string_scope.
Open Scope list_scope.
Open Scope Z_scope.

(** ** Paths *)

Definition hex_dash (c : Ascii.ascii) : bool :=
  let n := code c in ((48 <=? n) && (n <=? 57)) || ((97 <=? n) && (n <=? 102)) || ((65 <=? n) && (n <=? 70)) || (n =? 45).
Fixpoint span (f : Ascii.ascii → bool) (s : string) : string * string :=
  match s with
  | EmptyString => ("", "")
  | String c r => if f c then let '(a, b) := span f r in (String c a, b) else ("", s)
  end.
Definition prefix_sandboxes : string := "/v1/sandboxes/".
(** sandboxIDRe: the id, at least 8 characters, before a slash or the end; forkPathRe. *)
Definition sandbox_rest (path : string) : option (string * string) :=
  if has_prefix prefix_sandboxes path then
    let '(id, rest) := span hex_dash (str_drop 14 path) in
    if (8 <=? String.length id)%nat then Some (id, rest) else None
  else None.
Definition sandboxIDRe (path : string) : option string :=
  match sandbox_rest path with
  | Some (id, rest) => if String.eqb rest "" || has_prefix "/" rest then Some id else None
  | None => None
  end.
Definition forkPathRe (path : string) : bool :=
  match sandbox_rest path with Some (_, rest) => String.eqb rest "/fork" || String.eqb rest "/fork-tree" | None => false end.

(** ** Bodies *)

(** A body: its first value, where that ends, and where the first byte after it that
    is no space is, if there is one. *)
Record wire := mkWire { w_value : option json; w_end : Z; w_junk : option Z }.
(** [json.Unmarshal] of its first [n] bytes, and of all of it. *)
Definition unmarshal_head (n : Z) (b : wire) : option json :=
  if (w_end b <=? n) && match w_junk b with Some j => n <=? j | None => true end then w_value b else None.
Definition unmarshal_all (b : wire) : option json := match w_junk b with Some _ => None | None => w_value b end.

Record sizes := mkSizes { z_template : string; z_cpu : Z; z_memory_mb : Z }.
Definition sizes_field (k : string) (j : json) (z : sizes) : option sizes :=
  if is_field "template" k then t ← dec_string (z_template z) j; Some (mkSizes t (z_cpu z) (z_memory_mb z))
  else if is_field "cpu" k then n ← dec_int (z_cpu z) j; Some (mkSizes (z_template z) n (z_memory_mb z))
  else if is_field "memory_mb" k then n ← dec_int (z_memory_mb z) j; Some (mkSizes (z_template z) (z_cpu z) n)
  else Some z.
(** [row]: the templates table, where a query may fail. *)
Definition peekSandboxCreateSize (row : string → option (Z * Z)) (b : option wire) : Z * Z :=
  match b with
  | None => (0, 0)
  | Some b =>
      match unmarshal_head 8192 b ≫= dec_struct sizes_field (mkSizes "" 0 0) with
      | None => (0, 0)
      | Some z =>
          let t := TrimSpace (z_template z) in
          let own := (Z.max 0 (z_cpu z), Z.max 0 (z_memory_mb z)) in
          if String.eqb t "" then own
          else match row t with
          | Some (tcpu, tmem) => if (0 <? tcpu) || (0 <? tmem) then (tcpu, tmem) else own
          | None => own
          end
      end
  end.

Definition size_mb_field (k : string) (j : json) (n : Z) : option Z := if is_field "size_mb" k then dec_int n j else Some n.
Definition defaultBytes : Z := Z.shiftl 256 20.
Definition peekVolumeCreateBytes (b : option wire) : Z :=
  match b with
  | None => defaultBytes
  | Some b =>
      match unmarshal_head 4096 b ≫= dec_struct size_mb_field 0 with
      | Some n => if n <=? 0 then defaultBytes else i64 (Z.shiftl n 20)
      | None => defaultBytes
      end
  end.

(** ** Routing *)

Record hreq := mkHreq { h_method : string; h_path : string; h_body : option wire }.
(** What the calls of a request answer: the clock, the lease's row, the agents'
    rows, the templates', whether the endpoint parses, and the agent's answer. *)
Record env := mkEnv {
  e_now : Z;
  e_lease : res string (option Agent);
  e_agents : option (list Agent);
  e_template : string → option (Z * Z);
  e_endpoint_ok : bool;
  e_answer : option (Z * option wire);
}.
Inductive route_err := LookupFailed | PickFailed (e : pick_err).

Section director.
Context (overcommit : f64 * bool) (region : string).

Definition is_post (r : hreq) : bool := String.eqb (h_method r) "POST".
Definition resolveTarget (e : env) (r : hreq) (s : Scheduler) : Scheduler * res route_err Agent :=
  let pick :=
    let disk := if is_post r && String.eqb (h_path r) "/v1/volumes" then peekVolumeCreateBytes (h_body r) else 0 in
    let '(cpu, mem) :=
      if is_post r && String.eqb (h_path r) "/v1/sandboxes" then peekSandboxCreateSize (e_template e) (h_body r) else (0, 0) in
    let '(s, a) := Pick overcommit (e_now e) (e_agents e) (mkRequest cpu mem region disk "") s in
    (s, match a with Ok a => Ok a | Err x => Err (PickFailed x) end) in
  match sandboxIDRe (h_path r) with
  | Some id =>
      match LookupLease (e_now e) (e_lease e) id s with
      | Err _ => (s, Err LookupFailed)
      | Ok (Some a) => (s, Ok a)
      | Ok None => pick
      end
  | None => pick
  end.

(** *** The answer *)

Definition isLeaseRelevant (r : hreq) : bool :=
  if String.eqb (h_method r) "POST" then String.eqb (h_path r) "/v1/sandboxes" || forkPathRe (h_path r)
  else if String.eqb (h_method r) "DELETE" then match sandboxIDRe (h_path r) with Some _ => true | None => false end
  else false.
Definition success (st : Z) : bool := (200 <=? st) && (st <? 300).

Definition filterNonEmpty (l : list string) : list string := filter (λ s, s ≠ "") l.
Definition children_field (k : string) (j : json) (c : option json) : option (option json) :=
  if is_field "children" k then Some (Some j) else Some c.
Definition id_field (k : string) (j : json) (s : string) : option string := if is_field "id" k then dec_string s j else Some s.
Definition dec_list {A} (dec : json → option A) (j : json) : option (list A) :=
  match j with JArr l => mapM dec l | JNull => Some [] | _ => None end.
Definition parseForkChildIDs (b : wire) : list string :=
  match unmarshal_all b ≫= dec_struct children_field None with
  | Some (Some children) =>
      match dec_list (dec_string "") children with
      | Some ids => filterNonEmpty ids
      | None => match dec_list (dec_struct id_field "") children with Some ids => filterNonEmpty ids | None => [] end
      end
  | _ => []
  end.

Record created := mkCreated { cr_id : string; cr_persistent : bool; cr_metadata : option json }.
Definition created_field (k : string) (j : json) (c : created) : option created :=
  if is_field "id" k then i ← dec_string (cr_id c) j; Some (mkCreated i (cr_persistent c) (cr_metadata c))
  else if is_field "persistent" k then p ← dec_bool (cr_persistent c) j; Some (mkCreated (cr_id c) p (cr_metadata c))
  else if is_field "metadata" k then Some (mkCreated (cr_id c) (cr_persistent c) (Some j))
  else Some c.
Definition is_persistent (c : created) : bool :=
  if cr_persistent c then true
  else match cr_metadata c ≫= as_map with
  | Some (Some m) =>
      match Scope.get "persistent" m with
      | Some (JBool b) => b
      | Some (JStr t) => String.eqb (lower_string t) "true"
      | _ => false
      end
  | _ => false
  end.
Definition parse_created (b : wire) : option created :=
  match unmarshal_all b ≫= dec_struct created_field (mkCreated "" false None) with
  | Some c => if String.eqb (cr_id c) "" then None else Some c
  | None => None
  end.

(** The cache after the answer, and the body that goes on to the client. *)
Definition maybeUpdateLeaseCache (now : Z) (r : hreq) (st : Z) (body : option wire) (target : Agent) (s : Scheduler) : Scheduler * option wire :=
  if String.eqb (h_method r) "DELETE" then
    (if success st then match sandboxIDRe (h_path r) with Some id => ForgetLease id s | None => s end else s, body)
  else if negb (success st) then (s, body)
  else match body with
  | None => (s, None)                    (* a read error: the body is dropped *)
  | Some b =>
      if forkPathRe (h_path r) then (foldl (λ s id, RememberLease now id target s) s (parseForkChildIDs b), body)
      else match parse_created b with
      | None => (s, body)
      | Some c => (if is_persistent c then RememberLeasePersistent now (cr_id c) target s else RememberLease now (cr_id c) target s, body)
      end
  end.

Inductive outcome :=
  | NoCapacity                               (* 503, Retry-After 5 *)
  | BadEndpoint                              (* 502 *)
  | Unreachable (a : Agent)                  (* 502 *)
  | Proxied (a : Agent) (path : string) (st : Z) (body : option wire).

Definition forwarded_path (path : string) : string := if has_prefix "/v1" path then str_drop 3 path else path.
Definition ServeHTTP (e : env) (r : hreq) (s : Scheduler) : Scheduler * outcome :=
  match resolveTarget e r s with
  | (s, Err _) => (s, NoCapacity)
  | (s, Ok a) =>
      if negb (e_endpoint_ok e) then (s, BadEndpoint)
      else match e_answer e with
      | None => (s, Unreachable a)
      | Some (st, body) =>
          let '(s, body) := if isLeaseRelevant r then maybeUpdateLeaseCache (e_now e) r st body a s else (s, body) in
          (s, Proxied a (forwarded_path (h_path r)) st body)
      end
  end.
Definition serve_all (l : list (env * hreq)) (s : Scheduler) : Scheduler := foldl (λ s x, (ServeHTTP x.1 x.2 s).1) s l.
End director.

(** ** The lease cache *)

Lemma Pick_leases oc now rows req s : localLeases (Pick oc now rows req s).1 = localLeases s ∧ leaseCacheTTL (Pick oc now rows req s).1 = leaseCacheTTL s.
Proof.
  unfold Pick, List. destruct (_ && _ && _); [by destruct (pick _ _ _ _ _) as [m [a|]]|]. destruct rows as [rows|]; [|done].
  destruct (0 <? cacheTTL s); by destruct (pick _ _ _ _ _) as [m [a|]].
Qed.
Lemma resolve_leases oc region e r s :
  localLeases (resolveTarget oc region e r s).1 = localLeases s ∧ leaseCacheTTL (resolveTarget oc region e r s).1 = leaseCacheTTL s.
Proof.
  unfold resolveTarget. destruct (if _ && _ then peekSandboxCreateSize _ _ else _) as [cpu mem].
  match goal with |- context [Pick oc ?n ?rows ?req s] => pose proof (Pick_leases oc n rows req s) as Hp; destruct (Pick oc n rows req s) as [s' a] end.
  destruct (sandboxIDRe (h_path r)) as [id|]; [|done]. destruct (LookupLease _ _ _ _) as [[a'|]|]; done.
Qed.

(** The ids whose entry an answer changes. *)
Definition rebinds (r : hreq) (st : Z) (body : option wire) (id : string) : bool :=
  isLeaseRelevant r && success st &&
  if String.eqb (h_method r) "DELETE" then bool_decide (sandboxIDRe (h_path r) = Some id)
  else match body with
  | None => false
  | Some b => if forkPathRe (h_path r) then bool_decide (id ∈ parseForkChildIDs b)
              else match parse_created b with Some c => String.eqb (cr_id c) id | None => false end
  end.
Lemma remember_ne now id id' a ttl s : id ≠ id' → localLeases (rememberLeaseWithTTL now id a ttl s) !! id' = localLeases s !! id'.
Proof. intros H. unfold rememberLeaseWithTTL. destruct (String.eqb id ""); [done|]. by apply lookup_insert_ne. Qed.
Lemma forget_ne id id' s : id ≠ id' → localLeases (ForgetLease id s) !! id' = localLeases s !! id'.
Proof. intros H. unfold ForgetLease. destruct (String.eqb id ""); [done|]. by apply lookup_delete_ne. Qed.
Lemma remember_all_ne now ids id' a s : id' ∉ ids → localLeases (foldl (λ s id, RememberLease now id a s) s ids) !! id' = localLeases s !! id'.
Proof.
  revert s. induction ids as [|id ids IH]; intros s H; [done|]. rewrite not_elem_of_cons in H. destruct H as [Hne H].
  simpl. rewrite (IH _ H). by apply remember_ne.
Qed.
Lemma remember_ttl now id a ttl s : leaseCacheTTL (rememberLeaseWithTTL now id a ttl s) = leaseCacheTTL s.
Proof. unfold rememberLeaseWithTTL. by destruct (String.eqb id ""). Qed.
Lemma update_ne now r st body a s id :
  isLeaseRelevant r = true → rebinds r st body id = false → localLeases (maybeUpdateLeaseCache now r st body a s).1 !! id = localLeases s !! id.
Proof.
  unfold rebinds, maybeUpdateLeaseCache. intros ->. destruct (success st); [|by destruct (String.eqb (h_method r) "DELETE")].
  cbn [andb]. destruct (String.eqb (h_method r) "DELETE").
  - destruct (sandboxIDRe (h_path r)) as [id'|]; [|done]. intros H%bool_decide_eq_false. apply forget_ne. congruence.
  - destruct body as [b|]; [|done]. cbn [negb]. destruct (forkPathRe (h_path r)).
    + intros H%bool_decide_eq_false. by apply remember_all_ne.
    + destruct (parse_created b) as [c|]; [|done]. intros H%String.eqb_neq. by destruct (is_persistent c); apply remember_ne.
Qed.

(** A request that leaves the entry of [id] alone, whatever it is answered. *)
Definition leaves (id : string) (x : env * hreq) : bool :=
  match e_answer x.1 with Some (st, body) => negb (rebinds x.2 st body id) | None => true end.
Section routing.
Context (oc : f64 * bool) (region : string).
Lemma serve_ne e r s id : leaves id (e, r) = true → localLeases (ServeHTTP oc region e r s).1 !! id = localLeases s !! id.
Proof.
  unfold leaves, ServeHTTP. cbn [fst snd]. pose proof (resolve_leases oc region e r s) as [Hl _].
  destruct (resolveTarget oc region e r s) as [s' [a|x]]; cbn [fst] in Hl; [|by rewrite <- Hl].
  destruct (e_endpoint_ok e); [|by rewrite <- Hl]. cbn [negb]. destruct (e_answer e) as [[st body]|]; [|by rewrite <- Hl].
  intros H%negb_true_iff. destruct (isLeaseRelevant r) eqn:Er; [|by rewrite <- Hl].
  pose proof (update_ne (e_now e) r st body a s' id Er H) as Hu. destruct (maybeUpdateLeaseCache _ _ _ _ _ _) as [s'' b']. simpl in *. by rewrite Hu, Hl.
Qed.
Lemma serve_all_ne l s id : forallb (leaves id) l = true → localLeases (serve_all oc region l s) !! id = localLeases s !! id.
Proof.
  unfold serve_all. revert s. induction l as [|[e r] l IH]; intros s; simpl; [done|]. intros [Hx Hl]%andb_true_iff.
  rewrite (IH _ Hl). by apply serve_ne.
Qed.

(** C22. After a create that was answered with success and an id, every request about
    that sandbox goes to the agent that created it, whatever the tables say and
    with no query, for five minutes (an hour where the sandbox is persistent),
    through any other requests but a successful DELETE under its path or an answer
    that names its id. *)
Theorem created_is_routed_back e r s s1 a path st b c l e' r' :
  ServeHTTP oc region e r s = (s1, Proxied a path st (Some b)) →
  h_method r = "POST" → h_path r = "/v1/sandboxes" → success st = true → parse_created b = Some c →
  forallb (leaves (cr_id c)) l = true →
  sandboxIDRe (h_path r') = Some (cr_id c) → e_now e' < e_now e + (if is_persistent c then 3600 * second else leaseCacheTTL s) →
  resolveTarget oc region e' r' (serve_all oc region l s1) = (serve_all oc region l s1, Ok a).
Proof.
  intros Hs Hm Hp Hst Hc Hl Hid Hnow.
  assert (He : localLeases s1 !! cr_id c = Some (a, e_now e + (if is_persistent c then 3600 * second else leaseCacheTTL s)) ∧ cr_id c ≠ "").
  { assert (Hne : cr_id c ≠ "") by (unfold parse_created in Hc; destruct (_ ≫= _) as [c'|]; [|done]; destruct (String.eqb_spec (cr_id c') ""); [done|congruence]).
    split; [|done]. unfold ServeHTTP in Hs. pose proof (resolve_leases oc region e r s) as [_ Ht].
    destruct (resolveTarget oc region e r s) as [s' [a'|x]]; [|done]. destruct (e_endpoint_ok e); [|done]. cbn [negb] in Hs.
    destruct (e_answer e) as [[st' body]|]; [|done]. unfold isLeaseRelevant, maybeUpdateLeaseCache in Hs. rewrite Hm, Hp in Hs. cbn [fst] in Ht.
    change (String.eqb "POST" "POST") with true in Hs. change (String.eqb "POST" "DELETE") with false in Hs.
    change (String.eqb "/v1/sandboxes" "/v1/sandboxes" || forkPathRe "/v1/sandboxes") with true in Hs. change (forkPathRe "/v1/sandboxes") with false in Hs.
    destruct (success st') eqn:Est; cbn [negb] in Hs; [|injection Hs as ? ? ? ? ?; subst; congruence].
    destruct body as [b'|]; [|done]. destruct (parse_created b') as [c'|] eqn:Ec'; [|injection Hs as ? ? ? ? ?; subst; congruence].
    injection Hs as ? ? ? ? ?; subst. rewrite Hc in Ec'. injection Ec' as <-. apply String.eqb_neq in Hne.
    destruct (is_persistent c); unfold RememberLease, RememberLeasePersistent, rememberLeaseWithTTL; rewrite Hne; cbn; rewrite lookup_insert_eq, ?Ht; done. }
  destruct He as [He Hne]. unfold resolveTarget. rewrite Hid. unfold LookupLease. apply String.eqb_neq in Hne. rewrite Hne.
  rewrite (serve_all_ne _ _ _ Hl), He. apply Z.ltb_lt in Hnow. by rewrite Hnow.
Qed.
End routing.

(** ** Placements *)

(** A create whose body ends within 8 KiB and names a registered template is placed,
    if at all, on an agent that has the template's memory free beside what was
    promised within the last 15 seconds. *)
Lemma creates_are_sized oc region e r s s' a b z tcpu tmem :
  resolveTarget oc region e r s = (s', Ok a) →
  h_method r = "POST" → h_path r = "/v1/sandboxes" → h_body r = Some b →
  unmarshal_head 8192 b ≫= dec_struct sizes_field (mkSizes "" 0 0) = Some z → TrimSpace (z_template z) ≠ "" →
  e_template e (TrimSpace (z_template z)) = Some (tcpu, tmem) → 0 < tmem →
  tmem ≤ freeMem (reservedLocked (pruneReservationsLocked (e_now e) (reservations (List (e_now e) (e_agents e) s).1)) (ID a)) (aCapacity a).
Proof.
  intros Hr Hm Hp Hb Hz Ht Hrow Hpos. unfold resolveTarget, is_post in Hr. rewrite Hm, Hp in Hr.
  change (sandboxIDRe "/v1/sandboxes") with (@None string) in Hr. change (String.eqb "POST" "POST" && String.eqb "/v1/sandboxes" "/v1/volumes") with false in Hr.
  change (String.eqb "POST" "POST" && String.eqb "/v1/sandboxes" "/v1/sandboxes") with true in Hr. cbv iota in Hr.
  unfold peekSandboxCreateSize in Hr. rewrite Hb, Hz in Hr. apply String.eqb_neq in Ht. rewrite Ht, Hrow in Hr.
  replace (0 <? tmem) with true in Hr by lia. rewrite orb_true_r in Hr. unfold Pick in Hr.
  destruct (List (e_now e) (e_agents e) s) as [s1 [ags|]] eqn:El; [|by injection Hr].
  destruct (pick oc (e_now e) _ ags (reservations s1)) as [m [a'|]] eqn:Ek; [|by injection Hr]. injection Hr as <- <-.
  destruct (pick_Some _ _ _ _ _ _ _ Ek) as (_ & Hc & _). apply consider_fits in Hc. by apply (fit_mem _ _ _ _ Hc).
Qed.

(** ** Witnesses, and what the code does and its comments do not say *)

Definition an_agent : Agent := w_agent "a" 16384.
Definition an_id : string := "0a1b2c3d-0000".
Definition create_req : hreq := mkHreq "POST" "/v1/sandboxes" (Some (mkWire (Some (JObj [("template", JStr "base")])) 20 None)).
Definition created_body : wire := mkWire (Some (JObj [("id", JStr an_id); ("metadata", JObj [("persistent", JStr "True")])])) 60 None.
Definition an_env (now : Z) (answer : option (Z * option wire)) : env :=
  mkEnv now (Ok None) (Some [an_agent]) (λ t, if String.eqb t "base" then Some (1, 512) else None) true answer.
Definition no_admission : f64 * bool := (f64_of_Z 1, false).
Definition after_create : Scheduler * outcome := ServeHTTP no_admission "" (an_env 0 (Some (201, Some created_body))) create_req (New (30 * second)).
Lemma created_is_routed_back_witness :
  after_create.2 = Proxied an_agent "/sandboxes" 201 (Some created_body) ∧
  resolveTarget no_admission "" (an_env (1000 * second) None) (mkHreq "GET" ("/v1/sandboxes/" +:+ an_id +:+ "/exec") None) after_create.1 =
    (after_create.1, Ok an_agent).
Proof.
  split; [vm_compute; reflexivity|].
  refine (created_is_routed_back no_admission "" (an_env 0 (Some (201, Some created_body))) create_req (New (30 * second)) after_create.1 an_agent
    "/sandboxes" 201 created_body (mkCreated an_id false (Some (JObj [("persistent", JStr "True")]))) [] (an_env (1000 * second) None)
    (mkHreq "GET" ("/v1/sandboxes/" +:+ an_id +:+ "/exec") None) _ _ _ _ _ _ _ _); vm_compute; reflexivity.
Defined.

(** A create with a long body asks for nothing. *)
Lemma long_bodies_are_unsized row b : 8192 < w_end b → peekSandboxCreateSize row (Some b) = (0, 0).
Proof. intros H. unfold peekSandboxCreateSize, unmarshal_head. by replace (w_end b <=? 8192) with false by lia. Qed.
(** A volume of 2^44 MiB asks for none, so any agent will do. *)
Lemma volume_size_wraps : peekVolumeCreateBytes (Some (mkWire (Some (JObj [("size_mb", JNum (2 ^ 44) Plain)])) 30 None)) = 0.
Proof. reflexivity. Qed.
(** A request that creates nothing reserves 8 CPUs for 15 seconds: eight lists of
    volumes, and with CPU admission on there is no room for a create. *)
Definition lists : list (env * hreq) := replicate 8 (an_env 0 (Some (200, None)), mkHreq "GET" "/v1/volumes" None).
Definition admission : f64 * bool := (f64_of_Z 1, true).
Lemma reads_reserve_cpu :
  let s := New (30 * second) in
  (ServeHTTP admission "" (an_env 0 (Some (201, Some created_body))) create_req s).2 = Proxied an_agent "/sandboxes" 201 (Some created_body) ∧
  (ServeHTTP admission "" (an_env 0 (Some (201, Some created_body))) create_req (serve_all admission "" lists s)).2 = NoCapacity.
Proof. vm_compute. by split. Qed.
(** A DELETE below a sandbox forgets where the sandbox is. *)
Lemma delete_below_forgets :
  let r := mkHreq "DELETE" ("/v1/sandboxes/" +:+ an_id +:+ "/files/x") None in
  localLeases (ServeHTTP no_admission "" (an_env 1 (Some (204, None))) r after_create.1).1 !! an_id = None ∧
  localLeases after_create.1 !! an_id ≠ None.
Proof. vm_compute. by split. Qed.
(** A create whose answer cannot be read is reported as a success without a body. *)
Lemma unread_create_is_a_success :
  (ServeHTTP no_admission "" (an_env 0 (Some (201, None))) create_req (New (30 * second))).2 = Proxied an_agent "/sandboxes" 201 None.
Proof. vm_compute. reflexivity. Qed.
