(* ===== verification/DbWatch.v ===== *)
(** Managed databases on their agent: the sweep that suspends idle ones
    (sandbox/db_idle.go), the monitor that restarts or fails those whose PostgreSQL
    is down (db_monitor.go) and the rotation of credentials (db_rotate.go).  The
    loops are functions of what a tick sees of a database; a run is a list of ticks,
    with any answers. *)

From S2P Require Import Prelude GoStrings GoTime Slugs.
From stdpp Require Import strings sorting.

#[local] Set Warnings "-clear-no-such-hyp".

Open Scope string_scope.
Open Scope list_scope.
Open Scope Z_scope.

(** ** What a tick is for one database *)

(** [None]: the statuses could not be read, and the tick is skipped; [Some None]: no
    driver of this id; [Some (Some l)]: what the loop sees of it. *)
Definition sight (L : Type) : Type := option (option L).

(** The states of a loop, by id, and one tick of it: [visit] for each driver, and
    what is no longer live is dropped. *)
Section ticks.
Context {S L A : Type} (visit : option S → L → option S * list A).
Definition tick (looks : option (gmap string L)) (states : gmap string S) : gmap string S :=
  match looks with
  | None => states
  | Some looks => map_imap (λ id l, (visit (states !! id) l).1) looks
  end.
(** The same for one id, with what is done about it. *)
Definition tick_one (st : option S) (x : sight L) : option S * list A :=
  match x with None => (st, []) | Some None => (None, []) | Some (Some l) => visit st l end.
Definition seen (id : string) (looks : option (gmap string L)) : sight L := (λ m : gmap string L, m !! id) <$> looks.
Lemma tick_lookup looks states id : tick looks states !! id = (tick_one (states !! id) (seen id looks)).1.
Proof. destruct looks as [m|]; [|done]. simpl. rewrite map_lookup_imap. by destruct (m !! id). Qed.
Definition run (xs : list (sight L)) : option S := foldl (λ st x, (tick_one st x).1) None xs.
Lemma run_snoc xs x : run (xs ++ [x]) = (tick_one (run xs) x).1.
Proof. unfold run. by rewrite foldl_app. Qed.
(** The state with everything that was done so far. *)
Definition history (xs : list (sight L)) : option S * list A :=
  foldl (λ acc x, ((tick_one acc.1 x).1, acc.2 ++ (tick_one acc.1 x).2)) (None, []) xs.
Lemma history_snoc xs x : history (xs ++ [x]) = ((tick_one (history xs).1 x).1, (history xs).2 ++ (tick_one (history xs).1 x).2).
Proof. unfold history. by rewrite foldl_app. Qed.
Lemma history_run xs : (history xs).1 = run xs.
Proof. induction xs as [|x xs IH] using rev_ind; [done|]. by rewrite history_snoc, run_snoc, IH. Qed.
Lemma run_tick id ticks :
  foldl (λ st lk, tick lk st) ∅ ticks !! id = run (seen id <$> ticks).
Proof.
  induction ticks as [|lk ticks IH] using rev_ind; [apply lookup_empty|].
  rewrite foldl_app, fmap_app. change (seen id <$> [lk]) with [seen id lk]. by rewrite run_snoc, <- IH, <- tick_lookup.
Qed.
End ticks.

(** sandboxStatuses: by id, the status of each row that the store lists for this
    agent; of two rows of an id the last counts, and an id without row has none. *)
Definition sandboxStatuses (rows : option (list (string * string))) : option (gmap string string) :=
  foldl (λ m r, if String.eqb r.1 "" then m else <[r.1 := r.2]> m) ∅ <$> rows.
Definition status_of (rows : option (list (string * string))) (id : string) : option string :=
  (λ m : gmap string string, default "" (m !! id)) <$> sandboxStatuses rows.
(** Who is running is what the last row of the id says. *)
Lemma status_of_last rows id s : id ≠ "" →
  status_of (Some rows) id = Some s ↔ s = default "" (last (snd <$> filter (λ r, r.1 = id) rows)).
Proof.
  intros Hid. unfold status_of, sandboxStatuses. simpl.
  assert (H : foldl (λ (m : gmap string string) r, if String.eqb r.1 "" then m else <[r.1 := r.2]> m) ∅ rows !! id = last (snd <$> filter (λ r, r.1 = id) rows)).
  { induction rows as [|[i v] rows IH] using rev_ind; [apply lookup_empty|]. rewrite foldl_app, filter_app, fmap_app. simpl.
    rewrite filter_cons, filter_nil. simpl. case_decide as E; simpl.
    - subst i. destruct (String.eqb_spec id ""); [done|]. rewrite last_snoc. apply lookup_insert_eq.
    - rewrite app_nil_r, <- IH. destruct (String.eqb i ""); [done|]. by apply lookup_insert_ne. }
  rewrite H. split; [by intros [= <-]|by intros ->].
Qed.

(** ** The idle sweep *)

Definition dbIdleAfter (v : string) : Z :=
  let v := TrimSpace v in
  if String.eqb v "" then 0
  else let '(n, err) := ParseInt v in if err || (n <=? 0) then 0 else i64 (n * Second).

(** dbActivityProbe, of what the query printed ([None]: it did not run). *)
Definition dbActivityProbe (out : option string) : option bool :=
  match out with
  | None => None
  | Some out =>
      match GoStrings.split (Ascii.ascii_of_nat 124) (TrimSpace out) with
      | [c; w] =>
          let '(clients, e1) := ParseInt (TrimSpace c) in let '(walsenders, e2) := ParseInt (TrimSpace w) in
          if e1 || e2 then None else Some ((0 <? clients) || (0 <? walsenders))
      | _ => None
      end
  end.

Record dbIdleState := mkIdle { idleSince : option Z; seenBusy : bool }.
Record look := mkLook {
  l_volume : bool; l_status : string;     (* the volume's file, the row of the bulk read *)
  l_row : option (gmap string string);    (* the metadata of the row, read on its own; None: an error, or none *)
  l_probe : option string;
  l_now : Z;
  l_status2 : string; l_tunnels : Z;      (* read again before acting *)
  l_hibernate : bool; l_after : Z;        (* Hibernate's answer, and the clock then *)
}.
(** dbAlwaysOn *)
Definition l_always_on (l : look) : bool :=
  let v := lower_string (TrimSpace (default "" (default ∅ (l_row l) !! "db.always_on"))) in
  String.eqb v "true" || String.eqb v "1" || String.eqb v "yes".
Definition live (l : look) : bool := l_volume l && String.eqb (l_status l) "running".

(** What is done: Hibernate, with what it answered. *)
Definition runDBIdleSweep (idleAfter : Z) (st : option dbIdleState) (l : look) : option dbIdleState * list bool :=
  if negb (live l) then (None, [])
  else
    let st := default (mkIdle None false) st in
    if l_always_on l then (Some (mkIdle None (seenBusy st)), [])
    else match dbActivityProbe (l_probe l) with
    | None => (Some st, [])
    | Some true => (Some (mkIdle None true), [])
    | Some false =>
        if negb (seenBusy st) then (Some (mkIdle (Some (l_now l)) true), [])
        else match idleSince st with
        | None => (Some (mkIdle (Some (l_now l)) true), [])
        | Some t =>
            if l_now l - t <? idleAfter then (Some st, [])
            else if negb (String.eqb (l_status2 l) "running") then (Some (mkIdle None (seenBusy st)), [])
            else if 0 <? l_tunnels l then (Some (mkIdle None (seenBusy st)), [])
            else if l_hibernate l then (None, [true]) else (Some (mkIdle (Some (l_after l)) (seenBusy st)), [false])
        end
    end.

(** Nothing in the tick speaks for use: the database is live, not always on, and
    the probe did not see anybody. *)
Definition quiet (x : sight look) : Prop :=
  match x with
  | None => True
  | Some None => False
  | Some (Some l) => live l = true ∧ l_always_on l = false ∧ dbActivityProbe (l_probe l) ≠ Some true
  end.
Definition idle_seen (l : look) : Prop := live l = true ∧ l_always_on l = false ∧ dbActivityProbe (l_probe l) = Some false.
(** The clock of an idle database started at a tick that saw it idle, and nothing
    has spoken for use since. *)
Definition clock_ok (idleAfter : Z) (xs : list (sight look)) : Prop :=
  ∀ st t, run (runDBIdleSweep idleAfter) xs = Some st → idleSince st = Some t →
    ∃ xs1 l0 xs2, xs = xs1 ++ Some (Some l0) :: xs2 ∧ idle_seen l0 ∧ (t = l_now l0 ∨ t = l_after l0) ∧ Forall quiet xs2.
Lemma clock_starts xs l t : idle_seen l → (t = l_now l ∨ t = l_after l) →
  ∃ xs1 l0 xs2, xs ++ [Some (Some l)] = xs1 ++ Some (Some l0) :: xs2 ∧ idle_seen l0 ∧ (t = l_now l0 ∨ t = l_after l0) ∧ Forall quiet xs2.
Proof. intros H Ht. exists xs, l, []. done. Qed.
Lemma clock_runs xs x t : quiet x →
  (∃ xs1 l0 xs2, xs = xs1 ++ Some (Some l0) :: xs2 ∧ idle_seen l0 ∧ (t = l_now l0 ∨ t = l_after l0) ∧ Forall quiet xs2) →
  ∃ xs1 l0 xs2, xs ++ [x] = xs1 ++ Some (Some l0) :: xs2 ∧ idle_seen l0 ∧ (t = l_now l0 ∨ t = l_after l0) ∧ Forall quiet xs2.
Proof.
  intros Hx (xs1 & l0 & xs2 & -> & H1 & H2 & H3). exists xs1, l0, (xs2 ++ [x]). split_and!; [by rewrite <- app_assoc|done|done|].
  apply Forall_app. by split; [|constructor].
Qed.
Lemma clock_always_ok idleAfter xs : clock_ok idleAfter xs.
Proof.
  induction xs as [|x xs IH] using rev_ind; [done|]. intros st t. rewrite run_snoc.
  destruct x as [[l|]|]; simpl; [| done |].
  2: { intros H Ht. apply clock_runs; [done|by eapply IH]. }
  unfold runDBIdleSweep. destruct (live l) eqn:El; [|done]. cbn [negb].
  destruct (l_always_on l) eqn:Ea; [intros [= <-]; done|].
  assert (Hkeep : ∀ t, dbActivityProbe (l_probe l) ≠ Some true → idleSince (default (mkIdle None false) (run (runDBIdleSweep idleAfter) xs)) = Some t →
    ∃ xs1 l0 xs2, xs ++ [Some (Some l)] = xs1 ++ Some (Some l0) :: xs2 ∧ idle_seen l0 ∧ (t = l_now l0 ∨ t = l_after l0) ∧ Forall quiet xs2).
  { intros t' Hp Ht. destruct (run (runDBIdleSweep idleAfter) xs) as [st'|] eqn:Er; [|done]. apply clock_runs; [done|by apply (IH st')]. }
  destruct (dbActivityProbe (l_probe l)) as [[]|] eqn:Ep; [by intros [= <-]| |intros [= <-] Ht; by apply Hkeep].
  assert (Hs : idle_seen l) by done. destruct (seenBusy _); [|intros [= <-] [= <-]; by apply clock_starts; auto]. cbn [negb].
  destruct (idleSince _) as [t0|] eqn:Et; [|intros [= <-] [= <-]; by apply clock_starts; auto].
  destruct (_ <? idleAfter); [intros [= <-] Ht; apply Hkeep; [done|by rewrite <- Ht]|].
  destruct (negb _); [by intros [= <-]|]. destruct (0 <? l_tunnels l); [by intros [= <-]|].
  destruct (l_hibernate l); [done|]. intros [= <-] [= <-]. apply clock_starts; auto.
Qed.

(** C24. A database is put to sleep only if a probe has just found nobody, no tunnel
    is open, its row still says that it runs, and a probe at least the configured
    time ago had found nobody either, since when at every tick it was running here,
    not always on, and no probe found anybody. *)
Theorem suspends_only_the_idle idleAfter xs l ok :
  (∀ l, Some (Some l) ∈ xs → l_now l ≤ l_after l) →
  ok ∈ (runDBIdleSweep idleAfter (run (runDBIdleSweep idleAfter) xs) l).2 →
  idle_seen l ∧ l_status2 l = "running" ∧ l_tunnels l ≤ 0 ∧
  ∃ xs1 l0 xs2, xs = xs1 ++ Some (Some l0) :: xs2 ∧ idle_seen l0 ∧ Forall quiet xs2 ∧ l_now l0 + idleAfter ≤ l_now l.
Proof.
  intros Hclock. unfold runDBIdleSweep at 1. destruct (live l) eqn:El; [|by intros []%not_elem_of_nil]. cbn [negb].
  destruct (l_always_on l) eqn:Ea; [by intros []%not_elem_of_nil|].
  destruct (dbActivityProbe (l_probe l)) as [[]|] eqn:Ep; [by intros []%not_elem_of_nil| |by intros []%not_elem_of_nil].
  destruct (negb (seenBusy _)); [by intros []%not_elem_of_nil|].
  destruct (run (runDBIdleSweep idleAfter) xs) as [st|] eqn:Er; [|by intros []%not_elem_of_nil]. cbn [from_option id].
  destruct (idleSince st) as [t|] eqn:Et; [|by intros []%not_elem_of_nil].
  destruct (_ <? idleAfter) eqn:Ew; [by intros []%not_elem_of_nil|].
  destruct (String.eqb_spec (l_status2 l) "running") as [Es|]; [|by intros []%not_elem_of_nil]. cbn [negb].
  destruct (0 <? l_tunnels l) eqn:Ez; [by intros []%not_elem_of_nil|]. intros _.
  destruct (clock_always_ok idleAfter xs st t Er Et) as (xs1 & l0 & xs2 & -> & H1 & H2 & H3).
  split; [done|]. split; [done|]. split; [lia|]. exists xs1, l0, xs2. split_and!; try done.
  pose proof (Hclock l0 ltac:(apply elem_of_app; right; apply elem_of_cons; by left)). destruct H2 as [->| ->]; lia.
Qed.

(** ** The health monitor *)

Definition dbMonitorFailThreshold : Z := 2.
Definition dbMonitorMaxRestarts : nat := 3.
Definition dbMonitorRestartWindow : Z := 3600 * Second.

Inductive dbProbeResult := dbProbeOK | dbProbePGDown | dbProbeUnreachable.
(** dbProbe, of the guest's answer: no guest or transport error, or an exit code. *)
Definition dbProbe (exit : option Z) : dbProbeResult :=
  match exit with None => dbProbeUnreachable | Some 0 => dbProbeOK | Some _ => dbProbePGDown end.
(** dbRestart: restarted, and whether it could not be tried. *)
Definition dbRestart (exit : option Z) : bool * bool :=
  match exit with None => (false, true) | Some 0 => (true, false) | Some _ => (false, false) end.

Record mlook := mkMlook {
  m_volume : bool; m_status : string;
  m_probe : option Z;
  m_alive : bool;                         (* the driver, and its process *)
  m_status2 : string;
  m_now : Z;
  m_restart : option Z; m_probe2 : option Z;
  m_swap : option bool;                   (* SetStatusIf running → failed *)
}.
(** What the loop keeps of a database that it has seen healthy: the failures in a
    row and the restarts, the oldest first.  Nothing is kept of any other. *)
Record mon := mkMon { failures : Z; restarts : list Z }.
(** A restart: when, and whether it was tried; a CAS to "failed", and its answer. *)
Inductive action := Restart (t : Z) (tried : bool) | MarkFailed (swap : option bool).

Definition mlive (l : mlook) : bool := m_volume l && String.eqb (m_status l) "running".
Definition in_window (now : Z) (r : Z) : bool := now - r <? dbMonitorRestartWindow.
Definition runDBMonitor (st : option mon) (l : mlook) : option mon * list action :=
  if negb (mlive l) then (None, [])
  else match dbProbe (m_probe l), st with
  | dbProbeOK, _ => (Some (mkMon 0 (restarts (default (mkMon 0 []) st))), [])
  | dbProbeUnreachable, _ => (st, [])
  | dbProbePGDown, None => (None, [])
  | dbProbePGDown, Some m =>
      let n := failures m + 1 in
      if n <? dbMonitorFailThreshold then (Some (mkMon n (restarts m)), [])
      else if negb (m_alive l) then (Some (mkMon 0 (restarts m)), [])
      else if negb (String.eqb (m_status2 l) "running") then (Some (mkMon 0 (restarts m)), [])
      else
        let recent := filter (λ r, in_window (m_now l) r = true) (restarts m) in
        if (dbMonitorMaxRestarts <=? length recent)%nat then (Some (mkMon 0 recent), [MarkFailed (m_swap l)])
        else
          let '(restarted, transport) := dbRestart (m_restart l) in
          if transport then (Some (mkMon n recent), [Restart (m_now l) false])
          else if restarted && match dbProbe (m_probe2 l) with dbProbeOK => true | _ => false end
          then (Some (mkMon 0 (recent ++ [m_now l])), [Restart (m_now l) true])
          else (Some (mkMon 0 (recent ++ [m_now l])), [Restart (m_now l) true; MarkFailed (m_swap l)])
  end.

(** *** Evidence *)

Definition down (x : sight mlook) : bool :=
  match x with Some (Some l) => match dbProbe (m_probe l) with dbProbePGDown => true | _ => false end | _ => false end.
Definition healthy (x : sight mlook) : bool :=
  match x with Some (Some l) => match dbProbe (m_probe l) with dbProbeOK => true | _ => false end | _ => false end.
(** The database was here and running at every tick that could be read. *)
Definition here (x : sight mlook) : bool := match x with None => true | Some None => false | Some (Some l) => mlive l end.

(** Seen healthy, and here since; [down_since]: seen down, and not healthy since. *)
Definition healthy_before (xs : list (sight mlook)) : Prop :=
  ∃ xs1 x xs2, xs = xs1 ++ x :: xs2 ∧ healthy x = true ∧ here x = true ∧ forallb here xs2 = true.
Definition down_since (xs : list (sight mlook)) : Prop :=
  ∃ xs1 x xs2, xs = xs1 ++ x :: xs2 ∧ down x = true ∧ here x = true ∧ forallb (λ y, here y && negb (healthy y)) xs2 = true.
Lemma healthy_before_snoc xs x : here x = true → healthy_before xs → healthy_before (xs ++ [x]).
Proof.
  intros Hx (xs1 & y & xs2 & -> & H1 & H2 & H3). exists xs1, y, (xs2 ++ [x]). split_and!; [by rewrite <- app_assoc|done|done|].
  rewrite forallb_app, H3. simpl. by rewrite Hx.
Qed.
Lemma down_since_snoc xs x : here x = true → healthy x = false → down_since xs → down_since (xs ++ [x]).
Proof.
  intros Hx Hh (xs1 & y & xs2 & -> & H1 & H2 & H3). exists xs1, y, (xs2 ++ [x]). split_and!; [by rewrite <- app_assoc|done|done|].
  rewrite forallb_app, H3. simpl. by rewrite Hx, Hh.
Qed.
(** What the state says of the past. *)
Lemma mon_past xs m : run runDBMonitor xs = Some m → healthy_before xs ∧ 0 ≤ failures m ∧ (0 < failures m → down_since xs).
Proof.
  revert m. induction xs as [|x xs IH] using rev_ind; intros m; [done|]. rewrite run_snoc.
  destruct x as [[l|]|]; cbn [tick_one fst]; [|done|].
  2: { intros Hm. destruct (IH m Hm) as (H1 & H2 & H3). split; [by apply healthy_before_snoc|]. split; [done|].
       intros Hf. apply down_since_snoc; [done|done|by apply H3]. }
  unfold runDBMonitor at 1. destruct (mlive l) eqn:El; [|done]. cbn [negb]. destruct (dbProbe (m_probe l)) eqn:Ep.
  - intros [= <-]. split; [|split; [done|simpl; lia]]. exists xs, (Some (Some l)), []. split_and!; [done| |done|done]. simpl. by rewrite Ep.
  - destruct (run runDBMonitor xs) as [m0|] eqn:Er; [|done]. destruct (IH m0 eq_refl) as (H1 & H2 & _).
    assert (Hh : healthy_before (xs ++ [Some (Some l)])) by by apply healthy_before_snoc.
    assert (Hd : down_since (xs ++ [Some (Some l)])).
    { exists xs, (Some (Some l)), []. split_and!; [done| |done|done]. simpl. by rewrite Ep. }
    destruct (_ <? dbMonitorFailThreshold); [intros [= <-]; simpl; split_and!; [done|lia|done]|].
    destruct (negb (m_alive l)); [intros [= <-]; by split_and!|]. destruct (negb _); [intros [= <-]; by split_and!|].
    destruct (_ <=? _)%nat; [intros [= <-]; by split_and!|]. destruct (dbRestart (m_restart l)) as [[] []]; simpl;
      try (intros [= <-]; simpl; split_and!; [done|lia|done]). destruct (dbProbe (m_probe2 l)); intros [= <-]; simpl; split_and!; done.
  - intros Hm. destruct (IH m Hm) as (H1 & H2 & H3). split; [by apply healthy_before_snoc|]. split; [done|].
    intros Hf. apply down_since_snoc; [done| |by apply H3]. simpl. by rewrite Ep.
Qed.

(** C23. PostgreSQL is restarted, or a database marked failed, only after the monitor
    saw it healthy and then, with no healthy answer in between, down at least twice,
    now among them, while at every tick it was running here; its machine is alive
    and its row, read again, says that it runs.  It is marked only by
    compare-and-swap, when the budget of restarts is spent or a restart did not
    bring it back. *)
Theorem monitor_acts_on_evidence xs l a :
  a ∈ (runDBMonitor (run runDBMonitor xs) l).2 →
  healthy_before xs ∧ down_since xs ∧ down (Some (Some l)) = true ∧ mlive l = true ∧ m_alive l = true ∧ m_status2 l = "running" ∧
  match a with
  | Restart t _ => t = m_now l
  | MarkFailed s => s = m_swap l ∧
      ((∃ m, run runDBMonitor xs = Some m ∧ (dbMonitorMaxRestarts ≤ length (filter (λ r, in_window (m_now l) r = true) (restarts m)))%nat) ∨
       m_restart l ≠ None ∧ (m_restart l ≠ Some 0 ∨ dbProbe (m_probe2 l) ≠ dbProbeOK))
  end.
Proof.
  unfold runDBMonitor at 1. destruct (mlive l) eqn:El; [|by intros []%not_elem_of_nil]. cbn [negb].
  destruct (dbProbe (m_probe l)) eqn:Ep; [by intros []%not_elem_of_nil| |by intros []%not_elem_of_nil].
  destruct (run runDBMonitor xs) as [m|] eqn:Er; [|by intros []%not_elem_of_nil]. destruct (mon_past xs m Er) as (Hh & H0 & Hd).
  destruct (_ <? dbMonitorFailThreshold) eqn:Ef; [by intros []%not_elem_of_nil|]. unfold dbMonitorFailThreshold in Ef.
  destruct (m_alive l); [|by intros []%not_elem_of_nil]. cbn [negb].
  destruct (String.eqb_spec (m_status2 l) "running") as [Es|]; [|by intros []%not_elem_of_nil]. cbn [negb].
  intros Ha. split; [done|]. split; [by apply Hd; lia|]. split; [simpl; by rewrite Ep|]. split; [done|]. split; [done|]. split; [done|].
  destruct (_ <=? _)%nat eqn:Eb.
  { apply list_elem_of_singleton in Ha as ->. split; [done|]. left. exists m. split; [done|]. by apply Nat.leb_le. }
  destruct (m_restart l) as [x|] eqn:Ex; [|by apply list_elem_of_singleton in Ha as ->].
  assert (Hc : ∀ b : bool, a ∈ (if b then (Some (mkMon 0 []), [Restart (m_now l) true]) else (Some (mkMon 0 []), [Restart (m_now l) true; MarkFailed (m_swap l)])).2 →
    (b = false → Some x ≠ Some 0 ∨ dbProbe (m_probe2 l) ≠ dbProbeOK) →
    match a with Restart t _ => t = m_now l | MarkFailed s => s = m_swap l ∧
      ((∃ m0, Some m = Some m0 ∧ (dbMonitorMaxRestarts ≤ length (filter (λ r, in_window (m_now l) r = true) (restarts m0)))%nat) ∨
       Some x ≠ None ∧ (Some x ≠ Some 0 ∨ dbProbe (m_probe2 l) ≠ dbProbeOK)) end).
  { intros [] Hin Hb; simpl in Hin; [by apply list_elem_of_singleton in Hin as ->|].
    apply elem_of_cons in Hin as [->|Hin]; [done|]. apply list_elem_of_singleton in Hin as ->. split; [done|]. right. split; [done|]. by apply Hb. }
  apply (Hc ((dbRestart (Some x)).1 && match dbProbe (m_probe2 l) with dbProbeOK => true | _ => false end)).
  - destruct x; simpl in *; [by destruct (dbProbe (m_probe2 l))|done|done].
  - intros Hb. destruct x; [|by left|by left]. right. simpl in Hb. by destruct (dbProbe (m_probe2 l)).
Qed.

(** *** The budget *)

Definition tried (a : action) : option Z := match a with Restart t true => Some t | _ => None end.
(** The restarts that reached the guest, in order. *)
Definition restarted (xs : list (sight mlook)) : list Z := omap tried (history runDBMonitor xs).2.
Definition clock_of (x : sight mlook) : option Z := match x with Some (Some l) => Some (m_now l) | _ => None end.
(** The clock of a tick is not before that of an earlier one. *)
Definition ordered (xs : list (sight mlook)) : Prop :=
  ∀ xs1 x xs2 t y t', xs = xs1 ++ x :: xs2 → clock_of x = Some t → y ∈ xs2 → clock_of y = Some t' → t ≤ t'.
Lemma ordered_snoc xs x : ordered (xs ++ [x]) → ordered xs.
Proof. intros H xs1 y xs2 t z t' -> Hy Hz. eapply (H xs1 y (xs2 ++ [x])); [by rewrite <- app_assoc|done|]. set_solver. Qed.
Lemma ordered_last xs x y t t' : ordered (xs ++ [x]) → y ∈ xs → clock_of y = Some t → clock_of x = Some t' → t ≤ t'.
Proof.
  intros H Hy Ht Ht'. apply list_elem_of_split in Hy as (xs1 & xs2 & ->).
  eapply (H xs1 y (xs2 ++ [x])); [by rewrite <- app_assoc|done| |done]. set_solver.
Qed.
Definition within (t r : Z) : bool := (t - dbMonitorRestartWindow <? r) && (r <=? t).
Definition count_within (t : Z) (R : list Z) : nat := length (filter (λ r, within t r = true) R).

Record budget_ok (xs : list (sight mlook)) : Prop := mkBudget {
  restarts_seen : ∀ r, r ∈ restarted xs → ∃ x, x ∈ xs ∧ clock_of x = Some r;
  restarts_kept : match run runDBMonitor xs with
    | None => restarted xs = []
    | Some m => ∃ t0, restarts m = filter (λ r, in_window t0 r = true) (restarted xs) ∧
                      (restarted xs = [] ∨ ∃ x, x ∈ xs ∧ clock_of x = Some t0) end;
  restarts_few : ∀ t, (count_within t (restarted xs) ≤ dbMonitorMaxRestarts)%nat;
}.
Lemma restarted_snoc xs x : restarted (xs ++ [x]) = restarted xs ++ omap tried (tick_one runDBMonitor (run runDBMonitor xs) x).2.
Proof. unfold restarted. rewrite history_snoc, history_run. apply omap_app. Qed.
Lemma filter_window_later t0 t1 (R : list Z) : t0 ≤ t1 → filter (λ r, in_window t1 r = true) (filter (λ r, in_window t0 r = true) R) = filter (λ r, in_window t1 r = true) R.
Proof.
  intros Ht. induction R as [|r R IH]; [done|]. rewrite (filter_cons _ r R). case_decide as H0.
  - rewrite !filter_cons. by rewrite IH.
  - rewrite filter_cons. rewrite IH. case_decide as H1; [|done]. destruct H0. unfold in_window in *. lia.
Qed.
Lemma count_within_app t R r : count_within t (R ++ [r]) = (count_within t R + (if within t r then 1 else 0))%nat.
Proof. unfold count_within. rewrite filter_app, length_app. f_equal. rewrite filter_cons, filter_nil. destruct (within t r); by case_decide. Qed.
Lemma count_within_window now t R : now ≤ t → (∀ r, r ∈ R → r ≤ now) → (count_within t R ≤ length (filter (λ r, in_window now r = true) R))%nat.
Proof.
  intros Ht. unfold count_within. induction R as [|r R IH]; intros HR; [done|]. rewrite !filter_cons.
  assert (IH' := IH (λ x Hx, HR x (list_elem_of_further _ _ _ Hx))). case_decide as H1; case_decide as H2; simpl; try lia.
  destruct H2. unfold within, in_window in *. lia.
Qed.

Lemma restarted_same xs x : omap tried (tick_one runDBMonitor (run runDBMonitor xs) x).2 = [] → restarted (xs ++ [x]) = restarted xs.
Proof. intros H. by rewrite restarted_snoc, H, app_nil_r. Qed.
Lemma restarted_old xs l r : ordered (xs ++ [Some (Some l)]) → budget_ok xs → r ∈ restarted xs → r ≤ m_now l.
Proof. intros Ho [H _ _] Hr. destruct (H r Hr) as (x & Hx & Hc). by eapply (ordered_last xs (Some (Some l)) x). Qed.
(** The restarts that are kept after the pruning at [l] are those of the last hour. *)
Lemma restarts_pruned xs l m : ordered (xs ++ [Some (Some l)]) → budget_ok xs → run runDBMonitor xs = Some m →
  filter (λ r, in_window (m_now l) r = true) (restarts m) = filter (λ r, in_window (m_now l) r = true) (restarted xs).
Proof.
  intros Ho [_ H _] Er. rewrite Er in H. destruct H as (t0 & -> & [->|(x & Hx & Hc)]); [done|].
  apply filter_window_later. by eapply (ordered_last xs (Some (Some l)) x).
Qed.
(** A tick without a restart, with the restarts of the state as they were or pruned. *)
Lemma budget_same xs x st :
  budget_ok xs → omap tried (tick_one runDBMonitor (run runDBMonitor xs) x).2 = [] →
  (tick_one runDBMonitor (run runDBMonitor xs) x).1 = st →
  match st with
  | None => restarted xs = []
  | Some m => ∃ t0, restarts m = filter (λ r, in_window t0 r = true) (restarted xs) ∧
      (restarted xs = [] ∨ ∃ y, y ∈ xs ++ [x] ∧ clock_of y = Some t0)
  end → budget_ok (xs ++ [x]).
Proof.
  intros [H1 _ H3] Hn <- Hst. pose proof (restarted_same xs x Hn) as Hr. split; rewrite ?Hr, ?(run_snoc runDBMonitor).
  - intros r Hin. destruct (H1 r Hin) as (y & Hy & Hc). exists y. set_solver.
  - destruct (tick_one _ _ _).1 as [m|]; [|done]. destruct Hst as (t0 & Hm & Ht). exists t0. by rewrite ?Hr.
  - done.
Qed.
Lemma budget_more xs l m n : ordered (xs ++ [Some (Some l)]) → budget_ok xs → run runDBMonitor xs = Some m →
  (tick_one runDBMonitor (run runDBMonitor xs) (Some (Some l))).1 =
    Some (mkMon n (filter (λ r, in_window (m_now l) r = true) (restarts m) ++ [m_now l])) →
  omap tried (tick_one runDBMonitor (run runDBMonitor xs) (Some (Some l))).2 = [m_now l] →
  (length (filter (λ r, in_window (m_now l) r = true) (restarts m)) < dbMonitorMaxRestarts)%nat →
  budget_ok (xs ++ [Some (Some l)]).
Proof.
  intros Ho B Er Hst Hacts Hfew. pose proof (restarts_pruned xs l m Ho B Er) as Hp.
  pose proof (restarts_seen _ B) as H1. pose proof (restarts_few _ B) as H3.
  split; rewrite ?run_snoc, restarted_snoc, Hacts.
  - intros r [Hin|Hin%list_elem_of_singleton]%elem_of_app; [destruct (H1 r Hin) as (y & Hy & Hc); exists y; set_solver|]. subst r.
    exists (Some (Some l)). set_solver.
  - rewrite (run_snoc runDBMonitor), Hst. cbn [restarts]. exists (m_now l). rewrite filter_app, Hp. split.
    + f_equal. rewrite filter_cons, filter_nil. unfold in_window, dbMonitorRestartWindow. case_decide as H; [done|]. destruct H. unfold Second. lia.
    + right. exists (Some (Some l)). set_solver.
  - intros t. rewrite count_within_app. destruct (within t (m_now l)) eqn:Ew; [|specialize (H3 t); lia].
    assert (m_now l ≤ t) by (unfold within in Ew; lia).
    pose proof (count_within_window (m_now l) t (restarted xs) ltac:(done) (λ r, restarted_old xs l r Ho B)) as Hc. rewrite <- Hp in Hc. lia.
Qed.
Lemma budget_kept xs : ordered xs → forallb here xs = true → budget_ok xs.
Proof.
  induction xs as [|x xs IH] using rev_ind; intros Ho Hh.
  { split; [by intros r []%not_elem_of_nil|done|]. intros t. unfold count_within. simpl. lia. }
  rewrite forallb_app in Hh. apply andb_prop in Hh as [Hh Hx]. simpl in Hx. rewrite andb_true_r in Hx.
  assert (B : budget_ok xs) by (apply IH; [by eapply ordered_snoc|done]). pose proof (restarts_kept _ B) as Hk.
  destruct x as [[l|]|]; [|done|].
  2: { eapply budget_same; [done|done|done|]. cbn [tick_one fst]. destruct (run runDBMonitor xs) as [m|]; [|done].
       destruct Hk as (t0 & Hm & Ht). exists t0. split; [done|]. destruct Ht as [Ht|(y & Hy & Hc)]; [by left|]. right. exists y. set_solver. }
  destruct (run runDBMonitor xs) as [m|] eqn:Er.
  - assert (Hsame : ∀ m', (restarts m' = restarts m ∨ restarts m' = filter (λ r, in_window (m_now l) r = true) (restarts m)) →
      ∃ t0, restarts m' = filter (λ r, in_window t0 r = true) (restarted xs) ∧ (restarted xs = [] ∨ ∃ y, y ∈ xs ++ [Some (Some l)] ∧ clock_of y = Some t0)).
    { intros m' [->| ->].
      - destruct Hk as (t0 & Hm & Ht). exists t0. split; [done|]. destruct Ht as [Ht|(y & Hy & Hc)]; [by left|]. right. exists y. set_solver.
      - exists (m_now l). rewrite (restarts_pruned xs l m Ho B Er). split; [done|]. right. exists (Some (Some l)). set_solver. }
    assert (Hno : ∀ m' acts, tick_one runDBMonitor (run runDBMonitor xs) (Some (Some l)) = (Some m', acts) → omap tried acts = [] →
      (restarts m' = restarts m ∨ restarts m' = filter (λ r, in_window (m_now l) r = true) (restarts m)) → budget_ok (xs ++ [Some (Some l)])).
    { intros m' acts Ht Ha Hr. eapply budget_same; [done|by rewrite Ht|by rewrite Ht|]. by apply Hsame. }
    rewrite Er in Hno. pose proof (budget_more xs l m 0 Ho B Er) as Hmore. rewrite Er in Hmore. cbn [tick_one] in Hno, Hmore. unfold runDBMonitor in Hno, Hmore.
    simpl in Hx. rewrite Hx in Hno, Hmore. cbn [negb] in Hno, Hmore.
    destruct (dbProbe (m_probe l)); [eapply Hno; [done|done|by left]| |eapply Hno; [done|done|by left]].
    destruct (_ <? dbMonitorFailThreshold); [eapply Hno; [done|done|by left]|]. destruct (negb (m_alive l)); [eapply Hno; [done|done|by left]|].
    destruct (negb _); [eapply Hno; [done|done|by left]|]. destruct (_ <=? _)%nat eqn:El; [eapply Hno; [done|done|by right]|].
    apply Nat.leb_gt in El. destruct (dbRestart (m_restart l)) as [rs []]; [eapply Hno; [done|done|by right]|].
    destruct (rs && _); by apply Hmore.
  - eapply budget_same; [done| |done|].
    + rewrite Er. cbn [tick_one]. unfold runDBMonitor. simpl in Hx. rewrite Hx. cbn [negb]. by destruct (dbProbe (m_probe l)).
    + rewrite Er. cbn [tick_one]. unfold runDBMonitor. simpl in Hx. rewrite Hx. cbn [negb]. destruct (dbProbe (m_probe l)); cbn [fst]; [|done|done].
      exists 0. rewrite Hk. split; [done|by left].
Qed.

(** While a database stays running here, as far as the statuses could be read,
    at most three restarts of PostgreSQL that answered, well or not, fall in any
    hour, whatever the probes and the restarts answer. *)
Theorem restarts_within_budget xs t :
  ordered xs → forallb here xs = true → (count_within t (restarted xs) ≤ dbMonitorMaxRestarts)%nat.
Proof. intros Ho Hh. exact (restarts_few _ (budget_kept xs Ho Hh) t). Qed.

(** ** Rotating credentials *)

(** What the guest holds: the password of the role, the files under
    /etc/pandastack, the verifier of pgbouncer, the token and the password that the
    running broker has loaded, ready.json. *)
Record guest := mkGuest {
  db_pw : string; pw_file : string; userlist : string; token_file : string; env_pw : string;
  broker : option (string * string);
  ready : string * string;
}.
Inductive step := AlterUser | PersistPassword | Userlist | PersistToken | BrokerEnv | BrokerRestart | ReadyJson | VerifyPostgres | VerifyBroker.
Definition steps : list step :=
  [AlterUser; PersistPassword; Userlist; PersistToken; BrokerEnv; BrokerRestart; ReadyJson; VerifyPostgres; VerifyBroker].

(** What runs after the restart of the broker, whose command ends well in each case:
    the new one; the old one, that did not leave the port in time; none. *)
Inductive comes := NewUp | OldStays | NoneUp.
(** An attempt: whether it ran to exit status 0, whether what it writes was written
    (a command may fail after it), and which broker runs if it restarts it. *)
Record attempt := mkAttempt { a_ok : bool; a_applied : bool; a_up : comes }.

Section rotation.
Context (password token : string).
Definition effect (st : step) (up : comes) (g : guest) : guest :=
  match st with
  | AlterUser => mkGuest password (pw_file g) (userlist g) (token_file g) (env_pw g) (broker g) (ready g)
  | PersistPassword => mkGuest (db_pw g) password (userlist g) (token_file g) (env_pw g) (broker g) (ready g)
  | Userlist => mkGuest (db_pw g) (pw_file g) (db_pw g) (token_file g) (env_pw g) (broker g) (ready g)
  | PersistToken => mkGuest (db_pw g) (pw_file g) (userlist g) token (env_pw g) (broker g) (ready g)
  | BrokerEnv => mkGuest (db_pw g) (pw_file g) (userlist g) (token_file g) password (broker g) (ready g)
  | BrokerRestart =>
      mkGuest (db_pw g) (pw_file g) (userlist g) (token_file g) (env_pw g) 
        match up with NewUp => Some (token_file g, env_pw g) | OldStays => broker g | NoneUp => None end (ready g)
  | ReadyJson => mkGuest (db_pw g) (pw_file g) (userlist g) (token_file g) (env_pw g) (broker g) (password, token)
  | VerifyPostgres | VerifyBroker => g
  end.
(** What a verification sees: PostgreSQL takes the password, the broker the token
    and PostgreSQL the broker's password. *)
Definition passes (st : step) (g : guest) : bool :=
  match st with
  | VerifyPostgres => String.eqb (db_pw g) password
  | VerifyBroker => match broker g with Some (t, p) => String.eqb t token && String.eqb p (db_pw g) | None => false end
  | _ => true
  end.
Definition exec (st : step) (a : attempt) (g : guest) : guest * bool :=
  let g := if a_ok a || a_applied a then effect st (a_up a) g else g in (g, a_ok a && passes st g).
(** Up to three attempts of a step. *)
Fixpoint attempts (st : step) (l : list attempt) (g : guest) : guest * bool :=
  match l with
  | [] => (g, false)
  | a :: l => let '(g, ok) := exec st a g in if ok then (g, true) else attempts st l g
  end.
Fixpoint run_steps (sts : list step) (answers : list (list attempt)) (g : guest) : guest * bool :=
  match sts, answers with
  | [], _ => (g, true)
  | st :: sts, l :: answers => let '(g, ok) := attempts st (take 3 l) g in if ok then run_steps sts answers g else (g, false)
  | _ :: _, [] => (g, false)
  end.
End rotation.

Inductive rotate_err := InvalidId | NotRunning | NotAlive | NoToken | NoGuest | StepFailed.
(** RotateDBCredentials; [status]: [None] is an error of the store; [tokens]: the two
    generated, if the randomness is there. *)
Definition RotateDBCredentials (is_uuid : bool) (status : option string) (alive : bool) (tokens : option (string * string)) (reachable : bool)
    (answers : list (list attempt)) (g : guest) : guest * res rotate_err () :=
  if negb is_uuid then (g, Err InvalidId)
  else if negb (bool_decide (status = Some "running")) then (g, Err NotRunning)
  else if negb alive then (g, Err NotAlive)
  else match tokens with
  | None => (g, Err NoToken)
  | Some (password, raw) =>
      if negb reachable then (g, Err NoGuest)
      else let '(g, ok) := run_steps password ("pds_pg_" +:+ raw) steps answers g in (g, if ok then Ok () else Err StepFailed)
  end.

(** Everything in the guest is of one pair. *)
Definition agrees (password token : string) (g : guest) : Prop :=
  db_pw g = password ∧ pw_file g = password ∧ userlist g = password ∧ token_file g = token ∧ env_pw g = password ∧
  broker g = Some (token, password) ∧ ready g = (password, token).

Section installed.
Context (password token : string).
Lemma attempts_ok (I J : guest → Prop) st l g g' :
  (∀ up g, I g → I (effect password token st up g)) → (∀ up g, I g → passes password token st (effect password token st up g) = true → J (effect password token st up g)) →
  I g → attempts password token st l g = (g', true) → I g' ∧ J g'.
Proof.
  intros HI HJ. revert g. induction l as [|a l IH]; intros g Hg; [done|]. simpl. unfold exec.
  destruct (a_ok a && passes _ _ _ _) eqn:E; [|apply IH; destruct (a_ok a || a_applied a); auto].
  apply andb_prop in E as [Ea Ep]. rewrite Ea in *. simpl in *. intros [= <-]. split; [by apply HI|]. by apply HJ.
Qed.
Lemma run_steps_cons (I J : guest → Prop) st sts answers g g' :
  (∀ up g, I g → I (effect password token st up g)) → (∀ up g, I g → passes password token st (effect password token st up g) = true → J (effect password token st up g)) →
  I g → run_steps password token (st :: sts) answers g = (g', true) → ∃ g1 rest, I g1 ∧ J g1 ∧ run_steps password token sts rest g1 = (g', true).
Proof.
  intros HI HJ Hg. destruct answers as [|l answers]; [done|]. simpl. destruct (attempts _ _ st (take 3 l) g) as [g1 []] eqn:E; [|done].
  intros H. destruct (attempts_ok I J st _ _ _ HI HJ Hg E) as [H1 H2]. by exists g1, answers.
Qed.
(** What holds after the steps up to each. *)
Definition after (n : nat) (g : guest) : Prop :=
  (1 ≤ n → db_pw g = password)%nat ∧ (2 ≤ n → pw_file g = password)%nat ∧ (3 ≤ n → userlist g = password)%nat ∧
  (4 ≤ n → token_file g = token)%nat ∧ (5 ≤ n → env_pw g = password)%nat ∧ (7 ≤ n → ready g = (password, token))%nat ∧
  (9 ≤ n → broker g = Some (token, password))%nat.
Lemma after_next n st sts answers g g' :
  steps !! n = Some st → after n g → run_steps password token (st :: sts) answers g = (g', true) →
  ∃ g1 rest, after (S n) g1 ∧ run_steps password token sts rest g1 = (g', true).
Proof.
  intros Hn Hg H. destruct (run_steps_cons (after n) (after (S n)) st sts answers g g') as (g1 & rest & _ & Hj & Hr); [| |done|done|by exists g1, rest].
  - intros up g0 (H1 & H2 & H3 & H4 & H5 & H6 & H7).
    destruct n as [|[|[|[|[|[|[|[|[|n]]]]]]]]]; [..|done]; injection Hn as <-; unfold after; simpl; repeat split; intros; solve [lia|auto].
  - intros up g0 (H1 & H2 & H3 & H4 & H5 & H6 & H7) Hp.
    destruct n as [|[|[|[|[|[|[|[|[|n]]]]]]]]]; [..|done]; injection Hn as <-; unfold after; simpl in *; repeat split; intros;
      try solve [lia|auto with lia].
    destruct (broker g0) as [[t p]|]; [|done]. apply andb_prop in Hp as [->%String.eqb_eq ->%String.eqb_eq]. by rewrite H1 by lia.
Qed.
Lemma steps_install answers g g' : run_steps password token steps answers g = (g', true) → agrees password token g'.
Proof.
  unfold steps. intros H. assert (H0 : after 0 g) by (repeat split; intros; lia).
  assert (Hall : ∀ sts n answers g, drop n steps = sts → after n g → run_steps password token sts answers g = (g', true) → after (n + length sts) g').
  { clear. induction sts as [|st sts IH]; intros n answers g Hd Ha H; [injection H as <-; by rewrite Nat.add_0_r|].
    destruct (after_next n st sts answers g g') as (g1 & rest & Ha1 & H1); [by rewrite <- (Nat.add_0_r n), <- lookup_drop, Hd|done|done|].
    simpl. rewrite Nat.add_succ_r. apply (IH (S n) rest g1); [|done|done]. by rewrite <- Nat.add_1_r, <- drop_drop, Hd. }
  destruct (Hall steps 0%nat answers g eq_refl H0 H) as (H1 & H2 & H3 & H4 & H5 & H6 & H7).
  unfold agrees. split_and!; [apply H1|apply H2|apply H3|apply H4|apply H5|apply H7|apply H6]; simpl; lia.
Qed.
End installed.

(** A rotation that reports success has put one new pair everywhere in the guest,
    whatever was there before, half of an earlier rotation for example. *)
Theorem rotation_installs_one_pair is_uuid status alive tokens reachable answers g g' :
  RotateDBCredentials is_uuid status alive tokens reachable answers g = (g', Ok ()) →
  ∃ password raw, tokens = Some (password, raw) ∧ status = Some "running" ∧ agrees password ("pds_pg_" +:+ raw) g'.
Proof.
  unfold RotateDBCredentials. destruct is_uuid; [|done]. cbn [negb]. destruct (bool_decide (status = Some "running")) eqn:Es; [|done].
  apply bool_decide_eq_true in Es. cbn [negb]. destruct alive; [|done]. cbn [negb]. destruct tokens as [[password raw]|]; [|done].
  destruct reachable; [|done]. cbn [negb]. destruct (run_steps _ _ steps answers g) as [g1 []] eqn:E; [|done].
  intros [= <-]. exists password, raw. split; [done|]. split; [done|]. by eapply steps_install.
Qed.

(** ** Examples *)

Definition w_row : option (gmap string string) := Some {["db.always_on" := " No"]}.
Definition w_look (out : option string) (now : Z) : sight look :=
  Some (Some (mkLook true "running" w_row out now "running" 0 true now)).
Definition w_ticks : list (sight look) := [w_look (Some "2|0") 0; w_look (Some "0|0") 30; w_look None 60; None; w_look (Some "0|0") 90].
Definition w_now : look := mkLook true "running" w_row (Some " 0|0 ") 120 "running" 0 true 120.
Lemma suspends_only_the_idle_witness :
  true ∈ (runDBIdleSweep 90 (run (runDBIdleSweep 90) w_ticks) w_now).2 ∧
  ∃ xs1 l0 xs2, w_ticks = xs1 ++ Some (Some l0) :: xs2 ∧ idle_seen l0 ∧ Forall quiet xs2 ∧ l_now l0 + 90 ≤ 120.
Proof.
  assert (H : true ∈ (runDBIdleSweep 90 (run (runDBIdleSweep 90) w_ticks) w_now).2) by (vm_compute; left).
  split; [exact H|].
  assert (Hc : ∀ l, Some (Some l) ∈ w_ticks → l_now l ≤ l_after l).
  { intros l Hl. repeat (apply elem_of_cons in Hl as [Hl|Hl]; [first [discriminate Hl | injection Hl as ->; vm_compute; discriminate]|]).
  by apply not_elem_of_nil in Hl. }
  destruct (suspends_only_the_idle 90 w_ticks w_now true Hc H) as (_ & _ & _ & Hx). exact Hx.
Defined.

(** A database that was never used since the agent watches it is put to sleep too:
    its clock starts at the first look. *)
Lemma never_used_is_suspended :
  history (runDBIdleSweep 60) [w_look (Some "0|0") 0; w_look (Some "0|0") 60] = (None, [true]).
Proof. vm_compute. reflexivity. Qed.
(** The product of the configured seconds wraps: almost six hundred years are a
    third of a second. *)
Lemma idle_window_wraps : dbIdleAfter "18446744074" = 290448384 ∧ 290448384 < Second.
Proof. split; vm_compute; reflexivity. Qed.

Definition w_mlook (probe restart probe2 : option Z) (now : Z) : mlook := mkMlook true "running" probe true "running" now restart probe2 (Some true).
Definition w_down : list (sight mlook) := Some ∘ Some <$> [w_mlook (Some 0) None None 0; w_mlook (Some 2) None None 30].
Lemma monitor_acts_on_evidence_witness :
  MarkFailed (Some true) ∈ (runDBMonitor (run runDBMonitor w_down) (w_mlook (Some 2) (Some 1) None 60)).2 ∧ healthy_before w_down ∧ down_since w_down.
Proof.
  assert (H : MarkFailed (Some true) ∈ (runDBMonitor (run runDBMonitor w_down) (w_mlook (Some 2) (Some 1) None 60)).2) by (vm_compute; right; left).
  split; [exact H|]. destruct (monitor_acts_on_evidence _ _ _ H) as (H1 & H2 & _). split; [exact H1|exact H2].
Defined.

(** Three restarts that do not last, and a fourth fall of PostgreSQL. *)
Definition w_flap : list (sight mlook) :=
  Some ∘ Some <$> mjoin ((λ t, [w_mlook (Some 0) None None t; w_mlook (Some 2) None None (t + 30); w_mlook (Some 2) (Some 0) (Some 0) (t + 60)]) <$> [0; 90; 180; 270]).
Lemma w_flap_acts : (history runDBMonitor w_flap).2 = [Restart 60 true; Restart 150 true; Restart 240 true; MarkFailed (Some true)].
Proof. vm_compute. reflexivity. Qed.
Lemma w_flap_ordered : ordered w_flap.
Proof.
  assert (H : ∀ (l : list (sight mlook)), StronglySorted Z.le (omap clock_of l) → ordered l).
  { intros l Hl xs1 x xs2 t y t' -> Hx Hy Ht. rewrite omap_app in Hl. simpl in Hl. rewrite Hx in Hl.
    apply StronglySorted_app_1_r in Hl. inversion Hl as [|? ? _ Hall]; subst. rewrite Forall_forall in Hall. apply Hall.
    apply list_elem_of_omap. by exists y. }
  apply H. cbv [w_flap omap list_omap]. simpl. repeat constructor; vm_compute; discriminate.
Qed.
Lemma restarts_within_budget_witness : (count_within 270 (restarted w_flap) ≤ dbMonitorMaxRestarts)%nat.
Proof. apply (restarts_within_budget w_flap 270 w_flap_ordered). vm_compute. reflexivity. Defined.

Definition w_up : sight mlook := Some (Some (w_mlook (Some 0) None None 0)).
Definition w_lost : sight mlook := Some (Some (w_mlook (Some 2) None None 30)).
(** A restart whose answer is lost is not counted, though its command may have run:
    for as long as the answers are lost the monitor restarts at every tick, and
    never marks the database. *)
Lemma lost_answers_are_free n :
  history runDBMonitor (w_up :: replicate (S n) w_lost) =
    (Some (mkMon (Z.of_nat (S n)) []), replicate n (Restart 30 false)).
Proof.
  induction n as [|n IH]; [vm_compute; reflexivity|]. change (replicate (S (S n)) ?x) with (x :: replicate (S n) x). rewrite replicate_cons_app, app_comm_cons, history_snoc, IH.
  unfold w_lost.
  cbn [fst snd tick_one]. unfold runDBMonitor. cbn -[Z.of_nat Z.add Z.ltb replicate].
  replace (Z.of_nat (S n) + 1 <? dbMonitorFailThreshold) with false by (symmetry; apply Z.ltb_ge; unfold dbMonitorFailThreshold; lia). cbn -[Z.of_nat Z.add replicate].
  f_equal; [by replace (Z.of_nat (S n) + 1) with (Z.of_nat (S (S n))) by lia|]. by rewrite <- replicate_cons_app.
Qed.

(** Two rotations of two replicas, the second inside the first after its first
    step: the second has succeeded, and PostgreSQL takes its password, but in the
    end ready.json has the password of the first, which nothing takes. *)
Definition run_all (password token : string) (sts : list step) (g : guest) : guest := foldl (λ g st, effect password token st NewUp g) g sts.
Lemma overlapping_rotations g :
  let g1 := run_all "pA" "tA" [AlterUser] g in
  let g2 := run_all "pB" "tB" steps g1 in
  let g3 := run_all "pA" "tA" (drop 1 steps) g2 in
  agrees "pB" "tB" g2 ∧ db_pw g3 = "pB" ∧ ready g3 = ("pA", "tA") ∧ passes "pA" "tA" VerifyPostgres g3 = false.
Proof. repeat split. Qed.

Definition w_guest : guest := mkGuest "old" "old" "old" "tok" "old" (Some ("tok", "old")) ("old", "tok").
Definition w_ok : attempt := mkAttempt true true NewUp.
(** The first step went through on its third attempt; in the second run the broker
    did not come up, and ready.json was rewritten before it was noticed. *)
Lemma rotation_installs_one_pair_witness :
  agrees "p" "pds_pg_t" (RotateDBCredentials true (Some "running") true (Some ("p", "t")) true
    ([mkAttempt false false NewUp; mkAttempt false true NewUp; w_ok] :: replicate 8 [w_ok]) w_guest).1.
Proof.
  destruct (rotation_installs_one_pair true (Some "running") true (Some ("p", "t")) true
    ([mkAttempt false false NewUp; mkAttempt false true NewUp; w_ok] :: replicate 8 [w_ok]) w_guest _ eq_refl) as (p & t & [= <- <-] & _ & H).
  exact H.
Defined.
Lemma rotation_half_done :
  let '(g, r) := RotateDBCredentials true (Some "running") true (Some ("p", "t")) true
    (replicate 5 [w_ok] ++ [[mkAttempt true true NoneUp]] ++ replicate 3 [w_ok; w_ok; w_ok]) w_guest in
  r = Err StepFailed ∧ broker g = None ∧ ready g = ("p", "pds_pg_t").
Proof. vm_compute. repeat split. Qed.
