(* ===== verification/Clone.v ===== *)
(** Copies of root disks: agent/internal/sandbox/clone.go.  cloneFile tries a reflink,
    then a copy of the allocated regions that keeps the holes (sparseCopy, by
    copy_file_range and, where that gives up, through a buffer), then a plain copy.
    Each call takes the next of a list of answers; a list that has run out answers
    with success. *)

From S2P Require Import Prelude Bytes.

Open Scope nat_scope.

(** How a call ends.  A call that moves bytes may move some ([Part]): for
    copy_file_range that is a success, for ReadAt and WriteAt an error after so many
    bytes; for the others [Part] is a success too. *)
Inductive ans := Full | Part (n : nat) | Fails.
Definition answer (a : list ans) : ans * list ans := match a with [] => (Full, []) | x :: a => (x, a) end.
Definition failed (x : ans) : bool := match x with Fails => true | _ => false end.

(** pwrite: what lies between the end of the file and the offset becomes zeros. *)
Definition pwrite (off : nat) (bs dst : list byte) : list byte := write_at off bs (dst ++ replicate (off - length dst) x00).
Definition Truncate (n : nat) (dst : list byte) : list byte := take n dst ++ replicate (n - length dst) x00.

Section clone.
Context (src : list byte) (data : nat → bool).

(** lseek with SEEK_DATA ([None]: ENXIO) and SEEK_HOLE, which knows a hole at the end. *)
Definition seek_data (off : nat) : option nat := snd <$> list_find (λ i, data i = true) (seq off (length src - off)).
Definition seek_hole (off : nat) : nat :=
  default (length src) (snd <$> list_find (λ i, data i = false) (seq off (length src - off))).

(** The bytes, and the error: [Some true] is io.EOF, for a read that ends short at the
    end of the file. *)
Definition ReadAt (n off : nat) (x : ans) : list byte * option bool :=
  match x with
  | Full => let bs := slice off n src in (bs, if length bs <? n then Some true else None)
  | Part k => (slice off (n `min` k) src, Some false)
  | Fails => ([], Some false)
  end.
Definition WriteAt (bs : list byte) (off : nat) (x : ans) (dst : list byte) : list byte * bool :=
  match x with
  | Full => (pwrite off bs dst, true)
  | Part k => (pwrite off (take k bs) dst, false)
  | Fails => (dst, false)
  end.

Definition region_buf : nat := Z.to_nat (2 ^ 20).
(** What a loop ends with: whether it went through, the file and the answers left;
    [None] for a lack of fuel. *)
Definition outcome : Type := option (bool * list byte * list ans).

(** The copy of the rest of a region through the buffer. *)
Fixpoint userspace (fuel pos remaining : nat) (dst : list byte) (a : list ans) : outcome :=
  match fuel with
  | O => None
  | S fuel =>
      if remaining =? 0 then Some (true, dst, a)
      else
        let '(x, a) := answer a in
        let '(bs, rerr) := ReadAt (remaining `min` region_buf) pos x in
        let nr := length bs in
        let '(dst, ok, a) :=
          if 0 <? nr then let '(y, a) := answer a in (WriteAt bs pos y dst, a) else (dst, true, a) in
        if negb ok then Some (false, dst, a)
        else match rerr with
        | Some true => Some (true, dst, a)
        | Some false => Some (false, dst, a)
        | None => userspace fuel (pos + nr) (remaining - nr) dst a
        end
  end.

(** The copy of one region by copy_file_range. *)
Fixpoint region (fuel pos len : nat) (dst : list byte) (a : list ans) : outcome :=
  match fuel with
  | O => None
  | S fuel =>
      if len =? 0 then Some (true, dst, a)
      else
        let '(x, a) := answer a in
        let n := match x with Full => len | Part k => len `min` k | Fails => 0 end in
        if n =? 0 then userspace (S len) pos len dst a
        else region fuel (pos + n) (len - n) (pwrite pos (slice pos n src) dst) a
  end.

Fixpoint regions (fuel offset : nat) (dst : list byte) (a : list ans) : outcome :=
  match fuel with
  | O => None
  | S fuel =>
      if length src <=? offset then Some (true, dst, a)
      else
        let '(x, a) := answer a in
        if failed x then Some (false, dst, a)
        else match seek_data offset with
        | None => Some (true, dst, a)
        | Some dataOff =>
            let '(x, a) := answer a in
            if failed x then Some (false, dst, a)
            else
              let holeOff := seek_hole dataOff in
              let '(x, a) := answer a in
              if failed x then Some (false, dst, a)
              else match region (S (holeOff - dataOff)) dataOff (holeOff - dataOff) dst a with
              | Some (true, dst, a) => regions fuel holeOff dst a
              | r => r
              end
        end
  end.
Definition sparseCopy (dst : list byte) (a : list ans) : outcome :=
  let '(x, a) := answer a in
  if failed x then Some (false, dst, a) else regions (S (length src)) 0 (Truncate (length src) dst) a.

(** io.CopyBuffer from the two beginnings. *)
Definition CopyBuffer (x : ans) (dst : list byte) : list byte * bool :=
  match x with Full => (pwrite 0 src dst, true) | Part k => (pwrite 0 (take k src) dst, false) | Fails => (dst, false) end.

(** A file that may be absent. *)
Definition cloneFile (file : option (list byte)) (a : list ans) : option (bool * option (list byte) * list ans) :=
  let '(x1, a) := answer a in                                     (* Open(src) *)
  if failed x1 then Some (false, file, a)
  else let '(x2, a) := answer a in                                (* Stat *)
  if failed x2 then Some (false, file, a)
  else let '(x3, a) := answer a in                                (* OpenFile(dst, O_TRUNC) *)
  if failed x3 then Some (false, file, a)
  else let '(x4, a) := answer a in                                (* FICLONE *)
  if negb (failed x4) then let '(x5, a) := answer a in Some (negb (failed x5), Some src, a)
  else let '(_, a) := answer a in                                 (* Close, ignored *)
  let '(x6, a) := answer a in                                     (* OpenFile(dst, O_TRUNC) *)
  if failed x6 then Some (false, Some [], a)
  else match sparseCopy [] a with
  | None => None
  | Some (true, dst, a) => let '(x7, a) := answer a in Some (negb (failed x7), Some dst, a)
  | Some (false, dst, a) =>
      let '(x8, a) := answer a in                                 (* in.Seek, out.Seek *)
      if failed x8 then Some (false, Some dst, a)
      else let '(x9, a) := answer a in
      if failed x9 then Some (false, Some dst, a)
      else let '(y1, a) := answer a in
      let '(dst, ok) := CopyBuffer y1 dst in
      let '(y2, a) := answer a in Some (ok && negb (failed y2), Some dst, a)
  end.

Definition tryReflink (file : option (list byte)) (a : list ans) : bool * option (list byte) * list ans :=
  let '(x1, a) := answer a in
  if failed x1 then (false, file, a)
  else let '(x2, a) := answer a in
  if failed x2 then (false, file, a)
  else let '(x3, a) := answer a in
  if failed x3 then
    let '(_, a) := answer a in                                    (* Close, ignored *)
    let '(x4, a) := answer a in (false, if failed x4 then Some [] else None, a)
  else let '(x5, a) := answer a in (negb (failed x5), Some src, a).

(** ** What is copied *)

(** lseek(2): what is read in a hole are zeros. *)
Hypothesis holes : ∀ i, i < length src → data i = false → src !! i = Some x00.

(** The source up to [p], and zeros. *)
Definition upto (p : nat) : list byte := take p src ++ replicate (length src - p) x00.
Lemma length_upto p : p ≤ length src → length (upto p) = length src.
Proof. intros. unfold upto. rewrite length_app, length_take, length_replicate. lia. Qed.
Lemma upto_all : upto (length src) = src.
Proof. unfold upto. by rewrite firstn_all, Nat.sub_diag, app_nil_r. Qed.
Lemma lookup_upto p i : p ≤ length src → upto p !! i = if decide (i < p) then src !! i else if decide (i < length src) then Some x00 else None.
Proof.
  intros Hp. unfold upto. repeat case_decide; try lia.
  - rewrite lookup_app_l by (rewrite length_take; lia). by apply lookup_take_lt.
  - rewrite lookup_app_r by (rewrite length_take; lia). apply lookup_replicate. rewrite length_take. split; [done|lia].
  - apply lookup_ge_None. rewrite length_app, length_take, length_replicate. lia.
Qed.
(** Holes need no copying. *)
Lemma upto_hole p q : p ≤ q → q ≤ length src → (∀ i, p ≤ i < q → data i = false) → upto p = upto q.
Proof.
  intros Hpq Hq Hh. apply list_eq. intros i. rewrite !lookup_upto by lia. repeat case_decide; try done; try lia.
  symmetry. apply holes; [done|]. apply Hh. lia.
Qed.
Lemma pwrite_inside off bs dst : off ≤ length dst → pwrite off bs dst = write_at off bs dst.
Proof. intros. unfold pwrite. replace (off - length dst) with 0 by lia. by rewrite app_nil_r. Qed.
Lemma write_upto p n : p + n ≤ length src → pwrite p (slice p n src) (upto p) = upto (p + n).
Proof.
  intros H. apply list_eq. intros i. rewrite pwrite_inside, lookup_write_at by (rewrite ?length_slice, ?length_upto by lia; lia).
  rewrite length_slice, !lookup_upto, lookup_slice by lia. repeat case_decide; try done; try lia. f_equal. lia.
Qed.
Lemma length_pwrite off bs dst : off + length bs ≤ length dst → length (pwrite off bs dst) = length dst.
Proof. intros. rewrite pwrite_inside by lia. by apply length_write_at. Qed.

(** How a loop that was to copy up to [q] ends: it did, or it failed and the file
    still has the length of the source. *)
Definition copied (q : nat) (r : outcome) : Prop :=
  match r with Some (true, dst, _) => dst = upto q | Some (false, dst, _) => length dst = length src | None => False end.

Lemma userspace_copies fuel pos remaining a :
  remaining < fuel → pos + remaining ≤ length src → copied (pos + remaining) (userspace fuel pos remaining (upto pos) a).
Proof.
  revert pos remaining a. induction fuel as [|fuel IH]; intros pos remaining a Hf Hr; [lia|]. cbn [userspace].
  destruct (remaining =? 0) eqn:E0; [apply Nat.eqb_eq in E0; subst; by rewrite Nat.add_0_r|]. apply Nat.eqb_neq in E0.
  destruct (answer a) as [x a1]. set (n := remaining `min` region_buf).
  assert (Hn : 0 < n ≤ remaining) by (unfold n, region_buf; lia). clearbody n.
  assert (Hw : ∀ k y a2 (rerr : option bool), k ≤ n → rerr = None ∧ k = n ∨ rerr = Some false →
    copied (pos + remaining) (let '(dst, ok, a) := if 0 <? length (slice pos k src) then (WriteAt (slice pos k src) pos y (upto pos), a2) else (upto pos, true, a1) in
      if negb ok then Some (false, dst, a) else match rerr with Some true => Some (true, dst, a) | Some false => Some (false, dst, a)
      | None => userspace fuel (pos + length (slice pos k src)) (remaining - length (slice pos k src)) dst a end)).
  { intros k y a2 rerr Hk He. rewrite length_slice by lia.
    destruct (0 <? k) eqn:Ek.
    - apply Nat.ltb_lt in Ek. destruct y as [|j|]; cbn [WriteAt negb].
      + rewrite write_upto by lia. destruct He as [[-> ->]| ->]; [|simpl; apply length_upto; lia].
        replace (pos + remaining) with (pos + n + (remaining - n)) by lia. apply IH; lia.
      + simpl. rewrite length_pwrite; rewrite ?length_take, ?length_slice, ?length_upto; lia.
      + simpl. apply length_upto. lia.
    - apply Nat.ltb_ge in Ek. destruct He as [[-> ->]| ->]; [lia|]. simpl. apply length_upto. lia. }
  destruct x as [|k|]; cbn [ReadAt].
  - rewrite length_slice by lia. rewrite Nat.ltb_irrefl. destruct (answer a1) as [y a2] eqn:Ea.
    specialize (Hw n y a2 None ltac:(lia) ltac:(by left)). by rewrite length_slice in Hw by lia.
  - destruct (answer a1) as [y a2] eqn:Ea. exact (Hw (n `min` k) y a2 (Some false) ltac:(lia) ltac:(by right)).
  - simpl. apply length_upto. lia.
Qed.

Lemma region_copies fuel pos len a : len < fuel → pos + len ≤ length src → copied (pos + len) (region fuel pos len (upto pos) a).
Proof.
  revert pos len a. induction fuel as [|fuel IH]; intros pos len a Hf Hl; [lia|]. cbn [region].
  destruct (len =? 0) eqn:E0; [apply Nat.eqb_eq in E0; subst; by rewrite Nat.add_0_r|]. apply Nat.eqb_neq in E0.
  destruct (answer a) as [x a1]. set (n := match x with Full => len | Part k => len `min` k | Fails => 0 end).
  assert (n ≤ len) by (unfold n; destruct x; lia). clearbody n.
  destruct (n =? 0) eqn:En; [by apply userspace_copies; lia|]. apply Nat.eqb_neq in En. rewrite write_upto by lia.
  replace (pos + len) with (pos + n + (len - n)) by lia. apply IH; lia.
Qed.

Lemma find_least (P : nat → Prop) `{!∀ x, Decision (P x)} off n k :
  snd <$> list_find P (seq off n) = Some k → off ≤ k < off + n ∧ P k ∧ ∀ i, off ≤ i < k → ¬ P i.
Proof.
  destruct (list_find P (seq off n)) as [[j k']|] eqn:E; [|done]. intros [= ->]. apply list_find_Some in E as (Hj & Hk & Hb).
  apply lookup_seq in Hj as [-> Hj]. split; [lia|]. split; [done|]. intros i Hi.
  apply (Hb (i - off) i); [|lia]. apply lookup_seq. lia.
Qed.
Lemma find_none (P : nat → Prop) `{!∀ x, Decision (P x)} off n i : list_find P (seq off n) = None → off ≤ i < off + n → ¬ P i.
Proof. intros E Hi. apply list_find_None in E. rewrite Forall_forall in E. apply E, elem_of_seq. lia. Qed.
Lemma seek_data_spec off k : seek_data off = Some k → off ≤ k < length src ∧ data k = true ∧ ∀ i, off ≤ i < k → data i = false.
Proof.
  intros (H1 & H2 & H3)%find_least. split; [lia|]. split; [done|]. intros i Hi. by apply not_true_is_false, H3.
Qed.
Lemma seek_data_none off i : seek_data off = None → off ≤ i < length src → data i = false.
Proof. unfold seek_data. intros H%fmap_None Hi. apply not_true_is_false. exact (find_none (λ i, data i = true) off (length src - off) i H ltac:(lia)). Qed.
Lemma seek_hole_spec k : k < length src → data k = true → k < seek_hole k ≤ length src.
Proof.
  intros Hk Hd. unfold seek_hole. destruct (snd <$> _) as [j|] eqn:E; simpl; [|lia]. apply find_least in E as (H1 & H2 & _).
  destruct (decide (j = k)) as [->|]; [congruence|lia].
Qed.

Lemma regions_copy fuel offset a : length src < offset + fuel → offset ≤ length src → copied (length src) (regions fuel offset (upto offset) a).
Proof.
  revert offset a. induction fuel as [|fuel IH]; intros offset a Hf Ho; [lia|]. cbn [regions].
  pose proof (length_upto offset Ho) as Hl.
  destruct (length src <=? offset) eqn:E; [apply Nat.leb_le in E; by replace (length src) with offset by lia|]. apply Nat.leb_gt in E.
  destruct (answer a) as [x a1]. destruct (failed x); [done|]. destruct (seek_data offset) as [k|] eqn:Ek.
  2: { simpl. apply upto_hole; [lia|done|]. intros i Hi. by apply (seek_data_none offset). }
  apply seek_data_spec in Ek as (H1 & H2 & H3). pose proof (seek_hole_spec k ltac:(lia) H2) as Hh.
  destruct (answer a1) as [y a2]. destruct (failed y); [done|]. destruct (answer a2) as [z a3]. destruct (failed z); [done|].
  rewrite (upto_hole offset k) by (done || lia).
  pose proof (region_copies (S (seek_hole k - k)) k (seek_hole k - k) a3 ltac:(lia) ltac:(lia)) as Hr.
  replace (k + (seek_hole k - k)) with (seek_hole k) in Hr by lia.
  destruct (region _ _ _ _ _) as [[[[] dst] a4]|]; simpl in Hr; [subst dst; apply IH; lia|done|done].
Qed.

Lemma sparseCopy_copies a : match sparseCopy [] a with
  Some (true, dst, _) => dst = src | Some (false, dst, _) => length dst ≤ length src | None => False end.
Proof.
  unfold sparseCopy. destruct (answer a) as [x a1]. destruct (failed x); [simpl; lia|].
  replace (Truncate (length src) []) with (upto 0) by (unfold Truncate, upto; by rewrite take_nil, take_0).
  pose proof (regions_copy (S (length src)) 0 a1 ltac:(lia) ltac:(lia)) as H. unfold copied in H.
  destruct (regions _ _ _ _) as [[[[] dst] a2]|]; [by rewrite upto_all in H|lia|done].
Qed.

(** C27. Copying a root disk always comes to an end, whatever its calls answer (short
    copies, errors in the middle of a region, files without reflinks or holes), and a
    copy that reports success is the source, byte for byte. *)
Theorem clone_is_a_copy file a :
  ∃ ok dst a', cloneFile file a = Some (ok, dst, a') ∧ (ok = true → dst = Some src).
Proof.
  unfold cloneFile. destruct (answer a) as [x1 a1]. destruct (failed x1); [by eexists _, _, _|].
  destruct (answer a1) as [x2 a2]. destruct (failed x2); [by eexists _, _, _|].
  destruct (answer a2) as [x3 a3]. destruct (failed x3); [by eexists _, _, _|].
  destruct (answer a3) as [x4 a4]. destruct (failed x4); cbn [negb]; [|destruct (answer a4) as [x5 a5]; by eexists _, _, _].
  destruct (answer a4) as [x5 a5]. destruct (answer a5) as [x6 a6]. destruct (failed x6); [by eexists _, _, _|].
  pose proof (sparseCopy_copies a6) as H. destruct (sparseCopy [] a6) as [[[[] dst] a7]|]; [|clear x1 x2 x3|done].
  { subst dst. destruct (answer a7) as [x7 a8]. by eexists _, _, _. }
  destruct (answer a7) as [x8 a8]. destruct (failed x8); [by eexists _, _, _|]. destruct (answer a8) as [x9 a9].
  destruct (failed x9); [by eexists _, _, _|]. destruct (answer a9) as [y1 a10]. destruct y1 as [|k|]; cbn [CopyBuffer].
  - destruct (answer a10) as [y2 a11]. eexists _, _, _. split; [done|]. intros _. f_equal. unfold pwrite, write_at. simpl.
    rewrite drop_ge; [by rewrite app_nil_r|]. rewrite ?length_app, ?length_replicate. simpl. lia.
  - destruct (answer a10) as [y2 a11]. by eexists _, _, _.
  - destruct (answer a10) as [y2 a11]. by eexists _, _, _.
Qed.

(** A reflink that was made is the source; one that the file system refuses leaves
    no file, unless it cannot be removed. *)
Theorem reflink_or_nothing file a : let '(ok, dst, a') := tryReflink file a in
  (ok = true → dst = Some src) ∧ (ok = false → dst = file ∨ dst = None ∨ dst = Some [] ∨ dst = Some src).
Proof.
  unfold tryReflink. destruct (answer a) as [x1 a1]. destruct (failed x1); [split; [done|auto]|]. destruct (answer a1) as [x2 a2].
  destruct (failed x2); [split; [done|auto]|]. destruct (answer a2) as [x3 a3]. destruct (failed x3).
  - destruct (answer a3) as [z a4]. destruct (answer a4) as [x4 a5]. destruct (failed x4); (split; [done|auto]).
  - destruct (answer a3) as [x5 a5]. destruct (failed x5); (split; [done|auto]).
Qed.

End clone.

(** ** Examples *)

(** Two regions of data; a short copy, then none, then a read that fails after one
    byte: the plain copy starts again. *)
Definition w_src : list byte := [x00; x00; x01; x02; x03; x00; x00; x04; x00].
Definition w_data (i : nat) : bool := bool_decide (i ∈ [2; 3; 4; 7]).
Lemma w_holes i : i < length w_src → w_data i = false → w_src !! i = Some x00.
Proof. intros Hi. do 9 (destruct i as [|i]; [vm_compute; done|]). simpl in Hi. lia. Qed.
Definition w_answers : list ans := [Full; Full; Full; Fails; Full; Full; Full; Full; Full; Full; Part 1; Part 0; Part 1; Full].
Lemma clone_is_a_copy_witness :
  cloneFile w_src w_data None w_answers = Some (true, Some w_src, []) ∧
  ∃ ok dst a', cloneFile w_src w_data None w_answers = Some (ok, dst, a') ∧ (ok = true → dst = Some w_src).
Proof. split; [vm_compute; reflexivity|]. apply (clone_is_a_copy w_src w_data w_holes None w_answers). Defined.

(** A file system without reflinks: only the regions are copied. *)
Lemma regions_are_enough :
  cloneFile w_src w_data (Some [x07]) [Full; Full; Full; Fails] = Some (true, Some w_src, []).
Proof. vm_compute. reflexivity. Qed.
(** A copy that failed leaves what it wrote under the name of the copy. *)
Lemma failed_clone_stays :
  cloneFile w_src w_data None [Full; Full; Full; Fails; Full; Full; Full; Full; Full; Full; Part 1; Fails; Fails; Full; Full; Part 4; Full] =
    Some (false, Some [x00; x00; x01; x02; x00; x00; x00; x00; x00], []).
Proof. vm_compute. reflexivity. Qed.
