(* ===== verification/Snapshots.v ===== *)
(** Named snapshots: taking one (Manager.Snapshot of agent/internal/sandbox/manager.go
    with PauseForFork and CreateSnapshot of firecracker/driver.go), its mirror in the
    bucket (agent/internal/snapstore/snapstore.go), the restore of one on any host as
    far as the choice of the root disk, and the collection of old ones
    (sandbox/snapshot_gc.go, store.go).  Everything concerns one snapshot.

    Restores are trees of calls (Calls.v) run as threads over the snapshot's
    directory on their host; taking and purging are computations that a kill can end
    between any two effects (Crash.v). *)

From S2P Require Import Prelude Calls Crash.

(** ** Restoring *)

(** The snapshot's directory on a host that fetches it.  gsutil cp and rename put a
    file there whole or not at all. *)
Record dir := mkDir { mem : bool; state : bool; meta : bool; disk : bool; huge : bool; header : bool }.
Definition nothing : dir := mkDir false false false false false false.
(** The objects of the bucket are the same, with rootfs.tar.zst for the disk. *)
Definition below (b b' : bool) : Prop := b = true → b' = true.

Inductive call :=
  | StatMem | StatState | StatMeta | StatDisk | ReadMeta
  | LockDownload | MkDir | FetchMemState | FetchMeta | FetchHuge | FetchHeader
  | ProbeTar | MkStage | FetchTar | Untar | StatExtracted | RenameIn | CopyTmp | RenameTmp.
(** What ReadMeta has of meta.json: it is not there, it cannot be read or parsed, or its
    DiskCaptured. *)
Inductive reading := NoFile | Unreadable | Meta (captured : bool).
(** Whether any other call went through. *)
Definition answer (c : call) : Type := match c with ReadMeta => reading | _ => bool end.
(** How a create from the snapshot goes on: on a copy of the snapshot's disk, over a
    template's disk with the memory alone, or not at all. *)
Inductive choice := OwnDisk | OverTemplate | Refused | NoTemplate | NotFetched.
Definition thread : Type := prog answer choice.

Open Scope call_scope.

Definition DiskRequirementMet (k : bool → thread) : thread :=
  m <<- ReadMeta; match m with Meta true => ok <<- StatDisk; k ok | _ => k true end.

Definition downloadRootfsTar (k : bool → thread) : thread :=
  here <<- StatDisk;
  if here : bool then k true
  else
    m <<- ReadMeta;
    let pull : thread :=
      ok <<- MkStage; if negb ok then k false else
      ok <<- FetchTar; if negb ok then k false else
      ok <<- Untar; if negb ok then k false else
      ok <<- StatExtracted; if negb ok then k false else
      ok <<- RenameIn; if ok : bool then k true else
      ok <<- CopyTmp; if negb ok then k false else
      ok <<- RenameTmp; k ok in
    match m with
    | Meta true => pull
    | _ => there <<- ProbeTar; if there : bool then pull else k true
    end.

(** mem.err == nil && ... && DiskRequirementMet *)
Definition here_and (b1 b2 b3 : bool) (k : bool → thread) : thread := if b1 && b2 && b3 then DiskRequirementMet k else k false.

Definition Download (k : bool → thread) : thread :=
  m <<- StatMem; s <<- StatState; t <<- StatMeta;
  here_and m s t (λ complete,
    if complete : bool then k true
    else
      _ <<- LockDownload;
      let fetch : thread :=
        ok <<- MkDir;
        if negb ok then k false
        else
          let rest : thread := _ <<- FetchMeta; _ <<- FetchHuge; _ <<- FetchHeader; downloadRootfsTar k in
          if m && s then rest else ok <<- FetchMemState; if negb ok then k false else rest in
      m' <<- StatMem;
      if m' : bool then
        s' <<- StatState; t' <<- StatMeta;
        here_and m' s' t' (λ complete, if complete : bool then k true else fetch)
      else fetch).

(** The choice of the root disk.  [template]: the request names one; [named]: meta.json
    does. *)
Definition choose (known : bool) : thread :=
  own <<- StatDisk;
  if own : bool then Ret OwnDisk
  else
    m <<- ReadMeta;
    match m with
    | Meta true => Ret Refused
    | _ => if known then Ret OverTemplate else Ret NoTemplate
    end.
Definition choose_disk (template named : bool) : thread :=
  if template then choose true else m <<- ReadMeta; choose (named && match m with Meta _ => true | _ => false end).

(** A create from the snapshot, on a host with the mirror. *)
Definition restore (template named : bool) : thread :=
  s <<- StatState; t <<- StatMeta;
  let go (complete : bool) : thread :=
    if complete then choose_disk template named
    else Download (λ ok, if ok : bool then choose_disk template named else Ret NotFetched) in
  if s && t then DiskRequirementMet go else go false.

(** *** What the calls do *)

Section threads.
Context (captured : bool) (B : dir).

Definition set_meta (d : dir) : dir := mkDir (mem d) (state d) true (disk d) (huge d) (header d).
Definition set_disk (d : dir) : dir := mkDir (mem d) (state d) (meta d) true (huge d) (header d).
Definition set_huge (d : dir) : dir := mkDir (mem d) (state d) (meta d) (disk d) true (header d).
Definition set_header (d : dir) : dir := mkDir (mem d) (state d) (meta d) (disk d) (huge d) true.
Definition set_images (m s : bool) (d : dir) : dir := mkDir (m || mem d) (s || state d) (meta d) (disk d) (huge d) (header d).

(** One call on a directory: stats are exact, a file that is there may not be read, a fetch succeeds only for an object that
    is in the bucket [B], and may have done its work when it reports a failure. *)
Definition fetched (there : bool) (set : dir → dir) (d : dir) (a : bool) (d' : dir) : Prop :=
  (d' = d ∧ a = false) ∨ (there = true ∧ d' = set d).
Definition sem (c : call) (d : dir) : answer c → dir → Prop :=
  match c with
  | StatMem => λ a d', a = mem d ∧ d' = d
  | StatState => λ a d', a = state d ∧ d' = d
  | StatMeta => λ a d', a = meta d ∧ d' = d
  | StatDisk => λ a d', a = disk d ∧ d' = d
  | ReadMeta => λ a d', (a = (if meta d then Meta captured else NoFile) ∨ meta d = true ∧ a = Unreadable) ∧ d' = d
  | FetchMemState => λ a d', ∃ m s, below m (mem B) ∧ below s (state B) ∧ d' = set_images m s d ∧ (a = true → m = true ∧ s = true)
  | FetchMeta => fetched (meta B) set_meta d
  | FetchHuge => fetched (huge B) set_huge d
  | FetchHeader => fetched (header B) set_header d
  | ProbeTar | FetchTar => λ a d', (a = true → disk B = true) ∧ d' = d
  | RenameIn | RenameTmp => λ a d', d' = if a then set_disk d else d
  | LockDownload | MkDir | MkStage | Untar | StatExtracted | CopyTmp => λ a d', d' = d
  end.


(** Threads of one host, each with what it has seen, the last first. *)
Definition system : Type := dir * list (thread * list (event answer)).
Inductive step : system → system → Prop :=
  | step_call d ts i c k h a d' : ts !! i = Some (Do c k, h) → sem c d a d' → step (d, ts) (d', <[i := (k a, did c a :: h)]> ts)
  | step_create d ts template named : step (d, ts) (d, ts ++ [(restore template named, [])])
  | step_kill d ts : step (d, ts) (d, []).

(** *** Rely and guarantee *)





(** *** What a restore knows *)











End threads.

(** ** Taking a snapshot, and purging it *)

(** A file or object may also be there in part. *)
Inductive fs := Absent | Torn | Whole.
Record files := mkFiles { f_mem : fs; f_state : fs; f_meta : fs; f_disk : fs; f_huge : fs; f_header : fs }.
Definition no_files : files := mkFiles Absent Absent Absent Absent Absent Absent.
Record world := mkWorld {
  here : files;            (* the directory on the origin *)
  there : files;           (* the bucket *)
  elsewhere : files;       (* the directory on another host *)
  row : option Z;          (* the row of the snapshots table: created_at *)
  running : bool;          (* the VM's vCPUs *)
}.
Inductive site :=
  | MkSnapDir | Pause | CopyDisk | CreateVM | MarkHuge | BakeHeader | Resume | Refreeze | WriteMeta | Insert
  | PutMem | PutState | PutHuge | PutHeader | MkTemp | Tar | PutTar | PutMeta | Scrub
  | RmDir | RmBucket | DelRow.
(** [Half]: a failure is reported, of a call that did its work, or part of it. *)
Inductive outcome3 := Done | Fails | Half.

Definition present (x : fs) : bool := match x with Absent => false | _ => true end.
Definition set_here (f : files → files) (w : world) : world := mkWorld (f (here w)) (there w) (elsewhere w) (row w) (running w).
Definition set_there (f : files → files) (w : world) : world := mkWorld (here w) (f (there w)) (elsewhere w) (row w) (running w).
Definition set_row (x : option Z) (w : world) : world := mkWorld (here w) (there w) (elsewhere w) x (running w).
Definition set_running (x : bool) (w : world) : world := mkWorld (here w) (there w) (elsewhere w) (row w) x.
Definition put_mem x (f : files) := mkFiles x (f_state f) (f_meta f) (f_disk f) (f_huge f) (f_header f).
Definition put_state x (f : files) := mkFiles (f_mem f) x (f_meta f) (f_disk f) (f_huge f) (f_header f).
Definition put_meta x (f : files) := mkFiles (f_mem f) (f_state f) x (f_disk f) (f_huge f) (f_header f).
Definition put_disk x (f : files) := mkFiles (f_mem f) (f_state f) (f_meta f) x (f_huge f) (f_header f).
Definition put_huge x (f : files) := mkFiles (f_mem f) (f_state f) (f_meta f) (f_disk f) x (f_header f).
Definition put_header x (f : files) := mkFiles (f_mem f) (f_state f) (f_meta f) (f_disk f) (f_huge f) x.

Section taking.
Context (o : site → outcome3).
(** What a removal that fails midway leaves: [true] is kept. *)
Context (keep : dir).
Definition remains (b : bool) (x : fs) : fs := if b then x else Absent.
Definition left_over (f : files) : files :=
  mkFiles (remains (mem keep) (f_mem f)) (remains (state keep) (f_state f)) (remains (meta keep) (f_meta f))
    (remains (disk keep) (f_disk f)) (remains (huge keep) (f_huge f)) (remains (header keep) (f_header f)).

Definition perform (s : site) (f half : world → world) : C world bool :=
  effect (λ w, match o s with Done => (true, f w) | Fails => (false, w) | Half => (false, half w) end).
(** A file written in place: opened, and filled. *)
Definition write (s : site) (put : fs → files → files) : C world bool :=
  ok ← effect (λ w, match o s with Fails => (false, w) | _ => (true, set_here (put Torn) w) end);
  if ok : bool then effect (λ w, match o s with Done => (true, set_here (put Whole) w) | _ => (false, w) end) else mret false.
Definition both x (f : files) : files := put_mem x (put_state x f).

(** The facts of the sandbox: its rootfs is a regular file, its memory is in huge
    pages, its row says that it is paused; and whether there is a bucket. *)
Record facts := mkFacts { captured : bool; hugepages : bool; paused : bool; enabled : bool; now : Z }.
Context (F : facts).

(** markSnapshotHugepages *)
Definition markSnapshotHugepages : C world bool :=
  ok ← write MarkHuge put_huge;
  if ok : bool then write BakeHeader put_header else mret false.
(** PauseForFork, and CreateSnapshot for a sandbox whose disk is not a file. *)
Definition PauseForFork : C world bool :=
  ok ← perform MkSnapDir (λ w, w) (λ w, w);
  if negb ok then mret false
  else
    ok ← perform Pause (set_running false) (set_running false);
    if negb ok then mret false
    else
      d ← (if captured F then write CopyDisk put_disk else mret true);
      s ← (if d : bool then write CreateVM both else mret false);
      _ ← (if (s : bool) && hugepages F then markSnapshotHugepages else mret true);
      _ ← perform Resume (set_running true) (λ w, w);
      mret s.
Definition refreezeIfPaused : C world bool := if paused F then perform Refreeze (set_running false) (λ w, w) else mret true.

(** gsutil cp of a file to its object. *)
Definition cp (s : site) (get : files → fs) (put : fs → files → files) : C world bool :=
  perform s (λ w, set_there (put (get (here w))) w) (λ w, set_there (put (get (here w))) w).
(** [optional]: only if the file is there; an image that is not is an error. *)
Definition mirror (s : site) (optional : bool) (get : files → fs) (put : fs → files → files) : C world bool :=
  p ← pure_step (λ w, (present (get (here w)), w));
  if p : bool then cp s get put else mret optional.
Definition uploadRootfsTar : C world bool :=
  p ← pure_step (λ w, (present (f_disk (here w)), w));
  if negb p then mret true
  else
    ok ← perform MkTemp (λ w, w) (λ w, w);
    if negb ok then mret false
    else
      ok ← perform Tar (λ w, w) (λ w, w);
      if negb ok then mret false else cp PutTar f_disk put_disk.
Definition Upload : C world bool :=
  all_steps (λ c : C world bool, c)
    [mirror PutMem false f_mem put_mem; mirror PutState false f_state put_state;
     mirror PutHuge true f_huge put_huge; mirror PutHeader true f_header put_header;
     uploadRootfsTar; mirror PutMeta true f_meta put_meta].
Definition Delete (s : site) : C world bool := perform s (set_there (λ _, no_files)) (set_there left_over).

(** Manager.Snapshot: whether it succeeded. *)
Definition Snapshot : C world bool :=
  ok ← PauseForFork;
  if negb ok then mret false
  else
    _ ← refreezeIfPaused;
    _ ← write WriteMeta put_meta;
    ok ← perform Insert (set_row (Some (now F))) (set_row (Some (now F)));
    if negb ok then mret false
    else if enabled F then
      up ← Upload;
      _ ← (if up : bool then mret true else Delete Scrub);
      mret true
    else mret true.

(** purgeSnapshot *)
Definition purgeSnapshot : C world bool :=
  _ ← perform RmDir (set_here (λ _, no_files)) (set_here left_over);
  _ ← (if enabled F then Delete RmBucket else mret true);
  perform DelRow (set_row None) (set_row None).

(** *** What is published, and what is kept *)

(** Everything that the snapshot is made of. *)
Definition complete (f : files) : Prop := f_mem f = Whole ∧ f_state f = Whole ∧ (captured F = true → f_disk f = Whole).
(** A row has its files on the origin, and meta.json in the bucket is a commit mark. *)
Definition kept (w : world) : Prop := (row w ≠ None → complete (here w)) ∧ (f_meta (there w) ≠ Absent → complete (there w)).
Definition before_row (w : world) : Prop := there w = no_files ∧ row w = None.

Lemma before_row_kept w : before_row w → kept w.
Proof. intros [H1 H2]. unfold kept. by rewrite H1, H2. Qed.
Lemma t_perform P s f half Q R : (∀ w, P w → R w) → (∀ w, P w → o s = Done → Q true (f w)) → (∀ w, P w → Q false w) →
  (∀ w, P w → o s = Half → Q false (half w)) → triple P (perform s f half) Q R.
Proof. intros HR H1 H2 H3. apply triple_effect; [done|]. intros w Hw. destruct (o s) eqn:E; simpl; auto. Qed.
Lemma t_put P s put Q R : (∀ w, P w → R w) → (∀ w, P w → R (set_here (put Torn) w)) → (∀ w, P w → Q false w) →
  (∀ w, P w → Q false (set_here (put Torn) w)) → (∀ w, P w → Q true (set_here (put Whole) (set_here (put Torn) w))) → triple P (write s put) Q R.
Proof.
  intros HR HR' H1 H2 H3. unfold write.
  eapply (triple_bind _ _ _ (λ ok w', if ok : bool then ∃ w, P w ∧ w' = set_here (put Torn) w else P w')).
  - apply triple_effect; [done|]. intros w Hw. destruct (o s); simpl; eauto.
  - intros []; [|by apply triple_ret]. apply triple_effect; [by intros w (w0 & H & ->); apply HR'|].
    intros w (w0 & H & ->). destruct (o s); simpl; auto.
Qed.

Lemma pause_spec : triple before_row PauseForFork (λ ok w, before_row w ∧ (ok = true → complete (here w))) before_row.
Proof.
  unfold PauseForFork. eapply (triple_bind _ _ _ (λ _, before_row)); [by apply t_perform|]. intros []; [|by apply triple_ret; auto]. cbn [negb].
  eapply (triple_bind _ _ _ (λ _, before_row)); [by apply t_perform|]. intros []; [|by apply triple_ret; auto]. cbn [negb].
  eapply (triple_bind _ _ _ (λ d w, before_row w ∧ (d = true → captured F = true → f_disk (here w) = Whole))).
  { destruct (captured F); [by apply t_put; auto|by apply triple_ret; auto]. }
  intros d. eapply (triple_bind _ _ _ (λ s w, before_row w ∧ (s = true → complete (here w)))).
  { destruct d; [|by apply triple_ret; intros w [H _]]. apply t_put; try by intros w [H _]. intros w [H Hd]. split; [done|]. intros _. split_and!; auto. }
  intros s. eapply (triple_bind _ _ _ (λ _ w, before_row w ∧ (s = true → complete (here w)))).
  { destruct (s && hugepages F) eqn:E; [|by apply triple_ret]. apply andb_prop in E as [-> _]. unfold markSnapshotHugepages.
    eapply (triple_bind _ _ _ (λ _ w, before_row w ∧ (true = true → complete (here w)))); [by apply t_put; try (intros w [H _]; exact H); intros w [H Hc]; (split; [exact H|exact Hc])|].
    intros []; [|by apply triple_ret]. by apply t_put; try (intros w [H _]; exact H); intros w [H Hc]; (split; [exact H|exact Hc]). }
  intros _. eapply (triple_bind _ _ _ (λ _ w, before_row w ∧ (s = true → complete (here w)))); [apply t_perform; [by intros w [H _]|intros w H _; exact H|done|intros w H _; exact H]|].
  intros _. by apply triple_ret.
Qed.

(** The mirror up to meta.json: its parts in order. *)
Definition mirrored (n : nat) (w : world) : Prop :=
  complete (here w) ∧ f_meta (there w) = Absent ∧ (1 ≤ n → f_mem (there w) = Whole)%nat ∧ (2 ≤ n → f_state (there w) = Whole)%nat ∧
  (3 ≤ n → captured F = true → f_disk (there w) = Whole)%nat.
Lemma mirrored_kept n w : mirrored n w → kept w.
Proof. intros (H1 & H2 & _). split; [done|]. by rewrite H2. Qed.
Lemma t_mirror n m s optional get put :
  (∀ w, mirrored n w → mirrored m (set_there (put (get (here w))) w)) → (∀ w, mirrored n w → present (get (here w)) = false → optional = true → mirrored m w) →
  (∀ w, mirrored m w → mirrored n w) →
  triple (mirrored n) (mirror s optional get put) (λ ok w, mirrored (if ok : bool then m else n) w) kept.
Proof.
  intros H1 H2 H3. unfold mirror. eapply (triple_bind _ _ _ (λ p w, mirrored n w ∧ p = present (get (here w)))); [by apply triple_pure_step|].
  intros []; [|apply triple_ret; intros w [H Hp]; destruct optional; [by apply H2|done]].
  unfold cp. apply t_perform; [by intros w [H _]; eapply mirrored_kept|by intros w [H _] _; apply H1|by intros w [H _]|by intros w [H _] _; apply H3, H1].
Qed.
Lemma triple_and_then {P Q R} (c c' : C world bool) (M : world → Prop) :
  triple P c (λ ok w, if ok : bool then M w else Q false w) R → triple M c' Q R →
  triple P (ok ← c; if ok : bool then c' else mret false) Q R.
Proof. intros H1 H2. eapply triple_bind; [exact H1|]. intros []; [exact H2|by apply triple_ret]. Qed.

(** How a mirror ends: published, or without its mark, unless the mark's copy
    reported a failure that was none. *)
Definition mirror_end (ok : bool) (w : world) : Prop :=
  kept w ∧ complete (here w) ∧ (ok = false → f_meta (there w) ≠ Absent → o PutMeta = Half).
Lemma mirrored_end n w : mirrored n w → mirror_end false w.
Proof. intros H. split; [by eapply mirrored_kept|]. destruct H as (H1 & H2 & _). split; [done|]. by rewrite H2. Qed.
Lemma upload_spec : triple (mirrored 0) Upload mirror_end kept.
Proof.
  unfold Upload. cbn [all_steps].
  assert (Hw : ∀ n m c P, triple P c (λ ok w, mirrored (if ok : bool then m else n) w) kept → triple P c (λ ok w, if ok : bool then mirrored m w else mirror_end false w) kept).
  { intros n m c P H. eapply triple_conseq; [exact H|done| |done]. intros [] w Hw; [done|]. by eapply mirrored_end. }
  eapply triple_and_then; [apply Hw with (n := 0%nat) (m := 1%nat), t_mirror|].
  { intros w (H1 & H2 & _). split_and!; try done; try lia. intros _. apply H1. }
  { by intros w _ _ H. }
  { intros w (H1 & H2 & _). split_and!; try done; lia. }
  eapply triple_and_then; [apply Hw with (n := 1%nat) (m := 2%nat), t_mirror|].
  { intros w (H1 & H2 & H3 & _). split_and!; try done; try lia; intros _; [apply H3; lia|apply H1]. }
  { by intros w _ _ H. }
  { intros w (H1 & H2 & H3 & _). split_and!; try done; try lia. intros _. apply H3. lia. }
  eapply triple_and_then; [apply Hw with (n := 2%nat) (m := 2%nat), t_mirror; [|done|done]|].
  { intros w (H1 & H2 & H3 & H4 & _). split_and!; try done; lia. }
  eapply triple_and_then; [apply Hw with (n := 2%nat) (m := 2%nat), t_mirror; [|done|done]|].
  { intros w (H1 & H2 & H3 & H4 & _). split_and!; try done; lia. }
  eapply triple_and_then with (M := mirrored 3).
  { apply Hw with (n := 2%nat). unfold uploadRootfsTar.
    assert (Hd : ∀ w, mirrored 3 w → mirrored 2 w) by (intros w (H1 & H2 & H3 & H4 & H5); split_and!; try done; try lia; auto).
    eapply (triple_bind _ _ _ (λ p w, mirrored 2 w ∧ p = present (f_disk (here w)))); [by apply triple_pure_step|]. intros p. destruct p; cbn [negb].
    - eapply (triple_bind _ _ _ (λ _, mirrored 2)); [apply t_perform; try (by intros w [H _]); by intros w [H _]; eapply mirrored_kept|]. intros []; [|by apply triple_ret].
      eapply (triple_bind _ _ _ (λ _, mirrored 2)); [apply t_perform; try done; by intros w H; eapply mirrored_kept|]. intros []; [|by apply triple_ret]. cbn [negb].
      assert (Hput : ∀ w, mirrored 2 w → mirrored 3 (set_there (put_disk (f_disk (here w))) w)).
      { intros w (H1 & H2 & H3 & H4 & _). split_and!; try done; try lia; intros _; [by apply H3; lia|by apply H4; lia|apply H1]. }
      unfold cp. apply t_perform; [by intros w H; eapply mirrored_kept|by intros w H _; apply Hput|done|by intros w H _; apply Hd, Hput].
    - apply triple_ret. intros w [(H1 & H2 & H3 & H4 & _) Hp]. split_and!; try done; try lia; intros _; [by apply H3; lia|by apply H4; lia|].
      intros Hc. destruct H1 as (_ & _ & H1). rewrite H1 in Hp by done. done. }
  assert (Hend : triple (mirrored 3) (mirror PutMeta true f_meta put_meta) mirror_end kept).
  { assert (Hput : ∀ w x, mirrored 3 w → kept (set_there (put_meta x) w)).
    { intros w x (H1 & H2 & H3 & H4 & H5). split; [done|]. intros _. split_and!; [by apply H3; lia|by apply H4; lia|]. intros Hc. apply H5; [lia|done]. }
    unfold mirror. eapply (triple_bind _ _ _ (λ _, mirrored 3)); [by apply triple_pure_step|].
    assert (Htrue : ∀ w, mirrored 3 w → mirror_end true w).
    { intros w H. split; [by eapply mirrored_kept|]. split; [apply H|done]. }
    intros []; [|by apply triple_ret]. unfold cp. apply t_perform; [by intros w H; eapply mirrored_kept| |by intros w H; eapply mirrored_end|].
    - intros w H _. split; [by apply Hput|]. split; [apply H|done].
    - intros w H Ho. split; [by apply Hput|]. split; [apply H|done]. }
  eapply triple_and_then with (M := λ w, mirror_end true w).
  - eapply triple_conseq; [exact Hend|done| |done]. by intros [] w H.
  - apply triple_ret. auto.
Qed.

(** C26. A snapshot with a row has its memory, its state and its captured disk whole on
    the host that took it, and meta.json is in the bucket only beside all of them,
    whatever call of the taking fails and wherever it is killed (and if the copy of
    meta.json reported a failure that was none, as long as the scrub removes all or
    nothing). *)
Theorem snapshot_is_published_whole n w :
  (o PutMeta = Half → o Scrub ≠ Half) → before_row w → kept (Snapshot n w).2.
Proof.
  intros Hhalf Hw. assert (H : triple before_row Snapshot (λ _, kept) kept).
  { unfold Snapshot. eapply (triple_bind _ _ _ (λ ok w, before_row w ∧ (ok = true → complete (here w)))).
    { eapply triple_conseq; [exact pause_spec|done|done|by apply before_row_kept]. }
    intros []; [|by apply triple_ret; intros w' [H _]; apply before_row_kept]. cbn [negb].
    set (A := λ w, before_row w ∧ complete (here w)). assert (HA : ∀ w, A w → kept w) by (by intros w' [H _]; apply before_row_kept).
    apply (triple_conseq _ A) with (Q' := λ _, kept) (R' := kept); [|by intros w' [H1 H2]; split; [|by apply H2]|done|done].
    eapply (triple_bind _ _ _ (λ _, A)).
    { unfold refreezeIfPaused. destruct (paused F); [|by apply triple_ret].
      apply t_perform; [exact HA|intros w' H _; exact H|done|intros w' H _; exact H]. }
    intros _. eapply (triple_bind _ _ _ (λ _, A)); [apply t_put; [exact HA|intros w' H; exact (HA w' H)|done|intros w' H; exact H|intros w' H; exact H]|].
    intros _. eapply (triple_bind _ _ _ (λ _ w, complete (here w) ∧ there w = no_files)).
    { apply t_perform; [done|intros w' [[H _] Hc] _; by split|intros w' [[H _] Hc]; by split|intros w' [[H _] Hc] _; by split]. }
    assert (HB : ∀ w, complete (here w) ∧ there w = no_files → kept w) by (intros w' [H1 H2]; split; [done|by rewrite H2]).
    intros []; [|by apply triple_ret]. cbn [negb]. destruct (enabled F); [|by apply triple_ret].
    eapply (triple_bind _ _ _ mirror_end).
    { eapply triple_conseq; [exact upload_spec| |done|done]. intros w' [H1 H2]. unfold mirrored. rewrite H2. split_and!; try done; lia. }
    intros up. eapply (triple_bind _ _ _ (λ _, kept)); [|by intros _; apply triple_ret].
    destruct up; [by apply triple_ret; intros w' [H _]|]. unfold Delete.
    apply t_perform; [by intros w' [H _]|intros w' [H1 [H2 _]] _; by split|by intros w' [H _]|].
    intros w' ([H1 H2] & H3 & H4) Hs. split; [done|]. cbn [there set_there left_over f_meta]. intros Hm. exfalso.
    apply (Hhalf (H4 eq_refl (λ E, Hm ltac:(by rewrite E; destruct (meta keep)))) Hs). }
  specialize (H n w Hw). destruct (Snapshot n w) as [[[a m]|] w']; exact H.
Qed.

(** Without its row a snapshot has no bytes on the host that purges and in the
    bucket, as far as the removals succeed, wherever the purge is killed. *)
Definition gone (w : world) : Prop := row w = None → here w = no_files ∧ (enabled F = true → there w = no_files).
Theorem purge_leaves_the_row_last n w :
  o RmDir = Done → (enabled F = true → o RmBucket = Done) → gone w → gone (purgeSnapshot n w).2.
Proof.
  intros H1 H2 Hw. assert (H : triple gone purgeSnapshot (λ _, gone) gone).
  { unfold purgeSnapshot. eapply (triple_bind _ _ _ (λ _ w, gone w ∧ here w = no_files)).
    { unfold perform. rewrite H1. apply triple_effect; [done|]. intros w' Hg. split; [|done]. intros Hr. split; [done|]. by apply Hg. }
    intros _. eapply (triple_bind _ _ _ (λ _ w, here w = no_files ∧ (enabled F = true → there w = no_files))).
    { destruct (enabled F); [|by apply triple_ret; intros w' [_ H]]. unfold Delete, perform. rewrite (H2 eq_refl).
      apply triple_effect; [by intros w' [H _]|]. by intros w' [_ H]. }
    intros _. apply t_perform; [intros w' H _; exact H|intros w' H _ _; exact H|intros w' H _; exact H|intros w' H _ _; exact H]. }
  specialize (H n w Hw). destruct (purgeSnapshot n w) as [[[a m]|] w']; exact H.
Qed.
(** A snapshot that is taken leaves the VM as the row says. *)
Lemma snapshot_keeps_the_vm n w a m :
  o Resume = Done → (paused F = true → o Refreeze = Done) → (Snapshot n w).1 = Some (a, m) → a = true → running (Snapshot n w).2 = negb (paused F).
Proof.
  intros Ho Hp. assert (H : triple (λ _, True) Snapshot (λ a w, a = true → running w = negb (paused F)) (λ _, True)).
  { unfold Snapshot. assert (Hany : ∀ A (c : C world A), triple (λ _, True) c (λ _ _, True) (λ _, True)).
    { intros A c k v _. by destruct (c k v) as [[[]|]]. }
    eapply (triple_bind _ _ _ (λ ok w, ok = true → running w = true)).
    { unfold PauseForFork. eapply triple_bind; [apply Hany|]. intros []; [|by apply triple_ret]. eapply triple_bind; [apply Hany|]. intros []; [|by apply triple_ret].
      do 3 (eapply triple_bind; [apply Hany|]; intros ?). cbn [negb]. eapply (triple_bind _ _ _ (λ _ w, running w = true)); [|by intros _; apply triple_ret].
      unfold perform. rewrite Ho. by apply triple_effect. }
    intros []; [|by apply triple_ret]. cbn [negb]. set (A := λ w, running w = negb (paused F)).
    eapply (triple_bind _ _ _ (λ _, A)).
    { unfold refreezeIfPaused, A. destruct (paused F); [|apply triple_ret; auto]. unfold perform. rewrite Hp by done. by apply triple_effect. }
    intros _. assert (Hsame : ∀ s f half, (∀ w, running (f w) = running w) → (∀ w, running (half w) = running w) → triple A (perform s f half) (λ _, A) (λ _, True)).
    { intros s f half H1 H2. unfold A. apply t_perform; try done; intros w' H _; by rewrite ?H1, ?H2. }
    eapply (triple_bind _ _ _ (λ _, A)); [by apply t_put|]. intros _. eapply (triple_bind _ _ _ (λ _, A)); [by apply Hsame|].
    intros []; [|by apply triple_ret]. cbn [negb]. destruct (enabled F); [|by apply triple_ret].
    assert (Hm : ∀ s b get put, triple A (mirror s b get put) (λ _, A) (λ _, True)).
    { intros s b get put. unfold mirror. eapply triple_bind; [by apply triple_pure_step with (Q := λ _, A)|]. intros []; [by apply Hsame|by apply triple_ret]. }
    eapply (triple_bind _ _ _ (λ _, A)).
    { unfold Upload. eapply triple_conseq; [apply triple_all_steps with (I := A) (F := A)|done|by intros []|done]. intros c Hc. eapply (triple_conseq _ A) with (Q' := λ _, A); [|done|by intros []|done]. assert (Ht : c = uploadRootfsTar → triple A c (λ _, A) (λ _, True)); [intros ->|
        do 6 (apply elem_of_cons in Hc as [->|Hc]; [first [apply Hm|by apply Ht]|]); by apply not_elem_of_nil in Hc].
      unfold uploadRootfsTar. eapply triple_bind; [by apply triple_pure_step with (Q := λ _, A)|]. intros []; [|by apply triple_ret]. cbn [negb].
      eapply (triple_bind _ _ _ (λ _, A)); [by apply Hsame|]. intros []; [|by apply triple_ret].
      eapply (triple_bind _ _ _ (λ _, A)); [by apply Hsame|]. intros []; [|by apply triple_ret]. by apply Hsame. }
    intros up. eapply (triple_bind _ _ _ (λ _, A)); [|by intros _; apply triple_ret]. destruct up; [by apply triple_ret|by apply Hsame]. }
  intros E. specialize (H n w I). destruct (Snapshot n w) as [[[a' m']|] w']; simpl in *; [|done]. injection E as -> ->. exact H.
Qed.
End taking.

(** ** Which snapshots are collected *)

Record SnapshotRow := mkRow { sr_id : string; sr_sandbox : string; sr_created : Z }.
#[export] Instance SnapshotRow_eq_dec : EqDecision SnapshotRow.
Proof. solve_decision. Defined.

Section collection.
Context (sandboxes : gset string).
Definition SnapshotsForSandbox (id : string) (rows : list SnapshotRow) : list SnapshotRow := filter (λ r, sr_sandbox r = id) rows.
(** An orphan of whatever age if there is no cutoff; seconds since the epoch. *)
Definition expired (olderThanEpoch : Z) (r : SnapshotRow) : Prop :=
  (sr_sandbox r ∉ sandboxes) ∧ (0 < olderThanEpoch → sr_created r = 0 ∨ sr_created r < olderThanEpoch).
#[export] Instance expired_dec c r : Decision (expired c r).
Proof. unfold expired. apply _. Defined.
(** [rows]: in the order in which the query finds them. *)
Definition ExpiredOrphanSnapshots (olderThanEpoch limit : Z) (rows : list SnapshotRow) : list SnapshotRow :=
  take (Z.to_nat (if limit <=? 0 then 500 else limit)) (filter (expired olderThanEpoch) rows).

(** The rows after purges, of which [purge] says whether they deleted the row. *)
Definition purged (purge : SnapshotRow → bool) (which rows : list SnapshotRow) : list SnapshotRow :=
  filter (λ r, sr_id r ∉ (sr_id <$> filter (λ r, purge r = true) which)) rows.
Definition cascadeDeleteSnapshots (purge : SnapshotRow → bool) (id : string) (rows : list SnapshotRow) : list SnapshotRow :=
  purged purge (SnapshotsForSandbox id rows) rows.
Definition perTick : Z := 100.
Definition cutoff (now grace : Z) : Z := if 0 <? grace then (now - grace) / 10 ^ 9 else 0.
Definition reapExpiredOrphanSnapshots (purge : SnapshotRow → bool) (now grace limit : Z) (rows : list SnapshotRow) : list SnapshotRow :=
  purged purge (ExpiredOrphanSnapshots (cutoff now grace) limit rows) rows.

Lemma same_row rows r r' : NoDup (sr_id <$> rows) → r ∈ rows → r' ∈ rows → sr_id r = sr_id r' → r = r'.
Proof.
  intros Hn Hr Hr' E. apply list_elem_of_lookup in Hr as [i Hi]. apply list_elem_of_lookup in Hr' as [j Hj].
  assert (i = j) as ->; [|congruence]. eapply NoDup_lookup; [exact Hn| |]; rewrite list_lookup_fmap; [by rewrite Hi|by rewrite Hj; simpl; rewrite E].
Qed.
(** A snapshot stays while its sandbox has a row, and until it is old enough. *)
Lemma reaper_spares purge now grace limit rows r :
  NoDup (sr_id <$> rows) → r ∈ rows → ¬ expired (cutoff now grace) r → r ∈ reapExpiredOrphanSnapshots purge now grace limit rows.
Proof.
  intros Hn Hr He. apply list_elem_of_filter. split; [|done]. intros Hin. apply list_elem_of_fmap in Hin as (r' & E & H).
  apply list_elem_of_filter in H as [_ H]. apply elem_of_take in H as (i & H%list_elem_of_lookup_2 & _). apply list_elem_of_filter in H as [He' Hr'].
  apply He. by rewrite (same_row rows r r').
Qed.

(** A tick drops the first expired rows, if they can be deleted. *)
Lemma expired_after c limit rows : NoDup (sr_id <$> rows) →
  filter (expired c) (purged (λ _, true) (ExpiredOrphanSnapshots c limit rows) rows) =
    drop (Z.to_nat (if limit <=? 0 then 500 else limit)) (filter (expired c) rows).
Proof.
  intros Hn. unfold purged, ExpiredOrphanSnapshots. set (n := Z.to_nat _). set (E := filter (expired c) rows).
  rewrite (filter_id (λ r, true = true)) by (by apply Forall_true).
  rewrite list_filter_filter. rewrite (filter_ext_in _ (λ r, (sr_id r ∉ (sr_id <$> take n E)) ∧ expired c r) rows) by (by intros; rewrite (and_comm (expired c _))).
  rewrite <- list_filter_filter. fold E. assert (HE : NoDup (sr_id <$> E)).
  { unfold E. clear E. induction rows as [|r rows IH]; [done|]. rewrite fmap_cons, NoDup_cons in Hn. destruct Hn as [H1 H2].
    rewrite filter_cons. case_decide; [|by apply IH]. rewrite fmap_cons, NoDup_cons. split; [|by apply IH].
    intros (r' & Hr & [_ Hin]%list_elem_of_filter)%list_elem_of_fmap. apply H1. rewrite Hr. by apply list_elem_of_fmap_2. }
  clearbody E n. clear Hn rows.
  transitivity (filter (λ r, sr_id r ∉ (sr_id <$> take n E)) (take n E ++ drop n E)); [by rewrite take_drop|]. rewrite filter_app.
  rewrite <- (take_drop n E) in HE. rewrite fmap_app, NoDup_app in HE. destruct HE as (_ & HE & _).
  rewrite filter_none, filter_id; [done| |].
  - apply Forall_forall. intros r Hr Hin. apply (HE _ Hin). by apply list_elem_of_fmap_2.
  - apply Forall_forall. intros r Hr Hin. apply Hin. by apply list_elem_of_fmap_2.
Qed.
Lemma purged_nodup purge which rows : NoDup (sr_id <$> rows) → NoDup (sr_id <$> purged purge which rows).
Proof.
  intros H. unfold purged. generalize (sr_id <$> filter (λ r, purge r = true) which). intros X. induction rows as [|r rows IH]; [done|].
  rewrite fmap_cons, NoDup_cons in H. destruct H as [H1 H2]. rewrite filter_cons. case_decide; [|by apply IH]. rewrite fmap_cons, NoDup_cons.
  split; [|by apply IH]. intros (r' & Hr & [_ Hin]%list_elem_of_filter)%list_elem_of_fmap. apply H1. rewrite Hr. by apply list_elem_of_fmap_2.
Qed.
(** A backlog of any length is gone after so many ticks of a hundred. *)
Lemma reaper_drains c k rows : NoDup (sr_id <$> rows) → (length (filter (expired c) rows) ≤ k * Z.to_nat perTick)%nat →
  filter (expired c) (Nat.iter k (λ rows, purged (λ _, true) (ExpiredOrphanSnapshots c perTick rows) rows) rows) = [].
Proof.
  revert rows. induction k as [|k IH]; intros rows Hn Hk; [by apply nil_length_inv; simpl in *; lia|].
  rewrite Nat.iter_succ_r. apply IH; [by apply purged_nodup|]. rewrite expired_after, length_drop by done.
  change (if perTick <=? 0 then 500 else perTick) with perTick. lia.
Qed.
End collection.

(** ** Examples *)

(** Calls that answer as they should. *)
Definition honest (captured : bool) (B : dir) (c : call) (d : dir) : answer c * dir :=
  match c with
  | StatMem => (mem d, d) | StatState => (state d, d) | StatMeta => (meta d, d) | StatDisk => (disk d, d)
  | ReadMeta => (if meta d then Meta captured else NoFile, d)
  | FetchMemState => if mem B && state B then (true, set_images true true d) else (false, d)
  | FetchMeta => if meta B then (true, set_meta d) else (false, d)
  | FetchHuge => if huge B then (true, set_huge d) else (false, d)
  | FetchHeader => if header B then (true, set_header d) else (false, d)
  | ProbeTar | FetchTar => (disk B, d)
  | RenameIn | RenameTmp => (true, set_disk d)
  | LockDownload | MkDir | MkStage | Untar | StatExtracted | CopyTmp => (true, d)
  end.
Fixpoint play (captured : bool) (B : dir) (n : nat) (p : thread) (d : dir) (h : list (event answer)) : thread * dir * list (event answer) :=
  match n, p with
  | S n, Do c k => play captured B n (k (honest captured B c d).1) (honest captured B c d).2 (did c (honest captured B c d).1 :: h)
  | _, _ => (p, d, h)
  end.

Definition w_bucket : dir := mkDir true true true true true true.
(** A mirror that was killed before meta.json is not taken as unpublished: with calls
    that all answer as they should, the memory is restored over a template's disk. *)
Lemma half_published_is_restored :
  (play true (mkDir true true false false false false) 40 (restore true true) nothing []).1 = (Ret OverTemplate, mkDir true true false false false false).
Proof. vm_compute. reflexivity. Qed.
(** A meta.json that cannot be read promises nothing: with it and without the disk on
    the host, the memory is restored over a template's disk. *)
Lemma unreadable_meta_is_no_promise :
  ∃ h, rtc (step true w_bucket) (mkDir true true true false true true, []) (mkDir true true true false true true, [(Ret OverTemplate, h)]).
Proof.
  set (d := mkDir true true true false true true).
  assert (Hgo : ∀ c k a h, sem true w_bucket c d a d → step true w_bucket (d, [(Do c k, h)]) (d, [(k a, did c a :: h)])).
  { intros c k a h Hc. exact (step_call true w_bucket d [(Do c k, h)] 0 c k h a d eq_refl Hc). }
  eexists. eapply rtc_l; [exact (step_create true w_bucket d [] true true)|]. simpl.
  eapply rtc_l; [by apply (Hgo StatState _ true)|]. eapply rtc_l; [by apply (Hgo StatMeta _ true)|]. simpl.
  eapply rtc_l; [apply (Hgo ReadMeta _ Unreadable); by split; [right|]|]. simpl.
  eapply rtc_l; [by apply (Hgo StatDisk _ false)|]. simpl.
  eapply rtc_l; [apply (Hgo ReadMeta _ Unreadable); by split; [right|]|]. apply rtc_refl.
Qed.
(** The mark of huge pages, lost by a kill or a failed fetch once meta.json is here, is
    not asked for again. *)
Lemma marker_is_lost_for_good :
  (play true w_bucket 40 (restore true true) (mkDir true true true true false true) []).1 = (Ret OwnDisk, mkDir true true true true false true).
Proof. vm_compute. reflexivity. Qed.

Definition w_facts : facts := mkFacts true true false true 1000.
Definition w_keep : dir := mkDir true true false false false false.
Definition w_new : world := mkWorld no_files no_files no_files None true.
Definition but (s : site) (x : outcome3) (t : site) : outcome3 :=
  match s, t with
  | CopyDisk, CopyDisk | Insert, Insert | PutTar, PutTar | RmBucket, RmBucket => x
  | _, _ => Done
  end.
Lemma snapshot_published :
  (Snapshot (λ _, Done) w_keep w_facts 100%nat w_new).2 =
    mkWorld (mkFiles Whole Whole Whole Whole Whole Whole) (mkFiles Whole Whole Whole Whole Whole Whole) no_files (Some 1000) true.
Proof. vm_compute. reflexivity. Qed.
Lemma snapshot_is_published_whole_witness :
  kept w_facts (Snapshot (but PutTar Half) w_keep w_facts 100%nat w_new).2 ∧ (Snapshot (but PutTar Half) w_keep w_facts 100%nat w_new).2 ≠ w_new.
Proof. split; [apply (snapshot_is_published_whole (but PutTar Half) w_keep w_facts 100%nat w_new); [done|by split]|by vm_compute]. Defined.
(** Killed after the images, before meta.json: the state of the bucket from which
    [half_published_is_restored] starts. *)
Lemma killed_mirror :
  ∃ n, there (Snapshot (λ _, Done) w_keep (mkFacts true false false true 1000) n w_new).2 = mkFiles Whole Whole Absent Absent Absent Absent ∧
    row (Snapshot (λ _, Done) w_keep (mkFacts true false false true 1000) n w_new).2 = Some 1000.
Proof. exists 12%nat. vm_compute. done. Qed.
(** A snapshot that fails leaves a paused sandbox running, since it is frozen again only
    after a success; and, from the insertion of its row on, its files without a row. *)
Lemma failed_snapshot_thaws :
  let r := Snapshot (but CopyDisk Fails) w_keep (mkFacts true false true true 1000) 100%nat (mkWorld no_files no_files no_files None false) in
  fst <$> r.1 = Some false ∧ running r.2 = true.
Proof. vm_compute. done. Qed.
Lemma failed_snapshot_leaves_files :
  let r := Snapshot (but Insert Fails) w_keep w_facts 100%nat w_new in
  fst <$> r.1 = Some false ∧ row r.2 = None ∧ complete w_facts (here r.2).
Proof. vm_compute. done. Qed.
(** The row is dropped over bytes: of a bucket that cannot be cleared, and of every
    host but the one that purges. *)
Lemma purge_drops_the_row_over_bytes :
  let full := mkFiles Whole Whole Whole Whole Whole Whole in
  let w := (purgeSnapshot (but RmBucket Fails) w_keep w_facts 100%nat (mkWorld full full full (Some 1000) true)).2 in
  row w = None ∧ there w = full ∧ elsewhere w = full.
Proof. vm_compute. done. Qed.
(** The grace runs from the creation of the snapshot, not from the end of its sandbox:
    one that is older is purged at the first tick after the sandbox is gone. *)
Lemma old_snapshot_has_no_grace (r : SnapshotRow) (sandboxes : gset string) now grace :
  sr_sandbox r ∉ sandboxes → sr_created r < cutoff now grace → expired sandboxes (cutoff now grace) r.
Proof. intros H1 H2. split; [done|]. intros _. by right. Qed.
