(* ===== verification/ForkTree.v ===== *)
(** Fork trees (agent/internal/sandbox/forktree.go and their routes in
    api/fork_hibernate.go): one snapshot of a sandbox, children restored from it at
    once, and the promotion of one of them, which deletes its siblings.  The sandboxes
    table is a map from ids to metadata. *)

From S2P Require Import Prelude.
From stdpp Require Import strings pretty.

#[local] Set Warnings "-clear-no-such-hyp".

Open Scope string_scope.
Open Scope list_scope.
Open Scope Z_scope.

Definition MetaForkTreeID : string := "fork_tree_id".
Definition MetaForkTreeRole : string := "fork_tree_role".
Definition MetaForkParentID : string := "fork_parent_id".
Definition maxTreeChildren : Z := 16.
Abbreviation metadata := (gmap string string).
(** [None]: metadata that is not a map, which only some stores return. *)
Abbreviation table := (gmap string (option metadata)).

Definition isReservedMeta (k : string) : bool := bool_decide (k ∈ ["workspace"; "kind"; "app.id"]).

(** The metadata of a child: the platform's, the caller's over it, and the workspace. *)
Definition child_meta (treeID parentID workspace : string) (extra : metadata) (i : nat) : metadata :=
  let md : metadata := {[MetaForkTreeID := treeID; MetaForkTreeRole := "child"; MetaForkParentID := parentID; "fork_index" := pretty i]} in
  let md := filter (λ kv, isReservedMeta kv.1 = false) extra ∪ md in
  if String.eqb workspace "" then md else <["workspace" := workspace]> md.

(** How the create of a child ends: up, or failed, with its row left as failed or not. *)
Inductive created := Up (id : string) | FailedRow (id : string) | FailedClean.
Definition row_of (c : created) : option string := match c with Up id | FailedRow id => Some id | FailedClean => None end.
Inductive fork_err := TooMany | NoParent | NoSnapshot.
(** What the parent is: its driver, its metadata, whether the snapshot succeeds. *)
Record parent := mkParent { p_id : string; p_driver : bool; p_meta : option metadata; p_snapshot : bool }.

(** The children in the [order] in which they end, each with the outcome of its
    create: the ids of those that are up, the indices of those that failed. *)
Fixpoint spawn (md : nat → metadata) (create : nat → created) (order : list nat) (T : table) : list string * list nat * table :=
  match order with
  | [] => ([], [], T)
  | i :: order =>
      let '(kids, errs, T) := spawn md create order (match row_of (create i) with Some id => <[id := Some (md i)]> T | None => T end) in
      match create i with Up id => (id :: kids, errs, T) | _ => (kids, i :: errs, T) end
  end.
Definition ForkTree (p : parent) (count : Z) (extra : metadata) (treeID : string) (create : nat → created) (order : list nat) (T : table)
  : res fork_err (list string * list nat) * table :=
  let count := if count <=? 0 then 1 else count in
  if maxTreeChildren <? count then (Err TooMany, T)
  else if negb (p_driver p) then (Err NoParent, T)
  else if negb (p_snapshot p) then (Err NoSnapshot, T)
  else
    let workspace := default "" (md ← p_meta p; md !! "workspace") in
    let '(kids, errs, T) := spawn (child_meta treeID (p_id p) workspace extra) create order T in (Ok (kids, errs), T).

(** The rows in the order of the query; [del]: whether the deletion of an id succeeds. *)
Fixpoint promote_rows (del : string → bool) (treeID winner : string) (rows : list (string * option metadata)) (T : table)
  : list string * list string * table :=
  match rows with
  | [] => ([], [], T)
  | (id, md) :: rows =>
      let sibling := match md with Some md => String.eqb (default "" (md !! MetaForkTreeID)) treeID | None => false end in
      if negb sibling || String.eqb id "" || String.eqb id winner then promote_rows del treeID winner rows T
      else if del id then
        let '(deleted, failures, T) := promote_rows del treeID winner rows (delete id T) in (id :: deleted, failures, T)
      else
        let '(deleted, failures, T) := promote_rows del treeID winner rows T in (deleted, id :: failures, T)
  end.
Definition PromoteTreeWinner (del : string → bool) (listed : bool) (treeID winner : string) (T : table)
  : option (list string * list string) * table :=
  if String.eqb treeID "" || String.eqb winner "" then (None, T)
  else if negb listed then (None, T)
  else let '(deleted, failures, T) := promote_rows del treeID winner (map_to_list T) T in (Some (deleted, failures), T).
(** POST /sandboxes/{id}/promote *)
Definition promote (del : string → bool) (listed cleanup : bool) (treeID winner : string) (T : table) : option (list string * list string) * table :=
  if negb cleanup then (Some ([], []), T) else PromoteTreeWinner del listed treeID winner T.
(** POST /sandboxes/{id}/fork-tree *)
Definition fork_tree (p : parent) (count : Z) := ForkTree p (if count =? 0 then 2 else count).

(** ** The children *)

Definition reserved_free (md : metadata) : Prop := md !! "kind" = None ∧ md !! "app.id" = None.
Lemma child_workspace treeID parentID workspace extra i :
  child_meta treeID parentID workspace extra i !! "workspace" = (if String.eqb workspace "" then None else Some workspace) ∧
  reserved_free (child_meta treeID parentID workspace extra i).
Proof.
  unfold reserved_free, child_meta.
  assert (H : ∀ k, isReservedMeta k = true → (filter (λ kv : string * string, isReservedMeta kv.1 = false) extra ∪
     {[MetaForkTreeID := treeID; MetaForkTreeRole := "child"; MetaForkParentID := parentID; "fork_index" := pretty i]} : metadata) !! k = None).
  { intros k Hk. apply lookup_union_None. split; [apply map_lookup_filter_None; right; intros v _; simpl; congruence|].
    unfold isReservedMeta in Hk. apply bool_decide_eq_true in Hk. repeat (apply elem_of_cons in Hk as [->|Hk]; [done|]). by apply not_elem_of_nil in Hk. }
  destruct (String.eqb workspace ""); [by split_and!; apply H|]. split; [by rewrite lookup_insert_eq|].
  split; (rewrite lookup_insert_ne by done; by apply H).
Qed.
Lemma child_tree treeID parentID workspace extra i :
  extra !! MetaForkTreeID = None → child_meta treeID parentID workspace extra i !! MetaForkTreeID = Some treeID.
Proof.
  intros He. unfold child_meta. assert (H : (filter (λ kv : string * string, isReservedMeta kv.1 = false) extra ∪
     {[MetaForkTreeID := treeID; MetaForkTreeRole := "child"; MetaForkParentID := parentID; "fork_index" := pretty i]} : metadata) !! MetaForkTreeID = Some treeID).
  { rewrite lookup_union_r; [apply lookup_insert_eq|]. apply map_lookup_filter_None. by left. }
  destruct (String.eqb workspace ""); [done|]. by rewrite lookup_insert_ne.
Qed.

(** The rows that a fork added. *)
Lemma spawn_spec md create order T :
  let '(kids, errs, T') := spawn md create order T in
  (∀ id, id ∈ kids ↔ ∃ i, i ∈ order ∧ create i = Up id) ∧ (∀ i, i ∈ errs ↔ i ∈ order ∧ ∀ id, create i ≠ Up id) ∧
  (length kids + length errs = length order)%nat ∧
  (∀ id, (∃ i, i ∈ order ∧ row_of (create i) = Some id) → ∃ i, i ∈ order ∧ row_of (create i) = Some id ∧ T' !! id = Some (Some (md i))) ∧
  (∀ id, (∀ i, i ∈ order → row_of (create i) ≠ Some id) → T' !! id = T !! id).
Proof.
  revert T. induction order as [|i order IH]; intros T; simpl.
  { split_and!; try done; try set_solver. }
  set (T1 := match row_of (create i) with Some id => _ | None => T end). specialize (IH T1).
  destruct (spawn md create order T1) as [[kids errs] T'].
  destruct IH as (H1 & H2 & H3 & H4 & H5).
  assert (HT : (∀ id, (∃ j, j ∈ i :: order ∧ row_of (create j) = Some id) → ∃ j, j ∈ i :: order ∧ row_of (create j) = Some id ∧ T' !! id = Some (Some (md j))) ∧
    (∀ id, (∀ j, j ∈ i :: order → row_of (create j) ≠ Some id) → T' !! id = T !! id)).
  { split.
    - intros id Hid. destruct (decide (Exists (λ j, row_of (create j) = Some id) order)) as [E|E].
      + apply Exists_exists in E. destruct (H4 id E) as (j & Hj & Hr & Hl). exists j. split; [by right|done].
      + assert (Hno : ∀ j, j ∈ order → row_of (create j) ≠ Some id) by (intros j Hj Hr; apply E, Exists_exists; eauto).
        destruct Hid as (j & [->|Hj]%elem_of_cons & Hr); [|by destruct (Hno j)]. exists i. split; [by left|]. split; [done|].
        rewrite H5 by done. unfold T1. rewrite Hr. apply lookup_insert_eq.
    - intros id Hid. rewrite H5 by (intros j Hj; apply Hid; by right). unfold T1. specialize (Hid i ltac:(by left)).
      destruct (row_of (create i)) as [id'|]; [|done]. apply lookup_insert_ne. congruence. }
  destruct HT as [HT1 HT2].
  assert (Hk : ∀ id', (∃ j, j ∈ i :: order ∧ create j = Up id') ↔ create i = Up id' ∨ id' ∈ kids).
  { intros id'. rewrite H1. split.
    - intros (j & [->|Hj]%elem_of_cons & E); [by left|]. right. by exists j.
    - intros [E|(j & Hj & E)]; [exists i|exists j]; (split; [|done]); [by left|by right]. }
  assert (He : (∀ id, create i ≠ Up id) → ∀ j, j ∈ i :: errs ↔ j ∈ i :: order ∧ ∀ id, create j ≠ Up id).
  { intros Hi j. rewrite !elem_of_cons, H2. split; [intros [->|[Hj E]]; auto|]. intros [[->|Hj] E]; auto. }
  destruct (create i) as [id|id|] eqn:Ec; simpl.
  - split_and!; [| |simpl; lia|done|done].
    + intros id'. rewrite Hk, elem_of_cons. naive_solver.
    + intros j. rewrite H2, elem_of_cons. split; [by intros [? ?]; auto|]. intros [[->|Hj] E]; [by destruct (E id)|done].
  - split_and!; [|by apply He|simpl; lia|done|done]. intros id'. rewrite Hk. naive_solver.
  - split_and!; [|by apply He|simpl; lia|done|done]. intros id'. rewrite Hk. naive_solver.
Qed.

(** ** The promotion *)

Definition is_sibling (treeID winner id : string) (md : option metadata) : Prop :=
  (∃ m, md = Some m ∧ m !! MetaForkTreeID = Some treeID) ∧ id ≠ "" ∧ id ≠ winner.
Lemma promote_rows_spec del treeID winner rows T : treeID ≠ "" →
  let '(deleted, failures, T') := promote_rows del treeID winner rows T in
  (∀ id, id ∈ deleted ↔ del id = true ∧ ∃ md, (id, md) ∈ rows ∧ is_sibling treeID winner id md) ∧
  (∀ id, id ∈ failures ↔ del id = false ∧ ∃ md, (id, md) ∈ rows ∧ is_sibling treeID winner id md) ∧
  (∀ id, T' !! id = if decide (id ∈ deleted) then None else T !! id).
Proof.
  intros Ht. revert T. induction rows as [|[i md] rows IH]; intros T; simpl; [split_and!; set_solver|].
  set (sibling := match md with Some md => String.eqb (default "" (md !! MetaForkTreeID)) treeID | None => false end).
  assert (Hs : is_sibling treeID winner i md ↔ negb sibling || String.eqb i "" || String.eqb i winner = false).
  { unfold is_sibling, sibling. destruct (String.eqb_spec i ""), (String.eqb_spec i winner); rewrite ?orb_true_r, ?orb_false_r; simpl;
      try (split; [by intros (_ & ? & ?)|done]).
    destruct md as [m|]; [|split; [by intros ((m & ? & _) & _)|done]]. destruct (String.eqb_spec (default "" (m !! MetaForkTreeID)) treeID) as [E|E]; simpl.
    - split; [done|]. intros _. split; [|done]. exists m. split; [done|]. destruct (m !! MetaForkTreeID); simpl in E; congruence.
    - split; [|done]. intros ((m' & [= <-] & Hm) & _). rewrite Hm in E. done. }
  assert (Hin : ∀ id (Q : Prop), (∃ md', (id, md') ∈ (i, md) :: rows ∧ is_sibling treeID winner id md') ↔
    (id = i ∧ is_sibling treeID winner i md) ∨ ∃ md', (id, md') ∈ rows ∧ is_sibling treeID winner id md').
  { intros id _. split.
    - intros (md' & [[= -> ->]|H]%elem_of_cons & H'); [by left|]. right. by exists md'.
    - intros [[-> H]|(md' & H & H')]; [exists md|exists md']; (split; [|done]); [by left|by right]. }
  destruct (negb sibling || String.eqb i "" || String.eqb i winner) eqn:E.
  { specialize (IH T). destruct (promote_rows del treeID winner rows T) as [[deleted failures] T']. destruct IH as (H1 & H2 & H3).
    assert (¬ is_sibling treeID winner i md) by (rewrite Hs; done).
    split_and!; [| |done]; intros id; rewrite ?H1, ?H2, Hin by exact True; tauto. }
  assert (Hsib : is_sibling treeID winner i md) by by apply Hs. destruct (del i) eqn:Ed.
  - specialize (IH (delete i T)). destruct (promote_rows del treeID winner rows (delete i T)) as [[deleted failures] T']. destruct IH as (H1 & H2 & H3).
    split_and!; intros id.
    + rewrite elem_of_cons, H1, Hin by exact True. split; [intros [->|H]; tauto|]. tauto.
    + rewrite H2, Hin by exact True. split; [tauto|]. intros (Hd & [[-> _]|H]); [congruence|tauto].
    + rewrite H3. destruct (decide (id = i)) as [->|].
      * rewrite lookup_delete_eq. rewrite (decide_True (P := i ∈ i :: deleted)) by (by left). by case_decide.
      * rewrite lookup_delete_ne by done. repeat case_decide; try done; set_solver.
  - specialize (IH T). destruct (promote_rows del treeID winner rows T) as [[deleted failures] T']. destruct IH as (H1 & H2 & H3).
    split_and!; [| |done]; intros id.
    + rewrite H1, Hin by exact True. split; [tauto|]. intros (Hd & [[-> _]|H]); [congruence|tauto].
    + rewrite elem_of_cons, H2, Hin by exact True. split; [intros [->|H]; tauto|]. tauto.
Qed.

(** After a fork-tree, and whatever its creates did, promoting a child deletes
    exactly the rows of the other creates, also the failed ones that left a row, as far
    as their deletion succeeds: the table is as it was before the fork, with the winner,
    and the siblings that could not be deleted, which are named. *)
Theorem promotion_leaves_the_winner p count extra treeID create order T kids errs T1 del winner :
  fork_tree p count extra treeID create order T = (Ok (kids, errs), T1) →
  treeID ≠ "" → extra !! MetaForkTreeID = None →
  (∀ id md, T !! id = Some (Some md) → md !! MetaForkTreeID ≠ Some treeID) →
  (∀ i id, i ∈ order → row_of (create i) = Some id → T !! id = None ∧ id ≠ "") →
  winner ∈ kids →
  ∃ deleted failures T2, promote del true true treeID winner T1 = (Some (deleted, failures), T2) ∧
    (∀ id, id ∈ deleted ↔ del id = true ∧ id ≠ winner ∧ ∃ i, i ∈ order ∧ row_of (create i) = Some id) ∧
    (∀ id, id ∈ failures ↔ del id = false ∧ id ≠ winner ∧ ∃ i, i ∈ order ∧ row_of (create i) = Some id) ∧
    is_Some (T2 !! winner) ∧ ∀ id, T2 !! id = if decide (id = winner ∨ id ∈ failures) then T1 !! id else T !! id.
Proof.
  intros Hf Ht He Hfresh Hids Hw. unfold fork_tree, ForkTree in Hf. destruct (maxTreeChildren <? _); [done|]. destruct (p_driver p); [|done].
  destruct (p_snapshot p); [|done]. cbn [negb] in Hf. set (md := child_meta _ _ _ _) in Hf.
  pose proof (spawn_spec md create order T) as Hsp. destruct (spawn md create order T) as [[kids' errs'] T'] eqn:Es. injection Hf as -> -> ->.
  destruct Hsp as (H1 & H2 & _ & H4 & H5).
  assert (Hmd : ∀ i, md i !! MetaForkTreeID = Some treeID) by (intros i; by apply child_tree).
  assert (Hwi : ∃ i, i ∈ order ∧ row_of (create i) = Some winner) by (apply H1 in Hw as (i & Hi & E); exists i; by rewrite E).
  assert (Hsib : ∀ id, (∃ m, (id, m) ∈ map_to_list T1 ∧ is_sibling treeID winner id m) ↔ id ≠ winner ∧ ∃ i, i ∈ order ∧ row_of (create i) = Some id).
  { intros id. split.
    - intros (m & Hm%elem_of_map_to_list & (m' & -> & Hm') & _ & Hne). split; [done|].
      destruct (decide (Exists (λ j, row_of (create j) = Some id) order)) as [E|E]; [by apply Exists_exists in E|].
      rewrite H5 in Hm by (intros j Hj Hr; apply E, Exists_exists; eauto). by destruct (Hfresh id m' Hm).
    - intros [Hne Hi]. destruct (H4 id Hi) as (i & Hio & Hr & Hl). exists (Some (md i)). split; [by apply elem_of_map_to_list|].
      split; [by exists (md i)|]. split; [|done]. by apply (Hids i id). }
  unfold promote, PromoteTreeWinner. destruct (String.eqb_spec treeID ""); [done|]. cbn [negb orb].
  destruct (String.eqb_spec winner "") as [->|_].
  { destruct Hwi as (i & Hi & Hr). by destruct (Hids i "" Hi Hr). }
  pose proof (promote_rows_spec del treeID winner (map_to_list T1) T1 Ht) as Hp.
  destruct (promote_rows _ _ _ _ _) as [[deleted failures] T2]. destruct Hp as (P1 & P2 & P3).
  exists deleted, failures, T2. split; [done|]. split; [intros id; by rewrite P1, Hsib|]. split; [intros id; by rewrite P2, Hsib|].
  assert (Hnd : ∀ id, id ∈ deleted → id ≠ winner ∧ (id ∉ failures) ∧ T !! id = None).
  { intros id Hid. pose proof (proj1 (P1 id) Hid) as [Hd Hx%Hsib]. split; [apply Hx|]. split.
    - intros [Hd' _]%P2. congruence.
    - destruct Hx as (_ & i & Hi & Hr). by apply (Hids i id). }
  split.
  - rewrite P3. case_decide as E; [by destruct (Hnd _ E)|]. destruct (H4 winner Hwi) as (i & _ & _ & ->). done.
  - intros id. rewrite P3. destruct (decide (id ∈ deleted)) as [E|E].
    + destruct (Hnd _ E) as (N1 & N2 & ->). rewrite decide_False; [done|]. by intros [?|?].
    + destruct (decide (id = winner ∨ id ∈ failures)) as [|N]; [done|]. apply H5. intros i Hi Hr.
      assert (Hc : id ≠ winner ∧ ∃ i, i ∈ order ∧ row_of (create i) = Some id) by (split; [tauto|by exists i]).
      destruct (del id) eqn:Ed; [apply E, P1; split; [done|by apply Hsib]|apply N; right; apply P2; split; [done|by apply Hsib]].
Qed.

(** ** Examples *)

Definition w_parent : parent := mkParent "p" true (Some {["workspace" := "acme"; "kind" := "db"]}) true.
Definition w_table : table := {["p" := p_meta w_parent; "q" := Some {["workspace" := "other"; MetaForkTreeID := "t0"]}]}.
Definition w_create (i : nat) : created := match i with O => Up "a" | S O => FailedRow "b" | _ => Up "c" end.
Definition w_extra : metadata := {["workspace" := "other"; "color" := "red"]}.
Definition w_forked : table := (fork_tree w_parent 3 w_extra "t1" w_create [2; 0; 1]%nat w_table).2.
Lemma w_fork : fork_tree w_parent 3 w_extra "t1" w_create [2; 0; 1]%nat w_table = (Ok (["c"; "a"], [1%nat]), w_forked).
Proof. vm_compute. reflexivity. Qed.
Lemma promotion_leaves_the_winner_witness :
  ∃ deleted failures T2, promote (λ _, true) true true "t1" "a" w_forked = (Some (deleted, failures), T2) ∧
    is_Some (T2 !! "a") ∧ ∀ id, T2 !! id = if decide (id = "a" ∨ id ∈ failures) then w_forked !! id else w_table !! id.
Proof.
  destruct (promotion_leaves_the_winner w_parent 3 w_extra "t1" w_create [2; 0; 1]%nat w_table _ _ _ (λ _, true) "a" w_fork) as (d & f & T2 & E & _ & _ & Hs & Ht).
  - done.
  - reflexivity.
  - intros id md H. unfold w_table in H. destruct (decide (id = "p")) as [->|]; [vm_compute in H; injection H as <-; vm_compute; discriminate|].
    rewrite lookup_insert_ne in H by congruence. destruct (decide (id = "q")) as [->|]; [vm_compute in H; injection H as <-; vm_compute; discriminate|].
    by rewrite lookup_singleton_ne in H by congruence.
  - intros i id _. destruct i as [|[|i]]; intros [= <-]; (split; [vm_compute; reflexivity|discriminate]).
  - right. left.
  - exists d, f, T2. split; [exact E|]. split; [exact Hs|exact Ht].
Defined.

(** Promotion looks at the tree's id alone: it deletes sandboxes of another workspace,
    and the winner need not be of the tree. *)
Lemma promotion_crosses_workspaces :
  let '(answer, T) := promote (λ _, true) true true "t0" "p" w_table in
  answer = Some (["q"], []) ∧ T !! "q" = None.
Proof. vm_compute. done. Qed.
(** A caller's fork_tree_id replaces the platform's: the tree's id that is answered then
    finds no sibling to delete. *)
Lemma tree_id_can_be_replaced :
  let T := (fork_tree w_parent 2 {[MetaForkTreeID := "mine"]} "t1" w_create [0; 2]%nat w_table).2 in
  (promote (λ _, true) true true "t1" "a" T).1 = Some ([], []) ∧ is_Some (T !! "c").
Proof. vm_compute. split; [done|by eexists]. Qed.
