(* ===== verification/Resources.v ===== *)
(** A host's resources and its sandboxes: the growth of database volumes
    (agent/internal/sandbox/volume_autogrow.go), the cores that sandboxes are pinned to
    (cpupin.go), and their CPU weights and accounts (cputiers.go). *)

From S2P Require Import Prelude GoStrings GoTime Float64.
From stdpp Require Import strings.

#[local] Set Warnings "-clear-no-such-hyp".

Open Scope string_scope.
Open Scope list_scope.
Open Scope Z_scope.

(** ** Growing a volume *)

Definition GiB : Z := 2 ^ 30.
Definition autoGrowThresholdPct : Z := 80.
Definition autoGrowMinStepBytes : Z := GiB.
Definition autoGrowMaxBytes : Z := 100 * GiB.
Definition autoGrowHostReserveBytes : Z := 10 * GiB.
Definition autoGrowCooldown : Z := 180 * Second.

Definition nextVolumeSize (cur : Z) : Z :=
  let next := Z.quot (i64 (cur * 3)) 2 in
  let next := if next <? i64 (cur + autoGrowMinStepBytes) then i64 (cur + autoGrowMinStepBytes) else next in
  let next := Z.ldiff (i64 (i64 (next + GiB) - 1)) (GiB - 1) in
  if autoGrowMaxBytes <? next then autoGrowMaxBytes else next.

(** One row of df: the device, the size and the bytes in use. *)
Definition parseDFLine (s : string) : option (string * Z * Z) :=
  match Fields (TrimSpace s) with
  | [dev; size; used] =>
      let '(size, e1) := ParseInt size in let '(used, e2) := ParseInt used in
      if e1 || e2 then None else Some (dev, size, used)
  | _ => None
  end.
(** [usedPct < autoGrowThresholdPct], in floating point. *)
Definition below_threshold (used size : Z) : bool :=
  f64_ltb (f64_div (f64_mul (f64_of_Z used) (f64_of_Z 100)) (f64_of_Z size)) (f64_of_Z autoGrowThresholdPct).

(** What autoGrowOne meets: the client of the guest; what df prints; the size of the
    image at the stat; the free bytes of the host, if statfs answers; whether each of
    the steps goes through. *)
Record visit := mkVisit {
  v_guest : bool; v_df : option string;
  v_stat : option Z; v_avail : option Z;
  v_truncate : bool; v_driver : bool; v_patch : bool; v_resize : option Z;
}.
(** The size that the image is set to, if it is; and (grew, err).  From the guard of
    the host's space on: *)
Definition grow_to (v : visit) (cur next : Z) : option Z * (bool * bool) :=
  if match v_avail v with Some avail => u64 avail <? u64 (u64 (next - cur) + autoGrowHostReserveBytes) | None => false end
  then (None, (false, true))
  else if negb (v_truncate v) then (None, (false, true))
  else if negb (v_driver v) || negb (v_patch v) then (Some next, (false, true))
  else match v_resize v with Some 0 => (Some next, (true, false)) | _ => (Some next, (false, true)) end.
Definition autoGrowOne (v : visit) : option Z * (bool * bool) :=
  if negb (v_guest v) then (None, (false, true))
  else match v_df v with
  | None => (None, (false, true))
  | Some out =>
      match parseDFLine out with
      | None => (None, (false, false))
      | Some (dev, fsSize, fsUsed) =>
          if fsSize <=? 0 then (None, (false, false))
          else if negb (has_prefix "/dev/vd" dev) || String.eqb dev "/dev/vda" then (None, (false, false))
          else if below_threshold fsUsed fsSize then (None, (false, false))
          else match v_stat v with
          | None => (None, (false, true))
          | Some cur =>
              if autoGrowMaxBytes <=? cur then (None, (false, false))
              else grow_to v cur (nextVolumeSize cur)
          end
      end
  end.

(** One sweep of RunVolumeAutoGrow for one volume, with the time of the last attempt
    ([None]: the zero time).  [looks]: the image is there, at the first and at the last
    stat. *)
Definition sweep (now : Z) (here still : bool) (v : visit) (lastGrow : option Z) : option Z * option Z :=
  let '(size, last) :=
    if negb here then (None, lastGrow)
    else if match lastGrow with Some t => now - t <? autoGrowCooldown | None => false end then (None, lastGrow)
    else let '(size, (grew, err)) := autoGrowOne v in (size, if err || grew then Some now else lastGrow) in
  (size, if still then last else None).

Lemma next_exact cur : 0 ≤ cur < autoGrowMaxBytes →
  nextVolumeSize cur = Z.min autoGrowMaxBytes (((Z.max (cur * 3 / 2) (cur + GiB) + GiB - 1) / GiB) * GiB).
Proof.
  unfold autoGrowMaxBytes, GiB. intros H. unfold nextVolumeSize, autoGrowMinStepBytes, GiB.
  rewrite !(i64_small (cur * 3)), !(i64_small (cur + _)), Z.quot_div_nonneg by lia.
  set (m := if cur * 3 / 2 <? cur + 2 ^ 30 then cur + 2 ^ 30 else cur * 3 / 2).
  assert (Hm : m = Z.max (cur * 3 / 2) (cur + 2 ^ 30)) by (unfold m; destruct (Z.ltb_spec (cur * 3 / 2) (cur + 2 ^ 30)); lia).
  assert (cur * 3 / 2 ≤ 2 * cur) by (apply Z.div_le_upper_bound; lia).
  rewrite <- Hm. assert (0 ≤ m ≤ 2 ^ 40) by (rewrite Hm; lia). clearbody m.
  rewrite (i64_small (m + 2 ^ 30)), (i64_small (m + 2 ^ 30 - 1)) by lia.
  assert (Hl : Z.ldiff (m + 2 ^ 30 - 1) (2 ^ 30 - 1) = (m + 2 ^ 30 - 1) / 2 ^ 30 * 2 ^ 30).
  { change (2 ^ 30 - 1) with (Z.ones 30). rewrite Z.ldiff_ones_r by lia. rewrite Z.shiftl_mul_pow2, Z.shiftr_div_pow2 by lia. done. }
  rewrite Hl. unfold autoGrowMaxBytes, GiB. destruct (Z.ltb_spec (100 * 2 ^ 30) ((m + 2 ^ 30 - 1) / 2 ^ 30 * 2 ^ 30)); lia.
Qed.
(** A step adds at least a gigabyte, or goes to the cap; it ends on a whole gigabyte,
    and at most at twice the size and a bit. *)
Lemma next_bounds cur : 0 ≤ cur < autoGrowMaxBytes →
  cur < nextVolumeSize cur ≤ autoGrowMaxBytes ∧ nextVolumeSize cur mod GiB = 0 ∧
  (nextVolumeSize cur = autoGrowMaxBytes ∨ cur + GiB ≤ nextVolumeSize cur ∧ cur * 3 ≤ 2 * nextVolumeSize cur + 1) ∧
  nextVolumeSize cur < Z.max (cur * 3 / 2) (cur + GiB) + GiB.
Proof.
  intros H. rewrite next_exact by done. set (m := Z.max (cur * 3 / 2) (cur + GiB)). set (q := (m + GiB - 1) / GiB).
  assert (Hq : m ≤ q * GiB < m + GiB).
  { pose proof (Z.div_mod (m + GiB - 1) GiB ltac:(done)) as E. pose proof (Z.mod_pos_bound (m + GiB - 1) GiB ltac:(done)). fold q in E. lia. }
  assert (cur + GiB ≤ m) by (unfold m; lia). assert (cur * 3 / 2 ≤ m) by (unfold m; lia).
  pose proof (Z.div_mod (cur * 3) 2 ltac:(lia)). pose proof (Z.mod_pos_bound (cur * 3) 2 ltac:(lia)).
  assert (0 < GiB) by done. split; [lia|]. split.
  - destruct (Z.le_ge_cases autoGrowMaxBytes (q * GiB)); [rewrite Z.min_l by lia; done|]. rewrite Z.min_r by lia. by apply Z.mod_mul.
  - split; [|unfold autoGrowMaxBytes in *; lia]. destruct (Z.le_ge_cases autoGrowMaxBytes (q * GiB)); [left; lia|right; lia].
Qed.

(** *** A volume over its sweeps *)

Definition with_stat (size : Z) (v : visit) : visit :=
  mkVisit (v_guest v) (v_df v) (Some size) (v_avail v) (v_truncate v) (v_driver v) (v_patch v) (v_resize v).
(** The size of the image, the last attempt, and when it was grown, the last first. *)
Record volume := mkVolume { vo_size : Z; vo_last : option Z; vo_grown : list Z }.
Definition swept (w : volume) (x : Z * visit) : volume :=
  let '(size, last) := sweep x.1 true true (with_stat (vo_size w) x.2) (vo_last w) in
  match size with
  | Some n => mkVolume n last (x.1 :: vo_grown w)
  | None => mkVolume (vo_size w) last (vo_grown w)
  end.

Lemma grow_to_size v cur next n : (grow_to v cur next).1 = Some n →
  n = next ∧ v_truncate v = true ∧ (grow_to v cur next).2.1 || (grow_to v cur next).2.2 = true.
Proof.
  unfold grow_to. destruct (match v_avail v with Some _ => _ | None => _ end); [done|]. destruct (v_truncate v); [|done]. cbn [negb].
  destruct (negb (v_driver v) || negb (v_patch v)); [|destruct (v_resize v) as [[]|]]; by intros [= <-].
Qed.
Lemma grow_size v n : (autoGrowOne v).1 = Some n →
  ∃ cur, v_stat v = Some cur ∧ cur < autoGrowMaxBytes ∧ n = nextVolumeSize cur ∧ v_truncate v = true ∧
    ((autoGrowOne v).2.1 || (autoGrowOne v).2.2 = true) ∧
    ∃ dev size used, (v_df v ≫= parseDFLine) = Some (dev, size, used) ∧ 0 < size ∧ below_threshold used size = false ∧
      has_prefix "/dev/vd" dev = true ∧ dev ≠ "/dev/vda".
Proof.
  unfold autoGrowOne. destruct (v_guest v); [|done]. cbn [negb]. destruct (v_df v) as [out|]; [|done]. simpl mbind.
  destruct (parseDFLine out) as [[[dev size] used]|] eqn:Ed; [|done]. destruct (Z.leb_spec size 0); [done|].
  destruct (has_prefix "/dev/vd" dev) eqn:Ep; [|done]. destruct (String.eqb_spec dev "/dev/vda"); [done|]. cbn [negb orb].
  destruct (below_threshold used size) eqn:Eb; [done|]. destruct (v_stat v) as [cur|]; [|done].
  destruct (Z.leb_spec autoGrowMaxBytes cur); [done|]. intros (H1 & H2 & H3)%grow_to_size.
  exists cur. split; [done|]. split; [done|]. split; [exact H1|]. split; [done|]. split; [exact H3|]. exists dev, size, used. by split_and!.
Qed.

(** The growths are a cooldown apart, and the last attempt is not before them. *)
Fixpoint spaced (ts : list Z) : Prop :=
  match ts with t :: (t' :: _) as ts' => t' + autoGrowCooldown ≤ t ∧ spaced ts' | _ => True end.
Record grown_ok (s0 : Z) (w : volume) : Prop := mkGrown {
  g_size : s0 ≤ vo_size w ≤ autoGrowMaxBytes;
  g_steps : vo_grown w = [] ∧ vo_size w = s0 ∨ vo_size w = autoGrowMaxBytes ∨ s0 + GiB * Z.of_nat (length (vo_grown w)) ≤ vo_size w;
  g_count : s0 + GiB * (Z.of_nat (length (vo_grown w)) - 1) < autoGrowMaxBytes;
  g_spaced : spaced (vo_grown w);
  g_last : match vo_grown w with t :: _ => ∃ l, vo_last w = Some l ∧ t ≤ l | [] => True end;
}.
Lemma swept_ok s0 w x : 0 ≤ s0 → s0 ≤ autoGrowMaxBytes → grown_ok s0 w → grown_ok s0 (swept w x).
Proof.
  intros H0 Hc [H1 H2 H3 H4 H5]. unfold swept, sweep. cbn [negb].
  destruct (match vo_last w with Some t => x.1 - t <? autoGrowCooldown | None => false end) eqn:El; [by constructor|].
  destruct (autoGrowOne (with_stat (vo_size w) x.2)) as [size [grew err]] eqn:Eg.
  destruct size as [n|].
  - destruct (grow_size (with_stat (vo_size w) x.2) n) as (cur & Hcur & Hlt & -> & _ & Hge & _); [by rewrite Eg|]. rewrite Eg in Hge. simpl in Hge, Hcur.
    injection Hcur as <-. rewrite orb_comm in Hge. rewrite Hge. destruct (next_bounds (vo_size w)) as (B1 & B2 & B3 & _); [lia|].
    constructor; cbn [vo_size vo_grown vo_last length spaced]; [lia| | | |].
    + right. destruct B3 as [B3|B3]; [by left|]. right. destruct H2 as [[-> E]|[E|E]]; simpl; lia.
    + destruct H2 as [[-> E]|[E|E]]; simpl; lia.
    + destruct (vo_grown w) as [|t ts]; [done|]. split; [|done]. destruct H5 as (l & Hl & Ht). rewrite Hl in El. apply Z.ltb_ge in El. lia.
    + exists x.1. split; [done|lia].
  - constructor; cbn [vo_size vo_grown vo_last]; try done. destruct (vo_grown w) as [|t ts]; [done|]. destruct H5 as (l & Hl & Ht).
    rewrite Hl in El. apply Z.ltb_ge in El. destruct (err || grew); [exists x.1; split; [done|unfold autoGrowCooldown, Second in *; lia]|by exists l].
Qed.

(** Whatever the guest, the host and Firecracker answer at each sweep, the image of
    a database's volume never shrinks and never passes a hundred gigabytes, is grown at
    most once per cooldown, and at most a hundred times. *)
Theorem volume_only_grows s0 (xs : list (Z * visit)) :
  0 ≤ s0 ≤ autoGrowMaxBytes →
  let w := foldl swept (mkVolume s0 None []) xs in
  s0 ≤ vo_size w ≤ autoGrowMaxBytes ∧ spaced (vo_grown w) ∧ (length (vo_grown w) ≤ 100)%nat.
Proof.
  intros [H0 Hc]. assert (H : grown_ok s0 (foldl swept (mkVolume s0 None []) xs)).
  { induction xs as [|x xs IH] using rev_ind; [|by rewrite foldl_app; apply swept_ok].
    constructor; cbn [foldl vo_size vo_grown vo_last length spaced]; try done; [by left|]. unfold autoGrowMaxBytes, GiB in *. lia. }
  destruct H as [H1 _ H3 H4 _]. split; [done|]. split; [done|]. unfold autoGrowMaxBytes, GiB in *. lia.
Qed.

(** ** Pinning *)

(** PANDASTACK_CPU_PINS; an empty pool is a disabled pinner. *)
Definition newCPUPinner (raw : string) : list Z :=
  let raw := TrimSpace raw in
  if String.eqb raw "" then []
  else omap (λ part, let '(n, err) := ParseInt (TrimSpace part) in if negb err && (0 <=? n) then Some n else None) (GoStrings.split comma raw).
Definition Assign (pool : list Z) (cursor : nat) (nCPU : Z) : list Z * nat :=
  if bool_decide (pool = []) || (nCPU <=? 0) then ([], cursor)
  else
    let m := length pool in
    let n := Z.to_nat (Z.min nCPU (Z.of_nat m)) in
    ((λ i, pool !!! ((cursor + i) mod m)%nat) <$> seq 0 n, ((cursor + n) mod m)%nat).
(** The cores handed out to a sequence of sandboxes. *)
Fixpoint assigned (pool : list Z) (cursor : nat) (requests : list Z) : list Z :=
  match requests with
  | [] => []
  | n :: requests => let '(out, cursor) := Assign pool cursor n in out ++ assigned pool cursor requests
  end.

Definition parseVCPU (comm : string) : bool * Z :=
  if negb (has_prefix "fc_vcpu" comm) then (false, 0)
  else let '(n, err) := ParseInt (TrimSpace (str_drop 7 comm)) in if err : bool then (false, 0) else (true, n).
(** The core of one thread in PinFC: [None] is a panic, [Some None] a thread that is
    left alone. *)
Definition core_of (cores : list Z) (vcpuOnly : bool) (comm : string) : option (option Z) :=
  let '(isVCPU, idx) := parseVCPU comm in
  if isVCPU : bool then
    let i := Z.rem idx (Z.of_nat (length cores)) in
    if i <? 0 then None else match cores !! Z.to_nat i with Some c => Some (Some c) | None => None end
  else if negb vcpuOnly then match cores with c :: _ => Some (Some c) | [] => None end
  else Some None.

Lemma assign_is_round_robin pool cursor requests : (cursor < length pool)%nat →
  ∃ n, assigned pool cursor requests = (λ i, pool !!! ((cursor + i) mod length pool)%nat) <$> seq 0 n.
Proof.
  revert cursor. induction requests as [|r requests IH]; intros cursor Hc; [by exists 0%nat|]. simpl. unfold Assign.
  destruct (bool_decide (pool = []) || (r <=? 0)); [by apply IH|]. set (n := Z.to_nat _).
  destruct (IH ((cursor + n) mod length pool)%nat) as [k Hk]; [apply Nat.mod_upper_bound; lia|]. exists (n + k)%nat.
  rewrite seq_app, fmap_app, Hk. f_equal. rewrite Nat.add_0_l, <- (Nat.add_0_r n) at 1. rewrite <- fmap_add_seq, <- list_fmap_compose.
  apply list_fmap_ext. intros _ i _. simpl. rewrite Nat.Div0.add_mod_idemp_l. do 2 f_equal. lia.
Qed.

(** How often an index comes up among the first [n] of the round. *)
Definition turns (m start j n : nat) : nat := length (filter (λ i, ((start + i) mod m)%nat = j) (seq 0 n)).
Lemma turns_exact m start j n : (0 < m)%nat → (j < m)%nat →
  turns m start j n = ((n + (start + (m - 1 - j)) mod m) / m)%nat.
Proof.
  intros Hm Hj. unfold turns. set (r := ((start + (m - 1 - j)) mod m)%nat). assert (Hr : (r < m)%nat) by (apply Nat.mod_upper_bound; lia).
  induction n as [|n IH]; [by rewrite Nat.div_small|]. rewrite seq_S, filter_app, length_app, IH. cbn [Nat.add]. rewrite filter_cons, filter_nil.
  assert (Hiff : ((start + n) mod m)%nat = j ↔ ((S n + r) mod m = 0)%nat).
  { assert (E : ((S n + r) mod m = ((start + n) mod m + (m - j)) mod m)%nat).
    { unfold r. rewrite Nat.Div0.add_mod_idemp_r, Nat.Div0.add_mod_idemp_l. f_equal. lia. }
    rewrite E. pose proof (Nat.mod_upper_bound (start + n) m ltac:(lia)) as Hb. set (x := ((start + n) mod m)%nat) in *. clearbody x. split.
    - intros ->. replace (j + (m - j))%nat with m by lia. apply Nat.Div0.mod_same.
    - intros H0. apply Nat.Div0.mod_divides in H0 as [c Hc]. destruct c as [|[|c]]; [lia|lia|]. nia. }
  pose proof (Nat.div_mod_eq (n + r) m) as D1. pose proof (Nat.mod_upper_bound (n + r) m ltac:(lia)) as D2.
  pose proof (Nat.div_mod_eq (S n + r) m) as D3. pose proof (Nat.mod_upper_bound (S n + r) m ltac:(lia)) as D4.
  case_decide as E; simpl.
  - apply Hiff in E. simpl in *. nia.
  - assert ((S n + r) mod m ≠ 0)%nat by (intros H; by apply E, Hiff). simpl in *. nia.
Qed.

(** Whatever sandboxes ask for, two cores of the pool never differ by more than one in
    how often they were handed out. *)
Theorem pins_are_even pool cursor requests i j a b :
  NoDup pool → (cursor < length pool)%nat → pool !! i = Some a → pool !! j = Some b →
  (count_occ Z.eq_dec (assigned pool cursor requests) a ≤ count_occ Z.eq_dec (assigned pool cursor requests) b + 1)%nat.
Proof.
  intros Hn Hc Ha Hb. destruct (assign_is_round_robin pool cursor requests Hc) as [n ->].
  assert (Hcount : ∀ k c, pool !! k = Some c →
    count_occ Z.eq_dec ((λ i, pool !!! ((cursor + i) mod length pool)%nat) <$> seq 0 n) c = turns (length pool) cursor k n).
  { intros k c Hk. unfold turns. clear -Hk Hn Hc. generalize (seq 0 n). intros l. induction l as [|x l IH]; [done|].
    rewrite fmap_cons. cbn [count_occ]. rewrite filter_cons. set (y := ((cursor + x) mod length pool)%nat).
    assert (Hy : is_Some (pool !! y)) by (apply lookup_lt_is_Some; apply Nat.mod_upper_bound; lia). destruct Hy as [d Hd].
    rewrite (list_lookup_total_correct _ _ _ Hd). destruct (Z.eq_dec d c) as [->|Hne].
    - rewrite decide_True by (by eapply NoDup_lookup). simpl. by rewrite IH.
    - rewrite decide_False by congruence. apply IH. }
  rewrite (Hcount i a Ha), (Hcount j b Hb). pose proof (lookup_lt_Some _ _ _ Ha). pose proof (lookup_lt_Some _ _ _ Hb).
  rewrite !turns_exact by lia. set (m := length pool) in *.
  pose proof (Nat.mod_upper_bound (cursor + (m - 1 - i)) m ltac:(lia)). pose proof (Nat.mod_upper_bound (cursor + (m - 1 - j)) m ltac:(lia)).
  set (x := ((cursor + (m - 1 - i)) mod m)%nat) in *. set (y := ((cursor + (m - 1 - j)) mod m)%nat) in *.
  transitivity ((n + y + 1 * m) / m)%nat; [apply Nat.Div0.div_le_mono; lia|]. rewrite Nat.div_add by lia. lia.
Qed.

(** ** CPU weights and accounts *)

Definition cpuWeightPerVCPU : Z := 100.
Definition cpuWeightMin : Z := 100.
Definition cpuWeightMax : Z := 10000.
(** The weight that ensureVM writes. *)
Definition weight (vcpus : Z) : Z :=
  let w := i64 (vcpus * cpuWeightPerVCPU) in
  let w := if w <? cpuWeightMin then cpuWeightMin else w in
  if cpuWeightMax <? w then cpuWeightMax else w.
(** The entitlement of a row: [None] without a row; its columns, if they are integers. *)
Definition sandboxSpec (row : option (option Z * option Z)) : Z * Z :=
  let positive (o : option Z) (def : Z) := match o with Some v => if 0 <? v then v else def | None => def end in
  match row with None => (2, 2048) | Some (cpu, mem) => (positive cpu 2, positive mem 2048) end.
Lemma weight_in_proportion v : 1 ≤ v ≤ 100 → weight v = 100 * v.
Proof.
  intros H. unfold weight, cpuWeightPerVCPU, cpuWeightMin, cpuWeightMax. rewrite i64_small by lia.
  destruct (Z.ltb_spec (v * 100) 100); [lia|]. destruct (Z.ltb_spec 10000 (v * 100)); lia.
Qed.
Lemma weight_bounds v : cpuWeightMin ≤ weight v ≤ cpuWeightMax.
Proof.
  unfold weight. set (w := i64 _). clearbody w. unfold cpuWeightMin, cpuWeightMax.
  destruct (Z.ltb_spec w 100); [by simpl|]. destruct (Z.ltb_spec 10000 w); lia.
Qed.
Lemma spec_positive row : 0 < (sandboxSpec row).1 ∧ 0 < (sandboxSpec row).2.
Proof.
  destruct row as [[[c|] [m|]]|]; simpl; try (destruct (Z.ltb_spec 0 c)); try (destruct (Z.ltb_spec 0 m)); simpl; lia.
Qed.

(** The bytes of smaps_rollup's lines, in kB: [lines] are cut into fields, the first
    with its colon. *)
Definition residentPrefixes : list string := ["Rss:"; "Shared_Hugetlb:"; "Private_Hugetlb:"].
Definition resident_line (line : string) : Z :=
  foldl (λ kb pfx, if has_prefix pfx line then
      match Fields line with
      | _ :: f :: _ => let '(v, err) := ParseInt f in if err : bool then kb else i64 (kb + v)
      | _ => kb
      end else kb) 0 residentPrefixes.
Definition newline : Ascii.ascii := Ascii.ascii_of_nat 10.
Definition parseResidentKB (content : string) : Z :=
  foldl (λ kb line, i64 (kb + resident_line line)) 0 (GoStrings.split newline content).

(** What is kept of a sandbox: cpu.stat at the last scrape and the seconds since the
    first; resident memory over time, and when it was read last. *)
Record account := mkAccount { lastUsec : option Z; totalSec : option f64; residGiBSec : option f64; lastResidAt : option Z }.
Definition no_account : account := mkAccount None None None None.
(** scrapeCPU: [usec] is [None] if it cannot be read. *)
Definition scrapeCPU (usec : option Z) (a : account) : account * (f64 * bool) :=
  match usec with
  | None => (a, (f64_zero, false))
  | Some u =>
      match lastUsec a with
      | None => (mkAccount (Some u) (totalSec a) (residGiBSec a) (lastResidAt a), (f64_zero, true))
      | Some prev =>
          if u <? prev then (mkAccount (Some u) (totalSec a) (residGiBSec a) (lastResidAt a), (f64_zero, true))
          else
            let d := f64_div (f64_of_Z (u - prev)) (f64_of_Z 1000000) in
            (mkAccount (Some u) (Some (f64_add (default f64_zero (totalSec a)) d)) (residGiBSec a) (lastResidAt a), (d, true))
      end
  end.
(** time.Duration.Seconds *)
Definition Seconds (d : Z) : f64 := f64_add (f64_of_Z (Z.quot d Second)) (f64_div (f64_of_Z (Z.rem d Second)) (f64_of_Z 1000000000)).
Definition integrate (now rb : Z) (a : account) : account :=
  let resid := match lastResidAt a with
    | Some last =>
        let dt := Seconds (now - last) in
        if f64_ltb f64_zero dt && f64_ltb dt (f64_of_Z 120)
        then Some (f64_add (default f64_zero (residGiBSec a)) (f64_mul (f64_div (f64_of_Z rb) (f64_of_Z (2 ^ 30))) dt))
        else residGiBSec a
    | None => residGiBSec a
    end in
  mkAccount (lastUsec a) (totalSec a) resid (Some now).
(** One pass of cpuTiersReconcile for one sandbox.  A live one: whether ensureVM goes
    through, cpu.stat, the resident bytes, the clock; one without a driver, whether its
    cgroup could be removed ([reapDead]). *)
Inductive pass := Live (ensured : bool) (usec : option Z) (rb : option Z) (now : Z) | Dead (removed : bool).
Definition cpuTiersReconcile (a : account) (p : pass) : account :=
  match p with
  | Live false _ _ _ => a
  | Live true usec rb now =>
      let a := (scrapeCPU usec a).1 in match rb with Some rb => integrate now rb a | None => a end
  | Dead true => mkAccount None (totalSec a) None None
  | Dead false => a
  end.
Definition activeCPUTracked (a : account) : option f64 := totalSec a.
Definition residentGiBTracked (a : account) : option f64 := residGiBSec a.

(** What a pass reads of cpu.stat. *)
Definition read_usec (p : pass) : option Z := match p with Live true u _ _ => u | _ => None end.
Definition reaped (p : pass) : bool := match p with Dead true => true | _ => false end.
Lemma reconcile_cpu a p :
  (lastUsec (cpuTiersReconcile a p), totalSec (cpuTiersReconcile a p)) =
    if reaped p then (None, totalSec a)
    else match read_usec p with
      | None => (lastUsec a, totalSec a)
      | Some u => (Some u, match lastUsec a with
          | Some prev => if u <? prev then totalSec a
              else Some (f64_add (default f64_zero (totalSec a)) (f64_div (f64_of_Z (u - prev)) (f64_of_Z 1000000)))
          | None => totalSec a end)
      end.
Proof.
  destruct p as [[] usec rb now|[]]; simpl; try done. destruct usec as [u|]; simpl; [|by destruct rb].
  destruct (lastUsec a) as [prev|] eqn:E; [|by destruct rb; simpl; rewrite ?E]. destruct (u <? prev); by destruct rb.
Qed.

(** An account that answers for the CPU seconds of a sandbox has measured a window: two
    readings, the first not above the second, without the removal of its cgroup between
    them. *)
Theorem tracked_was_measured ps x :
  activeCPUTracked (foldl cpuTiersReconcile no_account ps) = Some x →
  ∃ ps1 p1 ps2 p2 ps3 u1 u2, ps = ps1 ++ p1 :: ps2 ++ p2 :: ps3 ∧ read_usec p1 = Some u1 ∧ read_usec p2 = Some u2 ∧ u1 ≤ u2 ∧
    Forall (λ p, reaped p = false ∧ read_usec p = None) ps2.
Proof.
  assert (Hlast : ∀ ps u, lastUsec (foldl cpuTiersReconcile no_account ps) = Some u →
    ∃ ps1 p1 ps2, ps = ps1 ++ p1 :: ps2 ∧ read_usec p1 = Some u ∧ Forall (λ p, reaped p = false ∧ read_usec p = None) ps2).
  { clear. intros ps. induction ps as [|p ps IH] using rev_ind; intros u; [done|]. rewrite foldl_app. cbn [foldl].
    pose proof (reconcile_cpu (foldl cpuTiersReconcile no_account ps) p) as E. destruct (cpuTiersReconcile _ p) as [l t r ra]. cbn [lastUsec totalSec] in *.
    destruct (reaped p) eqn:Er; [by injection E as -> _|]. destruct (read_usec p) as [v|] eqn:Eu.
    - injection E as -> _. intros [= ->]. by exists ps, p, [].
    - injection E as -> _. intros (ps1 & p1 & ps2 & -> & H1 & H2)%IH. exists ps1, p1, (ps2 ++ [p]). rewrite <- app_assoc. split_and!; [done|done|].
      apply Forall_app. split; [done|]. by constructor. }
  revert x. induction ps as [|p ps IH] using rev_ind; intros x; [done|]. unfold activeCPUTracked in *. rewrite foldl_app. cbn [foldl].
  pose proof (reconcile_cpu (foldl cpuTiersReconcile no_account ps) p) as E. destruct (cpuTiersReconcile _ p) as [l t r ra]. cbn [lastUsec totalSec] in *.
  assert (Hold : totalSec (foldl cpuTiersReconcile no_account ps) = Some x → ∃ ps1 p1 ps2 p2 ps3 u1 u2, ps ++ [p] = ps1 ++ p1 :: ps2 ++ p2 :: ps3 ∧
    read_usec p1 = Some u1 ∧ read_usec p2 = Some u2 ∧ u1 ≤ u2 ∧ Forall (λ p, reaped p = false ∧ read_usec p = None) ps2).
  { intros (ps1 & p1 & ps2 & p2 & ps3 & u1 & u2 & -> & H)%IH. exists ps1, p1, ps2, p2, (ps3 ++ [p]), u1, u2. split; [|done].
    by rewrite <- app_assoc, <- app_comm_cons, <- app_assoc, <- app_comm_cons. }
  destruct (reaped p) eqn:Er; [by injection E as _ ->|]. destruct (read_usec p) as [u|] eqn:Eu; [|by injection E as _ ->].
  destruct (lastUsec (foldl cpuTiersReconcile no_account ps)) as [prev|] eqn:El; [|by injection E as _ ->].
  destruct (Z.ltb_spec u prev) as [|Hle]; [by injection E as _ ->|]. intros _.
  destruct (Hlast ps prev El) as (ps1 & p1 & ps2 & -> & H1 & H2). exists ps1, p1, ps2, p, [], prev, u. split; [by rewrite <- app_assoc|]. done.
Qed.

(** ** Examples *)

Definition w_visit (patch : bool) : visit :=
  mkVisit true (Some " /dev/vdb 5368709120 4831838208 ") None (Some (2 ^ 40)) true true patch (Some 0).
Definition w_sweeps (patch : bool) : list (Z * visit) := (λ i, (Z.of_nat i * autoGrowCooldown, w_visit patch)) <$> seq 0 9.
Lemma volume_only_grows_witness :
  let w := foldl swept (mkVolume (5 * GiB) None []) (w_sweeps true) in
  5 * GiB ≤ vo_size w ≤ autoGrowMaxBytes ∧ spaced (vo_grown w) ∧ (length (vo_grown w) ≤ 100)%nat.
Proof. apply (volume_only_grows (5 * GiB) (w_sweeps true)). vm_compute. split; discriminate. Defined.
(** The image is grown before Firecracker and the guest are asked: where they refuse,
    it goes up to the cap, a step at each cooldown, with nothing gained. *)
Lemma refused_growth_ratchets : vo_size (foldl swept (mkVolume (5 * GiB) None []) (w_sweeps false)) = autoGrowMaxBytes.
Proof. vm_compute. reflexivity. Qed.
(** The guard sees the host's free blocks, not what sparse images were promised: two
    volumes take the same thirty free gigabytes. *)
Lemma promises_are_not_counted :
  let v := mkVisit true (Some "/dev/vdb 42949672960 42949672960") (Some (40 * GiB)) (Some (30 * GiB)) true true true (Some 0) in
  let step := autoGrowOne v in
  step = (Some (60 * GiB), (true, false)) ∧ 30 * GiB < 2 * (60 * GiB - 40 * GiB).
Proof. vm_compute. done. Qed.

Definition w_pool : list Z := [2; 3; 5].
Definition w_requests : list Z := [2; 1; 8; 2].
Lemma pins_are_even_witness :
  (count_occ Z.eq_dec (assigned (newCPUPinner "2, 3,x,5") 0%nat w_requests) 2%Z ≤ count_occ Z.eq_dec (assigned (newCPUPinner "2, 3,x,5") 0%nat w_requests) 5%Z + 1)%nat.
Proof.
  assert (E : newCPUPinner "2, 3,x,5" = w_pool) by (vm_compute; reflexivity). rewrite E.
  apply (pins_are_even w_pool 0%nat w_requests 0%nat 2%nat); [|simpl; lia|reflexivity|reflexivity]. apply (bool_decide_unpack _). vm_compute. exact I.
Defined.
(** A negative index in a thread's name is a negative index of the slice. *)
Lemma negative_vcpu_panics : core_of [2; 3] true "fc_vcpu -1" = None.
Proof. vm_compute. reflexivity. Qed.
(** The seconds of a sandbox stay when its cgroup is removed, unlike its memory: the map
    keeps every sandbox there ever was, and one that is woken again is tracked from its
    first reading. *)
Lemma total_survives_the_reap :
  let a := foldl cpuTiersReconcile no_account
    [Live true (Some 0) (Some (2 ^ 30)) 0; Live true (Some 2000000) (Some (2 ^ 30)) (15 * Second); Dead true] in
  activeCPUTracked a = Some (f64_of_Z 2) ∧ residentGiBTracked a = None.
Proof. vm_compute. done. Qed.
